(* ===== verification/_CoqProject ===== *)
-Q . S2P
Prelude.v
Words.v
BTree.v
Abi.v
Services.v
Supervisor.v
Vma.v
Pty.v
Gpt.v
Buddy.v
BuddyLinks.v
BuddyBlocks.v
BuddyBoot.v
BuddySpec.v
Frames.v
SharedFrames.v
Vfs.v
Pages.v
Tmpfs.v
TmpfsSpec.v
Swap.v
SwapSlots.v
SwapSpec.v
AfUnix.v
AfUnixSpec.v
PageCache.v
PageCacheSpec.v
PageCacheSync.v
SwapCache.v
Timer.v
TimerSpec.v
Paths.v
Dns.v
DnsSpec.v
Heap.v
HeapSpec.v
Storage.v
VantaFs.v
VantaFsDisk.v
VantaFsSpec.v
Mounts.v
MountsSpec.v
DentrySpec.v
DentryOps.v
TmpfsNames.v
Net.v
NetSpec.v
Sockets.v
Network.v
TcpSpec.v
TcpHandshake.v
TcpDelivery.v
Tasks.v
Sched.v
SchedFair.v
SchedSafe.v
SchedTurns.v
SchedFutex.v
PageTable.v
PageTableTree.v
PageTableSpec.v
PageTableSpaces.v
PageTableFork.v
PageTableClone.v
UserMem.v
Fork.v
