(* ===== verification/Prelude.v ===== *)
(** * Vanta: a verification library for the Vanta operating system

    Vanta ([rust/]) is a microkernel operating system.  A boot loader enters
    [kernel/src/main.rs]; the kernel sets up physical memory, paging and its
    heap, finds its root and swap partitions in a GPT, mounts filesystems and
    runs user processes, which reach it by system calls.  Service requests
    from the native ABI pass through a supervisor.

    ** Parts of the program and the files that model them

    Paths are below [rust/]; one file holds the data and operations of a
    component, a second one ([...Spec]) what is proved of it.

    - [Prelude], [Words], [BTree]: results with the three endings of a Rust
      call ([Ok], [Err], [Panic]), arithmetic at machine width, slices and
      indexing, little- and big-endian numbers, ordered maps.
    - [Abi] ([abi/src/lib.rs]): feature sets, errno encoding, capability
      rights and identifiers, directory records, credentials.
    - [Services], [Supervisor] ([services/src/lib.rs]): the wire format of
      requests and responses; the supervisor with its sixteen slots and the
      audit ring, against an abstract map of services.
    - [Gpt] ([gpt/src/lib.rs]): header and entries, checksums, discovery on a
      block device, confinement of a partition's reads and writes.
    - [Buddy] and [BuddyLinks], [BuddyBlocks], [BuddyBoot], [BuddySpec]
      ([kernel/src/memory.rs]): the frame allocator, from the arrays to the
      promise made to its callers.  [Frames] states that promise as the class
      [FrameAllocator] and gives the instance; [Tmpfs], [Swap], [PageCache]
      and [Heap] are verified against the class.
      [SharedFrames] adds the counts of frames with several users, for
      the page tables and the swap.
    - [Vma] ([kernel/src/vma.rs]): the areas of an address space.
    - [PageTable] ([kernel/src/paging.rs]): the four-level tables in physical
      memory.  [PageTableTree] and [PageTableSpec] read them as a finite map
      of pages, [PageTableSpaces] follows a space from creation to release,
      [PageTableFork] and [PageTableClone] all spaces at once, with pages
      shared until they are written.  [UserMem] ([kernel/src/process.rs])
      writes to a process; [Fork] holds the properties.
    - [Pages]: byte strings kept in 4096-byte frames, shared by the three
      components that store data in frames.
    - [Tmpfs], [TmpfsSpec] ([kernel/src/tmpfs.rs]); [Swap], [SwapSlots],
      [SwapSpec] ([kernel/src/swap.rs] and the swap half of [paging.rs]);
      [PageCache], [PageCacheSpec], [PageCacheSync]
      ([kernel/src/page_cache.rs]), over any filesystem of class [BackingFs];
      [SwapCache] shows that the page cache's eviction is what [SwapSpec]
      asks of it: it gives back only the cache's own references;
      [Heap], [HeapSpec] ([kernel/src/heap.rs]).
    - [Pty] ([kernel/src/pty.rs]); [AfUnix], [AfUnixSpec]
      ([kernel/src/af_unix.rs]); [Timer], [TimerSpec]
      ([kernel/src/timer.rs]); [Dns], [DnsSpec] ([kernel/src/dns.rs]).
    - [Vfs]: the errors, metadata and direct map the filesystems share.
      [Storage] ([kernel/src/storage.rs]) is the block device interface;
      [Paths] the strings of path names; [VantaFs], [VantaFsDisk],
      [VantaFsSpec] the flat filesystem on a device; [Mounts], [MountsSpec]
      the mount table, links and path resolution, [DentrySpec], [DentryOps],
      [TmpfsNames] the dentry cache above them (all [kernel/src/vfs.rs]).
    - [Net], [NetSpec] ([kernel/src/net.rs]): frames, packets and checksums;
      [Sockets] ([kernel/src/socket.rs]) and [Network]
      ([kernel/src/network.rs]): the socket table, TCP and UDP; [TcpSpec],
      [TcpHandshake], [TcpDelivery] what two machines achieve with them.
    - [Tasks], [Sched] ([kernel/src/scheduler.rs]): tasks, run queues,
      signals, futexes; [SchedSafe] (no panic), [SchedFair] and [SchedTurns]
      (every task gets its turn, on the boot processor and the others) and
      [SchedFutex] the proofs.

    ** How the code is represented

    A module's statics and structs are a record, each function that changes
    them a function to the new record and its result.  Locks are held for a
    whole operation, so an operation is one step; where the code drops a lock
    in the middle (the page cache around an allocation) the intermediate work
    is a step of its own.  The kernel is built in release mode: plain
    additions and multiplications wrap ([u64], [u32], ...), while indexing
    out of range panics, and panics are the constructor [Panic], never left
    out.  Hardware and foreign code (the block device, the filesystem under
    the page cache, the clock chip's registers, entropy) are parameters.

    ** What is proved

    - Refinement of an abstract state: the supervisor is a map of services
      with an audit log; the timer wheel is a set of timers; the page cache
      and the disk are one file; a page is the same in a frame or in a slot;
      VantaFS is a map of files; page tables are maps of pages; path
      operations are the same with and without the dentry cache.
    - Invariants over any run: the frame allocator never hands out a frame
      in use, files of tmpfs own their frames, heap allocations stay apart,
      what arrives on a local socket is what was sent, in order, once; the
      scheduler neither panics, while the current task has not ended, nor
      runs a task that is not runnable; a fork and writes keep every writable
      page in one address space, so no process sees what another writes.
    - TCP: whatever the network does to the segments, bytes are read in order
      and once as long as no FIN is taken early; a handshake within its time
      limits leaves both ends in agreement.
    - Liveness: every runnable task gets the processor within a bound; timers
      fire; eviction finds a page.
    - Functional behaviour of each operation with its error branches: area
      insertion and removal, the search of a free region, line editing of a
      terminal, partition tables, reads and writes of files, boot from a
      memory map.
    - Round trips of the wire formats; termination of the loops driven by
      outside data (compressed names, searches, write-back).
    - Theorems that exhibit what the code does wrong are next to the
      component they concern; the manifest lists them as findings.  Where such
      a behaviour limits a property, the property states the condition and its
      comment names the theorem: out-of-order FINs ([early_fin_truncates]), a
      task that ends itself ([self_kill_panics]), pages in swap at a fork
      ([fork_forgets_swapped]), [mprotect] of a shared page
      ([mprotect_shares_writes]), failed disk reads
      ([failed_disk_read_gives_zeros], [failed_read_zeroes_page]), references
      to free frames ([ref_inc_of_free_frame]), futexes of two processes
      ([futex_wakes_other_process]).

    ** Fuel

    Loops are structural where they can be.  The others carry fuel that is
    proved to be enough: the search of a free region has one unit per area
    and one more; splitting a memory range one per frame; read and write
    loops one per byte; the clock scan the 1024 steps of the code; write-back
    one per dirty page; readahead the code's 15 pages; the promotion of far
    timers one per timer; the labels of a name one per byte of the packet.
    Cutting a path takes one unit per character, the search for free sectors
    one per candidate, a stream's chunks one per byte, received frames one per
    frame pending and one more, a checksum three folds, which are enough for
    any packet.  [NAME_STEPS] is not fuel but the bound of 128 steps in the
    code.  The idle loop of the scheduler does not end by itself and is one
    round ([wait_step]).

    ** What is not modelled

    Device access, descriptor tables of the processor, assembly entry points
    and the boot order (no logic beyond the hardware's); the vendored RedoxFS
    and the boot archive; several processors at once (operations are atomic
    steps, and the scheduler's safety is for one processor) and the caches of
    translations; demand paging ([resolve_demand_page]); of the scheduler the
    descriptor tables, pipes, IPC, epoll and terminal requests; of the network
    its bring-up, DHCP and the text of its status files; system-call dispatch,
    program loading, the Linux personality and the image builder. *)

From stdpp Require Export base tactics option numbers list.
From stdpp Require Import gmap.

#[global] Open Scope Z_scope.

(** ** Results

    Rust's [Result<A, E>] together with the third way a Rust call can end,
    a panic (slice index out of range, [unwrap] of [None], [Vec] capacity
    overflow).  [Panic] aborts the kernel, so it is never caught. *)
Inductive res (E A : Type) : Type :=
| Ok (a : A)
| Err (e : E)
| Panic.
Arguments Ok {E A} a.
Arguments Err {E A} e.
Arguments Panic {E A}.

#[global] Instance res_ret E : MRet (res E) := fun _ a => Ok a.
#[global] Instance res_bind E : MBind (res E) := fun _ _ f r =>
  match r with Ok a => f a | Err e => Err e | Panic => Panic end.

#[global] Instance res_eq_dec `{EqDecision E, EqDecision A} : EqDecision (res E A).
Proof. solve_decision. Defined.

(** [ok_or o e] is [Option::ok_or]; [expect o] panics on [None]. *)
Definition ok_or {E A} (e : E) (o : option A) : res E A :=
  match o with Some a => Ok a | None => Err e end.

Definition expect {E A} (o : option A) : res E A :=
  match o with Some a => Ok a | None => Panic end.

(** [guard_err b e]: the early return [if b { return Err(e) }]. *)
Definition guard_err {E} (b : bool) (e : E) : res E unit :=
  if b then Err e else Ok ().

Lemma res_bind_Ok {E A B} (r : res E A) (f : A → res E B) b :
  (r ≫= f) = Ok b ↔ ∃ a, r = Ok a ∧ f a = Ok b.
Proof.
  split; [|by intros (a & -> & ?)].
  destruct r as [a|e|]; cbn; intros; try discriminate. by exists a.
Qed.

Lemma res_bind_Panic {E A B} (r : res E A) (f : A → res E B) :
  r ≠ Panic → (∀ a, r = Ok a → f a ≠ Panic) → (r ≫= f) ≠ Panic.
Proof. destruct r; cbn; naive_solver. Qed.

Lemma ok_or_Ok {E A} (e : E) (o : option A) a :
  ok_or e o = Ok a ↔ o = Some a.
Proof. destruct o; cbn; naive_solver. Qed.

Lemma ok_or_no_panic {E A} (e : E) (o : option A) : ok_or e o ≠ Panic.
Proof. by destruct o. Qed.

Lemma guard_err_Ok {E} b (e : E) u : guard_err b e = Ok u ↔ b = false.
Proof. destruct b, u; cbn; naive_solver. Qed.

Lemma guard_err_no_panic {E} b (e : E) : guard_err b e ≠ Panic.
Proof. by destruct b. Qed.

(** ** State and errors

    A method taking [&mut self] and returning [Result<A, E>] is a function
    of [M S E A].  Effects performed before an early [return Err(..)] stay,
    as they do in Rust. *)
Definition M (S E A : Type) : Type := S → S * res E A.

#[global] Instance M_ret S E : MRet (M S E) := fun _ a s => (s, Ok a).
#[global] Instance M_bind S E : MBind (M S E) := fun _ _ f m s =>
  match m s with
  | (s', Ok a) => f a s'
  | (s', Err e) => (s', Err e)
  | (s', Panic) => (s', Panic)
  end.

Definition get {S E} : M S E S := fun s => (s, Ok s).
Definition put {S E} (s : S) : M S E unit := fun _ => (s, Ok ()).
Definition modify {S E} (f : S → S) : M S E unit := fun s => (f s, Ok ()).
Definition fail {S E A} (e : E) : M S E A := fun s => (s, Err e).
Definition lift {S E A} (r : res E A) : M S E A := fun s => (s, r).

Lemma let_pair_fst {A B C} (p : A * B) (f : B → C) :
  (let '(a, b) := p in (a, f b)).1 = p.1.
Proof. by destruct p. Qed.

(** ** Arrays, vectors and slices indexed by [usize] *)

Abbreviation zlen l := (Z.of_nat (length l)).

(** [index l i] is [l[i]]; [None] where Rust panics. *)
Definition index {A} (l : list A) (i : Z) : option A :=
  if bool_decide (0 ≤ i < zlen l) then l !! Z.to_nat i else None.

(** [update l i x] is [l[i] = x]. *)
Definition update {A} (l : list A) (i : Z) (x : A) : option (list A) :=
  if bool_decide (0 ≤ i < zlen l) then Some (<[Z.to_nat i := x]> l) else None.

(** [slice l a b] is [&l[a..b]]. *)
Definition slice {A} (l : list A) (a b : Z) : option (list A) :=
  if bool_decide (0 ≤ a ≤ b ∧ b ≤ zlen l)
  then Some (take (Z.to_nat (b - a)) (drop (Z.to_nat a) l)) else None.

(** [splice l a bs] is [l[a..a + bs.len()].copy_from_slice(bs)] when the
    range lies in [l]. *)
Definition splice {A} (l : list A) (a : Z) (bs : list A) : list A :=
  take (Z.to_nat a) l ++ bs ++ drop (Z.to_nat a + length bs) l.

Lemma length_splice {A} (l bs : list A) a :
  0 ≤ a → a + zlen bs ≤ zlen l → length (splice l a bs) = length l.
Proof. intros. unfold splice. rewrite !length_app, length_take, length_drop. lia. Qed.

Lemma splice_0 {A} (l bs : list A) : splice l 0 bs = bs ++ drop (length bs) l.
Proof. done. Qed.

Lemma slice_Some {A} (l : list A) a b s :
  slice l a b = Some s ↔
  (0 ≤ a ≤ b ∧ b ≤ zlen l) ∧ s = take (Z.to_nat (b - a)) (drop (Z.to_nat a) l).
Proof. unfold slice. case_bool_decide; naive_solver. Qed.

Lemma slice_in {A} (l : list A) a b :
  0 ≤ a ≤ b → b ≤ zlen l →
  slice l a b = Some (take (Z.to_nat (b - a)) (drop (Z.to_nat a) l)).
Proof. intros. apply slice_Some. auto. Qed.

Lemma slice_out {A} (l : list A) a b : zlen l < b → slice l a b = None.
Proof. intros. unfold slice. rewrite bool_decide_false by lia. done. Qed.

Lemma slice_length {A} (l s : list A) a b :
  slice l a b = Some s → zlen s = b - a.
Proof.
  intros [? ->]%slice_Some. rewrite length_take, length_drop. lia.
Qed.

(** Reading back the range just written, and reading beside it. *)
Lemma splice_same {A} (l bs : list A) a b :
  0 ≤ a → b = a + zlen bs → b ≤ zlen l → slice (splice l a bs) a b = Some bs.
Proof.
  intros ? -> ?. rewrite slice_in; [|lia|rewrite length_splice; lia].
  unfold splice. f_equal.
  rewrite drop_app_length' by (rewrite length_take; lia).
  rewrite take_app_length' by lia. done.
Qed.

Lemma splice_before {A} (l bs : list A) a c d :
  0 ≤ c ≤ d → d ≤ a → a + zlen bs ≤ zlen l →
  slice (splice l a bs) c d = slice l c d.
Proof.
  intros. rewrite !slice_in by (rewrite ?length_splice; lia).
  unfold splice. f_equal.
  rewrite drop_app_le by (rewrite length_take; lia).
  rewrite take_app_le by (rewrite length_drop, length_take; lia).
  rewrite take_drop_commute, take_take, take_drop_commute.
  repeat (f_equal; try lia).
Qed.

Lemma splice_after {A} (l bs : list A) a c d :
  0 ≤ a → c ≤ d → a + zlen bs ≤ c → d ≤ zlen l →
  slice (splice l a bs) c d = slice l c d.
Proof.
  intros. rewrite !slice_in by (rewrite ?length_splice; lia).
  unfold splice. f_equal. f_equal.
  rewrite drop_app_ge by (rewrite length_take; lia).
  rewrite drop_app_ge by (rewrite length_take; lia).
  rewrite drop_drop, length_take. f_equal. lia.
Qed.

Lemma index_Some {A} (l : list A) i x :
  index l i = Some x ↔ 0 ≤ i ∧ l !! Z.to_nat i = Some x.
Proof.
  unfold index. case_bool_decide as H; split.
  - intros ->. split; [lia|done].
  - by intros [_ ?].
  - done.
  - intros [? Hl]. apply lookup_lt_Some in Hl. lia.
Qed.

Lemma slice_cat {A} (l x y : list A) a b c :
  slice l a b = Some x → slice l b c = Some y → slice l a c = Some (x ++ y).
Proof.
  intros [? ->]%slice_Some [? ->]%slice_Some. apply slice_Some. split; [lia|].
  replace (Z.to_nat (c - a)) with (Z.to_nat (b - a) + Z.to_nat (c - b))%nat by lia.
  rewrite <- take_take_drop, drop_drop. do 3 f_equal. lia.
Qed.

Lemma slice_index {A} (l : list A) i x : index l i = Some x → slice l i (i + 1) = Some [x].
Proof.
  intros [? Hi]%index_Some. pose proof (lookup_lt_Some _ _ _ Hi).
  rewrite slice_in by lia. f_equal. replace (Z.to_nat (i + 1 - i)) with 1%nat by lia.
  by rewrite (drop_S _ _ _ Hi).
Qed.

Lemma slice_Forall {A} (P : A → Prop) (l s : list A) a b :
  Forall P l → slice l a b = Some s → Forall P s.
Proof. intros H [_ ->]%slice_Some. by apply Forall_take, Forall_drop. Qed.

Lemma slice_full {A} (l s : list A) b : slice l 0 b = Some s → l = s ++ drop (Z.to_nat b) l.
Proof.
  intros [? ->]%slice_Some. rewrite Z.sub_0_r, drop_0. by rewrite take_drop.
Qed.

Lemma splice_adjacent {A} (l x y : list A) a b : 0 ≤ a → b = a + zlen x → b ≤ zlen l →
  splice (splice l a x) b y = splice l a (x ++ y).
Proof.
  intros Ha -> Hl. unfold splice.
  replace (Z.to_nat (a + zlen x)) with (Z.to_nat a + length x)%nat by lia.
  assert (length (take (Z.to_nat a) l) = Z.to_nat a) as Ht by (rewrite length_take; lia).
  rewrite (app_assoc (take _ l) x).
  rewrite take_app_length' by (rewrite length_app; lia).
  rewrite <- !app_assoc. do 3 f_equal.
  rewrite (app_assoc (take _ l) x), drop_app_ge by (rewrite length_app; lia).
  rewrite drop_drop, !length_app, Ht. f_equal. lia.
Qed.

Lemma slice_splice_in {A} (l b : list A) a u v : 0 ≤ a → 0 ≤ u ≤ v → v ≤ zlen b → a + zlen b ≤ zlen l →
  slice (splice l a b) (a + u) (a + v) = slice b u v.
Proof.
  intros Ha Hu Hv Hl. rewrite !slice_in by (rewrite ?length_splice; lia). f_equal.
  replace (a + v - (a + u)) with (v - u) by lia. unfold splice.
  assert (length (take (Z.to_nat a) l) = Z.to_nat a) as Ht by (rewrite length_take; lia).
  rewrite drop_app_ge by lia. rewrite Ht. replace (Z.to_nat (a + u) - Z.to_nat a)%nat with (Z.to_nat u) by lia.
  rewrite drop_app_le by lia. by rewrite take_app_le by (rewrite length_drop; lia).
Qed.

Lemma index_slice {A} (l : list A) i : index l i = match slice l i (i + 1) with Some [x] => Some x | _ => None end.
Proof.
  unfold index. case_bool_decide as Hi.
  - rewrite slice_in by lia. replace (Z.to_nat (i + 1 - i)) with 1%nat by lia.
    destruct (lookup_lt_is_Some_2 l (Z.to_nat i)) as [x Hx]; [lia|]. by rewrite Hx, (drop_S _ _ _ Hx).
  - unfold slice. rewrite bool_decide_false by lia. done.
Qed.

Lemma slice_skip {A} (x y : list A) u v : zlen x ≤ u → slice (x ++ y) u v = slice y (u - zlen x) (v - zlen x).
Proof.
  intros Hu. unfold slice. rewrite length_app. rewrite (bool_decide_ext _ (0 ≤ u - zlen x ≤ v - zlen x ∧ v - zlen x ≤ zlen y)) by lia.
  case_bool_decide; [|done]. f_equal. rewrite drop_app_ge by lia. f_equal; [lia|]. f_equal. lia.
Qed.

Lemma slice_head {A} (x y : list A) v : v = zlen x → slice (x ++ y) 0 v = Some x.
Proof.
  intros ->. rewrite slice_in by (rewrite ?length_app; lia). f_equal. rewrite drop_0, Z.sub_0_r, Nat2Z.id.
  by rewrite take_app_length.
Qed.

Lemma slice_all {A} (x : list A) v : v = zlen x → slice x 0 v = Some x.
Proof. intros. rewrite <- (app_nil_r x) at 1. by apply slice_head. Qed.

Lemma filter_length_le {A} (P Q : A → Prop) `{!∀ x, Decision (P x), !∀ x, Decision (Q x)} l :
  (∀ x, P x → Q x) → (length (filter P l) ≤ length (filter Q l))%nat.
Proof.
  intros HPQ. induction l as [|y l IH]; [done|]. rewrite !filter_cons.
  repeat case_decide; cbn; naive_solver lia.
Qed.

Lemma filter_length_lt {A} (P Q : A → Prop) `{!∀ x, Decision (P x), !∀ x, Decision (Q x)} l x :
  (∀ x, P x → Q x) → x ∈ l → Q x → ¬ P x →
  (length (filter P l) < length (filter Q l))%nat.
Proof.
  intros HPQ Hx HQ HP. induction Hx as [y l|y z l Hx IH]; rewrite !filter_cons.
  - rewrite decide_False, decide_True by done. cbn.
    pose proof (filter_length_le P Q l HPQ). lia.
  - specialize (IH HQ HP). repeat case_decide; cbn; naive_solver lia.
Qed.

(** Inversion of a successful chain of binds, one bind per step. *)
Ltac inv_bind H :=
  let x := fresh "x" in let E := fresh "E" in
  apply res_bind_Ok in H as (x & E & H).
