(* ===== verification/Words.v ===== *)
(** * Machine integers

    A [w]-bit unsigned integer is a [Z] in [0, 2^w).  The shipped kernel is
    the release profile, where plain [+], [-] and [*] wrap; [checked_*],
    [saturating_*] and [wrapping_*] are the methods of the standard library. *)

From S2P Require Import Prelude.

Definition is_u (w z : Z) : Prop := 0 ≤ z < 2 ^ w.
#[global] Instance is_u_dec w z : Decision (is_u w z).
Proof. unfold is_u. apply _. Defined.

Definition wrap (w z : Z) : Z := z mod 2 ^ w.
Abbreviation u8 := (wrap 8).
Abbreviation u16 := (wrap 16).
Abbreviation u32 := (wrap 32).
Abbreviation u64 := (wrap 64).

(** Two's complement reading of a [w]-bit pattern, e.g. [x as i32]. *)
Definition signed (w z : Z) : Z :=
  let x := wrap w z in if x <? 2 ^ (w - 1) then x else x - 2 ^ w.
Definition is_i (w z : Z) : Prop := - 2 ^ (w - 1) ≤ z < 2 ^ (w - 1).

Definition checked_add (w a b : Z) : option Z :=
  if a + b <? 2 ^ w then Some (a + b) else None.
Definition checked_sub (a b : Z) : option Z :=
  if b <=? a then Some (a - b) else None.
Definition checked_mul (w a b : Z) : option Z :=
  if a * b <? 2 ^ w then Some (a * b) else None.
Definition saturating_add (w a b : Z) : Z := Z.min (a + b) (2 ^ w - 1).
Definition saturating_sub (a b : Z) : Z := Z.max 0 (a - b).
Definition wrapping_add (w a b : Z) : Z := wrap w (a + b).

(** [!z] on a [w]-bit unsigned integer. *)
Definition bnot (w z : Z) : Z := Z.ldiff (Z.ones w) z.

(** [a & b == b] *)
Definition has_bits (a b : Z) : bool := Z.land a b =? b.

Lemma wrap_range w z : 0 ≤ w → is_u w (wrap w z).
Proof. intros. apply Z.mod_pos_bound. lia. Qed.

Lemma wrap_small w z : is_u w z → wrap w z = z.
Proof. apply Z.mod_small. Qed.

Lemma checked_add_Some w a b c :
  checked_add w a b = Some c ↔ c = a + b ∧ a + b < 2 ^ w.
Proof. unfold checked_add. destruct (Z.ltb_spec (a + b) (2 ^ w)); naive_solver lia. Qed.

Lemma checked_add_None w a b : checked_add w a b = None ↔ 2 ^ w ≤ a + b.
Proof. unfold checked_add. destruct (Z.ltb_spec (a + b) (2 ^ w)); naive_solver lia. Qed.

Lemma checked_mul_Some w a b c :
  checked_mul w a b = Some c ↔ c = a * b ∧ a * b < 2 ^ w.
Proof. unfold checked_mul. destruct (Z.ltb_spec (a * b) (2 ^ w)); naive_solver lia. Qed.

Lemma saturating_add_range w a b :
  0 ≤ w → is_u w a → is_u w b → is_u w (saturating_add w a b).
Proof. unfold is_u, saturating_add. intros. pose proof (Z.pow_pos_nonneg 2 w). lia. Qed.

Lemma signed_id w z : 0 < w → is_i w z → signed w z = z.
Proof.
  unfold is_i, signed, wrap. intros Hw Hz.
  assert (2 ^ w = 2 * 2 ^ (w - 1)) as Hp.
  { rewrite <- Z.pow_succ_r by lia. f_equal. lia. }
  destruct (decide (0 ≤ z)).
  - rewrite Z.mod_small by lia. destruct (Z.ltb_spec z (2 ^ (w - 1))); lia.
  - rewrite <- (Z.mod_unique z (2 ^ w) (-1) (z + 2 ^ w)) by lia.
    destruct (Z.ltb_spec (z + 2 ^ w) (2 ^ (w - 1))); lia.
Qed.

Lemma signed_wrap w z : signed w (wrap w z) = signed w z.
Proof. unfold signed, wrap. by rewrite Zmod_mod. Qed.

Lemma wrap_add_l w a b : wrap w (wrap w a + b) = wrap w (a + b).
Proof. apply Zplus_mod_idemp_l. Qed.
Lemma wrap_add_r w a b : wrap w (a + wrap w b) = wrap w (a + b).
Proof. apply Zplus_mod_idemp_r. Qed.

(** ** Masks *)

Lemma is_u_bits w z : 0 ≤ w → is_u w z ↔ 0 ≤ z ∧ ∀ i, w ≤ i → Z.testbit z i = false.
Proof.
  intros Hw. unfold is_u. split.
  - intros [? ?]. split; [done|]. intros i ?. destruct (decide (z = 0)) as [->|].
    { apply Z.bits_0. }
    apply Z.bits_above_log2; [done|]. assert (Z.log2 z < w); [|lia].
    apply Z.log2_lt_pow2; lia.
  - intros [? Hb]. split; [done|]. destruct (decide (z = 0)) as [->|]; [lia|].
    apply Z.log2_lt_pow2; [lia|]. apply Z.nle_gt. intros Hle.
    specialize (Hb (Z.log2 z) Hle). rewrite Z.bit_log2 in Hb by lia. done.
Qed.

Lemma is_u_land w a b : 0 ≤ w → is_u w a → is_u w (Z.land a b).
Proof.
  intros Hw Ha. assert (0 ≤ a) by apply Ha.
  apply is_u_bits; [done|]. apply is_u_bits in Ha as [_ Hb]; [|done].
  split; [apply Z.land_nonneg; auto|].
  intros i ?. by rewrite Z.land_spec, Hb.
Qed.

Lemma is_u_lor w a b : 0 ≤ w → is_u w a → is_u w b → is_u w (Z.lor a b).
Proof.
  intros Hw [? Ha]%is_u_bits [? Hb]%is_u_bits; try done.
  apply is_u_bits; [done|]. split; [apply Z.lor_nonneg; auto|].
  intros i ?. by rewrite Z.lor_spec, Ha, Hb.
Qed.

Lemma is_u_lxor w a b : 0 ≤ w → is_u w a → is_u w b → is_u w (Z.lxor a b).
Proof.
  intros Hw [? Ha]%is_u_bits [? Hb]%is_u_bits; try done.
  apply is_u_bits; [done|]. split; [apply Z.lxor_nonneg; tauto|].
  intros i ?. by rewrite Z.lxor_spec, Ha, Hb.
Qed.

Lemma is_u_shiftr w z n : 0 ≤ n → is_u w z → is_u w (Z.shiftr z n).
Proof.
  intros Hn [? ?]. unfold is_u. rewrite Z.shiftr_div_pow2 by done.
  pose proof (Z.pow_pos_nonneg 2 n ltac:(lia) Hn).
  split; [apply Z.div_pos; lia|]. apply (Z.le_lt_trans _ z); [|done].
  apply Z.div_le_upper_bound; [done|]. nia.
Qed.

Lemma lxor_inj_r a b c : Z.lxor a c = Z.lxor b c → a = b.
Proof.
  intros H%(f_equal (λ z, Z.lxor z c)). by rewrite !Z.lxor_assoc, !Z.lxor_nilpotent, !Z.lxor_0_r in H.
Qed.

Lemma bnot_inj w a b : is_u w a → is_u w b → bnot w a = bnot w b → a = b.
Proof.
  intros Ha Hb He. destruct (decide (0 ≤ w)) as [Hw|].
  2:{ unfold is_u in *. rewrite Z.pow_neg_r in * by lia. lia. }
  apply is_u_bits in Ha as [? Ha]; [|done]. apply is_u_bits in Hb as [? Hb]; [|done].
  apply Z.bits_inj'. intros i Hi. destruct (decide (i < w)); [|rewrite Ha, Hb; auto with lia].
  apply (f_equal (λ z, Z.testbit z i)) in He. unfold bnot in He.
  rewrite !Z.ldiff_spec, Z.ones_spec_low in He by lia. cbn in He.
  by destruct (Z.testbit a i), (Z.testbit b i).
Qed.

Lemma bnot_testbit w z i :
  0 ≤ w → Z.testbit (bnot w z) i = bool_decide (0 ≤ i < w) && negb (Z.testbit z i).
Proof. intros. unfold bnot. rewrite Z.ldiff_spec, Z.testbit_ones by done.
  f_equal. destruct (Z.leb_spec 0 i), (Z.ltb_spec i w); case_bool_decide; cbn; lia.
Qed.

(** Containment of flag words is containment of their sets of bits. *)
Lemma has_bits_spec a b :
  has_bits a b = true ↔ ∀ i, Z.testbit b i = true → Z.testbit a i = true.
Proof.
  unfold has_bits. rewrite Z.eqb_eq. split.
  - intros H i Hb. rewrite <- H, Z.land_spec in Hb. by apply andb_true_iff in Hb as [? _].
  - intros H. apply Z.bits_inj'. intros i _. rewrite Z.land_spec.
    destruct (Z.testbit b i) eqn:Hb; [by rewrite (H i Hb)|by rewrite andb_false_r].
Qed.

(** [a & !(2^k - 1)] rounds down to a multiple of [2^k]. *)
Lemma align_down w k a :
  0 ≤ k ≤ w → is_u w a → Z.land a (bnot w (2 ^ k - 1)) = a - a mod 2 ^ k.
Proof.
  intros Hk Ha.
  replace (a - a mod 2 ^ k) with (Z.shiftl (Z.shiftr a k) k).
  2:{ rewrite Z.shiftl_mul_pow2, Z.shiftr_div_pow2 by lia.
      pose proof (Z.div_mod a (2 ^ k)). lia. }
  replace (2 ^ k - 1) with (Z.ones k) by (rewrite Z.ones_equiv; lia).
  apply Z.bits_inj'. intros i Hi.
  rewrite Z.land_spec, bnot_testbit, Z.testbit_ones by lia.
  apply is_u_bits in Ha as [? Hb]; [|lia].
  destruct (decide (i < k)).
  - rewrite Z.shiftl_spec_low by lia.
    rewrite (proj2 (Z.leb_le 0 i)), (proj2 (Z.ltb_lt i k)) by lia. cbn.
    by rewrite andb_false_r, andb_false_r.
  - rewrite Z.shiftl_spec_high by lia. rewrite Z.shiftr_spec by lia.
    replace (i - k + k) with i by lia.
    rewrite (proj2 (Z.ltb_ge i k)), andb_false_r by lia. cbn. rewrite andb_true_r.
    case_bool_decide; [by rewrite andb_true_r|]. rewrite andb_false_r. by rewrite Hb by lia.
Qed.

(** [a & (2^k - 1) != 0] tests alignment. *)
Lemma land_mask k a : 0 ≤ k → Z.land a (2 ^ k - 1) = a mod 2 ^ k.
Proof. intros. replace (2 ^ k - 1) with (Z.ones k) by (rewrite Z.ones_equiv; lia).
  by apply Z.land_ones. Qed.

(** ** Little-endian byte strings *)

Fixpoint to_le (n : nat) (z : Z) : list Z :=
  match n with
  | O => []
  | S n' => z mod 256 :: to_le n' (z / 256)
  end.

Fixpoint from_le (bs : list Z) : Z :=
  match bs with
  | [] => 0
  | b :: bs' => b + 256 * from_le bs'
  end.

Abbreviation bytes := (Forall (is_u 8)).

Lemma length_to_le n z : length (to_le n z) = n.
Proof. revert z; induction n; intros; cbn; auto. Qed.

Lemma to_le_bytes n z : bytes (to_le n z).
Proof.
  revert z; induction n as [|n IH]; intros; cbn; constructor; [|auto].
  apply Z.mod_pos_bound. lia.
Qed.

Lemma from_to_le n z : from_le (to_le n z) = z mod 2 ^ (8 * Z.of_nat n).
Proof.
  revert z. induction n as [|n IH]; intros z; cbn [to_le from_le].
  { cbn. by rewrite Z.mod_1_r. }
  rewrite IH. replace (8 * Z.of_nat (S n)) with (8 + 8 * Z.of_nat n) by lia.
  rewrite Z.pow_add_r, Z.rem_mul_r by lia. done.
Qed.

Lemma from_to_le_small n z : is_u (8 * Z.of_nat n) z → from_le (to_le n z) = z.
Proof. intros. rewrite from_to_le. by apply Z.mod_small. Qed.

Lemma from_le_range bs : bytes bs → is_u (8 * zlen bs) (from_le bs).
Proof.
  unfold is_u. induction 1 as [|b bs [? ?] _ IH]; cbn [from_le length]; [lia|].
  replace (8 * Z.of_nat (S (length bs))) with (8 + 8 * zlen bs) by lia.
  rewrite Z.pow_add_r by lia. lia.
Qed.

Lemma to_from_le bs : bytes bs → to_le (length bs) (from_le bs) = bs.
Proof.
  induction 1 as [|b bs [? ?] _ IH]; cbn [to_le from_le length]; [done|].
  f_equal.
  - rewrite Z.mul_comm, Z_mod_plus_full. by apply Z.mod_small.
  - rewrite Z.mul_comm, Z.div_add, Z.div_small by lia. by rewrite Z.add_0_l.
Qed.

Lemma to_from_le_n n bs : bytes bs → zlen bs = Z.of_nat n → to_le n (from_le bs) = bs.
Proof. intros ? Hn. replace n with (length bs) by lia. by apply to_from_le. Qed.

(** ** Hints *)

Create HintDb words.
Create Rewrite HintDb words.
#[export] Hint Resolve wrap_range saturating_add_range is_u_land is_u_lor
  to_le_bytes from_le_range : words.
#[export] Hint Rewrite length_to_le @length_replicate @length_app : words.
