(* ===== verification/BTree.v ===== *)
(** * Ordered maps

    [BTreeMap<u64, V>] is a [gmap Z V] together with its entries in key
    order, the order in which the code iterates and takes ranges. *)

From stdpp Require Import gmap sorting.
From S2P Require Import Prelude.

Section btree.
Context {V : Type}.
Implicit Types (m : gmap Z V) (k : Z) (v : V).

Definition key_le (a b : Z * V) : Prop := a.1 ≤ b.1.
#[local] Instance key_le_dec : RelDecision key_le.
Proof. intros a b. unfold key_le. apply _. Defined.
#[local] Instance key_le_trans : Transitive key_le.
Proof. intros a b c. unfold key_le. lia. Qed.
#[local] Instance key_le_total : Total key_le.
Proof. intros a b. unfold key_le. lia. Qed.

(** [m.iter()], [m.keys()], [m.values()] *)
Definition entries m : list (Z * V) := merge_sort key_le (map_to_list m).
Definition keys m : list Z := (entries m).*1.
Definition values m : list V := (entries m).*2.

(** [m.range(..k).next_back()] and [m.range(..=k).next_back()] *)
Definition last_lt m k : option (Z * V) :=
  last (filter (λ e, e.1 < k) (entries m)).
Definition last_le m k : option (Z * V) :=
  last (filter (λ e, e.1 ≤ k) (entries m)).

Lemma entries_perm m : entries m ≡ₚ map_to_list m.
Proof. apply merge_sort_Permutation. Qed.

Lemma elem_of_entries m k v : (k, v) ∈ entries m ↔ m !! k = Some v.
Proof. rewrite entries_perm. apply elem_of_map_to_list. Qed.

Lemma entries_sorted m : StronglySorted key_le (entries m).
Proof. apply StronglySorted_merge_sort; apply _. Qed.

Lemma NoDup_keys m : NoDup (keys m).
Proof. unfold keys. rewrite entries_perm. apply NoDup_fst_map_to_list. Qed.

Lemma elem_of_keys m k : k ∈ keys m ↔ is_Some (m !! k).
Proof.
  unfold keys. rewrite list_elem_of_fmap. split.
  - intros ([k' v] & -> & H%elem_of_entries). by exists v.
  - intros [v Hv]. exists (k, v). by rewrite elem_of_entries.
Qed.

Lemma elem_of_values m v : v ∈ values m ↔ ∃ k, m !! k = Some v.
Proof.
  unfold values. rewrite list_elem_of_fmap. split.
  - intros ([k v'] & -> & H%elem_of_entries). eauto.
  - intros [k Hk]. exists (k, v). by rewrite elem_of_entries.
Qed.

Lemma length_entries m : length (entries m) = size m.
Proof. rewrite entries_perm. apply length_map_to_list. Qed.

(** The last entry of a prefix of the keys is the greatest one in it. *)
Lemma last_filter_sorted (P : Z * V → Prop) `{!∀ e, Decision (P e)} l e :
  StronglySorted key_le l → last (filter P l) = Some e →
  e ∈ l ∧ P e ∧ ∀ e', e' ∈ l → P e' → e'.1 ≤ e.1.
Proof.
  intros Hs Hl.
  assert (Hin : e ∈ filter P l).
  { apply last_Some in Hl as [l' ->]. set_solver. }
  apply list_elem_of_filter in Hin as [HP Hin]. split_and!; [done..|].
  intros e' Hin' HP'. revert Hl Hin' HP'. clear Hin HP.
  induction Hs as [|a l Hs IH Hall]; [set_solver|]. rewrite filter_cons.
  intros Hl [->|Hin]%elem_of_cons HP'.
  - rewrite decide_True in Hl by done.
    destruct (filter P l) as [|b l'] eqn:Hf; [by simplify_eq/=|].
    rewrite last_cons in Hl.
    assert (e ∈ filter P l) as [_ He]%list_elem_of_filter.
    { rewrite Hf. destruct (last (b :: l')) as [x|] eqn:Hx.
      - simplify_eq. apply last_Some in Hx as [l'' ->]. set_solver.
      - by apply last_None in Hx. }
    rewrite Forall_forall in Hall. by apply Hall.
  - apply IH; [|done..]. destruct (decide (P a)); [|done].
    assert (e' ∈ filter P l) by (apply list_elem_of_filter; auto).
    rewrite last_cons in Hl. destruct (last (filter P l)) eqn:Hx; [done|].
    apply last_None in Hx. rewrite Hx in *. set_solver.
Qed.

Lemma last_filter_None (P : Z * V → Prop) `{!∀ e, Decision (P e)} l :
  last (filter P l) = None ↔ ∀ e, e ∈ l → ¬ P e.
Proof.
  rewrite last_None. split.
  - intros Hf e He HP. assert (e ∈ filter P l) by (apply list_elem_of_filter; auto).
    rewrite Hf in *. set_solver.
  - intros HP. destruct (filter P l) as [|e l'] eqn:Hf; [done|].
    assert (e ∈ filter P l) as [??]%list_elem_of_filter by (rewrite Hf; set_solver).
    naive_solver.
Qed.

Lemma last_lt_Some m k k' v :
  last_lt m k = Some (k', v) →
  m !! k' = Some v ∧ k' < k ∧ ∀ j w, m !! j = Some w → j < k → j ≤ k'.
Proof.
  intros (Hin & ? & Hmax)%last_filter_sorted; [|apply entries_sorted].
  apply elem_of_entries in Hin. split_and!; [done..|].
  intros j w Hj ?. apply (Hmax (j, w)); [by apply elem_of_entries|done].
Qed.

Lemma last_lt_None m k : last_lt m k = None ↔ ∀ j w, m !! j = Some w → k ≤ j.
Proof.
  unfold last_lt. rewrite last_filter_None. split.
  - intros H j w Hj. apply elem_of_entries, H in Hj. cbn in Hj. lia.
  - intros H [j w] Hj%elem_of_entries. apply H in Hj. cbn. lia.
Qed.

Lemma last_lt_unique m k k' v :
  m !! k' = Some v → k' < k → (∀ j w, m !! j = Some w → j < k → j ≤ k') →
  last_lt m k = Some (k', v).
Proof.
  intros Hk ? Hmax. destruct (last_lt m k) as [[j w]|] eqn:E.
  - apply last_lt_Some in E as (Hj & ? & Hmax').
    pose proof (Hmax j w Hj ltac:(lia)). pose proof (Hmax' k' v Hk ltac:(lia)).
    assert (j = k') as -> by lia. congruence.
  - rewrite last_lt_None in E. apply E in Hk. lia.
Qed.

(** Deleting a key at or above the bound does not change the predecessor. *)
Lemma last_lt_delete m k j : k ≤ j → last_lt (delete j m) k = last_lt m k.
Proof.
  intros Hj. destruct (last_lt m k) as [[i v]|] eqn:E.
  - apply last_lt_Some in E as (Hi & ? & Hmax). apply last_lt_unique; [|done|].
    + rewrite lookup_delete_ne by lia. done.
    + intros i' w [? ?]%lookup_delete_Some. eauto.
  - rewrite last_lt_None in *. intros i w [? ?]%lookup_delete_Some. eauto.
Qed.

Lemma last_le_Some m k k' v :
  last_le m k = Some (k', v) →
  m !! k' = Some v ∧ k' ≤ k ∧ ∀ j w, m !! j = Some w → j ≤ k → j ≤ k'.
Proof.
  intros (Hin & ? & Hmax)%last_filter_sorted; [|apply entries_sorted].
  apply elem_of_entries in Hin. split_and!; [done..|].
  intros j w Hj ?. apply (Hmax (j, w)); [by apply elem_of_entries|done].
Qed.

Lemma last_le_None m k : last_le m k = None ↔ ∀ j w, m !! j = Some w → k < j.
Proof.
  unfold last_le. rewrite last_filter_None. split.
  - intros H j w Hj. apply elem_of_entries, H in Hj. cbn in Hj. lia.
  - intros H [j w] Hj%elem_of_entries. apply H in Hj. cbn. lia.
Qed.
End btree.
