(* ===== verification/Abi.v ===== *)
(** * The native ABI crate ([rust/abi/src/lib.rs])

    Feature negotiation, capability rights and identifiers, the errno
    encoding of syscall results, directory records and credentials. *)

From S2P Require Import Prelude Words.

Definition ABI_VERSION : Z := 0.
Definition MAX_GROUPS : Z := 8.

(** ** Feature sets: a transparent [u64] *)

Module FeatureSet.
Record t := { bits : Z }.
#[global] Instance eq_dec : EqDecision t.
Proof. solve_decision. Defined.

Definition EMPTY : t := {| bits := 0 |}.
Definition from_bits (b : Z) : t := {| bits := b |}.
Definition contains (self required : t) : bool :=
  Z.land (bits self) (bits required) =? bits required.
Definition unknown_mandatory_bits (self required : t) : t :=
  {| bits := Z.land (bits required) (bnot 64 (bits self)) |}.

Definition wf (f : t) : Prop := is_u 64 (bits f).
End FeatureSet.

Definition FEATURE_NATIVE_TERMINAL := FeatureSet.from_bits (Z.shiftl 1 0).
Definition FEATURE_REDOXFS_ROOT := FeatureSet.from_bits (Z.shiftl 1 1).
Definition FEATURE_PIPE_WAKEUP := FeatureSet.from_bits (Z.shiftl 1 2).
Definition FEATURE_C_ABI_BOOTSTRAP := FeatureSet.from_bits (Z.shiftl 1 3).
Definition SUPPORTED_FEATURES : FeatureSet.t :=
  FeatureSet.from_bits
    (Z.lor (Z.lor (Z.lor (FeatureSet.bits FEATURE_NATIVE_TERMINAL)
                         (FeatureSet.bits FEATURE_REDOXFS_ROOT))
                  (FeatureSet.bits FEATURE_PIPE_WAKEUP))
           (FeatureSet.bits FEATURE_C_ABI_BOOTSTRAP)).

(** [AbiInfo]: two [u32] and a [u64], 16 bytes in C layout. *)
Record AbiInfo := { abi_version : Z; struct_size : Z; features : Z }.
Definition AbiInfo_current : AbiInfo :=
  {| abi_version := ABI_VERSION; struct_size := 16;
     features := FeatureSet.bits SUPPORTED_FEATURES |}.

(** ** Directory records *)

Definition MAX_DIRECTORY_NAME : Z := 256.

Module DirectoryRecord.
Record t := {
  inode : Z; file_type : Z; name_len : Z; record_len : Z; name : list Z }.

(** [size_of::<Self>()]: 8 + 1 + 1 + 2 + 256, padded to a multiple of 8. *)
Definition SIZE : Z := 272.

Definition empty (inode file_type : Z) : t :=
  {| inode := inode; file_type := file_type; name_len := 0;
     record_len := SIZE; name := replicate 256 0 |}.

(** [length as u8] truncates. *)
Definition set_name (self : t) (nm : list Z) : t :=
  let len := Z.min (zlen nm) MAX_DIRECTORY_NAME in
  {| inode := inode self; file_type := file_type self;
     name_len := u8 len; record_len := record_len self;
     name := splice (name self) 0 (take (Z.to_nat len) nm) |}.

(** What a reader of the record takes as the name. *)
Definition read_name (self : t) : list Z := take (Z.to_nat (name_len self)) (name self).

Definition wf (r : t) : Prop := length (name r) = 256%nat ∧ is_u 8 (name_len r).
End DirectoryRecord.

(** ** Errno *)

Module Errno.
Record t := { code : Z }.
Definition IO := {| code := 5 |}.
Definition BADF := {| code := 9 |}.
Definition INVAL := {| code := 22 |}.
Definition NOSYS := {| code := 38 |}.

(** [-(self.0 as isize)] *)
Definition into_return_value (e : t) : Z := - code e.

(** [checked_neg] fails on [isize::MIN] only. *)
Definition from_return_value (value : Z) : option t :=
  if 0 <=? value then None
  else if value =? - 2 ^ 63 then None
  else let magnitude := - value in
       if 2 ^ 31 - 1 <? magnitude then None else Some {| code := magnitude |}.
End Errno.

(** ** Rights: a transparent [u32] *)

Module Rights.
Record t := { bits : Z }.
Definition READ := {| bits := Z.shiftl 1 0 |}.
Definition WRITE := {| bits := Z.shiftl 1 1 |}.
Definition EXECUTE := {| bits := Z.shiftl 1 2 |}.
Definition TRANSFER := {| bits := Z.shiftl 1 3 |}.
Definition MOUNT := {| bits := Z.shiftl 1 4 |}.
Definition DEVICE := {| bits := Z.shiftl 1 5 |}.
Definition PROCESS_ADMIN := {| bits := Z.shiftl 1 6 |}.
Definition CONNECT := {| bits := Z.shiftl 1 7 |}.
Definition contains (self required : t) : bool :=
  Z.land (bits self) (bits required) =? bits required.
Definition bitor (a b : t) : t := {| bits := Z.lor (bits a) (bits b) |}.
End Rights.

(** ** Capability identifiers: generation in the high half, slot in the low *)

Module CapabilityId.
Record t := { raw : Z }.
#[global] Instance eq_dec : EqDecision t.
Proof. solve_decision. Defined.

Definition INVALID : t := {| raw := 0 |}.
Definition from_parts (slot generation : Z) : t :=
  {| raw := Z.lor (u64 (Z.shiftl generation 32)) slot |}.
Definition slot (c : t) : Z := u32 (raw c).
Definition generation (c : t) : Z := u32 (Z.shiftr (raw c) 32).
Definition from_raw (r : Z) : t := {| raw := r |}.
Definition is_invalid (c : t) : bool := raw c =? 0.

Definition wf (c : t) : Prop := is_u 64 (raw c).
End CapabilityId.

(** ** Credentials *)

Module Credentials.
Record t := { uid : Z; gid : Z; groups : list Z; group_count : Z; umask : Z }.
Definition root : t :=
  {| uid := 0; gid := 0; groups := replicate 8 0; group_count := 1; umask := 18 |}.
Definition vanta : t :=
  {| uid := 1000; gid := 1000; groups := [1000; 0; 0; 0; 0; 0; 0; 0];
     group_count := 1; umask := 18 |}.
Definition is_root (c : t) : bool := uid c =? 0.
End Credentials.

(** ** Lemmas *)

Lemma from_parts_raw s g :
  is_u 32 s → is_u 32 g → CapabilityId.raw (CapabilityId.from_parts s g) = s + g * 2 ^ 32.
Proof.
  intros Hs Hg. cbn [CapabilityId.raw CapabilityId.from_parts].
  rewrite Z.shiftl_mul_pow2 by lia.
  rewrite wrap_small by (unfold is_u in *; lia).
  rewrite Z.lor_comm, <- Z.lxor_lor, <- Z.add_nocarry_lxor; try lia.
  all: rewrite <- Z.shiftl_mul_pow2 by lia; apply Z.bits_inj'; intros i Hi;
    rewrite Z.land_spec, Z.bits_0; apply is_u_bits in Hs as [_ Hb]; try lia;
    destruct (decide (i < 32));
    [rewrite Z.shiftl_spec_low by lia; apply andb_false_r
    |by rewrite Hb by lia].
Qed.

(** a capability identifier and its (slot, generation) pair determine each
    other: packing then unpacking returns both parts, and every 64-bit
    identifier is rebuilt from its parts. *)
Theorem capability_parts_roundtrip :
  (∀ s g, is_u 32 s → is_u 32 g →
     let c := CapabilityId.from_parts s g in
     CapabilityId.wf c ∧ CapabilityId.slot c = s ∧ CapabilityId.generation c = g) ∧
  (∀ c, CapabilityId.wf c →
     CapabilityId.from_parts (CapabilityId.slot c) (CapabilityId.generation c) = c).
Proof.
  unfold CapabilityId.wf, CapabilityId.slot, CapabilityId.generation. split.
  - intros s g Hs Hg. rewrite from_parts_raw by done.
    unfold is_u, wrap in *. rewrite Z.shiftr_div_pow2, Z.div_add by lia.
    rewrite Z_mod_plus_full, Z.div_small, !Z.mod_small by lia. lia.
  - intros [r] Hr. cbn [CapabilityId.raw] in *.
    rewrite Z.shiftr_div_pow2 by lia.
    assert (is_u 32 (wrap 32 r)) by (apply wrap_range; lia).
    assert (r / 2 ^ 32 = wrap 32 (r / 2 ^ 32)) as Hd.
    { symmetry. apply wrap_small. unfold is_u in *. split; [apply Z.div_pos; lia|].
      apply Z.div_lt_upper_bound; lia. }
    assert (is_u 32 (wrap 32 (r / 2 ^ 32))) by (apply wrap_range; lia).
    destruct (CapabilityId.from_parts _ _) as [r'] eqn:E.
    apply (f_equal CapabilityId.raw) in E. rewrite from_parts_raw in E by done.
    cbn in E. f_equal. rewrite <- E, <- Hd. unfold wrap.
    pose proof (Z.div_mod r (2 ^ 32)). lia.
Qed.

(** The features a client demands are all supported exactly when the set of
    unknown mandatory bits is empty. *)
Lemma unknown_mandatory_empty self required :
  FeatureSet.wf self → FeatureSet.wf required →
  FeatureSet.unknown_mandatory_bits self required = FeatureSet.EMPTY ↔
  FeatureSet.contains self required = true.
Proof.
  destruct self as [a], required as [b]. unfold FeatureSet.wf, FeatureSet.contains.
  cbn [FeatureSet.bits]. intros Ha Hb. fold (has_bits a b). rewrite has_bits_spec.
  apply is_u_bits in Hb as [_ Hb]; [|lia].
  unfold FeatureSet.unknown_mandatory_bits, FeatureSet.EMPTY. cbn [FeatureSet.bits]. split.
  - intros [= H] i Hi. apply (f_equal (λ z, Z.testbit z i)) in H.
    rewrite Z.land_spec, bnot_testbit, Hi, Z.bits_0 in H by lia. cbn in H.
    destruct (decide (64 ≤ i)); [by rewrite Hb in Hi|].
    assert (0 ≤ i) by (destruct (decide (0 ≤ i)); [done|]; rewrite Z.testbit_neg_r in Hi; lia).
    rewrite bool_decide_eq_true_2 in H by lia. by destruct (Z.testbit a i).
  - intros H. f_equal. apply Z.bits_inj'. intros i _.
    rewrite Z.land_spec, bnot_testbit, Z.bits_0 by lia.
    destruct (Z.testbit b i) eqn:E; [|done]. rewrite (H i E). by rewrite andb_false_r.
Qed.

(** Errno round trip: exactly the positive [i32] codes survive. *)
Lemma errno_roundtrip v e :
  Errno.from_return_value v = Some e ↔
  Errno.into_return_value e = v ∧ 0 < Errno.code e < 2 ^ 31.
Proof.
  unfold Errno.from_return_value, Errno.into_return_value. destruct e as [c]. cbn [Errno.code].
  destruct (Z.leb_spec 0 v); [naive_solver lia|].
  destruct (Z.eqb_spec v (- 2 ^ 63)); [naive_solver lia|].
  destruct (Z.ltb_spec (2 ^ 31 - 1) (- v)).
  - split; [done|]. lia.
  - split; [intros [= <-]; lia|]. intros [<- ?]. f_equal. f_equal. lia.
Qed.

(** [set_name] stores every name of at most 255 bytes so that a reader
    gets it back, but a name of 256 bytes or more is stored with
    [name_len = 0]: the length 256 does not fit the [u8] field, although the
    name buffer holds 256 bytes. *)
Theorem set_name_read_name r nm :
  DirectoryRecord.wf r →
  let r' := DirectoryRecord.set_name r nm in
  DirectoryRecord.wf r' ∧
  (zlen nm ≤ 255 → DirectoryRecord.read_name r' = nm) ∧
  (256 ≤ zlen nm → DirectoryRecord.read_name r' = [] ∧
                   DirectoryRecord.name r' = take 256 nm).
Proof.
  intros [Hlen _] r'. unfold DirectoryRecord.wf, DirectoryRecord.read_name, r',
    DirectoryRecord.set_name, MAX_DIRECTORY_NAME. cbn [DirectoryRecord.name DirectoryRecord.name_len].
  set (k := Z.min (zlen nm) 256).
  assert (length (take (Z.to_nat k) nm) = Z.to_nat k) as H by (rewrite length_take; lia).
  rewrite !splice_0. split_and!.
  - rewrite !length_app, length_drop. lia.
  - apply wrap_range. lia.
  - intros. rewrite wrap_small by (unfold is_u; lia).
    
    rewrite (take_app_length' _ _ _ (eq_sym H)). apply take_ge. lia.
  - intros. replace k with 256 by lia. split; [done|].
    rewrite drop_ge by (rewrite length_take; lia). apply app_nil_r.
Qed.

Lemma set_name_read_name_witness :
  let r := DirectoryRecord.empty 7 1 in
  DirectoryRecord.wf r ∧
  DirectoryRecord.read_name (DirectoryRecord.set_name r [101; 116; 99]) = [101; 116; 99].
Proof.
  assert (DirectoryRecord.wf (DirectoryRecord.empty 7 1)) as H
    by (split; vm_compute; intuition congruence).
  split; [exact H|].
  apply (proj1 (proj2 (set_name_read_name _ [101; 116; 99] H))). vm_compute. congruence.
Defined.
