(* ===== verification/Services.v ===== *)
(** * Microkernel services ([rust/services/src/lib.rs])

    The wire format of service requests and responses: fixed 256-byte IPC
    payloads with a little-endian header and a length-prefixed payload. *)

From stdpp Require Import gmap.
From S2P Require Import Prelude Words Abi.

Definition MAX_IPC_PAYLOAD : Z := 256.
Definition REQUEST_PAYLOAD_OFFSET : Z := 23.
Definition RESPONSE_PAYLOAD_OFFSET : Z := 34.
Definition MAX_REQUEST_PAYLOAD : Z := MAX_IPC_PAYLOAD - REQUEST_PAYLOAD_OFFSET.
Definition MAX_RESPONSE_PAYLOAD : Z := MAX_IPC_PAYLOAD - RESPONSE_PAYLOAD_OFFSET.

Inductive ServiceId :=
| Process | Vfs | Network | Device | Display | Audio | Input | Package | Security.
#[export] Instance ServiceId_eq_dec : EqDecision ServiceId.
Proof. solve_decision. Defined.

Inductive ServiceError :=
| InvalidRequest | AccessDenied | NotFound | Io | Unsupported
| ServiceUnavailable | QueueFull | Revoked.
#[export] Instance ServiceError_eq_dec : EqDecision ServiceError.
Proof. solve_decision. Defined.

Inductive ServiceOperation :=
| Register | Discover | Healthy | Crash | ReadFile | Audit | Shutdown.
#[export] Instance ServiceOperation_eq_dec : EqDecision ServiceOperation.
Proof. solve_decision. Defined.

(** The [repr] discriminants. *)
Definition ServiceId_raw (s : ServiceId) : Z :=
  match s with
  | Process => 1 | Vfs => 2 | Network => 3 | Device => 4 | Display => 5
  | Audio => 6 | Input => 7 | Package => 8 | Security => 9
  end.
Definition ServiceError_raw (e : ServiceError) : Z :=
  match e with
  | InvalidRequest => 1 | AccessDenied => 2 | NotFound => 3 | Io => 4
  | Unsupported => 5 | ServiceUnavailable => 6 | QueueFull => 7 | Revoked => 8
  end.
Definition ServiceOperation_raw (o : ServiceOperation) : Z :=
  match o with
  | Register => 1 | Discover => 2 | Healthy => 3 | Crash => 4
  | ReadFile => 5 | Audit => 6 | Shutdown => 7
  end.

Definition ServiceOperation_from_raw (raw : Z) : option ServiceOperation :=
  match raw with
  | 1 => Some Register | 2 => Some Discover | 3 => Some Healthy | 4 => Some Crash
  | 5 => Some ReadFile | 6 => Some Audit | 7 => Some Shutdown
  | _ => None
  end.
Definition ServiceId_from_raw (raw : Z) : option ServiceId :=
  match raw with
  | 1 => Some Process | 2 => Some Vfs | 3 => Some Network | 4 => Some Device
  | 5 => Some Display | 6 => Some Audio | 7 => Some Input | 8 => Some Package
  | 9 => Some Security
  | _ => None
  end.

Lemma ServiceId_raw_from s : ServiceId_from_raw (ServiceId_raw s) = Some s.
Proof. by destruct s. Qed.
Lemma ServiceOperation_raw_from o :
  ServiceOperation_from_raw (ServiceOperation_raw o) = Some o.
Proof. by destruct o. Qed.
Lemma ServiceId_from_raw_inv z s : ServiceId_from_raw z = Some s → z = ServiceId_raw s.
Proof.
  unfold ServiceId_from_raw. intros. repeat (case_match; simplify_eq; try done).
Qed.
Lemma ServiceOperation_from_raw_inv z o :
  ServiceOperation_from_raw z = Some o → z = ServiceOperation_raw o.
Proof.
  unfold ServiceOperation_from_raw. intros. repeat (case_match; simplify_eq; try done).
Qed.

#[export] Instance ServiceId_countable : Countable ServiceId.
Proof. apply (inj_countable ServiceId_raw ServiceId_from_raw). apply ServiceId_raw_from. Defined.

Abbreviation sres := (res ServiceError).

(** [copy_from_slice] into a range of an array. *)
Definition blit (l : list Z) (a : Z) (bs : list Z) : sres (list Z) :=
  if bool_decide (0 ≤ a ∧ a + zlen bs ≤ zlen l) then Ok (splice l a bs) else Panic.

(** [self.payload[..payload.len()].copy_from_slice(payload)] for an array of
    capacity [cap]: a shorter payload leaves the old tail in place. *)
Definition store_payload (cap : Z) (old payload : list Z) : sres (list Z * Z) :=
  if cap <? zlen payload then Err InvalidRequest
  else p ← blit old 0 payload; Ok (p, u16 (zlen payload)).

(** ** Requests *)

Module ServiceRequest.
Record t := {
  operation : ServiceOperation; service : ServiceId; request_id : Z;
  authority : CapabilityId.t; payload_buf : list Z; payload_len : Z }.

Definition empty (op : ServiceOperation) (s : ServiceId) (rid : Z)
    (auth : CapabilityId.t) : t :=
  {| operation := op; service := s; request_id := rid; authority := auth;
     payload_buf := replicate (Z.to_nat MAX_REQUEST_PAYLOAD) 0; payload_len := 0 |}.

Definition with_payload (self : t) (payload : list Z) : sres t :=
  '(p, n) ← store_payload MAX_REQUEST_PAYLOAD (payload_buf self) payload;
  Ok {| operation := operation self; service := service self;
        request_id := request_id self; authority := authority self;
        payload_buf := p; payload_len := n |}.

Definition payload (self : t) : sres (list Z) :=
  expect (slice (payload_buf self) 0 (payload_len self)).

Definition encode (self : t) : sres (list Z) :=
  let bytes := replicate (Z.to_nat MAX_IPC_PAYLOAD) 0 in
  let bytes := splice bytes 0 [86] in
  let bytes := splice bytes 1 [83] in
  let bytes := splice bytes 2 [ServiceOperation_raw (operation self)] in
  let bytes := splice bytes 3 (to_le 2 (ServiceId_raw (service self))) in
  let bytes := splice bytes 5 (to_le 8 (request_id self)) in
  let bytes := splice bytes 13 (to_le 8 (CapabilityId.raw (authority self))) in
  let bytes := splice bytes 21 (to_le 2 (payload_len self)) in
  p ← payload self;
  blit bytes REQUEST_PAYLOAD_OFFSET p.

Definition decode (bs : list Z) : sres t :=
  if negb (zlen bs =? MAX_IPC_PAYLOAD) then Err InvalidRequest else
  magic ← expect (slice bs 0 2);
  if negb (bool_decide (magic = [86; 83])) then Err InvalidRequest else
  pl ← expect (slice bs 21 23);
  let payload_len := from_le pl in
  if MAX_REQUEST_PAYLOAD <? payload_len then Err InvalidRequest else
  src ← expect (slice bs REQUEST_PAYLOAD_OFFSET (REQUEST_PAYLOAD_OFFSET + payload_len));
  payload ← blit (replicate (Z.to_nat MAX_REQUEST_PAYLOAD) 0) 0 src;
  opb ← expect (index bs 2);
  op ← ok_or InvalidRequest (ServiceOperation_from_raw opb);
  sb ← expect (slice bs 3 5);
  s ← ok_or InvalidRequest (ServiceId_from_raw (from_le sb));
  rid ← expect (slice bs 5 13);
  auth ← expect (slice bs 13 21);
  Ok {| operation := op; service := s; request_id := from_le rid;
        authority := CapabilityId.from_raw (from_le auth);
        payload_buf := payload; payload_len := u16 payload_len |}.

Definition wf (r : t) : Prop :=
  is_u 64 (request_id r) ∧ CapabilityId.wf (authority r) ∧
  zlen (payload_buf r) = MAX_REQUEST_PAYLOAD ∧ bytes (payload_buf r) ∧
  0 ≤ payload_len r ≤ MAX_REQUEST_PAYLOAD.

(** The bytes past [payload_len] zeroed, as [decode] leaves them. *)
Definition canonical (r : t) : t :=
  {| operation := operation r; service := service r; request_id := request_id r;
     authority := authority r;
     payload_buf := take (Z.to_nat (payload_len r)) (payload_buf r)
       ++ replicate (Z.to_nat (MAX_REQUEST_PAYLOAD - payload_len r)) 0;
     payload_len := payload_len r |}.
End ServiceRequest.

(** ** Responses *)

Module ServiceResponse.
Record t := {
  request_id : Z; service : ServiceId; generation : Z; authority : CapabilityId.t;
  result : Z; payload_buf : list Z; payload_len : Z }.

Definition success (rid : Z) (s : ServiceId) (gen : Z) (auth : CapabilityId.t) : t :=
  {| request_id := rid; service := s; generation := gen; authority := auth;
     result := 0; payload_buf := replicate (Z.to_nat MAX_RESPONSE_PAYLOAD) 0;
     payload_len := 0 |}.

Definition error (rid : Z) (s : ServiceId) (e : ServiceError) : t :=
  {| request_id := rid; service := s; generation := 0;
     authority := CapabilityId.INVALID; result := - ServiceError_raw e;
     payload_buf := replicate (Z.to_nat MAX_RESPONSE_PAYLOAD) 0; payload_len := 0 |}.

Definition with_payload (self : t) (payload : list Z) : sres t :=
  '(p, n) ← store_payload MAX_RESPONSE_PAYLOAD (payload_buf self) payload;
  Ok {| request_id := request_id self; service := service self;
        generation := generation self; authority := authority self;
        result := result self; payload_buf := p; payload_len := n |}.

Definition payload (self : t) : sres (list Z) :=
  expect (slice (payload_buf self) 0 (payload_len self)).

Definition encode (self : t) : sres (list Z) :=
  let bytes := replicate (Z.to_nat MAX_IPC_PAYLOAD) 0 in
  let bytes := splice bytes 0 [86] in
  let bytes := splice bytes 1 [82] in
  let bytes := splice bytes 2 (to_le 4 (u32 (result self))) in
  let bytes := splice bytes 6 (to_le 8 (request_id self)) in
  let bytes := splice bytes 14 (to_le 2 (ServiceId_raw (service self))) in
  let bytes := splice bytes 16 (to_le 8 (generation self)) in
  let bytes := splice bytes 24 (to_le 8 (CapabilityId.raw (authority self))) in
  let bytes := splice bytes 32 (to_le 2 (payload_len self)) in
  p ← payload self;
  blit bytes RESPONSE_PAYLOAD_OFFSET p.

Definition decode (bs : list Z) : sres t :=
  if negb (zlen bs =? MAX_IPC_PAYLOAD) then Err InvalidRequest else
  magic ← expect (slice bs 0 2);
  if negb (bool_decide (magic = [86; 82])) then Err InvalidRequest else
  pl ← expect (slice bs 32 34);
  let payload_len := from_le pl in
  if MAX_RESPONSE_PAYLOAD <? payload_len then Err InvalidRequest else
  src ← expect (slice bs RESPONSE_PAYLOAD_OFFSET (RESPONSE_PAYLOAD_OFFSET + payload_len));
  payload ← blit (replicate (Z.to_nat MAX_RESPONSE_PAYLOAD) 0) 0 src;
  rid ← expect (slice bs 6 14);
  sb ← expect (slice bs 14 16);
  s ← ok_or InvalidRequest (ServiceId_from_raw (from_le sb));
  gen ← expect (slice bs 16 24);
  auth ← expect (slice bs 24 32);
  rb ← expect (slice bs 2 6);
  Ok {| request_id := from_le rid; service := s; generation := from_le gen;
        authority := CapabilityId.from_raw (from_le auth);
        result := signed 32 (from_le rb);
        payload_buf := payload; payload_len := u16 payload_len |}.

Definition wf (r : t) : Prop :=
  is_u 64 (request_id r) ∧ is_u 64 (generation r) ∧ CapabilityId.wf (authority r) ∧
  is_i 32 (result r) ∧ zlen (payload_buf r) = MAX_RESPONSE_PAYLOAD ∧
  bytes (payload_buf r) ∧ 0 ≤ payload_len r ≤ MAX_RESPONSE_PAYLOAD.

Definition canonical (r : t) : t :=
  {| request_id := request_id r; service := service r; generation := generation r;
     authority := authority r; result := result r;
     payload_buf := take (Z.to_nat (payload_len r)) (payload_buf r)
       ++ replicate (Z.to_nat (MAX_RESPONSE_PAYLOAD - payload_len r)) 0;
     payload_len := payload_len r |}.
End ServiceResponse.

(** ** Lemmas on the wire layout *)

(** A header followed by zeros, the payload copied over them. *)
Lemma blit_payload h cap p :
  zlen p ≤ Z.of_nat cap →
  blit (h ++ replicate cap 0) (zlen h) p = Ok (h ++ p ++ replicate (cap - length p) 0).
Proof.
  intros. unfold blit, splice. rewrite bool_decide_eq_true_2.
  2:{ rewrite length_app, length_replicate. lia. }
  rewrite Nat2Z.id, take_app_length, drop_app_add, drop_replicate. done.
Qed.

Lemma slice_app_l {A} (h t : list A) a b s :
  slice h a b = Some s → slice (h ++ t) a b = Some s.
Proof.
  intros [? ->]%slice_Some. apply slice_Some. split; [rewrite length_app; lia|].
  rewrite drop_app_le by lia. rewrite take_app_le; [done|]. rewrite length_drop. lia.
Qed.

Lemma slice_app_mid {A} (h p t : list A) a b :
  a = zlen h → b = a + zlen p → slice (h ++ p ++ t) a b = Some p.
Proof.
  intros -> ->. rewrite slice_in; [|lia|rewrite !length_app; lia].
  rewrite Nat2Z.id, drop_app_length, take_app_length'; [done|lia].
Qed.

Lemma slice_prefix {A} (l : list A) n :
  0 ≤ n ≤ zlen l → slice l 0 n = Some (take (Z.to_nat n) l).
Proof. intros. rewrite slice_in by lia. by rewrite Z.sub_0_r. Qed.

Lemma blit_zeros cap (src : list Z) :
  zlen src ≤ Z.of_nat cap →
  blit (replicate cap 0) 0 src = Ok (src ++ replicate (cap - length src) 0).
Proof. apply (blit_payload []). Qed.

(** [hdr h a b v]: the decoder reads the header field [h[a..b]], which is [v]. *)
Ltac hdr h a b v :=
  rewrite (slice_app_l h _ a b v) by reflexivity; cbn [mbind res_bind expect].

Lemma zlen_256 (l : list Z) : zlen l = 256 → negb (zlen l =? MAX_IPC_PAYLOAD) = false.
Proof. by intros ->. Qed.

Module RequestWire.
Import ServiceRequest.

Definition header (r : t) : list Z :=
  [86; 83; ServiceOperation_raw (operation r)] ++ to_le 2 (ServiceId_raw (service r))
  ++ to_le 8 (request_id r) ++ to_le 8 (CapabilityId.raw (authority r))
  ++ to_le 2 (payload_len r).

Lemma request_length_header r : length (header r) = 23%nat.
Proof. done. Qed.

Lemma request_encode_layout r :
  wf r → encode r = Ok (header r ++ take (Z.to_nat (payload_len r)) (payload_buf r)
    ++ replicate (233 - Z.to_nat (payload_len r)) 0).
Proof.
  intros (? & ? & Hcap & ? & Hlen). change MAX_REQUEST_PAYLOAD with 233 in *.
  unfold encode, payload. rewrite slice_prefix by lia. cbn [mbind res_bind expect].
  etransitivity; [apply (blit_payload (header r) 233)|].
  - rewrite length_take. lia.
  - rewrite length_take. repeat f_equal. lia.
Qed.

Lemma request_decode_layout r :
  wf r → decode (header r ++ take (Z.to_nat (payload_len r)) (payload_buf r)
    ++ replicate (233 - Z.to_nat (payload_len r)) 0) = Ok (canonical r).
Proof.
  intros (Hrid & Hauth & Hcap & ? & Hlen).
  change MAX_REQUEST_PAYLOAD with 233 in *.
  set (p := take (Z.to_nat (payload_len r)) (payload_buf r)).
  assert (Hp : zlen p = payload_len r) by (unfold p; rewrite length_take; lia).
  unfold decode. change MAX_REQUEST_PAYLOAD with 233. rewrite zlen_256.
  2:{ rewrite !length_app, length_replicate, request_length_header. lia. }
  hdr (header r) 0 2 [86; 83]. rewrite bool_decide_eq_true_2 by done. cbn [negb].
  hdr (header r) 21 23 (to_le 2 (payload_len r)).
  rewrite from_to_le_small by (unfold is_u; lia).
  rewrite (proj2 (Z.ltb_ge _ _)) by lia.
  rewrite (slice_app_mid (header r) p _ REQUEST_PAYLOAD_OFFSET) 
    by (rewrite ?request_length_header; unfold REQUEST_PAYLOAD_OFFSET; lia).
  cbn [mbind res_bind expect].
  rewrite blit_zeros by lia. cbn [mbind res_bind expect].
  rewrite (proj2 (index_Some _ 2 (ServiceOperation_raw (operation r)))) by done.
  cbn [mbind res_bind expect]. rewrite ServiceOperation_raw_from. cbn [mbind res_bind ok_or].
  hdr (header r) 3 5 (to_le 2 (ServiceId_raw (service r))).
  rewrite (from_to_le_small 2) by (destruct (service r); unfold is_u; cbn; lia).
  rewrite ServiceId_raw_from. cbn [mbind res_bind ok_or].
  hdr (header r) 5 13 (to_le 8 (request_id r)).
  hdr (header r) 13 21 (to_le 8 (CapabilityId.raw (authority r))).
  unfold canonical. f_equal. f_equal.
  - by apply (from_to_le_small 8).
  - destruct (authority r) as [a]. unfold CapabilityId.from_raw. f_equal.
    by apply (from_to_le_small 8).
  - fold p. change MAX_REQUEST_PAYLOAD with 233. do 2 f_equal. lia.
  - apply wrap_small. unfold is_u. lia.
Qed.
End RequestWire.

Module ResponseWire.
Import ServiceResponse.

Definition header (r : t) : list Z :=
  [86; 82] ++ to_le 4 (u32 (result r)) ++ to_le 8 (request_id r)
  ++ to_le 2 (ServiceId_raw (service r)) ++ to_le 8 (generation r)
  ++ to_le 8 (CapabilityId.raw (authority r)) ++ to_le 2 (payload_len r).

Lemma response_length_header r : length (header r) = 34%nat.
Proof. done. Qed.

Lemma response_encode_layout r :
  wf r → encode r = Ok (header r ++ take (Z.to_nat (payload_len r)) (payload_buf r)
    ++ replicate (222 - Z.to_nat (payload_len r)) 0).
Proof.
  intros (? & ? & ? & ? & Hcap & ? & Hlen). change MAX_RESPONSE_PAYLOAD with 222 in *.
  unfold encode, payload. rewrite slice_prefix by lia. cbn [mbind res_bind expect].
  etransitivity; [apply (blit_payload (header r) 222)|].
  - rewrite length_take. lia.
  - rewrite length_take. repeat f_equal. lia.
Qed.

Lemma response_decode_layout r :
  wf r → decode (header r ++ take (Z.to_nat (payload_len r)) (payload_buf r)
    ++ replicate (222 - Z.to_nat (payload_len r)) 0) = Ok (canonical r).
Proof.
  intros (Hrid & Hgen & Hauth & Hres & Hcap & ? & Hlen).
  change MAX_RESPONSE_PAYLOAD with 222 in *.
  set (p := take (Z.to_nat (payload_len r)) (payload_buf r)).
  assert (Hp : zlen p = payload_len r) by (unfold p; rewrite length_take; lia).
  unfold decode. change MAX_RESPONSE_PAYLOAD with 222. rewrite zlen_256.
  2:{ rewrite !length_app, length_replicate, response_length_header. lia. }
  hdr (header r) 0 2 [86; 82]. rewrite bool_decide_eq_true_2 by done. cbn [negb].
  hdr (header r) 32 34 (to_le 2 (payload_len r)).
  rewrite from_to_le_small by (unfold is_u; lia).
  rewrite (proj2 (Z.ltb_ge _ _)) by lia.
  rewrite (slice_app_mid (header r) p _ RESPONSE_PAYLOAD_OFFSET)
    by (rewrite ?response_length_header; unfold RESPONSE_PAYLOAD_OFFSET; lia).
  cbn [mbind res_bind expect].
  rewrite blit_zeros by lia. cbn [mbind res_bind expect].
  hdr (header r) 6 14 (to_le 8 (request_id r)).
  hdr (header r) 14 16 (to_le 2 (ServiceId_raw (service r))).
  rewrite (from_to_le_small 2) by (destruct (service r); unfold is_u; cbn; lia).
  rewrite ServiceId_raw_from. cbn [mbind res_bind ok_or].
  hdr (header r) 16 24 (to_le 8 (generation r)).
  hdr (header r) 24 32 (to_le 8 (CapabilityId.raw (authority r))).
  hdr (header r) 2 6 (to_le 4 (u32 (result r))).
  unfold canonical. f_equal. f_equal.
  - by apply (from_to_le_small 8).
  - by apply (from_to_le_small 8).
  - destruct (authority r) as [a]. unfold CapabilityId.from_raw. f_equal.
    by apply (from_to_le_small 8).
  - rewrite from_to_le_small by (apply wrap_range; lia).
    rewrite signed_wrap. apply signed_id; [lia|done].
  - fold p. change MAX_RESPONSE_PAYLOAD with 222. do 2 f_equal. lia.
  - apply wrap_small. unfold is_u. lia.
Qed.
End ResponseWire.

Lemma expect_Ok {E A} (o : option A) (a : A) : expect (E := E) o = Ok a → o = Some a.
Proof. destruct o; cbn; congruence. Qed.

Lemma blit_no_panic l a bs : 0 ≤ a → a + zlen bs ≤ zlen l → blit l a bs = Ok (splice l a bs).
Proof. intros. unfold blit. by rewrite bool_decide_eq_true_2. Qed.

Lemma expect_slice {E} (bs : list Z) a b :
  0 ≤ a ≤ b → b ≤ zlen bs → expect (E := E) (slice bs a b) ≠ Panic.
Proof. intros. by rewrite slice_in. Qed.

Lemma expect_index {E} (bs : list Z) i :
  0 ≤ i < zlen bs → expect (E := E) (index bs i) ≠ Panic.
Proof.
  intros. unfold index. rewrite bool_decide_eq_true_2 by done.
  destruct (lookup_lt_is_Some_2 bs (Z.to_nat i)) as [x ->]; [lia|done].
Qed.

Lemma slice_le_nonneg (bs s : list Z) a b :
  bytes bs → slice bs a b = Some s → is_u (8 * (b - a)) (from_le s).
Proof.
  intros Hb Hs. rewrite <- (slice_length _ _ _ _ Hs).
  apply from_le_range. by eapply slice_Forall.
Qed.

Lemma request_decode_no_panic bs : bytes bs → ServiceRequest.decode bs ≠ Panic.
Proof.
  intros Hb. unfold ServiceRequest.decode.
  destruct (Z.eqb_spec (zlen bs) MAX_IPC_PAYLOAD) as [Hlen|]; [cbn [negb]|done].
  change MAX_IPC_PAYLOAD with 256 in Hlen.
  apply res_bind_Panic; [apply expect_slice; lia|]. intros magic _.
  case_match; [done|].
  apply res_bind_Panic; [apply expect_slice; lia|]. intros pl Hpl%expect_Ok.
  pose proof (slice_le_nonneg _ _ _ _ Hb Hpl) as [? _].
  destruct (Z.ltb_spec MAX_REQUEST_PAYLOAD (from_le pl)) as [|Hle]; [done|].
  change MAX_REQUEST_PAYLOAD with 233 in *. change REQUEST_PAYLOAD_OFFSET with 23.
  apply res_bind_Panic; [apply expect_slice; lia|]. intros src Hsrc%expect_Ok.
  apply slice_length in Hsrc.
  rewrite blit_no_panic by (rewrite ?length_replicate; lia).
  repeat (apply res_bind_Panic; [|intros ? ?]); try apply ok_or_no_panic; try done.
  all: first [apply expect_slice; lia | apply expect_index; lia].
Qed.

Lemma request_decode_inv bs r :
  bytes bs → ServiceRequest.decode bs = Ok r →
  ServiceRequest.wf r ∧ zlen bs = 256 ∧
  bs = RequestWire.header r
         ++ take (Z.to_nat (ServiceRequest.payload_len r)) (ServiceRequest.payload_buf r)
         ++ drop (23 + Z.to_nat (ServiceRequest.payload_len r)) bs.
Proof.
  intros Hb. unfold ServiceRequest.decode.
  destruct (Z.eqb_spec (zlen bs) MAX_IPC_PAYLOAD) as [Hlen|]; [cbn [negb]|done].
  change MAX_IPC_PAYLOAD with 256 in Hlen. change MAX_REQUEST_PAYLOAD with 233.
  intros H. inv_bind H. case_bool_decide as Hm; [cbn [negb] in H|done].
  inv_bind H. destruct (Z.ltb_spec 233 (from_le x0)) as [|Hle]; [done|].
  do 8 inv_bind H. simplify_eq H. intros <-. clear H.
  repeat match goal with
  | H : expect _ = Ok _ |- _ => apply expect_Ok in H
  | H : ok_or _ _ = Ok _ |- _ => apply ok_or_Ok in H
  end.
  subst x. rename x0 into pl, x1 into src, x3 into opb, x4 into op, x5 into sb, x6 into sid,
    x7 into rid, x8 into auth.
  pose proof (slice_le_nonneg _ _ _ _ Hb E0) as Hpl.
  pose proof (slice_length _ _ _ _ E1) as Hsrc.
  assert (wrap 16 (from_le pl) = from_le pl) as Hw by (apply wrap_small; exact Hpl).
  destruct Hpl as [Hpl _]. change REQUEST_PAYLOAD_OFFSET with 23 in *.
  rewrite blit_zeros in E2 by lia. simplify_eq E2. intros <-. clear E2.
  cbn [ServiceRequest.payload_len ServiceRequest.payload_buf]. rewrite Hw.
  apply ServiceOperation_from_raw_inv in E4. apply ServiceId_from_raw_inv in E6.
  split_and!; [|done|].
  - unfold ServiceRequest.wf, CapabilityId.wf. cbn -[Z.to_nat length]. change MAX_REQUEST_PAYLOAD with 233.
    split_and!; [exact (slice_le_nonneg _ _ _ _ Hb E7)|exact (slice_le_nonneg _ _ _ _ Hb E8)
      | | | |]; [rewrite length_app, length_replicate; lia| |lia|lia].
    apply Forall_app. split; [by eapply slice_Forall|].
    apply Forall_replicate. unfold is_u. lia.
  - rewrite take_app_length' by lia.
    pose proof (slice_cat _ _ _ _ _ _ E (slice_cat _ _ _ _ _ _ (slice_index _ _ _ E3)
      (slice_cat _ _ _ _ _ _ E5 (slice_cat _ _ _ _ _ _ E7 (slice_cat _ _ _ _ _ _ E8
      (slice_cat _ _ _ _ _ _ E0 E1)))))) as Hfull.
    apply slice_full in Hfull. rewrite Hfull at 1.
    replace (Z.to_nat (23 + from_le pl)) with (23 + Z.to_nat (from_le pl))%nat by lia.
    unfold RequestWire.header. cbn [ServiceRequest.operation ServiceRequest.service
      ServiceRequest.request_id ServiceRequest.authority ServiceRequest.payload_len
      CapabilityId.raw CapabilityId.from_raw].
    rewrite <- E4, <- E6, !to_from_le_n
      by first [by eapply slice_Forall | by erewrite slice_length by eassumption].
    by rewrite <- !app_assoc.
Qed.

Lemma canonical_payload r :
  ServiceRequest.wf r →
  ServiceRequest.payload (ServiceRequest.canonical r) = ServiceRequest.payload r.
Proof.
  intros (_ & _ & Hcap & _ & Hlen). unfold ServiceRequest.payload.
  change MAX_REQUEST_PAYLOAD with 233 in *. cbn [ServiceRequest.canonical
    ServiceRequest.payload_len ServiceRequest.payload_buf].
  rewrite !slice_prefix.
  - rewrite take_app_length' by (rewrite length_take; lia). done.
  - lia.
  - rewrite length_app, length_take. lia.
Qed.

(** ** Properties of the wire format *)

(** every well-formed request is encoded without a panic into exactly 256
    bytes, and decoding them returns the request with the bytes past its
    payload zeroed: same operation, service, id, authority and payload. *)
Theorem request_roundtrip r :
  ServiceRequest.wf r →
  ∃ bs, ServiceRequest.encode r = Ok bs ∧ zlen bs = MAX_IPC_PAYLOAD ∧
    ServiceRequest.decode bs = Ok (ServiceRequest.canonical r) ∧
    ServiceRequest.payload (ServiceRequest.canonical r) = ServiceRequest.payload r.
Proof.
  intros Hr. eexists. split; [by apply RequestWire.request_encode_layout|].
  split_and!; [|by apply RequestWire.request_decode_layout|by apply canonical_payload].
  destruct Hr as (_ & _ & Hcap & _ & Hlen). change MAX_REQUEST_PAYLOAD with 233 in *.
  rewrite !length_app, length_replicate, length_take, RequestWire.request_length_header.
  unfold MAX_IPC_PAYLOAD. lia.
Qed.

Definition sample_request : ServiceRequest.t :=
  ServiceRequest.empty ReadFile Vfs 41 (CapabilityId.from_parts 3 9).

Lemma request_roundtrip_witness :
  ServiceRequest.wf sample_request ∧
  ∃ bs, ServiceRequest.encode sample_request = Ok bs ∧ zlen bs = MAX_IPC_PAYLOAD ∧
    ServiceRequest.decode bs = Ok (ServiceRequest.canonical sample_request) ∧
    ServiceRequest.payload (ServiceRequest.canonical sample_request)
      = ServiceRequest.payload sample_request.
Proof.
  assert (ServiceRequest.wf sample_request) as Hwf.
  { split_and!; try (vm_compute; (done || intuition congruence)).
    apply Forall_replicate. vm_compute. intuition congruence. }
  split; [exact Hwf|exact (request_roundtrip sample_request Hwf)].
Defined.

(** the request decoder is safe and exact on arbitrary bytes.  It never
    panics, and whatever it accepts is the wire form of the request it
    returns: a re-encoding reproduces the header and payload bytes and zeroes
    the rest of the frame. *)
Theorem request_decode_exact bs :
  bytes bs →
  ServiceRequest.decode bs ≠ Panic ∧
  ∀ r, ServiceRequest.decode bs = Ok r →
    let n := (23 + Z.to_nat (ServiceRequest.payload_len r))%nat in
    ServiceRequest.encode r = Ok (take n bs ++ replicate (256 - n) 0).
Proof.
  intros Hb. split; [by apply request_decode_no_panic|]. intros r Hr n.
  destruct (request_decode_inv bs r Hb Hr) as (Hwf & Hlen & Hbs).
  rewrite RequestWire.request_encode_layout by done. rewrite Hbs at 1. unfold n.
  destruct Hwf as (_ & _ & Hcap & _ & Hpl). change MAX_REQUEST_PAYLOAD with 233 in *.
  rewrite (app_assoc _ _ (drop _ _)), take_app_length'.
  - rewrite <- app_assoc.
    replace (256 - (23 + Z.to_nat (ServiceRequest.payload_len r)))%nat
      with (233 - Z.to_nat (ServiceRequest.payload_len r))%nat by lia. done.
  - rewrite length_app, length_take, RequestWire.request_length_header. lia.
Qed.

Lemma request_decode_exact_witness :
  bytes (replicate 256 86) ∧
  ServiceRequest.decode (replicate 256 86) ≠ Panic.
Proof.
  assert (bytes (replicate 256 86)) as H
    by (apply Forall_replicate; vm_compute; intuition congruence).
  split; [exact H|exact (proj1 (request_decode_exact _ H))].
Defined.

(** a well-formed response, its [i32] result included, survives encoding
    and decoding. *)
Theorem response_roundtrip r :
  ServiceResponse.wf r →
  ∃ bs, ServiceResponse.encode r = Ok bs ∧ zlen bs = MAX_IPC_PAYLOAD ∧
    ServiceResponse.decode bs = Ok (ServiceResponse.canonical r).
Proof.
  intros Hr. eexists. split; [by apply ResponseWire.response_encode_layout|].
  split; [|by apply ResponseWire.response_decode_layout].
  destruct Hr as (_ & _ & _ & _ & Hcap & _ & Hlen). change MAX_RESPONSE_PAYLOAD with 222 in *.
  rewrite !length_app, length_replicate, length_take, ResponseWire.response_length_header.
  unfold MAX_IPC_PAYLOAD. lia.
Qed.

Definition sample_response : ServiceResponse.t :=
  ServiceResponse.error 41 Vfs Revoked.

Lemma response_roundtrip_witness :
  ServiceResponse.wf sample_response ∧
  ∃ bs, ServiceResponse.encode sample_response = Ok bs ∧ zlen bs = MAX_IPC_PAYLOAD ∧
    ServiceResponse.decode bs = Ok (ServiceResponse.canonical sample_response).
Proof.
  assert (ServiceResponse.wf sample_response) as Hwf.
  { split_and!; try (vm_compute; (done || intuition congruence)).
    apply Forall_replicate. vm_compute. intuition congruence. }
  split; [exact Hwf|exact (response_roundtrip sample_response Hwf)].
Defined.
