(* ===== verification/Supervisor.v ===== *)
(** * The service supervisor ([rust/services/src/lib.rs], [ServiceSupervisor])

    Sixteen optional service slots and a 64-entry audit ring.  The abstract
    specification is a finite map from services to slots and an unbounded
    audit log; the supervisor refines it. *)

From stdpp Require Import gmap.
From S2P Require Import Prelude Words Abi Services.

Definition MAX_SERVICES : Z := 16.
Definition MAX_AUDIT_EVENTS : Z := 64.

Module ServiceState.
Inductive t := Registered | Running | Crashed | Restarting | Revoked.
#[global] Instance eq_dec : EqDecision t.
Proof. solve_decision. Defined.
End ServiceState.

Module AuditKind.
Inductive t := Registered | Started | Request | Completed | Crashed | Restarted | Revoked.
End AuditKind.

Record AuditEvent := {
  ev_sequence : Z; ev_service : ServiceId; ev_kind : AuditKind.t;
  ev_request_id : Z; ev_authority : CapabilityId.t; ev_result : Z }.

Record ServiceSlot := {
  id : ServiceId; authority : CapabilityId.t; generation : Z;
  state : ServiceState.t; restart_count : Z }.

Record ServiceEndpoint := {
  ep_service : ServiceId; ep_generation : Z; ep_authority : CapabilityId.t }.

(** Request headers, response headers and frames. *)
Record ServiceRequestHeader := {
  rh_service : ServiceId; rh_operation : Z; rh_request_id : Z; rh_authority : CapabilityId.t }.
Record ServiceResponseHeader := { sh_request_id : Z; sh_result : Z }.
Definition response_success (rid : Z) : ServiceResponseHeader :=
  {| sh_request_id := rid; sh_result := 0 |}.
Definition response_error (rid : Z) (e : ServiceError) : ServiceResponseHeader :=
  {| sh_request_id := rid; sh_result := - ServiceError_raw e |}.

Module IpcFrame.
Record t := { header : ServiceRequestHeader; payload_len : Z; payload_buf : list Z }.
Definition empty (h : ServiceRequestHeader) : t :=
  {| header := h; payload_len := 0; payload_buf := replicate (Z.to_nat MAX_IPC_PAYLOAD) 0 |}.
Definition with_payload (self : t) (payload : list Z) : sres t :=
  '(p, n) ← store_payload MAX_IPC_PAYLOAD (payload_buf self) payload;
  Ok {| header := header self; payload_len := n; payload_buf := p |}.
Definition payload (self : t) : sres (list Z) :=
  expect (slice (payload_buf self) 0 (payload_len self)).
End IpcFrame.

Record ServiceSupervisor := {
  slots : list (option ServiceSlot);
  audit : list (option AuditEvent);
  audit_next : Z;
  sequence : Z }.

Definition new : ServiceSupervisor :=
  {| slots := replicate (Z.to_nat MAX_SERVICES) None;
     audit := replicate (Z.to_nat MAX_AUDIT_EVENTS) None;
     audit_next := 0; sequence := 0 |}.

Definition set_slots (s : ServiceSupervisor) (l : list (option ServiceSlot)) : ServiceSupervisor :=
  {| slots := l; audit := audit s; audit_next := audit_next s; sequence := sequence s |}.

Definition set_state (sl : ServiceSlot) (st : ServiceState.t) : ServiceSlot :=
  {| id := id sl; authority := authority sl; generation := generation sl;
     state := st; restart_count := restart_count sl |}.

(** ** Operations *)

Definition slot_is (i : ServiceId) (o : option ServiceSlot) : Prop :=
  match o with Some sl => id sl = i | None => False end.
#[export] Instance slot_is_dec i o : Decision (slot_is i o).
Proof. destruct o; cbn; apply _. Defined.

(** [slots.iter().flatten().find(|slot| slot.id == id)]: [find] reads the
    slot, [slot_mut] also yields its position, through which it is updated. *)
Definition slot_mut (s : ServiceSupervisor) (i : ServiceId) : option (nat * ServiceSlot) :=
  match list_find (slot_is i) (slots s) with
  | Some (n, Some sl) => Some (n, sl)
  | _ => None
  end.
Definition find (s : ServiceSupervisor) (i : ServiceId) : option ServiceSlot :=
  snd <$> slot_mut s i.

Definition record (s : ServiceSupervisor) (svc : ServiceId) (k : AuditKind.t)
    (rid : Z) (auth : CapabilityId.t) (result : Z) : ServiceSupervisor :=
  let seq := wrapping_add 64 (sequence s) 1 in
  {| slots := slots s;
     audit := <[Z.to_nat (audit_next s) :=
       Some {| ev_sequence := seq; ev_service := svc; ev_kind := k;
               ev_request_id := rid; ev_authority := auth; ev_result := result |}]> (audit s);
     audit_next := (audit_next s + 1) mod MAX_AUDIT_EVENTS;
     sequence := seq |}.

Definition register (s : ServiceSupervisor) (i : ServiceId) (auth : CapabilityId.t)
    : ServiceSupervisor * sres unit :=
  if bool_decide (is_Some (find s i)) then (s, Err InvalidRequest) else
  match list_find (λ o, o = None) (slots s) with
  | None => (s, Err QueueFull)
  | Some (n, _) =>
    let s := set_slots s (<[n := Some {| id := i; authority := auth; generation := 1;
                state := ServiceState.Registered; restart_count := 0 |}]> (slots s)) in
    (record s i AuditKind.Registered 0 auth 0, Ok ())
  end.

Definition start (s : ServiceSupervisor) (i : ServiceId) : ServiceSupervisor * sres unit :=
  match slot_mut s i with
  | None => (s, Err NotFound)
  | Some (n, sl) =>
    if bool_decide (state sl = ServiceState.Revoked) then (s, Err Revoked) else
    let s := set_slots s (<[n := Some (set_state sl ServiceState.Running)]> (slots s)) in
    (record s i AuditKind.Started 0 (authority sl) 0, Ok ())
  end.

Definition dispatch (s : ServiceSupervisor) (f : IpcFrame.t)
    : ServiceSupervisor * ServiceResponseHeader :=
  let h := IpcFrame.header f in
  match slot_mut s (rh_service h) with
  | None => (s, response_error (rh_request_id h) NotFound)
  | Some (_, sl) =>
    if bool_decide (state sl = ServiceState.Revoked) || negb (bool_decide (authority sl = rh_authority h))
    then (s, response_error (rh_request_id h) Revoked) else
    if negb (bool_decide (state sl = ServiceState.Running))
    then (s, response_error (rh_request_id h) ServiceUnavailable) else
    let s := record s (rh_service h) AuditKind.Request (rh_request_id h) (rh_authority h) 0 in
    let response := response_success (rh_request_id h) in
    let s := record s (rh_service h) AuditKind.Completed (rh_request_id h) (rh_authority h)
               (sh_result response) in
    (s, response)
  end.

Definition crash_and_restart (s : ServiceSupervisor) (i : ServiceId)
    : ServiceSupervisor * sres unit :=
  match slot_mut s i with
  | None => (s, Err NotFound)
  | Some (n, sl) =>
    if bool_decide (state sl = ServiceState.Revoked) then (s, Err Revoked) else
    let auth := authority sl in
    let s := set_slots s (<[n := Some (set_state sl ServiceState.Crashed)]> (slots s)) in
    let s := record s i AuditKind.Crashed 0 auth (-1) in
    match slot_mut s i with
    | None => (s, Err NotFound)
    | Some (n, sl) =>
      let sl := set_state sl ServiceState.Restarting in
      let sl := {| id := id sl; authority := authority sl; generation := generation sl;
                   state := state sl; restart_count := saturating_add 32 (restart_count sl) 1 |} in
      let sl := set_state sl ServiceState.Running in
      let s := set_slots s (<[n := Some sl]> (slots s)) in
      (record s i AuditKind.Restarted 0 auth 0, Ok ())
    end
  end.

Definition revoke (s : ServiceSupervisor) (i : ServiceId)
    : ServiceSupervisor * sres CapabilityId.t :=
  match slot_mut s i with
  | None => (s, Err NotFound)
  | Some (n, sl) =>
    let old := authority sl in
    let s := set_slots s (<[n := Some (set_state sl ServiceState.Revoked)]> (slots s)) in
    (record s i AuditKind.Revoked 0 old 0, Ok old)
  end.

Definition get_state (s : ServiceSupervisor) (i : ServiceId) : option ServiceState.t :=
  state <$> find s i.
Definition get_restart_count (s : ServiceSupervisor) (i : ServiceId) : option Z :=
  restart_count <$> find s i.

Definition discover (s : ServiceSupervisor) (i : ServiceId) : sres ServiceEndpoint :=
  match find s i with
  | None => Err NotFound
  | Some sl =>
    if bool_decide (state sl = ServiceState.Revoked) then Err Revoked else
    Ok {| ep_service := id sl; ep_generation := generation sl; ep_authority := authority sl |}
  end.

Definition upgrade (s : ServiceSupervisor) (i : ServiceId) (auth : CapabilityId.t)
    : ServiceSupervisor * sres unit :=
  match slot_mut s i with
  | None => (s, Err NotFound)
  | Some (n, sl) =>
    if bool_decide (state sl = ServiceState.Revoked) then (s, Err Revoked) else
    (set_slots s (<[n := Some {| id := id sl; authority := auth;
        generation := saturating_add 64 (generation sl) 1;
        state := ServiceState.Running; restart_count := restart_count sl |}]> (slots s)), Ok ())
  end.

(** [audit.iter().filter_map(|event| *event)] *)
Definition audit_events (s : ServiceSupervisor) : list AuditEvent := omap (λ e, e) (audit s).

(** Sequences of calls. *)
Inductive op :=
| ORegister (i : ServiceId) (auth : CapabilityId.t)
| OStart (i : ServiceId)
| ODispatch (f : IpcFrame.t)
| OCrash (i : ServiceId)
| ORevoke (i : ServiceId)
| OUpgrade (i : ServiceId) (auth : CapabilityId.t)
| ODiscover (i : ServiceId).

Inductive answer :=
| AUnit (r : sres unit)
| AResponse (r : ServiceResponseHeader)
| ARevoked (r : sres CapabilityId.t)
| AEndpoint (r : sres ServiceEndpoint).

Definition step (s : ServiceSupervisor) (o : op) : ServiceSupervisor * answer :=
  match o with
  | ORegister i a => let '(s', r) := register s i a in (s', AUnit r)
  | OStart i => let '(s', r) := start s i in (s', AUnit r)
  | ODispatch f => let '(s', r) := dispatch s f in (s', AResponse r)
  | OCrash i => let '(s', r) := crash_and_restart s i in (s', AUnit r)
  | ORevoke i => let '(s', r) := revoke s i in (s', ARevoked r)
  | OUpgrade i a => let '(s', r) := upgrade s i a in (s', AUnit r)
  | ODiscover i => (s, AEndpoint (discover s i))
  end.

Fixpoint run (s : ServiceSupervisor) (os : list op) : ServiceSupervisor * list answer :=
  match os with
  | [] => (s, [])
  | o :: os => let '(s1, a) := step s o in let '(s2, l) := run s1 os in (s2, a :: l)
  end.

(** ** The abstract specification *)

Module Spec.
Record t := { services : gmap ServiceId ServiceSlot; log : list AuditEvent }.
Definition empty : t := {| services := ∅; log := [] |}.

Definition emit (sp : t) (svc : ServiceId) (k : AuditKind.t) (rid : Z)
    (auth : CapabilityId.t) (result : Z) : t :=
  {| services := services sp;
     log := log sp ++ [{| ev_sequence := u64 (zlen (log sp) + 1); ev_service := svc;
       ev_kind := k; ev_request_id := rid; ev_authority := auth; ev_result := result |}] |}.

Definition put (sp : t) (sl : ServiceSlot) : t :=
  {| services := <[id sl := sl]> (services sp); log := log sp |}.

(** A live service: registered and not revoked. *)
Definition live (sp : t) (i : ServiceId) : sres ServiceSlot :=
  match services sp !! i with
  | None => Err NotFound
  | Some sl => if bool_decide (state sl = ServiceState.Revoked) then Err Revoked else Ok sl
  end.

Definition on_live {A} (sp : t) (i : ServiceId) (f : ServiceSlot → t * A) : t * sres A :=
  match live sp i with
  | Ok sl => let '(sp', a) := f sl in (sp', Ok a)
  | Err e => (sp, Err e)
  | Panic => (sp, Panic)
  end.

Definition serve (sp : t) (h : ServiceRequestHeader) : t * ServiceResponseHeader :=
  let i := rh_service h in let rid := rh_request_id h in
  match services sp !! i with
  | None => (sp, response_error rid NotFound)
  | Some sl =>
    match state sl, bool_decide (authority sl = rh_authority h) with
    | ServiceState.Revoked, _ | _, false => (sp, response_error rid Revoked)
    | ServiceState.Running, true =>
      (emit (emit sp i AuditKind.Request rid (rh_authority h) 0)
         i AuditKind.Completed rid (rh_authority h) 0, response_success rid)
    | _, true => (sp, response_error rid ServiceUnavailable)
    end
  end.

Definition step (sp : t) (o : op) : t * answer :=
  match o with
  | ORegister i a =>
    match services sp !! i with
    | Some _ => (sp, AUnit (Err InvalidRequest))
    | None => (emit (put sp {| id := i; authority := a; generation := 1;
                 state := ServiceState.Registered; restart_count := 0 |})
                 i AuditKind.Registered 0 a 0, AUnit (Ok ()))
    end
  | OStart i =>
    let '(sp', r) := on_live sp i (λ sl,
      (emit (put sp (set_state sl ServiceState.Running)) i AuditKind.Started 0 (authority sl) 0, ()))
    in (sp', AUnit r)
  | ODispatch f => let '(sp', r) := serve sp (IpcFrame.header f) in (sp', AResponse r)
  | OCrash i =>
    let '(sp', r) := on_live sp i (λ sl,
      (emit (emit (put sp {| id := id sl; authority := authority sl;
           generation := generation sl; state := ServiceState.Running;
           restart_count := saturating_add 32 (restart_count sl) 1 |})
         i AuditKind.Crashed 0 (authority sl) (-1))
         i AuditKind.Restarted 0 (authority sl) 0, ()))
    in (sp', AUnit r)
  | ORevoke i =>
    match services sp !! i with
    | None => (sp, ARevoked (Err NotFound))
    | Some sl => (emit (put sp (set_state sl ServiceState.Revoked))
                    i AuditKind.Revoked 0 (authority sl) 0, ARevoked (Ok (authority sl)))
    end
  | OUpgrade i a =>
    let '(sp', r) := on_live sp i (λ sl,
      (put sp {| id := id sl; authority := a; generation := saturating_add 64 (generation sl) 1;
         state := ServiceState.Running; restart_count := restart_count sl |}, ()))
    in (sp', AUnit r)
  | ODiscover i =>
    (sp, AEndpoint (sl ← live sp i;
       Ok {| ep_service := id sl; ep_generation := generation sl; ep_authority := authority sl |}))
  end.

Fixpoint run (sp : t) (os : list op) : t * list answer :=
  match os with
  | [] => (sp, [])
  | o :: os => let '(s1, a) := step sp o in let '(s2, l) := run s1 os in (s2, a :: l)
  end.
End Spec.

(** ** Invariants *)

Definition slots_ok (l : list (option ServiceSlot)) : Prop :=
  length l = 16%nat ∧
  ∀ n m a b, l !! n = Some (Some a) → l !! m = Some (Some b) → id a = id b → n = m.

(** The ring holds the last 64 entries of the log, entry [j] in cell
    [j mod 64]; cells never written are empty. *)
Record ring_ok (s : ServiceSupervisor) (log : list AuditEvent) : Prop := {
  ring_len : length (audit s) = 64%nat;
  ring_next : audit_next s = zlen log mod 64;
  ring_seq : sequence s = u64 (zlen log);
  ring_cells : ∀ j, (length log ≤ j + 64)%nat → (j < length log)%nat →
    audit s !! (j mod 64)%nat = Some (log !! j);
  ring_fresh : ∀ j, (length log ≤ j < 64)%nat → audit s !! j = Some None }.

Record refines (s : ServiceSupervisor) (sp : Spec.t) : Prop := {
  ref_slots : slots_ok (slots s);
  ref_find : ∀ i, find s i = Spec.services sp !! i;
  ref_ring : ring_ok s (Spec.log sp) }.

Lemma slot_mut_spec s i n sl :
  slots_ok (slots s) →
  slot_mut s i = Some (n, sl) ↔ slots s !! n = Some (Some sl) ∧ id sl = i.
Proof.
  intros [_ Huniq]. unfold slot_mut. split.
  - destruct (list_find _ _) as [[m [sl'|]]|] eqn:E; intros; simplify_eq.
    apply list_find_Some in E as (? & ? & _). done.
  - intros [Hn <-].
    destruct (list_find (slot_is (id sl)) (slots s)) as [[m o]|] eqn:E.
    + apply list_find_Some in E as (Hm & Ho & _). destruct o as [sl'|]; [|done].
      cbn in Ho. assert (m = n) as -> by eauto. by simplify_eq.
    + apply list_find_None in E. rewrite Forall_forall in E.
      exfalso. eapply (E (Some sl)); [by eapply list_elem_of_lookup_2|done].
Qed.

Lemma slot_mut_None s i :
  slot_mut s i = None ↔ ∀ n sl, slots s !! n = Some (Some sl) → id sl ≠ i.
Proof.
  unfold slot_mut. split.
  - destruct (list_find _ _) as [[m [sl'|]]|] eqn:E; [done|..].
    + apply list_find_Some in E as (_ & [] & _).
    + apply list_find_None in E. rewrite Forall_forall in E. intros _ n sl Hn Hid.
      eapply (E (Some sl)); [by eapply list_elem_of_lookup_2|done].
  - intros H. destruct (list_find _ _) as [[m [sl'|]]|] eqn:E; [|done..].
    apply list_find_Some in E as (Hm & Hid & _). by apply H in Hm.
Qed.

Lemma find_slot_mut s i : find s i = None ↔ slot_mut s i = None.
Proof. unfold find. destruct (slot_mut s i); cbn; split; congruence. Qed.

(** Overwriting the slot of a service, or filling an empty one with a new
    service, changes what [find] returns for that service only. *)
Lemma slots_write s n i sl :
  slots_ok (slots s) → id sl = i →
  (∃ old, slot_mut s i = Some (n, old)) ∨ (slot_mut s i = None ∧ slots s !! n = Some None) →
  let s' := set_slots s (<[n := Some sl]> (slots s)) in
  slots_ok (slots s') ∧ slot_mut s' i = Some (n, sl) ∧
  ∀ j, find s' j = if decide (i = j) then Some sl else find s j.
Proof.
  intros Hok Hid Hcase s'.
  assert (Hn : (n < length (slots s))%nat).
  { destruct Hcase as [[old H]|[_ H]]; [apply slot_mut_spec in H as [H _]; [|done]|];
      by apply lookup_lt_Some in H. }
  assert (Hother : ∀ m b, slots s !! m = Some (Some b) → id b = i → m = n).
  { intros m b Hm Hb. destruct Hcase as [[old H]|[H _]].
    - apply slot_mut_spec in H as [H ?]; [|done]. eapply Hok; [done..|congruence].
    - rewrite slot_mut_None in H. by apply H in Hm. }
  assert (Hok' : slots_ok (slots s')).
  { destruct Hok as [Hlen Huniq]. split; [cbn; by rewrite length_insert|].
    intros x y a b. cbn. rewrite !list_lookup_insert. intros Hx Hy Hab.
    repeat case_decide; destruct_and?; simplify_eq; first
      [ by eauto | eapply Hother; [done|congruence]
      | symmetry; eapply Hother; [done|congruence] ]. }
  assert (Hi : slot_mut s' i = Some (n, sl)).
  { apply slot_mut_spec; [done|]. cbn. by rewrite list_lookup_insert_eq. }
  split_and!; [done..|]. intros j. case_decide as Hj.
  { subst j. unfold find. by rewrite Hi. }
  unfold find. f_equal. destruct (slot_mut s j) as [[m b]|] eqn:E.
  - apply slot_mut_spec in E as [Hm Hb]; [|done]. apply slot_mut_spec; [done|].
    split; [|done]. cbn. rewrite list_lookup_insert_ne; [done|]. intros ->.
    destruct Hcase as [[old H]|[_ H]]; [apply slot_mut_spec in H as [H ?]; [|done]|];
      simplify_eq.
  - apply slot_mut_None. intros m b. cbn. rewrite list_lookup_insert.
    rewrite slot_mut_None in E. case_decide; [intros; simplify_eq; congruence|apply E].
Qed.

Lemma refines_record s sp svc k rid auth r :
  refines s sp → refines (record s svc k rid auth r) (Spec.emit sp svc k rid auth r).
Proof.
  intros [Hslots Hfind [Hlen Hnext Hseq Hcells Hfresh]]. split; [done..|].
  assert (Hi : Z.to_nat (audit_next s) = (length (Spec.log sp) mod 64)%nat).
  { rewrite Hnext, <- (Nat2Z.id (length _ mod 64)), Nat2Z.inj_mod. done. }
  assert (Hw : wrapping_add 64 (sequence s) 1 = u64 (zlen (Spec.log sp) + 1)).
  { rewrite Hseq. unfold wrapping_add, wrap. by rewrite Zplus_mod_idemp_l. }
  assert (length (Spec.log sp) mod 64 < 64)%nat by (apply Nat.mod_upper_bound; lia).
  split; cbn [Spec.emit Spec.log record audit audit_next sequence];
    rewrite ?length_app, ?length_insert; cbn [length].
  - done.
  - rewrite Hnext. unfold MAX_AUDIT_EVENTS. rewrite Zplus_mod_idemp_l. f_equal. lia.
  - rewrite Hw. f_equal. lia.
  - intros j ? ?. rewrite Hi, list_lookup_insert, Hw.
    destruct (decide (j = length (Spec.log sp))) as [->|].
    + rewrite decide_True by lia. by rewrite list_lookup_middle.
    + rewrite decide_False.
      * rewrite Hcells by lia. by rewrite lookup_app_l by lia.
      * intros [He _]. pose proof (Nat.div_mod_eq j 64).
        pose proof (Nat.div_mod_eq (length (Spec.log sp)) 64). nia.
  - intros j ?. rewrite Hi, list_lookup_insert_ne by (rewrite Nat.mod_small; lia).
    apply Hfresh. lia.
Qed.

Lemma refines_put s sp n sl :
  refines s sp →
  (∃ old, slot_mut s (id sl) = Some (n, old)) ∨
    (slot_mut s (id sl) = None ∧ slots s !! n = Some None) →
  refines (set_slots s (<[n := Some sl]> (slots s))) (Spec.put sp sl).
Proof.
  intros [Hslots Hfind Hring] Hcase.
  destruct (slots_write s n (id sl) sl Hslots eq_refl Hcase) as (Hok & _ & Hf).
  split; [done| |]; [|by destruct Hring].
  intros j. rewrite Hf, Hfind. cbn. symmetry. apply lookup_insert.
Qed.

(** Sixteen slots always suffice for the nine service identifiers. *)
Definition all_services : list ServiceId :=
  [Process; Vfs; Network; Device; Display; Audio; Input; Package; Security].

Lemma service_ids_NoDup (l : list (option ServiceSlot)) :
  (∀ n m a b, l !! n = Some (Some a) → l !! m = Some (Some b) → id a = id b → n = m) →
  NoDup (omap (λ o, id <$> o) l).
Proof.
  induction l as [|o l IH]; intros Huniq; [constructor|].
  assert (NoDup (omap (λ o, id <$> o) l)) as Hl.
  { apply IH. intros n m a b Hn Hm Hab. assert (S n = S m); [by eapply Huniq|lia]. }
  destruct o as [sl|]; [|done]. cbn. constructor; [|done].
  rewrite list_elem_of_omap. intros ([b|] & Hb & Hid); [|done]. simplify_eq/=.
  apply list_elem_of_lookup in Hb as [m Hm]. assert (0 = S m)%nat; [|done].
  by eapply (Huniq 0%nat (S m)).
Qed.

Lemma free_slot_exists l :
  slots_ok l → ∃ n, list_find (λ o, o = None) l = Some (n, None).
Proof.
  intros [Hlen Huniq]. destruct (list_find (λ o, o = None) l) as [[n o]|] eqn:E.
  { apply list_find_Some in E as (_ & -> & _). eauto. }
  exfalso. apply list_find_None in E.
  assert (length (omap (λ o, id <$> o) l) = length l) as Hl.
  { clear -E. induction l as [|[sl|] l IH]; inversion E; simplify_eq/=; try done.
    f_equal. by apply IH. }
  assert (omap (λ o, id <$> o) l ⊆+ all_services) as Hsub.
  { apply NoDup_submseteq; [by apply service_ids_NoDup|].
    intros [] _; unfold all_services; set_solver. }
  apply submseteq_length in Hsub. cbn in Hsub. lia.
Qed.

Lemma refines_slot s sp i :
  refines s sp →
  match slot_mut s i with
  | Some (n, sl) => Spec.services sp !! i = Some sl ∧ id sl = i
  | None => Spec.services sp !! i = None
  end.
Proof.
  intros [Hslots Hfind _]. rewrite <- Hfind. unfold find.
  destruct (slot_mut s i) as [[n sl]|] eqn:E; [|done].
  by apply slot_mut_spec in E as [_ ?].
Qed.

(** The operations that need a live service share their guards with the
    specification. *)
Lemma refines_live {A} s sp i (f : nat → ServiceSlot → ServiceSupervisor * A)
    (g : ServiceSlot → Spec.t * A) :
  refines s sp →
  (∀ n sl, slot_mut s i = Some (n, sl) → id sl = i → state sl ≠ ServiceState.Revoked →
     refines (f n sl).1 (g sl).1 ∧ (f n sl).2 = (g sl).2) →
  let r := match slot_mut s i with
           | None => (s, Err NotFound)
           | Some (n, sl) =>
             if bool_decide (state sl = ServiceState.Revoked) then (s, Err Revoked)
             else let '(s', a) := f n sl in (s', Ok a)
           end in
  refines r.1 (Spec.on_live sp i g).1 ∧ r.2 = (Spec.on_live sp i g).2.
Proof.
  intros Href Hf. unfold Spec.on_live, Spec.live. pose proof (refines_slot s sp i Href) as Hs.
  destruct (slot_mut s i) as [[n sl]|]; [destruct Hs as [-> Hid]|by rewrite Hs].
  case_bool_decide; [done|]. specialize (Hf n sl eq_refl Hid ltac:(done)).
  destruct (f n sl), (g sl). cbn in *. destruct Hf as [? ->]. done.
Qed.

Lemma refines_crash s sp i n sl :
  refines s sp → slot_mut s i = Some (n, sl) → id sl = i →
  let s1 := record (set_slots s (<[n := Some (set_state sl ServiceState.Crashed)]> (slots s)))
              i AuditKind.Crashed 0 (authority sl) (-1) in
  slot_mut s1 i = Some (n, set_state sl ServiceState.Crashed) ∧
  ∀ sl', id sl' = i →
    refines (set_slots s1 (<[n := Some sl']> (slots s1)))
      (Spec.emit (Spec.put sp sl') i AuditKind.Crashed 0 (authority sl) (-1)).
Proof.
  intros Href Hsl Hid s1. set (sl1 := set_state sl ServiceState.Crashed).
  assert (Hid1 : id sl1 = i) by done.
  assert (Hcase : (∃ old, slot_mut s (id sl1) = Some (n, old)) ∨
    (slot_mut s (id sl1) = None ∧ slots s !! n = Some None)) by (left; rewrite Hid1; eauto).
  pose proof (refines_put s sp n sl1 Href Hcase) as H1.
  assert (Hm : slot_mut s1 i = Some (n, sl1)).
  { rewrite Hid1 in Hcase.
    by destruct (slots_write s n i sl1 (ref_slots _ _ Href) Hid1 Hcase) as (_ & ? & _). }
  split; [done|]. intros sl' Hid'.
  assert (refines (set_slots s (<[n := Some sl']> (slots s))) (Spec.put sp sl')) as H2.
  { apply refines_put; [done|]. left. rewrite Hid'. eauto. }
  apply (refines_record _ _ i AuditKind.Crashed 0 (authority sl) (-1)) in H2.
  unfold s1, record, set_slots in *. cbn [slots audit audit_next sequence] in *.
  by rewrite list_insert_insert_eq.
Qed.

Lemma refines_start s sp i :
  refines s sp →
  refines (step s (OStart i)).1 (Spec.step sp (OStart i)).1 ∧
  (step s (OStart i)).2 = (Spec.step sp (OStart i)).2.
Proof.
  intros Href. cbn [step Spec.step].
  match goal with |- context [Spec.on_live sp i ?g] =>
    pose proof (refines_live s sp i (λ n sl,
      (record (set_slots s (<[n := Some (set_state sl ServiceState.Running)]> (slots s)))
         i AuditKind.Started 0 (authority sl) 0, ())) g Href) as H;
    destruct (Spec.on_live sp i g) end.
  cbv zeta in H. fold (start s i) in H. destruct (start s i).
  cbn [fst snd] in *. destruct H as [? ->]; [|done].
  intros n sl Hsl Hid _. split; [|done]. apply refines_record, refines_put; [done|].
  left. cbn. rewrite Hid. eauto.
Qed.

Lemma refines_crash_step s sp i :
  refines s sp →
  refines (step s (OCrash i)).1 (Spec.step sp (OCrash i)).1 ∧
  (step s (OCrash i)).2 = (Spec.step sp (OCrash i)).2.
Proof.
  intros Href. cbn [step Spec.step]. unfold crash_and_restart, Spec.on_live, Spec.live.
  pose proof (refines_slot s sp i Href) as Hs.
  destruct (slot_mut s i) as [[n sl]|] eqn:E; [destruct Hs as [-> Hid]|by rewrite Hs].
  case_bool_decide; [done|].
  destruct (refines_crash s sp i n sl Href E Hid) as [-> Hnext].
  split; [|done]. apply refines_record. apply Hnext. done.
Qed.

Lemma refines_upgrade s sp i a :
  refines s sp →
  refines (step s (OUpgrade i a)).1 (Spec.step sp (OUpgrade i a)).1 ∧
  (step s (OUpgrade i a)).2 = (Spec.step sp (OUpgrade i a)).2.
Proof.
  intros Href. cbn [step Spec.step].
  match goal with |- context [Spec.on_live sp i ?g] =>
    pose proof (refines_live s sp i (λ n sl,
      (set_slots s (<[n := Some {| id := id sl; authority := a;
        generation := saturating_add 64 (generation sl) 1;
        state := ServiceState.Running; restart_count := restart_count sl |}]> (slots s)), ()))
      g Href) as H;
    destruct (Spec.on_live sp i g) end.
  cbv zeta in H. fold (upgrade s i a) in H. destruct (upgrade s i a).
  cbn [fst snd] in *. destruct H as [? ->]; [|done].
  intros n sl Hsl Hid _. split; [|done]. apply refines_put; [done|].
  left. cbn. rewrite Hid. eauto.
Qed.

(** One call of the supervisor is one step of the specification. *)
Lemma refines_step s sp o :
  refines s sp →
  refines (step s o).1 (Spec.step sp o).1 ∧ (step s o).2 = (Spec.step sp o).2.
Proof.
  intros Href. destruct o as [i a|i|f|i|i|i a|i];
    [|by apply refines_start| |by apply refines_crash_step| |by apply refines_upgrade|];
    cbn [step Spec.step].
  - unfold register. rewrite (ref_find s sp Href i).
    destruct (Spec.services sp !! i) as [sl|] eqn:E.
    { by rewrite bool_decide_eq_true_2. }
    rewrite bool_decide_eq_false_2 by (intros [? ?]; done).
    destruct (free_slot_exists (slots s)) as [n Hn]; [by eapply ref_slots|]. rewrite Hn.
    split; [|done]. apply refines_record, refines_put; [done|]. right. cbn.
    apply list_find_Some in Hn as (? & _). split; [|done].
    apply find_slot_mut. by rewrite (ref_find s sp Href i).
  - unfold dispatch, Spec.serve. pose proof (refines_slot s sp (rh_service (IpcFrame.header f)) Href) as Hs.
    destruct (slot_mut s _) as [[n sl]|]; [destruct Hs as [-> Hid]|by rewrite Hs].
    destruct (bool_decide (authority sl = _)), (state sl) eqn:Est;
      cbn; repeat (rewrite bool_decide_eq_false_2 by done); cbn; try done.
    split; [|done]. by do 2 apply refines_record.
  - unfold revoke. pose proof (refines_slot s sp i Href) as Hs.
    destruct (slot_mut s i) as [[n sl]|] eqn:E; [destruct Hs as [-> Hid]|by rewrite Hs].
    split; [|done]. apply refines_record, refines_put; [done|].
    left. cbn. rewrite Hid. eauto.
  - split; [done|]. cbn. unfold discover, Spec.live. rewrite (ref_find s sp Href i).
    destruct (Spec.services sp !! i) as [sl|]; [|done]. by case_bool_decide.
Qed.

Lemma refines_new : refines new Spec.empty.
Proof.
  split.
  - split; [done|]. intros n m a b Hn. apply lookup_replicate in Hn as [? _]. done.
  - done.
  - split; try done.
    + cbn. lia.
    + intros j [_ ?]. apply lookup_replicate. split; [done|]. unfold MAX_AUDIT_EVENTS. lia.
Qed.

Lemma refines_run os : ∀ s sp, refines s sp →
  refines (run s os).1 (Spec.run sp os).1 ∧ (run s os).2 = (Spec.run sp os).2.
Proof.
  induction os as [|o os IH]; intros s sp Href; [done|]. cbn.
  destruct (refines_step s sp o Href) as [H1 H2].
  destruct (step s o) as [s1 a], (Spec.step sp o) as [sp1 b]. cbn in *. subst b.
  destruct (IH s1 sp1 H1) as [H3 H4].
  destruct (run s1 os), (Spec.run sp1 os). cbn in *. by subst.
Qed.

(** What [audit_events] yields: the ring in array order is the retained tail
    of the log, rotated. *)
Definition retained (log : list AuditEvent) : list AuditEvent := drop (length log - 64) log.

Lemma omap_Some_id {A} (l : list A) : omap (λ e, e) (Some <$> l) = l.
Proof. induction l; cbn; congruence. Qed.

Lemma omap_None_id {A} n : omap (λ e, e) (replicate n (@None A)) = [].
Proof. induction n; done. Qed.

Lemma ring_events s log :
  ring_ok s log →
  audit_events s =
    if decide (length log ≤ 64)%nat then log
    else let k := (length log mod 64)%nat in
         drop (64 - k) (retained log) ++ take (64 - k) (retained log).
Proof.
  intros [Hlen _ _ Hcells Hfresh]. unfold audit_events. case_decide as Hn.
  - replace (audit s) with ((Some <$> log) ++ replicate (64 - length log) None).
    { by rewrite omap_app, omap_Some_id, omap_None_id, app_nil_r. }
    symmetry. apply list_eq_same_length with 64%nat; [|lia|].
    { rewrite length_app, length_fmap, length_replicate. lia. }
    intros i x y Hi. destruct (decide (i < length log)%nat).
    + specialize (Hcells i ltac:(lia) ltac:(lia)). rewrite Nat.mod_small in Hcells by lia.
      rewrite Hcells, lookup_app_l, list_lookup_fmap by (rewrite length_fmap; lia).
      destruct (lookup_lt_is_Some_2 log i) as [e ->]; [lia|]. cbn. congruence.
    + rewrite Hfresh, lookup_app_r by (rewrite ?length_fmap; lia).
      intros ? [? _]%lookup_replicate. congruence.
  - cbv zeta. set (n := length log) in *. set (k := (n mod 64)%nat).
    assert (k < 64)%nat by (apply Nat.mod_upper_bound; lia).
    assert (n = 64 * (n / 64) + k)%nat as Hdiv by (apply Nat.div_mod_eq).
    replace (audit s) with
      (Some <$> (drop (64 - k) (retained log) ++ take (64 - k) (retained log))).
    { by rewrite omap_Some_id. }
    assert (length (retained log) = 64)%nat as Hret by (unfold retained; rewrite length_drop; lia).
    symmetry. apply list_eq_same_length with 64%nat; [|lia|].
    { rewrite length_fmap, length_app, length_take, length_drop. lia. }
    intros i x y Hi. rewrite list_lookup_fmap.
    destruct (decide (i < k)%nat).
    + specialize (Hcells (n - k + i)%nat ltac:(lia) ltac:(lia)).
      assert ((n - k + i) mod 64 = i)%nat as Hm.
      { replace (n - k + i)%nat with (i + n / 64 * 64)%nat by lia.
        rewrite Nat.Div0.mod_add. apply Nat.mod_small. lia. }
      rewrite Hm in Hcells. rewrite Hcells.
      rewrite lookup_app_l by (rewrite length_drop; lia).
      unfold retained. rewrite !lookup_drop. fold n.
      replace (n - 64 + (64 - k + i))%nat with (n - k + i)%nat by lia.
      destruct (log !! _); cbn; congruence.
    + specialize (Hcells (n - 64 - k + i)%nat ltac:(lia) ltac:(lia)).
      assert ((n - 64 - k + i) mod 64 = i)%nat as Hm.
      { replace (n - 64 - k + i)%nat with (i + (n / 64 - 1) * 64)%nat by lia.
        rewrite Nat.Div0.mod_add. apply Nat.mod_small. lia. }
      rewrite Hm in Hcells. rewrite Hcells.
      rewrite lookup_app_r by (rewrite length_drop; lia).
      rewrite length_drop, Hret, lookup_take, decide_True by lia.
      unfold retained. rewrite lookup_drop. fold n.
      replace (n - 64 + (i - (64 - (64 - k))))%nat with (n - 64 - k + i)%nat by lia.
      destruct (log !! _); cbn; congruence.
Qed.

(** ** Properties *)

(** C1: from a fresh supervisor, any sequence of calls returns what the
    abstract specification returns (a map from services to slots and an
    unbounded log), and the audit ring always shows exactly the last 64 log
    entries.  In particular [register] never reports [QueueFull]: the sixteen
    slots suffice for every service. *)
Theorem supervisor_refines_spec os :
  (run new os).2 = (Spec.run Spec.empty os).2 ∧
  (∀ i, find (run new os).1 i = Spec.services (Spec.run Spec.empty os).1 !! i) ∧
  Permutation (audit_events (run new os).1)
    (retained (Spec.log (Spec.run Spec.empty os).1)) ∧
  ¬ (AUnit (Err QueueFull) ∈ (run new os).2).
Proof.
  destruct (refines_run os new Spec.empty refines_new) as [Href Hans].
  split_and!; [done|by apply Href| |].
  - rewrite (ring_events _ _ (ref_ring _ _ Href)). case_decide.
    + unfold retained. by replace (_ - 64)%nat with 0%nat by lia.
    + cbv zeta. by rewrite Permutation_app_comm, take_drop.
  - rewrite Hans. clear. generalize Spec.empty. induction os as [|o os IH]; intros sp.
    { apply not_elem_of_nil. }
    cbn. destruct (Spec.step sp o) as [sp1 a] eqn:E. specialize (IH sp1).
    destruct (Spec.run sp1 os) as [sp2 l]. cbn in *. rewrite not_elem_of_cons. split; [|done].
    intros <-. destruct o; cbn in E; unfold Spec.on_live, Spec.live in E;
      repeat case_match; simplify_eq; unfold Spec.serve in *; repeat case_match; simplify_eq.
Qed.

(** Revocation is not undone by any single call. *)
Lemma put_keeps_revoked (m : gmap ServiceId ServiceSlot) i j sl' :
  (state <$> m !! j) ≠ Some ServiceState.Revoked ∨ state sl' = ServiceState.Revoked →
  (state <$> m !! i) = Some ServiceState.Revoked →
  (state <$> <[j := sl']> m !! i) = Some ServiceState.Revoked.
Proof.
  intros Hj Hi. rewrite lookup_insert. case_decide; [subst; cbn|done].
  destruct Hj; [done|congruence].
Qed.

Lemma on_live_keeps_revoked {A} sp i j (g : ServiceSlot → Spec.t * A) :
  (∀ sl, Spec.services sp !! j = Some sl →
     ∃ sl', Spec.services (g sl).1 = <[j := sl']> (Spec.services sp)) →
  (state <$> Spec.services sp !! i) = Some ServiceState.Revoked →
  (state <$> Spec.services (Spec.on_live sp j g).1 !! i) = Some ServiceState.Revoked.
Proof.
  intros Hg Hi. unfold Spec.on_live, Spec.live.
  destruct (Spec.services sp !! j) as [sl|] eqn:E; [|done].
  case_bool_decide as Hst; [done|]. specialize (Hg sl eq_refl) as [sl' Hg].
  destruct (g sl) as [sp' a]. cbn in *. rewrite Hg. apply put_keeps_revoked; [left|done].
  rewrite E. cbn. congruence.
Qed.

Lemma dispatch_services sp h : Spec.services (Spec.serve sp h).1 = Spec.services sp.
Proof.
  unfold Spec.serve. destruct (_ !! _) as [sl|]; [|done].
  by destruct (state sl), (bool_decide (authority sl = rh_authority h)).
Qed.

Lemma revoked_step s o i :
  (∃ sp, refines s sp) →
  get_state s i = Some ServiceState.Revoked →
  get_state (step s o).1 i = Some ServiceState.Revoked.
Proof.
  intros [sp Href]. unfold get_state.
  rewrite (ref_find _ _ Href), (ref_find _ _ (proj1 (refines_step s sp o Href))).
  assert (Hid : ∀ j sl, Spec.services sp !! j = Some sl → id sl = j).
  { intros j sl Hj. pose proof (refines_slot s sp j Href) as Hs.
    destruct (slot_mut s j) as [[n sl']|]; [|congruence]. destruct Hs. congruence. }
  intros Hr. destruct o as [j a|j|f|j|j|j a|j]; cbn [Spec.step].
  - destruct (Spec.services sp !! j) as [sl|] eqn:E; [done|].
    apply (put_keeps_revoked (Spec.services sp) i j); [left; by rewrite E|done].
  - rewrite let_pair_fst. apply on_live_keeps_revoked; [|done].
    intros sl Hsl. eexists. cbn. by rewrite (Hid _ _ Hsl).
  - rewrite let_pair_fst, dispatch_services. done.
  - rewrite let_pair_fst. apply on_live_keeps_revoked; [|done].
    intros sl Hsl. eexists. cbn. by rewrite (Hid _ _ Hsl).
  - destruct (Spec.services sp !! j) as [sl|] eqn:E; [|done]. cbn. rewrite (Hid _ _ E).
    apply put_keeps_revoked; [by right|done].
  - rewrite let_pair_fst. apply on_live_keeps_revoked; [|done].
    intros sl Hsl. eexists. cbn. by rewrite (Hid _ _ Hsl).
  - done.
Qed.

Lemma refines_reachable os : ∃ sp, refines (run new os).1 sp.
Proof. eexists. apply (refines_run os new Spec.empty refines_new). Qed.

Lemma refines_step_ex s o : (∃ sp, refines s sp) → ∃ sp, refines (step s o).1 sp.
Proof. intros [sp H]. eexists. apply (refines_step s sp o H). Qed.

Lemma revoked_run os i : ∀ s, (∃ sp, refines s sp) →
  get_state s i = Some ServiceState.Revoked →
  get_state (run s os).1 i = Some ServiceState.Revoked.
Proof.
  induction os as [|o os IH]; intros s Href Hr; [done|]. cbn.
  pose proof (revoked_step s o i Href Hr) as H1.
  pose proof (refines_step_ex s o Href) as H2.
  destruct (step s o) as [s1 a]. cbn in *. specialize (IH s1 H2 H1).
  by destruct (run s1 os).
Qed.

Lemma get_state_slot s i st :
  get_state s i = Some st → ∃ n sl, slot_mut s i = Some (n, sl) ∧ state sl = st.
Proof.
  unfold get_state, find. destruct (slot_mut s i) as [[n sl]|]; [|done].
  cbn. intros [= <-]. eauto.
Qed.

(** C32: revocation is permanent.  Once a service is revoked, no later sequence
    of calls brings it back: its state stays [Revoked], every request to it is
    refused with [Revoked] and leaves the supervisor unchanged, and it can no
    longer be discovered. *)
Theorem revocation_permanent os1 os2 i :
  get_state (run new os1).1 i = Some ServiceState.Revoked →
  let s := (run (run new os1).1 os2).1 in
  get_state s i = Some ServiceState.Revoked ∧
  (∀ f, rh_service (IpcFrame.header f) = i →
     dispatch s f = (s, response_error (rh_request_id (IpcFrame.header f)) Revoked)) ∧
  discover s i = Err Revoked.
Proof.
  intros Hr s. assert (Hs : get_state s i = Some ServiceState.Revoked).
  { apply revoked_run; [apply refines_reachable|done]. }
  split; [done|]. apply get_state_slot in Hs as (n & sl & Hsl & Hst). split.
  - intros f <-. unfold dispatch. rewrite Hsl, Hst. done.
  - unfold discover, find. rewrite Hsl. cbn. by rewrite Hst.
Qed.

Definition demo_auth := CapabilityId.from_parts 3 9.
Definition demo_frame (auth : CapabilityId.t) : IpcFrame.t :=
  IpcFrame.empty {| rh_service := Vfs; rh_operation := 1; rh_request_id := 8;
                    rh_authority := auth |}.

Lemma revocation_permanent_witness :
  let os1 := [ORegister Vfs demo_auth; OStart Vfs; ORevoke Vfs] in
  get_state (run new os1).1 Vfs = Some ServiceState.Revoked ∧
  discover (run (run new os1).1 [OStart Vfs; OUpgrade Vfs demo_auth; OCrash Vfs]).1 Vfs
    = Err Revoked.
Proof.
  split; [vm_compute; reflexivity|].
  apply (revocation_permanent [ORegister Vfs demo_auth; OStart Vfs; ORevoke Vfs]
           [OStart Vfs; OUpgrade Vfs demo_auth; OCrash Vfs] Vfs).
  vm_compute. reflexivity.
Defined.

(** a request is served exactly when the service is running and the
    caller presents the slot's current authority; an [upgrade] of a live
    service installs the new authority, bumps the generation and locks out
    every holder of another authority. *)
Theorem dispatch_authorized os f :
  let s := (run new os).1 in
  let h := IpcFrame.header f in
  (sh_result (dispatch s f).2 = 0 ↔
   ∃ sl, find s (rh_service h) = Some sl ∧ state sl = ServiceState.Running ∧
         authority sl = rh_authority h) ∧
  (∀ a s', upgrade s (rh_service h) a = (s', Ok ()) →
     (∃ old new, find s (rh_service h) = Some old ∧ find s' (rh_service h) = Some new ∧
        authority new = a ∧ generation new = saturating_add 64 (generation old) 1) ∧
     (rh_authority h ≠ a → dispatch s' f = (s', response_error (rh_request_id h) Revoked))).
Proof.
  cbv zeta. set (s := (run new os).1). set (h := IpcFrame.header f). split.
  - unfold dispatch, find. fold h. destruct (slot_mut s _) as [[n sl]|]; cbn.
    2:{ split; [done|]. by intros (? & ? & _). }
    repeat case_bool_decide; cbn; (split; [intros; first [discriminate|by eexists]|]);
      intros (sl' & [= <-] & ? & ?); congruence.
  - intros a s' Hup. destruct (refines_reachable os) as [sp Href]. fold s in Href.
    unfold upgrade in Hup. destruct (slot_mut s _) as [[n sl]|] eqn:E; [|done].
    case_bool_decide; simplify_eq.
    pose proof (proj1 (slot_mut_spec s (rh_service h) n sl (ref_slots _ _ Href)) E) as [Hn Hid].
    set (sl' := {| id := id sl; authority := a |}).
    destruct (slots_write s n (rh_service h) sl' (ref_slots _ _ Href) Hid)
      as (_ & Hm & Hf); [left; eauto|]. split.
    + exists sl, sl'. rewrite Hf, decide_True by done. unfold find. by rewrite E.
    + intros Hne. unfold dispatch. fold h. rewrite Hm. cbn.
      by rewrite (bool_decide_eq_false_2 (a = _)) by congruence.
Qed.

Lemma dispatch_authorized_witness :
  sh_result (dispatch (run new [ORegister Vfs demo_auth; OStart Vfs]).1
               (demo_frame demo_auth)).2 = 0.
Proof.
  apply (proj1 (dispatch_authorized [ORegister Vfs demo_auth; OStart Vfs]
                  (demo_frame demo_auth))).
  eexists. vm_compute. eauto.
Defined.
