(* ===== verification/Vma.v ===== *)
(** * Virtual memory areas ([rust/kernel/src/vma.rs])

    A process memory map is an ordered map from start addresses to areas.
    The invariant keeps the areas page-aligned and disjoint; the abstract
    view of a map is the function from addresses to what is mapped there. *)

From stdpp Require Import gmap.
From S2P Require Import Prelude Words BTree.

Definition PAGE_SIZE : Z := 4096.

(** [VmaFlags]: a [u32] of flag bits. *)
Definition READ : Z := Z.shiftl 1 0.
Definition WRITE : Z := Z.shiftl 1 1.
Definition EXEC : Z := Z.shiftl 1 2.
Definition SHARED : Z := Z.shiftl 1 3.
Definition ANONYMOUS : Z := Z.shiftl 1 4.
Definition GROWSDOWN : Z := Z.shiftl 1 5.
Definition STACK : Z := Z.shiftl 1 6.
Definition flags_contains (self other : Z) : bool := Z.land self other =? other.
Definition flags_insert (self other : Z) : Z := Z.lor self other.
Definition flags_remove (self other : Z) : Z := Z.land self (bnot 32 other).

Inductive VmaBacking :=
| Anonymous
| FileBacked (mount_id inode offset file_size : Z) (shared : bool)
| DeviceMmio (phys_addr : Z).
#[export] Instance VmaBacking_eq_dec : EqDecision VmaBacking.
Proof. solve_decision. Defined.

Record Vma := { vstart : Z; vend : Z; vflags : Z; vbacking : VmaBacking }.
#[export] Instance Vma_eq_dec : EqDecision Vma.
Proof. solve_decision. Defined.

Definition contains (v : Vma) (addr : Z) : bool := (vstart v <=? addr) && (addr <? vend v).
Definition vma_size (v : Vma) : Z := saturating_sub (vend v) (vstart v).

Record ProcessMemoryMap := {
  vmas : gmap Z Vma;
  heap_start : Z; heap_break : Z; mmap_hint : Z;
  stack_bottom : Z; stack_top : Z;
  dynamic_mappings : list Z }.

Definition pmm_new (stack_top stack_bottom : Z) : ProcessMemoryMap :=
  {| vmas := ∅; heap_start := 0; heap_break := 0; mmap_hint := 0x700000000000;
     stack_bottom := stack_bottom; stack_top := stack_top; dynamic_mappings := [] |}.

Definition set_vmas (m : ProcessMemoryMap) (t : gmap Z Vma) : ProcessMemoryMap :=
  {| vmas := t; heap_start := heap_start m; heap_break := heap_break m;
     mmap_hint := mmap_hint m; stack_bottom := stack_bottom m; stack_top := stack_top m;
     dynamic_mappings := dynamic_mappings m |}.
Definition set_mmap_hint (m : ProcessMemoryMap) (h : Z) : ProcessMemoryMap :=
  {| vmas := vmas m; heap_start := heap_start m; heap_break := heap_break m;
     mmap_hint := h; stack_bottom := stack_bottom m; stack_top := stack_top m;
     dynamic_mappings := dynamic_mappings m |}.

(** ** Operations *)

Definition find_vma (m : ProcessMemoryMap) (addr : Z) : option Vma :=
  match last_le (vmas m) addr with
  | Some (_, vma) => if contains vma addr then Some vma else None
  | None => None
  end.

(** The key through which [find_vma_mut] hands out a mutable area. *)
Definition find_vma_mut (m : ProcessMemoryMap) (addr : Z) : option (Z * Vma) :=
  match last_le (vmas m) addr with
  | Some (start, _) =>
    match vmas m !! start with
    | Some vma => if contains vma addr then Some (start, vma) else None
    | None => None
    end
  | None => None
  end.

Definition insert_vma (m : ProcessMemoryMap) (start end_ flags : Z) (backing : VmaBacking)
    : ProcessMemoryMap * res unit unit :=
  if (end_ <=? start) || negb (Z.land start (PAGE_SIZE - 1) =? 0)
     || negb (Z.land end_ (PAGE_SIZE - 1) =? 0) then (m, Err ()) else
  let ok := (set_vmas m (<[start := {| vstart := start; vend := end_; vflags := flags;
                                       vbacking := backing |}]> (vmas m)), Ok ()) in
  match last_lt (vmas m) end_ with
  | Some (_, prev_vma) => if start <? vend prev_vma then (m, Err ()) else ok
  | None => ok
  end.

(** The keys of the areas that overlap [start, end). *)
Definition overlap_keys (t : gmap Z Vma) (start end_ : Z) : list Z :=
  (filter (λ e, start < vend e.2) (filter (λ e, e.1 < end_) (entries t))).*1.

(** The loop [for k in keys { if let Some(vma) = self.vmas.remove(&k) {..} }]:
    the areas taken out in order, and the surviving pieces of each. *)
Fixpoint take_out (pieces : Vma → list Vma) (ks : list Z)
    (t : gmap Z Vma) (affected to_reinsert : list Vma) : gmap Z Vma * list Vma * list Vma :=
  match ks with
  | [] => (t, affected, to_reinsert)
  | k :: ks =>
    match t !! k with
    | Some vma => take_out pieces ks (delete k t) (affected ++ [vma]) (to_reinsert ++ pieces vma)
    | None => take_out pieces ks t affected to_reinsert
    end
  end.

Definition reinsert (t : gmap Z Vma) (l : list Vma) : gmap Z Vma :=
  foldl (λ t v, <[vstart v := v]> t) t l.

Definition left_piece (v : Vma) (start : Z) : list Vma :=
  if vstart v <? start
  then [{| vstart := vstart v; vend := start; vflags := vflags v; vbacking := vbacking v |}]
  else [].

(** The backing of the part of [v] that begins at [end]. *)
Definition advance_backing (v : Vma) (end_ : Z) : VmaBacking :=
  let skipped := u64 (end_ - vstart v) in
  match vbacking v with
  | Anonymous => Anonymous
  | FileBacked mount inode offset size sh => FileBacked mount inode (u64 (offset + skipped)) size sh
  | DeviceMmio phys => DeviceMmio (u64 (phys + skipped))
  end.

Definition remove_pieces (start end_ : Z) (v : Vma) : list Vma :=
  left_piece v start ++
  (if end_ <? vend v
   then [{| vstart := end_; vend := vend v; vflags := vflags v;
            vbacking := advance_backing v end_ |}]
   else []).

Definition remove_vma_range (m : ProcessMemoryMap) (start end_ : Z)
    : ProcessMemoryMap * list Vma :=
  let keys := overlap_keys (vmas m) start end_ in
  let '(t, affected, to_reinsert) := take_out (remove_pieces start end_) keys (vmas m) [] [] in
  (set_vmas m (reinsert t to_reinsert), affected).

Definition protect_pieces (start end_ new_flags : Z) (v : Vma) : list Vma :=
  let mid_start := Z.max (vstart v) start in
  let mid_end := Z.min (vend v) end_ in
  let flags := Z.lor (Z.land (vflags v) (bnot 32 (Z.lor (Z.lor READ WRITE) EXEC))) new_flags in
  left_piece v start ++
  (if mid_start <? mid_end
   then [{| vstart := mid_start; vend := mid_end; vflags := flags; vbacking := vbacking v |}]
   else []) ++
  (if end_ <? vend v
   then [{| vstart := end_; vend := vend v; vflags := vflags v; vbacking := vbacking v |}]
   else []).

Definition protect_vma_range (m : ProcessMemoryMap) (start end_ new_flags : Z)
    : ProcessMemoryMap :=
  let keys := overlap_keys (vmas m) start end_ in
  let '(t, _, to_reinsert) :=
    take_out (protect_pieces start end_ new_flags) keys (vmas m) [] [] in
  set_vmas m (reinsert t to_reinsert).

Definition is_stack (v : Vma) : bool := flags_contains (vflags v) STACK.

(** The first area, in address order, that carries the [STACK] flag. *)
Definition find_stack_entry (t : gmap Z Vma) : option (Z * Vma) :=
  snd <$> list_find (λ e, is_stack e.2 = true) (entries t).
Definition find_stack_vma (m : ProcessMemoryMap) : option Vma := snd <$> find_stack_entry (vmas m).

Definition can_grow_stack (m : ProcessMemoryMap) (addr : Z) : bool :=
  if (stack_top m <=? addr) || (addr <? stack_bottom m) then false else
  match find_stack_vma m with
  | Some stack_vma =>
    if (addr <? vstart stack_vma) && (stack_bottom m <=? addr) then
      match last_lt (vmas m) (vstart stack_vma) with
      | Some (_, prev_vma) => negb (addr <? vend prev_vma)
      | None => true
      end
    else false
  | None => false
  end.

Definition page_floor (a : Z) : Z := Z.land a (bnot 64 (PAGE_SIZE - 1)).

Definition grow_stack_to (m : ProcessMemoryMap) (addr : Z) : ProcessMemoryMap * res unit Z :=
  let new_start := page_floor addr in
  if new_start <? stack_bottom m then (m, Err ()) else
  match find_stack_entry (vmas m) with
  | None => (m, Err ())
  | Some (stack_key, _) =>
    match vmas m !! stack_key with
    | None => (m, Err ())
    | Some stack_vma =>
      let t := delete stack_key (vmas m) in
      if vstart stack_vma <=? new_start
      then (set_vmas m (<[stack_key := stack_vma]> t), Ok stack_key) else
      let grown := (set_vmas m (<[new_start := {| vstart := new_start; vend := vend stack_vma;
             vflags := vflags stack_vma; vbacking := vbacking stack_vma |}]> t), Ok new_start) in
      match last_lt t (vstart stack_vma) with
      | Some (_, prev_vma) =>
        if new_start <? vend prev_vma
        then (set_vmas m (<[stack_key := stack_vma]> t), Err ()) else grown
      | None => grown
      end
    end
  end.

(** The first area, in address order, that meets [candidate, end). *)
Definition first_conflict (t : gmap Z Vma) (candidate end_ : Z) : option Vma :=
  snd <$> list_find (λ v, candidate < vend v ∧ vstart v < end_) (values t).

(** One [while] loop of the search.  [None]: out of fuel; [Err]: the checked
    addition overflowed; [Ok None]: the loop condition failed. *)
Fixpoint search (fuel : nat) (t : gmap Z Vma) (bottom aligned_length candidate : Z)
    : option (res unit (option Z)) :=
  match fuel with
  | O => None
  | S fuel =>
    match checked_add 64 candidate aligned_length with
    | None => Some (Err ())
    | Some end_ =>
      if end_ <? bottom then
        match first_conflict t candidate end_ with
        | Some vma =>
          search fuel t bottom aligned_length (page_floor (u64 (vend vma + (PAGE_SIZE - 1))))
        | None => Some (Ok (Some candidate))
        end
      else Some (Ok None)
    end
  end.

(** Every conflict moves the candidate past one more area. *)
Definition search_fuel (t : gmap Z Vma) : nat := S (size t).

Definition find_free_mmap_region (m : ProcessMemoryMap) (length : Z)
    : option (ProcessMemoryMap * res unit Z) :=
  match checked_add 64 length (PAGE_SIZE - 1) with
  | None => Some (m, Err ())
  | Some l =>
    let aligned_length := page_floor l in
    let fuel := search_fuel (vmas m) in
    match search fuel (vmas m) (stack_bottom m) aligned_length (mmap_hint m) with
    | None => None
    | Some (Ok (Some c)) => Some (set_mmap_hint m (u64 (c + aligned_length)), Ok c)
    | Some (Ok None) =>
      match search fuel (vmas m) (stack_bottom m) aligned_length 0x10000000 with
      | None => None
      | Some (Ok (Some c)) => Some (m, Ok c)
      | Some (Ok None) => Some (m, Err ())
      | Some (Err ()) => Some (m, Err ())
      | Some Panic => Some (m, Panic)
      end
    | Some (Err ()) => Some (m, Err ())
    | Some Panic => Some (m, Panic)
    end
  end.

(** ** Invariant *)

Definition aligned (a : Z) : Prop := a mod PAGE_SIZE = 0.

Record vma_ok (k : Z) (v : Vma) : Prop := {
  ok_key : k = vstart v;
  ok_pos : 0 ≤ vstart v;
  ok_lt : vstart v < vend v;
  ok_end : vend v < 2 ^ 64;
  ok_start_al : aligned (vstart v);
  ok_end_al : aligned (vend v) }.

Record tree_ok (t : gmap Z Vma) : Prop := {
  ok_areas : ∀ k v, t !! k = Some v → vma_ok k v;
  ok_disjoint : ∀ k1 v1 k2 v2,
    t !! k1 = Some v1 → t !! k2 = Some v2 → k1 < k2 → vend v1 ≤ k2 }.

(** Where the byte at an address comes from: a zero page, a position in a
    file, or a physical address of a device (positions are 64 bits wide). *)
Inductive source :=
| ZeroFill
| FileByte (mount_id inode position file_size : Z) (shared : bool)
| DeviceByte (phys_addr : Z).

(** The [n]-th byte of an area is the [n]-th byte of its backing. *)
Definition byte_at (v : Vma) (addr : Z) : source :=
  let n := addr - vstart v in
  match vbacking v with
  | Anonymous => ZeroFill
  | FileBacked mount inode offset size sh => FileByte mount inode (u64 (offset + n)) size sh
  | DeviceMmio phys => DeviceByte (u64 (phys + n))
  end.

(** What is mapped at an address: the flags, and the byte of the backing. *)
Definition view (m : ProcessMemoryMap) (addr : Z) : option (Z * source) :=
  (λ v, (vflags v, byte_at v addr)) <$> find_vma m addr.

(** [covers t v a]: the area [v] of [t] contains [a]. *)
Definition covers (t : gmap Z Vma) (v : Vma) (a : Z) : Prop :=
  t !! vstart v = Some v ∧ vstart v ≤ a < vend v.

Lemma contains_spec v a : contains v a = true ↔ vstart v ≤ a < vend v.
Proof. unfold contains. rewrite andb_true_iff, Z.leb_le, Z.ltb_lt. done. Qed.

Lemma covers_unique t v w a : tree_ok t → covers t v a → covers t w a → v = w.
Proof.
  intros Ht [Hv ?] [Hw ?].
  destruct (Z.lt_trichotomy (vstart v) (vstart w)) as [Hlt|[Heq|Hlt]].
  - pose proof (ok_disjoint t Ht _ _ _ _ Hv Hw Hlt). lia.
  - rewrite Heq in Hv. congruence.
  - pose proof (ok_disjoint t Ht _ _ _ _ Hw Hv Hlt). lia.
Qed.

Lemma find_vma_covers m a v : tree_ok (vmas m) → find_vma m a = Some v ↔ covers (vmas m) v a.
Proof.
  intros Ht. unfold find_vma. split.
  - destruct (last_le (vmas m) a) as [[k w]|] eqn:E; [|done].
    apply last_le_Some in E as (Hk & ? & _).
    destruct (contains w a) eqn:Hc; [|done]. intros [= <-].
    apply contains_spec in Hc. pose proof (ok_key _ _ (ok_areas _ Ht _ _ Hk)) as ->. done.
  - intros [Hv Ha]. destruct (last_le (vmas m) a) as [[k w]|] eqn:E.
    + apply last_le_Some in E as (Hk & ? & Hmax). pose proof (ok_areas _ Ht _ _ Hk) as Hw.
      pose proof (Hmax _ _ Hv ltac:(lia)) as Hle.
      assert (vstart v = k) as <-.
      { destruct (decide (vstart v < k)) as [Hlt|]; [|lia].
        pose proof (ok_disjoint _ Ht _ _ _ _ Hv Hk Hlt). lia. }
      assert (w = v) as -> by congruence. by rewrite (proj2 (contains_spec v a) Ha).
    + rewrite last_le_None in E. apply E in Hv. lia.
Qed.

Lemma find_vma_None m a :
  tree_ok (vmas m) → find_vma m a = None ↔ ∀ v, ¬ covers (vmas m) v a.
Proof.
  intros Ht. split.
  - intros H v Hv. apply find_vma_covers in Hv; congruence.
  - intros H. destruct (find_vma m a) as [v|] eqn:E; [|done].
    apply find_vma_covers in E; [|done]. by apply H in E.
Qed.

(** ** Taking areas out and putting pieces back *)

Lemma take_out_spec pieces : ∀ ks t aff re,
  NoDup ks → (∀ k, k ∈ ks → is_Some (t !! k)) →
  take_out pieces ks t aff re =
    (foldl (λ t k, delete k t) t ks,
     aff ++ omap (λ k, t !! k) ks,
     re ++ mjoin (pieces <$> omap (λ k, t !! k) ks)).
Proof.
  induction ks as [|k ks IH]; intros t aff re Hnd Hin; cbn.
  { by rewrite !app_nil_r. }
  apply NoDup_cons in Hnd as [Hk Hnd].
  destruct (Hin k) as [v Hv]; [set_solver|]. rewrite Hv.
  rewrite IH; [|done|].
  - assert (omap (λ j, delete k t !! j) ks = omap (λ j, t !! j) ks) as ->.
    { clear -Hk. induction ks as [|j ks IH]; cbn; [done|].
      rewrite lookup_delete_ne by set_solver. rewrite IH by set_solver. done. }
    cbn. by rewrite <- !app_assoc.
  - intros j Hj. rewrite lookup_delete_ne by set_solver. apply Hin. set_solver.
Qed.

Lemma foldl_delete_lookup (t : gmap Z Vma) ks k :
  foldl (λ t k, delete k t) t ks !! k = if decide (k ∈ ks) then None else t !! k.
Proof.
  revert t. induction ks as [|j ks IH]; intros t; cbn; [done|].
  rewrite IH, lookup_delete. repeat case_decide; set_solver.
Qed.

Lemma reinsert_lookup l : ∀ t k p,
  (∀ p q, p ∈ l → q ∈ l → vstart p = vstart q → p = q) →
  reinsert t l !! k = Some p ↔
  (p ∈ l ∧ vstart p = k) ∨ (t !! k = Some p ∧ ∀ q, q ∈ l → vstart q ≠ k).
Proof.
  unfold reinsert. induction l as [|v l IH]; intros t k p Hu; cbn; [set_solver|].
  rewrite IH by (intros; apply Hu; set_solver). clear IH.
  rewrite lookup_insert. case_decide as Hk.
  - split.
    + intros [[Hp Hs]|[[= <-] Hne]]; [left; set_solver|left; set_solver].
    + intros [[[->|Hp]%elem_of_cons Hs]|[_ Hne]].
      * destruct (decide (Exists (λ q, vstart q = k) l)) as [He|Hn].
        { apply Exists_exists in He as (q & Hq & Hqk).
          assert (v = q) as -> by (apply Hu; [set_solver..|congruence]). left. done. }
        right. split; [done|]. intros q Hq Hqk. apply Hn. apply Exists_exists. eauto.
      * left. done.
      * exfalso. apply (Hne v); set_solver.
  - split.
    + intros [[Hp Hs]|[Hp Hne]]; [left; set_solver|right]. split; [done|].
      intros q [->|Hq]%elem_of_cons; auto.
    + intros [[[->|Hp]%elem_of_cons Hs]|[Hp Hne]]; [done|left; done|right].
      split; [done|]. intros q Hq. apply Hne. set_solver.
Qed.

Section rebuild.
Context (t : gmap Z Vma) (Ht : tree_ok t) (start end_ : Z) (pieces : Vma → list Vma).

(** [v] is an area of [t] that overlaps [start, end). *)
Definition over (v : Vma) : Prop :=
  t !! vstart v = Some v ∧ vstart v < end_ ∧ start < vend v.

Hypothesis pieces_inside : ∀ v p, over v → p ∈ pieces v →
  vstart v ≤ vstart p ∧ vstart p < vend p ∧ vend p ≤ vend v ∧
  aligned (vstart p) ∧ aligned (vend p).
Hypothesis pieces_apart : ∀ v p q, over v → p ∈ pieces v → q ∈ pieces v →
  p = q ∨ vend p ≤ vstart q ∨ vend q ≤ vstart p.

Definition survivors : list Vma :=
  mjoin (pieces <$> omap (λ k, t !! k) (overlap_keys t start end_)).
Definition rebuilt : gmap Z Vma :=
  reinsert (foldl (λ t k, delete k t) t (overlap_keys t start end_)) survivors.

Lemma elem_of_overlap_keys k :
  k ∈ overlap_keys t start end_ ↔ ∃ v, t !! k = Some v ∧ over v.
Proof.
  unfold overlap_keys, over. rewrite list_elem_of_fmap. split.
  - intros ([j v] & -> & Hin). apply list_elem_of_filter in Hin as [? Hin].
    apply list_elem_of_filter in Hin as [? Hin%elem_of_entries]. cbn in *.
    pose proof (ok_key _ _ (ok_areas _ Ht _ _ Hin)). subst j. eauto.
  - intros (v & Hk & _ & ? & ?). pose proof (ok_key _ _ (ok_areas _ Ht _ _ Hk)). subst k.
    exists (vstart v, v). split; [done|]. rewrite !list_elem_of_filter, elem_of_entries. done.
Qed.

Lemma overlap_keys_NoDup : NoDup (overlap_keys t start end_).
Proof.
  unfold overlap_keys. eapply sublist_NoDup; [apply (NoDup_keys t)|].
  apply fmap_sublist. etransitivity; apply sublist_filter.
Qed.

Lemma take_out_rebuilt :
  (let '(t', affected, to_reinsert) := take_out pieces (overlap_keys t start end_) t [] [] in
   (reinsert t' to_reinsert, affected))
  = (rebuilt, omap (λ k, t !! k) (overlap_keys t start end_)).
Proof.
  rewrite take_out_spec; [done|apply overlap_keys_NoDup|].
  intros k (v & Hv & _)%elem_of_overlap_keys. eauto.
Qed.

Lemma elem_of_survivors p : p ∈ survivors ↔ ∃ v, over v ∧ p ∈ pieces v.
Proof.
  unfold survivors. rewrite list_elem_of_join. split.
  - intros (l & Hp & Hl). apply list_elem_of_fmap in Hl as (v & -> & Hv).
    apply list_elem_of_omap in Hv as (k & Hk & Hv). exists v. split; [|done].
    apply elem_of_overlap_keys in Hk as (w & Hw & ?). congruence.
  - intros (v & Hv & Hp). exists (pieces v). split; [done|].
    apply list_elem_of_fmap. exists v. split; [done|]. apply list_elem_of_omap.
    exists (vstart v). split; [|apply Hv]. apply elem_of_overlap_keys. exists v. split; [apply Hv|done].
Qed.

(** Two areas that share an address are the same. *)
Lemma areas_meet v w a :
  t !! vstart v = Some v → t !! vstart w = Some w →
  vstart v ≤ a < vend v → vstart w ≤ a < vend w → v = w.
Proof. intros. by apply (covers_unique t v w a). Qed.

Lemma survivors_unique p q : p ∈ survivors → q ∈ survivors → vstart p = vstart q → p = q.
Proof.
  intros (v & Hv & Hp)%elem_of_survivors (w & Hw & Hq)%elem_of_survivors Heq.
  pose proof (pieces_inside v p Hv Hp). pose proof (pieces_inside w q Hw Hq).
  assert (v = w) as <- by (apply (areas_meet v w (vstart p)); [apply Hv|apply Hw|lia..]).
  destruct (pieces_apart v p q Hv Hp Hq) as [|[|]]; [done|lia..].
Qed.

Lemma rebuilt_lookup k p :
  rebuilt !! k = Some p ↔
  (∃ v, over v ∧ p ∈ pieces v ∧ vstart p = k) ∨ (t !! k = Some p ∧ ¬ over p).
Proof.
  unfold rebuilt. rewrite reinsert_lookup by apply survivors_unique.
  rewrite elem_of_survivors, foldl_delete_lookup. split.
  - intros [[(v & ? & ?) ?]|[Hk Hq]]; [left; eauto|right].
    case_decide as Hin; [done|]. split; [done|]. intros Hov. apply Hin.
    apply elem_of_overlap_keys. eauto.
  - intros [(v & ? & ? & ?)|[Hk Hov]]; [left; eauto|right]. rewrite decide_False.
    2:{ intros (v & Hv & ?)%elem_of_overlap_keys. congruence. }
    split; [done|]. intros q (v & Hv & Hq)%elem_of_survivors Heq.
    pose proof (pieces_inside v q Hv Hq). pose proof (ok_areas _ Ht _ _ Hk) as [? ? ? _ _ _].
    assert (v = p); [|congruence]. apply (areas_meet v p (vstart q)); [apply Hv| |lia..].
    congruence.
Qed.

Lemma rebuilt_inside k p :
  rebuilt !! k = Some p → ∃ v, t !! vstart v = Some v ∧ k = vstart p ∧
    vstart v ≤ vstart p ∧ vstart p < vend p ∧ vend p ≤ vend v ∧
    aligned (vstart p) ∧ aligned (vend p).
Proof.
  intros [(v & Hv & Hp & <-)|[Hk Hov]]%rebuilt_lookup.
  - exists v. pose proof (pieces_inside v p Hv Hp). split; [apply Hv|naive_solver].
  - destruct (ok_areas _ Ht _ _ Hk) as [-> ? ? ? ? ?]. exists p. naive_solver lia.
Qed.

Lemma rebuilt_ok : tree_ok rebuilt.
Proof.
  split.
  - intros k p Hp. destruct (rebuilt_inside k p Hp) as (v & Hv & -> & ?).
    destruct (ok_areas _ Ht _ _ Hv). split; (done || lia || naive_solver).
  - intros k1 p1 k2 p2 H1 H2 Hlt.
    destruct (rebuilt_inside _ _ H1) as (v1 & Hv1 & -> & ?).
    destruct (rebuilt_inside _ _ H2) as (v2 & Hv2 & -> & ?).
    destruct (decide (v1 = v2)) as [<-|Hne].
    + apply rebuilt_lookup in H1 as [(w1 & Hw1 & Hp1 & _)|[H1 Ho1]];
      apply rebuilt_lookup in H2 as [(w2 & Hw2 & Hp2 & _)|[H2 Ho2]].
      * pose proof (pieces_inside _ _ Hw1 Hp1). pose proof (pieces_inside _ _ Hw2 Hp2).
        assert (w1 = v1) as -> by (apply (areas_meet _ _ (vstart p1)); [apply Hw1|done|lia..]).
        assert (w2 = v1) as -> by (apply (areas_meet _ _ (vstart p2)); [apply Hw2|done|lia..]).
        destruct (pieces_apart v1 p1 p2 Hw1 Hp1 Hp2) as [->|[|]]; lia.
      * pose proof (pieces_inside _ _ Hw1 Hp1).
        assert (w1 = v1) as -> by (apply (areas_meet _ _ (vstart p1)); [apply Hw1|done|lia..]).
        assert (p2 = v1) as -> by (apply (areas_meet _ _ (vstart p2)); [done..|lia|lia]). done.
      * pose proof (pieces_inside _ _ Hw2 Hp2).
        assert (w2 = v1) as -> by (apply (areas_meet _ _ (vstart p2)); [apply Hw2|done|lia..]).
        assert (p1 = v1) as -> by (apply (areas_meet _ _ (vstart p1)); [done..|lia|lia]). done.
      * by apply (ok_disjoint _ Ht _ _ _ _ H1 H2).
    + destruct (Z.lt_trichotomy (vstart v1) (vstart v2)) as [Hc|[Hc|Hc]].
      * pose proof (ok_disjoint _ Ht _ _ _ _ Hv1 Hv2 Hc). lia.
      * rewrite Hc in Hv1. congruence.
      * pose proof (ok_disjoint _ Ht _ _ _ _ Hv2 Hv1 Hc). lia.
Qed.

Lemma rebuilt_covers p a :
  covers rebuilt p a ↔
  (∃ v, over v ∧ p ∈ pieces v ∧ vstart p ≤ a < vend p) ∨ (covers t p a ∧ ¬ over p).
Proof.
  unfold covers. rewrite rebuilt_lookup. naive_solver.
Qed.

(** An address of an overlapping area is now covered by one of its pieces or
    by nothing; every other address is covered as before. *)
Lemma rebuilt_covers_over v a p :
  covers t v a → over v → covers rebuilt p a ↔ p ∈ pieces v ∧ vstart p ≤ a < vend p.
Proof.
  intros Hv Hov. rewrite rebuilt_covers. split; [|naive_solver].
  intros [(w & Hw & Hp & ?)|[Hp Hno]].
  - pose proof (pieces_inside w p Hw Hp).
    assert (w = v) as -> by (apply (areas_meet w v a); [apply Hw|apply Hov|lia|apply Hv]). done.
  - by rewrite (covers_unique t p v a Ht Hp Hv) in Hno.
Qed.

Lemma rebuilt_covers_same v a : covers t v a → ¬ over v → covers rebuilt v a.
Proof. intros. apply rebuilt_covers. auto. Qed.

Lemma rebuilt_covers_none a : (∀ v, ¬ covers t v a) → ∀ p, ¬ covers rebuilt p a.
Proof.
  intros Hn p [(v & Hov & Hp & ?)|[? _]]%rebuilt_covers; [|by apply (Hn p)].
  apply (Hn v). split; [apply Hov|]. pose proof (pieces_inside v p Hov Hp). lia.
Qed.
End rebuild.

Lemma view_Some m a v :
  tree_ok (vmas m) → covers (vmas m) v a → view m a = Some (vflags v, byte_at v a).
Proof. intros Ht Hv. unfold view. apply find_vma_covers in Hv as ->; done. Qed.

Lemma view_None m a :
  tree_ok (vmas m) → (∀ v, ¬ covers (vmas m) v a) → view m a = None.
Proof. intros Ht Hv. unfold view. by apply find_vma_None in Hv as ->. Qed.

(** An address is covered by one area or by none. *)
Lemma covers_dec t a : tree_ok t → (∃ v, covers t v a) ∨ (∀ v, ¬ covers t v a).
Proof.
  intros Ht. pose proof (find_vma_covers (set_vmas (pmm_new 0 0) t) a) as Hc.
  pose proof (find_vma_None (set_vmas (pmm_new 0 0) t) a Ht) as Hn. cbn in *.
  destruct (find_vma _ a) as [v|] eqn:E; [left; exists v; by apply Hc|right; by apply Hn].
Qed.

(** A piece with the backing advanced to its start maps the same bytes. *)
Lemma byte_at_advance v s e f a :
  vstart v ≤ s ≤ a →
  byte_at {| vstart := s; vend := e; vflags := f; vbacking := advance_backing v s |} a
  = byte_at v a.
Proof.
  intros. unfold byte_at, advance_backing. cbn.
  destruct (vbacking v) as [|mt ino off sz sh|ph]; [done|..]; cbn; f_equal.
  - rewrite wrap_add_l. rewrite (Z.add_comm off), <- Z.add_assoc, wrap_add_l. f_equal. lia.
  - rewrite wrap_add_l. rewrite (Z.add_comm ph), <- Z.add_assoc, wrap_add_l. f_equal. lia.
Qed.

Ltac piece_cases H :=
  repeat match type of H with
  | _ ∈ _ ++ _ => apply elem_of_app in H as [H|H]
  | _ ∈ left_piece _ _ => unfold left_piece in H
  | _ ∈ (if ?b then _ else _) => destruct b eqn:?
  | _ ∈ [_] => apply list_elem_of_singleton in H; subst
  | _ ∈ [] => by apply elem_of_nil in H
  end.

Ltac bools :=
  repeat match goal with
  | H : (_ <? _) = true |- _ => apply Z.ltb_lt in H
  | H : (_ <? _) = false |- _ => apply Z.ltb_ge in H
  | H : (_ <=? _) = true |- _ => apply Z.leb_le in H
  | H : (_ <=? _) = false |- _ => apply Z.leb_gt in H
  | H : (_ =? _) = true |- _ => apply Z.eqb_eq in H
  | H : (_ =? _) = false |- _ => apply Z.eqb_neq in H
  | H : _ || _ = false |- _ => apply orb_false_iff in H as [? ?]
  | H : _ && _ = true |- _ => apply andb_true_iff in H as [? ?]
  | H : negb _ = true |- _ => apply negb_true_iff in H
  | H : negb _ = false |- _ => apply negb_false_iff in H
  end.

Section remove.
Context (t : gmap Z Vma) (Ht : tree_ok t) (start end_ : Z).
Context (Hse : start ≤ end_) (Hs : aligned start) (He : aligned end_).

Lemma remove_pieces_inside v p :
  over t start end_ v → p ∈ remove_pieces start end_ v →
  vstart v ≤ vstart p ∧ vstart p < vend p ∧ vend p ≤ vend v ∧
  aligned (vstart p) ∧ aligned (vend p).
Proof.
  intros (Hv & ? & ?) Hp. pose proof (ok_areas _ Ht _ _ Hv) as [].
  unfold remove_pieces in Hp. piece_cases Hp; bools; cbn; split_and!; (done || lia).
Qed.

Lemma remove_pieces_apart v p q :
  over t start end_ v → p ∈ remove_pieces start end_ v → q ∈ remove_pieces start end_ v →
  p = q ∨ vend p ≤ vstart q ∨ vend q ≤ vstart p.
Proof.
  intros (Hv & ? & ?) Hp Hq. unfold remove_pieces in *.
  piece_cases Hp; piece_cases Hq; bools; cbn; (by left) || (right; lia).
Qed.
End remove.

Section protect.
Context (t : gmap Z Vma) (Ht : tree_ok t) (start end_ new_flags : Z).
Context (Hse : start ≤ end_) (Hs : aligned start) (He : aligned end_).

Lemma protect_pieces_inside v p :
  over t start end_ v → p ∈ protect_pieces start end_ new_flags v →
  vstart v ≤ vstart p ∧ vstart p < vend p ∧ vend p ≤ vend v ∧
  aligned (vstart p) ∧ aligned (vend p).
Proof.
  intros (Hv & ? & ?) Hp. pose proof (ok_areas _ Ht _ _ Hv) as [].
  unfold protect_pieces in Hp. piece_cases Hp; bools; cbn; split_and!; try (done || lia).
  - by destruct (Z.max_spec (vstart v) start) as [[_ ->]|[_ ->]].
  - by destruct (Z.min_spec (vend v) end_) as [[_ ->]|[_ ->]].
Qed.

Lemma protect_pieces_apart v p q :
  over t start end_ v → p ∈ protect_pieces start end_ new_flags v →
  q ∈ protect_pieces start end_ new_flags v →
  p = q ∨ vend p ≤ vstart q ∨ vend q ≤ vstart p.
Proof.
  intros (Hv & ? & ?) Hp Hq. unfold protect_pieces in *.
  piece_cases Hp; piece_cases Hq; bools; cbn; (by left) || (right; lia).
Qed.
End protect.

Lemma remove_eq m start end_ :
  tree_ok (vmas m) →
  remove_vma_range m start end_ =
    (set_vmas m (rebuilt (vmas m) start end_ (remove_pieces start end_)),
     omap (λ k, vmas m !! k) (overlap_keys (vmas m) start end_)).
Proof.
  intros Ht. unfold remove_vma_range.
  pose proof (take_out_rebuilt (vmas m) Ht start end_ (remove_pieces start end_)) as H.
  destruct (take_out _ _ _ _ _) as [[t' aff] re]. by injection H as -> ->.
Qed.

Lemma protect_eq m start end_ nf :
  tree_ok (vmas m) →
  protect_vma_range m start end_ nf =
    set_vmas m (rebuilt (vmas m) start end_ (protect_pieces start end_ nf)).
Proof.
  intros Ht. unfold protect_vma_range.
  pose proof (take_out_rebuilt (vmas m) Ht start end_ (protect_pieces start end_ nf)) as H.
  destruct (take_out _ _ _ _ _) as [[t' aff] re]. by injection H as -> ->.
Qed.

Lemma aligned_test a : (Z.land a (PAGE_SIZE - 1) =? 0) = true ↔ aligned a.
Proof.
  rewrite Z.eqb_eq. change (PAGE_SIZE - 1) with (2 ^ 12 - 1). by rewrite land_mask.
Qed.

(** ** Properties *)

(** under the invariant, [find_vma] returns the one area that contains the
    address, and nothing exactly when no area does; [find_vma_mut] hands out
    the same area. *)
Theorem find_vma_correct m a v :
  tree_ok (vmas m) →
  (find_vma m a = Some v ↔ ∃ k, vmas m !! k = Some v ∧ vstart v ≤ a < vend v) ∧
  (find_vma m a = None ↔ ∀ k w, vmas m !! k = Some w → ¬ vstart w ≤ a < vend w) ∧
  find_vma_mut m a = (λ v, (vstart v, v)) <$> find_vma m a.
Proof.
  intros Ht. split_and!.
  - rewrite find_vma_covers by done. unfold covers. split; [naive_solver|].
    intros (k & Hk & ?). by pose proof (ok_key _ _ (ok_areas _ Ht _ _ Hk)) as ->.
  - rewrite find_vma_None by done. unfold covers. split.
    + intros H k w Hk Ha. apply (H w).
      by pose proof (ok_key _ _ (ok_areas _ Ht _ _ Hk)) as ->.
    + intros H w [Hw Ha]. by eapply H.
  - unfold find_vma_mut, find_vma. destruct (last_le (vmas m) a) as [[k w]|] eqn:E; [|done].
    apply last_le_Some in E as (Hk & _). pose proof (ok_key _ _ (ok_areas _ Ht _ _ Hk)) as ->.
    rewrite Hk. by destruct (contains w a).
Qed.

(** The guards of [insert_vma]: it succeeds exactly on a non-empty,
    page-aligned range in which nothing is mapped. *)
Lemma insert_vma_cases m s e f b :
  tree_ok (vmas m) →
  let v := {| vstart := s; vend := e; vflags := f; vbacking := b |} in
  (s < e ∧ aligned s ∧ aligned e ∧ (∀ w a, covers (vmas m) w a → ¬ s ≤ a < e) ∧
     insert_vma m s e f b = (set_vmas m (<[s := v]> (vmas m)), Ok ())) ∨
  (¬ (s < e ∧ aligned s ∧ aligned e ∧ ∀ w a, covers (vmas m) w a → ¬ s ≤ a < e) ∧
     insert_vma m s e f b = (m, Err ())).
Proof.
  intros Ht v. unfold insert_vma.
  destruct (_ || _ || _) eqn:Hg.
  { right. split; [|done]. intros (? & Hs & He & _).
    rewrite (proj2 (aligned_test s) Hs), (proj2 (aligned_test e) He) in Hg. cbn in Hg.
    rewrite !orb_false_r in Hg. bools. lia. }
  bools. assert (aligned s) by (apply aligned_test; lia).
  assert (aligned e) by (apply aligned_test; lia).
  assert (Hdisj : (∀ w a, covers (vmas m) w a → ¬ s ≤ a < e) ↔
            match last_lt (vmas m) e with
            | Some (_, p) => vend p ≤ s | None => True end).
  { destruct (last_lt (vmas m) e) as [[k p]|] eqn:E.
    - apply last_lt_Some in E as (Hk & ? & Hmax).
      destruct (ok_areas _ Ht _ _ Hk) as [-> ? ? ? _ _]. split.
      + intros Hn. destruct (decide (vend p ≤ s)); [done|]. exfalso.
        apply (Hn p (Z.max s (vstart p))); [split; [done|lia]|lia].
      + intros Hp w a [Hw ?] ?. pose proof (Hmax _ _ Hw ltac:(lia)).
        destruct (decide (vstart w < vstart p)) as [Hlt|].
        * pose proof (ok_disjoint _ Ht _ _ _ _ Hw Hk Hlt). lia.
        * assert (vstart w = vstart p) as Heq by lia. rewrite Heq in Hw.
          assert (w = p) as -> by congruence. lia.
    - split; [done|]. intros _ w a [Hw ?] ?. rewrite last_lt_None in E.
      apply E in Hw. lia. }
  destruct (last_lt (vmas m) e) as [[k p]|]; [destruct (Z.ltb_spec s (vend p))|].
  - right. split; [|done]. intros (_ & _ & _ & Hn). apply Hdisj in Hn. lia.
  - left. rewrite Hdisj. auto.
  - left. rewrite Hdisj. auto.
Qed.

Lemma insert_tree_ok t v :
  tree_ok t → 0 ≤ vstart v → vstart v < vend v → vend v < 2 ^ 64 →
  aligned (vstart v) → aligned (vend v) →
  (∀ w a, covers t w a → ¬ vstart v ≤ a < vend v) →
  tree_ok (<[vstart v := v]> t) ∧
  ∀ w a, covers (<[vstart v := v]> t) w a ↔
         (w = v ∧ vstart v ≤ a < vend v) ∨ covers t w a.
Proof.
  intros Ht ? ? ? ? ? Hn.
  assert (Hfar : ∀ k w, t !! k = Some w → vend w ≤ vstart v ∨ vend v ≤ vstart w).
  { intros k w Hk. destruct (ok_areas _ Ht _ _ Hk) as [-> ? ? _ _ _].
    destruct (decide (vend w ≤ vstart v ∨ vend v ≤ vstart w)); [done|]. exfalso.
    apply (Hn w (Z.max (vstart v) (vstart w))); [split; [done|lia]|lia]. }
  split; [split|].
  - intros k w. rewrite lookup_insert. case_decide; [|by apply ok_areas].
    intros [= <-]. by split.
  - intros k1 v1 k2 v2 Hl1 Hl2 Hlt. rewrite lookup_insert in Hl1, Hl2.
    case_decide; case_decide; simplify_eq.
    + lia.
    + pose proof (ok_areas _ Ht _ _ Hl1) as [-> ? ? _ _ _]. destruct (Hfar _ _ Hl1); lia.
    + pose proof (ok_areas _ Ht _ _ Hl2) as [-> ? ? _ _ _]. destruct (Hfar _ _ Hl2); lia.
    + by eapply ok_disjoint.
  - intros w a. unfold covers. rewrite lookup_insert. case_decide as Hk.
    + split; [naive_solver|]. intros [[-> ?]|[Hw ?]]; [done|].
      destruct (Hfar _ _ Hw); lia.
    + naive_solver.
Qed.

(** C30: [insert_vma] maps a range exactly when it is non-empty, page-aligned
    and free, keeps the invariant, and changes the view of that range only;
    otherwise it fails and changes nothing. *)
Theorem insert_vma_correct m s e f b m' r :
  tree_ok (vmas m) → is_u 64 s → is_u 64 e →
  insert_vma m s e f b = (m', r) →
  tree_ok (vmas m') ∧
  (r = Ok () ↔ s < e ∧ aligned s ∧ aligned e ∧ ∀ a, s ≤ a < e → view m a = None) ∧
  (∀ a, view m' a =
     if decide (r = Ok () ∧ s ≤ a < e)
     then Some (f, byte_at {| vstart := s; vend := e; vflags := f; vbacking := b |} a)
     else view m a).
Proof.
  intros Ht [? ?] [? ?] Hi.
  assert (Hfree : (∀ w a, covers (vmas m) w a → ¬ s ≤ a < e) ↔ ∀ a, s ≤ a < e → view m a = None).
  { split.
    - intros Hn a Ha. apply view_None; [done|]. intros w Hw. by apply (Hn w a).
    - intros Hn w a Hw Ha. apply Hn in Ha. by rewrite (view_Some m a w) in Ha. }
  destruct (insert_vma_cases m s e f b Ht) as [(? & ? & ? & Hn & Hok)|[Hn Hko]].
  - rewrite Hok in Hi. simplify_eq. clear Hok.
    set (v := {| vstart := s; vend := e; vflags := f; vbacking := b |}).
    set (m1 := set_vmas m (<[s := v]> (vmas m))).
    assert (tree_ok (vmas m1) ∧ ∀ w a, covers (vmas m1) w a ↔
      (w = v ∧ vstart v ≤ a < vend v) ∨ covers (vmas m) w a) as [Ht' Hc]
      by by apply (insert_tree_ok (vmas m) v).
    split_and!; [done|split; [|done]|].
    + intros _. by rewrite <- Hfree.
    + intros a. case_decide as Ha.
      * apply (view_Some m1 a v Ht'). apply Hc. left. naive_solver.
      * destruct (covers_dec (vmas m) a Ht) as [[w Hw]|Hw].
        { rewrite (view_Some m a w) by done. apply view_Some; [done|]. apply Hc. by right. }
        rewrite (view_None m a) by done. apply view_None; [done|].
        intros w [[_ ?]|Hc']%Hc; [naive_solver|by apply (Hw w)].
  - rewrite Hko in Hi. simplify_eq. rewrite <- Hfree. split_and!; [done|naive_solver|].
    intros a. rewrite decide_False by naive_solver. done.
Qed.

(** C29: unmapping a page-aligned range keeps the invariant, returns the areas
    that overlapped it, and leaves the view of every other address as it was:
    flags unchanged and, for file and device areas, still the same position of
    the file and the same address of the device, so the offset of a piece right
    of the hole is advanced by exactly what was cut off before it. *)
Theorem remove_vma_range_correct m start end_ m' affected :
  tree_ok (vmas m) → start ≤ end_ → aligned start → aligned end_ →
  remove_vma_range m start end_ = (m', affected) →
  tree_ok (vmas m') ∧
  (∀ v, v ∈ affected ↔ vmas m !! vstart v = Some v ∧ vstart v < end_ ∧ start < vend v) ∧
  (∀ a, view m' a = if decide (start ≤ a < end_) then None else view m a).
Proof.
  intros Ht Hse Hs He Hr. rewrite remove_eq in Hr by done. simplify_eq.
  set (m' := set_vmas m _).
  pose proof (remove_pieces_inside (vmas m) Ht start end_ Hs He) as Hin.
  pose proof (remove_pieces_apart (vmas m) start end_ Hse) as Hap.
  assert (Ht' : tree_ok (vmas m')) by by apply rebuilt_ok.
  split_and!; [done| |].
  - intros v. rewrite list_elem_of_omap. split.
    + intros (k & Hk & Hv). apply elem_of_overlap_keys in Hk as (w & Hw & Hov); [|done].
      simplify_eq. done.
    + intros Hov. exists (vstart v). split; [|apply Hov]. apply elem_of_overlap_keys; [done|].
      exists v. split; [apply Hov|done].
  - intros a. destruct (covers_dec (vmas m) a Ht) as [[v Hv]|Hn].
    2:{ rewrite (view_None m a), (view_None m' a) by (done || by apply rebuilt_covers_none).
        by case_decide. }
    rewrite (view_Some m a v) by done. pose proof Hv as [Hk Ha].
    destruct (decide (vstart v < end_ ∧ start < vend v)) as [[? ?]|Hno].
    2:{ rewrite decide_False by lia. apply view_Some; [done|].
        apply rebuilt_covers_same; [done..|]. intros (_ & ? & ?). auto. }
    assert (Hov : over (vmas m) start end_ v) by done.
    pose proof (λ p, rebuilt_covers_over (vmas m) Ht start end_ _ Hin Hap v a p Hv Hov) as Hc.
    case_decide as Hr.
    + apply view_None; [done|]. intros p [Hp ?]%Hc.
      unfold remove_pieces in Hp. piece_cases Hp; bools; cbn in *; lia.
    + destruct (decide (a < start)).
      * rewrite (view_Some m' a {| vstart := vstart v; vend := start; vflags := vflags v;
          vbacking := vbacking v |}); [done|done|]. apply Hc. cbn. split; [|lia].
        unfold remove_pieces, left_piece. rewrite (proj2 (Z.ltb_lt _ _)) by lia. set_solver.
      * rewrite (view_Some m' a {| vstart := end_; vend := vend v; vflags := vflags v;
          vbacking := advance_backing v end_ |}); [|done|].
        { cbn. rewrite byte_at_advance by lia. done. }
        apply Hc. cbn. split; [|lia]. unfold remove_pieces.
        rewrite (proj2 (Z.ltb_lt end_ _)) by lia. set_solver.
Qed.

(** The flags an address has after [protect]: the access bits replaced. *)
Definition protect_flags (old new_flags : Z) : Z :=
  Z.lor (Z.land old (bnot 32 (Z.lor (Z.lor READ WRITE) EXEC))) new_flags.

(** changing the protection of a page-aligned range keeps the invariant
    and the set of mapped addresses, replaces the access bits inside the
    range and keeps the flags outside it; anonymous areas stay anonymous. *)
Theorem protect_vma_range_correct m start end_ nf :
  tree_ok (vmas m) → start ≤ end_ → aligned start → aligned end_ →
  let m' := protect_vma_range m start end_ nf in
  tree_ok (vmas m') ∧
  ∀ a,
    (fst <$> view m' a) =
      (λ f, if decide (start ≤ a < end_) then protect_flags f nf else f) <$> (fst <$> view m a) ∧
    ((snd <$> view m a) = Some ZeroFill → (snd <$> view m' a) = Some ZeroFill).
Proof.
  intros Ht Hse Hs He m'. unfold m'. clear m'. rewrite protect_eq by done.
  set (m' := set_vmas m _).
  pose proof (protect_pieces_inside (vmas m) Ht start end_ nf Hs He) as Hin.
  pose proof (protect_pieces_apart (vmas m) start end_ nf Hse) as Hap.
  assert (Ht' : tree_ok (vmas m')) by by apply rebuilt_ok.
  split; [done|]. intros a. destruct (covers_dec (vmas m) a Ht) as [[v Hv]|Hn].
  2:{ by rewrite (view_None m a), (view_None m' a) by (done || by apply rebuilt_covers_none). }
  rewrite (view_Some m a v) by done. pose proof Hv as [Hk Ha].
  destruct (decide (vstart v < end_ ∧ start < vend v)) as [[? ?]|Hno].
  2:{ rewrite (view_Some m' a v); [cbn; by rewrite decide_False by lia|done|].
      apply rebuilt_covers_same; [done..|]. intros (_ & ? & ?). auto. }
  assert (Hov : over (vmas m) start end_ v) by done.
  pose proof (λ p, rebuilt_covers_over (vmas m) Ht start end_ _ Hin Hap v a p Hv Hov) as Hc.
  assert (∃ p, p ∈ protect_pieces start end_ nf v ∧ vstart p ≤ a < vend p ∧
    vbacking p = vbacking v ∧
    vflags p = if decide (start ≤ a < end_) then protect_flags (vflags v) nf else vflags v)
    as (p & Hp & Hpa & Hb & Hf).
  { unfold protect_pieces, left_piece. case_decide; [|destruct (decide (a < start))].
    - eexists. split; [apply elem_of_app; right; apply elem_of_app; left;
        rewrite (proj2 (Z.ltb_lt _ _)) by lia; by apply list_elem_of_singleton|].
      cbn. split; [lia|done].
    - eexists. split; [apply elem_of_app; left;
        rewrite (proj2 (Z.ltb_lt _ _)) by lia; by apply list_elem_of_singleton|].
      cbn. split; [lia|done].
    - eexists. split; [apply elem_of_app; right; apply elem_of_app; right;
        rewrite (proj2 (Z.ltb_lt end_ _)) by lia; by apply list_elem_of_singleton|].
      cbn. split; [lia|done]. }
  rewrite (view_Some m' a p); [|done|by apply Hc]. cbn. rewrite Hf. split; [done|].
  unfold byte_at. rewrite Hb. by destruct (vbacking v).
Qed.

Lemma insert_vma_tree_ok m s e f b :
  tree_ok (vmas m) → is_u 64 s → is_u 64 e → tree_ok (vmas (insert_vma m s e f b).1).
Proof.
  intros Ht [? _] [_ ?].
  destruct (insert_vma_cases m s e f b Ht) as [(? & ? & ? & Hn & ->)|[_ ->]]; [|done].
  by apply (insert_tree_ok (vmas m) {| vstart := s; vend := e; vflags := f; vbacking := b |}).
Qed.

Lemma empty_tree_ok top bottom : tree_ok (vmas (pmm_new top bottom)).
Proof. split; intros; by simplify_map_eq. Qed.

(** A file area of three pages: after the protection of its first page is
    changed, its second page is backed by the first page of the file. *)
Definition file_map : ProcessMemoryMap :=
  (insert_vma (pmm_new 0x7fff0000 0x7ff00000) 0x10000 0x13000 (Z.lor READ WRITE)
     (FileBacked 1 2 0 0x3000 false)).1.

(** [protect_vma_range] does not advance the file offset of the pieces it
    splits off: after an [mprotect] of the first page of a file mapping, the
    second page no longer maps the second page of the file. *)
Theorem protect_loses_file_offset :
  tree_ok (vmas file_map) ∧
  view file_map 0x11000 = Some (Z.lor READ WRITE, FileByte 1 2 0x1000 0x3000 false) ∧
  view (protect_vma_range file_map 0x10000 0x11000 READ) 0x11000
    = Some (Z.lor READ WRITE, FileByte 1 2 0 0x3000 false).
Proof.
  split; [|vm_compute; done].
  apply insert_vma_tree_ok; [apply empty_tree_ok|by vm_compute..].
Qed.

Lemma page_floor_spec a : is_u 64 a → page_floor a = a - a mod PAGE_SIZE.
Proof. intros. unfold page_floor. by apply (align_down 64 12). Qed.

Lemma page_floor_aligned a : is_u 64 a → aligned (page_floor a).
Proof.
  intros. rewrite page_floor_spec by done. unfold aligned.
  rewrite Zminus_mod_idemp_r. by rewrite Z.sub_diag.
Qed.

Lemma page_floor_bounds a :
  is_u 64 a → page_floor a ≤ a ∧ a < page_floor a + PAGE_SIZE ∧ 0 ≤ page_floor a.
Proof.
  intros [? ?]. rewrite page_floor_spec by done. unfold PAGE_SIZE.
  pose proof (Z.mod_pos_bound a 4096). pose proof (Z.mod_le a 4096). lia.
Qed.

Lemma aligned_floor a b : is_u 64 a → aligned b → b ≤ a → b ≤ page_floor a.
Proof.
  intros Ha Hb ?. pose proof (page_floor_bounds a Ha). pose proof (page_floor_aligned a Ha) as Hf.
  unfold aligned, PAGE_SIZE in *. apply Z.div_exact in Hb, Hf; lia.
Qed.

Lemma find_stack_entry_Some t k v :
  find_stack_entry t = Some (k, v) → t !! k = Some v ∧ is_stack v = true.
Proof.
  unfold find_stack_entry. destruct (list_find _ _) as [[n e]|] eqn:E; [|done].
  cbn. intros [= ->]. apply list_find_Some in E as (Hn & ? & _). split; [|done].
  apply elem_of_entries. by eapply list_elem_of_lookup_2.
Qed.

Lemma delete_tree_ok t k : tree_ok t → tree_ok (delete k t).
Proof.
  intros Ht. split.
  - intros j v [? ?]%lookup_delete_Some. by apply (ok_areas t).
  - intros k1 v1 k2 v2 [? H1]%lookup_delete_Some [? H2]%lookup_delete_Some.
    by eapply (ok_disjoint t).
Qed.

Lemma delete_covers t v w a :
  tree_ok t → t !! vstart v = Some v → covers (delete (vstart v) t) w a ↔ covers t w a ∧ w ≠ v.
Proof.
  intros Ht Hv. unfold covers. rewrite lookup_delete_Some. split.
  - intros [[Hne ?] ?]. split; [done|]. congruence.
  - intros [[Hw ?] Hne]. split; [|done]. split; [|done]. congruence.
Qed.

(** The lower part of the address space below the stack area is free down to
    the end of its predecessor. *)
Lemma stack_gap t v ns :
  tree_ok t → t !! vstart v = Some v → ns ≤ vstart v →
  match last_lt (delete (vstart v) t) (vstart v) with
  | Some (_, p) => vend p ≤ ns
  | None => True
  end →
  ∀ w a, covers (delete (vstart v) t) w a → ¬ ns ≤ a < vend v.
Proof.
  intros Ht Hv Hns Hp w a Hw ?. apply delete_covers in Hw as [[Hw ?] Hne]; [|done..].
  destruct (Z.lt_trichotomy (vstart w) (vstart v)) as [Hlt|[Heq|Hlt]].
  - rewrite last_lt_delete in Hp by lia.
    destruct (last_lt t (vstart v)) as [[k p]|] eqn:E.
    + apply last_lt_Some in E as (Hk & ? & Hmax). pose proof (Hmax _ _ Hw Hlt).
      pose proof (ok_key _ _ (ok_areas _ Ht _ _ Hk)) as ->.
      destruct (decide (vstart w < vstart p)) as [Hwp|].
      * pose proof (ok_disjoint _ Ht _ _ _ _ Hw Hk Hwp).
        pose proof (ok_lt _ _ (ok_areas _ Ht _ _ Hk)). lia.
      * assert (vstart w = vstart p) as Hs by lia. rewrite Hs in Hw.
        assert (w = p) as -> by congruence. lia.
    + rewrite last_lt_None in E. apply E in Hw. lia.
  - rewrite Heq in Hw. congruence.
  - pose proof (ok_disjoint _ Ht _ _ _ _ Hv Hw Hlt). lia.
Qed.

(** The three ways [grow_stack_to] can end. *)
Lemma grow_stack_cases m addr :
  tree_ok (vmas m) → is_u 64 addr →
  (grow_stack_to m addr = (m, Err ()) ∧
     (find_stack_entry (vmas m) = None ∨ page_floor addr < stack_bottom m ∨
      ∃ v k p, find_stack_entry (vmas m) = Some (vstart v, v) ∧ page_floor addr < vstart v ∧
        last_lt (vmas m) (vstart v) = Some (k, p) ∧ page_floor addr < vend p)) ∨
  ∃ v, find_stack_entry (vmas m) = Some (vstart v, v) ∧
    ((vstart v ≤ page_floor addr ∧ grow_stack_to m addr = (m, Ok (vstart v))) ∨
     (let ns := page_floor addr in
      let v' := {| vstart := ns; vend := vend v; vflags := vflags v; vbacking := vbacking v |} in
      stack_bottom m ≤ ns < vstart v ∧
      grow_stack_to m addr = (set_vmas m (<[ns := v']> (delete (vstart v) (vmas m))), Ok ns) ∧
      tree_ok (<[ns := v']> (delete (vstart v) (vmas m))) ∧
      ∀ w a, covers (<[ns := v']> (delete (vstart v) (vmas m))) w a ↔
        (w = v' ∧ ns ≤ a < vend v) ∨ (covers (vmas m) w a ∧ w ≠ v))).
Proof.
  intros Ht Ha. unfold grow_stack_to. pose proof (page_floor_bounds addr Ha) as (? & ? & ?).
  pose proof (page_floor_aligned addr Ha). set (ns := page_floor addr) in *.
  destruct (Z.ltb_spec ns (stack_bottom m)); [left; auto|].
  destruct (find_stack_entry (vmas m)) as [[k v]|] eqn:E; [|left; auto].
  pose proof (find_stack_entry_Some _ _ _ E) as [Hk Hst].
  pose proof (ok_areas _ Ht _ _ Hk) as [-> ? ? ? ? ?]. rewrite Hk.
  assert (Hback : set_vmas m (<[vstart v := v]> (delete (vstart v) (vmas m))) = m).
  { rewrite insert_delete_eq, insert_id by done. by destruct m. }
  rewrite Hback. destruct (Z.leb_spec (vstart v) ns); [right; eauto|].
  set (v' := {| vstart := ns |}).
  assert (Hgrow : match last_lt (delete (vstart v) (vmas m)) (vstart v) with
                  | Some (_, p) => vend p ≤ ns | None => True end →
    tree_ok (<[ns := v']> (delete (vstart v) (vmas m))) ∧
    ∀ w a, covers (<[ns := v']> (delete (vstart v) (vmas m))) w a ↔
        (w = v' ∧ ns ≤ a < vend v) ∨ (covers (vmas m) w a ∧ w ≠ v)).
  { intros Hp.
    destruct (insert_tree_ok (delete (vstart v) (vmas m)) v') as [Hok Hc];
      cbn; try (done || lia); [by apply delete_tree_ok|apply stack_gap; (done || lia)|].
    split; [exact Hok|]. intros w a. etransitivity; [apply (Hc w a)|].
    by rewrite delete_covers by done. }
  rewrite last_lt_delete in * by lia.
  destruct (last_lt (vmas m) (vstart v)) as [[j p]|] eqn:El.
  - destruct (Z.ltb_spec ns (vend p)).
    + left. split; [done|]. right. right. eauto 10.
    + right. exists v. split; [done|]. right. split; [lia|]. split; [done|]. by apply Hgrow.
  - right. exists v. split; [done|]. right. split; [lia|]. split; [done|]. by apply Hgrow.
Qed.

(** [grow_stack_to] keeps the invariant, never unmaps or re-flags an
    address and only maps addresses from the new page up; and whenever
    [can_grow_stack] says yes, it succeeds and the faulting address lies in a
    stack area afterwards. *)
Theorem grow_stack_correct m addr m' r :
  tree_ok (vmas m) → is_u 64 addr → aligned (stack_bottom m) →
  grow_stack_to m addr = (m', r) →
  tree_ok (vmas m') ∧
  (∀ a v, find_vma m a = Some v →
     ∃ v', find_vma m' a = Some v' ∧ vflags v' = vflags v ∧ vend v' = vend v) ∧
  (∀ a, find_vma m a = None → find_vma m' a ≠ None → r = Ok (page_floor addr) ∧ page_floor addr ≤ a) ∧
  (can_grow_stack m addr = true →
     r = Ok (page_floor addr) ∧ ∃ v, find_vma m' addr = Some v ∧ is_stack v = true).
Proof.
  intros Ht Ha Hb Hg.
  destruct (grow_stack_cases m addr Ht Ha) as [[Hko Hwhy]|(v & Hst & [[Hle Hok]|(Hns & Hok & Ht' & Hc)])].
  - rewrite Hko in Hg. injection Hg as <- <-. split_and!; [done|by eauto|done|].
    unfold can_grow_stack, find_stack_vma. destruct (_ || _) eqn:E; [done|]. bools.
    pose proof (aligned_floor addr (stack_bottom m) Ha Hb ltac:(lia)).
    destruct Hwhy as [->|[|(v & k & p & -> & ? & El & ?)]]; [done|lia|]. cbn. rewrite El.
    destruct (_ && _); [|done]. intros ?. bools.
    assert (vend p ≤ page_floor addr); [|lia].
    apply last_lt_Some in El as (Hk & _).
    apply aligned_floor; [done|by eapply (ok_areas _ Ht)|lia].
  - rewrite Hok in Hg. injection Hg as <- <-. split_and!; [done|by eauto|done|].
    unfold can_grow_stack, find_stack_vma. rewrite Hst. cbn.
    destruct (_ || _); [done|]. destruct (_ && _) eqn:E; [|done]. bools.
    pose proof (page_floor_bounds addr Ha). lia.
  - rewrite Hok in Hg. injection Hg as <- <-.
    set (v' := {| vstart := page_floor addr |}) in *.
    pose proof (find_stack_entry_Some _ _ _ Hst) as [Hk Hs].
    pose proof (ok_areas _ Ht _ _ Hk) as [_ ? ? ? _ _].
    assert (Hf : ∀ w a, find_vma (set_vmas m (<[page_floor addr := v']> (delete (vstart v) (vmas m)))) a
       = Some w ↔ w = v' ∧ page_floor addr ≤ a < vend v ∨ covers (vmas m) w a ∧ w ≠ v).
    { intros w a. rewrite find_vma_covers by done. apply Hc. }
    split_and!; [done| | |].
    + intros a w Hw. apply find_vma_covers in Hw as Hcw; [|done].
      destruct (decide (w = v)) as [->|]; [exists v'|exists w; rewrite Hf; auto].
      split; [|done]. apply Hf. left. split; [done|]. destruct Hcw. lia.
    + intros a Hn Hm. split; [done|].
      destruct (find_vma (set_vmas _ _) a) as [w|] eqn:E; [|done]. apply Hf in E as [[_ ?]|[Hw _]]; [lia|]. apply find_vma_covers in Hw; [|done]. congruence.
    + intros Hcan. split; [done|]. exists v'. split; [|done]. apply Hf. left. split; [done|].
      unfold can_grow_stack, find_stack_vma in Hcan. rewrite Hst in Hcan. cbn in Hcan.
      destruct (_ || _); [done|]. destruct (_ && _) eqn:E; [|done]. bools.
      pose proof (page_floor_bounds addr Ha). lia.
Qed.

(** ** The search for a free region *)

(** Areas that may still conflict with a candidate. *)
Definition ahead (t : gmap Z Vma) (candidate : Z) : nat :=
  length (filter (λ v, candidate < vend v) (values t)).

Lemma ahead_le t c : (ahead t c ≤ size t)%nat.
Proof.
  unfold ahead. etransitivity; [apply length_filter|].
  unfold values. by rewrite length_fmap, length_entries.
Qed.

Lemma first_conflict_Some t c e v :
  first_conflict t c e = Some v → v ∈ values t ∧ c < vend v ∧ vstart v < e.
Proof.
  unfold first_conflict. destruct (list_find _ _) as [[n w]|] eqn:E; [|done].
  cbn. intros [= ->]. apply list_find_Some in E as (Hn & ? & _).
  split; [by eapply list_elem_of_lookup_2|done].
Qed.

Lemma first_conflict_None t c e :
  first_conflict t c e = None → ∀ v, v ∈ values t → ¬ (c < vend v ∧ vstart v < e).
Proof.
  unfold first_conflict. destruct (list_find _ _) as [[n w]|] eqn:E; [done|].
  intros _. apply list_find_None in E. by rewrite Forall_forall in E.
Qed.

(** Rounding the (aligned) end of an area up leaves it where it is. *)
Lemma round_up_end t k v :
  tree_ok t → t !! k = Some v → page_floor (u64 (vend v + (PAGE_SIZE - 1))) = vend v.
Proof.
  intros Ht Hk. destruct (ok_areas _ Ht _ _ Hk) as [_ ? ? ? _ Hal].
  unfold aligned, PAGE_SIZE in *. apply Z.div_exact in Hal; [|done].
  assert (vend v + 4095 < 2 ^ 64).
  { assert (vend v ≤ 2 ^ 64 - 4096); [|lia].
    replace (2 ^ 64) with (4096 * (2 ^ 52)) in * by done. lia. }
  rewrite wrap_small by (unfold is_u; lia).
  rewrite page_floor_spec by (unfold is_u; lia). unfold PAGE_SIZE.
  change (4096 - 1) with 4095. Z.div_mod_to_equations. lia.
Qed.

(** [d] is a place for [len] bytes below [bottom]: it meets no area. *)
Definition room (t : gmap Z Vma) (bottom len d : Z) : Prop :=
  d + len < bottom ∧ d + len < 2 ^ 64 ∧
  ∀ k v, t !! k = Some v → vend v ≤ d ∨ d + len ≤ vstart v.

Definition no_room (t : gmap Z Vma) (bottom len c : Z) : Prop :=
  ∀ d, c ≤ d → ¬ room t bottom len d.

(** [d] is the lowest place at or above [c]. *)
Definition first_room (t : gmap Z Vma) (bottom len c d : Z) : Prop :=
  c ≤ d ∧ aligned d ∧ room t bottom len d ∧ ∀ x, c ≤ x < d → ¬ room t bottom len x.

(** The address arithmetic of a search from [c] leaves 64 bits. *)
Definition overflows (t : gmap Z Vma) (len c : Z) : Prop :=
  ∃ x, (x = c ∨ ∃ k v, t !! k = Some v ∧ x = vend v) ∧ 2 ^ 64 ≤ x + len.

(** The search returns the lowest place; it gives up only when there is none,
    and with an error only when its arithmetic overflows. *)
Definition search_result (t : gmap Z Vma) (bottom len c : Z) (r : res unit (option Z)) : Prop :=
  match r with
  | Ok (Some d) => first_room t bottom len c d
  | Ok None => no_room t bottom len c
  | Err () => no_room t bottom len c ∧ overflows t len c
  | Panic => False
  end.

Lemma search_result_skip t bottom len c v :
  (∃ k, t !! k = Some v) → c < vend v → vstart v < c + len →
  ∀ r, search_result t bottom len (vend v) r → search_result t bottom len c r.
Proof.
  intros [k Hk] ? ?.
  assert (Hskip : ∀ x, c ≤ x < vend v → ¬ room t bottom len x).
  { intros x Hx (_ & _ & Hd). destruct (Hd k v Hk); lia. }
  intros [[d|]|[]|]; cbn; [| | |done].
  - intros (? & ? & ? & Hn). split_and!; [lia|done|done|]. intros x ?.
    destruct (decide (x < vend v)); [apply Hskip|apply Hn]; lia.
  - intros Hn x ?. destruct (decide (x < vend v)); [apply Hskip|apply Hn]; lia.
  - intros [Hn (x & Hx & ?)]. split.
    + intros y ?. destruct (decide (y < vend v)); [apply Hskip|apply Hn]; lia.
    + exists x. split; [|done]. right. destruct Hx as [->|?]; eauto.
Qed.

Lemma search_spec t bottom alen : ∀ fuel c,
  tree_ok t → 0 ≤ alen → 0 ≤ c → aligned c → (ahead t c < fuel)%nat →
  ∃ r, search fuel t bottom alen c = Some r ∧ search_result t bottom alen c r.
Proof.
  induction fuel as [|fuel IH]; intros c Ht Hlen Hc Hal Hfuel; [lia|]. cbn.
  destruct (checked_add 64 c alen) as [e|] eqn:Ee.
  2:{ apply checked_add_None in Ee. eexists. split; [done|]. split.
      - intros d ? (_ & ? & _). lia.
      - exists c. split; [by left|lia]. }
  apply checked_add_Some in Ee as [-> ?].
  destruct (Z.ltb_spec (c + alen) bottom).
  2:{ eexists. split; [done|]. intros d ? (? & _). lia. }
  destruct (first_conflict t c (c + alen)) as [v|] eqn:Ec.
  - apply first_conflict_Some in Ec as (Hv & ? & ?).
    pose proof Hv as [k Hk]%elem_of_values. rewrite (round_up_end t k v) by done.
    destruct (ok_areas _ Ht _ _ Hk). destruct (IH (vend v)) as (r & Hr & Hd); try (done || lia).
    { assert (ahead t (vend v) < ahead t c)%nat; [|lia]. unfold ahead.
      apply (filter_length_lt _ _ _ v); [lia|done|lia..]. }
    exists r. split; [done|]. apply (search_result_skip _ _ _ _ v); eauto.
  - eexists. split; [done|]. split_and!; [lia|done| |lia]. split_and!; [lia|lia|].
    intros k v Hk. destruct (decide (vend v ≤ c)); [by left|right].
    pose proof (first_conflict_None _ _ _ Ec v ltac:(apply elem_of_values; eauto)). lia.
Qed.

Definition round_up (length : Z) : Z := (length + 4095) / 4096 * 4096.

Lemma round_up_floor length :
  0 ≤ length → length + 4095 < 2 ^ 64 →
  page_floor (length + (PAGE_SIZE - 1)) = round_up length ∧ aligned (round_up length) ∧
  0 ≤ round_up length ∧ length ≤ round_up length.
Proof.
  intros. rewrite page_floor_spec by (unfold is_u, PAGE_SIZE; lia).
  unfold round_up, aligned, PAGE_SIZE. rewrite Z_mod_mult. change (4096 - 1) with 4095.
  pose proof (Z.div_mod (length + 4095) 4096). pose proof (Z.mod_pos_bound (length + 4095) 4096).
  pose proof (Z.div_pos (length + 4095) 4096). lia.
Qed.

(** A place the search found can be mapped. *)
Lemma room_insert t m d len :
  tree_ok (vmas m) → vmas m = t → 0 ≤ d → aligned d → aligned len → 0 < len →
  room t (stack_bottom m) len d → ∀ f b, (insert_vma m d (d + len) f b).2 = Ok ().
Proof.
  intros Ht <- ? Hd Hl ? (_ & ? & Hr) f b.
  destruct (insert_vma_cases m d (d + len) f b Ht) as [(_ & _ & _ & _ & ->)|[Hn _]]; [done|].
  exfalso. apply Hn. split_and!; [lia|done| |].
  - unfold aligned in *. by rewrite Zplus_mod, Hd, Hl.
  - intros w a [Hw ?]. destruct (Hr _ _ Hw); lia.
Qed.

(** C34: the search for an [mmap] region always terminates and changes no
    area. It returns the lowest place for the rounded-up length between the
    hint and the bottom of the stack and moves the hint behind it; if there is
    none, the lowest place above 0x10000000 and leaves the hint. It fails only
    when the length cannot be rounded up, or when there is no place from the
    hint on and either none from 0x10000000 on or the first search overflowed.
    A region it returns can be mapped: [insert_vma] on it succeeds. *)
Theorem find_free_mmap_region_correct m length :
  tree_ok (vmas m) → is_u 64 length → is_u 64 (mmap_hint m) → aligned (mmap_hint m) →
  let len := round_up length in
  let first := first_room (vmas m) (stack_bottom m) len in
  let none := no_room (vmas m) (stack_bottom m) len in
  ∃ m' r, find_free_mmap_region m length = Some (m', r) ∧ vmas m' = vmas m ∧
    stack_bottom m' = stack_bottom m ∧ aligned (mmap_hint m') ∧
    match r with
    | Ok c =>
        (first (mmap_hint m) c ∧ mmap_hint m' = c + len ∨
         none (mmap_hint m) ∧ first 0x10000000 c ∧ m' = m) ∧
        (0 < length → ∀ f b, (insert_vma m' c (c + len) f b).2 = Ok ())
    | Err () =>
        m' = m ∧
        (2 ^ 64 ≤ length + 4095 ∨
         none (mmap_hint m) ∧ (none 0x10000000 ∨ overflows (vmas m) len (mmap_hint m)))
    | Panic => False
    end.
Proof.
  intros Ht [? ?] [? ?] Hh len first none. unfold find_free_mmap_region.
  destruct (checked_add 64 length (PAGE_SIZE - 1)) as [l|] eqn:El.
  2:{ apply checked_add_None in El. exists m, (Err ()). split_and!; try done.
      left. unfold PAGE_SIZE in *. lia. }
  apply checked_add_Some in El as [-> ?].
  destruct (round_up_floor length) as (-> & Hal & ? & ?); [unfold PAGE_SIZE in *; lia..|].
  fold len in Hal |- *.
  assert (Hfuel : ∀ c, (ahead (vmas m) c < search_fuel (vmas m))%nat).
  { intros c. unfold search_fuel. pose proof (ahead_le (vmas m) c). lia. }
  pose proof (λ c, search_spec (vmas m) (stack_bottom m) len (search_fuel (vmas m)) c) as Hs.
  destruct (Hs (mmap_hint m)) as (r & -> & Hr); try done.
  destruct r as [[d|]|[]|]; cbn in Hr; [| | |done].
  - pose proof Hr as (? & Had & (? & ? & ?) & _).
    assert (Hu : u64 (d + len) = d + len) by (apply wrap_small; unfold is_u; lia).
    exists (set_mmap_hint m (u64 (d + len))), (Ok d). rewrite Hu. split_and!; try done.
    + cbn. unfold aligned in *. by rewrite Zplus_mod, Had, Hal.
    + by left.
    + intros ? f b. apply (room_insert (vmas m)); try (done || lia).
  - destruct (Hs 0x10000000) as (r & -> & Hr2); try done.
    destruct r as [[d|]|[]|]; cbn in Hr2; [| | |done].
    + pose proof Hr2 as (? & Had & ? & _). exists m, (Ok d). split_and!; try done.
      * by right.
      * intros ? f b. apply (room_insert (vmas m)); try (done || lia).
    + exists m, (Err ()). split_and!; try done. by auto.
    + destruct Hr2. exists m, (Err ()). split_and!; try done. by auto.
  - destruct Hr. exists m, (Err ()). split_and!; try done. by auto.
Qed.

(** ** Witnesses *)

Definition stack_map : ProcessMemoryMap :=
  (insert_vma file_map 0x7ffe0000 0x7fff0000 (Z.lor (Z.lor READ WRITE) STACK) Anonymous).1.

Lemma stack_map_ok : tree_ok (vmas stack_map).
Proof.
  apply insert_vma_tree_ok; [apply insert_vma_tree_ok; [apply empty_tree_ok|..]|..];
    vm_compute; intuition congruence.
Qed.

Lemma find_vma_correct_witness :
  tree_ok (vmas stack_map) ∧
  ∃ v, find_vma stack_map 0x12345 = Some v ∧ vstart v ≤ 0x12345 < vend v.
Proof.
  split; [exact stack_map_ok|].
  destruct (find_vma stack_map 0x12345) as [v|] eqn:E; [|by vm_compute in E].
  exists v. split; [reflexivity|].
  destruct (proj1 (proj1 (find_vma_correct stack_map 0x12345 v stack_map_ok)) E) as (k & _ & H).
  exact H.
Defined.

Lemma insert_vma_correct_witness :
  tree_ok (vmas stack_map) ∧
  tree_ok (vmas (insert_vma stack_map 0x20000 0x21000 READ Anonymous).1).
Proof.
  split; [exact stack_map_ok|].
  apply (insert_vma_correct stack_map 0x20000 0x21000 READ Anonymous _
           (insert_vma stack_map 0x20000 0x21000 READ Anonymous).2 stack_map_ok);
    [vm_compute; intuition congruence..|].
  destruct (insert_vma _ _ _ _ _). reflexivity.
Defined.

Lemma remove_vma_range_correct_witness :
  tree_ok (vmas stack_map) ∧
  view (remove_vma_range stack_map 0x11000 0x12000).1 0x12000
    = Some (Z.lor READ WRITE, FileByte 1 2 0x2000 0x3000 false).
Proof.
  split; [exact stack_map_ok|].
  destruct (remove_vma_range stack_map 0x11000 0x12000) as [m' aff] eqn:E.
  destruct (remove_vma_range_correct stack_map 0x11000 0x12000 m' aff stack_map_ok
    ltac:(vm_compute; congruence) eq_refl eq_refl E) as (_ & _ & Hview).
  cbn [fst]. rewrite Hview. vm_compute. reflexivity.
Defined.

Lemma protect_vma_range_correct_witness :
  tree_ok (vmas stack_map) ∧
  tree_ok (vmas (protect_vma_range stack_map 0x10000 0x11000 READ)).
Proof.
  split; [exact stack_map_ok|].
  apply (protect_vma_range_correct stack_map 0x10000 0x11000 READ stack_map_ok
    ltac:(vm_compute; congruence) eq_refl eq_refl).
Defined.

Lemma grow_stack_correct_witness :
  can_grow_stack stack_map 0x7ffd1234 = true ∧
  (grow_stack_to stack_map 0x7ffd1234).2 = Ok 0x7ffd1000.
Proof.
  split; [vm_compute; reflexivity|].
  destruct (grow_stack_to stack_map 0x7ffd1234) as [m' r] eqn:E.
  destruct (grow_stack_correct stack_map 0x7ffd1234 m' r stack_map_ok
    ltac:(vm_compute; intuition congruence) eq_refl E) as (_ & _ & _ & H).
  destruct (H ltac:(vm_compute; reflexivity)) as [-> _]. vm_compute. reflexivity.
Defined.

Lemma find_free_mmap_region_correct_witness :
  ∃ m' r, find_free_mmap_region (set_mmap_hint stack_map 0x10000) 0x2345 = Some (m', r) ∧
    vmas m' = vmas stack_map.
Proof.
  destruct (find_free_mmap_region_correct (set_mmap_hint stack_map 0x10000) 0x2345 stack_map_ok)
    as (m' & r & H & Hv & _); [vm_compute; intuition congruence..|reflexivity|].
  exists m', r. split; [exact H|exact Hv].
Defined.
