(* ===== verification/Pty.v ===== *)
(** * Pseudo-terminals ([rust/kernel/src/pty.rs])

    The line discipline between the terminal emulator (master) and the shell
    (slave), and the table of live PTY pairs.  Signals to the foreground
    process group are an output of [write_master]. *)

From stdpp Require Import gmap.
From S2P Require Import Prelude Words BTree.

Definition ICRNL : Z := 0x0100.
Definition IXON : Z := 0x0400.
Definition OPOST : Z := 0x0001.
Definition ONLCR : Z := 0x0004.
Definition CS8 : Z := 0x0030.
Definition CREAD : Z := 0x0080.
Definition B38400 : Z := 0x000f.
Definition ISIG : Z := 0x0001.
Definition ICANON : Z := 0x0002.
Definition ECHO : Z := 0x0008.
Definition ECHOE : Z := 0x0010.
Definition ECHOK : Z := 0x0020.
Definition ECHOCTL : Z := 0x0200.
Definition ECHOKE : Z := 0x0800.
Definition IEXTEN : Z := 0x8000.

Record Termios := {
  c_iflag : Z; c_oflag : Z; c_cflag : Z; c_lflag : Z; c_line : Z;
  c_cc : list Z; c_ispeed : Z; c_ospeed : Z }.

Definition Termios_default : Termios :=
  {| c_iflag := Z.lor ICRNL IXON;
     c_oflag := Z.lor OPOST ONLCR;
     c_cflag := Z.lor (Z.lor B38400 CS8) CREAD;
     c_lflag := foldl Z.lor ISIG [ICANON; ECHO; ECHOE; ECHOK; ECHOCTL; ECHOKE; IEXTEN];
     c_line := 0;
     c_cc := [3; 28; 127; 21; 4; 0; 1; 0; 17; 19; 26; 0; 18; 15; 23; 22; 0] ++ replicate 15 0;
     c_ispeed := 38400; c_ospeed := 38400 |}.

Record WinSize := { ws_row : Z; ws_col : Z; ws_xpixel : Z; ws_ypixel : Z }.
Definition WinSize_default : WinSize :=
  {| ws_row := 24; ws_col := 80; ws_xpixel := 1280; ws_ypixel := 800 |}.

Record PtyState := {
  pty_id : Z; master_open : bool; slave_open : bool; locked : bool;
  master_to_slave : list Z; line_buf : list Z; slave_to_master : list Z;
  termios : Termios; winsize : WinSize; fg_pgrp : Z; session_id : Z }.

Definition pty_new (id : Z) : PtyState :=
  {| pty_id := id; master_open := true; slave_open := false; locked := true;
     master_to_slave := []; line_buf := []; slave_to_master := [];
     termios := Termios_default; winsize := WinSize_default; fg_pgrp := 0; session_id := 0 |}.

(** The three byte queues, the only fields the line discipline changes. *)
Definition set_queues (p : PtyState) (m2s lb s2m : list Z) : PtyState :=
  {| pty_id := pty_id p; master_open := master_open p; slave_open := slave_open p;
     locked := locked p; master_to_slave := m2s; line_buf := lb; slave_to_master := s2m;
     termios := termios p; winsize := winsize p; fg_pgrp := fg_pgrp p;
     session_id := session_id p |}.
Definition set_open (p : PtyState) (m s : bool) : PtyState :=
  {| pty_id := pty_id p; master_open := m; slave_open := s; locked := locked p;
     master_to_slave := master_to_slave p; line_buf := line_buf p;
     slave_to_master := slave_to_master p; termios := termios p; winsize := winsize p;
     fg_pgrp := fg_pgrp p; session_id := session_id p |}.

Definition flag (word bit : Z) : bool := negb (Z.land word bit =? 0).

(** The settings [write_master] reads once, before its loop. *)
Record discipline := {
  isig : bool; icanon : bool; echo : bool; echoe : bool; onlcr : bool; icrnl : bool;
  vintr : Z; vquit : Z; verase : Z; veof : Z; vsusp : Z; pgrp : Z }.

Definition discipline_of (p : PtyState) : discipline :=
  let t := termios p in
  let cc i := default 0 (c_cc t !! i) in
  {| isig := flag (c_lflag t) ISIG; icanon := flag (c_lflag t) ICANON;
     echo := flag (c_lflag t) ECHO; echoe := flag (c_lflag t) ECHOE;
     onlcr := flag (c_oflag t) ONLCR; icrnl := flag (c_iflag t) ICRNL;
     vintr := cc 0%nat; vquit := cc 1%nat; verase := cc 2%nat; veof := cc 4%nat;
     vsusp := cc 10%nat; pgrp := fg_pgrp p |}.

Definition CR : Z := 13.
Definition LF : Z := 10.

(** Queues and the signals sent so far to the foreground group. *)
Record queues := { m2s : list Z; lb : list Z; s2m : list Z; sigs : list (Z * Z) }.

Definition push_echo (d : discipline) (ch : Z) : list Z :=
  if (ch =? LF) && onlcr d then [CR; LF] else [ch].

(** A signal character: optional flush of the line, echo, signal. *)
Definition signal_byte (d : discipline) (q : queues) (flush : bool) (text : list Z) (sig : Z)
    : queues :=
  {| m2s := m2s q; lb := if flush then [] else lb q;
     s2m := if echo d then s2m q ++ text else s2m q;
     sigs := if negb (pgrp d =? 0) then sigs q ++ [(pgrp d, sig)] else sigs q |}.

Definition canon_byte (d : discipline) (q : queues) (b : Z) : queues :=
  if ((b =? verase d) && negb (verase d =? 0)) || (b =? 0x7f) || (b =? 0x08) then
    match lb q with
    | [] => q
    | _ :: _ =>
      {| m2s := m2s q; lb := take (length (lb q) - 1) (lb q);
         s2m := if echo d && echoe d then s2m q ++ [0x08; 0x20; 0x08] else s2m q;
         sigs := sigs q |}
    end
  else if (b =? veof d) && negb (veof d =? 0) then
    match lb q with
    | [] => q
    | _ :: _ => {| m2s := m2s q ++ lb q; lb := []; s2m := s2m q; sigs := sigs q |}
    end
  else if (b =? CR) || (b =? LF) then
    let ch := if (b =? CR) && icrnl d then LF else b in
    {| m2s := m2s q ++ (lb q ++ [ch]); lb := [];
       s2m := if echo d then s2m q ++ push_echo d ch else s2m q; sigs := sigs q |}
  else
    {| m2s := m2s q; lb := lb q ++ [b];
       s2m := if echo d then s2m q ++ [b] else s2m q; sigs := sigs q |}.

Definition raw_byte (d : discipline) (q : queues) (b : Z) : queues :=
  let ch := if (b =? CR) && icrnl d then LF else b in
  {| m2s := m2s q ++ [ch]; lb := lb q;
     s2m := if echo d then s2m q ++ push_echo d ch else s2m q; sigs := sigs q |}.

(** One iteration of the loop of [write_master]. *)
Definition input_byte (d : discipline) (q : queues) (b : Z) : queues :=
  if isig d && ((b =? vintr d) && negb (vintr d =? 0)) then
    signal_byte d q true [94; 67; 10] 2
  else if isig d && ((b =? vsusp d) && negb (vsusp d =? 0)) then
    signal_byte d q false [94; 90; 10] 20
  else if isig d && ((b =? vquit d) && negb (vquit d =? 0)) then
    signal_byte d q false [94; 92; 10] 3
  else if icanon d then canon_byte d q b
  else raw_byte d q b.

Definition queues_of (p : PtyState) : queues :=
  {| m2s := master_to_slave p; lb := line_buf p; s2m := slave_to_master p; sigs := [] |}.

Definition write_master (p : PtyState) (bytes : list Z) : PtyState * list (Z * Z) :=
  let q := foldl (input_byte (discipline_of p)) (queues_of p) bytes in
  (set_queues p (m2s q) (lb q) (s2m q), sigs q).

Definition read_slave (p : PtyState) (length : Z) : PtyState * res unit (list Z) :=
  match master_to_slave p with
  | [] => (p, if negb (master_open p) then Ok [] else Err ())
  | _ :: _ =>
    let count := Z.to_nat (Z.min (zlen (master_to_slave p)) length) in
    (set_queues p (drop count (master_to_slave p)) (line_buf p) (slave_to_master p),
     Ok (take count (master_to_slave p)))
  end.

Definition write_slave (p : PtyState) (bytes : list Z) : PtyState * res unit Z :=
  if negb (master_open p) then (p, Err ()) else
  let nl := flag (c_oflag (termios p)) ONLCR in
  let out := foldl (λ out b, if (b =? LF) && nl then out ++ [CR; LF] else out ++ [b])
               (slave_to_master p) bytes in
  (set_queues p (master_to_slave p) (line_buf p) out, Ok (zlen bytes)).

Definition read_master (p : PtyState) (length : Z) : PtyState * res unit (list Z) :=
  match slave_to_master p with
  | [] => (p, if negb (slave_open p) then Ok [] else Err ())
  | _ :: _ =>
    let count := Z.to_nat (Z.min (zlen (slave_to_master p)) length) in
    (set_queues p (master_to_slave p) (line_buf p) (drop count (slave_to_master p)),
     Ok (take count (slave_to_master p)))
  end.

(** ** The PTY table

    [PTY_TABLE] maps identifiers to shared objects ([Arc<Mutex<PtyState>>]);
    descriptors keep their own reference, so an object outlives its entry. *)

Record ptys := { objects : list PtyState; table : gmap Z nat; next_pty_id : Z }.
Definition ptys_init : ptys := {| objects := []; table := ∅; next_pty_id := 0 |}.

Definition create_pty (s : ptys) : ptys * (Z * nat) :=
  let id := next_pty_id s in
  let obj := length (objects s) in
  ({| objects := objects s ++ [pty_new id]; table := <[id := obj]> (table s);
      next_pty_id := wrapping_add 32 id 1 |}, (id, obj)).

Definition get_pty (s : ptys) (id : Z) : option nat := table s !! id.
Definition has_pty (s : ptys) (id : Z) : bool := bool_decide (is_Some (table s !! id)).
Definition list_ptys (s : ptys) : list Z := keys (table s).

Definition set_object (s : ptys) (o : nat) (p : PtyState) : ptys :=
  {| objects := <[o := p]> (objects s); table := table s; next_pty_id := next_pty_id s |}.

(** [close_master] and [close_slave]: clear one side's flag, and drop the
    entry when the other side is closed too. *)
Definition close_side (master : bool) (s : ptys) (id : Z) : ptys :=
  match table s !! id with
  | None => s
  | Some o =>
    match objects s !! o with
    | None => s
    | Some p =>
      let p' := if master then set_open p false (slave_open p)
                else set_open p (master_open p) false in
      let should_remove := if master then negb (slave_open p) else negb (master_open p) in
      let s' := set_object s o p' in
      {| objects := objects s';
         table := if should_remove then delete id (table s') else table s';
         next_pty_id := next_pty_id s' |}
    end
  end.
Definition close_master := close_side true.
Definition close_slave := close_side false.

(** The state change of [open_pts_slave_current] ([scheduler.rs]). *)
Definition open_pts_slave (s : ptys) (id : Z) : ptys * res unit nat :=
  match get_pty s id with
  | None => (s, Err ())
  | Some o =>
    (match objects s !! o with
     | Some p => set_object s o (set_open p (master_open p) true)
     | None => s
     end, Ok o)
  end.

(** ** Lemmas on the line discipline *)

(** The signal a byte raises, if any. *)
Definition signal_of (d : discipline) (b : Z) : option Z :=
  if negb (isig d) then None
  else if (b =? vintr d) && negb (vintr d =? 0) then Some 2
  else if (b =? vsusp d) && negb (vsusp d =? 0) then Some 20
  else if (b =? vquit d) && negb (vquit d =? 0) then Some 3
  else None.

Lemma input_byte_cases d q b :
  input_byte d q b =
    match signal_of d b with
    | Some s => signal_byte d q (s =? 2)
        (if s =? 2 then [94; 67; 10] else if s =? 20 then [94; 90; 10] else [94; 92; 10]) s
    | None => if icanon d then canon_byte d q b else raw_byte d q b
    end.
Proof.
  unfold input_byte, signal_of. destruct (isig d); cbn [negb andb]; [|done].
  by repeat case_match.
Qed.

Lemma canon_byte_sigs d q b : sigs (canon_byte d q b) = sigs q.
Proof. unfold canon_byte. by repeat case_match. Qed.

Definition raised (d : discipline) (bs : list Z) : list (Z * Z) :=
  if pgrp d =? 0 then [] else (λ s, (pgrp d, s)) <$> omap (signal_of d) bs.

Lemma run_sigs d bs : ∀ q, sigs (foldl (input_byte d) q bs) = sigs q ++ raised d bs.
Proof.
  unfold raised. induction bs as [|b bs IH]; intros q; cbn.
  { by case_match; rewrite app_nil_r. }
  rewrite IH, input_byte_cases. destruct (signal_of d b) as [s|]; cbn.
  - destruct (pgrp d =? 0); cbn; [done|]. by rewrite <- app_assoc.
  - by destruct (icanon d); rewrite ?canon_byte_sigs.
Qed.

(** The queues do not depend on the signals already sent. *)
Definition with_sigs (q : queues) (l : list (Z * Z)) : queues :=
  {| m2s := m2s q; lb := lb q; s2m := s2m q; sigs := l |}.

Lemma input_byte_with_sigs d q b l :
  ∃ l', input_byte d (with_sigs q l) b = with_sigs (input_byte d q b) l'.
Proof.
  rewrite !input_byte_cases. destruct (signal_of d b) as [s|]; [by eexists|].
  destruct (icanon d); [|by eexists]. unfold canon_byte. cbn.
  repeat case_match; by eexists.
Qed.

Lemma run_with_sigs d bs : ∀ q l, ∃ l',
  foldl (input_byte d) (with_sigs q l) bs = with_sigs (foldl (input_byte d) q bs) l'.
Proof.
  induction bs as [|b bs IH]; intros q l; cbn; [by eexists|].
  destruct (input_byte_with_sigs d q b l) as [l' ->]. apply IH.
Qed.

(** ** The reference line editor *)

(** What a typed byte means in canonical mode.  [NoKey] is a suspend or quit
    character, which leaves the line as it is. *)
Inductive key :=
| Text (b : Z) | Erase | EndLine (ch : Z) | EndFile | Interrupt | NoKey.

Definition key_of (d : discipline) (b : Z) : key :=
  match signal_of d b with
  | Some s => if s =? 2 then Interrupt else NoKey
  | None =>
    if bool_decide (b = 0x7f ∨ b = 0x08 ∨ (b = verase d ∧ verase d ≠ 0)) then Erase
    else if bool_decide (b = veof d ∧ veof d ≠ 0) then EndFile
    else if bool_decide (b = LF) then EndLine LF
    else if bool_decide (b = CR) then EndLine (if icrnl d then LF else CR)
    else Text b
  end.

(** The characters of a line that stay, the line read from its end with [n]
    erasures met so far: each erasure takes back the nearest character before
    it that is still there, or nothing. *)
Fixpoint survivors (n : nat) (from_end : list key) : list Z :=
  match from_end with
  | [] => []
  | Text b :: ks => match n with O => b :: survivors O ks | S n' => survivors n' ks end
  | Erase :: ks => survivors (S n) ks
  | _ :: ks => survivors n ks
  end.
Definition edited (line : list key) : list Z := reverse (survivors 0 (reverse line)).

(** The bytes handed to the slave and the line left unfinished, when [line]
    is typed already and [ks] follows: a line is handed over when it is ended,
    an end-of-file character hands it over as it is, an interrupt drops it. *)
Fixpoint delivered (line ks : list key) : list Z * list Z :=
  match ks with
  | [] => ([], edited line)
  | k :: ks' =>
    match k with
    | EndLine ch => let '(out, rest) := delivered [] ks' in (edited line ++ [ch] ++ out, rest)
    | EndFile => let '(out, rest) := delivered [] ks' in (edited line ++ out, rest)
    | Interrupt => delivered [] ks'
    | _ => delivered (line ++ [k]) ks'
    end
  end.

Lemma survivors_drop ks : ∀ n, survivors n ks = drop n (survivors 0 ks).
Proof.
  induction ks as [|k ks IH]; intros n; [by destruct n|]. destruct k; cbn; try apply IH.
  - destruct n; [done|]. apply IH.
  - by rewrite (IH (S n)), (IH 1%nat), drop_drop.
Qed.

Lemma reverse_tail {A} (l : list A) : reverse (drop 1 l) = take (length (reverse l) - 1) (reverse l).
Proof.
  destruct l as [|x l]; [done|]. change (drop 1 (x :: l)) with (drop 0 l).
  rewrite drop_0, reverse_cons, length_app. by rewrite Nat.add_sub, take_app_length.
Qed.

Lemma edited_snoc line k :
  edited (line ++ [k]) =
    match k with
    | Text b => edited line ++ [b]
    | Erase => take (length (edited line) - 1) (edited line)
    | _ => edited line
    end.
Proof.
  unfold edited. rewrite reverse_snoc. destruct k; cbn [survivors]; try done.
  - by rewrite reverse_cons.
  - rewrite survivors_drop. apply reverse_tail.
Qed.

Lemma edited_text l line : edited (line ++ (Text <$> l)) = edited line ++ l.
Proof.
  revert line. induction l as [|b l IH]; intros line; cbn; [by rewrite !app_nil_r|].
  change (Text b :: (Text <$> l)) with ([Text b] ++ (Text <$> l)).
  by rewrite app_assoc, IH, edited_snoc, <- app_assoc.
Qed.

Lemma delivered_text l : ∀ line ks, delivered line ((Text <$> l) ++ ks) = delivered (line ++ (Text <$> l)) ks.
Proof.
  induction l as [|b l IH]; intros line ks; cbn; [by rewrite app_nil_r|].
  by rewrite IH, <- app_assoc.
Qed.

(** One byte typed on the line [line]. *)
Lemma key_byte d q b line :
  icanon d = true → lb q = edited line →
  let q' := input_byte d q b in
  match key_of d b with
  | EndLine ch => m2s q' = m2s q ++ edited line ++ [ch] ∧ lb q' = []
  | EndFile => m2s q' = m2s q ++ edited line ∧ lb q' = []
  | Interrupt => m2s q' = m2s q ∧ lb q' = []
  | k => m2s q' = m2s q ∧ lb q' = edited (line ++ [k])
  end.
Proof.
  intros Hc Hl. cbv zeta. rewrite input_byte_cases, Hc. unfold key_of.
  destruct (signal_of d b) as [s|].
  { destruct (s =? 2); cbn; [done|]. by rewrite edited_snoc. }
  unfold canon_byte.
  assert (((b =? verase d) && negb (verase d =? 0)) || (b =? 0x7f) || (b =? 0x08) =
    bool_decide (b = 0x7f ∨ b = 0x08 ∨ (b = verase d ∧ verase d ≠ 0))) as ->.
  { apply eq_bool_prop_intro. rewrite !orb_True, andb_True, negb_True, !Is_true_true,
      bool_decide_eq_true, !Z.eqb_eq. lia. }
  assert ((b =? veof d) && negb (veof d =? 0) = bool_decide (b = veof d ∧ veof d ≠ 0)) as ->.
  { apply eq_bool_prop_intro. rewrite andb_True, negb_True, !Is_true_true,
      bool_decide_eq_true, !Z.eqb_eq. lia. }
  case_bool_decide.
  { destruct (lb q) as [|x l] eqn:E; cbn [m2s lb]; rewrite edited_snoc, <- Hl, ?E; done. }
  case_bool_decide.
  { rewrite <- Hl. destruct (lb q) as [|x l] eqn:E; cbn [m2s lb]; rewrite ?E, ?app_nil_r; done. }
  destruct (Z.eqb_spec b LF) as [->|]; [rewrite bool_decide_true by done|rewrite bool_decide_false by done].
  { cbn. by rewrite Hl. }
  destruct (Z.eqb_spec b CR) as [->|]; [rewrite bool_decide_true by done|rewrite bool_decide_false by done].
  { cbn. rewrite Hl. by destruct (icrnl d). }
  cbn. by rewrite edited_snoc, Hl.
Qed.

Lemma typed_run d bs : ∀ q line,
  icanon d = true → lb q = edited line →
  let q' := foldl (input_byte d) q bs in
  let '(out, rest) := delivered line (key_of d <$> bs) in
  m2s q' = m2s q ++ out ∧ lb q' = rest.
Proof.
  induction bs as [|b bs IH]; intros q line Hc Hl; cbn; [by rewrite app_nil_r|].
  pose proof (key_byte d q b line Hc Hl) as Hk. cbv zeta in Hk.
  set (q1 := input_byte d q b) in *.
  destruct (key_of d b); destruct Hk as [Hm Hl1].
  1,2,6: specialize (IH q1 _ Hc Hl1); cbv zeta in IH; rewrite Hm in IH; exact IH.
  all: specialize (IH q1 [] Hc Hl1); cbv zeta in IH; destruct (delivered [] _) as [out rest];
    destruct IH as [-> ->]; by rewrite Hm, <- ?app_assoc.
Qed.

Lemma canon_byte_keeps d q b c :
  c ≠ b → c ≠ LF → c ∉ m2s q → c ∉ lb q →
  c ∉ m2s (canon_byte d q b) ∧ c ∉ lb (canon_byte d q b).
Proof.
  intros Hb Hlf Hm Hl. unfold canon_byte.
  destruct (_ || _ || _).
  { destruct (lb q) as [|x l] eqn:E; [by rewrite E|]. cbn [m2s lb]. split; [done|].
    intros (i & Hi & _)%elem_of_take. apply Hl. by eapply list_elem_of_lookup_2. }
  destruct (_ && _).
  { destruct (lb q) as [|x l] eqn:E; [by rewrite E|]. cbn [m2s lb].
    split; [|apply not_elem_of_nil]. rewrite elem_of_app. by intros [?|?]. }
  destruct (_ || _); cbn [m2s lb].
  - split; [|apply not_elem_of_nil]. rewrite !elem_of_app, list_elem_of_singleton.
    intros [?|[?|?]]; [done..|]. destruct (_ && _); done.
  - split; [done|]. rewrite elem_of_app, list_elem_of_singleton. by intros [?|?].
Qed.

Lemma input_byte_keeps d q b c :
  signal_of d c ≠ None → c ≠ LF → c ∉ m2s q → c ∉ lb q →
  c ∉ m2s (input_byte d q b) ∧ c ∉ lb (input_byte d q b).
Proof.
  intros Hc Hlf Hm Hl. rewrite input_byte_cases. destruct (signal_of d b) as [s|] eqn:Es.
  - cbn. split; [done|]. destruct (s =? 2); [apply not_elem_of_nil|done].
  - assert (c ≠ b) by congruence. destruct (icanon d); [by apply canon_byte_keeps|].
    cbn. split; [|done]. rewrite elem_of_app, list_elem_of_singleton.
    intros [?|?]; [done|]. destruct (_ && _); done.
Qed.

(** ** Properties *)

(** C33: canonical editing.  In canonical mode, whatever bytes are typed (text,
    erasures anywhere and also on an empty line, line ends, end-of-file and
    signal characters, in any order and across calls), the slave receives
    exactly the finished lines as the reference editor gives them, each with
    its newline (a carriage return becomes a newline under [ICRNL]), and the
    unfinished line is kept as edited so far. *)
Theorem canonical_line_edited p typed :
  icanon (discipline_of p) = true →
  let keys := (Text <$> line_buf p) ++ (key_of (discipline_of p) <$> typed) in
  let p' := (write_master p typed).1 in
  let '(out, rest) := delivered [] keys in
  master_to_slave p' = master_to_slave p ++ out ∧ line_buf p' = rest.
Proof.
  intros Hc. cbv zeta. rewrite delivered_text. cbn [app].
  pose proof (typed_run (discipline_of p) typed (queues_of p) (Text <$> line_buf p) Hc) as H.
  cbv zeta in H. unfold write_master. cbn.
  destruct (delivered _ _) as [out rest]. apply H.
  symmetry. exact (edited_text (line_buf p) []).
Qed.

(** The keys of a new terminal. *)
Lemma default_keys b :
  key_of (discipline_of (pty_new 0)) b =
    if bool_decide (b = 3) then Interrupt
    else if bool_decide (b = 26 ∨ b = 28) then NoKey
    else if bool_decide (b = 127 ∨ b = 8) then Erase
    else if bool_decide (b = 4) then EndFile
    else if bool_decide (b = 10 ∨ b = 13) then EndLine 10
    else Text b.
Proof.
  unfold key_of, signal_of, LF, CR. cbn.
  repeat match goal with |- context [b =? ?c] => destruct (Z.eqb_spec b c) as [->|]; [done|] end.
  repeat case_bool_decide; try done; lia.
Qed.

Lemma canonical_line_edited_witness :
  (* DEL l x DEL s CR, then q *)
  let p := (write_master (pty_new 0) [127; 108; 120; 127; 115; 13; 113]).1 in
  master_to_slave p = [108; 115; 10] ∧ line_buf p = [113].
Proof. exact (canonical_line_edited (pty_new 0) [127; 108; 120; 127; 115; 13; 113] eq_refl). Defined.

(** signal characters.  Whatever is typed, in any mode, the signals sent
    to the foreground process group are exactly those of the interrupt,
    suspend and quit characters in order, and no such character is ever
    delivered to the slave or kept in the line being edited. *)
Theorem signal_characters p bs c :
  let d := discipline_of p in
  let '(p', sent) := write_master p bs in
  sent = raised d bs ∧
  (signal_of d c ≠ None → c ≠ LF →
     c ∉ master_to_slave p → c ∉ line_buf p →
     c ∉ master_to_slave p' ∧ c ∉ line_buf p').
Proof.
  intros d. unfold write_master. cbn. fold d. split; [by rewrite run_sigs|].
  intros Hc Hlf Hm Hl.
  assert (Hq : ∀ q, c ∉ m2s q → c ∉ lb q →
    c ∉ m2s (foldl (input_byte d) q bs) ∧ c ∉ lb (foldl (input_byte d) q bs)).
  { induction bs as [|b bs IH]; intros q Hmq Hlq; [done|]. cbn.
    destruct (input_byte_keeps d q b c); auto. }
  by apply (Hq (queues_of p)).
Qed.

(** Carriage return to newline on input, newline to CR LF on output. *)
Definition input_map (d : discipline) (b : Z) : Z := if (b =? CR) && icrnl d then LF else b.

Lemma raw_run d bs : ∀ q,
  isig d = false → icanon d = false →
  let q' := foldl (input_byte d) q bs in
  m2s q' = m2s q ++ (input_map d <$> bs) ∧ lb q' = lb q ∧
  s2m q' = s2m q ++ (if echo d then mjoin (push_echo d <$> (input_map d <$> bs)) else []).
Proof.
  induction bs as [|b bs IH]; intros q Hi Hc; cbn.
  { rewrite app_nil_r. destruct (echo d); by rewrite app_nil_r. }
  assert (signal_of d b = None) as Hs by (unfold signal_of; by rewrite Hi).
  rewrite input_byte_cases, Hs, Hc.
  destruct (IH (raw_byte d q b) Hi Hc) as (-> & -> & ->). cbn. fold (input_map d b).
  rewrite <- app_assoc. split_and!; [done..|].
  destruct (echo d); [by rewrite <- app_assoc|done].
Qed.

Lemma write_slave_fold nl bs : ∀ out : list Z,
  foldl (λ out b, if (b =? LF) && nl then out ++ [CR; LF] else out ++ [b]) out bs
  = out ++ mjoin ((λ b, if (b =? LF) && nl then [CR; LF] else [b]) <$> bs).
Proof.
  induction bs as [|b bs IH]; intros out; cbn; [by rewrite app_nil_r|].
  rewrite IH. case_match; by rewrite <- app_assoc.
Qed.

(** the byte streams are faithful.  In raw mode every byte typed reaches
    the slave, in order and once, with only CR mapped to NL when [ICRNL] is
    set; what the slave writes reaches the master with NL expanded when
    [ONLCR] is set; and a read on either side returns a prefix of the queue
    and keeps the rest, blocking only on an empty queue with an open peer. *)
Theorem pty_streams p bs n :
  (let d := discipline_of p in
   isig d = false → icanon d = false →
   master_to_slave (write_master p bs).1 = master_to_slave p ++ (input_map d <$> bs) ∧
   line_buf (write_master p bs).1 = line_buf p ∧ (write_master p bs).2 = []) ∧
  (master_open p = true →
   (write_slave p bs).2 = Ok (zlen bs) ∧
   slave_to_master (write_slave p bs).1 = slave_to_master p ++
     mjoin ((λ b, if (b =? LF) && flag (c_oflag (termios p)) ONLCR then [CR; LF] else [b]) <$> bs)) ∧
  (∀ p' r, 0 ≤ n → read_slave p n = (p', r) →
   match r with
   | Ok out => master_to_slave p = out ++ master_to_slave p' ∧
       zlen out = Z.min n (zlen (master_to_slave p)) ∧
       (out = [] → n = 0 ∨ (master_to_slave p = [] ∧ master_open p = false))
   | Err _ => p' = p ∧ master_to_slave p = [] ∧ master_open p = true
   | Panic => False
   end).
Proof.
  split_and!.
  - intros d Hi Hc. unfold write_master. cbn. fold d.
    destruct (raw_run d bs (queues_of p) Hi Hc) as (-> & -> & _).
    split_and!; [done..|]. rewrite run_sigs. cbn. unfold raised.
    assert (omap (signal_of d) bs = []) as ->; [|by destruct (pgrp d =? 0)].
    clear -Hi. induction bs as [|b bs IH]; cbn; [done|]. unfold signal_of at 1. by rewrite Hi.
  - intros Ho. unfold write_slave. rewrite Ho. cbn. by rewrite write_slave_fold.
  - intros p' r Hn. unfold read_slave.
    destruct (master_to_slave p) as [|x l] eqn:E; intros [= <- <-].
    + rewrite E. destruct (master_open p); cbn [master_to_slave]; [done|]. split_and!; [done|cbn [length]; lia|auto].
    + cbn [master_to_slave set_queues]. rewrite take_drop. split_and!; [done| |].
      * rewrite length_take. cbn [length]. lia.
      * intros Ht%(f_equal length). rewrite length_take in Ht. cbn in Ht. left. lia.
Qed.

Lemma signal_characters_witness :
  (* ^C while a line is pending *)
  let p := (write_master (pty_new 0) [108; 115]).1 in
  (3 ∉ master_to_slave (write_master p [3]).1) ∧ 3 ∉ line_buf (write_master p [3]).1.
Proof.
  cbv zeta. set (p := (write_master (pty_new 0) [108; 115]).1).
  pose proof (signal_characters p [3] 3) as H. cbv zeta in H.
  destruct (write_master p [3]) as [p' sent]. destruct H as [_ H].
  apply H; vm_compute; [congruence..|set_solver|set_solver].
Defined.

Lemma pty_streams_witness :
  (write_slave (pty_new 0) [104; 105; 10]).2 = Ok 3.
Proof. exact (proj1 (proj1 (proj2 (pty_streams (pty_new 0) [104; 105; 10] 0)) eq_refl)). Defined.

(** ** Properties of the table *)

Record ptys_ok (s : ptys) : Prop := {
  entry_ok : ∀ id o, table s !! id = Some o →
    ∃ p, objects s !! o = Some p ∧ pty_id p = id ∧ (master_open p || slave_open p) = true }.

Inductive pty_op := PCreate | POpenSlave (id : Z) | PCloseMaster (id : Z) | PCloseSlave (id : Z).

Definition pty_step (s : ptys) (o : pty_op) : ptys :=
  match o with
  | PCreate => (create_pty s).1
  | POpenSlave id => (open_pts_slave s id).1
  | PCloseMaster id => close_master s id
  | PCloseSlave id => close_slave s id
  end.

Lemma set_object_ok s o p q :
  ptys_ok s → objects s !! o = Some p → pty_id q = pty_id p →
  (master_open q || slave_open q) = true → ptys_ok (set_object s o q).
Proof.
  intros [Hs] Ho Hid Hopen. split. intros id o' Ht. cbn in *.
  destruct (Hs id o' Ht) as (p' & Hp' & ? & ?). rewrite list_lookup_insert.
  case_decide as Hc; [|eauto]. destruct Hc as [<- _]. exists q. split_and!; [done| |done].
  congruence.
Qed.

Lemma close_side_ok b s id : ptys_ok s → ptys_ok (close_side b s id).
Proof.
  intros Hs. unfold close_side. destruct (table s !! id) as [o|] eqn:Et; [|done].
  destruct (objects s !! o) as [p|] eqn:Eo; [|done].
  pose proof (entry_ok s Hs id o Et) as (p0 & ? & Hid & Hopen). assert (p0 = p) as -> by congruence.
  set (p' := if b then set_open p false (slave_open p) else set_open p (master_open p) false).
  set (rm := if b then negb (slave_open p) else negb (master_open p)).
  assert (Hid' : pty_id p' = id) by (unfold p'; by destruct b).
  split. intros id' o' Ht. cbn in *.
  assert (Ht' : table s !! id' = Some o' ∧ (rm = true → id' ≠ id)).
  { destruct rm; [by apply lookup_delete_Some in Ht as [? ?]|done]. }
  destruct Ht' as [Ht' Hne]. destruct (entry_ok s Hs id' o' Ht') as (q & Hq & Hqid & Hqo).
  rewrite list_lookup_insert. case_decide as Hc; [|eauto]. destruct Hc as [<- _].
  exists p'. assert (q = p) as -> by congruence. split_and!; [done|congruence|].
  destruct rm eqn:Erm; [exfalso; apply Hne; congruence|].
  unfold rm, p' in *. destruct b; cbn; apply negb_false_iff in Erm; rewrite Erm; by rewrite ?orb_true_r.
Qed.

Lemma pty_step_ok s o : ptys_ok s → ptys_ok (pty_step s o).
Proof.
  intros Hs. destruct o as [|id|id|id]; cbn [pty_step]; [| |by apply close_side_ok..].
  - split. cbn. intros id o. rewrite lookup_insert. case_decide.
    + intros [= <-]. exists (pty_new id). subst. by rewrite list_lookup_middle.
    + intros Ht. destruct (entry_ok s Hs id o Ht) as (p & Hp & ?). exists p.
      split; [|done]. by apply lookup_app_l_Some.
  - unfold open_pts_slave, get_pty. destruct (table s !! id) as [o|] eqn:Et; [|done]. cbn.
    destruct (objects s !! o) as [p|] eqn:Eo; [|done].
    eapply set_object_ok; [done..|]. cbn. by rewrite orb_true_r.
Qed.

(** in every reachable table each entry names a live PTY: its object
    carries that identifier and at least one side is open; so [list_ptys]
    never lists a pair both of whose sides are closed. *)
Theorem pty_table_live ops :
  let s := foldl pty_step ptys_init ops in
  ∀ id, id ∈ list_ptys s →
    ∃ o p, get_pty s id = Some o ∧ objects s !! o = Some p ∧ pty_id p = id ∧
      (master_open p = true ∨ slave_open p = true).
Proof.
  intros s id. unfold list_ptys. rewrite elem_of_keys. intros [o Ho].
  assert (Hs : ptys_ok s).
  { unfold s. clear. cut (∀ s, ptys_ok s → ptys_ok (foldl pty_step s ops)).
    - intros H. apply H. split. intros id o. cbn. by rewrite lookup_empty.
    - induction ops as [|op ops IH]; intros s Hs; cbn; [done|]. by apply IH, pty_step_ok. }
  destruct (entry_ok s Hs id o Ho) as (p & ? & ? & Hopen). exists o, p.
  apply orb_true_iff in Hopen. done.
Qed.

Lemma pty_table_live_witness :
  ∃ o p, get_pty (foldl pty_step ptys_init [PCreate; POpenSlave 0]) 0 = Some o ∧
    objects (foldl pty_step ptys_init [PCreate; POpenSlave 0]) !! o = Some p.
Proof.
  destruct (pty_table_live [PCreate; POpenSlave 0] 0) as (o & p & H1 & H2 & _);
    [apply (bool_decide_unpack _); vm_compute; exact I|]. by exists o, p.
Defined.

(** slave opens are not counted.  After two opens of the same slave, one
    close already marks the slave side closed: the master reads end of file
    although another descriptor still holds the slave open. *)
Theorem pty_slave_close_not_counted :
  let s2 := foldl pty_step ptys_init [PCreate; POpenSlave 0; POpenSlave 0] in
  let s3 := close_slave s2 0 in
  (λ p, (slave_open p, (read_master p 16).2)) <$> objects s2 !! 0%nat = Some (true, Err ()) ∧
  (λ p, (slave_open p, (read_master p 16).2)) <$> objects s3 !! 0%nat = Some (false, Ok []).
Proof. by vm_compute. Qed.
