(* ===== verification/Gpt.v ===== *)
(** * GUID partition tables ([rust/gpt/src/lib.rs])

    Parsing of the primary GPT header, the two CRC checks and the discovery
    of the root and swap partitions.  The block device is the parameter
    [read_sector] of [discover]: [None] stands for a failed read. *)

From stdpp Require Import gmap.
From S2P Require Import Prelude Words.

Definition GPT_SIGNATURE : list Z := [69; 70; 73; 32; 80; 65; 82; 84].
Definition MIN_HEADER_SIZE : Z := 92.
Definition SECTOR_SIZE : Z := 512.
Definition TYPE_GUID_SIZE : Z := 16.
Definition PARTITION_START_OFFSET : Z := 32.
Definition PARTITION_END_OFFSET : Z := 40.
Definition VANTA_ROOT_TYPE_GUID : list Z :=
  [0x4e; 0x0d; 0x2f; 0x5d; 0xff; 0x9c; 0x2f; 0x4b;
   0xa9; 0xb6; 0x6b; 0xf9; 0xea; 0xa4; 0xd2; 0x01].
Definition VANTA_SWAP_TYPE_GUID : list Z :=
  [0x6d; 0xfd; 0x57; 0x06; 0xab; 0xa4; 0xc4; 0x43;
   0x84; 0xe5; 0x09; 0x33; 0xc8; 0x4b; 0x4f; 0x4f].

Record RootPartition := { start_lba : Z; end_lba : Z }.
#[export] Instance RootPartition_eq_dec : EqDecision RootPartition.
Proof. solve_decision. Defined.

Definition sector_count (p : RootPartition) : Z := u64 (u64 (end_lba p - start_lba p) + 1).
Definition absolute_lba (p : RootPartition) (relative_lba : Z) : option Z :=
  if sector_count p <=? relative_lba then None else Some (u64 (start_lba p + relative_lba)).

Inductive GptError :=
| InvalidSignature | InvalidHeader | InvalidHeaderCrc | InvalidPartitionArrayCrc
| InvalidPartitionLayout | MissingRoot.
#[export] Instance GptError_eq_dec : EqDecision GptError.
Proof. solve_decision. Defined.

Record HeaderLayout := {
  first_usable_lba : Z; last_usable_lba : Z; entry_lba : Z;
  entry_count : Z; entry_size : Z; entry_bytes : Z; entries_crc : Z }.

(** ** CRC-32 *)

Definition crc32_bit (crc : Z) : Z :=
  if Z.land crc 1 =? 0 then Z.shiftr crc 1 else Z.lxor (Z.shiftr crc 1) 0xedb88320.
Definition crc32_step (crc value : Z) : Z := Nat.iter 8 crc32_bit (Z.lxor crc value).

Definition crc32 (bs : list Z) : Z := bnot 32 (foldl crc32_step (bnot 32 0) bs).

Definition crc32_with_zeroed_range (bs : list Z) (start len : Z) : Z :=
  bnot 32 (foldl (λ crc '(i, v),
      crc32_step crc (if bool_decide (start ≤ i < start + len) then 0 else v))
    (bnot 32 0) (imap (λ i v, (Z.of_nat i, v)) bs)).

(** ** Header *)

Definition read_u32 (bs : list Z) (offset : Z) : res GptError Z :=
  v ← ok_or InvalidHeader (slice bs offset (offset + 4)); Ok (from_le v).
Definition read_u64 (bs : list Z) (offset : Z) : res GptError Z :=
  v ← ok_or InvalidHeader (slice bs offset (offset + 8)); Ok (from_le v).

Definition parse_header (header : list Z) : res GptError HeaderLayout :=
  if negb (bool_decide (slice header 0 (zlen GPT_SIGNATURE) = Some GPT_SIGNATURE))
  then Err InvalidSignature else
  header_size ← read_u32 header 12;
  if negb ((MIN_HEADER_SIZE <=? header_size) && (header_size <=? zlen header))
  then Err InvalidHeader else
  expected_header_crc ← read_u32 header 16;
  body ← expect (slice header 0 header_size);
  if negb (crc32_with_zeroed_range body 16 4 =? expected_header_crc)
  then Err InvalidHeaderCrc else
  current_lba ← read_u64 header 24;
  backup_lba ← read_u64 header 32;
  first_usable ← read_u64 header 40;
  last_usable ← read_u64 header 48;
  count ← read_u32 header 80;
  size ← read_u32 header 84;
  expected_entries_crc ← read_u32 header 88;
  total ← ok_or InvalidHeader (checked_mul 64 count size);
  if negb (current_lba =? 1) || (backup_lba <=? current_lba)
     || (last_usable <? first_usable) || (size <? PARTITION_END_OFFSET + 8)
  then Err InvalidHeader else
  lba ← read_u64 header 72;
  Ok {| first_usable_lba := first_usable; last_usable_lba := last_usable; entry_lba := lba;
        entry_count := count; entry_size := size; entry_bytes := total;
        entries_crc := expected_entries_crc |}.

(** ** Partition entries *)

(** The loop body of [find_vanta_partition] on entry [index]: [None] is
    [continue]. *)
Definition match_entry (layout : HeaderLayout) (entries target_guid : list Z) (i : Z)
    : res GptError (option RootPartition) :=
  let offset := u64 (i * entry_size layout) in
  entry ← expect (slice entries offset (u64 (offset + entry_size layout)));
  guid ← expect (slice entry 0 TYPE_GUID_SIZE);
  if negb (bool_decide (guid = target_guid)) then Ok None else
  first ← read_u64 entry PARTITION_START_OFFSET;
  last ← read_u64 entry PARTITION_END_OFFSET;
  if (first <? first_usable_lba layout) || (last_usable_lba layout <? last) || (last <? first)
  then Err InvalidPartitionLayout
  else Ok (Some {| start_lba := first; end_lba := last |}).

Fixpoint scan_entries (layout : HeaderLayout) (entries target_guid : list Z) (i : Z) (n : nat)
    : res GptError RootPartition :=
  match n with
  | O => Err MissingRoot
  | S n' =>
    r ← match_entry layout entries target_guid i;
    match r with
    | Some p => Ok p
    | None => scan_entries layout entries target_guid (i + 1) n'
    end
  end.

Definition find_vanta_partition (header entries target_guid : list Z) : res GptError RootPartition :=
  layout ← parse_header header;
  if zlen entries <? entry_bytes layout then Err InvalidHeader else
  body ← expect (slice entries 0 (entry_bytes layout));
  if negb (crc32 body =? entries_crc layout) then Err InvalidPartitionArrayCrc else
  scan_entries layout entries target_guid 0 (Z.to_nat (entry_count layout)).

Definition find_vanta_root (header entries : list Z) : res GptError RootPartition :=
  find_vanta_partition header entries VANTA_ROOT_TYPE_GUID.
Definition find_vanta_swap (header entries : list Z) : res GptError RootPartition :=
  find_vanta_partition header entries VANTA_SWAP_TYPE_GUID.

(** ** Discovery on a device *)

Definition div_ceil (a b : Z) : Z := (a + b - 1) / b.

(** [vec![0_u8; n]] panics with a capacity overflow above [isize::MAX]. *)
Definition vec_zeroed (n : Z) : res GptError (list Z) :=
  if 2 ^ 63 <=? n then Panic else Ok (replicate (Z.to_nat n) 0).

Section discover.
Context (read_sector : Z → option (list Z)).

Definition read_gpt_sector (lba : Z) : res GptError (list Z) :=
  ok_or InvalidHeader (read_sector lba).

(** The loop over the sectors of the entry array, from sector [i] on. *)
Fixpoint read_entries (layout : HeaderLayout) (entries : list Z) (i : Z) (n : nat)
    : res GptError (list Z) :=
  match n with
  | O => Ok entries
  | S n' =>
    sector ← read_gpt_sector (u64 (entry_lba layout + i));
    let start := i * SECTOR_SIZE in
    let length := Z.min (entry_bytes layout - start) SECTOR_SIZE in
    src ← expect (slice sector 0 length);
    if bool_decide (start + length ≤ zlen entries)
    then read_entries layout (splice entries start src) (i + 1) n'
    else Panic
  end.

Definition discover_partition (find : list Z → list Z → res GptError RootPartition)
    : res GptError RootPartition :=
  header ← read_gpt_sector 1;
  layout ← parse_header header;
  let sectors := div_ceil (entry_bytes layout) SECTOR_SIZE in
  entries ← vec_zeroed (entry_bytes layout);
  entries ← read_entries layout entries 0 (Z.to_nat sectors);
  find header entries.

Definition discover_vanta_root := discover_partition find_vanta_root.
Definition discover_vanta_swap := discover_partition find_vanta_swap.
End discover.

(** ** What the parser promises *)

(** The little-endian number of [n] bytes at [offset]. *)
Definition le_at (bs : list Z) (offset : Z) (n : nat) : Z :=
  from_le (take n (drop (Z.to_nat offset) bs)).

Definition entry_guid (l : HeaderLayout) (entries : list Z) (i : Z) : list Z :=
  take 16 (drop (Z.to_nat (i * entry_size l)) entries).
Definition entry_part (l : HeaderLayout) (entries : list Z) (i : Z) : RootPartition :=
  {| start_lba := le_at entries (i * entry_size l + 32) 8;
     end_lba := le_at entries (i * entry_size l + 40) 8 |}.
Definition usable (l : HeaderLayout) (p : RootPartition) : Prop :=
  first_usable_lba l ≤ start_lba p ∧ start_lba p ≤ end_lba p ∧ end_lba p ≤ last_usable_lba l.

(** Entry [i] is the first one of type [target]. *)
Definition first_entry (l : HeaderLayout) (entries target : list Z) (i : Z) : Prop :=
  0 ≤ i < entry_count l ∧ entry_guid l entries i = target ∧
  ∀ j, 0 ≤ j < i → entry_guid l entries j ≠ target.

Record layout_ok (l : HeaderLayout) : Prop := {
  lo_count : is_u 32 (entry_count l); lo_size : is_u 32 (entry_size l);
  lo_min : 48 ≤ entry_size l;
  lo_bytes : entry_bytes l = entry_count l * entry_size l ∧ entry_bytes l < 2 ^ 64;
  lo_first : is_u 64 (first_usable_lba l); lo_last : is_u 64 (last_usable_lba l);
  lo_lba : is_u 64 (entry_lba l); lo_le : first_usable_lba l ≤ last_usable_lba l }.

Lemma read_u32_Ok bs o v : read_u32 bs o = Ok v → bytes bs → is_u 32 v.
Proof.
  unfold read_u32. intros H Hb. inv_bind H. apply ok_or_Ok in E. injection H as <-.
  pose proof (slice_length _ _ _ _ E). apply (slice_Forall _ _ _ _ _ Hb) in E.
  apply from_le_range in E. by replace (8 * zlen x) with 32 in E by lia.
Qed.

Lemma read_u64_Ok bs o v : read_u64 bs o = Ok v → bytes bs → is_u 64 v.
Proof.
  unfold read_u64. intros H Hb. inv_bind H. apply ok_or_Ok in E. injection H as <-.
  pose proof (slice_length _ _ _ _ E). apply (slice_Forall _ _ _ _ _ Hb) in E.
  apply from_le_range in E. by replace (8 * zlen x) with 64 in E by lia.
Qed.

(** ** The checksum *)

Lemma crc32_bit_range x : is_u 32 x → is_u 32 (crc32_bit x).
Proof.
  intros Hx. unfold crc32_bit. destruct (_ =? _); [by apply is_u_shiftr|].
  apply is_u_lxor; [lia|by apply is_u_shiftr|done].
Qed.

(** The polynomial has its top bit set, so the branch taken can be read off
    the result: one step of the shift register is injective. *)
Lemma crc32_bit_inj x y : is_u 32 x → is_u 32 y → crc32_bit x = crc32_bit y → x = y.
Proof.
  intros Hx Hy. unfold crc32_bit.
  assert (Htop : ∀ z, is_u 32 z → Z.testbit (Z.shiftr z 1) 31 = false).
  { intros z Hz. rewrite Z.shiftr_spec by lia. by apply is_u_bits in Hz as [_ ->]. }
  assert (Hodd : ∀ z, Z.land z 1 = z mod 2) by (intros z; apply (Z.land_ones z 1); lia).
  assert (Hsplit : ∀ z, z = 2 * Z.shiftr z 1 + z mod 2).
  { intros z. rewrite Z.shiftr_div_pow2 by lia. apply Z.div_mod. lia. }
  rewrite !Hodd. pose proof (Z.mod_pos_bound x 2). pose proof (Z.mod_pos_bound y 2).
  destruct (Z.eqb_spec (x mod 2) 0), (Z.eqb_spec (y mod 2) 0); intros He.
  - rewrite (Hsplit x), (Hsplit y). congruence.
  - apply (f_equal (λ z, Z.testbit z 31)) in He. by rewrite Z.lxor_spec, !Htop in He.
  - apply (f_equal (λ z, Z.testbit z 31)) in He. by rewrite Z.lxor_spec, !Htop in He.
  - apply lxor_inj_r in He. rewrite (Hsplit x), (Hsplit y). lia.
Qed.

Lemma iter_bit_range n x : is_u 32 x → is_u 32 (Nat.iter n crc32_bit x).
Proof. intros Hx. induction n; [done|]. by apply crc32_bit_range. Qed.

Lemma iter_bit_inj n x y :
  is_u 32 x → is_u 32 y → Nat.iter n crc32_bit x = Nat.iter n crc32_bit y → x = y.
Proof.
  intros Hx Hy. induction n as [|n IH]; [done|]. cbn. intros H%crc32_bit_inj; [auto|by apply iter_bit_range..].
Qed.

Lemma is_u_weaken w w' z : is_u w z → w ≤ w' → is_u w' z.
Proof. unfold is_u. intros. pose proof (Z.pow_le_mono_r 2 w w'). lia. Qed.

Lemma crc32_step_range c v : is_u 32 c → is_u 8 v → is_u 32 (crc32_step c v).
Proof.
  intros Hc Hv. apply iter_bit_range, is_u_lxor; [lia|done|]. by eapply is_u_weaken; [apply Hv|].
Qed.

Lemma crc32_fold_range bs : ∀ c, bytes bs → is_u 32 c → is_u 32 (foldl crc32_step c bs).
Proof.
  induction bs as [|b bs IH]; intros c Hb Hc; [done|]. inversion_clear Hb. cbn.
  apply IH; [done|]. by apply crc32_step_range.
Qed.

Lemma crc32_step_inj_l c d v :
  is_u 32 c → is_u 32 d → is_u 8 v → crc32_step c v = crc32_step d v → c = d.
Proof.
  intros Hc Hd Hv H. apply (lxor_inj_r c d v), (iter_bit_inj 8); [..|exact H];
    (apply is_u_lxor; [lia|done|by eapply is_u_weaken; [apply Hv|]]).
Qed.

Lemma crc32_fold_inj bs : ∀ c d,
  bytes bs → is_u 32 c → is_u 32 d → foldl crc32_step c bs = foldl crc32_step d bs → c = d.
Proof.
  induction bs as [|b bs IH]; intros c d Hb Hc Hd; [done|]. inversion_clear Hb. cbn.
  intros He%IH; [|done|by apply crc32_step_range..]. by eapply crc32_step_inj_l.
Qed.

Lemma imap_fold_zeroed (g : Z → Z → Z) bs : ∀ n c,
  foldl (λ crc '(i, v), crc32_step crc (g i v)) c (imap (λ i v, (Z.of_nat (n + i), v)) bs) =
  foldl crc32_step c (imap (λ i v, g (Z.of_nat (n + i)) v) bs).
Proof.
  induction bs as [|b bs IH]; intros n c; [done|]. cbn. rewrite Nat.add_0_r.
  specialize (IH (S n)). cbn in IH.
  rewrite (imap_ext _ (λ i v, (Z.of_nat (S (n + i)), v))) by (intros; cbn; do 2 f_equal; lia).
  rewrite IH. f_equal. apply imap_ext. intros; cbn. do 2 f_equal. lia.
Qed.

Lemma imap_zeroed bs start len :
  0 ≤ start → 0 ≤ len → start + len ≤ zlen bs →
  imap (λ i v, if bool_decide (start ≤ Z.of_nat (0 + i) < start + len) then 0 else v) bs =
  splice bs start (replicate (Z.to_nat len) 0).
Proof.
  intros. apply list_eq. intros i. rewrite list_lookup_imap. unfold splice.
  assert (length (take (Z.to_nat start) bs) = Z.to_nat start) by (rewrite length_take; lia).
  destruct (decide (Z.of_nat i < start)).
  { rewrite lookup_app_l, lookup_take_lt by lia.
    destruct (bs !! i); cbn; [|done]. by rewrite bool_decide_false by lia. }
  rewrite lookup_app_r by lia. destruct (decide (Z.of_nat i < start + len)).
  - rewrite lookup_app_l, lookup_replicate_2 by (rewrite ?length_replicate; lia).
    destruct (lookup_lt_is_Some_2 bs i) as [v ->]; [lia|]. cbn. by rewrite bool_decide_true by lia.
  - rewrite lookup_app_r, lookup_drop by (rewrite length_replicate; lia).
    rewrite length_replicate.
    replace (Z.to_nat start + Z.to_nat len + (i - length (take (Z.to_nat start) bs) - Z.to_nat len))%nat
      with i by lia.
    destruct (bs !! i); cbn; [|done]. by rewrite bool_decide_false by lia.
Qed.

(** the checksum does its job.  Computing the CRC with a range read as
    zero equals the CRC of the bytes with that range zeroed, and altering any
    one byte of a byte string always changes its CRC. *)
Theorem crc32_correct :
  (∀ bs start len, 0 ≤ start → 0 ≤ len → start + len ≤ zlen bs →
     crc32_with_zeroed_range bs start len = crc32 (splice bs start (replicate (Z.to_nat len) 0))) ∧
  (∀ pre suf a b, bytes (pre ++ [a] ++ suf) → is_u 8 b → a ≠ b →
     crc32 (pre ++ [a] ++ suf) ≠ crc32 (pre ++ [b] ++ suf)).
Proof.
  split.
  - intros bs start len ? ? ?. unfold crc32_with_zeroed_range, crc32. f_equal.
    rewrite <- imap_zeroed by done.
    exact (imap_fold_zeroed (λ i v, if bool_decide (start ≤ i < start + len) then 0 else v) bs 0 _).
  - intros pre suf a b Hb Hbb Hne He. apply Forall_app in Hb as [Hp Hb]. cbn in Hb.
    inversion_clear Hb as [|? ? Ha Hs].
    assert (is_u 32 (bnot 32 0)) as Hz by done.
    pose proof (crc32_fold_range pre _ Hp Hz) as Hc. apply bnot_inj in He.
    2,3: apply crc32_fold_range; [|done]; apply Forall_app; split; [done|by constructor].
    rewrite !foldl_app in He. cbn in He. set (c := foldl crc32_step (bnot 32 0) pre) in *.
    apply crc32_fold_inj in He; [|done|by apply crc32_step_range..].
    apply (iter_bit_inj 8) in He. 2,3: apply is_u_lxor; [lia|done|]. 2,3: by apply (is_u_weaken 8).
    rewrite !(Z.lxor_comm c) in He. by apply lxor_inj_r in He.
Qed.

Lemma crc32_correct_witness : crc32 ([1; 2] ++ [3] ++ [4]) ≠ crc32 ([1; 2] ++ [7] ++ [4]).
Proof.
  apply (proj2 crc32_correct [1; 2] [4] 3 7); [|vm_compute; intuition congruence|congruence].
  repeat constructor; vm_compute; intuition congruence.
Defined.

(** ** The header *)

(** The conditions a header has to meet, in the order they are checked: the
    signature, the size field, the checksum of that many bytes with the
    checksum field zeroed, and the fields themselves. *)
Definition signed (h : list Z) : Prop := take 8 h = GPT_SIGNATURE.
Definition header_sized (h : list Z) : Prop := 92 ≤ le_at h 12 4 ≤ zlen h.
Definition header_sum_ok (h : list Z) : Prop :=
  crc32 (splice (take (Z.to_nat (le_at h 12 4)) h) 16 [0; 0; 0; 0]) = le_at h 16 4.
Definition fields_ok (h : list Z) : Prop :=
  le_at h 24 8 = 1 ∧ 1 < le_at h 32 8 ∧ le_at h 40 8 ≤ le_at h 48 8 ∧ 48 ≤ le_at h 84 4.

#[global] Instance signed_dec h : Decision (signed h).
Proof. unfold signed. apply _. Defined.
#[global] Instance header_sized_dec h : Decision (header_sized h).
Proof. unfold header_sized. apply _. Defined.
#[global] Instance header_sum_ok_dec h : Decision (header_sum_ok h).
Proof. unfold header_sum_ok. apply _. Defined.
#[global] Instance fields_ok_dec h : Decision (fields_ok h).
Proof. unfold fields_ok. apply _. Defined.

Definition valid_header (h : list Z) : Prop :=
  signed h ∧ header_sized h ∧ header_sum_ok h ∧ fields_ok h.

(** The layout a valid header describes. *)
Definition header_layout (h : list Z) : HeaderLayout :=
  {| first_usable_lba := le_at h 40 8; last_usable_lba := le_at h 48 8;
     entry_lba := le_at h 72 8; entry_count := le_at h 80 4; entry_size := le_at h 84 4;
     entry_bytes := le_at h 80 4 * le_at h 84 4; entries_crc := le_at h 88 4 |}.

Lemma slice_take {A} (l : list A) a n m :
  0 ≤ a → a + Z.of_nat n ≤ zlen l → m = a + Z.of_nat n →
  slice l a m = Some (take n (drop (Z.to_nat a) l)).
Proof.
  intros ? ? ->. rewrite slice_in by lia. do 2 f_equal. lia.
Qed.

Lemma read_u32_at h o : 0 ≤ o → o + 4 ≤ zlen h → read_u32 h o = Ok (le_at h o 4).
Proof. intros. unfold read_u32. by rewrite (slice_take h o 4) by lia. Qed.
Lemma read_u64_at h o : 0 ≤ o → o + 8 ≤ zlen h → read_u64 h o = Ok (le_at h o 8).
Proof. intros. unfold read_u64. by rewrite (slice_take h o 8) by lia. Qed.

Lemma le_at_range h o n : bytes h → is_u (8 * Z.of_nat n) (le_at h o n).
Proof.
  intros Hb. unfold le_at. set (x := take n _).
  assert (bytes x) as Hx by by apply Forall_take, Forall_drop.
  apply from_le_range in Hx. apply (is_u_weaken _ _ _ Hx). subst x. rewrite length_take. lia.
Qed.

Lemma signed_spec h : slice h 0 (zlen GPT_SIGNATURE) = Some GPT_SIGNATURE ↔ signed h.
Proof.
  unfold signed. change (zlen GPT_SIGNATURE) with 8. destruct (decide (8 ≤ zlen h)).
  - rewrite slice_in by lia. change (Z.to_nat (8 - 0)) with 8%nat. rewrite drop_0.
    split; [by intros [= ->]|by intros ->].
  - rewrite slice_out by lia. split; [done|]. intros H%(f_equal length).
    rewrite length_take in H. change (length GPT_SIGNATURE) with 8%nat in H. lia.
Qed.

(** On a header of the size it claims every field can be read. *)
Lemma parse_sized_header h :
  bytes h → signed h → header_sized h →
  parse_header h = if decide (header_sum_ok h) then
                     if decide (fields_ok h) then Ok (header_layout h) else Err InvalidHeader
                   else Err InvalidHeaderCrc.
Proof.
  intros Hb Hs [H92 Hlen]. unfold parse_header. rewrite bool_decide_true by by apply signed_spec.
  cbn [negb]. rewrite !read_u32_at, !read_u64_at by lia. cbn [mbind res_bind].
  unfold MIN_HEADER_SIZE. rewrite (proj2 (Z.leb_le 92 _)), (proj2 (Z.leb_le _ (zlen h))) by lia.
  cbn [negb andb]. rewrite slice_in by lia. rewrite Z.sub_0_r, drop_0. cbn [expect mbind res_bind].
  assert (zlen (take (Z.to_nat (le_at h 12 4)) h) = le_at h 12 4) by (rewrite length_take; lia).
  rewrite (proj1 crc32_correct) by lia. change (replicate (Z.to_nat 4) 0) with [0; 0; 0; 0].
  destruct (Z.eqb_spec (crc32 (splice (take (Z.to_nat (le_at h 12 4)) h) 16 [0; 0; 0; 0]))
              (le_at h 16 4)) as [He|He]; cbn [negb].
  2:{ by rewrite decide_False. }
  rewrite decide_True by done.
  pose proof (le_at_range h 80 4 Hb) as [? ?]. pose proof (le_at_range h 84 4 Hb) as [? ?].
  rewrite (proj2 (checked_mul_Some 64 _ _ _)) by (split; [done|nia]).
  cbn [ok_or mbind res_bind]. unfold PARTITION_END_OFFSET.
  destruct (negb _ || _ || _ || _) eqn:Ef; case_decide as Hf; try done; exfalso.
  - destruct Hf as (? & ? & ? & ?).
    rewrite !orb_true_iff, negb_true_iff, Z.eqb_neq, !Z.leb_le, !Z.ltb_lt in Ef. lia.
  - rewrite !orb_false_iff, negb_false_iff, !Z.leb_gt, !Z.ltb_ge, Z.eqb_eq in Ef.
    apply Hf. unfold fields_ok. lia.
Qed.

Lemma parse_header_spec h :
  bytes h →
  parse_header h =
    if decide (signed h) then
      if decide (header_sized h) then
        if decide (header_sum_ok h) then
          if decide (fields_ok h) then Ok (header_layout h) else Err InvalidHeader
        else Err InvalidHeaderCrc
      else Err InvalidHeader
    else Err InvalidSignature.
Proof.
  intros Hb. destruct (decide (signed h)) as [Hs|Hs].
  2:{ unfold parse_header. by rewrite bool_decide_false by by rewrite signed_spec. }
  destruct (decide (header_sized h)) as [Hz|Hz]; [by apply parse_sized_header|].
  unfold parse_header. rewrite bool_decide_true by by apply signed_spec. cbn [negb].
  destruct (decide (16 ≤ zlen h)) as [|].
  - rewrite (read_u32_at h 12) by lia. cbn [mbind res_bind]. unfold MIN_HEADER_SIZE.
    destruct (_ && _) eqn:E; [|done]. apply andb_true_iff in E as [?%Z.leb_le ?%Z.leb_le].
    by destruct Hz.
  - assert (read_u32 h 12 = Err InvalidHeader) as ->; [|done].
    unfold read_u32. by rewrite slice_out by lia.
Qed.

Lemma parse_header_valid h :
  bytes h → valid_header h → parse_header h = Ok (header_layout h).
Proof.
  intros Hb (? & ? & ? & ?). rewrite parse_header_spec by done. by rewrite !decide_True.
Qed.

Lemma parse_header_ok h l : bytes h → parse_header h = Ok l → layout_ok l.
Proof.
  intros Hb. unfold parse_header. destruct (negb (bool_decide _)); [done|]. intros H.
  inv_bind H. destruct (negb _); [done|]. do 2 inv_bind H. destruct (negb _); [done|].
  do 8 inv_bind H. destruct (negb _ || _ || _ || _) eqn:Ec; [done|]. inv_bind H.
  rewrite !orb_false_iff, !Z.leb_gt, !Z.ltb_ge in Ec. destruct Ec as [[[_ _] ?] ?].
  injection H as <-. repeat match goal with
  | H : read_u32 _ _ = Ok _ |- _ => apply read_u32_Ok in H; [|done]
  | H : read_u64 _ _ = Ok _ |- _ => apply read_u64_Ok in H; [|done]
  | H : ok_or _ _ = Ok _ |- _ => apply ok_or_Ok, checked_mul_Some in H as [-> ?]
  end.
  split; cbn; try done.
Qed.

(** What [match_entry] computes on an entry that lies in the array. *)
Lemma match_entry_spec l entries target i :
  layout_ok l → entry_bytes l ≤ zlen entries → 0 ≤ i < entry_count l →
  match_entry l entries target i =
    if negb (bool_decide (entry_guid l entries i = target)) then Ok None else
    let p := entry_part l entries i in
    if (start_lba p <? first_usable_lba l) || (last_usable_lba l <? end_lba p)
       || (end_lba p <? start_lba p)
    then Err InvalidPartitionLayout else Ok (Some p).
Proof.
  intros Hl Hlen Hi. pose proof (lo_min _ Hl). destruct (lo_bytes _ Hl) as [Hb ?].
  assert (i * entry_size l + entry_size l ≤ entry_bytes l) by nia.
  assert (0 ≤ i * entry_size l) by nia.
  unfold match_entry. rewrite !wrap_small by (rewrite ?wrap_small; unfold is_u; lia).
  set (o := i * entry_size l) in *. set (n := Z.to_nat (entry_size l)).
  rewrite (slice_take _ _ n) by lia. cbn [expect mbind res_bind].
  set (e := take n (drop (Z.to_nat o) entries)).
  assert (He : zlen e = entry_size l) by (unfold e; rewrite length_take, length_drop; lia).
  assert (Hsub : ∀ a k, 0 ≤ a → a + Z.of_nat k ≤ entry_size l →
    take k (drop (Z.to_nat a) e) = take k (drop (Z.to_nat (o + a)) entries)).
  { intros a k Ha Hk. unfold e. replace n with (Z.to_nat a + (n - Z.to_nat a))%nat by lia.
    rewrite <- take_drop_commute, take_take, drop_drop. f_equal; [lia|]. f_equal. lia. }
  unfold read_u64, TYPE_GUID_SIZE, PARTITION_START_OFFSET, PARTITION_END_OFFSET.
  rewrite (slice_take e 0 16), (slice_take e 32 8), (slice_take e 40 8) by lia.
  rewrite !Hsub, Z.add_0_r by lia. reflexivity.
Qed.

Lemma scan_entries_spec l entries target n : ∀ i,
  layout_ok l → entry_bytes l ≤ zlen entries → 0 ≤ i → i + Z.of_nat n = entry_count l →
  (∀ j, 0 ≤ j < i → entry_guid l entries j ≠ target) →
  match scan_entries l entries target i n with
  | Ok p => ∃ k, first_entry l entries target k ∧ p = entry_part l entries k ∧ usable l p
  | Err InvalidPartitionLayout =>
      ∃ k, first_entry l entries target k ∧ ¬ usable l (entry_part l entries k)
  | Err MissingRoot => ∀ j, 0 ≤ j < entry_count l → entry_guid l entries j ≠ target
  | _ => False
  end.
Proof.
  induction n as [|n IH]; intros i Hl Hlen Hi Hn Hprev; cbn [scan_entries].
  { intros j ?. apply Hprev. lia. }
  rewrite match_entry_spec by (done || lia).
  case_bool_decide as Hg; cbn [negb].
  - assert (first_entry l entries target i) by (split_and!; [lia..|done|done]).
    cbv zeta. destruct (_ || _ || _) eqn:Eu; cbn; exists i; split; try done.
    + rewrite !orb_true_iff, !Z.ltb_lt in Eu. unfold usable. lia.
    + rewrite !orb_false_iff, !Z.ltb_ge in Eu. split; [done|]. unfold usable. lia.
  - cbn. apply IH; try done; try lia. intros j Hj.
    destruct (decide (j = i)) as [->|]; [done|]. apply Hprev. lia.
Qed.

Lemma find_Ok_inv header entries target p :
  bytes header → find_vanta_partition header entries target = Ok p →
  ∃ l, parse_header header = Ok l ∧ layout_ok l ∧ usable l p ∧ ∃ k, p = entry_part l entries k.
Proof.
  intros Hb H. unfold find_vanta_partition in H. inv_bind H. rename x into l.
  pose proof (parse_header_ok _ _ Hb E) as Hl. exists l. split; [done|]. split; [done|].
  destruct (Z.ltb_spec (zlen entries) (entry_bytes l)); [done|]. inv_bind H.
  destruct (negb _); [done|]. destruct (lo_count _ Hl).
  pose proof (scan_entries_spec l entries target (Z.to_nat (entry_count l)) 0 Hl) as Hs.
  rewrite H in Hs. destruct Hs as (k & _ & ? & ?); [lia..|]. eauto.
Qed.

(** C31: the partition scan is exact and total.  On any header bytes and any
    entry bytes [find_vanta_partition] does not panic.  It succeeds exactly
    when the header has the signature, a size that fits, the right checksum
    and consistent fields, the entry array is there with the right checksum,
    and the first entry of the wanted type lies in the usable range; it then
    returns that entry.  Each error is returned exactly when its check is the
    first one that fails. *)
Theorem find_vanta_partition_correct header entries target :
  bytes header →
  let l := header_layout header in
  let array := take (Z.to_nat (le_at header 80 4 * le_at header 84 4)) entries in
  let complete := le_at header 80 4 * le_at header 84 4 ≤ zlen entries in
  let array_ok := crc32 array = le_at header 88 4 in
  match find_vanta_partition header entries target with
  | Ok p => valid_header header ∧ complete ∧ array_ok ∧
      ∃ k, first_entry l entries target k ∧ p = entry_part l entries k ∧ usable l p
  | Err InvalidSignature => ¬ signed header
  | Err InvalidHeader => signed header ∧
      (¬ header_sized header ∨
       header_sized header ∧ header_sum_ok header ∧ (fields_ok header → ¬ complete))
  | Err InvalidHeaderCrc => signed header ∧ header_sized header ∧ ¬ header_sum_ok header
  | Err InvalidPartitionArrayCrc => valid_header header ∧ complete ∧ ¬ array_ok
  | Err InvalidPartitionLayout => valid_header header ∧ complete ∧ array_ok ∧
      ∃ k, first_entry l entries target k ∧ ¬ usable l (entry_part l entries k)
  | Err MissingRoot => valid_header header ∧ complete ∧ array_ok ∧
      ∀ j, 0 ≤ j < le_at header 80 4 → entry_guid l entries j ≠ target
  | Panic => False
  end.
Proof.
  intros Hb l array complete array_ok. unfold find_vanta_partition.
  rewrite parse_header_spec by done.
  destruct (decide (signed header)) as [Hsig|]; [|done].
  destruct (decide (header_sized header)) as [Hsz|]; [|by cbn; auto].
  destruct (decide (header_sum_ok header)) as [Hsum|]; [|by cbn].
  destruct (decide (fields_ok header)) as [Hfl|]; [|by cbn; tauto].
  assert (Hv : valid_header header) by done.
  pose proof (parse_header_ok _ _ Hb (parse_header_valid _ Hb Hv)) as Hl. fold l in Hl |- *.
  cbn [mbind res_bind].
  change (entry_bytes l) with (le_at header 80 4 * le_at header 84 4).
  change (entries_crc l) with (le_at header 88 4).
  destruct (Z.ltb_spec (zlen entries) (le_at header 80 4 * le_at header 84 4)) as [|Hlen].
  { split; [done|]. right. split_and!; [done..|]. intros _. unfold complete. lia. }
  assert (0 ≤ le_at header 80 4 * le_at header 84 4).
  { destruct (lo_count _ Hl), (lo_size _ Hl). cbn in *. nia. }
  rewrite slice_in by lia. cbn [expect]. rewrite Z.sub_0_r, drop_0. cbn [mbind res_bind].
  fold array. destruct (Z.eqb_spec (crc32 array) (le_at header 88 4)) as [Hc|]; cbn [negb]; [|done].
  pose proof (scan_entries_spec l entries target (Z.to_nat (entry_count l)) 0 Hl Hlen) as Hs.
  destruct (lo_count _ Hl). specialize (Hs ltac:(lia) ltac:(lia) ltac:(lia)).
  destruct (scan_entries _ _ _ _ _) as [p|[]|]; done.
Qed.

(** ** Discovery on a disk image *)

(** A device backed by a flat image: sector [lba] is 512 bytes of it. *)
Definition disk_sector (disk : list Z) (lba : Z) : option (list Z) :=
  slice disk (lba * SECTOR_SIZE) (lba * SECTOR_SIZE + SECTOR_SIZE).
Definition disk_bytes (disk : list Z) (lba n : Z) : list Z :=
  take (Z.to_nat n) (drop (Z.to_nat (lba * SECTOR_SIZE)) disk).

Lemma splice_step disk entries start len base :
  0 ≤ start → 0 ≤ len → start + len ≤ zlen entries → 0 ≤ base → base + len ≤ zlen disk →
  take (Z.to_nat (start + len))
       (splice entries start (take (Z.to_nat len) (drop (Z.to_nat base) disk)))
  = take (Z.to_nat start) entries ++ take (Z.to_nat len) (drop (Z.to_nat base) disk)
    :> list Z.
Proof.
  intros. unfold splice. set (src := take _ (drop _ disk)).
  assert (length src = Z.to_nat len) by (unfold src; rewrite length_take, length_drop; lia).
  rewrite app_assoc, take_app_le by (rewrite length_app, length_take; lia).
  apply take_ge. rewrite length_app, length_take. lia.
Qed.

Lemma div_ceil_bounds a : let k := div_ceil a SECTOR_SIZE in a ≤ k * SECTOR_SIZE < a + SECTOR_SIZE.
Proof.
  unfold div_ceil, SECTOR_SIZE. pose proof (Z.div_mod (a + 512 - 1) 512).
  pose proof (Z.mod_pos_bound (a + 512 - 1) 512). lia.
Qed.

Lemma read_entries_disk disk l n : ∀ i entries,
  layout_ok l → zlen disk < 2 ^ 73 → zlen entries = entry_bytes l → 0 ≤ i →
  i + Z.of_nat n = div_ceil (entry_bytes l) SECTOR_SIZE → (entry_lba l + i < 2 ^ 64 ∨ n = O) →
  read_entries (disk_sector disk) l entries i n =
    if bool_decide (n = O ∨ (entry_lba l + i + Z.of_nat n) * SECTOR_SIZE ≤ zlen disk)
    then Ok (take (Z.to_nat (i * SECTOR_SIZE)) entries ++
             disk_bytes disk (entry_lba l + i) (entry_bytes l - i * SECTOR_SIZE))
    else Err InvalidHeader.
Proof.
  pose proof (div_ceil_bounds (entry_bytes l)) as Hk. revert Hk.
  generalize (div_ceil (entry_bytes l) SECTOR_SIZE). unfold disk_bytes, SECTOR_SIZE. intros k Hk.
  induction n as [|n IH]; intros i entries Hl Hd He Hi Hn Hlba; cbn [read_entries].
  { rewrite bool_decide_true by auto. f_equal.
    rewrite take_ge by lia. replace (Z.to_nat (entry_bytes l - i * 512)) with 0%nat by lia.
    by rewrite app_nil_r. }
  destruct Hlba as [Hlba|]; [|done]. destruct (lo_lba _ Hl) as [? _].
  rewrite wrap_small by (unfold is_u; lia). unfold read_gpt_sector, disk_sector, SECTOR_SIZE.
  destruct (decide ((entry_lba l + i + 1) * 512 ≤ zlen disk)) as [Hin|Hout].
  2:{ rewrite slice_out by lia. cbn. by rewrite bool_decide_false by lia. }
  rewrite (slice_take _ _ 512) by lia. cbn [ok_or mbind res_bind].
  set (base := (entry_lba l + i) * 512). set (len := Z.min (entry_bytes l - i * 512) 512).
  rewrite slice_in by (rewrite ?length_take, ?length_drop; lia). cbn [expect mbind res_bind].
  rewrite Z.sub_0_r, drop_0, take_take.
  replace (Z.to_nat len `min` 512)%nat with (Z.to_nat len) by lia.
  rewrite bool_decide_true by lia.
  rewrite IH; [|done|done| |lia|lia|lia].
  2:{ rewrite length_splice; [done|lia|]. rewrite length_take, length_drop. lia. }
  case_bool_decide as H1; case_bool_decide as H2; try lia; [|done]. f_equal.
  replace ((i + 1) * 512) with (i * 512 + 512) by lia.
  set (sp := splice entries (i * 512) _).
  assert (length sp = Z.to_nat (entry_bytes l)).
  { unfold sp. apply Nat2Z.inj. rewrite length_splice; [lia..|]. rewrite length_take, length_drop. lia. }
  assert (take (Z.to_nat (i * 512 + 512)) sp = take (Z.to_nat (i * 512 + len)) sp) as ->.
  { destruct (decide (len = 512)) as [->|]; [done|].
    rewrite (take_ge sp (Z.to_nat (i * 512 + 512))), (take_ge sp (Z.to_nat (i * 512 + len))) by lia.
    done. }
  unfold sp.
  rewrite splice_step, <- app_assoc by lia. f_equal.
  replace (Z.to_nat (entry_bytes l - i * 512)) with
    (Z.to_nat len + Z.to_nat (entry_bytes l - (i * 512 + 512)))%nat by lia.
  rewrite <- take_take_drop, drop_drop. f_equal.
  destruct (decide (len = 512)) as [Hl5|]; [do 2 f_equal; lia|].
  by replace (Z.to_nat (entry_bytes l - (i * 512 + 512))) with 0%nat by lia.
Qed.

(** discovery on a disk.  On a disk image the discovery routines hand the
    parser exactly the header sector and the [entry_bytes] bytes of the disk
    at the array's address; they fail with [InvalidHeader] when the array
    runs past the end of the disk, and panic exactly when the header claims
    an array of [2^63] bytes or more. *)
Theorem discover_on_disk disk find header l :
  bytes disk → zlen disk < 2 ^ 73 →
  disk_sector disk 1 = Some header → parse_header header = Ok l →
  discover_partition (disk_sector disk) find =
    if bool_decide (2 ^ 63 ≤ entry_bytes l) then Panic else
    if bool_decide (entry_bytes l = 0 ∨
         (entry_lba l + div_ceil (entry_bytes l) SECTOR_SIZE) * SECTOR_SIZE ≤ zlen disk)
    then find header (disk_bytes disk (entry_lba l) (entry_bytes l))
    else Err InvalidHeader.
Proof.
  intros Hb Hd Hh Hp. pose proof (parse_header_ok _ _ (slice_Forall _ _ _ _ _ Hb Hh) Hp) as Hl.
  unfold discover_partition, read_gpt_sector. rewrite Hh. cbn [ok_or mbind res_bind]. rewrite Hp.
  cbn [mbind res_bind]. unfold vec_zeroed. case_bool_decide as H63.
  { by rewrite (proj2 (Z.leb_le _ _) H63). }
  rewrite (proj2 (Z.leb_gt _ _)) by lia. cbn [mbind res_bind].
  destruct (lo_bytes _ Hl) as [Heb _], (lo_count _ Hl), (lo_size _ Hl), (lo_lba _ Hl).
  assert (0 ≤ entry_bytes l) by nia. pose proof (div_ceil_bounds (entry_bytes l)) as Hk.
  cbv zeta in Hk. unfold SECTOR_SIZE in Hk.
  rewrite read_entries_disk; [|done|done|rewrite length_replicate; lia|lia| |lia].
  2:{ unfold SECTOR_SIZE. lia. }
  unfold SECTOR_SIZE. rewrite Z2Nat.id, Z.add_0_r by lia.
  rewrite (bool_decide_ext _ (entry_bytes l = 0 ∨
    (entry_lba l + div_ceil (entry_bytes l) 512) * 512 ≤ zlen disk)) by lia.
  case_bool_decide; [|done]. cbn [mbind res_bind]. by rewrite Z.mul_0_l, Z.sub_0_r.
Qed.



(** The standard check value of CRC-32: the sum of the digits [1] to [9]. *)
Example crc32_check_value : crc32 [49; 50; 51; 52; 53; 54; 55; 56; 57] = 0xcbf43926.
Proof. vm_compute. reflexivity. Qed.

(** C35: block I/O through a discovered partition stays inside it.  Every
    relative address that [absolute_lba] accepts is translated to a sector of
    the partition, which lies in the usable range of the disk; and every
    sector of the partition is reachable, unless it is the whole 64-bit range
    of sectors (see [whole_range_unreachable]). *)
Theorem partition_confined header entries target p :
  bytes header → find_vanta_partition header entries target = Ok p →
  ∃ l, parse_header header = Ok l ∧
  (∀ rel a, is_u 64 rel → absolute_lba p rel = Some a →
     a = start_lba p + rel ∧ start_lba p ≤ a ≤ end_lba p ∧
     first_usable_lba l ≤ a ≤ last_usable_lba l) ∧
  (∀ a, start_lba p ≤ a ≤ end_lba p → (start_lba p ≠ 0 ∨ end_lba p ≠ 2 ^ 64 - 1) →
     absolute_lba p (a - start_lba p) = Some a).
Proof.
  intros Hb Hf. destruct (find_Ok_inv _ _ _ _ Hb Hf) as (l & Hp & Hl & Hu & k & ->).
  exists l. split; [done|]. destruct Hu as (Hu1 & Hu2 & Hu3).
  destruct (lo_first _ Hl), (lo_last _ Hl). clear Hf. generalize dependent (entry_part l entries k). intros p Hu1 Hu2 Hu3.
  unfold absolute_lba, sector_count.
  rewrite (wrap_small 64 (end_lba p - start_lba p)) by (unfold is_u; lia).
  split.
  - intros rel a [? ?]. destruct (Z.leb_spec (u64 (end_lba p - start_lba p + 1)) rel) as [|Hr]; [done|].
    intros [= <-].
    assert (rel ≤ end_lba p - start_lba p).
    { unfold wrap in Hr. pose proof (Z.mod_le (end_lba p - start_lba p + 1) (2 ^ 64)). lia. }
    rewrite wrap_small by (unfold is_u; lia). lia.
  - intros a Ha Hne. rewrite wrap_small by (unfold is_u; lia).
    destruct (Z.leb_spec (end_lba p - start_lba p + 1) (a - start_lba p)); [lia|].
    rewrite wrap_small by (unfold is_u; lia). f_equal. lia.
Qed.

(** ** A concrete disk *)

Definition put_at (bs : list Z) (offset : Z) (n : nat) (v : Z) : list Z :=
  splice bs offset (to_le n v).

(** A 92-byte header in one sector, with a correct header CRC. *)
Definition sample_header (count size crc : Z) : list Z :=
  let h := splice (replicate 512 0) 0 GPT_SIGNATURE in
  let h := put_at h 12 4 92 in
  let h := put_at h 24 8 1 in
  let h := put_at h 32 8 63 in
  let h := put_at h 40 8 4 in
  let h := put_at h 48 8 60 in
  let h := put_at h 72 8 2 in
  let h := put_at h 80 4 count in
  let h := put_at h 84 4 size in
  let h := put_at h 88 4 crc in
  put_at h 16 4 (crc32_with_zeroed_range (take 92 h) 16 4).

(** Two entries: one of another type, then a root partition 8..40. *)
Definition sample_entries : list Z :=
  let e := replicate 256 0 in
  let e := splice e 0 VANTA_SWAP_TYPE_GUID in
  let e := splice e 128 VANTA_ROOT_TYPE_GUID in
  put_at (put_at e 160 8 8) 168 8 40.

Definition sample_disk : list Z :=
  replicate 512 0 ++ sample_header 2 128 (crc32 sample_entries) ++ sample_entries ++ replicate 256 0.

#[local] Ltac solve_bytes := apply (bool_decide_unpack _); vm_compute; exact I.

Lemma find_vanta_partition_correct_witness :
  valid_header (sample_header 2 128 (crc32 sample_entries)) ∧
  ∃ k, first_entry (header_layout (sample_header 2 128 (crc32 sample_entries)))
         sample_entries VANTA_ROOT_TYPE_GUID k ∧
    entry_part (header_layout (sample_header 2 128 (crc32 sample_entries))) sample_entries k
      = {| start_lba := 8; end_lba := 40 |}.
Proof.
  pose proof (find_vanta_partition_correct
    (sample_header 2 128 (crc32 sample_entries)) sample_entries VANTA_ROOT_TYPE_GUID) as H.
  assert (bytes (sample_header 2 128 (crc32 sample_entries))) as Hb by solve_bytes.
  specialize (H Hb). cbv zeta in H.
  replace (find_vanta_partition _ _ _) with (Ok {| start_lba := 8; end_lba := 40 |}
    : res GptError RootPartition) in H by (vm_compute; reflexivity).
  destruct H as (Hv & _ & _ & k & ? & ? & _). split; [exact Hv|]. by exists k.
Defined.

Lemma discover_on_disk_witness :
  discover_vanta_root (disk_sector sample_disk) = Ok {| start_lba := 8; end_lba := 40 |}.
Proof.
  unfold discover_vanta_root. destruct (disk_sector sample_disk 1) as [h|] eqn:Eh; [|done].
  destruct (parse_header h) as [l|e|] eqn:Ep; vm_compute in Eh; injection Eh as <-;
    vm_compute in Ep; [|done..].
  erewrite (discover_on_disk sample_disk find_vanta_root); [..|reflexivity|exact Ep];
    [injection Ep as <-; vm_compute; reflexivity|solve_bytes|vm_compute; reflexivity].
Defined.

Lemma partition_confined_witness :
  absolute_lba {| start_lba := 8; end_lba := 40 |} 32 = Some 40 ∧
  absolute_lba {| start_lba := 8; end_lba := 40 |} 33 = None.
Proof.
  destruct (partition_confined (sample_header 2 128 (crc32 sample_entries)) sample_entries
    VANTA_ROOT_TYPE_GUID {| start_lba := 8; end_lba := 40 |}) as (l & Hp & _ & H);
    [solve_bytes|vm_compute; reflexivity|].
  split; [|reflexivity]. apply (H 40); [cbn; lia|]. left. discriminate.
Defined.

(** A header whose usable range is all of the 2^64 sectors, and a partition
    that fills it. *)
Definition whole_entries : list Z :=
  put_at (put_at (splice (replicate 128 0) 0 VANTA_ROOT_TYPE_GUID) 32 8 0) 40 8 (2 ^ 64 - 1).
Definition whole_header : list Z :=
  let h := sample_header 1 128 (crc32 whole_entries) in
  let h := put_at (put_at h 40 8 0) 48 8 (2 ^ 64 - 1) in
  put_at h 16 4 (crc32_with_zeroed_range (take 92 h) 16 4).

(** A partition of sectors 0 to 2^64 - 1 is accepted, but its sector count
    wraps to 0, so that no address in it is ever translated. *)
Theorem whole_range_unreachable :
  ∃ p, find_vanta_root whole_header whole_entries = Ok p ∧ start_lba p = 0 ∧
    end_lba p = 2 ^ 64 - 1 ∧ sector_count p = 0 ∧ ∀ rel, 0 ≤ rel → absolute_lba p rel = None.
Proof.
  exists {| start_lba := 0; end_lba := 2 ^ 64 - 1 |}. split_and!; [by vm_compute..|].
  intros rel ?. unfold absolute_lba.
  replace (sector_count _) with 0 by by vm_compute. destruct (Z.leb_spec 0 rel); [done|lia].
Qed.

(** a hostile header stops the boot.  A disk whose header carries correct
    checksums but claims 2^32 - 1 entries of 2^32 - 1 bytes makes discovery
    panic (the entry buffer exceeds the allocator's maximum) instead of
    reporting [InvalidHeader]. *)
Theorem discover_panics_on_huge_array :
  discover_vanta_root
    (disk_sector (replicate 512 0 ++ sample_header (2 ^ 32 - 1) (2 ^ 32 - 1) 0)) = Panic.
Proof. vm_compute. reflexivity. Qed.
