(* ===== verification/Buddy.v ===== *)
(** * The physical frame allocator ([rust/kernel/src/memory.rs])

    A binary buddy allocator over frame numbers: eleven doubly linked free
    lists threaded through the [next_free]/[prev_free] arrays, a flag byte
    and a reference count per frame.  Every array access is the checked one
    of the source: out of range is [Panic]. *)

From stdpp Require Import gmap.
From S2P Require Import Prelude Words.

Definition PAGE_SIZE : Z := 4096.
Definition MAX_ORDER : Z := 11.
Definition MAX_SUPPORTED_FRAMES : Z := 16777216.
Definition NONE : Z := 2 ^ 32 - 1.

Definition FLAG_ALLOCATED : Z := Z.shiftl 1 4.
Definition FLAG_FREE : Z := Z.shiftl 1 5.
Definition FLAG_RESERVED : Z := Z.shiftl 1 6.
Definition ORDER_MASK : Z := 0x0F.

Record MemoryStats := {
  usable_bytes : Z; usable_frames : Z; tracked_frames : Z; map_entries : Z }.

Record BuddyAllocator := {
  free_lists : list (option Z);
  next_free : list Z; prev_free : list Z; flags : list Z; refcounts : list Z;
  total_usable_frames : Z; free_frames : Z; max_pfn : Z }.

Abbreviation op := (res Empty_set).

Definition with_lists (s : BuddyAllocator) (h : list (option Z)) (nx pv : list Z) : BuddyAllocator :=
  {| free_lists := h; next_free := nx; prev_free := pv; flags := flags s;
     refcounts := refcounts s; total_usable_frames := total_usable_frames s;
     free_frames := free_frames s; max_pfn := max_pfn s |}.
Definition with_flags (s : BuddyAllocator) (f : list Z) : BuddyAllocator :=
  {| free_lists := free_lists s; next_free := next_free s; prev_free := prev_free s; flags := f;
     refcounts := refcounts s; total_usable_frames := total_usable_frames s;
     free_frames := free_frames s; max_pfn := max_pfn s |}.
Definition with_refcounts (s : BuddyAllocator) (r : list Z) : BuddyAllocator :=
  {| free_lists := free_lists s; next_free := next_free s; prev_free := prev_free s;
     flags := flags s; refcounts := r; total_usable_frames := total_usable_frames s;
     free_frames := free_frames s; max_pfn := max_pfn s |}.
Definition with_counts (s : BuddyAllocator) (total free : Z) : BuddyAllocator :=
  {| free_lists := free_lists s; next_free := next_free s; prev_free := prev_free s;
     flags := flags s; refcounts := refcounts s; total_usable_frames := total;
     free_frames := free; max_pfn := max_pfn s |}.

(** [self.flags[pfn] = v] and the like. *)
Definition set_flag (s : BuddyAllocator) (pfn v : Z) : op BuddyAllocator :=
  f ← expect (update (flags s) pfn v); Ok (with_flags s f).
Definition set_refcount (s : BuddyAllocator) (pfn v : Z) : op BuddyAllocator :=
  r ← expect (update (refcounts s) pfn v); Ok (with_refcounts s r).

(** ** Free lists *)

Definition list_push (s : BuddyAllocator) (order pfn : Z) : op BuddyAllocator :=
  if max_pfn s <=? pfn then Ok s else
  head ← expect (index (free_lists s) order);
  nx ← expect (update (next_free s) pfn (match head with Some h => u32 h | None => NONE end));
  pv ← expect (update (prev_free s) pfn NONE);
  pv ← match head with
       | Some h => if h <? max_pfn s then expect (update pv h (u32 pfn)) else Ok pv
       | None => Ok pv
       end;
  heads ← expect (update (free_lists s) order (Some pfn));
  set_flag (with_lists s heads nx pv) pfn (Z.lor (Z.land (u8 order) ORDER_MASK) FLAG_FREE).

(** [q != NONE && (q as usize) < self.max_pfn] *)
Definition linked (s : BuddyAllocator) (q : Z) : bool := negb (q =? NONE) && (q <? max_pfn s).

Definition list_remove (s : BuddyAllocator) (order pfn : Z) : op BuddyAllocator :=
  if max_pfn s <=? pfn then Ok s else
  prev ← expect (index (prev_free s) pfn);
  next ← expect (index (next_free s) pfn);
  '(heads, nx) ←
    (if linked s prev then
       nx ← expect (update (next_free s) prev next); Ok (free_lists s, nx)
     else
       h ← expect (index (free_lists s) order);
       if bool_decide (h = Some pfn) then
         heads ← expect (update (free_lists s) order (if linked s next then Some next else None));
         Ok (heads, next_free s)
       else Ok (free_lists s, next_free s));
  pv ← (if linked s next then expect (update (prev_free s) next prev) else Ok (prev_free s));
  pv ← expect (update pv pfn NONE);
  nx ← expect (update nx pfn NONE);
  f ← expect (index (flags s) pfn);
  set_flag (with_lists s heads nx pv) pfn (Z.land f (bnot 8 FLAG_FREE)).

Definition list_pop (s : BuddyAllocator) (order : Z) : op (BuddyAllocator * option Z) :=
  head ← expect (index (free_lists s) order);
  match head with
  | None => Ok (s, None)
  | Some h => s ← list_remove s order h; Ok (s, Some h)
  end.

(** ** Adding a range of usable memory *)

Definition align_up (address : Z) : Z :=
  Z.land (saturating_add 64 address (PAGE_SIZE - 1)) (bnot 64 (PAGE_SIZE - 1)).

(** The inner loop: the largest order at most [order] that fits at [start]. *)
Fixpoint fit_order (order : nat) (start end_ : Z) : nat :=
  match order with
  | O => O
  | S k =>
    let block_size := Z.shiftl 1 (Z.of_nat order) in
    if (start + block_size <=? end_) && (Z.land start (block_size - 1) =? 0)
    then order else fit_order k start end_
  end.

Fixpoint add_blocks (fuel : nat) (s : BuddyAllocator) (start end_ : Z) : op BuddyAllocator :=
  if end_ <=? start then Ok s else
  match fuel with
  | O => Panic
  | S fuel' =>
    let order := Z.of_nat (fit_order (Z.to_nat (MAX_ORDER - 1)) start end_) in
    s ← list_push s order start;
    add_blocks fuel' s (start + Z.shiftl 1 order) end_
  end.

(** Each block has at least one frame, so [end_ - start] rounds suffice. *)
Definition add_range (s : BuddyAllocator) (base length : Z) : op (BuddyAllocator * Z) :=
  match checked_add 64 base length with
  | None => Ok (s, 0)
  | Some end_ =>
    let first := Z.max (align_up base) PAGE_SIZE in
    let last := Z.land end_ (bnot 64 (PAGE_SIZE - 1)) in
    if last <=? first then Ok (s, 0) else
    let start_pfn := first / PAGE_SIZE in
    let end_pfn := Z.min (last / PAGE_SIZE) (max_pfn s) in
    if end_pfn <=? start_pfn then Ok (s, 0) else
    let frames_added := end_pfn - start_pfn in
    let s := with_counts s (u64 (total_usable_frames s + frames_added))
                           (u64 (free_frames s + frames_added)) in
    s ← add_blocks (Z.to_nat frames_added) s start_pfn end_pfn;
    Ok (s, frames_added)
  end.

(** ** Allocation *)

(** The search for a non-empty list; [n] is [MAX_ORDER - current_order]. *)
Fixpoint find_order (n : nat) (s : BuddyAllocator) (current_order : Z) : op Z :=
  match n with
  | O => Ok current_order
  | S n' =>
    h ← expect (index (free_lists s) current_order);
    match h with
    | None => find_order n' s (current_order + 1)
    | Some _ => Ok current_order
    end
  end.

(** Splitting down; [n] is [current_order - order]. *)
Fixpoint split_down (n : nat) (s : BuddyAllocator) (current_order pfn : Z) : op BuddyAllocator :=
  match n with
  | O => Ok s
  | S n' =>
    let current_order := current_order - 1 in
    s ← list_push s current_order (pfn + Z.shiftl 1 current_order);
    split_down n' s current_order pfn
  end.

Definition alloc_order (s : BuddyAllocator) (order : Z) : op (BuddyAllocator * option Z) :=
  if MAX_ORDER <=? order then Ok (s, None) else
  current_order ← find_order (Z.to_nat (MAX_ORDER - order)) s order;
  if MAX_ORDER <=? current_order then Ok (s, None) else
  '(s, p) ← list_pop s current_order;
  match p with
  | None => Ok (s, None)
  | Some pfn =>
    s ← split_down (Z.to_nat (current_order - order)) s current_order pfn;
    s ← set_flag s pfn (Z.lor (Z.land (u8 order) ORDER_MASK) FLAG_ALLOCATED);
    s ← set_refcount s pfn 1;
    Ok (with_counts s (total_usable_frames s)
          (saturating_sub (free_frames s) (Z.shiftl 1 order)), Some pfn)
  end.

(** ** Freeing *)

(** Merging with free buddies; [n] is [MAX_ORDER - 1 - order]. *)
Fixpoint coalesce (n : nat) (s : BuddyAllocator) (pfn order : Z) : op (BuddyAllocator * Z * Z) :=
  match n with
  | O => Ok (s, pfn, order)
  | S n' =>
    let buddy_pfn := Z.lxor pfn (Z.shiftl 1 order) in
    if max_pfn s <=? buddy_pfn then Ok (s, pfn, order) else
    buddy_flags ← expect (index (flags s) buddy_pfn);
    let buddy_order := Z.land buddy_flags ORDER_MASK in
    let buddy_is_free := negb (Z.land buddy_flags FLAG_FREE =? 0) in
    if buddy_is_free && (buddy_order =? order) then
      s ← list_remove s order buddy_pfn;
      coalesce n' s (Z.min pfn buddy_pfn) (order + 1)
    else Ok (s, pfn, order)
  end.

Definition free_order (s : BuddyAllocator) (pfn order : Z) : op BuddyAllocator :=
  let block_size := Z.shiftl 1 order in
  let s := with_counts s (total_usable_frames s) (u64 (free_frames s + block_size)) in
  f ← expect (index (flags s) pfn);
  s ← set_flag s pfn (Z.land f (bnot 8 FLAG_ALLOCATED));
  '(s, pfn, order) ← coalesce (Z.to_nat (MAX_ORDER - 1 - order)) s pfn order;
  list_push s order pfn.

(** [PhysFrame] is its start address. *)
Definition alloc (s : BuddyAllocator) : op (BuddyAllocator * option Z) :=
  '(s, p) ← alloc_order s 0;
  Ok (s, option_map (λ pfn, u64 (pfn * PAGE_SIZE)) p).

Definition bad_frame (addr : Z) : bool :=
  (addr =? 0) || negb (Z.land addr (PAGE_SIZE - 1) =? 0).

Definition free (s : BuddyAllocator) (addr : Z) : op (BuddyAllocator * bool) :=
  if bad_frame addr then Ok (s, false) else
  let pfn := addr / PAGE_SIZE in
  if max_pfn s <=? pfn then Ok (s, false) else
  current_ref ← expect (index (refcounts s) pfn);
  if 1 <? current_ref then
    s ← set_refcount s pfn (current_ref - 1); Ok (s, true)
  else if current_ref =? 1 then
    s ← set_refcount s pfn 0;
    f ← expect (index (flags s) pfn);
    s ← free_order s pfn (Z.land f ORDER_MASK);
    Ok (s, true)
  else Ok (s, false).

(** ** Reserving one frame *)

(** Carving [pfn] out of the block at [cur_head]; [n] is [cur_order]. *)
Fixpoint carve (n : nat) (s : BuddyAllocator) (pfn cur_head : Z) : op BuddyAllocator :=
  match n with
  | O => Ok s
  | S n' =>
    let cur_order := Z.of_nat n' in
    let half := Z.shiftl 1 cur_order in
    let lower := cur_head in
    let upper := cur_head + half in
    if pfn <? upper then
      s ← list_push s cur_order upper; carve n' s pfn lower
    else
      s ← list_push s cur_order lower; carve n' s pfn upper
  end.

(** The scan over orders for the free block that contains [pfn]; [n] is
    [MAX_ORDER - order]. *)
Fixpoint reserve_scan (n : nat) (s : BuddyAllocator) (pfn order : Z) : op BuddyAllocator :=
  match n with
  | O =>
    f ← expect (index (flags s) pfn);
    set_flag s pfn (Z.lor f FLAG_RESERVED)
  | S n' =>
    let block_size := Z.shiftl 1 order in
    let block_head := Z.land pfn (bnot 64 (block_size - 1)) in
    f ← expect (index (flags s) block_head);
    if negb (Z.land f FLAG_FREE =? 0) && (Z.land f ORDER_MASK =? order) then
      s ← list_remove s order block_head;
      s ← carve (Z.to_nat order) s pfn block_head;
      s ← set_flag s pfn (Z.lor FLAG_RESERVED FLAG_ALLOCATED);
      s ← set_refcount s pfn 1;
      Ok (with_counts s (total_usable_frames s) (saturating_sub (free_frames s) 1))
    else reserve_scan n' s pfn (order + 1)
  end.

Definition reserve (s : BuddyAllocator) (addr : Z) : op (BuddyAllocator * bool) :=
  if bad_frame addr then Ok (s, false) else
  let pfn := addr / PAGE_SIZE in
  if max_pfn s <=? pfn then Ok (s, false) else
  f ← expect (index (flags s) pfn);
  if negb (Z.land f FLAG_ALLOCATED =? 0) || negb (Z.land f FLAG_RESERVED =? 0) then Ok (s, true) else
  s ← reserve_scan (Z.to_nat MAX_ORDER) s pfn 0;
  Ok (s, true).

(** ** Reference counts *)

Definition refcount (s : BuddyAllocator) (pfn : Z) : op Z :=
  if pfn <? max_pfn s then expect (index (refcounts s) pfn) else Ok 0.

Definition ref_inc (s : BuddyAllocator) (pfn : Z) : op BuddyAllocator :=
  if pfn <? max_pfn s then
    r ← expect (index (refcounts s) pfn); set_refcount s pfn (saturating_add 16 r 1)
  else Ok s.

Definition ref_dec (s : BuddyAllocator) (pfn : Z) : op (BuddyAllocator * Z) :=
  if pfn <? max_pfn s then
    r ← expect (index (refcounts s) pfn);
    let new_ref := saturating_sub r 1 in
    s ← set_refcount s pfn new_ref; Ok (s, new_ref)
  else Ok (s, 0).

(** ** Boot *)

(** An entry of the boot loader's memory map. *)
Record Entry := { base : Z; len : Z; usable : bool }.
#[export] Instance Entry_eq_dec : EqDecision Entry.
Proof. solve_decision. Defined.

Definition max_usable_phys (entries : list Entry) : Z :=
  foldl (λ m e, if usable e then Z.max m (saturating_add 64 (base e) (len e)) else m) 0 entries.
Definition total_usable_bytes (entries : list Entry) : Z :=
  foldl (λ t e, if usable e then saturating_add 64 t (len e) else t) 0 entries.

(** [next_free], [prev_free], [flags] and [refcounts] take 4 + 4 + 1 + 2
    bytes per frame. *)
Definition meta_bytes_aligned (max : Z) : Z :=
  Z.land (u64 (u64 (u64 (max * (4 * 2 + 1 + 2)) + PAGE_SIZE) - 1)) (bnot 64 (PAGE_SIZE - 1)).

(** The largest usable entry that can hold the metadata, the first of equals. *)
Definition choose_entry (entries : list Entry) (need : Z) : option Entry :=
  foldl (λ chosen e,
    if usable e && (need <=? len e)
    then match chosen with
         | None => Some e
         | Some c => if len c <? len e then Some e else Some c
         end
    else chosen) None entries.

(** Virtual addresses of the four metadata arrays. *)
Definition array_addresses (meta_virt max : Z) : Z * Z * Z * Z :=
  let next_free_ptr := meta_virt in
  let prev_free_ptr := next_free_ptr + 4 * max in
  let flags_ptr := prev_free_ptr + 4 * max in
  let refcounts_ptr := flags_ptr + max in
  (next_free_ptr, prev_free_ptr, flags_ptr, refcounts_ptr).

Definition fresh (max : Z) : BuddyAllocator :=
  let n := Z.to_nat max in
  {| free_lists := replicate (Z.to_nat MAX_ORDER) None;
     next_free := replicate n NONE; prev_free := replicate n NONE;
     flags := replicate n 0; refcounts := replicate n 0;
     total_usable_frames := 0; free_frames := 0; max_pfn := max |}.

(** Marking the [n] metadata frames from [pfn] on. *)
Fixpoint mark_meta (n : nat) (s : BuddyAllocator) (pfn : Z) : op BuddyAllocator :=
  match n with
  | O => Ok s
  | S n' =>
    s ← set_flag s pfn (Z.lor FLAG_RESERVED FLAG_ALLOCATED);
    s ← set_refcount s pfn 1;
    mark_meta n' s (pfn + 1)
  end.

Definition add_entry (chosen : Entry) (meta_phys_base meta_len : Z) (s : BuddyAllocator) (e : Entry)
    : op BuddyAllocator :=
  if negb (usable e) then Ok s else
  if (base e =? base chosen) && (len e =? len chosen) then
    s ← (if base chosen <? meta_phys_base
         then '(s, _) ← add_range s (base chosen) (meta_phys_base - base chosen); Ok s
         else Ok s);
    let meta_end := u64 (meta_phys_base + meta_len) in
    let block_end := u64 (base chosen + len chosen) in
    s ← (if meta_end <? block_end
         then '(s, _) ← add_range s meta_end (block_end - meta_end); Ok s
         else Ok s);
    let meta_frames := meta_len / PAGE_SIZE in
    s ← mark_meta (Z.to_nat meta_frames) s (meta_phys_base / PAGE_SIZE);
    Ok (with_counts s (u64 (total_usable_frames s + meta_frames)) (free_frames s))
  else '(s, _) ← add_range s (base e) (len e); Ok s.

Fixpoint add_entries (chosen : Entry) (meta_phys_base meta_len : Z) (s : BuddyAllocator)
    (entries : list Entry) : op BuddyAllocator :=
  match entries with
  | [] => Ok s
  | e :: entries' =>
    s ← add_entry chosen meta_phys_base meta_len s e;
    add_entries chosen meta_phys_base meta_len s entries'
  end.

Definition init (entries : list Entry) (hhdm_offset : Z) : op (BuddyAllocator * MemoryStats) :=
  let raw_max_pfn := saturating_add 64 (max_usable_phys entries) (PAGE_SIZE - 1) / PAGE_SIZE in
  let max := Z.min raw_max_pfn MAX_SUPPORTED_FRAMES in
  let meta_len := meta_bytes_aligned max in
  chosen ← expect (choose_entry entries meta_len);
  let meta_phys_base := align_up (base chosen) in
  _ ← expect (checked_add 64 hhdm_offset meta_phys_base);
  s ← add_entries chosen meta_phys_base meta_len (fresh max) entries;
  Ok (s, {| usable_bytes := total_usable_bytes entries; usable_frames := free_frames s;
            tracked_frames := total_usable_frames s; map_entries := zlen entries |}).

