(* ===== verification/BuddyLinks.v ===== *)
(** * Frame allocator: the linked free lists

    The arrays of [Buddy] as functions, doubly linked segments, and the
    relation [links s L]: the free list of every order [o] of the state [s]
    is the list [L o].  [list_push] and [list_remove] are list operations
    under it. *)

From stdpp Require Import gmap.
From S2P Require Import Prelude Words Buddy.

(** ** Arrays as functions *)

Definition rd {A} `{Inhabited A} (l : list A) (i : Z) : A := l !!! Z.to_nat i.
Definition wr {A} (l : list A) (i : Z) (x : A) : list A := <[Z.to_nat i := x]> l.

Section arrays.
Context {A : Type} `{Inhabited A}.
Implicit Types (l : list A) (i j : Z).

Lemma index_rd {E} l i : 0 ≤ i < zlen l → expect (E := E) (index l i) = Ok (rd l i).
Proof.
  intros Hi. unfold index, rd. rewrite bool_decide_true by done.
  destruct (lookup_lt_is_Some_2 l (Z.to_nat i)) as [x Hx]; [lia|].
  by rewrite (list_lookup_total_correct _ _ _ Hx), Hx.
Qed.

Lemma update_wr {E} l i x : 0 ≤ i < zlen l → expect (E := E) (update l i x) = Ok (wr l i x).
Proof. intros Hi. unfold update. by rewrite bool_decide_true. Qed.

Lemma length_wr l i x : length (wr l i x) = length l.
Proof. apply length_insert. Qed.

Lemma rd_wr l i j x :
  0 ≤ i < zlen l → 0 ≤ j → rd (wr l i x) j = if decide (i = j) then x else rd l j.
Proof.
  intros Hi Hj. unfold rd, wr. case_decide as Hc.
  - subst. apply list_lookup_total_insert_eq. lia.
  - apply list_lookup_total_insert_ne. lia.
Qed.

Lemma rd_wr_eq l i x : 0 ≤ i < zlen l → rd (wr l i x) i = x.
Proof. intros. rewrite rd_wr by lia. by rewrite decide_True. Qed.
Lemma rd_wr_ne l i j x : 0 ≤ i < zlen l → 0 ≤ j → i ≠ j → rd (wr l i x) j = rd l j.
Proof. intros. rewrite rd_wr by lia. by rewrite decide_False. Qed.
End arrays.

(** ** Doubly linked segments *)

Section segments.
Implicit Types (nx pv : Z → Z) (l : list Z).

(** [l] is threaded through [nx]/[pv], entered from [prev], left to [next]. *)
Fixpoint seg nx pv (prev : Z) l (next : Z) : Prop :=
  match l with
  | [] => True
  | p :: l' => pv p = prev ∧ nx p = default next (head l') ∧ seg nx pv p l' next
  end.

Lemma seg_ext nx pv nx' pv' l : ∀ prev next,
  (∀ p, p ∈ l → nx' p = nx p ∧ pv' p = pv p) → seg nx pv prev l next → seg nx' pv' prev l next.
Proof.
  induction l as [|p l IH]; intros prev next Hext; cbn; [done|].
  intros (? & ? & ?). destruct (Hext p) as [-> ->]; [set_solver|]. split_and!; [done..|].
  apply IH; [|done]. intros q ?. apply Hext. set_solver.
Qed.

Lemma seg_app nx pv l1 l2 : ∀ prev next,
  seg nx pv prev (l1 ++ l2) next ↔
  seg nx pv prev l1 (default next (head l2)) ∧ seg nx pv (default prev (last l1)) l2 next.
Proof.
  induction l1 as [|p l1 IH]; intros prev next; [by cbn; tauto|].
  cbn [app seg]. rewrite IH.
  assert (default next (head (l1 ++ l2)) = default (default next (head l2)) (head l1)) as ->
    by by destruct l1.
  assert (default prev (last (p :: l1)) = default p (last l1)) as ->
    by (rewrite last_cons; by destruct (last l1)).
  tauto.
Qed.

(** Redirecting the way out of a segment, and the way in. *)
Lemma seg_set_next nx pv nx' l : ∀ prev next next',
  NoDup l → seg nx pv prev l next →
  (∀ p, last l = Some p → nx' p = next') →
  (∀ p, p ∈ l → last l ≠ Some p → nx' p = nx p) →
  seg nx' pv prev l next'.
Proof.
  induction l as [|p l IH]; intros prev next next' Hnd; cbn [seg]; [done|].
  intros (? & Hn & Hs) Hl Hx. apply NoDup_cons in Hnd as [Hp Hnd]. split; [done|].
  rewrite last_cons in Hl, Hx. destruct l as [|q l].
  - cbn in *. split; [by apply Hl|done].
  - assert (∃ z, last (q :: l) = Some z) as [z Hz].
    { apply last_is_Some. done. }
    rewrite Hz in Hl, Hx. split.
    + rewrite Hx; [done|set_solver|]. intros [= ->]. apply Hp. by apply last_Some_elem_of.
    + apply (IH p next next' Hnd Hs); rewrite Hz; [done|].
      intros r ??. apply Hx; [set_solver|done].
Qed.

Lemma seg_set_prev nx pv pv' l prev prev' next :
  NoDup l → seg nx pv prev l next →
  (∀ p, head l = Some p → pv' p = prev') →
  (∀ p, p ∈ l → head l ≠ Some p → pv' p = pv p) →
  seg nx pv' prev' l next.
Proof.
  destruct l as [|p l]; [done|]. intros [Hp Hnd]%NoDup_cons (? & ? & Hs) Hh Hx.
  split_and!; [by apply Hh|done|]. eapply seg_ext; [|done]. intros q Hq. split; [done|].
  apply Hx; [set_solver|]. cbn. intros [= ->]. done.
Qed.
End segments.

(** ** The free lists as lists

    [links s L]: for every order [o] the free list of [s] is [L o]. *)

Definition upd (L : Z → list Z) (o : Z) (l : list Z) : Z → list Z :=
  λ o', if decide (o' = o) then l else L o'.

Abbreviation order_ok o := (0 ≤ o < MAX_ORDER).

Record lengths (s : BuddyAllocator) : Prop := {
  len_max : 0 ≤ max_pfn s ≤ MAX_SUPPORTED_FRAMES;
  len_heads : zlen (free_lists s) = MAX_ORDER;
  len_next : zlen (next_free s) = max_pfn s;
  len_prev : zlen (prev_free s) = max_pfn s;
  len_flags : zlen (flags s) = max_pfn s;
  len_ref : zlen (refcounts s) = max_pfn s }.

Record links (s : BuddyAllocator) (L : Z → list Z) : Prop := {
  ln_len : lengths s;
  ln_head o : order_ok o → rd (free_lists s) o = head (L o);
  ln_seg o : order_ok o → seg (rd (next_free s)) (rd (prev_free s)) NONE (L o) NONE;
  ln_nodup o : order_ok o → NoDup (L o);
  ln_range o p : order_ok o → p ∈ L o → 0 ≤ p < max_pfn s;
  ln_uniq o o' p : order_ok o → order_ok o' → p ∈ L o → p ∈ L o' → o = o' }.

(** [lens] puts the array lengths of a state in the context for [lia]. *)
Ltac lens Hs :=
  let H := fresh in pose proof Hs as H; apply ln_len in H; destruct H;
  unfold MAX_SUPPORTED_FRAMES, MAX_ORDER in *.

(** [run_arrays] evaluates in-range array reads and writes. *)
Ltac run_arrays :=
  unfold set_flag, set_refcount;
  repeat first
    [ rewrite update_wr by (rewrite ?length_wr; lia)
    | rewrite index_rd by (rewrite ?length_wr; lia)
    | progress cbn [mbind res_bind flags refcounts with_lists with_flags with_refcounts] ].

Lemma order_ok_flags o : order_ok o →
  Z.land (u8 o) ORDER_MASK = o ∧ Z.land o FLAG_FREE = 0 ∧ Z.land o FLAG_ALLOCATED = 0 ∧
  Z.land o ORDER_MASK = o ∧
  Z.land (Z.lor o FLAG_FREE) FLAG_FREE ≠ 0 ∧ Z.land (Z.lor o FLAG_FREE) FLAG_ALLOCATED = 0 ∧
  Z.land (Z.lor o FLAG_FREE) ORDER_MASK = o ∧
  Z.land (Z.lor o FLAG_FREE) (bnot 8 FLAG_FREE) = o ∧
  Z.land (Z.lor o FLAG_ALLOCATED) FLAG_FREE = 0 ∧ Z.land (Z.lor o FLAG_ALLOCATED) FLAG_ALLOCATED ≠ 0 ∧
  Z.land (Z.lor o FLAG_ALLOCATED) ORDER_MASK = o.
Proof.
  unfold MAX_ORDER. intros Ho.
  assert (o = 0 ∨ o = 1 ∨ o = 2 ∨ o = 3 ∨ o = 4 ∨ o = 5 ∨ o = 6 ∨ o = 7 ∨ o = 8 ∨ o = 9 ∨ o = 10)
    as Hc by lia.
  repeat destruct Hc as [->|Hc]; [..|subst o]; vm_compute; split_and!; congruence.
Qed.

Lemma elem_upd_push L o p o' q :
  q ∈ upd L o (p :: L o) o' ↔ q ∈ L o' ∨ (q = p ∧ o' = o).
Proof. unfold upd. case_decide; subst; rewrite ?elem_of_cons; naive_solver. Qed.

Definition pushed (s : BuddyAllocator) (o p : Z) : BuddyAllocator :=
  let pv := wr (prev_free s) p NONE in
  with_flags
    (with_lists s (wr (free_lists s) o (Some p))
       (wr (next_free s) p (default NONE (rd (free_lists s) o)))
       (match rd (free_lists s) o with Some h => wr pv h p | None => pv end))
    (wr (flags s) p (Z.lor o FLAG_FREE)).

Lemma list_push_eq s L o p :
  links s L → order_ok o → 0 ≤ p < max_pfn s → list_push s o p = Ok (pushed s o p).
Proof.
  intros Hl Ho Hp. lens Hl. unfold list_push, pushed.
  destruct (Z.leb_spec (max_pfn s) p); [lia|].
  rewrite index_rd by lia. cbn [mbind res_bind]. rewrite (ln_head s L Hl o Ho).
  rewrite !update_wr by lia. cbn [mbind res_bind].
  destruct (order_ok_flags o Ho) as [-> _].
  destruct (head (L o)) as [h|] eqn:Eh; cbn [mbind res_bind from_option id].
  - assert (0 ≤ h < max_pfn s) as Hh by (eapply (ln_range s L Hl); [done|by apply head_Some_elem_of]).
    destruct (Z.ltb_spec h (max_pfn s)); [|lia].
    rewrite !wrap_small by (unfold is_u; lia).
    rewrite ?update_wr by (rewrite ?length_wr; lia). cbn [mbind res_bind].
    unfold set_flag. cbn [flags with_lists]. by rewrite update_wr by lia.
  - unfold set_flag. cbn [flags with_lists]. by rewrite update_wr by lia.
Qed.

Lemma pushed_links s L o p :
  links s L → order_ok o → 0 ≤ p < max_pfn s → (∀ o', order_ok o' → p ∉ L o') →
  links (pushed s o p) (upd L o (p :: L o)).
Proof.
  intros Hl Ho Hp Hfresh. lens Hl.
  assert (Hh : ∀ h, head (L o) = Some h → h ∈ L o ∧ 0 ≤ h < max_pfn s ∧ h ≠ p).
  { intros h Hh%head_Some_elem_of. split; [done|]. split; [by eapply ln_range|].
    intros ->. by apply (Hfresh o). }
  pose proof (ln_head s L Hl o Ho) as Hhd.
  split; unfold pushed; cbn.
  - split; cbn; rewrite ?length_wr; try done. destruct (rd _ o); by rewrite !length_wr.
  - intros o' Ho'. unfold upd. rewrite rd_wr by lia. case_decide as Hc; [by rewrite decide_True by done|].
    rewrite decide_False by done. by apply ln_head.
  - intros o' Ho'. unfold upd. rewrite Hhd. case_decide as Hc.
    + subst o'. cbn. split_and!.
      * destruct (head (L o)) as [h|] eqn:E; [|by rewrite rd_wr_eq by lia].
        destruct (Hh h eq_refl) as (_ & ? & ?).
        rewrite rd_wr_ne by (rewrite ?length_wr; lia). by rewrite rd_wr_eq by lia.
      * by rewrite rd_wr_eq by lia.
      * eapply seg_set_prev; [by eapply ln_nodup| | |].
        { eapply seg_ext; [|by apply (ln_seg s L Hl o Ho)]. intros q Hq. cbn. split; [|reflexivity].
          rewrite rd_wr_ne; [done|lia| |]; [by apply (ln_range s L Hl) in Hq; [lia|done]|].
          intros ->. by apply (Hfresh o). }
        { intros q Hq. rewrite Hq. destruct (Hh q Hq) as (_ & ? & ?).
          by rewrite rd_wr_eq by (rewrite ?length_wr; lia). }
        { intros q Hq Hne. pose proof (ln_range s L Hl o q Ho Hq). assert (q ≠ p) by set_solver.
          destruct (head (L o)) as [h|] eqn:E; [destruct (Hh h eq_refl) as (_ & ? & ?)|];
            rewrite ?rd_wr_ne; rewrite ?length_wr; auto with lia; congruence. }
    + eapply seg_ext; [|by apply (ln_seg s L Hl o' Ho')]. intros q Hq.
      pose proof (ln_range s L Hl o' q Ho' Hq). assert (q ≠ p) by (intros ->; by apply (Hfresh o')).
      split; [by rewrite rd_wr_ne by lia|].
      destruct (head (L o)) as [h|] eqn:E; [destruct (Hh h eq_refl) as (Hin & ? & ?)|].
      * assert (h ≠ q) by (intros ->; apply Hc; by eapply ln_uniq).
        by rewrite !rd_wr_ne by (rewrite ?length_wr; lia).
      * by rewrite !rd_wr_ne by (rewrite ?length_wr; lia).
  - intros o' Ho'. unfold upd. case_decide; [|by eapply ln_nodup]. apply NoDup_cons. split; [by apply Hfresh|].
    by eapply ln_nodup.
  - intros o' q Ho'. unfold upd. case_decide; [|by eapply ln_range].
    intros [->|?]%elem_of_cons; [done|]. by eapply (ln_range s L Hl o).
  - intros o1 o2 q Ho1 Ho2. rewrite !elem_upd_push. intros [?|[-> ->]] [?|[Hqp ->]]; try done.
    + by eapply ln_uniq.
    + subst. by destruct (Hfresh o1).
    + by destruct (Hfresh o2).
Qed.

Definition removed (s : BuddyAllocator) (o p : Z) (l1 l2 : list Z) : BuddyAllocator :=
  let nx := match last l1 with
            | Some q => wr (next_free s) q (default NONE (head l2)) | None => next_free s end in
  let pv := match head l2 with
            | Some r => wr (prev_free s) r (default NONE (last l1)) | None => prev_free s end in
  with_flags
    (with_lists s (match last l1 with Some _ => free_lists s | None => wr (free_lists s) o (head l2) end)
       (wr nx p NONE) (wr pv p NONE))
    (wr (flags s) p (Z.land (rd (flags s) p) (bnot 8 FLAG_FREE))).

(** What [links] says about an element [p] of a list. *)
Lemma links_at s L o p l1 l2 :
  links s L → order_ok o → L o = l1 ++ p :: l2 →
  0 ≤ p < max_pfn s ∧
  seg (rd (next_free s)) (rd (prev_free s)) NONE l1 p ∧
  rd (prev_free s) p = default NONE (last l1) ∧ rd (next_free s) p = default NONE (head l2) ∧
  seg (rd (next_free s)) (rd (prev_free s)) p l2 NONE ∧
  (∀ q, q ∈ l1 → 0 ≤ q < max_pfn s ∧ q ≠ p ∧ q ∉ l2) ∧
  (∀ q, q ∈ l2 → 0 ≤ q < max_pfn s ∧ q ≠ p ∧ q ∉ l1) ∧ NoDup l1 ∧ NoDup l2.
Proof.
  intros Hl Ho HL. pose proof (ln_seg s L Hl o Ho) as Hs. pose proof (ln_nodup s L Hl o Ho) as Hn.
  pose proof (λ q, ln_range s L Hl o q Ho) as Hr. rewrite HL in *.
  apply seg_app in Hs as [Hs1 Hs2]. cbn in Hs1, Hs2. destruct Hs2 as (? & ? & ?).
  apply NoDup_app in Hn as (Hn1 & Hx & Hn2). apply NoDup_cons in Hn2 as [Hp Hn2].
  split; [apply Hr; set_solver|]. split_and!; try done.
  - intros q Hq. specialize (Hx q Hq). split; [apply Hr|]; set_solver.
  - intros q Hq. split; [apply Hr; set_solver|]. split; [set_solver|].
    intros Hq1. specialize (Hx q Hq1). set_solver.
Qed.

Lemma list_remove_eq s L o p l1 l2 :
  links s L → order_ok o → L o = l1 ++ p :: l2 →
  list_remove s o p = Ok (removed s o p l1 l2).
Proof.
  intros Hl Ho HL. lens Hl. pose proof (ln_head s L Hl o Ho) as Hhd. rewrite HL in Hhd.
  destruct (links_at s L o p l1 l2 Hl Ho HL) as (Hp & _ & Hpv & Hnx & _ & H1 & H2 & _).
  unfold list_remove, removed. destruct (Z.leb_spec (max_pfn s) p); [lia|].
  rewrite !index_rd by lia. cbn [mbind res_bind]. rewrite Hpv, Hnx, Hhd.
  assert (Hreal : ∀ q, 0 ≤ q < max_pfn s → linked s q = true).
  { intros q Hq. unfold linked. apply andb_true_iff. rewrite negb_true_iff, Z.eqb_neq, Z.ltb_lt.
    unfold NONE. lia. }
  assert (Hnext : linked s (default NONE (head l2)) = bool_decide (is_Some (head l2))).
  { destruct (head l2) as [r|] eqn:Er; [|done]. apply Hreal. apply H2. by apply head_Some_elem_of. }
  rewrite Hnext. destruct (last l1) as [q|] eqn:Eq; cbn [from_option id].
  - destruct (H1 q) as (? & ? & _); [by apply last_Some_elem_of|]. rewrite Hreal by done.
    rewrite (update_wr (next_free s)) by lia. cbn [mbind res_bind].
    destruct (head l2) as [r|] eqn:Er; cbn [from_option id mbind res_bind].
    + destruct (H2 r) as (? & ? & _); [by apply head_Some_elem_of|].
      rewrite bool_decide_true by eauto. by run_arrays.
    + rewrite bool_decide_false by (by intros [? ?]). by run_arrays.
  - apply last_None in Eq as ->. cbn [app head]. rewrite (bool_decide_true (Some p = Some p)) by done.
    change (linked s NONE) with false. cbn [mbind res_bind].
    destruct (head l2) as [r|] eqn:Er; cbn [from_option id mbind res_bind].
    + destruct (H2 r) as (? & ? & _); [by apply head_Some_elem_of|].
      rewrite !(bool_decide_true (is_Some (Some r))) by eauto. by run_arrays.
    + rewrite !(bool_decide_false (is_Some None)) by (by intros [? ?]). by run_arrays.
Qed.

Lemma elem_upd_remove s L o p l1 l2 o' q :
  links s L → order_ok o → order_ok o' → L o = l1 ++ p :: l2 →
  q ∈ upd L o (l1 ++ l2) o' ↔ q ∈ L o' ∧ (q ≠ p ∨ o' ≠ o).
Proof.
  intros Hl Ho Ho' HL. destruct (links_at s L o p l1 l2 Hl Ho HL) as (_ & _ & _ & _ & _ & H1 & H2 & _).
  unfold upd. case_decide; [|naive_solver]. subst. rewrite HL, !elem_of_app, elem_of_cons.
  specialize (H1 q). specialize (H2 q). naive_solver.
Qed.

(** Reading beside the optional neighbour update and the reset of [p]. *)
Lemma rd_opt_ne (l : list Z) o v p x q :
  (∀ r, o = Some r → 0 ≤ r < zlen l ∧ r ≠ q) → 0 ≤ p < zlen l → 0 ≤ q → p ≠ q →
  rd (wr (match o with Some r => wr l r v | None => l end) p x) q = rd l q.
Proof.
  intros Ho Hp Hq Hne. rewrite rd_wr_ne by (done || (destruct o; rewrite ?length_wr; lia)).
  destruct o as [r|]; [|done]. destruct (Ho r eq_refl). by rewrite rd_wr_ne by done.
Qed.

Lemma rd_opt_eq (l : list Z) v p x q :
  0 ≤ q < zlen l → 0 ≤ p < zlen l → p ≠ q → rd (wr (wr l q v) p x) q = v.
Proof. intros. rewrite rd_wr_ne by (rewrite ?length_wr; lia). by apply rd_wr_eq. Qed.

(** The two halves of the list after [p] is taken out. *)
Lemma removed_seg s L o p l1 l2 :
  links s L → order_ok o → L o = l1 ++ p :: l2 → let s' := removed s o p l1 l2 in
  seg (rd (next_free s')) (rd (prev_free s')) NONE (l1 ++ l2) NONE.
Proof.
  intros Hl Ho HL. lens Hl.
  destruct (links_at s L o p l1 l2 Hl Ho HL) as (Hp & Hs1 & _ & _ & Hs2 & H1 & H2 & Hn1 & Hn2).
  assert (Hlast : ∀ q r, q ∈ l2 → last l1 = Some r → 0 ≤ r < zlen (next_free s) ∧ r ≠ q).
  { intros q r Hq Hr%last_Some_elem_of. destruct (H1 r Hr) as (? & _ & ?). split; [lia|]. congruence. }
  assert (Hhead : ∀ q r, q ∈ l1 → head l2 = Some r → 0 ≤ r < zlen (prev_free s) ∧ r ≠ q).
  { intros q r Hq Hr%head_Some_elem_of. destruct (H2 r Hr) as (? & _ & ?). split; [lia|]. congruence. }
  unfold removed; cbn. apply seg_app. split.
  - eapply seg_ext; [|eapply (seg_set_next _ (rd (prev_free s)) (rd (wr _ p NONE))); [done|exact Hs1| |]].
    + cbn. intros q Hq. split; [reflexivity|]. destruct (H1 q Hq). apply rd_opt_ne; [by eauto|lia..].
    + intros q Hq. destruct (H1 q) as (? & ? & _); [by apply last_Some_elem_of|]. rewrite Hq.
      by apply rd_opt_eq; lia.
    + intros q Hq Hne. destruct (H1 q Hq) as (? & ? & _). apply rd_opt_ne; [|lia..].
      intros r Hr. split; [apply last_Some_elem_of, H1 in Hr; lia|congruence].
  - eapply seg_ext; [|eapply (seg_set_prev (rd (next_free s)) _ (rd (wr _ p NONE))); [done|exact Hs2| |]].
    + cbn. intros q Hq. split; [|reflexivity]. destruct (H2 q Hq). apply rd_opt_ne; [by eauto|lia..].
    + intros q Hq. destruct (H2 q) as (? & ? & _); [by apply head_Some_elem_of|]. rewrite Hq.
      by apply rd_opt_eq; lia.
    + intros q Hq Hne. destruct (H2 q Hq) as (? & ? & _). apply rd_opt_ne; [|lia..].
      intros r Hr. split; [apply head_Some_elem_of, H2 in Hr; lia|congruence].
Qed.

Lemma removed_links s L o p l1 l2 :
  links s L → order_ok o → L o = l1 ++ p :: l2 →
  links (removed s o p l1 l2) (upd L o (l1 ++ l2)).
Proof.
  intros Hl Ho HL. lens Hl.
  destruct (links_at s L o p l1 l2 Hl Ho HL) as (Hp & _ & _ & _ & _ & H1 & H2 & Hn1 & Hn2).
  pose proof (λ o', elem_upd_remove s L o p l1 l2 o') as Hel.
  pose proof (ln_head s L Hl o Ho) as Hhd. rewrite HL in Hhd.
  split.
  - split; cbn; rewrite ?length_wr; repeat case_match; rewrite ?length_wr; done.
  - intros o' Ho'. cbn. unfold upd. case_decide as Hc.
    + subst o'. destruct (last l1) as [q|] eqn:Eq; [rewrite Hhd; by destruct l1|].
      apply last_None in Eq as ->. by rewrite rd_wr_eq by lia.
    + rewrite <- (ln_head s L Hl o' Ho'). case_match; [done|]. by rewrite rd_wr_ne by lia.
  - intros o' Ho'. destruct (decide (o' = o)) as [->|Hc].
    { unfold upd. rewrite decide_True by done. by eapply removed_seg. }
    unfold upd. rewrite decide_False by done.
    eapply seg_ext; [|by apply (ln_seg s L Hl o' Ho')]. intros q Hq. cbn.
    pose proof (ln_range s L Hl o' q Ho' Hq).
    assert (Hno : q ∉ l1 ++ p :: l2).
    { rewrite <- HL. intros ?. apply Hc. by eapply ln_uniq. }
    rewrite elem_of_app, elem_of_cons in Hno.
    split; apply rd_opt_ne; try lia.
    + intros r Hr%last_Some_elem_of. destruct (H1 r Hr). split; [lia|]. intros ->. tauto.
    + intros r Hr%head_Some_elem_of. destruct (H2 r Hr). split; [lia|]. intros ->. tauto.
  - intros o' Ho'. unfold upd. case_decide; [|by eapply ln_nodup]. apply NoDup_app.
    split_and!; [done| |done]. intros q Hq. by apply H1.
  - intros o' q Ho'. rewrite Hel by done. intros [? _]. by eapply (ln_range s L Hl o').
  - intros o1 o2 q Ho1 Ho2. rewrite !Hel by done. intros [? _] [? _]. by eapply ln_uniq.
Qed.

