(* ===== verification/BuddyBlocks.v ===== *)
(** * Frame allocator: blocks

    Free and allocated blocks as sets of frames, the representation
    invariant [rep] and what each operation of [Buddy] does under it. *)

From stdpp Require Import gmap.
From S2P Require Import Prelude Words Buddy BuddyLinks.

(** ** Blocks

    A block is a pair of a first frame and an order.  Free blocks are the
    members of the lists, allocated ones the frames flagged so. *)

Abbreviation flag_at s p := (rd (flags s) p).
Abbreviation ref_at s p := (rd (refcounts s) p).

Definition block_in (s : BuddyAllocator) (p o : Z) : Prop :=
  order_ok o ∧ 0 ≤ p ∧ p mod 2 ^ o = 0 ∧ p + 2 ^ o ≤ max_pfn s.
Definition allocd (s : BuddyAllocator) (p o : Z) : Prop :=
  0 ≤ p < max_pfn s ∧ Z.land (flag_at s p) FLAG_ALLOCATED ≠ 0 ∧ Z.land (flag_at s p) ORDER_MASK = o.
Definition block (s : BuddyAllocator) (L : Z → list Z) (p o : Z) : Prop :=
  (order_ok o ∧ p ∈ L o) ∨ allocd s p o.
Definition apart (p o q o' : Z) : Prop := p + 2 ^ o ≤ q ∨ q + 2 ^ o' ≤ p.

Record rep (s : BuddyAllocator) (L : Z → list Z) : Prop := {
  rp_links : links s L;
  rp_mark o p : order_ok o → p ∈ L o → flag_at s p = Z.lor o FLAG_FREE;
  rp_free p : 0 ≤ p < max_pfn s → Z.land (flag_at s p) FLAG_FREE ≠ 0 → ∃ o, order_ok o ∧ p ∈ L o;
  rp_pos o p : order_ok o → p ∈ L o → 0 < p;
  rp_block p o : block s L p o → block_in s p o;
  rp_disj p o q o' : block s L p o → block s L q o' → (p = q ∧ o = o') ∨ apart p o q o';
  rp_ref p : 0 ≤ p < max_pfn s → is_u 16 (ref_at s p) ∧
    (0 < ref_at s p → Z.land (flag_at s p) FLAG_ALLOCATED ≠ 0) }.

(** A block that is neither free nor allocated: the one an operation holds. *)
Record vacant (s : BuddyAllocator) (L : Z → list Z) (p o : Z) : Prop := {
  vc_in : block_in s p o; vc_pos : 0 < p;
  vc_apart q o' : block s L q o' → apart p o q o' }.

Lemma pow2_pos o : order_ok o → 0 < 2 ^ o.
Proof. intros []. by apply Z.pow_pos_nonneg. Qed.

Lemma block_in_range s p o : block_in s p o → 0 ≤ p < max_pfn s.
Proof. intros (Ho & ? & _ & ?). pose proof (pow2_pos o Ho). lia. Qed.

(** A vacant block is not itself a block of the state. *)
Lemma vacant_not_block s L p o o' : rep s L → vacant s L p o → ¬ block s L p o'.
Proof.
  intros Hr [[Ho _] _ Ha] Hb. pose proof (rp_block s L Hr _ _ Hb) as [Ho' _].
  destruct (Ha _ _ Hb) as [H|H]; pose proof (pow2_pos o Ho); pose proof (pow2_pos o' Ho'); lia.
Qed.

Lemma vacant_flags s L p o : rep s L → vacant s L p o →
  Z.land (flag_at s p) FLAG_ALLOCATED = 0 ∧ Z.land (flag_at s p) FLAG_FREE = 0 ∧ ref_at s p = 0 ∧
  ∀ o', order_ok o' → p ∉ L o'.
Proof.
  intros Hr Hv. pose proof (block_in_range _ _ _ (vc_in _ _ _ _ Hv)) as Hp.
  assert (Ha : Z.land (flag_at s p) FLAG_ALLOCATED = 0).
  { apply dec_stable. intros Hn. eapply vacant_not_block; [done..|]. right. exact (conj Hp (conj Hn eq_refl)). }
  assert (Hf : ∀ o', order_ok o' → p ∉ L o').
  { intros o' Ho' Hin. eapply vacant_not_block; [done..|]. left. eauto. }
  split_and!; [done| | |done].
  - apply dec_stable. intros Hn. destruct (rp_free s L Hr p Hp Hn) as (o' & ? & ?). by apply (Hf o').
  - destruct (rp_ref s L Hr p Hp) as [[? ?] Hi]. destruct (decide (0 < ref_at s p)); [|lia].
    exfalso. by apply Hi.
Qed.

Lemma block_pushed s L p o q o' : rep s L → vacant s L p o →
  block (pushed s o p) (upd L o (p :: L o)) q o' ↔ block s L q o' ∨ (q = p ∧ o' = o).
Proof.
  intros Hr Hv. lens (rp_links s L Hr).
  pose proof (vc_in _ _ _ _ Hv) as Hin. pose proof (block_in_range _ _ _ Hin) as Hp.
  assert (order_ok o) as Ho by apply Hin.
  destruct (vacant_flags s L p o Hr Hv) as (Hna & _).
  assert (Hal : allocd (pushed s o p) q o' ↔ allocd s q o').
  { unfold allocd. cbn. destruct (decide (0 ≤ q)); [|naive_solver lia]. rewrite rd_wr by lia.
    case_decide; [|done]. subst q. destruct (order_ok_flags o Ho) as (_&_&_&_&_&Hz&_). naive_solver. }
  unfold block. rewrite Hal, elem_upd_push. split; [tauto|].
  intros [[[? ?]|?]|[-> ->]]; [left; auto|by right|left; auto].
Qed.

Lemma push_rep s L p o : rep s L → vacant s L p o →
  list_push s o p = Ok (pushed s o p) ∧ rep (pushed s o p) (upd L o (p :: L o)).
Proof.
  intros Hr Hv. pose proof (rp_links s L Hr) as Hl. lens Hl.
  pose proof (vc_in _ _ _ _ Hv) as Hin. pose proof (block_in_range _ _ _ Hin) as Hp.
  assert (order_ok o) as Ho by apply Hin.
  destruct (order_ok_flags o Ho) as (_&_&_&_&Hfr&_).
  destruct (vacant_flags s L p o Hr Hv) as (Hna & Hnf & Hz & Hni).
  split; [by eapply list_push_eq|]. split.
  - by apply pushed_links.
  - intros o' q Ho'. rewrite elem_upd_push. cbn. intros [Hq|[-> ->]]; [|by apply rd_wr_eq; lia].
    rewrite rd_wr_ne; [by apply (rp_mark s L Hr)|lia|by eapply (ln_range s L Hl o')|].
    intros ->. by apply (Hni o').
  - intros q Hq Hf. cbn in Hq, Hf. rewrite rd_wr in Hf by lia. case_decide as Hc.
    + exists o. rewrite elem_upd_push. auto.
    + destruct (rp_free s L Hr q Hq Hf) as (o' & ? & ?). exists o'. rewrite elem_upd_push. auto.
  - intros o' q Ho'. rewrite elem_upd_push. intros [?|[-> ->]]; [by eapply (rp_pos s L Hr)|apply Hv].
  - intros q o'. rewrite block_pushed by done. intros [?|[-> ->]]; [by apply (rp_block s L Hr)|done].
  - intros q1 o1 q2 o2. rewrite !block_pushed by done.
    intros [Hb1|[-> ->]] [Hb2|[-> ->]].
    + by apply (rp_disj s L Hr).
    + right. apply (vc_apart _ _ _ _ Hv) in Hb1. unfold apart in *. tauto.
    + right. by apply (vc_apart _ _ _ _ Hv).
    + auto.
  - intros q Hq. cbn. destruct (rp_ref s L Hr q Hq) as [Hu Hi]. split; [done|].
    intros Hpos. rewrite rd_wr by lia. case_decide; [|by apply Hi]. subst q. cbn in Hpos. lia.
Qed.

Lemma block_removed s L p o l1 l2 q o' : rep s L → order_ok o → L o = l1 ++ p :: l2 →
  block (removed s o p l1 l2) (upd L o (l1 ++ l2)) q o' ↔ block s L q o' ∧ (q ≠ p ∨ o' ≠ o).
Proof.
  intros Hr Ho HL. pose proof (rp_links s L Hr) as Hl. lens Hl.
  assert (Hp : p ∈ L o) by (rewrite HL; set_solver). pose proof (ln_range s L Hl o p Ho Hp).
  pose proof (rp_mark s L Hr o p Ho Hp) as Hm.
  destruct (order_ok_flags o Ho) as (_&_&Hoa&_&_&Hna&_&Hrm&_).
  assert (Hal : allocd (removed s o p l1 l2) q o' ↔ allocd s q o' ∧ (q ≠ p ∨ o' ≠ o)).
  { unfold allocd. cbn. destruct (decide (0 ≤ q)); [|naive_solver lia]. rewrite rd_wr by lia.
    rewrite Hm, Hrm. case_decide; [subst; rewrite Hm; naive_solver|]. naive_solver. }
  unfold block. rewrite Hal. destruct (decide (order_ok o')) as [Ho'|]; [|tauto].
  rewrite (elem_upd_remove s L o p l1 l2 o' q Hl Ho Ho' HL). tauto.
Qed.

Lemma remove_rep s L p o : rep s L → order_ok o → p ∈ L o →
  ∃ l1 l2, L o = l1 ++ p :: l2 ∧ list_remove s o p = Ok (removed s o p l1 l2) ∧
    rep (removed s o p l1 l2) (upd L o (l1 ++ l2)) ∧
    vacant (removed s o p l1 l2) (upd L o (l1 ++ l2)) p o.
Proof.
  intros Hr Ho Hp. pose proof (rp_links s L Hr) as Hl. lens Hl.
  apply list_elem_of_split in Hp as HL. destruct HL as (l1 & l2 & HL). exists l1, l2. split; [done|].
  split; [by eapply list_remove_eq|].
  pose proof (ln_range s L Hl o p Ho Hp). pose proof (rp_mark s L Hr o p Ho Hp) as Hm.
  destruct (order_ok_flags o Ho) as (_&Hof&Hoa&_&_&Hna&_&Hrm&_).
  pose proof (λ q o', block_removed s L p o l1 l2 q o' Hr Ho HL) as Hb.
  pose proof (λ o' q Ho', elem_upd_remove s L o p l1 l2 o' q Hl Ho Ho' HL) as He.
  assert (Hself : block s L p o) by (left; eauto). split; [split|split].
  - by eapply removed_links.
  - intros o' q Ho' Hq. apply He in Hq as [Hq Hc]; [|done]. cbn. rewrite rd_wr_ne; [|lia| |].
    + by apply (rp_mark s L Hr).
    + by eapply (ln_range s L Hl o').
    + intros <-. destruct Hc as [|Hc]; [done|]. apply Hc. by eapply (ln_uniq s L Hl).
  - intros q Hq. cbn in Hq |- *. rewrite rd_wr by lia. rewrite Hm, Hrm. case_decide; [by rewrite Hof|].
    intros Hf. destruct (rp_free s L Hr q Hq Hf) as (o' & ? & ?). exists o'. rewrite He by done. auto.
  - intros o' q Ho' Hq. apply He in Hq as [Hq _]; [|done]. by eapply (rp_pos s L Hr).
  - intros q o' [? _]%Hb. by apply (rp_block s L Hr).
  - intros q1 o1 q2 o2 [? _]%Hb [? _]%Hb. by apply (rp_disj s L Hr).
  - intros q Hq. cbn. destruct (rp_ref s L Hr q Hq) as [Hu Hi]. split; [done|]. intros Hpos.
    rewrite rd_wr by lia. case_decide; [|by apply Hi]. subst q. by rewrite Hm in Hi; apply Hi in Hpos.
  - by apply (rp_block s L Hr).
  - by eapply (rp_pos s L Hr).
  - intros q o' [Hq Hc]%Hb. destruct (rp_disj s L Hr _ _ _ _ Hself Hq) as [[-> ->]|]; [tauto|done].
Qed.

(** Frames covered by free blocks, and their number. *)
Definition covered (L : Z → list Z) (f : Z) : Prop :=
  ∃ o p, order_ok o ∧ p ∈ L o ∧ p ≤ f < p + 2 ^ o.
Definition weight_on (os : list Z) (L : Z → list Z) : Z :=
  foldr (λ o acc, 2 ^ o * zlen (L o) + acc) 0 os.
Definition weight : (Z → list Z) → Z := weight_on (seqZ 0 MAX_ORDER).

Lemma weight_on_cons x os L : weight_on (x :: os) L = 2 ^ x * zlen (L x) + weight_on os L.
Proof. done. Qed.

Lemma weight_on_upd os L o l : NoDup os →
  weight_on os (upd L o l) =
    weight_on os L + (if decide (o ∈ os) then 2 ^ o * (zlen l - zlen (L o)) else 0).
Proof.
  induction os as [|x os IH]; intros Hnd; [done|].
  apply NoDup_cons in Hnd as [Hx Hnd].
  rewrite !weight_on_cons. rewrite (IH Hnd). unfold upd at 1.
  destruct (decide (x = o)) as [->|Hne].
  - rewrite decide_False, decide_True by set_solver. lia.
  - destruct (decide (o ∈ os)); [rewrite decide_True|rewrite decide_False]; [lia|set_solver|lia|set_solver].
Qed.

Lemma weight_upd L o l : order_ok o →
  weight (upd L o l) = weight L + 2 ^ o * (zlen l - zlen (L o)).
Proof.
  intros Ho. unfold weight. rewrite weight_on_upd by apply NoDup_seqZ.
  by rewrite decide_True by (apply elem_of_seqZ; lia).
Qed.

Lemma covered_push L p o f : order_ok o →
  covered (upd L o (p :: L o)) f ↔ covered L f ∨ p ≤ f < p + 2 ^ o.
Proof.
  intros Ho. unfold covered. setoid_rewrite elem_upd_push. split.
  - intros (o' & q & ? & [?|[-> ->]] & ?); eauto 8.
  - intros [(o' & q & ? & ? & ?)|?]; [exists o', q|exists o, p]; auto.
Qed.

Lemma covered_remove s L p o l1 l2 f : rep s L → order_ok o → L o = l1 ++ p :: l2 →
  covered L f ↔ covered (upd L o (l1 ++ l2)) f ∨ p ≤ f < p + 2 ^ o.
Proof.
  intros Hr Ho HL. unfold covered.
  pose proof (λ o' q Ho', elem_upd_remove s L o p l1 l2 o' q (rp_links s L Hr) Ho Ho' HL) as He.
  split.
  - intros (o' & q & Ho' & Hq & ?). destruct (decide (q = p ∧ o' = o)) as [[-> ->]|Hn]; [by right|].
    left. exists o', q. rewrite He by done. split; [done|]. split; [|done]. split; [done|].
    destruct (decide (q = p)); [right; naive_solver|by left].
  - intros [(o' & q & Ho' & Hq & ?)|?].
    + exists o', q. apply He in Hq as [? _]; [|done]. done.
    + exists o, p. split; [done|]. split; [|done]. rewrite HL. set_solver.
Qed.

(** Steps that touch only the lists keep everything else. *)
Record quiet (s s' : BuddyAllocator) : Prop := {
  qt_ref : refcounts s' = refcounts s; qt_total : total_usable_frames s' = total_usable_frames s;
  qt_free : free_frames s' = free_frames s; qt_max : max_pfn s' = max_pfn s;
  qt_alloc q o : allocd s' q o ↔ allocd s q o }.

#[export] Instance quiet_preorder : PreOrder quiet.
Proof.
  split; [by split|]. intros s1 s2 s3 [???? Ha] [???? Hb]. split; [congruence..|].
  intros q o. by rewrite Hb, Ha.
Qed.

Lemma quiet_pushed s L p o : rep s L → vacant s L p o → quiet s (pushed s o p).
Proof.
  intros Hr Hv. split; [done..|]. intros q o'. unfold allocd. cbn. lens (rp_links s L Hr).
  pose proof (vc_in _ _ _ _ Hv) as Hin. pose proof (block_in_range _ _ _ Hin) as Hp.
  destruct (order_ok_flags o (proj1 Hin)) as (_&_&_&_&_&Hz&_).
  destruct (vacant_flags s L p o Hr Hv) as (Hna & _).
  destruct (decide (0 ≤ q)); [|naive_solver lia]. rewrite rd_wr by lia.
  case_decide; [|done]. subst q. naive_solver.
Qed.

Lemma quiet_removed s L p o l1 l2 : rep s L → order_ok o → L o = l1 ++ p :: l2 →
  quiet s (removed s o p l1 l2).
Proof.
  intros Hr Ho HL. split; [done..|]. intros q o'. unfold allocd. cbn. lens (rp_links s L Hr).
  assert (Hp : p ∈ L o) by (rewrite HL; set_solver).
  pose proof (ln_range s L (rp_links s L Hr) o p Ho Hp).
  pose proof (rp_mark s L Hr o p Ho Hp) as Hm.
  destruct (order_ok_flags o Ho) as (_&_&Hoa&_&_&Hna&_&Hrm&_).
  destruct (decide (0 ≤ q)); [|naive_solver lia]. rewrite rd_wr, Hm, Hrm by lia.
  case_decide; [|done]. subst q. rewrite Hm. naive_solver.
Qed.

Lemma pow2_succ o : 0 ≤ o → 2 ^ (o + 1) = 2 ^ o + 2 ^ o.
Proof. intros. rewrite Z.pow_add_r by lia. lia. Qed.

Lemma vacant_halves s L p o : order_ok o → vacant s L p (o + 1) →
  vacant s L p o ∧ vacant s L (p + 2 ^ o) o.
Proof.
  intros Ho [(Ho1 & Hp & Hm & Hmax) Hpos Ha]. pose proof (pow2_pos o Ho).
  rewrite pow2_succ in * by lia.
  assert (Hmod : p mod 2 ^ o = 0).
  { apply Z.mod_divide in Hm; [|lia]. apply Z.mod_divide; [lia|]. destruct Hm as [k ->].
    exists (k * 2). lia. }
  assert (apart_half : ∀ q o', apart p (o + 1) q o' → apart p o q o' ∧ apart (p + 2 ^ o) o q o').
  { intros q o'. unfold apart. rewrite pow2_succ by lia. lia. }
  split; split; try lia.
  - unfold block_in. lia.
  - intros q o' Hb. by apply apart_half, Ha.
  - unfold block_in. split; [done|]. split; [lia|]. split; [|lia].
    rewrite <- Zplus_mod_idemp_l, Hmod, Z.add_0_l. by apply Z_mod_same_full.
  - intros q o' Hb. by apply apart_half, Ha.
Qed.

Lemma vacant_pushed s L p o q o' : rep s L → vacant s L p o → vacant s L q o' → apart q o' p o →
  vacant (pushed s o p) (upd L o (p :: L o)) q o'.
Proof.
  intros Hr Hv [Hin Hpos Ha] Hap. split; [done|done|]. intros r o1.
  rewrite block_pushed by done. intros [?|[-> ->]]; auto.
Qed.

Lemma split_down_rep n : ∀ s L p c, rep s L → vacant s L p c → Z.of_nat n ≤ c →
  ∃ s' L', split_down n s c p = Ok s' ∧ rep s' L' ∧ vacant s' L' p (c - Z.of_nat n) ∧ quiet s s' ∧
    weight L' = weight L + 2 ^ c - 2 ^ (c - Z.of_nat n) ∧
    ∀ f, covered L' f ↔ covered L f ∨ p + 2 ^ (c - Z.of_nat n) ≤ f < p + 2 ^ c.
Proof.
  induction n as [|n IH]; intros s L p c Hr Hv Hn; cbn [split_down].
  { exists s, L. rewrite Z.sub_0_r. split_and!; [done..|lia|]. intros f. split; [auto|].
    intros [?|?]; [done|lia]. }
  assert (order_ok (c - 1)) as Ho.
  { pose proof (proj1 (vc_in _ _ _ _ Hv)). lia. }
  rewrite Z.shiftl_1_l. set (c' := c - 1) in *. assert (c = c' + 1) as Hc by lia.
  rewrite Hc in Hv. destruct (vacant_halves s L p c' Ho Hv) as [Hlo Hhi].
  destruct (push_rep s L _ c' Hr Hhi) as [-> Hr']. cbn [mbind res_bind].
  assert (Hv' := vacant_pushed s L _ c' _ c' Hr Hhi Hlo ltac:(left; lia)).
  destruct (IH _ _ _ _ Hr' Hv' ltac:(lia)) as (s' & L' & -> & Hr2 & Hv2 & Hq & Hw & Hcov).
  exists s', L'. replace (c - Z.of_nat (S n)) with (c' - Z.of_nat n) by lia.
  split_and!; [done..| | |].
  - etransitivity; [|done]. by eapply quiet_pushed.
  - rewrite Hw, weight_upd by done. cbn [length]. rewrite Hc, pow2_succ by lia. lia.
  - intros f. rewrite Hcov, covered_push by done. rewrite Hc, pow2_succ by lia.
    pose proof (Z.pow_le_mono_r 2 (c' - Z.of_nat n) c'). split; [intros [[?|?]|?]|intros [?|?]]; auto; try (right; lia).
    destruct (decide (f < p + 2 ^ c')); [right; lia|left; right; lia].
Qed.

(** ** Allocation *)

Lemma find_order_spec n : ∀ s L o, links s L → 0 ≤ o → o + Z.of_nat n = MAX_ORDER →
  ∃ c, find_order n s o = Ok c ∧ o ≤ c ≤ MAX_ORDER ∧ (∀ o', o ≤ o' < c → L o' = []) ∧
    (c < MAX_ORDER → L c ≠ []).
Proof.
  induction n as [|n IH]; intros s L o Hl Ho Hn; cbn [find_order].
  { exists o. split; [done|]. split; [lia|]. split; [lia|]. unfold MAX_ORDER in *. lia. }
  lens Hl. rewrite index_rd by lia. cbn [mbind res_bind]. rewrite (ln_head s L Hl o) by (unfold MAX_ORDER; lia).
  destruct (L o) as [|p l] eqn:E; cbn [head].
  - destruct (IH s L (o + 1) Hl) as (c & -> & ? & He & ?); [lia..|]. exists c. split; [done|].
    split; [lia|]. split; [|done]. intros o' ?. destruct (decide (o' = o)) as [->|]; [done|].
    apply He. lia.
  - exists o. split; [done|]. split; [lia|]. split; [lia|]. by rewrite E.
Qed.

Definition invariant_on (s : BuddyAllocator) (L : Z → list Z) : Prop :=
  rep s L ∧ free_frames s = weight L.

Lemma weight_nonneg L : 0 ≤ weight L.
Proof.
  unfold weight, weight_on. induction (seqZ 0 MAX_ORDER) as [|o os IH]; cbn; [done|].
  pose proof (Z.pow_nonneg 2 o). nia.
Qed.

(** Flagging a vacant block as allocated, with a reference count. *)
Lemma claim_rep s L p o v r : rep s L → vacant s L p o →
  Z.land v FLAG_FREE = 0 → Z.land v FLAG_ALLOCATED ≠ 0 → Z.land v ORDER_MASK = o → is_u 16 r →
  let s' := with_refcounts (with_flags s (wr (flags s) p v)) (wr (refcounts s) p r) in
  set_flag s p v = Ok (with_flags s (wr (flags s) p v)) ∧
  set_refcount (with_flags s (wr (flags s) p v)) p r = Ok s' ∧ rep s' L ∧
  ∀ q o', allocd s' q o' ↔ allocd s q o' ∨ (q = p ∧ o' = o).
Proof.
  intros Hr Hv Hf Ha Hm Hu s'. pose proof (rp_links s L Hr) as Hl. lens Hl.
  pose proof (block_in_range _ _ _ (vc_in _ _ _ _ Hv)) as Hp.
  destruct (vacant_flags s L p o Hr Hv) as (Hna & _ & _ & Hni).
  assert (Hal : ∀ q o', allocd s' q o' ↔ allocd s q o' ∨ (q = p ∧ o' = o)).
  { intros q o'. unfold allocd. cbn. destruct (decide (0 ≤ q)); [|naive_solver lia].
    rewrite rd_wr by lia. case_decide; [subst q|]; naive_solver lia. }
  assert (Hb : ∀ q o', block s' L q o' ↔ block s L q o' ∨ (q = p ∧ o' = o)).
  { intros q o'. unfold block. rewrite Hal. tauto. }
  split; [by run_arrays|]. split; [by run_arrays|]. split; [|done]. split.
  - destruct Hl. split; try done. by split; cbn; rewrite ?length_wr.
  - intros o' q Ho' Hq. cbn. rewrite rd_wr_ne; [by apply (rp_mark s L Hr)|lia| |].
    + by eapply (ln_range s L Hl o').
    + intros ->. by apply (Hni o').
  - intros q Hq. cbn in Hq |- *. rewrite rd_wr by lia. case_decide; [by rewrite Hf|].
    by apply (rp_free s L Hr).
  - apply (rp_pos s L Hr).
  - intros q o' [?|[-> ->]]%Hb; [by apply (rp_block s L Hr)|apply Hv].
  - intros q1 o1 q2 o2 [Hb1|[-> ->]]%Hb [Hb2|[-> ->]]%Hb.
    + by apply (rp_disj s L Hr).
    + right. apply (vc_apart _ _ _ _ Hv) in Hb1. unfold apart in *. tauto.
    + right. by apply (vc_apart _ _ _ _ Hv).
    + auto.
  - intros q Hq. cbn in Hq |- *. rewrite !rd_wr by lia. case_decide; [done|]. by apply (rp_ref s L Hr).
Qed.

Lemma rep_counts s L a b : rep s L → rep (with_counts s a b) L.
Proof. intros [[[] ?????] ??????]. split; [split; [by split|done..]|done..]. Qed.

(** What an allocation of order [o] does, on the lists. *)
Record granted (s : BuddyAllocator) (L : Z → list Z) (o : Z) (s' : BuddyAllocator)
    (L' : Z → list Z) (p : Z) : Prop := {
  gr_inv : invariant_on s' L';
  gr_in : block_in s' p o; gr_pos : 0 < p; gr_max : max_pfn s' = max_pfn s;
  gr_ref : refcounts s' = wr (refcounts s) p 1;
  gr_alloc q o' : allocd s' q o' ↔ allocd s q o' ∨ (q = p ∧ o' = o);
  gr_fresh q o' : allocd s q o' → apart p o q o';
  gr_weight : weight L' = weight L - 2 ^ o;
  gr_covered f : covered L f ↔ covered L' f ∨ p ≤ f < p + 2 ^ o }.

Lemma alloc_order_rep s L o : invariant_on s L → 0 ≤ o →
  ∃ s' r, alloc_order s o = Ok (s', r) ∧
  match r with
  | None => s' = s ∧ ∀ o', o ≤ o' < MAX_ORDER → L o' = []
  | Some p => ∃ L', granted s L o s' L' p
  end.
Proof.
  intros [Hr Hw] Ho. unfold alloc_order. destruct (Z.leb_spec MAX_ORDER o).
  { exists s, None. split; [done|]. split; [done|]. lia. }
  destruct (find_order_spec (Z.to_nat (MAX_ORDER - o)) s L o (rp_links s L Hr)) as (c & -> & Hc & He & Hne);
    [lia..|]. cbn [mbind res_bind].
  destruct (Z.leb_spec MAX_ORDER c).
  { exists s, None. split; [done|]. split; [done|]. intros o' ?. apply He. lia. }
  assert (order_ok c) as Hoc by lia. lens (rp_links s L Hr).
  unfold list_pop. rewrite index_rd, (ln_head s L (rp_links s L Hr) c Hoc) by lia. cbn [mbind res_bind].
  destruct (L c) as [|p l] eqn:EL; [by destruct (Hne ltac:(lia))|]. cbn [head].
  assert (Hin : p ∈ L c) by (rewrite EL; set_solver).
  destruct (remove_rep s L p c Hr Hoc Hin) as (l1 & l2 & HL & -> & Hr1 & Hv1). cbn [mbind res_bind].
  destruct (split_down_rep (Z.to_nat (c - o)) _ _ p c Hr1 Hv1) as (s2 & L2 & -> & Hr2 & Hv2 & Hq2 & Hw2 & Hc2);
    [lia|]. replace (c - Z.of_nat (Z.to_nat (c - o))) with o in * by lia. cbn [mbind res_bind].
  assert (order_ok o) as Hoo by (unfold MAX_ORDER; lia).
  destruct (order_ok_flags o Hoo) as (Hu8 & _ & _ & _ & _ & _ & _ & _ & Hf & Ha & Hm). rewrite Hu8.
  destruct (claim_rep s2 L2 p o (Z.lor o FLAG_ALLOCATED) 1 Hr2 Hv2 Hf Ha Hm ltac:(done)) as (-> & Hs3 & Hr3 & Hal3).
  cbn [mbind res_bind]. rewrite Hs3. cbn [mbind res_bind].
  do 2 eexists. split; [reflexivity|]. exists L2.
  pose proof (quiet_removed s L p c l1 l2 Hr Hoc HL) as Hq1.
  assert (Hq := transitivity Hq1 Hq2). destruct Hq as [Hqr Hqt Hqf Hqm Hqa].
  assert (Hweight : weight L2 = weight L - 2 ^ o).
  { rewrite Hw2, weight_upd, HL, !length_app by done. cbn [length]. lia. }
  rewrite Z.shiftl_1_l. split; cbn; try done.
  - split; [by apply rep_counts|]. cbn. rewrite Hqf, Hw, Hweight. unfold saturating_sub.
    pose proof (weight_nonneg L2). lia.
  - apply Hv2.
  - apply Hv2.
  - by rewrite Hqr.
  - intros q o'. rewrite <- Hqa. apply Hal3.
  - intros q o' Hqo. apply Hqa in Hqo. apply (vc_apart _ _ _ _ Hv2). by right.
  - intros f. rewrite (covered_remove s L p c l1 l2 f Hr Hoc HL), Hc2.
    pose proof (Z.pow_le_mono_r 2 o c). pose proof (Z.pow_pos_nonneg 2 o).
    assert (p ≤ f < p + 2 ^ c ↔ p ≤ f < p + 2 ^ o ∨ p + 2 ^ o ≤ f < p + 2 ^ c) by lia. tauto.
Qed.

(** ** Freeing *)

Lemma lxor_pow2 q o : 0 ≤ o → q mod 2 ^ (o + 1) = 0 → Z.lxor q (2 ^ o) = q + 2 ^ o.
Proof.
  intros Ho Hq. symmetry. apply Z.add_nocarry_lxor. apply Z.bits_inj'. intros i Hi.
  rewrite Z.land_spec, Z.pow2_bits_eqb, Z.bits_0 by done.
  destruct (Z.eqb_spec o i) as [<-|]; [|by rewrite andb_false_r].
  apply Z.mod_divide in Hq as [k ->]; [|pose proof (Z.pow_pos_nonneg 2 (o + 1)); lia].
  by rewrite Z.mul_pow2_bits_low by lia.
Qed.

(** The buddy of an aligned block is the other half of its parent. *)
Lemma buddy_spec p o : 0 ≤ o → p mod 2 ^ o = 0 → let q := Z.lxor p (2 ^ o) in
  (q = p + 2 ^ o ∧ p mod 2 ^ (o + 1) = 0) ∨ (q = p - 2 ^ o ∧ q mod 2 ^ (o + 1) = 0).
Proof.
  intros Ho Hp. pose proof (Z.pow_pos_nonneg 2 o ltac:(lia) Ho) as Hpos.
  pose proof (pow2_succ o Ho) as Hs.
  apply Z.mod_divide in Hp as [k ->]; [|lia].
  destruct (Z.Even_or_Odd k) as [[m ->]|[m ->]].
  - left. assert (2 * m * 2 ^ o mod 2 ^ (o + 1) = 0).
    { apply Z.mod_divide; [lia|]. exists m. lia. }
    split; [by apply lxor_pow2|done].
  - right. assert (2 * m * 2 ^ o mod 2 ^ (o + 1) = 0) as Hm.
    { apply Z.mod_divide; [lia|]. exists m. lia. }
    pose proof (lxor_pow2 _ _ Ho Hm) as Hx.
    replace ((2 * m + 1) * 2 ^ o) with (2 * m * 2 ^ o + 2 ^ o) by lia.
    assert (Z.lxor (2 * m * 2 ^ o + 2 ^ o) (2 ^ o) = 2 * m * 2 ^ o) as ->; [|split; [lia|done]].
    by rewrite <- Hx, Z.lxor_assoc, Z.lxor_nilpotent, Z.lxor_0_r.
Qed.

Lemma vacant_removed s L p o l1 l2 q o' : rep s L → order_ok o → L o = l1 ++ p :: l2 →
  vacant s L q o' → vacant (removed s o p l1 l2) (upd L o (l1 ++ l2)) q o'.
Proof.
  intros Hr Ho HL [Hin Hpos Ha]. split; [done|done|]. intros r o1.
  rewrite block_removed by done. intros [? _]. auto.
Qed.

Lemma vacant_merge s L p o : rep s L → order_ok (o + 1) → 0 ≤ o →
  vacant s L p o → vacant s L (Z.lxor p (2 ^ o)) o →
  vacant s L (Z.min p (Z.lxor p (2 ^ o))) (o + 1).
Proof.
  intros Hr Ho1 Ho [(_ & Hp & Hm & Hmax) Hpos Ha] [(_ & Hq & Hqm & Hqmax) Hqpos Hqa].
  destruct (buddy_spec p o Ho Hm) as [[E Hx]|[E Hx]]; cbv zeta in E; rewrite E in *;
    pose proof (Z.pow_pos_nonneg 2 o ltac:(lia) Ho); pose proof (pow2_succ o Ho);
    (split; [unfold block_in; rewrite ?Z.min_l, ?Z.min_r by lia; lia|lia|]);
    intros q o' Hb; pose proof (Ha _ _ Hb); pose proof (Hqa _ _ Hb);
    pose proof (pow2_pos o' (proj1 (rp_block s L Hr _ _ Hb))); unfold apart in *; lia.
Qed.

(** The flag test of the code decides membership in a free list. *)
Lemma free_test s L q o : rep s L → order_ok o → 0 ≤ q < max_pfn s →
  negb (Z.land (flag_at s q) FLAG_FREE =? 0) && (Z.land (flag_at s q) ORDER_MASK =? o)
  = bool_decide (q ∈ L o).
Proof.
  intros Hr Ho Hq. case_bool_decide as Hin.
  - rewrite (rp_mark s L Hr o q Ho Hin). destruct (order_ok_flags o Ho) as (_&_&_&_&Hfr&_&->&_).
    rewrite Z.eqb_refl, andb_true_r. by apply negb_true_iff, Z.eqb_neq.
  - apply andb_false_iff. destruct (Z.eqb_spec (Z.land (flag_at s q) FLAG_FREE) 0) as [|Hf]; [by left|].
    right. apply Z.eqb_neq. intros Ho1. apply Hin.
    destruct (rp_free s L Hr q Hq Hf) as (o1 & Ho1' & Hin1).
    rewrite (rp_mark s L Hr o1 q Ho1' Hin1) in Ho1.
    destruct (order_ok_flags o1 Ho1') as (_&_&_&_&_&_&Hord&_). congruence.
Qed.

Lemma coalesce_rep n : ∀ s L p o, rep s L → vacant s L p o → o + Z.of_nat n = MAX_ORDER - 1 →
  ∃ s' L' p' o', coalesce n s p o = Ok (s', p', o') ∧ rep s' L' ∧ vacant s' L' p' o' ∧ quiet s s' ∧
    weight L' + 2 ^ o' = weight L + 2 ^ o ∧
    (∀ f, covered L' f ∨ p' ≤ f < p' + 2 ^ o' ↔ covered L f ∨ p ≤ f < p + 2 ^ o) ∧
    (o' = MAX_ORDER - 1 ∨ Z.lxor p' (2 ^ o') ∉ L' o').
Proof.
  induction n as [|n IH]; intros s L p o Hr Hv Hn; cbn [coalesce].
  { exists s, L, p, o. split_and!; try done. left. lia. }
  destruct (vc_in _ _ _ _ Hv) as (Ho & Hp & Hm & Hmax).
  rewrite Z.shiftl_1_l. set (q := Z.lxor p (2 ^ o)). pose proof (rp_links s L Hr) as Hl. lens Hl.
  assert (Hq0 : 0 ≤ q) by (apply Z.lxor_nonneg; pose proof (pow2_pos o Ho); lia).
  assert (Hstop : q ∉ L o → ∃ s' L' p' o', Ok (s, p, o) = Ok (E := Empty_set) (s', p', o') ∧ rep s' L' ∧ vacant s' L' p' o' ∧
    quiet s s' ∧ weight L' + 2 ^ o' = weight L + 2 ^ o ∧
    (∀ f, covered L' f ∨ p' ≤ f < p' + 2 ^ o' ↔ covered L f ∨ p ≤ f < p + 2 ^ o) ∧
    (o' = 11 - 1 ∨ Z.lxor p' (2 ^ o') ∉ L' o')).
  { intros Hno. exists s, L, p, o. split_and!; try done. by right. }
  destruct (Z.leb_spec (max_pfn s) q) as [Hge|Hlt].
  { apply Hstop. intros Hin. apply (ln_range s L Hl o q Ho) in Hin. lia. }
  rewrite index_rd by lia. cbn [mbind res_bind].
  rewrite (free_test s L q o Hr Ho ltac:(lia)). case_bool_decide as Hin; [|by apply Hstop].
  destruct (remove_rep s L q o Hr Ho Hin) as (l1 & l2 & HL & -> & Hr1 & Hvq). cbn [mbind res_bind].
  assert (Hvp := vacant_removed s L q o l1 l2 p o Hr Ho HL Hv).
  assert (Hvm : vacant (removed s o q l1 l2) (upd L o (l1 ++ l2)) (Z.min p q) (o + 1)).
  { apply vacant_merge; [done|unfold MAX_ORDER; lia|lia|done|done]. }
  destruct (IH _ _ _ _ Hr1 Hvm ltac:(lia)) as (s' & L' & p' & o' & -> & Hr' & Hv' & Hq' & Hw' & Hc' & Hmx).
  exists s', L', p', o'. split; [done|]. split; [done|]. split; [done|]. split.
  { etransitivity; [|done]. by eapply quiet_removed. }
  split; [|split; [|done]].
  - rewrite Hw', weight_upd, HL, !length_app, pow2_succ by (done || lia). cbn [length]. lia.
  - intros f. rewrite Hc', (covered_remove s L q o l1 l2 f Hr Ho HL), pow2_succ by lia.
    assert (Z.min p q ≤ f < Z.min p q + (2 ^ o + 2 ^ o) ↔ q ≤ f < q + 2 ^ o ∨ p ≤ f < p + 2 ^ o); [|tauto].
    destruct (buddy_spec p o ltac:(lia) Hm) as [[E _]|[E _]]; fold q in E; cbv zeta in E; rewrite E; lia.
Qed.

Lemma links_length s L o : links s L → order_ok o → zlen (L o) ≤ max_pfn s.
Proof.
  intros Hl Ho. lens Hl. assert (length (L o) ≤ length (seqZ 0 (max_pfn s)))%nat.
  { apply submseteq_length, NoDup_submseteq; [by apply (ln_nodup s L Hl)|].
    intros p Hp%(ln_range s L Hl); [|done]. by apply elem_of_seqZ. }
  rewrite length_seqZ in H. lia.
Qed.

Lemma weight_bound s L : links s L → weight L < 2 ^ 40.
Proof.
  intros Hl. pose proof (λ o, links_length s L o Hl) as Hlen. lens Hl.
  unfold weight. change (seqZ 0 MAX_ORDER) with [0; 1; 2; 3; 4; 5; 6; 7; 8; 9; 10].
  cbn -[Z.add Z.mul Z.of_nat].
  pose proof (Hlen 0); pose proof (Hlen 1); pose proof (Hlen 2); pose proof (Hlen 3);
  pose proof (Hlen 4); pose proof (Hlen 5); pose proof (Hlen 6); pose proof (Hlen 7);
  pose proof (Hlen 8); pose proof (Hlen 9); pose proof (Hlen 10). lia.
Qed.

(** Clearing the allocated flag of a block makes it vacant. *)
Lemma unclaim_rep s L p o : rep s L → allocd s p o → 0 < p →
  let s' := with_flags (with_refcounts s (wr (refcounts s) p 0))
              (wr (flags s) p (Z.land (flag_at s p) (bnot 8 FLAG_ALLOCATED))) in
  rep s' L ∧ vacant s' L p o ∧ ∀ q o', allocd s' q o' ↔ allocd s q o' ∧ q ≠ p.
Proof.
  intros Hr Hal Hpos s'. pose proof (rp_links s L Hr) as Hl. lens Hl.
  destruct Hal as (Hp & Ha & Hm). set (v := Z.land (flag_at s p) (bnot 8 FLAG_ALLOCATED)) in *.
  assert (Hself : block s L p o) by (right; by split).
  assert (Hni : ∀ o', order_ok o' → p ∉ L o').
  { intros o' Ho' Hin. apply Ha. rewrite (rp_mark s L Hr o' p Ho' Hin). by apply order_ok_flags. }
  assert (Hv1 : Z.land v FLAG_ALLOCATED = 0) by (unfold v; by rewrite <- Z.land_assoc, Z.land_0_r).
  assert (Hv2 : Z.land v FLAG_FREE = Z.land (flag_at s p) FLAG_FREE) by (unfold v; by rewrite <- Z.land_assoc).
  assert (Hal' : ∀ q o', allocd s' q o' ↔ allocd s q o' ∧ q ≠ p).
  { intros q o'. unfold allocd. cbn. destruct (decide (0 ≤ q)); [|naive_solver lia].
    rewrite rd_wr by lia. case_decide; [subst q|]; naive_solver. }
  assert (Hb : ∀ q o', block s' L q o' ↔ block s L q o' ∧ q ≠ p).
  { intros q o'. unfold block. rewrite Hal'. split; [|tauto].
    intros [[? ?]|?]; [|tauto]. split; [by left; split|]. intros ->. by apply (Hni o'). }
  split; [split|split; [split|done]].
  - destruct Hl. split; try done. by split; cbn; rewrite ?length_wr.
  - intros o' q Ho' Hq. cbn. rewrite rd_wr_ne; [by apply (rp_mark s L Hr)|lia| |].
    + by eapply (ln_range s L Hl o').
    + intros ->. by apply (Hni o').
  - intros q Hq. cbn in Hq |- *. rewrite rd_wr by lia. case_decide; [subst q; rewrite Hv2|];
      by apply (rp_free s L Hr).
  - apply (rp_pos s L Hr).
  - intros q o' [? _]%Hb. by apply (rp_block s L Hr).
  - intros q1 o1 q2 o2 [? _]%Hb [? _]%Hb. by apply (rp_disj s L Hr).
  - intros q Hq. cbn in Hq |- *. rewrite !rd_wr by lia. case_decide; [done|]. by apply (rp_ref s L Hr).
  - by apply (rp_block s L Hr).
  - done.
  - intros q o' [Hq Hne]%Hb. destruct (rp_disj s L Hr _ _ _ _ Hself Hq) as [[-> _]|?]; done.
Qed.

(** What releasing the block [p], [o] does, on the lists. *)
Record released (s : BuddyAllocator) (L : Z → list Z) (p o : Z) (s' : BuddyAllocator)
    (L' : Z → list Z) : Prop := {
  rl_inv : invariant_on s' L'; rl_max : max_pfn s' = max_pfn s;
  rl_ref : refcounts s' = wr (refcounts s) p 0;
  rl_alloc q o' : allocd s' q o' ↔ allocd s q o' ∧ q ≠ p;
  rl_weight : weight L' = weight L + 2 ^ o;
  rl_covered f : covered L' f ↔ covered L f ∨ p ≤ f < p + 2 ^ o }.

Lemma free_order_rep s L p o : invariant_on s L → allocd s p o → 0 < p →
  ∃ s' L', free_order (with_refcounts s (wr (refcounts s) p 0)) p o = Ok s' ∧ released s L p o s' L'.
Proof.
  intros [Hr Hw] Hal Hpos. pose proof (rp_links s L Hr) as Hl. pose proof (weight_bound s L Hl).
  pose proof (rp_block s L Hr _ _ (or_intror Hal)) as Hin. assert (Ho := proj1 Hin). lens Hl.
  pose proof (block_in_range _ _ _ Hin) as Hp. pose proof (pow2_pos o Ho).
  destruct (unclaim_rep s L p o Hr Hal Hpos) as (Hr1 & Hv1 & Ha1). cbv zeta in Hr1, Hv1, Ha1.
  unfold free_order. cbn [flags with_counts with_refcounts refcounts]. rewrite index_rd by lia.
  cbn [mbind res_bind]. unfold set_flag. cbn [flags with_counts with_refcounts]. rewrite update_wr by lia.
  cbn [mbind res_bind]. rewrite Z.shiftl_1_l. set (v := Z.land _ _) in *.
  assert (2 ^ o ≤ 2 ^ 10) by (apply Z.pow_le_mono_r; lia).
  rewrite wrap_small by (unfold is_u; cbn; rewrite Hw; pose proof (weight_nonneg L); lia).
  set (s1 := with_flags _ _) in Hr1, Hv1, Ha1.
  change (with_flags _ (wr (flags s) p v)) with (with_counts s1 (total_usable_frames s) (free_frames s + 2 ^ o)).
  set (s2 := with_counts s1 _ _).
  destruct (coalesce_rep (Z.to_nat (MAX_ORDER - 1 - o)) s2 L p o) as
    (s3 & L3 & p3 & o3 & -> & Hr3 & Hv3 & Hq3 & Hw3 & Hc3 & _);
    [by apply rep_counts|by destruct Hv1|unfold MAX_ORDER; lia|].
  cbn [mbind res_bind]. destruct (push_rep s3 L3 p3 o3 Hr3 Hv3) as [-> Hr4].
  eexists _, _. split; [reflexivity|].
  assert (Hq4 : quiet s2 (pushed s3 o3 p3)) by (etransitivity; [done|by eapply quiet_pushed]).
  destruct Hq4 as [Hqr Hqt Hqf Hqm Hqa].
  assert (Ho3 : order_ok o3) by apply Hv3.
  assert (Hweight : weight (upd L3 o3 (p3 :: L3 o3)) = weight L + 2 ^ o).
  { rewrite weight_upd by done. cbn [length]. lia. }
  split.
  - split; [done|]. rewrite Hqf, Hweight. cbn. lia.
  - done.
  - done.
  - intros q o'. rewrite Hqa. apply Ha1.
  - done.
  - intros f. rewrite covered_push by done. apply Hc3.
Qed.

(** Changing only a positive reference count of an allocated frame. *)
Lemma refcount_rep s L p r : rep s L → 0 ≤ p < max_pfn s → 0 < ref_at s p → is_u 16 r →
  rep (with_refcounts s (wr (refcounts s) p r)) L.
Proof.
  intros Hr Hp Hpos Hu. pose proof (rp_links s L Hr) as Hl. lens Hl.
  destruct Hr as [[[] ?????] ????? Hrf]. split; [split; [by split; cbn; rewrite ?length_wr|done..]|done..|].
  intros q Hq. cbn in Hq |- *. rewrite rd_wr by lia. case_decide; [|by apply Hrf]. subst q.
  split; [done|]. intros _. by apply Hrf.
Qed.

Lemma good_frame addr : 0 ≤ addr → bad_frame addr = false →
  addr = PAGE_SIZE * (addr / PAGE_SIZE) ∧ 0 < addr / PAGE_SIZE.
Proof.
  unfold bad_frame, PAGE_SIZE. intros Ha [Hnz%Z.eqb_neq Hm]%orb_false_iff.
  apply negb_false_iff, Z.eqb_eq in Hm. change (4096 - 1) with (2 ^ 12 - 1) in Hm.
  rewrite land_mask in Hm by lia. change (2 ^ 12) with 4096 in Hm.
  pose proof (Z.div_mod addr 4096). lia.
Qed.

Lemma bad_frame_page p : 0 < p → bad_frame (p * PAGE_SIZE) = false.
Proof.
  intros Hp. unfold bad_frame. change (PAGE_SIZE - 1) with (2 ^ 12 - 1). rewrite land_mask by lia.
  change (2 ^ 12) with PAGE_SIZE. rewrite Z.mod_mul by done.
  apply orb_false_iff. split; [|done]. apply Z.eqb_neq. unfold PAGE_SIZE. lia.
Qed.

Lemma free_rep s L addr : invariant_on s L → 0 ≤ addr →
  let p := addr / PAGE_SIZE in
  if bad_frame addr || (max_pfn s <=? p) || (ref_at s p =? 0) then free s addr = Ok (s, false)
  else if 1 <? ref_at s p then
    let s' := with_refcounts s (wr (refcounts s) p (ref_at s p - 1)) in
    free s addr = Ok (s', true) ∧ invariant_on s' L
  else ∃ s' L' o, free s addr = Ok (s', true) ∧ allocd s p o ∧ released s L p o s' L'.
Proof.
  intros [Hr Hw] Haddr p. unfold free. fold p. destruct (bad_frame addr) eqn:Eb; [done|].
  destruct (Z.leb_spec (max_pfn s) p) as [|Hlt]; [done|]. cbn [orb].
  pose proof (rp_links s L Hr) as Hl. lens Hl.
  assert (0 ≤ p) by (apply Z.div_pos; [done|by unfold PAGE_SIZE]).
  rewrite index_rd by lia. cbn [mbind res_bind].
  destruct (rp_ref s L Hr p ltac:(lia)) as [Hu Ha].
  destruct (Z.eqb_spec (ref_at s p) 0) as [Hz|Hz].
  { by rewrite Hz. }
  assert (0 < ref_at s p) as Hpos by (destruct Hu; lia).
  destruct (Z.ltb_spec 1 (ref_at s p)) as [Hgt|Hle].
  { run_arrays. split; [done|]. split; [|done]. apply refcount_rep; [done|lia|done|].
    destruct Hu. split; lia. }
  assert (ref_at s p = 1) as -> by lia. cbn [Z.eqb Pos.eqb]. run_arrays.
  destruct (good_frame addr Haddr Eb) as [_ Hp].
  destruct (free_order_rep s L p (Z.land (flag_at s p) ORDER_MASK)) as (s' & L' & -> & Hrel);
    [done|split; [lia|split; [by apply Ha|done]]|done|].
  exists s', L', (Z.land (flag_at s p) ORDER_MASK). split; [done|]. split; [|done].
  split; [lia|]. split; [by apply Ha|done].
Qed.

(** ** Reserving *)

(** Carving keeps the frame and hands back the rest of the block. *)
Lemma carve_rep n : ∀ s L p h, rep s L → vacant s L h (Z.of_nat n) → h ≤ p < h + 2 ^ Z.of_nat n →
  ∃ s' L', carve n s p h = Ok s' ∧ rep s' L' ∧ vacant s' L' p 0 ∧ quiet s s' ∧
    weight L' = weight L + 2 ^ Z.of_nat n - 1 ∧
    ∀ f, covered L' f ↔ covered L f ∨ (h ≤ f < h + 2 ^ Z.of_nat n ∧ f ≠ p).
Proof.
  induction n as [|n IH]; intros s L p h Hr Hv Hp.
  { change (2 ^ Z.of_nat 0) with 1 in *. assert (p = h) as -> by lia. exists s, L.
    split_and!; [done..|lia|]. intros f. split; [auto|]. intros [?|?]; [done|lia]. }
  cbn [carve]. set (o := Z.of_nat n) in *.
  replace (Z.of_nat (S n)) with (o + 1) in * by lia. rewrite pow2_succ in * by lia.
  assert (Ho : order_ok o) by (pose proof (proj1 (vc_in _ _ _ _ Hv)); lia).
  destruct (vacant_halves s L h o Ho Hv) as [Hlo Hhi]. rewrite Z.shiftl_1_l.
  assert (Hgo : ∀ a b, vacant s L a o → vacant s L b o → (apart a o b o) → a ≤ p < a + 2 ^ o →
    (∀ f, a ≤ f < a + 2 ^ o ∨ b ≤ f < b + 2 ^ o ↔ h ≤ f < h + (2 ^ o + 2 ^ o)) →
    ∃ s' L', (s0 ← list_push s o b; carve n s0 p a) = Ok s' ∧ rep s' L' ∧ vacant s' L' p 0 ∧
      quiet s s' ∧ weight L' = weight L + (2 ^ o + 2 ^ o) - 1 ∧
      ∀ f, covered L' f ↔ covered L f ∨ (h ≤ f < h + (2 ^ o + 2 ^ o) ∧ f ≠ p)).
  { intros a b Ha Hb Hab Hpa Hun. destruct (push_rep s L b o Hr Hb) as [-> Hr1]. cbn [mbind res_bind].
    assert (Hv1 := vacant_pushed s L b o a o Hr Hb Ha Hab).
    destruct (IH _ _ p a Hr1 Hv1 Hpa) as (s' & L' & -> & ? & ? & Hq & Hw & Hc).
    exists s', L'. split_and!; [done..| | |].
    - etransitivity; [|done]. by eapply quiet_pushed.
    - rewrite Hw, weight_upd by done. cbn [length]. lia.
    - intros f. rewrite Hc, covered_push, <- Hun by done. unfold apart in Hab.
      assert (b ≤ f < b + 2 ^ o → f ≠ p) by lia. tauto. }
  destruct (Z.ltb_spec p (h + 2 ^ o)).
  - apply (Hgo h (h + 2 ^ o)); [done|done|left; lia|lia|lia].
  - apply (Hgo (h + 2 ^ o) h); [done|done|right; lia|lia|lia].
Qed.

Definition block_head (p o : Z) : Z := p - p mod 2 ^ o.

Lemma block_head_code s p o : lengths s → 0 ≤ p < max_pfn s → order_ok o →
  Z.land p (bnot 64 (Z.shiftl 1 o - 1)) = block_head p o ∧ 0 ≤ block_head p o < max_pfn s ∧
  block_head p o ≤ p < block_head p o + 2 ^ o.
Proof.
  intros [] Hp Ho. unfold MAX_SUPPORTED_FRAMES, MAX_ORDER in *. rewrite Z.shiftl_1_l.
  pose proof (Z.pow_pos_nonneg 2 o). pose proof (Z.mod_pos_bound p (2 ^ o)).
  rewrite align_down by (unfold is_u; lia). unfold block_head.
  pose proof (Z.mod_le p (2 ^ o)). lia.
Qed.

Lemma covered_head s L p : rep s L → covered L p ↔ ∃ o, order_ok o ∧ block_head p o ∈ L o.
Proof.
  intros Hr. unfold covered, block_head. split.
  - intros (o & q & Ho & Hq & Hle). exists o. split; [done|].
    destruct (rp_block s L Hr q o) as (_ & _ & Hm & _); [left; auto|].
    pose proof (pow2_pos o Ho). replace (p mod 2 ^ o) with (p - q); [by replace (p - (p - q)) with q by lia|].
    apply Z.mod_divide in Hm as [k ->]; [|lia]. apply Z.mod_unique_pos with k; lia.
  - intros (o & Ho & Hq). eexists o, _. split; [done|]. split; [done|].
    pose proof (Z.mod_pos_bound p (2 ^ o) (pow2_pos o Ho)). lia.
Qed.

(** Flagging an unlisted frame as reserved changes nothing else. *)
Lemma reserved_flag_rep s L p : rep s L → 0 ≤ p < max_pfn s → ¬ covered L p →
  let s' := with_flags s (wr (flags s) p (Z.lor (flag_at s p) FLAG_RESERVED)) in
  rep s' L ∧ quiet s s'.
Proof.
  intros Hr Hp Hnc s'. pose proof (rp_links s L Hr) as Hl. lens Hl.
  assert (Hni : ∀ o, order_ok o → p ∉ L o).
  { intros o Ho Hin. apply Hnc. exists o, p. pose proof (pow2_pos o Ho). split; [done|]. split; [done|lia]. }
  assert (Hbits : ∀ m, Z.land FLAG_RESERVED m = 0 →
    Z.land (Z.lor (flag_at s p) FLAG_RESERVED) m = Z.land (flag_at s p) m).
  { intros m Hm. by rewrite Z.land_lor_distr_l, Hm, Z.lor_0_r. }
  assert (Hal : ∀ q o, allocd s' q o ↔ allocd s q o).
  { intros q o. unfold allocd. cbn. destruct (decide (0 ≤ q)); [|naive_solver lia].
    rewrite rd_wr by lia. case_decide; [subst q|done]. by rewrite !Hbits. }
  assert (Hb : ∀ q o, block s' L q o ↔ block s L q o) by (intros; unfold block; by rewrite Hal).
  split; [|by split]. split.
  - destruct Hl. split; try done. by split; cbn; rewrite ?length_wr.
  - intros o q Ho Hq. cbn. rewrite rd_wr_ne; [by apply (rp_mark s L Hr)|lia| |].
    + by eapply (ln_range s L Hl o).
    + intros ->. by apply (Hni o).
  - intros q Hq. cbn in Hq |- *. rewrite rd_wr by lia. case_decide; [subst q; rewrite Hbits by done|];
      by apply (rp_free s L Hr).
  - apply (rp_pos s L Hr).
  - intros q o ?%Hb. by apply (rp_block s L Hr).
  - intros q1 o1 q2 o2 ?%Hb ?%Hb. by apply (rp_disj s L Hr).
  - intros q Hq. cbn in Hq |- *. rewrite rd_wr by lia. case_decide; [subst q; rewrite Hbits by done|];
      by apply (rp_ref s L Hr).
Qed.

(** Taking the one frame [p] out of the free block at [h]. *)
Lemma carve_out s L p h o : invariant_on s L → order_ok o → h ∈ L o → h ≤ p < h + 2 ^ o →
  ∃ s' L', (s1 ← list_remove s o h; s2 ← carve (Z.to_nat o) s1 p h;
            s3 ← set_flag s2 p (Z.lor FLAG_RESERVED FLAG_ALLOCATED); s4 ← set_refcount s3 p 1;
            Ok (with_counts s4 (total_usable_frames s4) (saturating_sub (free_frames s4) 1))) = Ok s' ∧
    granted s L 0 s' L' p.
Proof.
  intros [Hr Hw] Ho Hin Hp. pose proof (pow2_pos o Ho).
  destruct (remove_rep s L h o Hr Ho Hin) as (l1 & l2 & HL & -> & Hr1 & Hv1). cbn [mbind res_bind].
  pose proof (quiet_removed s L h o l1 l2 Hr Ho HL) as Hq1.
  destruct (carve_rep (Z.to_nat o) (removed s o h l1 l2) (upd L o (l1 ++ l2)) p h) as
    (s2 & L2 & -> & Hr2 & Hv2 & Hq2 & Hw2 & Hc2); rewrite ?Z2Nat.id in * by lia; [done..|].
  cbn [mbind res_bind].
  destruct (claim_rep s2 L2 p 0 (Z.lor FLAG_RESERVED FLAG_ALLOCATED) 1 Hr2 Hv2)
    as (-> & Hs3 & Hr3 & Hal3); [done..|]. cbn [mbind res_bind]. rewrite Hs3. cbn [mbind res_bind].
  do 2 eexists. split; [reflexivity|].
  assert (Hq := transitivity Hq1 Hq2). destruct Hq as [Hqr Hqt Hqf Hqm Hqa].
  assert (Hweight : weight L2 = weight L - 1).
  { rewrite Hw2, weight_upd, HL, !length_app by done. cbn [length]. lia. }
  split; cbn -[Z.pow]; try done; try apply Hv2.
  - split; [by apply rep_counts|]. cbn. rewrite Hqf, Hw, Hweight. unfold saturating_sub.
    pose proof (weight_nonneg L2). lia.
  - by rewrite Hqr.
  - intros q o'. rewrite <- Hqa. apply Hal3.
  - intros q o' Hqo. apply Hqa in Hqo. apply (vc_apart _ _ _ _ Hv2). by right.
  - intros f. rewrite (covered_remove s L h o l1 l2 f Hr Ho HL), Hc2. change (2 ^ 0) with 1.
    assert (h ≤ f < h + 2 ^ o ↔ (h ≤ f < h + 2 ^ o ∧ f ≠ p) ∨ p ≤ f < p + 1) by lia. tauto.
Qed.

Lemma reserve_scan_rep n : ∀ s L p o, invariant_on s L → 0 ≤ p < max_pfn s → 0 ≤ o →
  o + Z.of_nat n = MAX_ORDER → (∀ o', 0 ≤ o' < o → block_head p o' ∉ L o') →
  ∃ s', reserve_scan n s p o = Ok s' ∧
    ((covered L p ∧ ∃ L', granted s L 0 s' L' p) ∨
     (¬ covered L p ∧ invariant_on s' L ∧ quiet s s')).
Proof.
  induction n as [|n IH]; intros s L p o [Hr Hw] Hp Ho Hn Hprev; cbn [reserve_scan];
    pose proof (rp_links s L Hr) as Hl; assert (Hlen := ln_len s L Hl); lens Hl.
  { run_arrays. eexists. split; [reflexivity|]. right. assert (¬ covered L p) as Hnc.
    { rewrite (covered_head s L p Hr). intros (o' & ? & ?). apply (Hprev o'); [|done].
      unfold MAX_ORDER in *. lia. }
    destruct (reserved_flag_rep s L p Hr Hp Hnc). done. }
  assert (order_ok o) as Hoo by (unfold MAX_ORDER; lia).
  destruct (block_head_code s p o Hlen Hp Hoo) as (-> & Hh & Hhp).
  rewrite index_rd by lia. cbn [mbind res_bind]. rewrite (free_test s L _ o Hr Hoo Hh).
  case_bool_decide as Hin.
  2:{ apply IH; [done|done|lia|unfold MAX_ORDER; lia|]. intros o' Ho'.
      destruct (decide (o' = o)) as [->|]; [done|]. apply Hprev. lia. }
  destruct (carve_out s L p (block_head p o) o (conj Hr Hw) Hoo Hin Hhp) as (s' & L' & -> & Hg).
  exists s'. split; [done|]. left. split; [|by exists L']. exists o, (block_head p o). done.
Qed.

(** An allocated frame is not free. *)
Lemma allocd_not_covered s L p : rep s L → 0 ≤ p < max_pfn s →
  Z.land (flag_at s p) FLAG_ALLOCATED ≠ 0 → ¬ covered L p.
Proof.
  intros Hr Hp Ha (o & q & Ho & Hq & Hle).
  assert (Hb : block s L p (Z.land (flag_at s p) ORDER_MASK)) by (right; by split).
  assert (Hbq : block s L q o) by (left; auto).
  pose proof (pow2_pos _ (proj1 (rp_block s L Hr _ _ Hb))).
  destruct (rp_disj s L Hr _ _ _ _ Hbq Hb) as [[-> _]|[?|?]]; [|lia..].
  apply Ha. rewrite (rp_mark s L Hr o p Ho Hq). by apply order_ok_flags.
Qed.

Lemma reserve_rep s L addr : invariant_on s L → 0 ≤ addr →
  let p := addr / PAGE_SIZE in
  if bad_frame addr || (max_pfn s <=? p) then reserve s addr = Ok (s, false)
  else ∃ s', reserve s addr = Ok (s', true) ∧
    ((covered L p ∧ Z.land (flag_at s p) FLAG_RESERVED = 0 ∧ ∃ L', granted s L 0 s' L' p) ∨
     (¬ covered L p ∧ invariant_on s' L ∧ quiet s s') ∨
     (covered L p ∧ Z.land (flag_at s p) FLAG_RESERVED ≠ 0 ∧ s' = s)).
Proof.
  intros [Hr Hw] Haddr p. unfold reserve. fold p. destruct (bad_frame addr) eqn:Eb; [done|].
  destruct (Z.leb_spec (max_pfn s) p) as [|Hlt]; [done|]. cbn [orb].
  pose proof (rp_links s L Hr) as Hl. lens Hl.
  assert (0 ≤ p) by (apply Z.div_pos; [done|by unfold PAGE_SIZE]).
  rewrite index_rd by lia. cbn [mbind res_bind].
  destruct (Z.eqb_spec (Z.land (flag_at s p) FLAG_ALLOCATED) 0) as [_|Ha]; cbn [negb orb].
  2:{ exists s. split; [done|]. right. left. split; [by eapply allocd_not_covered; [done|lia|]|by split]. }
  destruct (Z.eqb_spec (Z.land (flag_at s p) FLAG_RESERVED) 0) as [Hz|Hz]; cbn [negb].
  - destruct (reserve_scan_rep (Z.to_nat 11) s L p 0 (conj Hr Hw)) as (s' & -> & Hs);
      [unfold MAX_ORDER; lia..|].
    exists s'. split; [done|]. tauto.
  - exists s. split; [done|]. destruct (reserve_scan_rep (Z.to_nat 11) s L p 0 (conj Hr Hw))
      as (s' & _ & [[? _]|[? _]]); [unfold MAX_ORDER; lia..|by right; right|].
    right. left. split; [done|]. split; [by split|reflexivity].
Qed.

(** ** Adding ranges *)

Lemma fit_order_spec n start end_ : start < end_ →
  let o := Z.of_nat (fit_order n start end_) in
  0 ≤ o ≤ Z.of_nat n ∧ start + 2 ^ o ≤ end_ ∧ start mod 2 ^ o = 0.
Proof.
  intros Hlt. induction n as [|n IH]; cbn [fit_order].
  { change (2 ^ Z.of_nat 0) with 1. rewrite Z.mod_1_r. lia. }
  destruct (_ && _) eqn:E; [|cbv zeta in IH; lia].
  apply andb_true_iff in E as [?%Z.leb_le Hm%Z.eqb_eq]. rewrite Z.shiftl_1_l in *.
  rewrite land_mask in Hm by lia. cbv zeta. lia.
Qed.

(** A range of frames none of which is in a block. *)
Definition untracked (s : BuddyAllocator) (L : Z → list Z) (a b : Z) : Prop :=
  ∀ q o, block s L q o → q + 2 ^ o ≤ a ∨ b ≤ q.

Lemma add_blocks_rep fuel : ∀ s L a b, rep s L → 0 < a → b ≤ max_pfn s → b - a ≤ Z.of_nat fuel →
  untracked s L a b →
  ∃ s' L', add_blocks fuel s a b = Ok s' ∧ rep s' L' ∧ quiet s s' ∧
    weight L' = weight L + Z.max 0 (b - a) ∧ ∀ f, covered L' f ↔ covered L f ∨ a ≤ f < b.
Proof.
  induction fuel as [|fuel IH]; intros s L a b Hr Ha Hb Hf Hu; cbn [add_blocks];
    (destruct (Z.leb_spec b a); [exists s, L; split; [done|]; split; [done|]; split; [done|]; split;
       [lia|intros f; assert (¬ a ≤ f < b) by lia; tauto]|]).
  { lia. }
  destruct (fit_order_spec (Z.to_nat (MAX_ORDER - 1)) a b) as (Ho & Hle & Hm); [lia|].
  set (o := Z.of_nat (fit_order _ _ _)) in *. assert (order_ok o) as Hoo by (unfold MAX_ORDER in *; lia).
  pose proof (pow2_pos o Hoo) as Hpos.
  assert (Hv : vacant s L a o).
  { split; [unfold block_in; lia|done|]. intros q o' Hq. destruct (Hu q o' Hq); unfold apart; lia. }
  destruct (push_rep s L a o Hr Hv) as [-> Hr1]. cbn [mbind res_bind]. rewrite Z.shiftl_1_l.
  destruct (IH (pushed s o a) (upd L o (a :: L o)) (a + 2 ^ o) b Hr1)
    as (s' & L' & -> & Hr' & Hq & Hw & Hc); [lia|done|lia| |].
  { intros q o'. rewrite block_pushed by done. intros [Hq|[-> ->]]; [|lia]. destruct (Hu q o' Hq); lia. }
  exists s', L'. split_and!; [done..| | |].
  - etransitivity; [|done]. by eapply quiet_pushed.
  - rewrite Hw, weight_upd by done. cbn [length]. lia.
  - intros f. rewrite Hc, covered_push by done. assert (a ≤ f < b ↔ a ≤ f < a + 2 ^ o ∨ a + 2 ^ o ≤ f < b); [lia|tauto].
Qed.

(** The frames [add_range] adds: whole pages of the range, page 0 excluded,
    below the tracked limit; none when the range wraps around. *)
Definition range_lo (base : Z) : Z := Z.max 1 (saturating_add 64 base (PAGE_SIZE - 1) / PAGE_SIZE).
Definition range_hi (max base length : Z) : Z :=
  if base + length <? 2 ^ 64 then Z.min ((base + length) / PAGE_SIZE) max else 0.

Lemma page_floor_div x : is_u 64 x → Z.land x (bnot 64 (PAGE_SIZE - 1)) = PAGE_SIZE * (x / PAGE_SIZE).
Proof.
  intros Hx. unfold PAGE_SIZE. change (4096 - 1) with (2 ^ 12 - 1).
  rewrite (align_down 64 12 x) by (done || lia).
  change (2 ^ 12) with 4096. pose proof (Z.div_mod x 4096). lia.
Qed.

Lemma add_range_rep s L base length : invariant_on s L → is_u 64 base → is_u 64 length →
  let a := range_lo base in let b := range_hi (max_pfn s) base length in
  (a < b → untracked s L a b) →
  ∃ s' L', add_range s base length = Ok (s', Z.max 0 (b - a)) ∧ invariant_on s' L' ∧
    refcounts s' = refcounts s ∧ max_pfn s' = max_pfn s ∧ (∀ q o, allocd s' q o ↔ allocd s q o) ∧
    ∀ f, covered L' f ↔ covered L f ∨ a ≤ f < b.
Proof.
  intros [Hr Hw] Hb Hlen a b Hu. pose proof (rp_links s L Hr) as Hl. lens Hl.
  assert (Hnone : b ≤ a → ∃ s' L', Ok (s, 0) = Ok (E := Empty_set) (s', Z.max 0 (b - a)) ∧
    invariant_on s' L' ∧ refcounts s' = refcounts s ∧ max_pfn s' = max_pfn s ∧
    (∀ q o, allocd s' q o ↔ allocd s q o) ∧ ∀ f, covered L' f ↔ covered L f ∨ a ≤ f < b).
  { intros ?. exists s, L. split; [do 2 f_equal; lia|]. do 4 (split; [done|]).
    intros f. assert (¬ a ≤ f < b) by lia. tauto. }
  unfold add_range, checked_add. unfold range_hi in b.
  assert (1 ≤ a) by (unfold a, range_lo; lia).
  destruct (Z.ltb_spec (base + length) (2 ^ 64)) as [Hsum|]; [|apply Hnone; lia].
  unfold align_up. set (x := saturating_add 64 base (PAGE_SIZE - 1)) in *.
  assert (is_u 64 x) by (apply saturating_add_range; done).
  rewrite (page_floor_div x) by done. rewrite (page_floor_div (base + length)) by (destruct Hb, Hlen; split; lia).
  assert (Ha : a = Z.max 1 (x / 4096)) by reflexivity.
  unfold PAGE_SIZE in *. assert (Z.max (4096 * (x / 4096)) 4096 = a * 4096) as -> by lia.
  rewrite Z.div_mul, (Z.mul_comm 4096 ((base + length) / 4096)), Z.div_mul by lia. fold b.
  destruct (Z.leb_spec ((base + length) / 4096 * 4096) (a * 4096)); [apply Hnone; lia|].
  destruct (Z.leb_spec b a); [by apply Hnone|].
  pose proof (weight_bound s L Hl). pose proof (weight_nonneg L). assert (b ≤ max_pfn s) by lia.
  rewrite (wrap_small 64 (free_frames s + _)) by (unfold is_u; lia).
  destruct (add_blocks_rep (Z.to_nat (b - a)) (with_counts s (u64 (total_usable_frames s + (b - a)))
    (free_frames s + (b - a))) L a b) as (s' & L' & -> & Hr' & Hq & Hw' & Hc);
    [by apply rep_counts|lia|done|lia|by apply Hu|].
  cbn [mbind res_bind]. exists s', L'. destruct Hq as [Hqr _ Hqf Hqm Hqa].
  split; [do 2 f_equal; lia|]. split; [split; [done|rewrite Hqf; cbn; lia]|]. by repeat (split; [done|]).
Qed.

