(* ===== verification/BuddyBoot.v ===== *)
(** * Frame allocator: boot

    [init] turns a memory map of the boot loader into an allocator whose free
    frames are the usable ones outside the metadata area. *)

From stdpp Require Import gmap.
From S2P Require Import Prelude Words Buddy BuddyLinks BuddyBlocks.

(** ** Boot *)

(** Marking a run of untracked frames as metadata. *)
Lemma mark_meta_rep n : ∀ s L p, invariant_on s L → 0 < p → p + Z.of_nat n ≤ max_pfn s →
  (∀ q o, block s L q o → q + 2 ^ o ≤ p ∨ p + Z.of_nat n ≤ q) →
  ∃ s', mark_meta n s p = Ok s' ∧ invariant_on s' L ∧ max_pfn s' = max_pfn s ∧
    (∀ q o, allocd s' q o ↔ allocd s q o ∨ (o = 0 ∧ p ≤ q < p + Z.of_nat n)) ∧
    (∀ q, 0 ≤ q → ref_at s' q = if decide (p ≤ q < p + Z.of_nat n) then 1 else ref_at s q).
Proof.
  induction n as [|n IH]; intros s L p [Hr Hw] Hp Hmax Hu; cbn [mark_meta].
  { exists s. split; [done|]. do 2 (split; [done|]). split; [naive_solver lia|].
    intros q _. by rewrite decide_False by lia. }
  lens (rp_links s L Hr).
  assert (Hv : vacant s L p 0).
  { split; [unfold block_in, MAX_ORDER; change (2 ^ 0) with 1; rewrite Z.mod_1_r; lia|done|].
    intros q o Hq. unfold apart. change (2 ^ 0) with 1. destruct (Hu q o Hq); lia. }
  destruct (claim_rep s L p 0 (Z.lor FLAG_RESERVED FLAG_ALLOCATED) 1 Hr Hv)
    as (-> & Hs1 & Hr1 & Hal1); [done..|]. cbn [mbind res_bind]. rewrite Hs1. cbn [mbind res_bind].
  set (s1 := with_refcounts _ _) in *.
  destruct (IH s1 L (p + 1)) as (s' & -> & Hi & Hm & Hal & Href); [done|lia|cbn; lia| |].
  { intros q o [Hq|Hq]; [destruct (Hu q o (or_introl Hq)); lia|].
    apply Hal1 in Hq as [Hq|[-> ->]]; [destruct (Hu q o (or_intror Hq)); lia|].
    change (2 ^ 0) with 1. lia. }
  exists s'. split; [done|]. split; [done|]. split; [done|]. split.
  - intros q o. rewrite Hal, Hal1. naive_solver lia.
  - intros q Hq. rewrite Href by done. unfold s1. cbn. rewrite rd_wr by lia.
    repeat case_decide; subst; lia || done.
Qed.

(** The guarantees of the boot protocol for usable entries: page aligned,
    above page 0, inside the address space, pairwise disjoint. *)
Definition entry_ok (e : Entry) : Prop :=
  usable e = true →
  PAGE_SIZE ≤ base e ∧ base e mod PAGE_SIZE = 0 ∧ 0 ≤ len e ∧ len e mod PAGE_SIZE = 0 ∧
  base e + len e < 2 ^ 64.
Definition entries_apart (e e' : Entry) : Prop :=
  usable e = true → usable e' = true → base e + len e ≤ base e' ∨ base e' + len e' ≤ base e.
Definition map_ok (entries : list Entry) : Prop :=
  Forall entry_ok entries ∧ ForallOrdPairs entries_apart entries.

(** Frame [f] is a page of the usable entry [e]. *)
Definition in_entry (e : Entry) (f : Z) : Prop :=
  usable e = true ∧ base e ≤ f * PAGE_SIZE < base e + len e.

(** Blocks none of whose frames is in a range lie beside it. *)
Lemma untracked_frames s L a b : rep s L → a < b →
  (∀ q o f, block s L q o → q ≤ f < q + 2 ^ o → ¬ a ≤ f < b) → untracked s L a b.
Proof.
  intros Hr Hlt Hno q o Hq. pose proof (pow2_pos o (proj1 (rp_block s L Hr _ _ Hq))).
  destruct (decide (q + 2 ^ o ≤ a)); [by left|]. right. apply Z.nlt_ge. intros Hqb.
  apply (Hno q o (Z.max q a) Hq); lia.
Qed.

Lemma ord_pairs_at {A} (R : A → A → Prop) l1 x l2 : ForallOrdPairs R (l1 ++ x :: l2) →
  (∀ y, y ∈ l1 → R y x) ∧ (∀ y, y ∈ l2 → R x y).
Proof.
  induction l1 as [|z l1 IH]; cbn; intros Hf; inversion_clear Hf as [|? ? Hz Hf'].
  - split; [by intros y ?%elem_of_nil|]. intros y Hy. by eapply Forall_forall in Hz.
  - destruct (IH Hf') as [H1 H2]. split; [|done]. intros y [->|Hy]%elem_of_cons; [|by apply H1].
    eapply Forall_forall; [exact Hz|]. set_solver.
Qed.

Lemma entry_eq (e e' : Entry) : base e = base e' → len e = len e' → usable e = usable e' → e = e'.
Proof. destruct e, e'. cbn. congruence. Qed.

Section boot.
Context (max : Z) (chosen : Entry) (mlen : Z).
Context (Hmlen : 0 < mlen ≤ len chosen) (Hmlen_mod : mlen mod PAGE_SIZE = 0).
Context (Hchosen : usable chosen = true) (Hchosen_ok : entry_ok chosen).
Let mp := base chosen / PAGE_SIZE.
Let mf := mlen / PAGE_SIZE.
Context (Hfit : mp + mf ≤ max).

(** The state of boot after the entries [done] have been added. *)
Record booted (s : BuddyAllocator) (L : Z → list Z) (done : list Entry) : Prop := {
  bt_inv : invariant_on s L; bt_max : max_pfn s = max;
  bt_covered f : covered L f ↔ f < max ∧ (∃ e, e ∈ done ∧ in_entry e f) ∧ ¬ mp ≤ f < mp + mf;
  bt_alloc q o : allocd s q o ↔ o = 0 ∧ mp ≤ q < mp + mf ∧ chosen ∈ done;
  bt_ref q : mp ≤ q < mp + mf → chosen ∈ done → ref_at s q = 1 }.

Lemma chosen_pages : base chosen = mp * PAGE_SIZE ∧ mlen = mf * PAGE_SIZE ∧ 1 ≤ mp ∧ 1 ≤ mf ∧
  ∀ f, mp ≤ f < mp + mf → in_entry chosen f.
Proof.
  destruct (Hchosen_ok Hchosen) as (Hb & Hm & _ & _ & Hlt). unfold mp, mf, in_entry, PAGE_SIZE in *.
  pose proof (Z.div_mod (base chosen) 4096). pose proof (Z.div_mod mlen 4096).
  split; [lia|]. split; [lia|]. split; [lia|]. split; [lia|]. intros f Hf. split; [done|]. lia.
Qed.

(** Every frame of a block lies in an entry already added. *)
Lemma booted_block_in s L done q o f : booted s L done → block s L q o → q ≤ f < q + 2 ^ o →
  ∃ e, e ∈ done ∧ in_entry e f.
Proof.
  intros Hb [[Ho Hq]|Hq] Hf.
  - apply (bt_covered _ _ _ Hb f). exists o, q. done.
  - apply (bt_alloc _ _ _ Hb) in Hq as (-> & Hq & Hin). change (2 ^ 0) with 1 in Hf.
    assert (f = q) as -> by lia. exists chosen. split; [done|]. by apply chosen_pages.
Qed.

Lemma booted_untracked s L done e a b : booted s L done →
  (∀ e', e' ∈ done → entries_apart e' e) → (∀ f, a ≤ f < b → in_entry e f) → a < b →
  untracked s L a b.
Proof.
  intros Hb Hap Hin Hlt. apply untracked_frames; [apply Hb|done|].
  intros q o f Hq Hf Hab. destruct (booted_block_in s L done q o f Hb Hq Hf) as (e' & He' & Hu' & ?).
  destruct (Hin f Hab) as [Hu ?]. destruct (Hap e' He' Hu' Hu); lia.
Qed.

Lemma entry_pages e : entry_ok e → usable e = true →
  range_lo (base e) = base e / PAGE_SIZE ∧
  range_hi max (base e) (len e) = Z.min ((base e + len e) / PAGE_SIZE) max ∧
  ∀ f, in_entry e f ↔ base e / PAGE_SIZE ≤ f < (base e + len e) / PAGE_SIZE.
Proof.
  intros He Hu. destruct (He Hu) as (Hb & Hbm & Hl & Hlm & Hsum).
  unfold range_lo, range_hi, in_entry, PAGE_SIZE, saturating_add in *.
  apply Z.mod_divide in Hbm as [k Hk]; [|done]. apply Z.mod_divide in Hlm as [j Hj]; [|done].
  rewrite Hk, Hj in *. rewrite <- Z.mul_add_distr_r, !Z.div_mul by done.
  rewrite Z.min_l by lia. rewrite Z.div_add_l by done. change ((4096 - 1) / 4096) with 0.
  destruct (Z.ltb_spec ((k + j) * 4096) (2 ^ 64)); [|lia].
  split; [lia|]. split; [done|]. intros f. rewrite Hu. split; [lia|]. intros ?. split; [done|lia].
Qed.

Let hi := (base chosen + len chosen) / PAGE_SIZE.

Lemma chosen_end : base chosen + len chosen = hi * PAGE_SIZE ∧ base chosen + mlen = (mp + mf) * PAGE_SIZE ∧
  mp + mf ≤ hi ∧ (base chosen + len chosen < 2 ^ 64) ∧
  ∀ f, in_entry chosen f ↔ mp ≤ f < hi.
Proof.
  destruct chosen_pages as (Hbase & Hml & _). destruct (Hchosen_ok Hchosen) as (_ & _ & ? & Hlm & ?).
  destruct (entry_pages chosen Hchosen_ok Hchosen) as (_ & _ & Hin).
  assert (Hhi : base chosen + len chosen = hi * PAGE_SIZE).
  { unfold hi. rewrite Hbase in *. unfold PAGE_SIZE in *.
    pose proof (Z.div_mod (len chosen) 4096). rewrite Z.div_add_l by done. lia. }
  unfold PAGE_SIZE in *. split; [done|]. split; [lia|]. split; [lia|]. done.
Qed.

(** Adding the part of the chosen entry that follows the metadata. *)
Lemma boot_rest s L : invariant_on s L → max_pfn s = max → (∀ q o, ¬ allocd s q o) →
  (∀ f, covered L f → ¬ in_entry chosen f) →
  ∃ s1 L1, (if u64 (base chosen + mlen) <? u64 (base chosen + len chosen)
     then '(s, _) ← add_range s (u64 (base chosen + mlen))
            (u64 (base chosen + len chosen) - u64 (base chosen + mlen)); Ok s
     else Ok s) = Ok (E := Empty_set) s1 ∧ invariant_on s1 L1 ∧ max_pfn s1 = max ∧
     (∀ q o, ¬ allocd s1 q o) ∧ ∀ f, covered L1 f ↔ covered L f ∨ mp + mf ≤ f < Z.min hi max.
Proof.
  intros Hi Hm Hna Hout. destruct chosen_pages as (_ & _ & Hmp & Hmf & _).
  destruct chosen_end as (Hend & Hmid & Hle & Hlt & Hin). unfold PAGE_SIZE in *.
  rewrite !wrap_small by (unfold is_u; lia). rewrite Hend, Hmid.
  destruct (Z.ltb_spec ((mp + mf) * 4096) (hi * 4096)).
  2:{ exists s, L. split; [done|]. do 3 (split; [done|]). intros f.
      assert (¬ mp + mf ≤ f < Z.min hi max) by lia. tauto. }
  assert (Hlo : range_lo ((mp + mf) * 4096) = mp + mf).
  { unfold range_lo, saturating_add, PAGE_SIZE. rewrite Z.min_l by lia.
    rewrite Z.div_add_l by done. change ((4096 - 1) / 4096) with 0. lia. }
  assert (Hhi : range_hi max ((mp + mf) * 4096) (hi * 4096 - (mp + mf) * 4096) = Z.min hi max).
  { unfold range_hi, PAGE_SIZE. replace ((mp + mf) * 4096 + (hi * 4096 - (mp + mf) * 4096)) with (hi * 4096) by lia.
    rewrite Z.div_mul by done. destruct (Z.ltb_spec (hi * 4096) (2 ^ 64)); [done|lia]. }
  destruct (add_range_rep s L ((mp + mf) * 4096) (hi * 4096 - (mp + mf) * 4096))
    as (s1 & L1 & -> & Hi1 & _ & Hm1 & Hal & Hc); [done|split; lia|split; lia| |].
  { rewrite Hm, Hlo, Hhi. intros Hr. apply untracked_frames; [apply Hi|done|].
    intros q o f [[Ho Hq]|Hq] Hf; [|by destruct (Hna q o)]. intros Hf'. apply (Hout f); [by exists o, q|].
    apply Hin. lia. }
  exists s1, L1. rewrite Hm, Hlo, Hhi in Hc. split; [done|]. split; [done|]. split; [congruence|].
  split; [|done]. intros q o. by rewrite Hal.
Qed.

(** The entry that holds the metadata: its first [mf] frames are marked, the
    rest is added. *)
Lemma boot_chosen s L done : booted s L done → (∀ e', e' ∈ done → entries_apart e' chosen) →
  ∃ s' L', add_entry chosen (base chosen) mlen s chosen = Ok s' ∧ booted s' L' (done ++ [chosen]).
Proof.
  intros Hb Hap. destruct chosen_pages as (Hbase & Hml & Hmp & Hmf & Hmeta).
  destruct chosen_end as (_ & _ & Hle & _ & Hin).
  assert (Hnew : chosen ∉ done).
  { intros Hc. destruct (Hap chosen Hc Hchosen Hchosen); lia. }
  assert (Hout : ∀ f, covered L f → ¬ in_entry chosen f).
  { intros f Hf [_ ?]. apply (bt_covered _ _ _ Hb) in Hf as (_ & (e & He & Hu & ?) & _).
    destruct (Hap e He Hu Hchosen); lia. }
  assert (Hna : ∀ q o, ¬ allocd s q o) by (intros q o Hq%(bt_alloc _ _ _ Hb); naive_solver).
  destruct (boot_rest s L (bt_inv _ _ _ Hb) (bt_max _ _ _ Hb) Hna Hout)
    as (s1 & L1 & Hs1 & Hi1 & Hm1 & Hna1 & Hc1).
  destruct (mark_meta_rep (Z.to_nat mf) s1 L1 mp Hi1) as (s2 & Hs2 & Hi2 & Hm2 & Hal2 & Href2); [lia..| |].
  { rewrite Z2Nat.id by lia. apply untracked_frames; [apply Hi1|lia|].
    intros q o f [[Ho Hq]|Hq] Hf; [|by destruct (Hna1 q o)]. intros Hf'.
    assert (covered L1 f) as [Hcv|?]%Hc1 by (by exists o, q); [|lia].
    apply (Hout f Hcv). by apply Hmeta. }
  rewrite Z2Nat.id in * by lia.
  unfold add_entry. rewrite Hchosen. cbn [negb]. rewrite !Z.eqb_refl. cbn [andb].
  destruct (Z.ltb_spec (base chosen) (base chosen)); [lia|]. cbn [mbind res_bind].
  cbv zeta. rewrite Hs1. cbn [mbind res_bind]. fold mf mp. rewrite Hs2. cbn [mbind res_bind].
  do 2 eexists. split; [reflexivity|]. destruct Hi2 as [Hr2 Hw2]. split.
  - split; [apply rep_counts; done|exact Hw2].
  - cbn. congruence.
  - intros f. rewrite Hc1, (bt_covered _ _ _ Hb). setoid_rewrite elem_of_app.
    setoid_rewrite list_elem_of_singleton. specialize (Hin f). split.
    + intros [(? & (e' & ? & ?) & ?)|Hf]; [naive_solver|].
      assert (in_entry chosen f) by (apply Hin; lia). split; [lia|]. split; [eauto|lia].
    + intros (? & (e' & [?| ->] & He') & ?); [left; naive_solver|]. right. apply Hin in He'. lia.
  - intros q o. change (allocd s2 q o ↔ o = 0 ∧ mp ≤ q < mp + mf ∧ chosen ∈ done ++ [chosen]).
    rewrite Hal2, elem_of_app, list_elem_of_singleton. specialize (Hna1 q o). naive_solver.
  - intros q Hq _. cbn. rewrite Href2 by lia. by rewrite decide_True.
Qed.

Lemma boot_other s L done e : booted s L done → entry_ok e → usable e = true → e ≠ chosen →
  entries_apart e chosen → (∀ e', e' ∈ done → entries_apart e' e) →
  ∃ s' L', ('(s, _) ← add_range s (base e) (len e); Ok s) = Ok (E := Empty_set) s' ∧
    booted s' L' (done ++ [e]).
Proof.
  intros Hb He Hu Hne Hec Hap. destruct (entry_pages e He Hu) as (Hlo & Hhi & Hin).
  destruct (He Hu) as (? & _ & ? & _ & ?). unfold PAGE_SIZE in *.
  destruct (add_range_rep s L (base e) (len e)) as (s' & L' & -> & Hi & Hrf & Hm & Hal & Hc);
    [apply Hb|split; lia|split; lia| |].
  { rewrite (bt_max _ _ _ Hb), Hlo, Hhi. intros Hlt.
    eapply booted_untracked; [done|done| |done]. intros f Hf. apply Hin. lia. }
  exists s', L'. split; [done|]. rewrite (bt_max _ _ _ Hb), Hlo, Hhi in Hc. split.
  - done.
  - rewrite Hm. apply Hb.
  - intros f. rewrite Hc, (bt_covered _ _ _ Hb). setoid_rewrite elem_of_app.
    setoid_rewrite list_elem_of_singleton.
    assert (in_entry e f → ¬ mp ≤ f < mp + mf) as Hnm.
    { intros Hef Hmf. apply chosen_pages in Hmf as [Hcu ?]. destruct Hef as [_ ?].
      destruct (Hec Hu Hcu); lia. }
    specialize (Hin f). split.
    + intros [(? & (e' & ? & ?) & ?)|Hf]; [naive_solver|].
      assert (in_entry e f) by (apply Hin; lia). split; [lia|]. split; [eauto|auto].
    + intros (? & (e' & [?| ->] & ?) & ?); [left; naive_solver|]. right.
      assert (base e / 4096 ≤ f < (base e + len e) / 4096) by by apply Hin. lia.
  - intros q o. rewrite Hal, (bt_alloc _ _ _ Hb), elem_of_app, list_elem_of_singleton. naive_solver.
  - intros q Hq. rewrite elem_of_app, list_elem_of_singleton. rewrite Hrf.
    intros [?|?]; [by apply Hb|congruence].
Qed.

Lemma boot_entries rest : ∀ s L done, booted s L done → chosen ∈ done ++ rest → map_ok (done ++ rest) →
  ∃ s' L', add_entries chosen (base chosen) mlen s rest = Ok s' ∧ booted s' L' (done ++ rest).
Proof.
  induction rest as [|e rest IH]; intros s L done Hb Hc Hok; cbn [add_entries].
  { exists s, L. by rewrite app_nil_r. }
  assert (∃ s1 L1, add_entry chosen (base chosen) mlen s e = Ok s1 ∧ booted s1 L1 (done ++ [e]))
    as (s1 & L1 & -> & Hb1).
  { destruct Hok as [He Hap]. apply Forall_app in He as [_ [He _]%Forall_cons].
    destruct (ord_pairs_at _ _ _ _ Hap) as [Hbefore Hafter].
    destruct (usable e) eqn:Hu.
    2:{ exists s, L. unfold add_entry. rewrite Hu. split; [done|]. destruct Hb. split; try done.
        - intros f. rewrite bt_covered0. setoid_rewrite elem_of_app.
          setoid_rewrite list_elem_of_singleton. unfold in_entry. naive_solver congruence.
        - intros q o. rewrite bt_alloc0, elem_of_app, list_elem_of_singleton. naive_solver congruence.
        - intros q Hq. rewrite elem_of_app, list_elem_of_singleton. naive_solver congruence. }
    destruct (decide (e = chosen)) as [->|Hne]; [by eapply boot_chosen|].
    unfold add_entry. rewrite Hu. cbn [negb].
    destruct (_ && _) eqn:Et.
    { apply andb_true_iff in Et as [?%Z.eqb_eq ?%Z.eqb_eq]. destruct Hne. apply entry_eq; congruence. }
    eapply boot_other; try done. intros _ _.
    apply elem_of_app in Hc as [Hc|[Hc|Hc]%elem_of_cons]; [|by destruct Hne|by apply (Hafter chosen)].
    destruct (Hbefore chosen Hc Hchosen Hu); auto. }
  cbn [mbind res_bind]. rewrite (cons_middle e done rest) in *. rewrite (app_assoc done [e] rest) in *.
  by eapply IH.
Qed.
End boot.

Lemma rd_replicate {A} `{Inhabited A} n (x : A) i : 0 ≤ i < Z.of_nat n → rd (replicate n x) i = x.
Proof. intros. unfold rd. apply lookup_total_replicate_2. lia. Qed.

Lemma fresh_invariant max : 0 ≤ max ≤ MAX_SUPPORTED_FRAMES → invariant_on (fresh max) (λ _, []).
Proof.
  intros Hm. split; [|done]. unfold fresh.
  assert (Hno : ∀ q o, ¬ block (fresh max) (λ _, []) q o).
  { intros q o [[_ Hq]|(Hq & Ha & _)]; [by apply elem_of_nil in Hq|].
    cbn in Hq, Ha. rewrite rd_replicate in Ha by lia. done. }
  split; cbn.
  - split; cbn; try (by intros ? ? ? ?%elem_of_nil); try (by intros; constructor); try done.
    + split; cbn; rewrite ?length_replicate; lia || done.
    + intros o Ho. rewrite rd_replicate by (unfold MAX_ORDER in *; lia). done.
    + by intros o o' p _ _ ?%elem_of_nil.
  - by intros o p _ ?%elem_of_nil.
  - intros p Hp. by rewrite rd_replicate by lia.
  - by intros o p _ ?%elem_of_nil.
  - intros q o Hq. by destruct (Hno q o).
  - intros q o q' o' Hq. by destruct (Hno q o).
  - intros p Hp. by rewrite !rd_replicate by lia.
Qed.

Lemma max_usable_le entries e : e ∈ entries → usable e = true →
  saturating_add 64 (base e) (len e) ≤ max_usable_phys entries.
Proof.
  unfold max_usable_phys. generalize 0. intros m Hin Hu.
  assert (Hmono : ∀ l m, m ≤ foldl (λ m e, if usable e then Z.max m (saturating_add 64 (base e) (len e)) else m) m l).
  { clear. induction l as [|x l IH]; intros m; cbn; [lia|]. destruct (usable x); [|done].
    etransitivity; [|apply IH]. lia. }
  revert m. induction Hin as [e l|e x l Hin IH]; intros m; cbn; [|by apply IH].
  rewrite Hu. etransitivity; [|apply Hmono]. lia.
Qed.

Lemma choose_entry_spec entries need c :
  choose_entry entries need = Some c → c ∈ entries ∧ usable c = true ∧ need ≤ len c.
Proof.
  unfold choose_entry.
  assert (Hgen : ∀ l o, (∀ c, o = Some c → c ∈ entries ∧ usable c = true ∧ need ≤ len c) →
    (∀ e, e ∈ l → e ∈ entries) →
    foldl (λ chosen e, if usable e && (need <=? len e)
      then match chosen with None => Some e | Some c => if len c <? len e then Some e else Some c end
      else chosen) o l = Some c → c ∈ entries ∧ usable c = true ∧ need ≤ len c).
  { induction l as [|e l IH]; intros o Ho Hl; cbn; [by apply Ho|]. apply IH; [|set_solver].
    destruct (usable e && (need <=? len e)) eqn:Et; [|done].
    apply andb_true_iff in Et as [? ?%Z.leb_le]. assert (e ∈ entries) by set_solver.
    intros c'. destruct o as [c0|]; [destruct (len c0 <? len e)|]; intros [= <-]; auto. }
  apply Hgen; [done|auto].
Qed.

(** [choose_entry] finds a longest of the entries that are long enough. *)
Lemma choose_entry_longest entries need :
  match choose_entry entries need with
  | Some c => ∀ e, e ∈ entries → usable e = true → need ≤ len e → len e ≤ len c
  | None => ∀ e, e ∈ entries → usable e = true → len e < need
  end.
Proof.
  unfold choose_entry. induction entries as [|x entries IH] using rev_ind; [by intros e ?%elem_of_nil|].
  rewrite foldl_snoc. revert IH. destruct (foldl _ None entries) as [c|]; intros IH;
    destruct (usable x && (need <=? len x)) eqn:Ex;
    rewrite ?andb_true_iff, ?andb_false_iff, ?Z.leb_le, ?Z.leb_gt in Ex.
  - destruct (Z.ltb_spec (len c) (len x)); intros e [?| ->%list_elem_of_singleton]%elem_of_app ? ?;
      try specialize (IH _ ltac:(done) ltac:(done) ltac:(done)); lia.
  - intros e [?| ->%list_elem_of_singleton]%elem_of_app ? ?; [auto|]. destruct Ex; [congruence|lia].
  - intros e [?| ->%list_elem_of_singleton]%elem_of_app ? ?; [|lia]. specialize (IH _ ltac:(done) ltac:(done)). lia.
  - intros e [?| ->%list_elem_of_singleton]%elem_of_app ?; [auto|]. destruct Ex; [congruence|lia].
Qed.

Lemma meta_bytes_spec max : 0 < max ≤ MAX_SUPPORTED_FRAMES →
  0 < meta_bytes_aligned max ∧ meta_bytes_aligned max mod PAGE_SIZE = 0 ∧
  11 * max ≤ meta_bytes_aligned max.
Proof.
  unfold meta_bytes_aligned, MAX_SUPPORTED_FRAMES. intros Hm. set (m := max * (4 * 2 + 1 + 2)).
  assert (m = 11 * max) by (unfold m; lia). clearbody m.
  rewrite (wrap_small 64 m), (wrap_small 64 (m + PAGE_SIZE)), (wrap_small 64 (m + PAGE_SIZE - 1))
    by (unfold is_u, PAGE_SIZE; lia).
  rewrite page_floor_div by (unfold is_u, PAGE_SIZE; lia). unfold PAGE_SIZE.
  rewrite (Z.mul_comm 4096), Z.mod_mul by lia.
  pose proof (Z.div_mod (m + 4096 - 1) 4096). pose proof (Z.mod_pos_bound (m + 4096 - 1) 4096). lia.
Qed.

Lemma booted_fresh max chosen mlen : 0 ≤ max ≤ MAX_SUPPORTED_FRAMES →
  booted max chosen mlen (fresh max) (λ _, []) [].
Proof.
  intros Hm. split; [by apply fresh_invariant|done| | |].
  - intros f. split; [intros (o & p & _ & Hp & _)|intros (_ & (e & He & _) & _)];
      [by apply elem_of_nil in Hp|by apply elem_of_nil in He].
  - intros q o. split; [|by intros (_ & _ & ?%elem_of_nil)]. intros (Hq & Ha & _).
    cbn in Hq, Ha. rewrite rd_replicate in Ha by lia. done.
  - by intros q _ ?%elem_of_nil.
Qed.

Lemma align_up_aligned x : 0 ≤ x < 2 ^ 63 → x mod PAGE_SIZE = 0 → align_up x = x.
Proof.
  unfold align_up, PAGE_SIZE, saturating_add. intros Hx Hm. rewrite Z.min_l by lia.
  rewrite page_floor_div by (unfold is_u; lia). unfold PAGE_SIZE.
  apply Z.mod_divide in Hm as [k ->]; [|done]. rewrite Z.div_add_l by done.
  change ((4096 - 1) / 4096) with 0. lia.
Qed.

(** The area [init] picks for its metadata lies in the tracked memory. *)
Lemma chosen_fits entries chosen max : map_ok entries → 0 ≤ max_usable_phys entries ≤ 2 ^ 36 →
  max = (max_usable_phys entries + (PAGE_SIZE - 1)) / PAGE_SIZE →
  choose_entry entries (meta_bytes_aligned max) = Some chosen →
  chosen ∈ entries ∧ usable chosen = true ∧ entry_ok chosen ∧ base chosen + len chosen ≤ 2 ^ 36 ∧
  0 < max ≤ MAX_SUPPORTED_FRAMES ∧
  0 < meta_bytes_aligned max ≤ len chosen ∧ meta_bytes_aligned max mod PAGE_SIZE = 0 ∧
  base chosen / PAGE_SIZE + meta_bytes_aligned max / PAGE_SIZE ≤ max.
Proof.
  intros [Hok _] Hmu Hmax (Hin & Hu & Hlen)%choose_entry_spec.
  assert (entry_ok chosen) as He by by eapply Forall_forall in Hok.
  destruct (He Hu) as (Hb & Hbm & Hl & _ & Hsum).
  pose proof (max_usable_le entries chosen Hin Hu) as Hle. unfold saturating_add in Hle.
  rewrite Z.min_l in Hle by lia. unfold PAGE_SIZE, MAX_SUPPORTED_FRAMES in *.
  assert (0 < max ≤ 16777216) as Hm.
  { subst max. split; [apply Z.div_str_pos; lia|]. apply Z.lt_succ_r, Z.div_lt_upper_bound; lia. }
  destruct (meta_bytes_spec max Hm) as (Hpos & Hmm & _). unfold PAGE_SIZE in *.
  split_and!; try done; try lia.
  apply Z.mod_divide in Hbm as [k Hk]; [|done]. apply Z.mod_divide in Hmm as [j Hj]; [|done].
  rewrite Hk, Hj, !Z.div_mul by done. rewrite Hmax. apply Z.div_le_lower_bound; lia.
Qed.
