(* ===== verification/BuddySpec.v ===== *)
(** * Frame allocator: what it promises

    The promises of [memory.rs] stated on the allocator state alone: which
    frames are free, which blocks are live, and how each entry point changes
    them.  The free lists no longer appear. *)

From stdpp Require Import gmap.
From S2P Require Import Prelude Words Buddy BuddyLinks BuddyBlocks BuddyBoot.

(** Frame [f] lies in a block flagged free. *)
Definition free_at (s : BuddyAllocator) (f : Z) : Prop :=
  ∃ o p, order_ok o ∧ 0 ≤ p < max_pfn s ∧ flag_at s p = Z.lor o FLAG_FREE ∧ p ≤ f < p + 2 ^ o.

(** The block at [p] is handed out: flagged allocated and referenced. *)
Definition live (s : BuddyAllocator) (p o : Z) : Prop := allocd s p o ∧ 0 < ref_at s p.

(** The allocator invariant: some family of lists represents the state and
    the counter is their total size. *)
Definition invariant (s : BuddyAllocator) : Prop := ∃ L, invariant_on s L.

Lemma free_at_covered s L f : rep s L → free_at s f ↔ covered L f.
Proof.
  intros Hr. split.
  - intros (o & p & Ho & Hp & Hf & Hle). exists o, p. split; [done|]. split; [|done].
    assert (Hb := free_test s L p o Hr Ho Hp). rewrite Hf in Hb.
    destruct (order_ok_flags o Ho) as (_&_&_&_&Hfr&_&Hord&_).
    rewrite Hord, Z.eqb_refl, (proj2 (Z.eqb_neq _ _) Hfr) in Hb.
    symmetry in Hb. by apply bool_decide_eq_true in Hb.
  - intros (o & p & Ho & Hp & Hle). exists o, p. split; [done|].
    split; [by eapply ln_range; [apply Hr|..]|]. split; [by eapply rp_mark|done].
Qed.

(** The free counter counts the free frames. *)
Lemma free_count s L : invariant_on s L →
  ∃ fs : list Z, NoDup fs ∧ zlen fs = free_frames s ∧ ∀ f, f ∈ fs ↔ free_at s f.
Proof.
  intros [Hr Hw]. pose proof (rp_links s L Hr) as Hl.
  exists (seqZ 0 MAX_ORDER ≫= λ o, L o ≫= λ p, seqZ p (2 ^ o)). split_and!.
  - apply NoDup_bind.
    + intros o1 o2 f Ho1%elem_of_seqZ Ho2%elem_of_seqZ Hf1 Hf2.
      apply list_elem_of_bind in Hf1 as (p1 & Hf1%elem_of_seqZ & Hp1).
      apply list_elem_of_bind in Hf2 as (p2 & Hf2%elem_of_seqZ & Hp2).
      destruct (rp_disj s L Hr p1 o1 p2 o2) as [[_ ?]|[?|?]]; [left; auto with lia..|done|lia|lia].
    + intros o Ho%elem_of_seqZ. apply NoDup_bind; [|intros; apply NoDup_seqZ|by apply (ln_nodup s L Hl)].
      intros p1 p2 f Hp1 Hp2 Hf1%elem_of_seqZ Hf2%elem_of_seqZ.
      destruct (rp_disj s L Hr p1 o p2 o) as [[? _]|[?|?]]; [left; auto with lia..|done|lia|lia].
    + apply NoDup_seqZ.
  - rewrite Hw. unfold weight, weight_on. assert (Forall (λ o, 0 ≤ o) (seqZ 0 MAX_ORDER)) as Hpos.
    { apply Forall_forall. intros o Ho%elem_of_seqZ. lia. }
    induction Hpos as [|o os Ho _ IH]; [done|]. cbn -[Z.pow Z.mul]. rewrite length_app, Nat2Z.inj_add.
    f_equal; [|exact IH]. pose proof (Z.pow_pos_nonneg 2 o).
    induction (L o) as [|p l IHl]; [cbn; lia|]. cbn -[Z.pow Z.mul].
    rewrite length_app, length_seqZ, Nat2Z.inj_add, IHl. lia.
  - intros f. rewrite (free_at_covered s L f Hr), list_elem_of_bind. unfold covered.
    setoid_rewrite list_elem_of_bind. setoid_rewrite elem_of_seqZ. naive_solver lia.
Qed.

Lemma live_not_free s L p o f : rep s L → live s p o → p ≤ f < p + 2 ^ o → ¬ free_at s f.
Proof.
  intros Hr [Hal _] Hf. rewrite (free_at_covered s L f Hr). intros (o' & q & Ho' & Hq & Hle).
  destruct (rp_disj s L Hr p o q o') as [[-> ->]|[?|?]]; [by right|left; auto| |lia..].
  destruct Hal as (_ & Ha & _). apply Ha. rewrite (rp_mark s L Hr o' q Ho' Hq). by apply order_ok_flags.
Qed.

(** What a successful allocation of [p], [o] means on the state. *)
Lemma granted_spec s L o s' L' p : rep s L → granted s L o s' L' p →
  ref_at s' p = 1 ∧ live s' p o ∧ free_frames s' = weight L - 2 ^ o ∧
  (∀ f, p ≤ f < p + 2 ^ o → free_at s f ∧ ¬ free_at s' f) ∧
  (∀ f, ¬ p ≤ f < p + 2 ^ o → free_at s' f ↔ free_at s f) ∧
  (∀ q o', live s q o' → live s' q o' ∧ apart p o q o').
Proof.
  intros Hr Hg. destruct Hg as [[Hr' Hw'] Hin Hpos Hmax Hrf Hal Hfresh Hwt Hc].
  pose proof (rp_links s L Hr) as Hl. lens Hl. pose proof (block_in_range _ _ _ Hin) as Hp.
  assert (Href : ref_at s' p = 1) by (rewrite Hrf; apply rd_wr_eq; lia).
  assert (Hlive : live s' p o) by (split; [apply Hal; auto|lia]).
  assert (Hcov : ∀ f, free_at s f ↔ free_at s' f ∨ p ≤ f < p + 2 ^ o).
  { intros f. by rewrite (free_at_covered s L f Hr), (free_at_covered s' L' f Hr'), Hc. }
  split; [done|]. split; [done|]. split; [lia|]. split; [|split].
  - intros f Hf. rewrite Hcov. split; [by right|]. by eapply live_not_free.
  - intros f Hf. rewrite Hcov. tauto.
  - intros q o' [Hq Hqr]. split; [|by apply Hfresh]. split; [apply Hal; auto|].
    rewrite Hrf. destruct Hq as (Hq & _). rewrite rd_wr by lia. by case_decide.
Qed.

(** C18: allocation.  On every well-formed state [alloc_order] returns; when
    it grants a block, the block is aligned, in range and excludes frame 0,
    all its frames were free and none is free any more, every other frame
    keeps its status, live blocks stay live and do not overlap it, and the
    counter drops by its size; when it refuses, nothing changes and no free
    block of that order or above exists. *)
Theorem alloc_order_correct s o : invariant s → 0 ≤ o →
  ∃ s' r, alloc_order s o = Ok (s', r) ∧ invariant s' ∧
  match r with
  | None => s' = s ∧ ∀ p o', o ≤ o' < MAX_ORDER → 0 ≤ p < max_pfn s →
      flag_at s p ≠ Z.lor o' FLAG_FREE
  | Some p => block_in s' p o ∧ 0 < p ∧ max_pfn s' = max_pfn s ∧ ref_at s' p = 1 ∧ live s' p o ∧
      free_frames s' = free_frames s - 2 ^ o ∧
      (∀ f, p ≤ f < p + 2 ^ o → free_at s f ∧ ¬ free_at s' f) ∧
      (∀ f, ¬ p ≤ f < p + 2 ^ o → free_at s' f ↔ free_at s f) ∧
      (∀ q o', live s q o' → live s' q o' ∧ apart p o q o')
  end.
Proof.
  intros [L Hi] Ho. destruct (alloc_order_rep s L o Hi Ho) as (s' & r & Heq & Hs).
  exists s', r. split; [done|]. destruct r as [p|].
  - destruct Hs as [L' Hg]. split; [exists L'; by eapply gr_inv|].
    split; [by eapply gr_in|]. split; [by eapply gr_pos|]. split; [by eapply gr_max|].
    rewrite (proj2 Hi). by apply (granted_spec s L o s' L' p (proj1 Hi)).
  - destruct Hs as [-> He]. split; [by exists L|]. split; [done|]. intros p o' Ho' Hp Hf.
    assert (Hb := free_test s L p o' (proj1 Hi) ltac:(lia) Hp). rewrite (He o' Ho'), Hf in Hb.
    destruct (order_ok_flags o' ltac:(lia)) as (_&_&_&_&Hfr&_&Hord&_).
    rewrite Hord, Z.eqb_refl, (proj2 (Z.eqb_neq _ _) Hfr) in Hb. done.
Qed.

(** C19: freeing.  [free] never panics on a well-formed state.  It accepts
    exactly the page-aligned address of a referenced frame; a shared frame
    loses one reference and stays allocated; with the last reference the
    whole block it heads becomes free, nothing else does, and the counter
    rises by its size.  Other reference counts are untouched, so a double
    free is refused. *)
Theorem free_correct s addr : invariant s → 0 ≤ addr →
  let p := addr / PAGE_SIZE in
  ∃ s' b, free s addr = Ok (s', b) ∧ invariant s' ∧
    (b = true ↔ addr = PAGE_SIZE * p ∧ 0 < p < max_pfn s ∧ 0 < ref_at s p) ∧
    (b = false → s' = s) ∧
    (b = true → ref_at s' p = ref_at s p - 1 ∧ ∀ q, 0 ≤ q → q ≠ p → ref_at s' q = ref_at s q) ∧
    (b = true → 1 < ref_at s p →
       free_frames s' = free_frames s ∧ ∀ f, free_at s' f ↔ free_at s f) ∧
    (b = true → ref_at s p = 1 → ∃ o, live s p o ∧ free_frames s' = free_frames s + 2 ^ o ∧
       ∀ f, free_at s' f ↔ free_at s f ∨ p ≤ f < p + 2 ^ o).
Proof.
  intros [L Hi] Ha p. pose proof (free_rep s L addr Hi Ha) as Hf. cbv zeta in Hf. fold p in Hf.
  destruct Hi as [Hr Hw]. pose proof (rp_links s L Hr) as Hl. lens Hl.
  destruct (_ || _) eqn:Ebad in Hf.
  { exists s, false. split; [done|]. split; [by exists L|]. split; [|done].
    split; [done|]. intros (Hp & Hpm & Hpr). exfalso. rewrite !orb_true_iff in Ebad.
    destruct Ebad as [[Eb|Eb%Z.leb_le]|Eb%Z.eqb_eq]; [|lia..].
    rewrite Hp, Z.mul_comm, bad_frame_page in Eb by lia. done. }
  rewrite !orb_false_iff, Z.leb_gt, Z.eqb_neq in Ebad. destruct Ebad as [[Eb Hlt] Hnz].
  destruct (good_frame addr Ha Eb) as [Haddr Hpos]. fold p in Haddr, Hpos.
  destruct (rp_ref s L Hr p ltac:(lia)) as [[Hr0 _] _].
  destruct (Z.ltb_spec 1 (ref_at s p)) as [Hgt|Hle].
  - destruct Hf as [Heq Hi']. eexists _, true. split; [exact Heq|]. split; [by exists L|].
    split; [split; [intros _; lia|done]|]. split; [done|]. split; [|split; [|lia]].
    + intros _. cbn. rewrite rd_wr_eq by lia. split; [done|]. intros q ??. by rewrite rd_wr_ne by lia.
    + intros _ _. split; [done|]. intros f. rewrite (free_at_covered s L f Hr).
      apply (free_at_covered _ L f (proj1 Hi')).
  - destruct Hf as (s' & L' & o & Heq & Hal & Hrl). destruct Hrl as [[Hr' Hw'] Hmax Hrf _ Hwt Hc].
    exists s', true. split; [done|]. split; [by exists L'|].
    split; [split; [intros _; lia|done]|]. split; [done|]. split; [|split; [lia|]].
    + intros _. rewrite Hrf. rewrite rd_wr_eq by lia. split; [lia|]. intros q ??. by rewrite rd_wr_ne by lia.
    + intros _ _. exists o. split; [by split; [|lia]|]. split; [lia|]. intros f.
      by rewrite (free_at_covered s L f Hr), (free_at_covered s' L' f Hr'), Hc.
Qed.

(** allocate and free are inverse.  Freeing a block just allocated
    succeeds and restores exactly the free frames and the counter, whatever
    splitting and merging happened in between. *)
Theorem alloc_free_roundtrip s o s1 p : invariant s → 0 ≤ o → alloc_order s o = Ok (s1, Some p) →
  ∃ s2, free s1 (PAGE_SIZE * p) = Ok (s2, true) ∧ invariant s2 ∧
    free_frames s2 = free_frames s ∧ ∀ f, free_at s2 f ↔ free_at s f.
Proof.
  intros [L Hi] Ho Heq. destruct (alloc_order_rep s L o Hi Ho) as (s' & r & Heq' & Hs).
  rewrite Heq in Heq'. injection Heq' as <- <-. destruct Hs as [L1 Hg].
  destruct (granted_spec s L o s1 L1 p (proj1 Hi) Hg) as (Href & _).
  destruct Hg as [[Hr1 Hw1] Hin Hpos Hmax _ Hal _ Hwt Hc]. pose proof (block_in_range _ _ _ Hin).
  pose proof (free_rep s1 L1 (PAGE_SIZE * p) (conj Hr1 Hw1) ltac:(unfold PAGE_SIZE; lia)) as Hf.
  cbv zeta in Hf. rewrite (Z.mul_comm PAGE_SIZE p), Z.div_mul in * by done. rewrite Href in Hf.
  rewrite bad_frame_page, (proj2 (Z.leb_gt _ _)) in Hf by lia. cbn [orb Z.eqb Z.ltb] in Hf.
  destruct Hf as (s2 & L2 & o' & Hf & Hal' & [[Hr2 Hw2] _ _ _ Hwt2 Hc2]).
  assert (o' = o) as ->.
  { assert (allocd s1 p o) as (_ & _ & <-) by (apply Hal; auto). by destruct Hal' as (_ & _ & <-). }
  exists s2. split; [done|]. split; [by exists L2|]. split; [destruct Hi; lia|]. intros f.
  by rewrite (free_at_covered s2 L2 f Hr2), (free_at_covered s L f (proj1 Hi)), Hc2, Hc.
Qed.

(** reserving.  [reserve] accepts every page-aligned address of a tracked
    frame other than 0.  Unless a stale reservation mark is set, the frame is
    not free afterwards; if it was free exactly this frame leaves the free
    pool and the counter drops by one, and otherwise the free pool is
    unchanged. *)
Theorem reserve_correct s addr : invariant s → 0 ≤ addr →
  let p := addr / PAGE_SIZE in
  Z.land (flag_at s p) FLAG_RESERVED = 0 ∨ ¬ free_at s p →
  ∃ s' b, reserve s addr = Ok (s', b) ∧ invariant s' ∧
    (b = true ↔ bad_frame addr = false ∧ p < max_pfn s) ∧
    (b = false → s' = s) ∧
    (b = true → ∀ f, free_at s' f ↔ free_at s f ∧ f ≠ p) ∧
    (b = true → free_at s p → free_frames s' = free_frames s - 1 ∧ live s' p 0) ∧
    (b = true → ¬ free_at s p → free_frames s' = free_frames s).
Proof.
  intros [L Hi] Ha p Hstale. pose proof (reserve_rep s L addr Hi Ha) as Hf. cbv zeta in Hf. fold p in Hf.
  pose proof (free_at_covered s L p (proj1 Hi)) as Hfp. destruct (_ || _) eqn:Ebad in Hf.
  { exists s, false. split; [done|]. split; [by exists L|]. split; [|done].
    split; [done|]. intros [Eb Hlt]. rewrite Eb, (proj2 (Z.leb_gt _ _) Hlt) in Ebad. done. }
  apply orb_false_iff in Ebad as [Eb Hlt%Z.leb_gt].
  destruct Hf as (s' & Heq & [(Hc & _ & L' & Hg)|[(Hc & Hi' & Hq)|(Hc & Hn & ->)]]); [..|tauto].
  - destruct (granted_spec s L 0 s' L' p (proj1 Hi) Hg) as (_ & Hlive & Hw & _).
    pose proof (gr_covered _ _ _ _ _ _ Hg) as Hcov. pose proof (gr_inv _ _ _ _ _ _ Hg) as Hi'.
    exists s', true. split; [done|]. split; [by exists L'|]. split; [done|]. split; [done|].
    split; [|split; [|tauto]].
    + intros _ f. rewrite (free_at_covered s L f (proj1 Hi)), Hcov.
      change (2 ^ 0) with 1. rewrite <- (free_at_covered s' L' f (proj1 Hi')).
      assert (free_at s' f → f ≠ p).
      { intros Hfree ->. by eapply (live_not_free s' L' p 0 p); [apply Hi'| |lia|]. }
      assert (p ≤ f < p + 1 ↔ f = p) by lia. tauto.
    + intros _ _. split; [|done]. rewrite Hw. change (2 ^ 0) with 1. destruct Hi. lia.
  - exists s', true. split; [done|]. split; [by exists L|]. split; [done|]. split; [done|].
    split; [|split; [tauto|intros _ _; by destruct Hq]].
    intros _ f. rewrite (free_at_covered s L f (proj1 Hi)), (free_at_covered s' L f (proj1 Hi')).
    split; [|tauto]. intros Hcf. split; [done|]. by intros ->.
Qed.

(** Boot when an entry can hold the metadata. *)
Lemma init_chosen entries hhdm chosen :
  map_ok entries → max_usable_phys entries ≤ 2 ^ 36 → 0 ≤ hhdm ≤ 2 ^ 64 - 2 ^ 36 →
  let max := (max_usable_phys entries + (PAGE_SIZE - 1)) / PAGE_SIZE in
  choose_entry entries (meta_bytes_aligned max) = Some chosen →
  let meta f := base chosen ≤ f * PAGE_SIZE < base chosen + meta_bytes_aligned max in
  ∃ s stats, init entries hhdm = Ok (s, stats) ∧ invariant s ∧ max_pfn s = max ∧
    (∀ f, free_at s f ↔ (∃ e, e ∈ entries ∧ in_entry e f) ∧ ¬ meta f) ∧
    (∀ f, meta f → live s f 0) ∧ usable_frames stats = free_frames s.
Proof.
  intros Hok Hmu Hh max Hch meta. assert (0 ≤ max_usable_phys entries) as Hmu0.
  { apply choose_entry_spec in Hch as (Hin & Hu & _). pose proof (max_usable_le _ _ Hin Hu).
    destruct Hok as [Hf _]. eapply Forall_forall in Hf; [|done]. destruct (Hf Hu) as (? & _ & ? & _).
    unfold saturating_add, PAGE_SIZE in *. lia. }
  destruct (chosen_fits entries chosen max Hok (conj Hmu0 Hmu) eq_refl Hch)
    as (Hin & Hu & He & Hend & Hm & Hml & Hmm & Hfit).
  destruct (He Hu) as (Hb & Hbm & _). unfold init.
  assert (saturating_add 64 (max_usable_phys entries) (PAGE_SIZE - 1) =
    max_usable_phys entries + (PAGE_SIZE - 1)) as -> by (unfold saturating_add, PAGE_SIZE; lia).
  fold max. rewrite (Z.min_l max) by lia. rewrite Hch. cbn [expect mbind res_bind].
  rewrite align_up_aligned by (done || (unfold PAGE_SIZE in *; lia)).
  assert (checked_add 64 hhdm (base chosen) = Some (hhdm + base chosen)) as ->.
  { apply checked_add_Some. split; [done|]. lia. }
  cbn [expect mbind res_bind].
  destruct (boot_entries max chosen (meta_bytes_aligned max) Hml Hmm Hu He Hfit entries (fresh max) (λ _, []) [])
    as (s & L & -> & Hbt); [by apply booted_fresh; lia|done|done|].
  cbn [mbind res_bind app] in *. eexists s, _. split; [reflexivity|].
  destruct Hbt as [Hi Hmax Hcov Hal Href]. split; [by exists L|]. split; [done|].
  assert (Hmeta : ∀ f, meta f ↔ base chosen / PAGE_SIZE ≤ f <
    base chosen / PAGE_SIZE + meta_bytes_aligned max / PAGE_SIZE).
  { intros f. unfold meta. apply Z.mod_divide in Hbm as [k Hk]; [|done].
    apply Z.mod_divide in Hmm as [j Hj]; [|done]. rewrite Hk, Hj, !Z.div_mul by done.
    unfold PAGE_SIZE. lia. }
  split; [|split; [|done]].
  - intros f. rewrite (free_at_covered s L f (proj1 Hi)), Hcov, Hmeta. split; [tauto|].
    intros [Hex ?]. split; [|done]. destruct Hex as (e & Hine & Heu & Hf). pose proof (max_usable_le _ _ Hine Heu).
    destruct Hok as [Hall _]. eapply Forall_forall in Hall; [|done].
    destruct (Hall Heu) as (_ & _ & _ & _ & ?). unfold saturating_add in *. unfold max.
    unfold PAGE_SIZE in *.
    pose proof (Z.div_mod (max_usable_phys entries + (4096 - 1)) 4096).
    pose proof (Z.mod_pos_bound (max_usable_phys entries + (4096 - 1)) 4096). lia.
  - intros f Hf%Hmeta. split; [by apply Hal|]. rewrite Href by done. lia.
Qed.

Lemma max_usable_phys_pos entries : 0 ≤ max_usable_phys entries.
Proof.
  unfold max_usable_phys. assert (∀ m, 0 ≤ m → 0 ≤ foldl (λ m e, if usable e
    then Z.max m (saturating_add 64 (base e) (len e)) else m) m entries) as Hgen; [|by apply Hgen].
  induction entries as [|e entries IH]; intros m Hm; cbn; [done|]. apply IH. destruct (usable e); lia.
Qed.

(** C36: boot.  Take a memory map whose usable entries are ranges of whole pages
    above page 0, pairwise disjoint and below the 64 GiB limit, and a
    direct-map offset that leaves room for 64 GiB.  Either no usable entry is
    as long as the metadata arrays of all tracked frames, and [init] panics
    (memory.rs:358); or [init] succeeds and places the metadata at the
    start of a longest usable entry: the invariant holds, the free frames are
    exactly the usable frames outside the metadata area, and every metadata
    frame is a live block of its own. *)
Theorem init_correct entries hhdm :
  map_ok entries → max_usable_phys entries ≤ 2 ^ 36 → 0 ≤ hhdm ≤ 2 ^ 64 - 2 ^ 36 →
  let max := (max_usable_phys entries + (PAGE_SIZE - 1)) / PAGE_SIZE in
  ((∀ e, e ∈ entries → usable e = true → len e < meta_bytes_aligned max) ∧ init entries hhdm = Panic) ∨
  (∃ chosen, chosen ∈ entries ∧ usable chosen = true ∧ meta_bytes_aligned max ≤ len chosen ∧
    (∀ e, e ∈ entries → usable e = true → len e ≤ len chosen) ∧
    let meta f := base chosen ≤ f * PAGE_SIZE < base chosen + meta_bytes_aligned max in
    ∃ s stats, init entries hhdm = Ok (s, stats) ∧ invariant s ∧ max_pfn s = max ∧
      (∀ f, free_at s f ↔ (∃ e, e ∈ entries ∧ in_entry e f) ∧ ¬ meta f) ∧
      (∀ f, meta f → live s f 0) ∧ usable_frames stats = free_frames s).
Proof.
  intros Hok Hmu Hh max. pose proof (max_usable_phys_pos entries).
  pose proof (choose_entry_longest entries (meta_bytes_aligned max)) as Hlong.
  destruct (choose_entry entries (meta_bytes_aligned max)) as [chosen|] eqn:Hch; [right|left].
  - destruct (choose_entry_spec _ _ _ Hch) as (Hin & Hu & Hlen).
    exists chosen. split_and!; [done..| |by apply init_chosen].
    intros e He Hue. destruct (Z.le_gt_cases (meta_bytes_aligned max) (len e)); [by apply Hlong|lia].
  - split; [done|]. unfold init.
    assert (saturating_add 64 (max_usable_phys entries) (PAGE_SIZE - 1) =
      max_usable_phys entries + (PAGE_SIZE - 1)) as -> by (unfold saturating_add, PAGE_SIZE; lia).
    fold max. rewrite (Z.min_l max); [by rewrite Hch|].
    unfold max, PAGE_SIZE, MAX_SUPPORTED_FRAMES in *. apply Z.lt_succ_r, Z.div_lt_upper_bound; lia.
Qed.

(** ** Sequences of operations *)

(** One call into the allocator.  A reference is only added to a frame that
    is referenced (the fork path shares mapped frames); [ref_inc_of_free_frame]
    below shows that the allocator relies on it. *)
Inductive mem_step : BuddyAllocator → BuddyAllocator → Prop :=
| step_alloc s o s' r : 0 ≤ o → alloc_order s o = Ok (s', r) → mem_step s s'
| step_free s a s' b : 0 ≤ a → free s a = Ok (s', b) → mem_step s s'
| step_reserve s a s' b : 0 ≤ a → reserve s a = Ok (s', b) → mem_step s s'
| step_inc s p s' : 0 ≤ p → 0 < ref_at s p → ref_inc s p = Ok s' → mem_step s s'
| step_dec s p s' n : 0 ≤ p → ref_dec s p = Ok (s', n) → mem_step s s'.

Lemma ref_inc_returns s p : invariant s → 0 ≤ p → ref_inc s p ≠ Panic.
Proof.
  intros [L [Hr Hw]] Hp. lens (rp_links s L Hr). unfold ref_inc.
  destruct (Z.ltb_spec p (max_pfn s)); [|done]. run_arrays. done.
Qed.

Lemma ref_inc_inv s p : invariant s → 0 ≤ p → 0 < ref_at s p → ∃ s', ref_inc s p = Ok s' ∧ invariant s'.
Proof.
  intros [L [Hr Hw]] Hp Hpos. lens (rp_links s L Hr). unfold ref_inc.
  destruct (Z.ltb_spec p (max_pfn s)); [|by exists s; split; [|exists L]].
  run_arrays. eexists. split; [reflexivity|]. exists L. split; [|done].
  apply refcount_rep; [done|lia|done|]. apply saturating_add_range; [lia| |done].
  by apply (rp_ref s L Hr).
Qed.

Lemma ref_dec_inv s p : invariant s → 0 ≤ p → ∃ s' n, ref_dec s p = Ok (s', n) ∧ invariant s'.
Proof.
  intros [L [Hr Hw]] Hp. lens (rp_links s L Hr). unfold ref_dec.
  destruct (Z.ltb_spec p (max_pfn s)); [|by exists s, 0; split; [|exists L]].
  run_arrays. eexists _, _. split; [reflexivity|]. exists L. split; [|done].
  destruct (rp_ref s L Hr p ltac:(lia)) as [[Hu0 Hu] _]. unfold saturating_sub.
  destruct (decide (ref_at s p = 0)) as [Hz|].
  - assert (wr (refcounts s) p (Z.max 0 (ref_at s p - 1)) = refcounts s) as ->; [|by destruct s].
    replace (Z.max 0 (ref_at s p - 1)) with (ref_at s p) by lia.
    unfold wr, rd. apply list_insert_id, list_lookup_lookup_total_lt. lia.
  - apply refcount_rep; [done|lia|lia|]. unfold is_u. lia.
Qed.

Lemma mem_step_inv s s' : invariant s → mem_step s s' → invariant s'.
Proof.
  intros Hi Hs. destruct Hs as [s o s' r Ho Heq|s a s' b Ha Heq|s a s' b Ha Heq|s p s' Hp Hpos Heq|s p s' n Hp Heq].
  - destruct Hi as [L Hi]. destruct (alloc_order_rep s L o Hi Ho) as (s1 & r1 & Heq1 & Hs1).
    rewrite Heq in Heq1. injection Heq1 as <- <-. destruct r as [p|].
    + destruct Hs1 as [L' Hg]. exists L'. by eapply gr_inv.
    + destruct Hs1 as [-> _]. by exists L.
  - destruct Hi as [L Hi]. pose proof (free_rep s L a Hi Ha) as Hf. cbv zeta in Hf.
    destruct (_ || _); [|destruct (1 <? _)].
    + rewrite Heq in Hf. injection Hf as -> _. by exists L.
    + destruct Hf as [Hf Hi']. rewrite Heq in Hf. injection Hf as -> _. by exists L.
    + destruct Hf as (s1 & L1 & o & Hf & _ & Hrl). rewrite Heq in Hf. injection Hf as -> _.
      exists L1. by eapply rl_inv.
  - destruct Hi as [L Hi]. pose proof (reserve_rep s L a Hi Ha) as Hf. cbv zeta in Hf.
    destruct (_ || _).
    + rewrite Heq in Hf. injection Hf as -> _. by exists L.
    + destruct Hf as (s1 & Hf & Hcases). rewrite Heq in Hf. injection Hf as -> _.
      destruct Hcases as [(_ & _ & L' & Hg)|[(_ & ? & _)|(_ & _ & ->)]];
        [exists L'; by eapply gr_inv|by exists L|by exists L].
  - destruct (ref_inc_inv s p Hi Hp Hpos) as (s1 & Heq1 & ?). congruence.
  - destruct (ref_dec_inv s p Hi Hp) as (s1 & n1 & Heq1 & ?). congruence.
Qed.

(** C2: the allocator is safe over its whole life.  Take any sequence of
    calls to [alloc_order], [free], [reserve], [ref_inc] and [ref_dec] from a
    well-formed state, in which [ref_inc] is only called for frames that are
    referenced at that moment (the others are called with any argument).
    Afterwards none of the five calls can panic, whatever its argument; live
    blocks are in range and pairwise disjoint; no frame of a live block is
    free; and [free_frames] is exactly the number of free frames.  The
    condition on [ref_inc] is needed: see [ref_inc_of_free_frame]. *)
Theorem buddy_lifetime s0 s : invariant s0 → rtc mem_step s0 s →
  (∀ o, 0 ≤ o → alloc_order s o ≠ Panic) ∧
  (∀ a, 0 ≤ a → free s a ≠ Panic ∧ reserve s a ≠ Panic) ∧
  (∀ p, 0 ≤ p → ref_inc s p ≠ Panic ∧ ref_dec s p ≠ Panic) ∧
  (∀ p o, live s p o → block_in s p o ∧ ∀ f, p ≤ f < p + 2 ^ o → ¬ free_at s f) ∧
  (∀ p o q o', live s p o → live s q o' → (p = q ∧ o = o') ∨ apart p o q o') ∧
  (∃ fs : list Z, NoDup fs ∧ zlen fs = free_frames s ∧ ∀ f, f ∈ fs ↔ free_at s f).
Proof.
  intros Hi0 Hsteps. assert (invariant s) as [L Hi].
  { induction Hsteps as [|s1 s2 s3 H12 _ IH]; [done|]. by eapply IH, mem_step_inv. }
  split; [|split; [|split; [|split; [|split]]]].
  - intros o Ho. destruct (alloc_order_rep s L o Hi Ho) as (s' & r & -> & _). done.
  - intros a Ha. split.
    + pose proof (free_rep s L a Hi Ha) as Hf. cbv zeta in Hf.
      destruct (_ || _); [by rewrite Hf|]. destruct (1 <? _); [by destruct Hf as [-> _]|].
      by destruct Hf as (s' & L' & o & -> & _).
    + pose proof (reserve_rep s L a Hi Ha) as Hf. cbv zeta in Hf.
      destruct (_ || _); [by rewrite Hf|]. by destruct Hf as (s' & -> & _).
  - intros p Hp. split; [by apply ref_inc_returns; [exists L|]|].
    by destruct (ref_dec_inv s p) as (s' & n & -> & _); [exists L| |].
  - intros p o Hl. split; [apply (rp_block s L (proj1 Hi)); right; apply Hl|].
    intros f Hf. by eapply live_not_free; [apply Hi|..].
  - intros p o q o' [Hp _] [Hq _]. by apply (rp_disj s L (proj1 Hi)); right.
  - by apply (free_count s L).
Qed.

(** ** Limits of the implementation *)

(** the reference counts are laid out after the one-byte flags, so the
    [u16] array starts at an odd address exactly when the number of tracked
    frames is odd. *)
Theorem refcounts_alignment meta_virt max : meta_virt mod PAGE_SIZE = 0 →
  let '(_, _, _, refcounts_ptr) := array_addresses meta_virt max in
  refcounts_ptr mod 2 = max mod 2.
Proof.
  unfold array_addresses, PAGE_SIZE. intros Hm. apply Z.mod_divide in Hm as [k ->]; [|done].
  replace (k * 4096 + 4 * max + 4 * max + max) with (max + (k * 2048 + 4 * max) * 2) by lia.
  by apply Z_mod_plus_full.
Qed.

(** a full reference count loses references.  At 65535 sharers another
    [ref_inc] changes nothing, so the frame is freed one holder too early. *)
Theorem ref_inc_saturates s p : invariant s → 0 ≤ p < max_pfn s → ref_at s p = 65535 →
  ref_inc s p = Ok s.
Proof.
  intros [L [Hr _]] Hp Hs. lens (rp_links s L Hr). unfold ref_inc.
  destruct (Z.ltb_spec p (max_pfn s)); [|lia]. run_arrays. rewrite Hs.
  change (saturating_add 16 65535 1) with 65535. rewrite <- Hs.
  assert (wr (refcounts s) p (ref_at s p) = refcounts s) as ->; [|by destruct s].
  unfold wr, rd. apply list_insert_id, list_lookup_lookup_total_lt. lia.
Qed.

(** ** A concrete allocator: frames 1 to 15 of a machine with 16 frames *)

Definition sample : BuddyAllocator :=
  match add_range (fresh 16) 4096 61440 with Ok (s, _) => s | _ => fresh 16 end.

Lemma sample_invariant : invariant sample.
Proof.
  unfold sample. destruct (add_range_rep (fresh 16) (λ _, []) 4096 61440) as (s & L & -> & Hi & _);
    [by apply fresh_invariant|done|done| |by exists L].
  intros _ q o [[_ Hq]|(Hq & Ha & _)]; [by apply elem_of_nil in Hq|].
  cbn in Hq, Ha. rewrite (rd_replicate 16) in Ha by lia. done.
Qed.

(** a reservation inside an allocated block does not last.  Reserving
    frame 9 while the block 8..15 is allocated reports success, and so does
    reserving it again after the block is freed, yet the next allocation of
    that order hands the frame out. *)
Theorem reservation_lost :
  (let addr p := PAGE_SIZE * p in
   '(s, a) ← alloc_order sample 3;
   '(s, r1) ← reserve s (addr 9);
   '(s, f) ← free s (addr 8);
   '(s, r2) ← reserve s (addr 9);
   '(s, a2) ← alloc_order s 3;
   Ok (a, r1, f, r2, a2)) = Ok (E := Empty_set) (Some 8, true, true, true, Some 8).
Proof. vm_compute. reflexivity. Qed.

Lemma alloc_order_correct_witness :
  ∃ s' r, alloc_order sample 2 = Ok (s', r) ∧ invariant s'.
Proof.
  destruct (alloc_order_correct sample 2 sample_invariant ltac:(lia)) as (s' & r & H & Hi & _).
  exists s', r. exact (conj H Hi).
Defined.

Lemma free_correct_witness : free sample 4096 = Ok (sample, false).
Proof.
  destruct (free_correct sample 4096 sample_invariant ltac:(lia)) as (s' & b & H & _ & Hb & Hs & _).
  destruct b; [|rewrite H, (Hs eq_refl); reflexivity]. exfalso. destruct Hb as [Hb _]. destruct (Hb eq_refl) as (_ & _ & Hr).
  vm_compute in Hr. congruence.
Defined.

Lemma alloc_free_roundtrip_witness :
  ∃ s1 s2, alloc_order sample 0 = Ok (s1, Some 1) ∧ free s1 4096 = Ok (s2, true) ∧
    free_frames s2 = 15.
Proof.
  destruct (alloc_order sample 0) as [[s1 r]|e|] eqn:E; [|destruct e|vm_compute in E; discriminate].
  assert (r = Some 1) as -> by (vm_compute in E; congruence).
  destruct (alloc_free_roundtrip sample 0 s1 1 sample_invariant ltac:(lia) E) as (s2 & H & _ & Hf & _).
  exists s1, s2. split; [reflexivity|]. split; [exact H|]. rewrite Hf. vm_compute. reflexivity.
Defined.

Lemma reserve_correct_witness : ∃ s', reserve sample (PAGE_SIZE * 9) = Ok (s', true) ∧ ¬ free_at s' 9.
Proof.
  destruct (reserve_correct sample (PAGE_SIZE * 9) sample_invariant ltac:(unfold PAGE_SIZE; lia)) as
    (s' & b & H & _ & Hb & _ & Hf & _); [left; vm_compute; reflexivity|].
  assert (b = true) as -> by (apply Hb; split; vm_compute; reflexivity).
  exists s'. split; [exact H|]. rewrite (Hf eq_refl 9). intros [_ Hn]. apply Hn. reflexivity.
Defined.

Definition sample_map : list Entry :=
  [{| base := 4096; len := 4096 * 6; usable := true |};
   {| base := 4096 * 7; len := 4096; usable := false |};
   {| base := 4096 * 8; len := 4096 * 12; usable := true |}].

Lemma init_correct_witness : ∃ s stats, init sample_map 0xffff800000000000 = Ok (s, stats) ∧ invariant s ∧
  free_at s 1 ∧ ¬ free_at s 8.
Proof.
  destruct (init_correct sample_map 0xffff800000000000) as [[_ Hp]|(c & Hin & Hu & _ & Hlong & s & st & H & Hi & _ & Hf & _)].
  - split; [repeat constructor; vm_compute; intuition congruence|].
    repeat constructor; vm_compute; intuition congruence.
  - vm_compute. congruence.
  - lia.
  - vm_compute in Hp. discriminate.
  - assert (c = {| base := 4096 * 8; len := 4096 * 12; usable := true |}) as ->.
    { clear - Hin Hu Hlong. apply elem_of_cons in Hin as [Hc|Hin].
      { specialize (Hlong {| base := 4096 * 8; len := 4096 * 12; usable := true |}
          (list_elem_of_further _ _ _ (list_elem_of_further _ _ _ (list_elem_of_here _ _))) eq_refl).
        subst c. vm_compute in Hlong. congruence. }
      apply elem_of_cons in Hin as [Hc|Hin]; [subst c; discriminate Hu|].
      by apply list_elem_of_singleton in Hin. }
    exists s, st. split; [exact H|]. split; [exact Hi|]. rewrite !Hf. split.
    + split; [|vm_compute; intuition congruence].
      eexists. split; [left|]. vm_compute. intuition congruence.
    + intros [_ Hn]. apply Hn. vm_compute. intuition congruence.
Defined.

(** A run of one call of each kind: frame 1 is allocated, shared, one of its
    references is dropped, frame 9 is reserved and frame 1 is freed. *)
Definition sample_run : op BuddyAllocator :=
  '(s, _) ← alloc_order sample 0;
  s ← ref_inc s 1;
  '(s, _) ← ref_dec s 1;
  '(s, _) ← reserve s (PAGE_SIZE * 9);
  '(s, _) ← free s PAGE_SIZE;
  Ok s.

Lemma sample_run_steps : ∃ s, sample_run = Ok s ∧ rtc mem_step sample s ∧ free_frames s = 14.
Proof.
  unfold sample_run.
  destruct (alloc_order sample 0) as [[s1 r]|[]|] eqn:E1; [|by vm_compute in E1].
  assert (s1 = match alloc_order sample 0 with Ok (s, _) => s | _ => sample end) as Hs1 by by rewrite E1.
  cbn [mbind res_bind].
  destruct (ref_inc s1 1) as [s2|[]|] eqn:E2; [|rewrite Hs1 in E2; by vm_compute in E2].
  cbn [mbind res_bind].
  assert (s2 = match ref_inc s1 1 with Ok s => s | _ => s1 end) as Hs2 by by rewrite E2.
  destruct (ref_dec s2 1) as [[s3 n]|[]|] eqn:E3; [|rewrite Hs2, Hs1 in E3; by vm_compute in E3].
  cbn [mbind res_bind].
  assert (s3 = match ref_dec s2 1 with Ok (s, _) => s | _ => s2 end) as Hs3 by by rewrite E3.
  destruct (reserve s3 (PAGE_SIZE * 9)) as [[s4 b]|[]|] eqn:E4; [|rewrite Hs3, Hs2, Hs1 in E4; by vm_compute in E4].
  cbn [mbind res_bind].
  assert (s4 = match reserve s3 (PAGE_SIZE * 9) with Ok (s, _) => s | _ => s3 end) as Hs4 by by rewrite E4.
  destruct (free s4 PAGE_SIZE) as [[s5 b5]|[]|] eqn:E5; [|rewrite Hs4, Hs3, Hs2, Hs1 in E5; by vm_compute in E5].
  cbn [mbind res_bind].
  assert (s5 = match free s4 PAGE_SIZE with Ok (s, _) => s | _ => s4 end) as Hs5 by by rewrite E5.
  exists s5. split; [done|]. split.
  - eapply rtc_l; [eapply (step_alloc _ 0); [lia|exact E1]|].
    eapply rtc_l; [eapply (step_inc _ 1); [lia| |exact E2]; by rewrite Hs1; vm_compute|].
    eapply rtc_l; [eapply (step_dec _ 1); [lia|exact E3]|].
    eapply rtc_l; [eapply (step_reserve _ (PAGE_SIZE * 9)); [by vm_compute|exact E4]|].
    eapply rtc_l; [eapply (step_free _ PAGE_SIZE); [by vm_compute|exact E5]|]. apply rtc_refl.
  - rewrite Hs5, Hs4, Hs3, Hs2, Hs1. by vm_compute.
Qed.

Lemma buddy_lifetime_witness : ∃ s, sample_run = Ok s ∧ free_frames s = 14 ∧
  alloc_order s 4 ≠ Panic ∧ ref_inc s 3 ≠ Panic ∧ free s 4096 ≠ Panic.
Proof.
  destruct sample_run_steps as (s & Hrun & Hsteps & Hn). exists s.
  destruct (buddy_lifetime sample s sample_invariant Hsteps) as (Ha & Hf & Hr & _).
  repeat split; [exact Hrun|exact Hn|apply Ha; lia|apply Hr; lia|apply Hf; lia].
Defined.

(** a reference added to a free frame breaks the allocator.  Frame 9 lies
    inside the free block 8..15; with a reference it can be freed, and the
    allocator then counts 16 free frames where it has 15 and grants frame 9
    twice: alone and in the block of order 3. *)
Theorem ref_inc_of_free_frame :
  (s ← ref_inc sample 9;
   '(s, f) ← free s (PAGE_SIZE * 9);
   let n := free_frames s in
   '(s, a1) ← alloc_order s 0;
   '(s, a2) ← alloc_order s 0;
   '(s, a3) ← alloc_order s 3;
   Ok (f, n, a1, a2, a3)) = Ok (E := Empty_set) (true, 16, Some 9, Some 1, Some 8).
Proof. vm_compute. reflexivity. Qed.

Lemma refcounts_alignment_witness :
  let '(_, _, _, p) := array_addresses (2 ^ 47 + 4096 * 8) 7 in p mod 2 = 1.
Proof. exact (refcounts_alignment (2 ^ 47 + 4096 * 8) 7 eq_refl). Defined.

(** Frame 1 allocated and shared 65535 times. *)
Definition sample_shared : BuddyAllocator :=
  match alloc_order sample 0 with
  | Ok (s, _) => with_refcounts s (wr (refcounts s) 1 65535)
  | _ => sample
  end.

Lemma sample_shared_invariant : invariant sample_shared.
Proof.
  destruct sample_invariant as [L Hi]. unfold sample_shared.
  destruct (alloc_order_rep sample L 0 Hi ltac:(lia)) as (s & r & Heq & Hs).
  assert (r = Some 1) as -> by (vm_compute in Heq; congruence).
  destruct Hs as [L' Hg]. destruct (granted_spec sample L 0 s L' 1 (proj1 Hi) Hg) as (Href & _).
  rewrite Heq. exists L'. destruct (gr_inv _ _ _ _ _ _ Hg) as [Hr Hw]. split; [|exact Hw].
  apply refcount_rep; [exact Hr|rewrite (gr_max _ _ _ _ _ _ Hg); vm_compute; intuition congruence| |].
  - rewrite Href. lia.
  - vm_compute. intuition congruence.
Qed.

Lemma ref_inc_saturates_witness : ref_inc sample_shared 1 = Ok sample_shared.
Proof.
  apply (ref_inc_saturates sample_shared 1 sample_shared_invariant); vm_compute; intuition congruence.
Defined.
