(* ===== verification/Frames.v ===== *)
(** * Frames as seen by their users

    The interface between the frame allocator and the components that keep
    data in frames ([tmpfs.rs], [page_cache.rs]): a client that holds the
    frames [H] can allocate one more and give one back.  [memory.rs]'s
    [alloc_frame] and [free_frame] implement it over the buddy allocator. *)

From stdpp Require Import gmap.
From S2P Require Import Prelude Words Buddy BuddyLinks BuddyBlocks BuddySpec.

(** [holds a H]: every frame of [H] is handed out and referenced, so no
    allocation returns it. *)
Class FrameAllocator (A : Type) := {
  holds : A → gset Z → Prop;
  alloc_frame : A → A * option Z;
  free_frame : A → Z → A * bool;
  alloc_frame_some a H a' f : holds a H → alloc_frame a = (a', Some f) →
    f ∉ H ∧ holds a' ({[f]} ∪ H);
  alloc_frame_none a H a' : holds a H → alloc_frame a = (a', None) → holds a' H;
  free_frame_held a H f : holds a H → f ∈ H →
    ∃ a', free_frame a f = (a', true) ∧ holds a' (H ∖ {[f]});
  frame_address a H f : holds a H → f ∈ H → 0 ≤ f < 2 ^ 36 ∧ f mod 4096 = 0 }.

(** ** The buddy allocator behind the interface *)

Definition buddy_holds (s : BuddyAllocator) (H : gset Z) : Prop :=
  invariant s ∧ ∀ f, f ∈ H → ∃ p, f = PAGE_SIZE * p ∧ 0 < p ∧ live s p 0.

Section buddy.
(** Memory pressure makes [alloc_frame] evict clean cache pages and a user
    page; all this needs to respect is what the clients hold. *)
Context (low_watermark : Z) (reclaim : BuddyAllocator → BuddyAllocator).
Context (Hreclaim : ∀ s H, buddy_holds s H → buddy_holds (reclaim s) H).

Definition try_alloc (s : BuddyAllocator) : BuddyAllocator * option Z :=
  match alloc s with Ok r => r | _ => (s, None) end.

Definition memory_alloc_frame (s : BuddyAllocator) : BuddyAllocator * option Z :=
  let wm := low_watermark in
  let s := if (0 <? wm) && (free_frames s <=? wm) then reclaim s else s in
  let '(s, r) := try_alloc s in
  match r with
  | None => if 0 <? wm then try_alloc (reclaim s) else (s, None)
  | Some f => (s, Some f)
  end.

Definition memory_free_frame (s : BuddyAllocator) (frame : Z) : BuddyAllocator * bool :=
  match free s frame with Ok r => r | _ => (s, false) end.

Lemma try_alloc_holds s H : buddy_holds s H →
  match try_alloc s with
  | (s', Some f) => f ∉ H ∧ buddy_holds s' ({[f]} ∪ H)
  | (s', None) => buddy_holds s' H
  end.
Proof.
  intros [[L Hi] Hh]. unfold try_alloc, alloc.
  destruct (alloc_order_rep s L 0 Hi ltac:(lia)) as (s' & r & -> & Hs). cbn [mbind res_bind].
  destruct r as [p|]; cbn [option_map]; [|destruct Hs as [-> _]; split; [by exists L|done]].
  destruct Hs as [L' Hg]. pose proof (granted_spec s L 0 s' L' p (proj1 Hi) Hg) as (Href & Hlive & _ & _ & _ & Hkeep).
  pose proof (gr_in _ _ _ _ _ _ Hg) as Hin. pose proof (block_in_range _ _ _ Hin) as Hp.
  pose proof (gr_inv _ _ _ _ _ _ Hg) as Hi'. lens (rp_links _ _ (proj1 Hi')).
  rewrite wrap_small by (unfold is_u, PAGE_SIZE; lia). split.
  - intros Hf. destruct (Hh _ Hf) as (q & Hq & _ & Hql).
    assert (q = p) as -> by (unfold PAGE_SIZE in *; lia).
    destruct (Hkeep p 0 Hql) as [_ [?|?]]; change (2 ^ 0) with 1 in *; lia.
  - split; [by exists L'|]. intros f [->%elem_of_singleton|Hf]%elem_of_union.
    + exists p. split; [unfold PAGE_SIZE; lia|]. split; [by eapply gr_pos|done].
    + destruct (Hh f Hf) as (q & -> & Hq0 & Hq). exists q. split; [done|]. split; [done|].
      by destruct (Hkeep q 0 Hq).
Qed.

Lemma memory_alloc_holds s H : buddy_holds s H →
  match memory_alloc_frame s with
  | (s', Some f) => f ∉ H ∧ buddy_holds s' ({[f]} ∪ H)
  | (s', None) => buddy_holds s' H
  end.
Proof.
  intros Hs. unfold memory_alloc_frame. set (s1 := if _ && _ then reclaim s else s).
  assert (Hs1 : buddy_holds s1 H) by (unfold s1; case_match; auto).
  pose proof (try_alloc_holds s1 H Hs1) as Ht. destruct (try_alloc s1) as [s2 [f|]]; [done|].
  destruct (0 <? low_watermark); [|done]. apply try_alloc_holds. auto.
Qed.

Lemma memory_free_holds s H f : buddy_holds s H → f ∈ H →
  ∃ s', memory_free_frame s f = (s', true) ∧ buddy_holds s' (H ∖ {[f]}).
Proof.
  intros [[L Hi] Hh] Hf. destruct (Hh f Hf) as (p & -> & Hpos & Hlive).
  unfold memory_free_frame. pose proof (free_rep s L (PAGE_SIZE * p) Hi ltac:(unfold PAGE_SIZE; lia)) as Hfr.
  cbv zeta in Hfr. rewrite (Z.mul_comm PAGE_SIZE p), Z.div_mul in Hfr by done.
  destruct Hlive as [(Hr & _) Href]. lens (rp_links s L (proj1 Hi)).
  rewrite bad_frame_page, (proj2 (Z.leb_gt _ _)), (proj2 (Z.eqb_neq _ _)) in Hfr by lia. cbn [orb] in Hfr.
  assert (Hq : ∀ g, g ∈ H ∖ {[PAGE_SIZE * p]} → ∃ q, g = PAGE_SIZE * q ∧ 0 < q ∧ live s q 0 ∧ q ≠ p).
  { intros g [Hin Hne]%elem_of_difference. destruct (Hh g Hin) as (q & -> & ? & ?).
    exists q. rewrite elem_of_singleton in Hne. do 3 (split; [done|]). by intros ->. }
  assert (Hrd : ∀ s' x, refcounts s' = wr (refcounts s) p x → ∀ q, 0 ≤ q → q ≠ p → 0 < ref_at s q → 0 < ref_at s' q).
  { intros s' x Hs' q ???. rewrite Hs', rd_wr_ne by lia. done. }
  rewrite (Z.mul_comm PAGE_SIZE p) in *. destruct (1 <? ref_at s p).
  - destruct Hfr as [Heq Hi']. rewrite Heq. eexists. split; [done|]. split; [by exists L|].
    intros g (q & -> & ? & [Hqa ?] & ?)%Hq. exists q. split; [done|]. split; [done|]. split; [done|].
    apply (Hrd _ (ref_at s p - 1)); [done|lia|done|done].
  - destruct Hfr as (s' & L' & o & Heq & _ & [Hi' Hmax Hrf Hal _ _]). rewrite Heq.
    exists s'. split; [done|]. split; [by exists L'|].
    intros g (q & -> & ? & [Hqa ?] & ?)%Hq. exists q. split; [done|]. split; [done|].
    assert (0 < ref_at s' q) by (eapply Hrd; [exact Hrf|lia|done|done]). split; [|done]. by apply Hal.
Qed.

Lemma buddy_frame_address s H f : buddy_holds s H → f ∈ H → 0 ≤ f < 2 ^ 36 ∧ f mod 4096 = 0.
Proof.
  intros [[L [Hr _]] Hh] Hf. destruct (Hh f Hf) as (p & -> & Hp & [[Hpm _] _]).
  lens (rp_links s L Hr). unfold PAGE_SIZE. split; [lia|]. rewrite Z.mul_comm. by apply Z_mod_mult.
Qed.

#[export] Instance buddy_frames : FrameAllocator BuddyAllocator.
Proof.
  refine {| holds := buddy_holds; alloc_frame := memory_alloc_frame; free_frame := memory_free_frame |}.
  - intros s H s' f Hs Heq. pose proof (memory_alloc_holds s H Hs) as Ha. by rewrite Heq in Ha.
  - intros s H s' Hs Heq. pose proof (memory_alloc_holds s H Hs) as Ha. by rewrite Heq in Ha.
  - apply memory_free_holds.
  - apply buddy_frame_address.
Defined.
End buddy.

(** ** A concrete machine: 15 frames behind the buddy allocator *)

Definition no_reclaim (s : BuddyAllocator) : BuddyAllocator := s.
Lemma no_reclaim_holds s H : buddy_holds s H → buddy_holds (no_reclaim s) H.
Proof. done. Qed.

Definition machine_frames : FrameAllocator BuddyAllocator := buddy_frames 0 no_reclaim no_reclaim_holds.

Lemma machine_holds : @holds _ machine_frames sample ∅.
Proof. split; [exact sample_invariant|]. intros f Hf. by apply not_elem_of_empty in Hf. Qed.
