(* ===== verification/SharedFrames.v ===== *)
(** * Frames with several owners

    The promise of the frame allocator to [paging.rs], which counts the page
    tables that refer to a frame: [owned a X] says that the frames of the
    multiset [X] are handed out and that each is counted at least as often as
    it occurs in [X].  [frame_ref_inc], [frame_refcount] and [free_frame] of
    [memory.rs] implement it over the buddy allocator. *)

From stdpp Require Import gmap gmultiset.
From S2P Require Import Prelude Words Buddy BuddyLinks BuddyBlocks BuddySpec Frames.

Class SharedFrames (A : Type) {FA : FrameAllocator A} := {
  owned : A → gmultiset Z → Prop;
  frame_ref_inc : A → Z → A;
  frame_refcount : A → Z → Z;
  owned_alloc_some a X a' f : owned a X → alloc_frame a = (a', Some f) → f ∉ X ∧ owned a' ({[+ f +]} ⊎ X);
  owned_alloc_none a X a' : owned a X → alloc_frame a = (a', None) → owned a' X;
  owned_free a X f : owned a X → f ∈ X → ∃ a', free_frame a f = (a', true) ∧ owned a' (X ∖ {[+ f +]});
  owned_ref_inc a X f : owned a X → f ∈ X → Z.of_nat (multiplicity f X) < 65535 → owned (frame_ref_inc a f) ({[+ f +]} ⊎ X);
  owned_refcount a X f : owned a X → f ∈ X → Z.of_nat (multiplicity f X) ≤ frame_refcount a f;
  owned_address a X f : owned a X → f ∈ X → 0 ≤ f < 2 ^ 36 ∧ f mod 4096 = 0 }.

(** ** The buddy allocator behind the interface *)

Definition buddy_owned (s : BuddyAllocator) (X : gmultiset Z) : Prop :=
  invariant s ∧ ∀ f, f ∈ X → ∃ p, f = PAGE_SIZE * p ∧ 0 < p ∧ live s p 0 ∧ Z.of_nat (multiplicity f X) ≤ ref_at s p.

Section buddy.
Context (low_watermark : Z) (reclaim : BuddyAllocator → BuddyAllocator).
Context (Hreclaim : ∀ s H, buddy_holds s H → buddy_holds (reclaim s) H).
Context (Hreclaim_owned : ∀ s X, buddy_owned s X → buddy_owned (reclaim s) X).
#[local] Instance frames_instance : FrameAllocator BuddyAllocator := buddy_frames low_watermark reclaim Hreclaim.

Definition memory_ref_inc (s : BuddyAllocator) (frame : Z) : BuddyAllocator :=
  match ref_inc s (frame / PAGE_SIZE) with Ok s => s | _ => s end.
Definition memory_refcount (s : BuddyAllocator) (frame : Z) : Z :=
  match refcount s (frame / PAGE_SIZE) with Ok r => r | _ => 0 end.

Lemma try_alloc_owned s X : buddy_owned s X →
  match try_alloc s with
  | (s', Some f) => f ∉ X ∧ buddy_owned s' ({[+ f +]} ⊎ X)
  | (s', None) => buddy_owned s' X
  end.
Proof.
  intros [[L Hi] Hh]. unfold try_alloc, alloc.
  destruct (alloc_order_rep s L 0 Hi ltac:(lia)) as (s' & r & -> & Hs). cbn [mbind res_bind].
  destruct r as [p|]; cbn [option_map]; [|destruct Hs as [-> _]; split; [by exists L|done]].
  destruct Hs as [L' Hg]. pose proof (granted_spec s L 0 s' L' p (proj1 Hi) Hg) as (Href & Hlive & _ & _ & _ & Hkeep).
  pose proof (gr_in _ _ _ _ _ _ Hg) as Hin. pose proof (block_in_range _ _ _ Hin) as Hp.
  pose proof (gr_inv _ _ _ _ _ _ Hg) as Hi'. lens (rp_links _ _ (proj1 Hi')).
  rewrite wrap_small by (unfold is_u, PAGE_SIZE; lia).
  assert (PAGE_SIZE * p ∉ X) as Hnew.
  { intros Hf. destruct (Hh _ Hf) as (q & Hq & _ & Hql & _).
    assert (q = p) as -> by (unfold PAGE_SIZE in *; lia).
    destruct (Hkeep p 0 Hql) as [_ [?|?]]; change (2 ^ 0) with 1 in *; lia. }
  rewrite (Z.mul_comm PAGE_SIZE p) in *. split; [done|]. split; [by exists L'|]. intros f Hf.
  destruct (decide (f = p * PAGE_SIZE)) as [->|Hne].
  - exists p. split; [unfold PAGE_SIZE; lia|]. split; [by eapply gr_pos|]. split; [done|].
    rewrite multiplicity_disj_union, multiplicity_singleton, (proj1 (not_elem_of_multiplicity _ X)) by done. rewrite decide_True by done. lia.
  - assert (f ∈ X) as HfX by multiset_solver. destruct (Hh f HfX) as (q & -> & Hq0 & Hq & Hm). exists q. split; [done|]. split; [done|].
    destruct (Hkeep q 0 Hq) as [Hl _]. split; [done|]. rewrite multiplicity_disj_union, multiplicity_singleton_ne by done.
    rewrite (gr_ref _ _ _ _ _ _ Hg), length_wr in len_ref. rewrite (gr_ref _ _ _ _ _ _ Hg), rd_wr_ne; [done|lia|lia|]. unfold PAGE_SIZE in Hne. lia.
Qed.

Lemma memory_alloc_owned s X : buddy_owned s X →
  match memory_alloc_frame low_watermark reclaim s with
  | (s', Some f) => f ∉ X ∧ buddy_owned s' ({[+ f +]} ⊎ X)
  | (s', None) => buddy_owned s' X
  end.
Proof.
  intros Hs. unfold memory_alloc_frame. set (s1 := if _ && _ then reclaim s else s).
  assert (Hs1 : buddy_owned s1 X) by (unfold s1; case_match; auto).
  pose proof (try_alloc_owned s1 X Hs1) as Ht. destruct (try_alloc s1) as [s2 [f|]]; [done|].
  destruct (0 <? low_watermark); [|done]. apply try_alloc_owned. auto.
Qed.

Lemma owned_holds s X : buddy_owned s X → buddy_holds s (dom X).
Proof. intros [Hi Hh]. split; [done|]. intros f Hf%gmultiset_elem_of_dom. destruct (Hh f Hf) as (p & ? & ? & ? & _). by exists p. Qed.

Lemma owned_pfn s X f : buddy_owned s X → f ∈ X → ∃ L p, invariant_on s L ∧ f = p * PAGE_SIZE ∧ f / PAGE_SIZE = p ∧ 0 < p < max_pfn s ∧ live s p 0 ∧
  1 ≤ Z.of_nat (multiplicity f X) ≤ ref_at s p ∧ zlen (refcounts s) = max_pfn s ∧ is_u 16 (ref_at s p).
Proof.
  intros [[L Hi] Hh] Hf. destruct (Hh f Hf) as (p & -> & Hpos & Hlive & Hm). exists L, p. lens (rp_links _ _ (proj1 Hi)).
  pose proof (block_in_range _ _ _ (rp_block s L (proj1 Hi) _ _ (or_intror (proj1 Hlive)))). destruct (rp_ref s L (proj1 Hi) p) as [Hu _]; [lia|].
  rewrite elem_of_multiplicity in Hf. rewrite (Z.mul_comm PAGE_SIZE p) in *. rewrite Z.div_mul by done. do 3 (split; [done|]). split; [lia|]. split; [done|]. split; [lia|]. by split.
Qed.

(** Counts of other frames. *)
Lemma owned_others s s' X Y p : buddy_owned s X → invariant s' → 0 ≤ p < zlen (refcounts s) →
  (∀ g, g ∈ Y → g ≠ p * PAGE_SIZE → g ∈ X ∧ multiplicity g Y = multiplicity g X) →
  (∀ q, 0 < q → q ≠ p → allocd s q 0 → allocd s' q 0) → (∃ x, refcounts s' = wr (refcounts s) p x) →
  (p * PAGE_SIZE ∈ Y → 0 < p ∧ live s' p 0 ∧ Z.of_nat (multiplicity (p * PAGE_SIZE) Y) ≤ ref_at s' p) → buddy_owned s' Y.
Proof.
  intros [_ Hh] Hi Hp HY Hal [x Hx] Hf. split; [done|]. intros g Hg. destruct (decide (g = p * PAGE_SIZE)) as [->|Hne].
  - exists p. destruct (Hf Hg) as (? & ? & ?). split_and!; [lia|done..].
  - destruct (HY g Hg Hne) as [HgX Hm]. destruct (Hh g HgX) as (q & -> & Hq & [Hqa Hqr] & Hqm). exists q.
    assert (ref_at s' q = ref_at s q) as Hr by (rewrite Hx, rd_wr_ne; [done|lia|lia|lia]).
    split_and!; [done..| |by rewrite Hm, Hr]. split; [|by rewrite Hr]. apply Hal; [done| |done]. intros ->. by rewrite (Z.mul_comm PAGE_SIZE p) in Hne.
Qed.

Lemma memory_free_owned s X f : buddy_owned s X → f ∈ X → ∃ s', memory_free_frame s f = (s', true) ∧ buddy_owned s' (X ∖ {[+ f +]}).
Proof.
  intros Hs Hf. destruct (owned_pfn s X f Hs Hf) as (L & p & Hi & Hfp & Hdiv & Hp & Hlive & Hm & Hlen & Hu).
  pose proof (free_rep s L f Hi ltac:(unfold PAGE_SIZE in *; lia)) as Hfr. cbv zeta in Hfr. rewrite Hdiv in Hfr.
  assert (bad_frame f = false) as Hbad by (rewrite Hfp; apply bad_frame_page; lia).
  rewrite Hbad, (proj2 (Z.leb_gt _ _)), (proj2 (Z.eqb_neq _ _)) in Hfr by lia. cbn [orb] in Hfr. unfold memory_free_frame.
  assert (∀ g, g ∈ X ∖ {[+ f +]} → g ≠ p * PAGE_SIZE → g ∈ X ∧ multiplicity g (X ∖ {[+ f +]}) = multiplicity g X) as Hoth.
  { intros g Hg Hne. rewrite multiplicity_difference, multiplicity_singleton_ne by congruence. split; [multiset_solver|lia]. }
  assert (multiplicity f (X ∖ {[+ f +]}) = multiplicity f X - 1)%nat as Hmf by (by rewrite multiplicity_difference, multiplicity_singleton_eq).
  destruct (Z.ltb_spec 1 (ref_at s p)) as [Hgt|Hle].
  - destruct Hfr as [-> Hi']. eexists. split; [done|]. eapply (owned_others s _ X _ p); [done|by exists L|lia|done|done|by eexists|]. intros Hin. rewrite <-Hfp, Hmf. cbn [refcounts with_refcounts].
    split; [lia|]. unfold live. cbn [refcounts with_refcounts]. rewrite rd_wr_eq by lia. destruct Hlive as [Hal _]. split; [split; [exact Hal|lia]|lia].
  - destruct Hfr as (s' & L' & o & -> & _ & [Hi' Hmax Hrf Hal _ _]). exists s'. split; [done|].
    eapply (owned_others s _ X _ p); [done|by exists L'|lia|done| |by eexists|]; [intros q ? ? ?; by apply Hal|].
    intros Hin. exfalso. rewrite elem_of_multiplicity in Hin. rewrite <-Hfp, Hmf in Hin. lia.
Qed.

Lemma memory_refcount_owned s X f : buddy_owned s X → f ∈ X → Z.of_nat (multiplicity f X) ≤ memory_refcount s f.
Proof.
  intros Hs Hf. destruct (owned_pfn s X f Hs Hf) as (L & p & Hi & Hfp & Hdiv & Hp & Hlive & Hm & Hlen & Hu). unfold memory_refcount, refcount.
  rewrite Hdiv, (proj2 (Z.ltb_lt _ _)) by lia. rewrite index_rd by lia. apply Hm.
Qed.
Lemma memory_ref_inc_owned s X f : buddy_owned s X → f ∈ X → Z.of_nat (multiplicity f X) < 65535 → buddy_owned (memory_ref_inc s f) ({[+ f +]} ⊎ X).
Proof.
  intros Hs Hf Hmax. destruct (owned_pfn s X f Hs Hf) as (L & p & Hi & Hfp & Hdiv & Hp & Hlive & Hm & Hlen & Hu). unfold memory_ref_inc, ref_inc.
  rewrite Hdiv, (proj2 (Z.ltb_lt _ _)) by lia. rewrite index_rd by lia. cbn [expect mbind res_bind]. unfold set_refcount. rewrite update_wr by lia. cbn [expect mbind res_bind].
  assert (is_u 16 (saturating_add 16 (ref_at s p) 1)) as Hsat by (unfold saturating_add, is_u in *; lia).
  assert (ref_at s p ≤ saturating_add 16 (ref_at s p) 1 ∧ Z.of_nat (multiplicity f X) + 1 ≤ saturating_add 16 (ref_at s p) 1) as [Hs1 Hs2] by (unfold saturating_add, is_u in *; lia).
  destruct Hi as [Hr Hw]. eapply (owned_others s _ X _ p); [done| |lia| |done|by eexists|].
  - exists L. split; [|done]. apply refcount_rep; [done|lia|lia|done].
  - intros g Hg Hne. rewrite multiplicity_disj_union, multiplicity_singleton_ne by congruence. split; [|done]. rewrite Hfp in Hg. multiset_solver.
  - intros _. rewrite <-Hfp, multiplicity_disj_union, multiplicity_singleton_eq. cbn [refcounts with_refcounts]. unfold live. cbn [refcounts with_refcounts].
    rewrite rd_wr_eq by lia. destruct Hlive as [Hal _]. split; [lia|]. split; [split; [exact Hal|lia]|lia].
Qed.

#[export] Instance buddy_shared : SharedFrames BuddyAllocator.
Proof.
  refine {| owned := buddy_owned; frame_ref_inc := memory_ref_inc; frame_refcount := memory_refcount |}.
  - intros s X s' f Hs Heq. pose proof (memory_alloc_owned s X Hs) as Ha. by rewrite (Heq : memory_alloc_frame _ _ s = _) in Ha.
  - intros s X s' Hs Heq. pose proof (memory_alloc_owned s X Hs) as Ha. by rewrite (Heq : memory_alloc_frame _ _ s = _) in Ha.
  - apply memory_free_owned.
  - apply memory_ref_inc_owned.
  - apply memory_refcount_owned.
  - intros s X f Hs Hf. apply (buddy_frame_address s (dom X)); [by apply owned_holds|by apply gmultiset_elem_of_dom].
Defined.
End buddy.

Lemma no_reclaim_owned s X : buddy_owned s X → buddy_owned (no_reclaim s) X.
Proof. done. Qed.
Definition machine_shared : @SharedFrames BuddyAllocator machine_frames := buddy_shared 0 no_reclaim no_reclaim_holds no_reclaim_owned.
Lemma machine_owned : @owned _ _ machine_shared sample ∅.
Proof. split; [exact sample_invariant|]. intros f Hf. by apply gmultiset_elem_of_empty in Hf. Qed.
