(* ===== verification/Vfs.v ===== *)
(** * The filesystem vocabulary ([rust/kernel/src/vfs.rs], [storage.rs])

    The error and metadata types every filesystem of the kernel shares. *)

From stdpp Require Import gmap.
From S2P Require Import Prelude Words.

Inductive StorageError :=
| OutOfBounds | AllocationFailed | DeviceUnavailable | IoFailed | GptMissingRoot | GptInvalid.
#[export] Instance StorageError_eq_dec : EqDecision StorageError.
Proof. solve_decision. Defined.

Inductive VfsError :=
| Storage (e : StorageError)
| InvalidFormat | NotMounted | InvalidPath | NameTooLong | NotFound | AlreadyExists
| IsDirectory | NotDirectory | NotEmpty | NoSpace | FileTooLarge | RedoxFs
| PermissionDenied | ReadOnlyFilesystem | Loop.
#[export] Instance VfsError_eq_dec : EqDecision VfsError.
Proof. solve_decision. Defined.

Record InodeMetadata := {
  im_ino : Z; im_size : Z; im_mode : Z; im_uid : Z; im_gid : Z;
  im_atime : Z; im_mtime : Z; im_ctime : Z }.

(** [paging::phys_to_virt]: the higher-half direct map, if it is set up. *)
Definition phys_to_virt (hhdm : option Z) (physical_address : Z) : option Z :=
  h ← hhdm; checked_add 64 h physical_address.

Definition machine_hhdm : option Z := Some 0xffff800000000000.
Lemma machine_hhdm_covers f : 0 ≤ f < 2 ^ 36 → is_Some (phys_to_virt machine_hhdm f).
Proof. intros. eexists. apply checked_add_Some. split; [done|]. lia. Qed.
