(* ===== verification/Pages.v ===== *)
(** * Data kept in page frames

    A byte string stored in a list of 4096-byte frames: reading and writing
    a piece that stays inside one frame is reading and writing that piece of
    the whole string. *)

From stdpp Require Import gmap.
From S2P Require Import Prelude Words.

Abbreviation PAGE := 4096 (only parsing).

(** Contents of physical frames, by start address. *)
Abbreviation memory := (Z → list Z).

Definition set_mem (m : memory) (f : Z) (page : list Z) : memory :=
  λ g, if decide (g = f) then page else m g.

Definition mem_ok (m : memory) : Prop := ∀ f, length (m f) = 4096%nat.
Definition data (m : memory) (pages : list Z) : list Z := mjoin (m <$> pages).

Lemma data_app m l1 l2 : data m (l1 ++ l2) = data m l1 ++ data m l2.
Proof. unfold data. by rewrite fmap_app, join_app. Qed.

Lemma data_cons m f l : data m (f :: l) = m f ++ data m l.
Proof. done. Qed.

Lemma length_data m pages : mem_ok m → zlen (data m pages) = 4096 * zlen pages.
Proof.
  intros Hm. induction pages as [|f l IH]; [done|]. rewrite data_cons, length_app, Hm.
  cbn [length]. lia.
Qed.

Lemma set_mem_ok m f p : mem_ok m → length p = 4096%nat → mem_ok (set_mem m f p).
Proof. intros Hm Hp g. unfold set_mem. by case_decide. Qed.

Lemma data_other m f p pages : f ∉ pages → data (set_mem m f p) pages = data m pages.
Proof.
  intros Hf. unfold data. f_equal. apply list_fmap_ext. intros i g Hg. unfold set_mem.
  case_decide; [|done]. subst. by apply list_elem_of_lookup_2 in Hg.
Qed.

Lemma data_ext m m' pages : (∀ f, f ∈ pages → m' f = m f) → data m' pages = data m pages.
Proof.
  intros He. unfold data. f_equal. apply list_fmap_ext. intros i g Hg. apply He.
  by apply list_elem_of_lookup_2 in Hg.
Qed.

(** The frame of page [i] is bytes [4096 * i ..] of the data. *)
Lemma data_split m pages i f : mem_ok m → index pages i = Some f →
  ∃ l1 l2, pages = l1 ++ f :: l2 ∧ zlen l1 = i ∧
    data m pages = data m l1 ++ m f ++ data m l2 ∧ zlen (data m l1) = 4096 * i.
Proof.
  intros Hm [Hi Hl]%index_Some. apply list_elem_of_split_length in Hl as (l1 & l2 & -> & Hlen).
  exists l1, l2. split; [done|]. split; [lia|]. rewrite data_app, length_data by done.
  split; [done|lia].
Qed.

Lemma data_page m pages i f off k : mem_ok m → index pages i = Some f →
  0 ≤ off → 0 ≤ k → off + k ≤ 4096 →
  slice (m f) off (off + k) = Some (take (Z.to_nat k) (drop (Z.to_nat (4096 * i + off)) (data m pages))).
Proof.
  intros Hm Hi Ho Hk Hle. destruct (data_split m pages i f Hm Hi) as (l1 & l2 & _ & _ & -> & Hlen).
  rewrite slice_in by (rewrite ?Hm; lia). f_equal.
  replace (Z.to_nat (off + k - off)) with (Z.to_nat k) by lia.
  rewrite drop_app_ge by lia. replace (Z.to_nat (4096 * i + off) - length (data m l1))%nat with (Z.to_nat off) by lia.
  rewrite drop_app_le by (rewrite Hm; lia). by rewrite take_app_le by (rewrite length_drop, Hm; lia).
Qed.

Lemma splice_app_mid {A} (a b c bs : list A) off :
  0 ≤ off → off + zlen bs ≤ zlen b →
  splice (a ++ b ++ c) (zlen a + off) bs = a ++ splice b off bs ++ c.
Proof.
  intros Ho Hle. unfold splice.
  rewrite take_app_ge, drop_app_ge by lia.
  replace (Z.to_nat (zlen a + off) - length a)%nat with (Z.to_nat off) by lia.
  replace (Z.to_nat (zlen a + off) + length bs - length a)%nat with (Z.to_nat off + length bs)%nat by lia.
  rewrite take_app_le, drop_app_le by lia. by rewrite <- !app_assoc.
Qed.

Lemma data_write m pages i f off bs : mem_ok m → NoDup pages → index pages i = Some f →
  0 ≤ off → off + zlen bs ≤ 4096 →
  data (set_mem m f (splice (m f) off bs)) pages = splice (data m pages) (4096 * i + off) bs.
Proof.
  intros Hm Hnd Hi Ho Hle. destruct (data_split m pages i f Hm Hi) as (l1 & l2 & -> & _ & -> & Hlen).
  apply NoDup_app in Hnd as (_ & Hx & [Hf _]%NoDup_cons).
  rewrite data_app, data_cons, <- Hlen, splice_app_mid by (rewrite ?Hm; lia).
  assert (f ∉ l1) by (intros Hin; apply (Hx f Hin); set_solver).
  rewrite (data_other m f _ l1) by done. f_equal. rewrite (data_other m f _ l2) by done.
  f_equal. unfold set_mem. by rewrite decide_True.
Qed.

Lemma splice_splice {A} (l x y : list A) a :
  0 ≤ a → a + zlen x + zlen y ≤ zlen l →
  splice (splice l a x) (a + zlen x) y = splice l a (x ++ y).
Proof.
  intros Ha Hle. unfold splice. set (T := take (Z.to_nat a) l).
  assert (length T = Z.to_nat a) by (unfold T; rewrite length_take; lia).
  rewrite !(app_assoc T x). rewrite take_app_length' by (rewrite length_app; lia).
  rewrite drop_app_ge by (rewrite length_app; lia).
  rewrite drop_drop, !length_app, <- !app_assoc. do 4 f_equal. lia.
Qed.

(** Reading inside and outside the bytes just written. *)
Lemma splice_read {A} (l bs : list A) a :
  0 ≤ a → a + zlen bs ≤ zlen l → take (length bs) (drop (Z.to_nat a) (splice l a bs)) = bs.
Proof.
  intros. unfold splice. rewrite drop_app_length' by (rewrite length_take; lia).
  by rewrite take_app_length.
Qed.

Lemma take_drop_take {A} (l : list A) o a n : (o + a ≤ n)%nat → take a (drop o (take n l)) = take a (drop o l).
Proof.
  intros Hle. rewrite !take_drop_commute. f_equal. rewrite take_take. f_equal. lia.
Qed.
