(* ===== verification/Tmpfs.v ===== *)
(** * The in-memory filesystem ([rust/kernel/src/tmpfs.rs])

    Inodes in an ordered map, directories as maps from names (byte strings)
    to inodes, file data in frames of the physical allocator.  The model
    threads the filesystem, the frame allocator and the contents of frames;
    a file keeps a list of frames, as in the source, so two files could
    share one: that they never do is a theorem. *)

From stdpp Require Import gmap sorting.
From S2P Require Import Prelude Words BTree Vfs Frames Pages.

Abbreviation name := (list Z).

Inductive TmpNodeKind :=
| File (pages : list Z) (size : Z)
| Directory (entries : gmap name Z)
| Symlink (target : list Z).

Record TmpNode := {
  ino : Z; mode : Z; uid : Z; gid : Z; atime : Z; mtime : Z; ctime : Z;
  nlink : Z; open_count : Z; kind : TmpNodeKind }.

Definition set_kind (n : TmpNode) (k : TmpNodeKind) : TmpNode :=
  {| ino := ino n; mode := mode n; uid := uid n; gid := gid n; atime := atime n;
     mtime := mtime n; ctime := ctime n; nlink := nlink n; open_count := open_count n; kind := k |}.
Definition set_counts (n : TmpNode) (links opens : Z) : TmpNode :=
  {| ino := ino n; mode := mode n; uid := uid n; gid := gid n; atime := atime n;
     mtime := mtime n; ctime := ctime n; nlink := links; open_count := opens; kind := kind n |}.

(** A node as the constructors of the source make it: owned by root, times 0. *)
Definition fresh_node (i m links : Z) (k : TmpNodeKind) : TmpNode :=
  {| ino := i; mode := m; uid := 0; gid := 0; atime := 0; mtime := 0; ctime := 0;
     nlink := links; open_count := 0; kind := k |}.

Record TmpFs := { next_ino : Z; nodes : gmap Z TmpNode }.

Definition new : TmpFs :=
  {| next_ino := 2; nodes := {[ 1 := fresh_node 1 0x41FF 2 (Directory ∅) ]} |}.

Definition root_inode : Z := 1.

(** ** Queries *)

Definition get (fs : TmpFs) (i : Z) : res VfsError TmpNode := ok_or NotFound (nodes fs !! i).
Definition dir_entries (n : TmpNode) : res VfsError (gmap name Z) :=
  match kind n with Directory e => Ok e | _ => Err NotDirectory end.

Definition DOT : name := [46].
Definition DOTDOT : name := [46; 46].

Definition lookup (fs : TmpFs) (parent : Z) (nm : name) : res VfsError Z :=
  if bool_decide (nm = DOT ∨ nm = []) then Ok parent else
  node ← get fs parent;
  entries ← dir_entries node;
  if bool_decide (nm = DOTDOT) then Ok parent else
  ok_or NotFound (entries !! nm).

Definition read_inode (fs : TmpFs) (i : Z) : res VfsError InodeMetadata :=
  node ← get fs i;
  let size := match kind node with
              | File _ size => size
              | Directory e => u64 (Z.of_nat (size e) * 64)
              | Symlink target => zlen target
              end in
  Ok {| im_ino := ino node; im_size := size; im_mode := mode node; im_uid := uid node;
        im_gid := gid node; im_atime := atime node; im_mtime := mtime node; im_ctime := ctime node |}.

Definition readlink (fs : TmpFs) (i : Z) : res VfsError (list Z) :=
  node ← get fs i;
  match kind node with Symlink target => Ok target | _ => Err InvalidPath end.

(** Byte-wise lexicographic order, the order of [String] keys. *)
Fixpoint lex_le (a b : name) : Prop :=
  match a, b with
  | [], _ => True
  | _ :: _, [] => False
  | x :: a', y :: b' => x < y ∨ (x = y ∧ lex_le a' b')
  end.
#[export] Instance lex_le_dec a b : Decision (lex_le a b).
Proof. revert b. induction a as [|x a IH]; intros [|y b]; cbn; apply _. Defined.

Definition read_dir (fs : TmpFs) (i : Z) : res VfsError (list name) :=
  node ← get fs i;
  entries ← dir_entries node;
  Ok (merge_sort lex_le (fst <$> map_to_list entries)).

Section tmpfs.
Context {A : Type} `{FA : !FrameAllocator A} (hhdm : option Z).

Record world := { fs : TmpFs; frames : A; mem : memory }.

Definition set_nodes (w : world) (t : gmap Z TmpNode) : world :=
  {| fs := {| next_ino := next_ino (fs w); nodes := t |}; frames := frames w; mem := mem w |}.
Definition set_frames (w : world) (a : A) : world :=
  {| fs := fs w; frames := a; mem := mem w |}.

(** [Drop for TmpNode] *)
Definition free_all (a : A) (pages : list Z) : A :=
  foldl (λ a f, (free_frame a f).1) a pages.
Definition drop_node (w : world) (n : TmpNode) : world :=
  match kind n with File pages _ => set_frames w (free_all (frames w) pages) | _ => w end.

(** [nodes.insert(i, n)] drops the node it replaces; [nodes.remove(i)] drops
    the node it removes. *)
Definition insert_node (w : world) (i : Z) (n : TmpNode) : world :=
  let w' := match nodes (fs w) !! i with Some old => drop_node w old | None => w end in
  set_nodes w' (<[i := n]> (nodes (fs w'))).
Definition remove_node (w : world) (i : Z) : world :=
  let w' := match nodes (fs w) !! i with Some old => drop_node w old | None => w end in
  set_nodes w' (delete i (nodes (fs w'))).

(** ** Names *)

(** The common body of [create], [mkdir] and [symlink]. *)
Definition add_name (w : world) (parent : Z) (nm : name) (mk : Z → TmpNode)
    : world * res VfsError Z :=
  match get (fs w) parent with
  | Ok node =>
    match kind node with
    | Directory entries =>
      if bool_decide (is_Some (entries !! nm)) then (w, Err AlreadyExists) else
      let i := next_ino (fs w) in
      let t := <[parent := set_kind node (Directory (<[nm := i]> entries))]> (nodes (fs w)) in
      let w1 := {| fs := {| next_ino := u64 (i + 1); nodes := t |};
                   frames := frames w; mem := mem w |} in
      (insert_node w1 i (mk i), Ok i)
    | _ => (w, Err NotDirectory)
    end
  | _ => (w, Err NotFound)
  end.

Definition create (w : world) (parent : Z) (nm : name) (m : Z) : world * res VfsError Z :=
  add_name w parent nm (λ i, fresh_node i (Z.lor 0x8000 (Z.land m 0xFFF)) 1 (File [] 0)).
Definition mkdir (w : world) (parent : Z) (nm : name) (m : Z) : world * res VfsError Z :=
  add_name w parent nm (λ i, fresh_node i (Z.lor 0x4000 (Z.land m 0xFFF)) 2 (Directory ∅)).
Definition symlink (w : world) (parent : Z) (nm target : name) : world * res VfsError Z :=
  add_name w parent nm (λ i, fresh_node i 0xA1FF 1 (Symlink target)).

(** The end of [unlink] and [rmdir]: the entry goes, the link count drops,
    and an unreferenced node is removed. *)
Definition drop_link (w : world) (parent : Z) (nm : name) (target : Z) : world * res VfsError unit :=
  match nodes (fs w) !! parent with
  | None => (w, Err NotFound)
  | Some node =>
    let w := match kind node with
             | Directory entries =>
               set_nodes w (<[parent := set_kind node (Directory (delete nm entries))]> (nodes (fs w)))
             | _ => w
             end in
    match nodes (fs w) !! target with
    | Some t =>
      let t' := set_counts t (saturating_sub (nlink t) 1) (open_count t) in
      let w := set_nodes w (<[target := t']> (nodes (fs w))) in
      if (nlink t' =? 0) && (open_count t' =? 0) then (remove_node w target, Ok ()) else (w, Ok ())
    | None => (w, Ok ())
    end
  end.

(** [nodes.get(&parent)], its entries, and the entry [nm]. *)
Definition find_entry (t : TmpFs) (parent : Z) (nm : name) : res VfsError Z :=
  node ← get t parent;
  entries ← dir_entries node;
  ok_or NotFound (entries !! nm).

Definition unlink (w : world) (parent : Z) (nm : name) : world * res VfsError unit :=
  match (target ← find_entry (fs w) parent nm; n ← get (fs w) target; Ok (target, n)) with
  | Ok (target, n) =>
    match kind n with Directory _ => (w, Err IsDirectory) | _ => drop_link w parent nm target end
  | Err e => (w, Err e)
  | Panic => (w, Panic)
  end.

Definition rmdir (w : world) (parent : Z) (nm : name) : world * res VfsError unit :=
  match (target ← find_entry (fs w) parent nm; n ← get (fs w) target;
         e ← dir_entries n; Ok (target, e)) with
  | Ok (target, e) =>
    if negb (bool_decide (e = ∅)) then (w, Err NotEmpty) else drop_link w parent nm target
  | Err e => (w, Err e)
  | Panic => (w, Panic)
  end.

(** The old entry is removed before the new parent is looked at. *)
Definition rename (w : world) (old_parent : Z) (old : name) (new_parent : Z) (new_name : name)
    : world * res VfsError unit :=
  match nodes (fs w) !! old_parent with
  | None => (w, Err NotFound)
  | Some old_node =>
    match kind old_node with
    | Directory entries =>
      match entries !! old with
      | None => (w, Err NotFound)
      | Some target =>
        let w := set_nodes w (<[old_parent := set_kind old_node (Directory (delete old entries))]>
                                (nodes (fs w))) in
        match nodes (fs w) !! new_parent with
        | None => (w, Err NotFound)
        | Some new_node =>
          match kind new_node with
          | Directory entries' =>
            (set_nodes w (<[new_parent := set_kind new_node (Directory (<[new_name := target]> entries'))]>
                            (nodes (fs w))), Ok ())
          | _ => (w, Err NotDirectory)
          end
        end
      end
    | _ => (w, Err NotDirectory)
    end
  end.

Definition open_inode (w : world) (i : Z) : world :=
  match nodes (fs w) !! i with
  | Some n => set_nodes w (<[i := set_counts n (nlink n) (saturating_add 32 (open_count n) 1)]>
                             (nodes (fs w)))
  | None => w
  end.

Definition close_inode (w : world) (i : Z) : world :=
  match nodes (fs w) !! i with
  | Some n =>
    let n' := set_counts n (nlink n) (saturating_sub (open_count n) 1) in
    let w := set_nodes w (<[i := n']> (nodes (fs w))) in
    if (nlink n' =? 0) && (open_count n' =? 0) then remove_node w i else w
  | None => w
  end.

(** ** Data *)

Definition IO_FAILED : VfsError := Storage IoFailed.

(** The copy loop of [read]; each round copies at least one byte, so
    [to_read] rounds suffice. *)
Fixpoint read_loop (fuel : nat) (m : memory) (pages : list Z) (offset to_read read_bytes : Z)
    (buf : list Z) : res VfsError (list Z) :=
  if to_read <=? read_bytes then Ok buf else
  match fuel with
  | O => Panic
  | S fuel' =>
    let curr_offset := u64 (offset + read_bytes) in
    let page_idx := curr_offset / 4096 in
    let page_off := curr_offset mod 4096 in
    let chunk_len := Z.min (to_read - read_bytes) (4096 - page_off) in
    frame ← expect (index pages page_idx);
    _ ← ok_or IO_FAILED (phys_to_virt hhdm frame);
    chunk ← expect (slice (m frame) page_off (page_off + chunk_len));
    read_loop fuel' m pages offset to_read (read_bytes + chunk_len) (buf ++ chunk)
  end.

Definition read (w : world) (i offset buf_len : Z) : res VfsError (list Z) :=
  node ← get (fs w) i;
  match kind node with
  | File pages size =>
    if size <=? offset then Ok [] else
    let to_read := Z.min buf_len (size - offset) in
    read_loop (Z.to_nat to_read) (mem w) pages offset to_read 0 []
  | _ => Err IsDirectory
  end.

(** Growing the page list to [needed] pages, zeroing each new frame; [n] is
    [needed - pages.len()]. *)
Fixpoint grow (n : nat) (a : A) (m : memory) (pages : list Z)
    : A * memory * list Z * res VfsError unit :=
  match n with
  | O => (a, m, pages, Ok ())
  | S n' =>
    match alloc_frame a with
    | (a', None) => (a', m, pages, Err NoSpace)
    | (a', Some frame) =>
      match phys_to_virt hhdm frame with
      | None => (a', m, pages, Err NoSpace)
      | Some _ => grow n' a' (set_mem m frame (replicate 4096 0)) (pages ++ [frame])
      end
    end
  end.

Fixpoint write_loop (fuel : nat) (m : memory) (pages : list Z) (offset : Z) (buf : list Z)
    (written : Z) : memory * res VfsError unit :=
  if zlen buf <=? written then (m, Ok ()) else
  match fuel with
  | O => (m, Panic)
  | S fuel' =>
    let curr_offset := u64 (offset + written) in
    let page_idx := curr_offset / 4096 in
    let page_off := curr_offset mod 4096 in
    let chunk_len := Z.min (zlen buf - written) (4096 - page_off) in
    match index pages page_idx with
    | None => (m, Panic)
    | Some frame =>
      match phys_to_virt hhdm frame with
      | None => (m, Err IO_FAILED)
      | Some _ =>
        match slice buf written (written + chunk_len) with
        | None => (m, Panic)
        | Some chunk =>
          write_loop fuel' (set_mem m frame (splice (m frame) page_off chunk)) pages offset buf
            (written + chunk_len)
        end
      end
    end
  end.

Definition write (w : world) (i offset : Z) (buf : list Z) : world * res VfsError Z :=
  match nodes (fs w) !! i with
  | None => (w, Err NotFound)
  | Some node =>
    match kind node with
    | File pages size =>
      match checked_add 64 offset (zlen buf) with
      | None => (w, Err FileTooLarge)
      | Some end_ =>
        let needed_pages := u64 (end_ + 4095) / 4096 in
        let '(a, m, pages, r) := grow (Z.to_nat (needed_pages - zlen pages)) (frames w) (mem w) pages in
        let file m size := {| fs := {| next_ino := next_ino (fs w);
            nodes := <[i := set_kind node (File pages size)]> (nodes (fs w)) |};
            frames := a; mem := m |} in
        match r with
        | Ok _ =>
          match write_loop (length buf) m pages offset buf 0 with
          | (m, Ok _) => (file m (if size <? end_ then end_ else size), Ok (zlen buf))
          | (m, Err e) => (file m size, Err e)
          | (m, Panic) => (file m size, Panic)
          end
        | Err e => (file m size, Err e)
        | Panic => (file m size, Panic)
        end
      end
    | _ => (w, Err IsDirectory)
    end
  end.

Definition truncate (w : world) (i size : Z) : world * res VfsError unit :=
  match nodes (fs w) !! i with
  | None => (w, Err NotFound)
  | Some node =>
    match kind node with
    | File pages cur_size =>
      let needed_pages := u64 (size + 4095) / 4096 in
      let n := Z.to_nat needed_pages in
      let '(a, pages) := if needed_pages <? zlen pages
                         then (free_all (frames w) (drop n pages), take n pages)
                         else (frames w, pages) in
      ({| fs := {| next_ino := next_ino (fs w);
           nodes := <[i := set_kind node (File pages size)]> (nodes (fs w)) |};
          frames := a; mem := mem w |}, Ok ())
    | _ => (w, Err IsDirectory)
    end
  end.
End tmpfs.
