(* ===== verification/TmpfsSpec.v ===== *)
(** * The in-memory filesystem: what it promises

    Proved against the [FrameAllocator] interface: files never share frames,
    every frame held is in exactly one file, and file data behaves as one
    byte string. *)

From stdpp Require Import gmap.
From S2P Require Import Prelude Words BTree Vfs Buddy BuddyLinks BuddyBlocks BuddySpec Frames Pages Tmpfs.

Section tmpfs_spec.
Context {A : Type} `{FA : !FrameAllocator A} (hhdm : option Z).

(** Frames that are handed out can be reached through the direct map. *)
Definition mapped : Prop := ∀ (a : A) H f, holds a H → f ∈ H → is_Some (phys_to_virt hhdm f).
Context (Hmapped : mapped).

(** ** The copy loops *)

Lemma page_step offset done : 0 ≤ offset → 0 ≤ done → offset + done < 2 ^ 64 →
  let c := u64 (offset + done) in
  c = offset + done ∧ 0 ≤ c mod 4096 < 4096 ∧ c = 4096 * (c / 4096) + c mod 4096 ∧ 0 ≤ c / 4096.
Proof.
  intros ? ? ? c. assert (c = offset + done) as -> by (apply wrap_small; unfold is_u; lia).
  split; [done|]. split; [by apply Z.mod_pos_bound|]. split; [apply Z.div_mod; lia|].
  apply Z.div_pos; lia.
Qed.

Lemma index_in {B} (l : list B) i : 0 ≤ i < zlen l → ∃ x, index l i = Some x ∧ x ∈ l.
Proof.
  intros Hi. unfold index. rewrite bool_decide_true by done.
  destruct (lookup_lt_is_Some_2 l (Z.to_nat i)) as [x Hx]; [lia|]. exists x. split; [done|].
  by apply list_elem_of_lookup_2 in Hx.
Qed.

Lemma read_loop_spec fuel : ∀ m pages offset to_read rb buf,
  mem_ok m → (∀ f, f ∈ pages → is_Some (phys_to_virt hhdm f)) →
  0 ≤ offset → 0 ≤ rb ≤ to_read → offset + to_read ≤ 4096 * zlen pages → offset + to_read < 2 ^ 64 →
  to_read - rb ≤ Z.of_nat fuel →
  read_loop hhdm fuel m pages offset to_read rb buf =
    Ok (buf ++ take (Z.to_nat (to_read - rb)) (drop (Z.to_nat (offset + rb)) (data m pages))).
Proof.
  induction fuel as [|fuel IH]; intros m pages offset to_read rb buf Hm Hv Ho Hrb Hlen Hmax Hf;
    cbn [read_loop]; destruct (Z.leb_spec to_read rb).
  1,3: replace (Z.to_nat (to_read - rb)) with 0%nat by lia; by rewrite app_nil_r.
  { lia. }
  destruct (page_step offset rb) as (Hc & Hmod & Hdiv & Hd0); [lia..|].
  set (c := u64 (offset + rb)) in *. set (k := Z.min (to_read - rb) (4096 - c mod 4096)).
  destruct (index_in pages (c / 4096)) as (f & Hi & Hin); [lia|].
  rewrite Hi. cbn [expect mbind res_bind]. destruct (Hv f Hin) as [v ->]. cbn [ok_or mbind res_bind].
  rewrite (data_page m pages (c / 4096) f) by (done || lia). cbn [expect mbind res_bind].
  rewrite IH by (done || lia). rewrite <- app_assoc. do 2 f_equal.
  rewrite <- Hdiv, Hc.
  replace (Z.to_nat (to_read - rb)) with (Z.to_nat k + Z.to_nat (to_read - (rb + k)))%nat by lia.
  rewrite <- take_take_drop, drop_drop. do 3 f_equal. lia.
Qed.

Lemma write_loop_spec fuel : ∀ m pages offset buf written,
  mem_ok m → NoDup pages → (∀ f, f ∈ pages → is_Some (phys_to_virt hhdm f)) →
  0 ≤ offset → 0 ≤ written ≤ zlen buf → offset + zlen buf ≤ 4096 * zlen pages →
  offset + zlen buf < 2 ^ 64 → zlen buf - written ≤ Z.of_nat fuel →
  ∃ m', write_loop hhdm fuel m pages offset buf written = (m', Ok ()) ∧ mem_ok m' ∧
    data m' pages = splice (data m pages) (offset + written) (drop (Z.to_nat written) buf) ∧
    ∀ g, g ∉ pages → m' g = m g.
Proof.
  induction fuel as [|fuel IH]; intros m pages offset buf wr Hm Hnd Hv Ho Hw Hlen Hmax Hf;
    cbn [write_loop]; destruct (Z.leb_spec (zlen buf) wr).
  1,3: exists m; split; [done|]; split; [done|]; rewrite drop_ge by lia; split; [|done];
    unfold splice; cbn; by rewrite Nat.add_0_r, take_drop.
  { lia. }
  destruct (page_step offset wr) as (Hc & Hmod & Hdiv & Hd0); [lia..|].
  set (c := u64 (offset + wr)) in *. set (k := Z.min (zlen buf - wr) (4096 - c mod 4096)).
  destruct (index_in pages (c / 4096)) as (f & Hi & Hin); [lia|].
  rewrite Hi. destruct (Hv f Hin) as [v ->]. rewrite slice_in by lia.
  replace (Z.to_nat (wr + k - wr)) with (Z.to_nat k) by lia.
  set (chunk := take (Z.to_nat k) (drop (Z.to_nat wr) buf)).
  assert (Hchunk : zlen chunk = k) by (unfold chunk; rewrite length_take, length_drop; lia).
  set (m1 := set_mem m f (splice (m f) (c mod 4096) chunk)).
  assert (Hm1 : mem_ok m1).
  { apply set_mem_ok; [done|]. rewrite length_splice; rewrite ?Hm; lia. }
  assert (Hd1 : data m1 pages = splice (data m pages) (offset + wr) chunk).
  { unfold m1. rewrite (data_write m pages (c / 4096) f) by (done || lia). f_equal. lia. }
  destruct (IH m1 pages offset buf (wr + k) Hm1 Hnd Hv) as (m' & -> & Hm' & Hd' & Hg); [lia..|].
  exists m'. split; [done|]. split; [done|]. split.
  - rewrite Hd', Hd1. rewrite Z.add_assoc, <- Hchunk, splice_splice.
    + f_equal. unfold chunk. rewrite length_take, length_drop.
      replace (Z.to_nat (wr + _)) with (Z.to_nat wr + Z.to_nat k)%nat by lia.
      by rewrite <- drop_drop, take_drop.
    + lia.
    + rewrite length_data, length_drop by done. lia.
  - intros g Hgn. rewrite Hg by done. unfold m1, set_mem. rewrite decide_False; [done|].
    intros ->. done.
Qed.

(** ** Frames and files *)

Abbreviation world := (@Tmpfs.world A).
Abbreviation tree w := (nodes (fs w)).

(** [f] is page [k] of file [i]. *)
Definition frame_at (t : gmap Z TmpNode) (i : Z) (k : nat) (f : Z) : Prop :=
  ∃ n pages size, t !! i = Some n ∧ kind n = File pages size ∧ pages !! k = Some f.

(** Every held frame is one page of one file, and conversely. *)
Record inv (w : world) (H : gset Z) : Prop := {
  iv_mem : mem_ok (mem w);
  iv_holds : holds (frames w) H;
  iv_in f : f ∈ H ↔ ∃ i k, frame_at (tree w) i k f;
  iv_uniq i k i' k' f : frame_at (tree w) i k f → frame_at (tree w) i' k' f → i = i' ∧ k = k' }.

Lemma inv_same w w' H : inv w H → mem w' = mem w → frames w' = frames w →
  (∀ i k f, frame_at (tree w') i k f ↔ frame_at (tree w) i k f) → inv w' H.
Proof.
  intros [Hm Hh Hi Hu] Em Ef Hfr. split; rewrite ?Em, ?Ef; [done..| |].
  - intros f. rewrite Hi. by setoid_rewrite Hfr.
  - intros i k i' k' f. rewrite !Hfr. apply Hu.
Qed.

Lemma file_nodup w H i n pages size : inv w H → tree w !! i = Some n → kind n = File pages size →
  NoDup pages ∧ ∀ f, f ∈ pages → f ∈ H.
Proof.
  intros Hw Hn Hk. split.
  - apply NoDup_alt. intros k k' f Hk1 Hk2.
    apply (iv_uniq _ _ Hw i k i k' f); exists n, pages, size; done.
  - intros f [k Hf]%list_elem_of_lookup. apply (iv_in _ _ Hw). exists i, k, n, pages, size. done.
Qed.

Lemma free_all_holds pages : ∀ a H, holds a H → NoDup pages → (∀ f, f ∈ pages → f ∈ H) →
  holds (free_all a pages) (H ∖ list_to_set pages).
Proof.
  induction pages as [|f l IH]; intros a H Hh Hnd Hin; cbn.
  { by rewrite difference_empty_L. }
  apply NoDup_cons in Hnd as [Hf Hnd].
  destruct (free_frame_held a H f Hh) as (a' & Hfr & Hh'); [set_solver|]. rewrite Hfr. cbn.
  replace (H ∖ ({[f]} ∪ list_to_set l)) with ((H ∖ {[f]}) ∖ list_to_set l) by set_solver.
  apply IH; [done|done|]. set_solver.
Qed.

Lemma frame_at_insert t i n j k f :
  frame_at (<[i := n]> t) j k f ↔
  (i = j ∧ ∃ pages size, kind n = File pages size ∧ pages !! k = Some f) ∨ (i ≠ j ∧ frame_at t j k f).
Proof.
  unfold frame_at. split.
  - intros (n' & pages & size & Hn & ? & ?). apply lookup_insert_Some in Hn as [[-> ->]|[? ?]]; [left|right].
    + split; [done|]. eauto.
    + split; [done|]. eauto 6.
  - intros [(-> & pages & size & ? & ?)|(? & n' & pages & size & ? & ? & ?)].
    + exists n, pages, size. by rewrite lookup_insert_eq.
    + exists n', pages, size. by rewrite lookup_insert_ne.
Qed.

Lemma frame_at_delete t i j k f : frame_at (delete i t) j k f ↔ i ≠ j ∧ frame_at t j k f.
Proof.
  unfold frame_at. setoid_rewrite lookup_delete_Some. naive_solver.
Qed.

(** Replacing a node by one with the same pages. *)
Lemma frame_at_update t i n n' j k f : t !! i = Some n →
  (∀ pages size, kind n' = File pages size → ∃ size', kind n = File pages size') →
  (∀ pages size, kind n = File pages size → ∃ size', kind n' = File pages size') →
  frame_at (<[i := n']> t) j k f ↔ frame_at t j k f.
Proof.
  intros Hn H1 H2. rewrite frame_at_insert. split.
  - intros [(-> & pages & size & Hk & ?)|[_ ?]]; [|done]. destruct (H1 _ _ Hk) as [size' ?].
    exists n, pages, size'. done.
  - intros Hf. destruct (decide (i = j)) as [->|]; [|by right]. left. split; [done|].
    destruct Hf as (n0 & pages & size & Hn0 & Hk & ?). rewrite Hn in Hn0. injection Hn0 as <-.
    destruct (H2 _ _ Hk) as [size' ?]. eauto.
Qed.

(** Removing a node gives its frames back. *)
Lemma drop_node_holds w H i n : inv w H → tree w !! i = Some n →
  ∃ H', holds (frames (drop_node w n)) H' ∧
    ∀ f, f ∈ H' ↔ ∃ j k, j ≠ i ∧ frame_at (tree w) j k f.
Proof.
  intros Hw Hn. unfold drop_node. destruct (kind n) as [pages size| |] eqn:Hk.
  2,3: exists H; split; [apply Hw|]; intros f; rewrite (iv_in _ _ Hw); split;
    [intros (j & k & Hf); exists j, k; split; [|done]; intros ->;
     destruct Hf as (n' & p & sz & Hn' & Hk' & _); congruence|naive_solver].
  destruct (file_nodup w H i n pages size Hw Hn Hk) as [Hnd Hin].
  exists (H ∖ list_to_set pages). split.
  { cbn. apply free_all_holds; [apply Hw|done|done]. }
  intros f. rewrite elem_of_difference, elem_of_list_to_set, (iv_in _ _ Hw). split.
  - intros [(j & k & Hf) Hno]. exists j, k. split; [|done]. intros ->. apply Hno.
    destruct Hf as (n' & p & sz & Hn' & Hk' & Hl). apply list_elem_of_lookup. exists k. congruence.
  - intros (j & k & Hne & Hf). split; [eauto|]. intros [k' Hl]%list_elem_of_lookup.
    destruct (iv_uniq _ _ Hw j k i k' f Hf); [|done]. exists n, pages, size. done.
Qed.

Lemma tree_drop (w : world) n : tree (drop_node w n) = tree w ∧ mem (drop_node w n) = mem w.
Proof. unfold drop_node. by destruct (kind n). Qed.

Lemma remove_node_inv w H i : inv w H → ∃ H', inv (remove_node w i) H'.
Proof.
  intros Hw. unfold remove_node. destruct (tree w !! i) as [n|] eqn:Hn.
  - destruct (drop_node_holds w H i n Hw Hn) as (H' & Hh & Hin). exists H'.
    destruct (tree_drop w n) as [Ht Hm]. split; cbn; rewrite ?Ht, ?Hm; [apply Hw|done| |].
    + intros f. rewrite Hin. setoid_rewrite frame_at_delete. naive_solver.
    + intros j k j' k' f. rewrite !frame_at_delete. intros [_ ?] [_ ?]. by eapply (iv_uniq _ _ Hw).
  - exists H. eapply inv_same; [done|done|done|]. intros j k f. cbn. rewrite frame_at_delete.
    split; [tauto|]. intros Hf. split; [|done]. intros ->. destruct Hf as (? & ? & ? & ? & _). congruence.
Qed.

Lemma insert_node_inv w H i n : inv w H → (∀ pages size, kind n = File pages size → pages = []) →
  ∃ H', inv (insert_node w i n) H'.
Proof.
  intros Hw Hno. unfold insert_node.
  assert (Hfa : ∀ t j k f, frame_at (<[i := n]> t) j k f ↔ i ≠ j ∧ frame_at t j k f).
  { intros t j k f. rewrite frame_at_insert. split; [|tauto].
    intros [(_ & pages & size & Hk & Hl)|?]; [|done]. rewrite (Hno _ _ Hk) in Hl. done. }
  destruct (tree w !! i) as [old|] eqn:Hn.
  - destruct (drop_node_holds w H i old Hw Hn) as (H' & Hh & Hin). exists H'.
    destruct (tree_drop w old) as [Ht Hm]. split; cbn; rewrite ?Ht, ?Hm; [apply Hw|done| |].
    + intros f. rewrite Hin. setoid_rewrite Hfa. naive_solver.
    + intros j k j' k' f. rewrite !Hfa. intros [_ ?] [_ ?]. by eapply (iv_uniq _ _ Hw).
  - exists H. eapply inv_same; [done|done|done|]. intros j k f. cbn. rewrite Hfa.
    split; [tauto|]. intros Hf. split; [|done]. intros ->. destruct Hf as (? & ? & ? & ? & _). congruence.
Qed.

(** ** Names keep the frames *)

(** Changing directory entries or counters of a node keeps its pages. *)
Lemma set_dir_inv w H i n e e' : inv w H → tree w !! i = Some n → kind n = Directory e →
  inv (set_nodes w (<[i := set_kind n (Directory e')]> (tree w))) H.
Proof.
  intros Hw Hn Hk. eapply inv_same; [done|done|done|]. intros j k f. cbn.
  apply (frame_at_update _ _ n); [done|done|]. intros pages size Hk'. congruence.
Qed.

Lemma set_counts_inv w H i n a b : inv w H → tree w !! i = Some n →
  inv (set_nodes w (<[i := set_counts n a b]> (tree w))) H.
Proof.
  intros Hw Hn. eapply inv_same; [done|done|done|]. intros j k f. cbn.
  apply (frame_at_update _ _ n); [done|cbn; eauto..].
Qed.

Lemma add_name_inv w H parent nm mk : inv w H →
  (∀ i pages size, kind (mk i) = File pages size → pages = []) →
  ∃ H', inv (add_name w parent nm mk).1 H'.
Proof.
  intros Hw Hmk. unfold add_name, get. destruct (tree w !! parent) as [n|] eqn:Hn; cbn; [|by exists H].
  destruct (kind n) as [|e|] eqn:Hk; cbn; [by exists H| |by exists H].
  case_bool_decide; [by exists H|]. cbn. eapply insert_node_inv; [|apply Hmk].
  by apply (inv_same _ _ H (set_dir_inv w H parent n e (<[nm := next_ino (fs w)]> e) Hw Hn Hk)).
Qed.

Lemma drop_link_inv w H parent nm target : inv w H → ∃ H', inv (drop_link w parent nm target).1 H'.
Proof.
  intros Hw. unfold drop_link. destruct (tree w !! parent) as [n|] eqn:Hn; [|by exists H]. cbv zeta.
  set (w1 := match kind n with Directory _ => _ | _ => w end).
  assert (Hw1 : inv w1 H).
  { unfold w1. destruct (kind n) eqn:Hk; [done| |done]. by eapply set_dir_inv. }
  destruct (tree w1 !! target) as [t|] eqn:Ht; [|by exists H].
  assert (Hw2 := set_counts_inv w1 H target t (saturating_sub (nlink t) 1) (open_count t) Hw1 Ht).
  destruct (_ && _); cbn; [by eapply remove_node_inv|by exists H].
Qed.

Lemma unlink_inv w H parent nm : inv w H → ∃ H', inv (unlink w parent nm).1 H'.
Proof.
  intros Hw. unfold unlink. destruct (_ ≫= _) as [[target n]|e|]; [|by exists H..].
  destruct (kind n); [by eapply drop_link_inv|by exists H|by eapply drop_link_inv].
Qed.

Lemma rmdir_inv w H parent nm : inv w H → ∃ H', inv (rmdir w parent nm).1 H'.
Proof.
  intros Hw. unfold rmdir. destruct (_ ≫= _) as [[target n]|e|]; [|by exists H..].
  destruct (negb _); [by exists H|by eapply drop_link_inv].
Qed.

Lemma rename_inv w H p1 n1 p2 n2 : inv w H → inv (rename w p1 n1 p2 n2).1 H.
Proof.
  intros Hw. unfold rename. destruct (tree w !! p1) as [n|] eqn:Hn; [|done].
  destruct (kind n) as [|e|] eqn:Hk; [done| |done]. destruct (e !! n1) as [target|]; [|done]. cbv zeta.
  assert (Hw1 := set_dir_inv w H p1 n e (delete n1 e) Hw Hn Hk). set (w1 := set_nodes w _) in *.
  destruct (tree w1 !! p2) as [n'|] eqn:Hn'; [|done].
  destruct (kind n') as [|e'|] eqn:Hk'; [done| |done]. by eapply set_dir_inv.
Qed.

Lemma open_close_inv w H i : inv w H → inv (open_inode w i) H ∧ ∃ H', inv (close_inode w i) H'.
Proof.
  intros Hw. unfold open_inode, close_inode. destruct (tree w !! i) as [n|] eqn:Hn; [|by eauto].
  split; [by apply set_counts_inv|].
  assert (Hw2 := set_counts_inv w H i n (nlink n) (saturating_sub (open_count n) 1) Hw Hn).
  destruct (_ && _); [by eapply remove_node_inv|by exists H].
Qed.

(** ** Growing a file *)

Record grown (a : A) (m : memory) (H : gset Z) (pages : list Z) (n : nat) (a' : A) (m' : memory)
    (pages' : list Z) (r : res VfsError unit) (new : list Z) : Prop := {
  gw_pages : pages' = pages ++ new;
  gw_holds : holds a' (list_to_set new ∪ H);
  gw_nodup : NoDup new; gw_new f : f ∈ new → f ∉ H;
  gw_mem : mem_ok m'; gw_same g : g ∈ H → m' g = m g;
  gw_zero : data m' new = replicate (4096 * length new) 0;
  gw_res : (r = Ok () ∧ length new = n) ∨ (r = Err NoSpace ∧ (length new < n)%nat) }.

Lemma grow_spec n : ∀ a m H pages a' m' pages' r, holds a H → mem_ok m →
  grow hhdm n a m pages = (a', m', pages', r) → ∃ new, grown a m H pages n a' m' pages' r new.
Proof.
  induction n as [|n IH]; intros a m H pages a' m' pages' r Hh Hm; cbn [grow].
  { intros [= <- <- <- <-]. exists []. split; [by rewrite app_nil_r|cbn; by rewrite union_empty_l_L
      |apply NoDup_nil_2|by intros f ?%elem_of_nil|done|done|done|by left]. }
  destruct (alloc_frame a) as [a1 [f|]] eqn:Ea.
  2:{ intros [= <- <- <- <-]. exists []. split; [by rewrite app_nil_r| |apply NoDup_nil_2
        |by intros g ?%elem_of_nil|done|done|done|right; split; [done|cbn; lia]].
      cbn. rewrite union_empty_l_L. by eapply alloc_frame_none. }
  destruct (alloc_frame_some a H a1 f Hh Ea) as [Hf Hh1].
  destruct (Hmapped a1 _ f Hh1) as [v ->]; [set_solver|]. intros Hg.
  assert (Hm1 : mem_ok (set_mem m f (replicate 4096 0))) by (apply set_mem_ok; [done|by rewrite length_replicate]).
  destruct (IH a1 _ _ _ _ _ _ _ Hh1 Hm1 Hg) as [new [Hp Hh' Hnd Hnew Hm' Hsame Hz Hr]].
  exists (f :: new). split; [| | | |done| | |].
  - rewrite Hp. by rewrite <- app_assoc.
  - cbn. by rewrite (union_comm_L {[f]}), <- union_assoc_L.
  - apply NoDup_cons. split; [|done]. intros Hin. by apply (Hnew f Hin), elem_of_union_l, elem_of_singleton.
  - intros g [->|Hin]%elem_of_cons; [done|]. intros Hg'. by apply (Hnew g Hin), elem_of_union_r.
  - intros g Hin. rewrite Hsame by by apply elem_of_union_r. unfold set_mem. rewrite decide_False; [done|].
    by intros ->.
  - rewrite data_cons, Hz, Hsame by by apply elem_of_union_l, elem_of_singleton.
    unfold set_mem. rewrite decide_True by done. rewrite <- replicate_add. f_equal. cbn [length]. lia.
  - cbn [length]. destruct Hr as [[-> ?]|[-> ?]]; [left|right]; (split; [done|lia]).
Qed.

(** ** Reading, writing and truncating *)

Lemma write_loop_mem_ok fuel : ∀ m pages offset buf written,
  mem_ok m → mem_ok (write_loop hhdm fuel m pages offset buf written).1.
Proof.
  induction fuel as [|fuel IH]; intros m pages offset buf wr Hm; cbn [write_loop]; case_match; try done.
  case_match eqn:Hi; [|done]. case_match; [|done]. case_match eqn:Hs; [|done]. apply IH.
  apply set_mem_ok; [done|]. apply slice_length in Hs as Hl. apply slice_Some in Hs as [? _].
  pose proof (Z.mod_pos_bound (u64 (offset + wr)) 4096 ltac:(lia)).
  rewrite length_splice; rewrite ?Hm; lia.
Qed.

(** Storing the grown page list in the file keeps the invariant. *)
Lemma grown_inv w H i n pages size a' m' pages' r new N m'' size' : inv w H →
  tree w !! i = Some n → kind n = File pages size →
  grown (frames w) (mem w) H pages N a' m' pages' r new → mem_ok m'' →
  inv {| fs := {| next_ino := next_ino (fs w); nodes := <[i := set_kind n (File pages' size')]> (tree w) |};
         frames := a'; mem := m'' |} (list_to_set new ∪ H).
Proof.
  intros Hw Hn Hk Hg Hm. destruct Hg as [-> Hh Hnd Hnew _ _ _ _].
  assert (Hfa : ∀ j k f, frame_at (<[i := set_kind n (File (pages ++ new) size')]> (tree w)) j k f ↔
    frame_at (tree w) j k f ∨ (j = i ∧ (length pages ≤ k)%nat ∧ new !! (k - length pages)%nat = Some f)).
  { intros j k f. rewrite frame_at_insert. cbn. split.
    - intros [(-> & p & sz & [= <- <-] & Hl)|[_ ?]]; [|by left].
      apply lookup_app_Some in Hl as [Hl|[? ?]]; [left|by right]. exists n, pages, size. done.
    - intros [Hf|(-> & ? & ?)].
      + destruct (decide (i = j)) as [->|]; [left|by right]. split; [done|].
        destruct Hf as (n' & p & sz & Hn' & Hk' & Hl). exists (pages ++ new), size'. split; [done|].
        apply lookup_app_l_Some. congruence.
      + left. split; [done|]. exists (pages ++ new), size'. split; [done|]. by rewrite lookup_app_r. }
  split; cbn; [done|done| |].
  - intros f. rewrite elem_of_union, elem_of_list_to_set, (iv_in _ _ Hw). setoid_rewrite Hfa. split.
    + intros [[k Hl]%list_elem_of_lookup|(j & k & ?)]; [|by eauto].
      exists i, (length pages + k)%nat. right. split; [done|]. split; [lia|]. rewrite <- Hl. f_equal. lia.
    + intros (j & k & [?|(_ & _ & Hl)]); [by eauto|]. left. by apply list_elem_of_lookup_2 in Hl.
  - intros j k j' k' f. rewrite !Hfa.
    assert (Hx : ∀ j k q, frame_at (tree w) j k f → new !! q = Some f → False).
    { intros j0 k0 q Hf Hq. apply (Hnew f); [by apply list_elem_of_lookup_2 in Hq|].
      apply (iv_in _ _ Hw). eauto. }
    intros [H1|(-> & ? & H1)] [H2|(-> & ? & H2)].
    + by eapply (iv_uniq _ _ Hw).
    + by exfalso; eapply Hx.
    + by exfalso; eapply Hx.
    + split; [done|]. pose proof (NoDup_lookup new _ _ f Hnd H1 H2). lia.
Qed.

Lemma write_inv w H i offset buf : inv w H → ∃ H', inv (write hhdm w i offset buf).1 H'.
Proof.
  intros Hw. unfold write. destruct (tree w !! i) as [n|] eqn:Hn; [|by exists H].
  destruct (kind n) as [pages size| |] eqn:Hk; [|by exists H..].
  destruct (checked_add _ _ _) as [end_|]; [|by exists H].
  destruct (grow _ _ _ _ _) as [[[a' m'] pages'] r] eqn:Hg. cbv zeta.
  destruct (grow_spec _ _ _ H _ _ _ _ _ (iv_holds _ _ Hw) (iv_mem _ _ Hw) Hg) as [new Hgr].
  exists (list_to_set new ∪ H). pose proof (gw_mem _ _ _ _ _ _ _ _ _ _ Hgr) as Hm'.
  destruct r as [[]|e|]; [|by eapply grown_inv..].
  pose proof (write_loop_mem_ok (length buf) m' pages' offset buf 0 Hm') as Hm2.
  destruct (write_loop _ _ _ _ _ _ _) as [m2 [[]|e|]]; cbn in Hm2 |- *; by eapply grown_inv.
Qed.

Lemma truncate_inv w H i size : inv w H → ∃ H', inv (truncate w i size).1 H'.
Proof.
  intros Hw. unfold truncate. destruct (tree w !! i) as [n|] eqn:Hn; [|by exists H].
  destruct (kind n) as [pages sz| |] eqn:Hk; [|by exists H..].
  set (needed := u64 (size + 4095) / 4096). destruct (Z.ltb_spec needed (zlen pages)); cbn.
  2:{ exists H. eapply inv_same; [done|done|done|]. intros j k f. cbn.
      apply (frame_at_update _ _ n); [done|intros p s [= <- <-]; eauto|].
      intros p s Hk'. rewrite Hk in Hk'. injection Hk' as <- <-. cbn. eauto. }
  destruct (file_nodup w H i n pages sz Hw Hn Hk) as [Hnd Hin]. set (c := Z.to_nat needed).
  rewrite <- (take_drop c pages) in Hnd. apply NoDup_app in Hnd as (_ & Hx & Hnd2).
  exists (H ∖ list_to_set (drop c pages)).
  assert (Hfa : ∀ j k f, frame_at (<[i := set_kind n (File (take c pages) size)]> (tree w)) j k f ↔
    frame_at (tree w) j k f ∧ (j = i → (k < c)%nat)).
  { intros j k f. rewrite frame_at_insert. cbn. split.
    - intros [(-> & p & s & [= <- <-] & Hl)|[? ?]]; [|naive_solver].
      apply lookup_take_Some in Hl as [Hl ?]. split; [|done]. exists n, pages, sz. done.
    - intros [Hf Hlt]. destruct (decide (i = j)) as [->|]; [left|by right]. split; [done|].
      destruct Hf as (n' & p & s & Hn' & Hk' & Hl). exists (take c pages), size. split; [done|].
      rewrite lookup_take_lt by auto. congruence. }
  split; cbn; [apply Hw| | |].
  - apply free_all_holds; [apply Hw|done|]. intros f Hf. apply Hin. rewrite <- (take_drop c pages). set_solver.
  - intros f. rewrite elem_of_difference, elem_of_list_to_set, (iv_in _ _ Hw). setoid_rewrite Hfa. split.
    + intros [(j & k & Hf) Hno]. exists j, k. split; [done|]. intros ->. apply Nat.nle_gt. intros Hle.
      destruct Hf as (n' & p & s & Hn' & Hk' & Hl). apply Hno, list_elem_of_lookup.
      exists (k - c)%nat. rewrite lookup_drop. replace (c + (k - c))%nat with k by lia. congruence.
    + intros (j & k & Hf & Hlt). split; [eauto|]. intros [q Hq]%list_elem_of_lookup.
      rewrite lookup_drop in Hq. destruct (iv_uniq _ _ Hw j k i (c + q)%nat f Hf) as [-> ->];
        [by exists n, pages, sz|]. specialize (Hlt eq_refl). lia.
  - intros j k j' k' f. rewrite !Hfa. intros [? _] [? _]. by eapply (iv_uniq _ _ Hw).
Qed.

(** The bytes of a file. *)
Definition content (w : world) (i : Z) : option (list Z) :=
  match tree w !! i with
  | Some n => match kind n with
              | File pages size => Some (take (Z.to_nat size) (data (mem w) pages))
              | _ => None
              end
  | None => None
  end.

Lemma read_file (w : world) i n pages size offset len : tree w !! i = Some n → kind n = File pages size →
  mem_ok (mem w) → (∀ f, f ∈ pages → is_Some (phys_to_virt hhdm f)) →
  0 ≤ size ≤ 4096 * zlen pages → size < 2 ^ 64 → 0 ≤ offset → 0 ≤ len →
  read hhdm w i offset len =
    Ok (take (Z.to_nat len) (drop (Z.to_nat offset) (take (Z.to_nat size) (data (mem w) pages)))).
Proof.
  intros Hn Hk Hm Hv Hs Hs64 Ho Hl. unfold read, get. rewrite Hn. cbn [ok_or mbind res_bind]. rewrite Hk.
  pose proof (length_data (mem w) pages Hm) as Hdl.
  destruct (Z.leb_spec size offset).
  { rewrite drop_ge by (rewrite length_take; lia). by rewrite take_nil. }
  rewrite read_loop_spec by (done || lia). cbn [app]. rewrite Z.sub_0_r, Z.add_0_r. f_equal.
  replace (Z.to_nat size) with (Z.to_nat offset + Z.to_nat (size - offset))%nat by lia.
  rewrite <- take_drop_commute, take_take. f_equal. lia.
Qed.

Lemma content_other (w w' : world) H i (pages' : list Z) : inv w H →
  (∀ j, j ≠ i → tree w' !! j = tree w !! j) →
  (∀ g, g ∈ H → g ∉ pages' → mem w' g = mem w g) →
  (∀ j k f, j ≠ i → frame_at (tree w) j k f → f ∉ pages') →
  ∀ j, j ≠ i → content w' j = content w j.
Proof.
  intros Hw Ht Hmem Hfr j Hj. unfold content. rewrite Ht by done.
  destruct (tree w !! j) as [n|] eqn:Hn; [|done]. destruct (kind n) as [pages size| |] eqn:Hk; [|done..].
  do 2 f_equal. apply data_ext. intros f [k Hf]%list_elem_of_lookup.
  assert (frame_at (tree w) j k f) as Hat by (exists n, pages, size; done).
  apply Hmem; [apply (iv_in _ _ Hw); eauto|]. by eapply Hfr.
Qed.

Lemma grown_facts (w : world) H i n pages size N a' m' pages' r new : inv w H →
  tree w !! i = Some n → kind n = File pages size →
  grown (frames w) (mem w) H pages N a' m' pages' r new →
  NoDup pages' ∧ (∀ f, f ∈ pages' → is_Some (phys_to_virt hhdm f)) ∧
  data m' pages = data (mem w) pages ∧
  (∀ j k f, j ≠ i → frame_at (tree w) j k f → f ∉ pages') ∧
  data m' pages' = data (mem w) pages ++ replicate (4096 * length new) 0.
Proof.
  intros Hw Hn Hk [-> Hh Hnd Hnew _ Hsame Hz _].
  destruct (file_nodup w H i n pages size Hw Hn Hk) as [Hnd0 Hin].
  assert (Hold : data m' pages = data (mem w) pages) by (apply data_ext; auto).
  split_and!.
  - apply NoDup_app. split; [done|]. split; [|done]. intros f Hf Hf'. by apply (Hnew f Hf'), Hin.
  - intros f Hf. apply (Hmapped a' _ f Hh). rewrite elem_of_union, elem_of_list_to_set.
    apply elem_of_app in Hf as [?|?]; auto.
  - done.
  - intros j k f Hj Hf [[k' Hl]%list_elem_of_lookup|Hin']%elem_of_app.
    + destruct (iv_uniq _ _ Hw j k i k' f Hf); [exists n, pages, size; done|done].
    + apply (Hnew f Hin'). apply (iv_in _ _ Hw). eauto.
  - by rewrite data_app, Hold, Hz.
Qed.

(** C23: writing.  Take a well-formed filesystem, a file whose pages cover its
    size (a [truncate] that grows a file breaks this) and a write whose end
    plus a page is below 2^64; [tmpfs_panics] shows a panic without either.
    The write either stores every byte or reports [NoSpace].  After success the
    file is its old data, extended by zeroed pages, with the bytes in place,
    its size covers them, and reading the range back returns exactly the bytes
    written; after [NoSpace] its bytes are unchanged.  No other file changes in
    either case. *)
Theorem tmpfs_write_read (w : world) H i n pages size offset buf :
  inv w H → tree w !! i = Some n → kind n = File pages size → 0 ≤ size ≤ 4096 * zlen pages →
  size < 2 ^ 64 → 0 ≤ offset → offset + zlen buf + 4095 < 2 ^ 64 →
  let '(w', r) := write hhdm w i offset buf in
  let end_ := offset + zlen buf in
  (r = Err NoSpace ∨ r = Ok (zlen buf)) ∧
  (∀ j, j ≠ i → content w' j = content w j) ∧
  (r = Err NoSpace → content w' i = content w i) ∧
  (r = Ok (zlen buf) →
     content w' i = Some (take (Z.to_nat (Z.max size end_)) (splice
       (data (mem w) pages ++ replicate (4096 * Z.to_nat ((end_ + 4095) / 4096 - zlen pages)) 0)
       offset buf)) ∧
     read hhdm w' i offset (zlen buf) = Ok buf).
Proof.
  intros Hw Hn Hk Hsz Hs64 Ho Hend. unfold write. rewrite Hn, Hk.
  assert (checked_add 64 offset (zlen buf) = Some (offset + zlen buf)) as ->.
  { apply checked_add_Some. split; [done|lia]. }
  set (end_ := offset + zlen buf). rewrite (wrap_small 64 (end_ + 4095)) by (unfold is_u; lia).
  set (needed := (end_ + 4095) / 4096).
  assert (Hneed : end_ ≤ 4096 * needed).
  { unfold needed. pose proof (Z.div_mod (end_ + 4095) 4096). pose proof (Z.mod_pos_bound (end_ + 4095) 4096). lia. }
  destruct (grow _ _ _ _ _) as [[[a' m'] pages'] r] eqn:Hg. cbv zeta.
  destruct (grow_spec _ _ _ H _ _ _ _ _ (iv_holds _ _ Hw) (iv_mem _ _ Hw) Hg) as [new Hgr].
  pose proof (grown_facts w H i n pages size _ _ _ _ _ _ Hw Hn Hk Hgr) as (Hnd & Hv & Hold & Hoth & Hdata).
  pose proof (gw_mem _ _ _ _ _ _ _ _ _ _ Hgr) as Hm'.
  pose proof (gw_pages _ _ _ _ _ _ _ _ _ _ Hgr) as Hpg.
  destruct (gw_res _ _ _ _ _ _ _ _ _ _ Hgr) as [[-> Hlen]|[-> _]].
  2:{ split; [by left|]. split; [|split; [|done]].
      - eapply (content_other w); [done| | |exact Hoth]; cbn.
        + intros j Hj. by rewrite lookup_insert_ne.
        + intros g Hg' _. by apply (gw_same _ _ _ _ _ _ _ _ _ _ Hgr).
      - intros _. unfold content. cbn. rewrite lookup_insert_eq, Hn, Hk. cbn.
        rewrite Hpg, data_app, Hold. f_equal. rewrite take_app_le; [done|].
        pose proof (length_data (mem w) pages (iv_mem _ _ Hw)). lia. }
  destruct (write_loop_spec (length buf) m' pages' offset buf 0) as (m2 & -> & Hm2 & Hd2 & Hkeep);
    [done|done|done|lia|lia| |lia|lia|].
  { rewrite Hpg, length_app. lia. }
  rewrite Z.add_0_r, drop_0, Hdata, Hlen in Hd2.
  assert (Hsize : (if size <? end_ then end_ else size) = Z.max size end_) by (destruct (Z.ltb_spec size end_); lia).
  split; [by right|]. split; [|split; [done|]].
  - eapply (content_other w); [done| | |exact Hoth]; cbn.
    + intros j Hj. by rewrite lookup_insert_ne.
    + intros g Hg' Hno. rewrite Hkeep by done. by apply (gw_same _ _ _ _ _ _ _ _ _ _ Hgr).
  - intros _. rewrite Hsize. split.
    + unfold content. cbn. rewrite lookup_insert_eq. cbn. by rewrite Hd2.
    + rewrite (read_file _ i (set_kind n (File pages' (Z.max size end_))) pages' (Z.max size end_));
        [|by apply lookup_insert_eq|done|done|done|rewrite Hpg, length_app; lia|lia|lia|lia].
      cbn [mem]. rewrite Hd2. f_equal. rewrite take_drop_take by lia. rewrite Nat2Z.id.
      apply splice_read; [done|]. rewrite length_app, length_replicate.
      pose proof (length_data (mem w) pages (iv_mem _ _ Hw)). lia.
Qed.

(** reading.  Reading a file whose pages cover its size returns exactly
    the requested part of its bytes, cut at the end of the file. *)
Theorem tmpfs_read (w : world) H i n pages size offset len :
  inv w H → tree w !! i = Some n → kind n = File pages size → 0 ≤ size ≤ 4096 * zlen pages →
  size < 2 ^ 64 → 0 ≤ offset → 0 ≤ len →
  ∃ c, content w i = Some c ∧ zlen c = size ∧
    read hhdm w i offset len = Ok (take (Z.to_nat len) (drop (Z.to_nat offset) c)).
Proof.
  intros Hw Hn Hk Hsz Hs64 Ho Hl. unfold content. rewrite Hn, Hk. eexists. split; [reflexivity|].
  pose proof (length_data (mem w) pages (iv_mem _ _ Hw)).
  split; [rewrite length_take; lia|]. eapply read_file; try done; [apply Hw|].
  intros f Hf. eapply Hmapped; [apply Hw|]. by eapply (file_nodup w H i n pages size).
Qed.

(** ** Sequences of operations *)

Inductive tmp_op :=
| TCreate (parent : Z) (nm : name) (m : Z) | TMkdir (parent : Z) (nm : name) (m : Z)
| TSymlink (parent : Z) (nm target : name) | TUnlink (parent : Z) (nm : name)
| TRmdir (parent : Z) (nm : name) | TRename (p1 : Z) (n1 : name) (p2 : Z) (n2 : name)
| TOpen (i : Z) | TClose (i : Z) | TWrite (i offset : Z) (buf : list Z) | TTruncate (i size : Z).

Definition tmp_step (w : world) (o : tmp_op) : world :=
  match o with
  | TCreate p nm m => (create w p nm m).1 | TMkdir p nm m => (mkdir w p nm m).1
  | TSymlink p nm t => (symlink w p nm t).1 | TUnlink p nm => (unlink w p nm).1
  | TRmdir p nm => (rmdir w p nm).1 | TRename p1 n1 p2 n2 => (rename w p1 n1 p2 n2).1
  | TOpen i => open_inode w i | TClose i => close_inode w i
  | TWrite i o b => (write hhdm w i o b).1 | TTruncate i s => (truncate w i s).1
  end.

Lemma tmp_step_inv w H o : inv w H → ∃ H', inv (tmp_step w o) H'.
Proof.
  intros Hw. destruct o; cbn [tmp_step].
  - eapply add_name_inv; [done|]. by intros ? ? ? [= <- <-].
  - by eapply add_name_inv.
  - by eapply add_name_inv.
  - by eapply unlink_inv.
  - by eapply rmdir_inv.
  - exists H. by apply rename_inv.
  - exists H. by apply open_close_inv.
  - by eapply open_close_inv.
  - by eapply write_inv.
  - by eapply truncate_inv.
Qed.

(** C16: frames are accounted for by the inode table.  After any sequence of
    filesystem calls, failed ones included, every frame the filesystem holds is
    one page of exactly one inode of the table and every page of such an inode
    is held: files never share a frame, no frame is freed while an inode has it
    and no held frame is outside the table.  An inode of the table need not be
    reachable by a name: [rename] over an existing name, and a [rename] that
    fails half-way, leave one that keeps its frames for ever
    ([rename_leaks_inode]). *)
Theorem tmpfs_frames_owned a m ops : holds a ∅ → mem_ok m →
  let w := foldl tmp_step {| fs := new; frames := a; mem := m |} ops in
  ∃ H, holds (frames w) H ∧
    (∀ f, f ∈ H ↔ ∃ i k, frame_at (tree w) i k f) ∧
    (∀ i k i' k' f, frame_at (tree w) i k f → frame_at (tree w) i' k' f → i = i' ∧ k = k').
Proof.
  intros Hh Hm w.
  assert (∃ H, inv w H) as [H [_ ? ? ?]]; [|by exists H].
  unfold w. assert (inv {| fs := new; frames := a; mem := m |} ∅) as H0.
  { assert (∀ i k f, ¬ frame_at (nodes new) i k f) as Hno.
    { intros i k f (n & pages & size & Hn & Hk & _). cbn in Hn.
      apply lookup_singleton_Some in Hn as [_ <-]. done. }
    split; cbn; [done|done| |].
    - intros f. split; [by intros ?%not_elem_of_empty|]. intros (i & k & Hf). by apply Hno in Hf.
    - intros i k i' k' f Hf. by apply Hno in Hf. }
  clear -H0 Hmapped. revert H0. generalize (∅ : gset Z).
  generalize {| fs := new; frames := a; mem := m |}.
  induction ops as [|o ops IH]; intros w H Hw; cbn; [by exists H|].
  destruct (tmp_step_inv w H o Hw) as [H' Hw']. by eapply IH.
Qed.
End tmpfs_spec.

(** ** Names *)

Section names.
Context {A : Type} `{FA : !FrameAllocator A}.

(** names.  A created name is found by lookup with the new inode and no
    other lookup outside the new inode changes; a successful rename makes the
    new name lead to the inode of the old one, which becomes unknown. *)
Theorem tmpfs_names (w : @Tmpfs.world A) parent nm :
  nm ≠ [] → nm ≠ DOT → nm ≠ DOTDOT →
  (∀ m w' i, nodes (fs w) !! next_ino (fs w) = None → create w parent nm m = (w', Ok i) →
     lookup (fs w') parent nm = Ok i ∧
     ∀ q nm', q ≠ i → (q ≠ parent ∨ nm' ≠ nm) → lookup (fs w') q nm' = lookup (fs w) q nm') ∧
  (∀ p2 n2 w', n2 ≠ [] → n2 ≠ DOT → n2 ≠ DOTDOT → rename w parent nm p2 n2 = (w', Ok ()) →
     lookup (fs w') p2 n2 = lookup (fs w) parent nm ∧
     ((parent ≠ p2 ∨ nm ≠ n2) → lookup (fs w') parent nm = Err NotFound)).
Proof.
  intros Hne Hd Hdd.
  assert (Hlk : ∀ (f : TmpFs) p n e (x : name), x ≠ [] → x ≠ DOT → x ≠ DOTDOT →
    nodes f !! p = Some n → kind n = Directory e → lookup f p x = ok_or NotFound (e !! x)).
  { intros f p n e x Hx1 Hx2 Hx3 Hn Hk. unfold lookup, get, dir_entries.
    rewrite bool_decide_false by tauto. rewrite Hn. cbn. rewrite Hk. cbn.
    by rewrite bool_decide_false. }
  split.
  - intros m w' i Hfresh. unfold create, add_name, get.
    destruct (nodes (fs w) !! parent) as [n|] eqn:Hn; cbn; [|done].
    destruct (kind n) as [|e|] eqn:Hk; [done| |done]. case_bool_decide; [done|].
    intros [= <- <-]. set (i := next_ino (fs w)) in *.
    assert (i ≠ parent) by congruence. unfold insert_node. cbn [fs nodes].
    rewrite lookup_insert_ne, Hfresh by done. cbn [fs nodes set_nodes]. split.
    + rewrite (Hlk _ parent (set_kind n (Directory (<[nm := i]> e))) (<[nm := i]> e) nm Hne Hd Hdd);
        [by rewrite lookup_insert_eq| |done]. cbn. by rewrite lookup_insert_ne, lookup_insert_eq.
    + intros q nm' Hq Hdiff. unfold lookup, get, dir_entries. cbn [fs nodes set_nodes].
      rewrite lookup_insert_ne by done. destruct (decide (q = parent)) as [->|].
      * rewrite lookup_insert_eq, Hn. cbn. rewrite Hk. cbn. destruct Hdiff as [|Hnm]; [done|].
        by rewrite lookup_insert_ne by congruence.
      * by rewrite lookup_insert_ne by done.
  - intros p2 n2 w' H1 H2 H3. unfold rename. destruct (nodes (fs w) !! parent) as [n|] eqn:Hn; [|done].
    destruct (kind n) as [|e|] eqn:Hk; [done| |done]. destruct (e !! nm) as [t|] eqn:Ht; [|done].
    cbn [fs nodes set_nodes]. rewrite (Hlk (fs w) parent n e nm Hne Hd Hdd Hn Hk), Ht.
    destruct (decide (parent = p2)) as [<-|Hp].
    + rewrite lookup_insert_eq. cbn. intros [= <-]. cbn. rewrite insert_insert_eq. split.
      * erewrite Hlk; [..|apply lookup_insert_eq|reflexivity]; [|done..]. by rewrite lookup_insert_eq.
      * intros [|Hnm]; [done|]. erewrite Hlk; [..|apply lookup_insert_eq|reflexivity]; [|done..].
        by rewrite lookup_insert_ne, lookup_delete_eq by done.
    + rewrite lookup_insert_ne by done. destruct (nodes (fs w) !! p2) as [n'|] eqn:Hn'; [|done].
      destruct (kind n') as [|e'|] eqn:Hk'; [done| |done]. intros [= <-]. cbn. split.
      * erewrite Hlk; [..|apply lookup_insert_eq|reflexivity]; [|done..]. by rewrite lookup_insert_eq.
      * intros _. rewrite (Hlk _ parent (set_kind n (Directory (delete nm e))) (delete nm e) nm Hne Hd Hdd);
          [by rewrite lookup_delete_eq| |done]. cbn. by rewrite lookup_insert_ne, lookup_insert_eq.
Qed.
End names.

(** ** On a concrete machine: 15 frames behind the buddy allocator *)

#[local] Existing Instance machine_frames.

Lemma machine_mapped : mapped (A := BuddyAllocator) machine_hhdm.
Proof. intros s H f Hs Hf. apply machine_hhdm_covers. by apply (frame_address s H). Qed.

Definition machine : @Tmpfs.world BuddyAllocator :=
  {| fs := new; frames := sample; mem := λ _, replicate 4096 0 |}.

Lemma machine_mem : mem_ok (mem machine).
Proof. intros f. apply length_replicate. Qed.

Definition FNAME : name := [102].
Definition with_file : @Tmpfs.world BuddyAllocator := (create machine 1 FNAME 0).1.

(** growing a file by truncation breaks later reads: the size is raised
    without pages, and reading the file then indexes past the page list and
    panics.  A write at an offset close to 2^64 also panics: the page count
    wraps to 0. *)
Theorem tmpfs_panics :
  read machine_hhdm (truncate with_file 2 100).1 2 0 10 = Panic ∧
  (write machine_hhdm with_file 2 (2 ^ 64 - 2) [7]).2 = Panic.
Proof. split; vm_compute; reflexivity. Qed.

(** a failed rename loses the file.  Renaming into a parent that does not
    exist reports [NotFound], but the old name is gone already. *)
Theorem rename_error_loses_name :
  lookup (fs with_file) 1 FNAME = Ok 2 ∧
  let '(w, r) := rename with_file 1 FNAME 99 FNAME in
  r = Err NotFound ∧ lookup (fs w) 1 FNAME = Err NotFound.
Proof. vm_compute. by split. Qed.

(** shrinking does not clear the cut-off bytes: after a shrink and a
    growth back, the old bytes are visible again instead of zeros. *)
Theorem truncate_exposes_old_bytes :
  let w := (write machine_hhdm with_file 2 0 [1; 2; 3; 4]).1 in
  let w := (truncate w 2 1).1 in
  let w := (truncate w 2 4).1 in
  read machine_hhdm w 2 0 4 = Ok [1; 2; 3; 4].
Proof. vm_compute. reflexivity. Qed.

(** removing a directory leaks its inode: a directory starts with two
    links, [rmdir] drops one, so the node is never removed. *)
Theorem rmdir_leaks_inode :
  let w := (mkdir machine 1 FNAME 0).1 in
  let '(w, r) := rmdir w 1 FNAME in
  r = Ok () ∧ lookup (fs w) 1 FNAME = Err NotFound ∧ bool_decide (is_Some (nodes (fs w) !! 2)) = true.
Proof. vm_compute. by split. Qed.

Lemma with_file_inv : inv with_file ∅.
Proof.
  assert (Hno : ∀ i k f, ¬ frame_at (nodes (fs with_file)) i k f).
  { intros i k f (n & pages & size & Hn & Hk & Hl).
    assert (Hc : map_Forall (λ _ n, match kind n with File (_ :: _) _ => false | _ => true end = true)
      (nodes (fs with_file))).
    { apply (bool_decide_unpack _). vm_compute. exact I. }
    specialize (Hc i n Hn). cbn in Hc. rewrite Hk in Hc. destruct pages; [done|done]. }
  split; [exact machine_mem|exact machine_holds| |].
  - intros f. split; [by intros ?%not_elem_of_empty|]. intros (i & k & Hf). by apply Hno in Hf.
  - intros i k i' k' f Hf. by apply Hno in Hf.
Qed.

Lemma tmpfs_write_read_witness :
  (write machine_hhdm with_file 2 5 [1; 2; 3]).2 = Err NoSpace ∨
  (write machine_hhdm with_file 2 5 [1; 2; 3]).2 = Ok 3.
Proof.
  pose proof (tmpfs_write_read machine_hhdm machine_mapped with_file ∅ 2
    (fresh_node 2 0x8000 1 (File [] 0)) [] 0 5 [1; 2; 3] with_file_inv eq_refl eq_refl) as H.
  destruct (write machine_hhdm with_file 2 5 [1; 2; 3]) as [w' r].
  apply H; vm_compute; intuition congruence.
Defined.

Lemma tmpfs_read_witness : ∃ c, content with_file 2 = Some c ∧ zlen c = 0.
Proof.
  destruct (tmpfs_read machine_hhdm machine_mapped with_file ∅ 2
    (fresh_node 2 0x8000 1 (File [] 0)) [] 0 0 10 with_file_inv eq_refl eq_refl) as (c & H1 & H2 & _);
    [vm_compute; intuition congruence..|]. exists c. exact (conj H1 H2).
Defined.

Lemma tmpfs_frames_owned_witness :
  ∃ H, holds (frames (foldl (tmp_step machine_hhdm) machine [TCreate 1 FNAME 0; TWrite 2 0 [1]])) H.
Proof.
  destruct (tmpfs_frames_owned machine_hhdm machine_mapped sample (λ _, replicate 4096 0)
    [TCreate 1 FNAME 0; TWrite 2 0 [1]] machine_holds machine_mem) as (H & Hh & _).
  exists H. exact Hh.
Defined.

Lemma tmpfs_names_witness : lookup (fs with_file) 1 FNAME = Ok 2.
Proof.
  destruct (proj1 (tmpfs_names machine 1 FNAME ltac:(discriminate) ltac:(discriminate) ltac:(discriminate))
    0 with_file 2 eq_refl eq_refl) as [H _]. exact H.
Defined.

(** [i] is the target of a name in some directory. *)
Definition is_named (w : @Tmpfs.world BuddyAllocator) (i : Z) : bool :=
  existsb (λ n, match kind n with Directory e => bool_decide (i ∈ (map_to_list e).*2) | _ => false end) (map_to_list (nodes (fs w))).*2.

(** [rename] drops the inode that had the new name without releasing it.  The
    file 2 with one page, which nobody has open, loses its name to file 3 and
    stays in the table with its frame; and file 2 loses its only name to a
    [rename] into a file, which fails. *)
Theorem rename_leaks_inode :
  let made := foldl (tmp_step machine_hhdm) machine [TCreate 1 FNAME 0; TWrite 2 0 [1]; TCreate 1 [66] 0] in
  let lost w := (is_named w 2, match nodes (fs w) !! 2 with Some n => (open_count n, kind n) | None => (0, Directory ∅) end) in
  lost (rename made 1 [66] 1 FNAME).1 = (false, (0, File [4096] 1)) ∧
  (rename made 1 FNAME 3 [67]).2 = Err NotDirectory ∧ lost (rename made 1 FNAME 3 [67]).1 = (false, (0, File [4096] 1)).
Proof. vm_compute. by split_and!. Qed.
