(* ===== verification/Swap.v ===== *)
(** * Swap ([rust/kernel/src/swap.rs], the swap half of [paging.rs])

    The slot bitmap, the pool of evictable pages with its clock hand, page
    transfers to the swap partition, eviction and page-in.  Leaf page-table
    entries are a map from (address space, page); the walk of
    [pte_location] above them is not represented.  [sector_ok] says which
    sectors the block device accepts. *)

From stdpp Require Import gmap.
From S2P Require Import Prelude Words Vfs Frames Pages.

Definition MAX_SWAP_SLOTS : Z := 16384.
Definition BITMAP_WORDS : Z := MAX_SWAP_SLOTS / 64.
Definition MAX_TRACKED_PAGES : Z := 512.

Definition PRESENT : Z := Z.shiftl 1 0.
Definition ADDRESS_MASK : Z := 0x000ffffffffff000.
Definition MAP_WRITABLE : Z := Z.shiftl 1 1.
Definition MAP_USER : Z := Z.shiftl 1 2.
Definition ACCESSED : Z := Z.shiftl 1 5.
Definition MAP_COW : Z := Z.shiftl 1 9.
Definition MAP_SWAPPED : Z := Z.shiftl 1 10.
Definition MAP_NO_EXECUTE : Z := Z.shiftl 1 63.
Definition PERM_FLAGS : Z := Z.lor (Z.lor MAP_WRITABLE MAP_USER) MAP_NO_EXECUTE.

Inductive MapError :=
| NoHhdm | OutOfMemory | UnalignedAddress | AlreadyMapped | HugePageConflict
| ActiveAddressSpace | MappingsRemain | FrameReleaseFailed.

Definition page_of (vaddr : Z) : Z := Z.land vaddr (bnot 64 (4096 - 1)).

Record TrackedUserPage := { tp_space : Z; tp_vaddr : Z }.
#[export] Instance TrackedUserPage_eq_dec : EqDecision TrackedUserPage.
Proof. solve_decision. Defined.

Record SwapManager := {
  bitmap : list Z; used_slots : Z; clock_hand : Z;
  tracked_pages : list (option TrackedUserPage); tracked_count : Z }.

Definition new_manager : SwapManager :=
  {| bitmap := replicate (Z.to_nat BITMAP_WORDS) 0; used_slots := 0; clock_hand := 0;
     tracked_pages := replicate (Z.to_nat MAX_TRACKED_PAGES) None; tracked_count := 0 |}.

(** ** Slots *)

(** [trailing_zeros] of a 64-bit word: the first set bit from [i] on. *)
Fixpoint first_bit (n : nat) (w i : Z) : Z :=
  match n with
  | O => i
  | S n' => if Z.testbit w i then i else first_bit n' w (i + 1)
  end.
Definition trailing_zeros (w : Z) : Z := first_bit 64 w 0.

(** The scan of [alloc_slot]: the new bitmap and the slot. *)
Fixpoint take_slot (words : list Z) (word_idx : Z) : option (list Z * Z) :=
  match words with
  | [] => None
  | word :: rest =>
    if negb (word =? bnot 64 0) then
      let bit_idx := trailing_zeros (bnot 64 word) in
      Some (Z.lor word (Z.shiftl 1 bit_idx) :: rest, u32 (word_idx * 64 + bit_idx))
    else
      match take_slot rest (word_idx + 1) with
      | Some (rest', s) => Some (word :: rest', s)
      | None => None
      end
  end.

Definition with_bitmap (m : SwapManager) (b : list Z) (used : Z) : SwapManager :=
  {| bitmap := b; used_slots := used; clock_hand := clock_hand m;
     tracked_pages := tracked_pages m; tracked_count := tracked_count m |}.
Definition with_tracked (m : SwapManager) (t : list (option TrackedUserPage)) (count hand : Z) : SwapManager :=
  {| bitmap := bitmap m; used_slots := used_slots m; clock_hand := hand;
     tracked_pages := t; tracked_count := count |}.

Definition alloc_slot (m : SwapManager) : SwapManager * option Z :=
  match take_slot (bitmap m) 0 with
  | Some (b, s) => (with_bitmap m b (u64 (used_slots m + 1)), Some s)
  | None => (m, None)
  end.

Definition free_slot (m : SwapManager) (slot : Z) : SwapManager :=
  if MAX_SWAP_SLOTS <=? slot then m else
  let word_idx := slot / 64 in
  let bit_idx := slot mod 64 in
  match index (bitmap m) word_idx with
  | Some w =>
    if negb (Z.land w (Z.shiftl 1 bit_idx) =? 0) then
      with_bitmap m (<[Z.to_nat word_idx := Z.land w (bnot 64 (Z.shiftl 1 bit_idx))]> (bitmap m))
        (saturating_sub (used_slots m) 1)
    else m
  | None => m
  end.

Definition free_slots (m : SwapManager) : Z := saturating_sub MAX_SWAP_SLOTS (used_slots m).

(** ** The pool of evictable pages *)

Definition is_page (space page : Z) (e : option TrackedUserPage) : bool :=
  match e with Some t => (tp_space t =? space) && (tp_vaddr t =? page) | None => false end.

Definition track_page (m : SwapManager) (space vaddr : Z) : SwapManager :=
  let page := page_of vaddr in
  if existsb (is_page space page) (tracked_pages m) then m else
  match list_find (λ e, e = None) (tracked_pages m) with
  | Some (i, _) =>
    with_tracked m (<[i := Some {| tp_space := space; tp_vaddr := page |}]> (tracked_pages m))
      (u64 (tracked_count m + 1)) (clock_hand m)
  | None => m
  end.

Definition untrack_page (m : SwapManager) (space vaddr : Z) : SwapManager :=
  let page := page_of vaddr in
  match list_find (λ e, is_page space page e = true) (tracked_pages m) with
  | Some (i, _) =>
    with_tracked m (<[i := None]> (tracked_pages m)) (saturating_sub (tracked_count m) 1) (clock_hand m)
  | None => m
  end.

(** ** Transfers, eviction and page-in *)

Section swap.
Context {A : Type} `{FA : !FrameAllocator A} (hhdm : option Z) (sector_ok : Z → bool).
(** The pressure branch of [memory::alloc_frame]: the watermark, the count
    of free frames and [page_cache::evict_clean_pages(32)]. *)
Context (low_watermark : Z) (free_count : A → Z) (evict_clean : A → A).

Record system := {
  mgr : SwapManager; initialized : bool; start_lba : Z; total_sectors : Z; in_eviction : bool;
  disk : Z → list Z; ptes : gmap (Z * Z) Z; sframes : A; smem : memory }.

Definition with_mgr (s : system) (m : SwapManager) : system :=
  {| mgr := m; initialized := initialized s; start_lba := start_lba s;
     total_sectors := total_sectors s; in_eviction := in_eviction s; disk := disk s; ptes := ptes s; sframes := sframes s; smem := smem s |}.
Definition with_disk (s : system) (d : Z → list Z) : system :=
  {| mgr := mgr s; initialized := initialized s; start_lba := start_lba s;
     total_sectors := total_sectors s; in_eviction := in_eviction s; disk := d; ptes := ptes s; sframes := sframes s; smem := smem s |}.
Definition with_ptes (s : system) (p : gmap (Z * Z) Z) : system :=
  {| mgr := mgr s; initialized := initialized s; start_lba := start_lba s;
     total_sectors := total_sectors s; in_eviction := in_eviction s; disk := disk s; ptes := p; sframes := sframes s; smem := smem s |}.
Definition with_sframes (s : system) (a : A) : system :=
  {| mgr := mgr s; initialized := initialized s; start_lba := start_lba s;
     total_sectors := total_sectors s; in_eviction := in_eviction s; disk := disk s; ptes := ptes s; sframes := a; smem := smem s |}.
Definition with_smem (s : system) (m : memory) : system :=
  {| mgr := mgr s; initialized := initialized s; start_lba := start_lba s;
     total_sectors := total_sectors s; in_eviction := in_eviction s; disk := disk s; ptes := ptes s; sframes := sframes s; smem := m |}.
Definition with_eviction (s : system) (b : bool) : system :=
  {| mgr := mgr s; initialized := initialized s; start_lba := start_lba s;
     total_sectors := total_sectors s; in_eviction := b; disk := disk s; ptes := ptes s; sframes := sframes s; smem := smem s |}.

Definition init (s : system) (lba sectors : Z) : system :=
  {| mgr := mgr s; initialized := true; start_lba := lba; total_sectors := sectors;
     in_eviction := in_eviction s; disk := disk s; ptes := ptes s; sframes := sframes s; smem := smem s |}.

Definition sector_base (s : system) (slot : Z) : Z := u64 (start_lba s + slot * 8).

(** Sectors [i ..] of the page; [n] is [8 - i]. *)
Fixpoint write_sectors (n : nat) (d : Z → list Z) (base : Z) (page : list Z) (i : Z)
    : (Z → list Z) * res unit unit :=
  match n with
  | O => (d, Ok ())
  | S n' =>
    match slice page (i * 512) ((i + 1) * 512) with
    | None => (d, Panic)
    | Some sector =>
      if sector_ok (u64 (base + i))
      then write_sectors n' (set_mem d (u64 (base + i)) sector) base page (i + 1)
      else (d, Err ())
    end
  end.

Definition write_page_to_disk (s : system) (slot page_phys : Z) : system * res unit unit :=
  match phys_to_virt hhdm page_phys with
  | None => (s, Err ())
  | Some _ =>
    let '(d, r) := write_sectors 8 (disk s) (sector_base s slot) (smem s page_phys) 0 in
    (with_disk s d, r)
  end.

Fixpoint read_sectors (n : nat) (d : Z → list Z) (base : Z) (page : list Z) (i : Z)
    : list Z * res unit unit :=
  match n with
  | O => (page, Ok ())
  | S n' =>
    if sector_ok (u64 (base + i))
    then read_sectors n' d base (splice page (i * 512) (d (u64 (base + i)))) (i + 1)
    else (page, Err ())
  end.

Definition read_page_from_disk (s : system) (slot page_phys : Z) : system * res unit unit :=
  match phys_to_virt hhdm page_phys with
  | None => (s, Err ())
  | Some _ =>
    let '(page, r) := read_sectors 8 (disk s) (sector_base s slot) (smem s page_phys) 0 in
    (with_smem s (set_mem (smem s) page_phys page), r)
  end.

Definition swap_page_out (s : system) (space vaddr slot : Z) : system * res MapError Z :=
  let page := page_of vaddr in
  match ptes s !! (space, page) with
  | None => (s, Err NoHhdm)
  | Some entry =>
    if Z.land entry PRESENT =? 0 then (s, Err NoHhdm) else
    let phys := Z.land entry ADDRESS_MASK in
    match write_page_to_disk s slot phys with
    | (s, Ok _) =>
      let perm_flags := Z.land entry PERM_FLAGS in
      let slot_encoded := Z.shiftl (Z.land slot 0xfffff) 12 in
      let new_entry := Z.lor (Z.lor slot_encoded perm_flags) MAP_SWAPPED in
      let s := with_ptes s (<[(space, page) := new_entry]> (ptes s)) in
      (with_sframes s (free_frame (sframes s) phys).1, Ok phys)
    | (s, Err _) => (s, Err NoHhdm)
    | (s, Panic) => (s, Panic)
    end
  end.

Definition check_and_clear_accessed (s : system) (space vaddr : Z) : system * res MapError (option bool) :=
  let page := page_of vaddr in
  match ptes s !! (space, page) with
  | None => (s, Ok None)
  | Some entry =>
    if Z.land entry PRESENT =? 0 then (s, Ok None) else
    if negb (Z.land entry MAP_COW =? 0) then (s, Ok (Some true)) else
    let was_accessed := negb (Z.land entry ACCESSED =? 0) in
    if was_accessed
    then (with_ptes s (<[(space, page) := Z.land entry (bnot 64 ACCESSED)]> (ptes s)), Ok (Some true))
    else (s, Ok (Some false))
  end.

(** The clock loop; [n] is [2 * MAX_TRACKED_PAGES - scanned]. *)
Fixpoint clock_scan (n : nat) (s : system) (slot : Z) : system * res unit Z :=
  match n with
  | O => (with_mgr s (free_slot (mgr s) slot), Err ())
  | S n' =>
    let m := mgr s in
    let idx := clock_hand m mod MAX_TRACKED_PAGES in
    let s := with_mgr s (with_tracked m (tracked_pages m) (tracked_count m)
                           ((clock_hand m + 1) mod MAX_TRACKED_PAGES)) in
    let m := mgr s in
    let dropped := with_tracked m (<[Z.to_nat idx := None]> (tracked_pages m))
                     (saturating_sub (tracked_count m) 1) (clock_hand m) in
    match index (tracked_pages m) idx with
    | None => (s, Panic)
    | Some None => clock_scan n' s slot
    | Some (Some target) =>
      match check_and_clear_accessed s (tp_space target) (tp_vaddr target) with
      | (s, Ok (Some true)) => clock_scan n' s slot
      | (s, Ok (Some false)) =>
        match swap_page_out (with_mgr s dropped) (tp_space target) (tp_vaddr target) slot with
        | (s, Ok _) => (s, Ok slot)
        | (s, Err _) => (with_mgr s (free_slot (mgr s) slot), Err ())
        | (s, Panic) => (s, Panic)
        end
      | (s, _) => clock_scan n' (with_mgr s dropped) slot
      end
    end
  end.

Definition evict_page_clock (s : system) : system * res unit Z :=
  if negb (initialized s) then (s, Err ()) else
  if in_eviction s then (s, Err ()) else
  let s := with_eviction s true in
  let '(s, r) :=
    if tracked_count (mgr s) =? 0 then (s, Err ()) else
    match alloc_slot (mgr s) with
    | (m, None) => (with_mgr s m, Err ())
    | (m, Some slot) => clock_scan (Z.to_nat (MAX_TRACKED_PAGES * 2)) (with_mgr s m) slot
    end in
  (with_eviction s false, r).

(** [memory::alloc_frame], with the evictions it starts when memory is low. *)
Definition evict_some (s : system) : system :=
  (evict_page_clock (with_sframes s (evict_clean (sframes s)))).1.

Definition alloc_frame_pressure (s : system) : system * option Z :=
  let wm := low_watermark in
  let s := if (0 <? wm) && (free_count (sframes s) <=? wm) then evict_some s else s in
  let '(a, f) := alloc_frame (sframes s) in
  let s := with_sframes s a in
  match f with
  | None =>
    if 0 <? wm then
      let s := evict_some s in
      let '(a, f) := alloc_frame (sframes s) in (with_sframes s a, f)
    else (s, None)
  | Some f => (s, Some f)
  end.

Definition resolve_swapped_page (s : system) (space vaddr : Z) : system * res MapError bool :=
  let page := page_of vaddr in
  match ptes s !! (space, page) with
  | None => (s, Ok false)
  | Some entry =>
    if negb (Z.land entry PRESENT =? 0) || (Z.land entry MAP_SWAPPED =? 0) then (s, Ok false) else
    let slot := Z.land (Z.shiftr entry 12) 0xfffff in
    match alloc_frame_pressure s with
    | (s, None) => (s, Err OutOfMemory)
    | (s, Some phys) =>
      match read_page_from_disk s slot phys with
      | (s, Ok _) =>
        let original_flags := Z.land entry PERM_FLAGS in
        let new_entry := Z.lor (Z.lor phys original_flags) PRESENT in
        let s := with_ptes s (<[(space, page) := new_entry]> (ptes s)) in
        let s := with_mgr s (free_slot (mgr s) slot) in
        (with_mgr s (track_page (mgr s) space page), Ok true)
      | (s, _) => (with_sframes s (free_frame (sframes s) phys).1, Err NoHhdm)
      end
    end
  end.

Definition page_out (s : system) (space vaddr : Z) : system * res unit Z :=
  match alloc_slot (mgr s) with
  | (m, None) => (with_mgr s m, Err ())
  | (m, Some slot) =>
    match swap_page_out (with_mgr s m) space vaddr slot with
    | (s, Ok _) => (s, Ok slot)
    | (s, Err _) => (with_mgr s (free_slot (mgr s) slot), Err ())
    | (s, Panic) => (s, Panic)
    end
  end.
End swap.
