(* ===== verification/SwapSlots.v ===== *)
(** * The swap slots

    What the bitmap of [swap.rs] promises: the lowest free slot is taken, a
    slot is given back exactly once, and [used_slots] counts the set bits. *)

From stdpp Require Import gmap.
From S2P Require Import Prelude Words Vfs Frames Pages Swap.

(** Slot [i] is marked in the bitmap. *)
Definition used (b : list Z) (i : Z) : bool :=
  match index b (i / 64) with Some w => Z.testbit w (i mod 64) | None => false end.

Definition in_use (b : list Z) : list Z := filter (λ i, used b i = true) (seqZ 0 MAX_SWAP_SLOTS).

Record slots_ok (m : SwapManager) : Prop := {
  so_len : zlen (bitmap m) = BITMAP_WORDS;
  so_words : Forall (is_u 64) (bitmap m);
  so_count : used_slots m = zlen (in_use (bitmap m)) }.

(** ** Bits *)

Lemma land_bit e k : 0 ≤ k → (Z.land e (Z.shiftl 1 k) =? 0) = negb (Z.testbit e k).
Proof.
  intros Hk. rewrite Z.shiftl_1_l. destruct (Z.testbit e k) eqn:Hb; cbn.
  - apply Z.eqb_neq. intros H%(f_equal (λ z, Z.testbit z k)).
    rewrite Z.land_spec, Hb, Z.pow2_bits_true, Z.bits_0 in H by done. done.
  - apply Z.eqb_eq. apply Z.bits_inj'. intros i _.
    rewrite Z.land_spec, Z.bits_0, Z.pow2_bits_eqb by done.
    destruct (Z.eqb_spec k i) as [->|]; [by rewrite Hb|by rewrite andb_false_r].
Qed.

Lemma first_bit_spec n w : ∀ i, 0 ≤ i → (∃ k, i ≤ k < i + Z.of_nat n ∧ Z.testbit w k = true) →
  let r := first_bit n w i in
  i ≤ r < i + Z.of_nat n ∧ Z.testbit w r = true ∧ ∀ j, i ≤ j < r → Z.testbit w j = false.
Proof.
  induction n as [|n IH]; intros i Hi (k & Hk & Hb); cbn; [lia|].
  destruct (Z.testbit w i) eqn:Hw; [repeat split; [lia|lia|done|lia]|].
  destruct (IH (i + 1) ltac:(lia)) as (Hr & Hbr & Hlt).
  { exists k. split; [|done]. assert (k ≠ i) by congruence. lia. }
  repeat split; [lia|lia|done|]. intros j Hj. destruct (decide (j = i)) as [->|]; [done|apply Hlt; lia].
Qed.

(** The lowest clear bit of a word that is not all ones. *)
Lemma lowest_clear w : is_u 64 w → w ≠ bnot 64 0 →
  let r := trailing_zeros (bnot 64 w) in
  0 ≤ r < 64 ∧ Z.testbit w r = false ∧ ∀ j, 0 ≤ j < r → Z.testbit w j = true.
Proof.
  intros Hw Hne. unfold trailing_zeros.
  assert (Hex : ∃ k, 0 ≤ k < 0 + Z.of_nat 64 ∧ Z.testbit (bnot 64 w) k = true).
  { destruct (decide (Exists (λ k, Z.testbit (bnot 64 w) k = true) (seqZ 0 64))) as [Hx|Hx].
    - apply Exists_exists in Hx as (k & Hk & ?). exists k. apply elem_of_seqZ in Hk. split; [lia|done].
    - destruct Hne. apply (bnot_inj 64); [done|vm_compute; intuition congruence|]. apply Z.bits_inj'. intros i Hi.
      change (bnot 64 (bnot 64 0)) with 0. rewrite Z.bits_0.
      destruct (Z.testbit (bnot 64 w) i) eqn:Hb; [|done]. destruct Hx. apply Exists_exists.
      exists i. split; [|done]. apply elem_of_seqZ. rewrite bnot_testbit in Hb by lia.
      case_bool_decide; [lia|done]. }
  destruct (first_bit_spec 64 (bnot 64 w) 0 ltac:(lia) Hex) as (Hr & Hb & Hlt).
  assert (Hbit : ∀ j, 0 ≤ j < 64 → Z.testbit w j = negb (Z.testbit (bnot 64 w) j)).
  { intros j Hj. rewrite bnot_testbit, bool_decide_true by lia. by destruct (Z.testbit w j). }
  split; [lia|]. split; [rewrite Hbit, Hb by lia; done|]. intros j Hj. rewrite Hbit, Hlt by lia. done.
Qed.

Lemma used_cons_low w b i : 0 ≤ i < 64 → used (w :: b) i = Z.testbit w i.
Proof. intros. unfold used. rewrite Z.div_small, Z.mod_small by lia. done. Qed.

Lemma used_cons_high w b i : 64 ≤ i → used (w :: b) i = used b (i - 64).
Proof.
  intros Hi. unfold used. assert (Hd : i / 64 = (i - 64) / 64 + 1 ∧ i mod 64 = (i - 64) mod 64).
  { replace i with (i - 64 + 1 * 64) at 1 3 by lia. rewrite Z.div_add, Z_mod_plus_full by lia. done. }
  destruct Hd as [-> ->]. set (q := (i - 64) / 64).
  assert (0 ≤ q) by (apply Z.div_pos; lia).
  replace (index (w :: b) (q + 1)) with (index b q); [done|]. unfold index.
  replace (Z.to_nat (q + 1)) with (S (Z.to_nat q)) by lia. cbn [lookup list_lookup length].
  rewrite (bool_decide_ext (0 ≤ q + 1 < Z.of_nat (S (length b))) (0 ≤ q < zlen b)) by lia. done.
Qed.

Lemma used_neg b i : i < 0 → used b i = false.
Proof.
  intros. unfold used, index. rewrite bool_decide_false; [done|].
  assert (i / 64 < 0) by (apply Z.div_lt_upper_bound; lia). lia.
Qed.

Lemma used_lt b i : used b i = true → 0 ≤ i < 64 * zlen b.
Proof.
  intros Hu. destruct (decide (i < 0)) as [Hn|]; [by rewrite used_neg in Hu|]. split; [lia|].
  unfold used, index in Hu. case_bool_decide as Hb; [|done].
  pose proof (Z.mul_div_le i 64). pose proof (Z.mod_pos_bound i 64). pose proof (Z.div_mod i 64). lia.
Qed.

Lemma all_ones j : 0 ≤ j < 64 → Z.testbit (bnot 64 0) j = true.
Proof. intros. rewrite bnot_testbit, bool_decide_true, Z.bits_0 by lia. done. Qed.

Lemma or_bit w k j : 0 ≤ k → Z.testbit (Z.lor w (Z.shiftl 1 k)) j = (k =? j) || Z.testbit w j.
Proof. intros. rewrite Z.lor_spec, Z.shiftl_1_l, Z.pow2_bits_eqb by done. apply orb_comm. Qed.

Lemma take_slot_spec b : Forall (is_u 64) b → ∀ wi, 0 ≤ wi → wi + zlen b ≤ 2 ^ 26 →
  match take_slot b wi with
  | Some (b', s) =>
    let i := s - wi * 64 in
    0 ≤ i < 64 * zlen b ∧ used b i = false ∧ (∀ j, 0 ≤ j < i → used b j = true) ∧
    length b' = length b ∧ Forall (is_u 64) b' ∧ ∀ j, used b' j = (i =? j) || used b j
  | None => ∀ j, 0 ≤ j < 64 * zlen b → used b j = true
  end.
Proof.
  induction 1 as [|w b Hw Hf IH]; intros wi Hwi Hle; cbn [take_slot length].
  { intros j Hj. cbn in Hj. lia. }
  cbn [length] in Hle. destruct (Z.eqb_spec w (bnot 64 0)) as [Heq|Hne]; cbn [negb].
  - specialize (IH (wi + 1) ltac:(lia) ltac:(lia)). destruct (take_slot b (wi + 1)) as [[b' s]|].
    + cbv zeta in *. destruct IH as (Hi & Hu & Hlow & Hlen & Hw' & Hset).
      replace (s - (wi + 1) * 64) with (s - wi * 64 - 64) in * by lia.
      set (i := s - wi * 64) in *. split; [lia|]. split; [rewrite used_cons_high by lia; done|]. split.
      { intros j Hj. destruct (decide (j < 64)).
        - rewrite used_cons_low, Heq by lia. apply all_ones. lia.
        - rewrite used_cons_high by lia. apply Hlow. lia. }
      split; [cbn; lia|]. split; [by constructor|]. intros j. destruct (decide (j < 0)).
      { rewrite !used_neg by done. destruct (Z.eqb_spec i j); [lia|done]. }
      destruct (decide (j < 64)).
      { rewrite !used_cons_low by lia. destruct (Z.eqb_spec i j); [lia|done]. }
      rewrite !used_cons_high, Hset by lia. f_equal.
      destruct (Z.eqb_spec (i - 64) (j - 64)), (Z.eqb_spec i j); lia.
    + intros j Hj. destruct (decide (j < 64)).
      { rewrite used_cons_low, Heq by lia. apply all_ones. lia. }
      rewrite used_cons_high by lia. apply IH. lia.
  - destruct (lowest_clear w Hw Hne) as (Hr & Hclear & Hlow). cbv zeta in *.
    set (r := trailing_zeros (bnot 64 w)) in *.
    rewrite wrap_small by (unfold is_u; lia). replace (wi * 64 + r - wi * 64) with r by lia.
    split; [lia|]. split; [by rewrite used_cons_low by lia|].
    split; [intros j Hj; rewrite used_cons_low by lia; by apply Hlow|]. split; [done|]. split.
    { constructor; [|done]. apply is_u_lor; [lia|done|]. rewrite Z.shiftl_1_l.
      split; [lia|]. apply Z.pow_lt_mono_r; lia. }
    intros j. destruct (decide (j < 0)).
    { rewrite !used_neg by done. destruct (Z.eqb_spec r j); [lia|done]. }
    destruct (decide (j < 64)); [rewrite !used_cons_low by lia; apply or_bit; lia|].
    rewrite !used_cons_high by lia. destruct (Z.eqb_spec r j); [lia|done].
Qed.

(** ** Counting *)

Lemma filter_flip {A} `{EqDecision A} (f g : A → bool) (l : list A) x :
  NoDup l → x ∈ l → f x = false → g x = true → (∀ y, y ≠ x → g y = f y) →
  length (filter (λ y, g y = true) l) = S (length (filter (λ y, f y = true) l)).
Proof.
  intros Hnd Hx Hf Hg He. induction Hnd as [|y l Hy Hnd IH]; [by apply not_elem_of_nil in Hx|].
  rewrite !filter_cons. destruct (decide (y = x)) as [->|Hne].
  - rewrite Hf, Hg, decide_True, decide_False by done. cbn [length]. f_equal. clear IH Hx Hnd. induction l as [|z l IH]; [done|].
    apply not_elem_of_cons in Hy as [Hz Hy]. rewrite !filter_cons, (He z) by done.
    case_decide; cbn [length]; [f_equal|]; by apply IH.
  - apply elem_of_cons in Hx as [->|Hx]; [done|]. rewrite (He y Hne).
    case_decide; cbn; auto.
Qed.

Lemma in_use_add b b' i : 0 ≤ i < MAX_SWAP_SLOTS → used b i = false →
  (∀ j, used b' j = (i =? j) || used b j) → zlen (in_use b') = zlen (in_use b) + 1.
Proof.
  intros Hi Hu Hs. unfold in_use.
  rewrite (filter_flip (used b) (used b') (seqZ 0 MAX_SWAP_SLOTS) i); [lia|apply NoDup_seqZ| |done| |].
  - apply elem_of_seqZ. lia.
  - rewrite Hs, Z.eqb_refl. done.
  - intros y Hy. rewrite Hs. by destruct (Z.eqb_spec i y).
Qed.

(** ** The operations *)

Lemma alloc_slot_spec m : slots_ok m →
  match alloc_slot m with
  | (m', Some s) =>
    slots_ok m' ∧ 0 ≤ s < MAX_SWAP_SLOTS ∧ used (bitmap m) s = false ∧
    (∀ j, 0 ≤ j < s → used (bitmap m) j = true) ∧
    (∀ j, used (bitmap m') j = (s =? j) || used (bitmap m) j) ∧
    tracked_pages m' = tracked_pages m ∧ tracked_count m' = tracked_count m ∧ clock_hand m' = clock_hand m
  | (m', None) => m' = m ∧ ∀ j, 0 ≤ j < MAX_SWAP_SLOTS → used (bitmap m) j = true
  end.
Proof.
  intros [Hl Hw Hc]. unfold alloc_slot, BITMAP_WORDS, MAX_SWAP_SLOTS in *. change (16384 / 64) with 256 in *.
  pose proof (take_slot_spec (bitmap m) Hw 0 ltac:(lia) ltac:(lia)) as Ht.
  destruct (take_slot (bitmap m) 0) as [[b' s]|].
  - cbv zeta in Ht. rewrite Z.mul_0_l, Z.sub_0_r in Ht. destruct Ht as (Hi & Hu & Hlow & Hlen & Hw' & Hset).
    rewrite Hl in Hi. assert (zlen (in_use b') = zlen (in_use (bitmap m)) + 1) as Hcnt
      by (apply (in_use_add _ _ s); [unfold MAX_SWAP_SLOTS; lia|done|done]).
    assert (zlen (in_use b') ≤ 16384).
    { unfold in_use. pose proof (length_filter (λ i, used b' i = true) (seqZ 0 MAX_SWAP_SLOTS)) as Hle.
      rewrite length_seqZ in Hle. unfold MAX_SWAP_SLOTS in *. lia. }
    split; [|split; [lia|done]]. split; cbn; [rewrite Hlen; done|done|].
    rewrite wrap_small by (unfold is_u; lia). lia.
  - split; [done|]. intros j Hj. apply Ht. lia.
Qed.

Lemma free_slot_spec m s : slots_ok m → 0 ≤ s →
  slots_ok (free_slot m s) ∧
  (∀ j, used (bitmap (free_slot m s)) j = negb (s =? j) && used (bitmap m) j) ∧
  tracked_pages (free_slot m s) = tracked_pages m ∧ tracked_count (free_slot m s) = tracked_count m ∧
  clock_hand (free_slot m s) = clock_hand m.
Proof.
  intros [Hl Hw Hc] Hs. unfold free_slot.
  assert (Hno : used (bitmap m) s = false → ∀ j, used (bitmap m) j = negb (s =? j) && used (bitmap m) j).
  { intros Hu j. destruct (Z.eqb_spec s j) as [<-|]; [by rewrite Hu|done]. }
  destruct (Z.leb_spec MAX_SWAP_SLOTS s) as [Hge|Hlt].
  { split; [done|]. split; [|done]. apply Hno. destruct (used (bitmap m) s) eqn:Hu; [|done].
    apply used_lt in Hu. rewrite Hl in Hu. change BITMAP_WORDS with 256 in *. unfold MAX_SWAP_SLOTS in *. lia. }
  assert (Hwi : 0 ≤ s / 64 < zlen (bitmap m)).
  { rewrite Hl. split; [apply Z.div_pos; lia|]. unfold BITMAP_WORDS, MAX_SWAP_SLOTS in *.
    change (16384 / 64) with 256. apply Z.div_lt_upper_bound; lia. }
  assert (Hbi : 0 ≤ s mod 64 < 64) by (apply Z.mod_pos_bound; lia).
  destruct (index (bitmap m) (s / 64)) as [w|] eqn:Hx.
  2:{ unfold index in Hx. rewrite bool_decide_true in Hx by done.
      apply lookup_ge_None in Hx. lia. }
  rewrite land_bit, negb_involutive by lia.
  assert (Hus : used (bitmap m) s = Z.testbit w (s mod 64)) by (unfold used; by rewrite Hx).
  destruct (Z.testbit w (s mod 64)) eqn:Hb; [|split; [done|split; [by apply Hno|done]]].
  set (w' := Z.land w (bnot 64 (Z.shiftl 1 (s mod 64)))).
  set (b' := <[Z.to_nat (s / 64) := w']> (bitmap m)).
  assert (Hset : ∀ j, used b' j = negb (s =? j) && used (bitmap m) j).
  { intros j. destruct (decide (j < 0)).
    { rewrite !used_neg by done. by rewrite andb_false_r. }
    unfold used, b', index. rewrite length_insert. case_bool_decide as Hj; [|by rewrite andb_false_r].
    destruct (decide (j / 64 = s / 64)) as [Hjs|Hjs].
    - rewrite Hjs, list_lookup_insert_eq by lia. apply index_Some in Hx as [_ ->].
      unfold w'. rewrite Z.land_spec, bnot_testbit, Z.shiftl_1_l, Z.pow2_bits_eqb by lia.
      pose proof (Z.mod_pos_bound j 64 ltac:(lia)). rewrite bool_decide_true by lia. cbn [andb].
      rewrite andb_comm. f_equal. f_equal.
      pose proof (Z.div_mod s 64 ltac:(lia)). pose proof (Z.div_mod j 64 ltac:(lia)).
      destruct (Z.eqb_spec (s mod 64) (j mod 64)), (Z.eqb_spec s j); lia.
    - rewrite list_lookup_insert_ne by (intros Hq; apply Z2Nat.inj in Hq; lia).
      destruct (Z.eqb_spec s j) as [->|]; done. }
  split; [|done]. split; cbn.
  - unfold b'. rewrite length_insert. done.
  - apply Forall_insert; [done|]. apply is_u_land; [lia|].
    apply index_Some in Hx as [_ Hx]. by eapply Forall_lookup_1.
  - rewrite Hc. rewrite (in_use_add b' (bitmap m) s); [unfold saturating_sub; lia|lia| |].
    + rewrite Hset, Z.eqb_refl. done.
    + intros j. rewrite Hset. destruct (Z.eqb_spec s j) as [<-|]; [by rewrite Hus|done].
Qed.

Lemma free_slots_spec m : slots_ok m → free_slots m = MAX_SWAP_SLOTS - zlen (in_use (bitmap m)).
Proof.
  intros [_ _ Hc]. unfold free_slots, saturating_sub. rewrite Hc. unfold in_use.
  pose proof (length_filter (λ i, used (bitmap m) i = true) (seqZ 0 MAX_SWAP_SLOTS)) as Hle.
  rewrite length_seqZ in Hle. unfold MAX_SWAP_SLOTS in *. lia.
Qed.
