(* ===== verification/SwapSpec.v ===== *)
(** * Swapping is invisible

    A user page has contents and permissions wherever it is kept, in a frame
    or in a swap slot.  Eviction under pressure and page-in move pages
    between the two without changing what any page holds, and a slot belongs
    to at most one page. *)

From stdpp Require Import gmap gmultiset.
From S2P Require Import Prelude Words Buddy BuddySpec Frames SharedFrames Vfs Pages Swap SwapSlots.

(** ** Page-table entries *)

Definition is_present (e : Z) : bool := negb (Z.land e PRESENT =? 0).
Definition is_swapped (e : Z) : bool := negb (is_present e) && negb (Z.land e MAP_SWAPPED =? 0).
Definition is_cow (e : Z) : bool := negb (Z.land e MAP_COW =? 0).
Definition frame_of (e : Z) : Z := Z.land e ADDRESS_MASK.
Definition slot_of (e : Z) : Z := Z.land (Z.shiftr e 12) 0xfffff.
Definition perms (e : Z) : Z := Z.land e PERM_FLAGS.

(** Bit [i] of the constants. *)
Lemma address_mask_bits i : 0 ≤ i → Z.testbit ADDRESS_MASK i = bool_decide (12 ≤ i < 52).
Proof.
  intros Hi. change ADDRESS_MASK with (Z.shiftl (Z.ones 40) 12).
  rewrite Z.shiftl_spec by done. destruct (decide (i < 12)).
  - rewrite Z.testbit_neg_r, bool_decide_false by lia. done.
  - rewrite Z.testbit_ones by lia. case_bool_decide; destruct (Z.leb_spec 0 (i - 12)), (Z.ltb_spec (i - 12) 40); cbn; lia.
Qed.

Lemma perm_bits i : 0 ≤ i → Z.testbit PERM_FLAGS i = (1 =? i) || (2 =? i) || (63 =? i).
Proof.
  intros. unfold PERM_FLAGS, MAP_WRITABLE, MAP_USER, MAP_NO_EXECUTE.
  rewrite !Z.lor_spec, !Z.shiftl_1_l, !Z.pow2_bits_eqb by lia. done.
Qed.

Lemma slot_mask_bits i : 0 ≤ i → Z.testbit 0xfffff i = bool_decide (i < 20).
Proof.
  intros. change 0xfffff with (Z.ones 20). rewrite Z.testbit_ones by done.
  case_bool_decide; destruct (Z.leb_spec 0 i), (Z.ltb_spec i 20); cbn; lia.
Qed.

Lemma aligned_bits f i : 0 ≤ f < 2 ^ 52 → f mod 4096 = 0 → 0 ≤ i → ¬ 12 ≤ i < 52 → Z.testbit f i = false.
Proof.
  intros Hf Ha Hi Hr. destruct (decide (i < 12)) as [Hlt|].
  - rewrite <- (Z.mod_pow2_bits_low f 12) by lia. change (2 ^ 12) with 4096. rewrite Ha. apply Z.bits_0.
  - apply (is_u_bits 52); [lia|done|lia].
Qed.

Lemma small_bits z w i : 0 ≤ w ≤ i → 0 ≤ z < 2 ^ w → Z.testbit z i = false.
Proof. intros ? Hz. by apply (is_u_bits w) in Hz as [_ Hz]; [apply Hz|]; lia. Qed.

(** The entry written by a page-out. *)
Definition out_entry (e slot : Z) : Z :=
  Z.lor (Z.lor (Z.shiftl (Z.land slot 0xfffff) 12) (Z.land e PERM_FLAGS)) MAP_SWAPPED.

Lemma out_entry_bits e slot i : 0 ≤ slot < MAX_SWAP_SLOTS → 0 ≤ i →
  Z.testbit (out_entry e slot) i =
  (bool_decide (12 ≤ i < 32) && Z.testbit slot (i - 12)) || (Z.testbit e i && Z.testbit PERM_FLAGS i) || (10 =? i).
Proof.
  intros Hs Hi. unfold out_entry, MAP_SWAPPED, MAX_SWAP_SLOTS in *.
  rewrite !Z.lor_spec, Z.land_spec, Z.shiftl_spec, Z.shiftl_1_l, Z.pow2_bits_eqb by lia. f_equal. f_equal.
  destruct (decide (i < 12)).
  { rewrite Z.testbit_neg_r, bool_decide_false by lia. done. }
  rewrite Z.land_spec, slot_mask_bits by lia. rewrite andb_comm. f_equal. apply bool_decide_ext. lia.
Qed.

Lemma out_entry_spec e slot : 0 ≤ slot < MAX_SWAP_SLOTS →
  is_present (out_entry e slot) = false ∧ is_swapped (out_entry e slot) = true ∧
  slot_of (out_entry e slot) = slot ∧ perms (out_entry e slot) = perms e.
Proof.
  intros Hs. assert (Hp : is_present (out_entry e slot) = false).
  { unfold is_present, PRESENT. rewrite land_bit, out_entry_bits, perm_bits by lia.
    rewrite bool_decide_false by lia. by destruct (Z.testbit e 0). }
  split; [done|]. split.
  { unfold is_swapped, MAP_SWAPPED. rewrite Hp, land_bit, out_entry_bits by lia. by rewrite orb_true_r. }
  split; apply Z.bits_inj'; intros i Hi; unfold slot_of, perms; rewrite !Z.land_spec.
  - rewrite Z.shiftr_spec, slot_mask_bits, out_entry_bits, perm_bits by lia.
    replace (i + 12 - 12) with i by lia. case_bool_decide as Hb.
    + rewrite bool_decide_true by lia. rewrite andb_true_r.
      destruct (Z.eqb_spec 1 (i + 12)), (Z.eqb_spec 2 (i + 12)), (Z.eqb_spec 63 (i + 12)), (Z.eqb_spec 10 (i + 12)); try lia.
      by destruct (Z.testbit slot i), (Z.testbit e (i + 12)).
    + rewrite bool_decide_false, andb_false_r by lia. symmetry. apply (small_bits _ 20); [lia|]. unfold MAX_SWAP_SLOTS in Hs. lia.
  - rewrite out_entry_bits, perm_bits by lia.
    destruct (Z.eqb_spec 1 i), (Z.eqb_spec 2 i), (Z.eqb_spec 63 i), (Z.eqb_spec 10 i); try lia;
      rewrite ?bool_decide_false by lia;
      case_bool_decide || idtac; destruct (Z.testbit e i); done.
Qed.

Lemma out_entry_word e slot : is_u 64 e → 0 ≤ slot < MAX_SWAP_SLOTS → is_u 64 (out_entry e slot).
Proof.
  intros He Hs. unfold out_entry. apply is_u_lor; [lia| |vm_compute; intuition congruence].
  apply is_u_lor; [lia| |by apply is_u_land]. rewrite Z.shiftl_mul_pow2 by lia.
  change 0xfffff with (Z.ones 20). rewrite Z.land_ones by lia.
  pose proof (Z.mod_pos_bound slot (2 ^ 20)). unfold is_u. lia.
Qed.

(** The entry written by a page-in. *)
Definition in_entry (e phys : Z) : Z := Z.lor (Z.lor phys (Z.land e PERM_FLAGS)) PRESENT.

Lemma in_entry_spec e f : 0 ≤ f < 2 ^ 52 → f mod 4096 = 0 →
  is_present (in_entry e f) = true ∧ frame_of (in_entry e f) = f ∧ perms (in_entry e f) = perms e.
Proof.
  intros Hf Ha. unfold in_entry. split.
  { unfold is_present, PRESENT. rewrite land_bit, negb_involutive by lia. apply or_bit. lia. }
  split; apply Z.bits_inj'; intros i Hi; unfold frame_of, perms, PRESENT; rewrite !Z.land_spec, or_bit, Z.lor_spec, Z.land_spec by lia.
  - rewrite address_mask_bits, perm_bits by lia. case_bool_decide as Hb.
    + destruct (Z.eqb_spec 0 i), (Z.eqb_spec 1 i), (Z.eqb_spec 2 i), (Z.eqb_spec 63 i); try lia.
      by destruct (Z.testbit f i), (Z.testbit e i).
    + rewrite andb_false_r. by rewrite (aligned_bits f) by lia.
  - rewrite perm_bits by lia.
    destruct (Z.eqb_spec 0 i), (Z.eqb_spec 1 i), (Z.eqb_spec 2 i), (Z.eqb_spec 63 i); try lia;
      rewrite ?(aligned_bits f i) by lia; destruct (Z.testbit e i); rewrite ?andb_false_r; done.
Qed.

Lemma in_entry_word e f : is_u 64 e → 0 ≤ f < 2 ^ 52 → is_u 64 (in_entry e f).
Proof.
  intros He Hf. unfold in_entry. apply is_u_lor; [lia| |vm_compute; intuition congruence].
  apply is_u_lor; [lia| |by apply is_u_land]. unfold is_u. lia.
Qed.

(** Clearing the accessed bit. *)
Lemma clear_accessed_spec e : let e' := Z.land e (bnot 64 ACCESSED) in
  is_u 64 e →
  is_present e' = is_present e ∧ is_swapped e' = is_swapped e ∧ is_cow e' = is_cow e ∧
  frame_of e' = frame_of e ∧ slot_of e' = slot_of e ∧ perms e' = perms e ∧ Z.land e' ACCESSED = 0 ∧ is_u 64 e'.
Proof.
  intros e' Hu. assert (Hb : ∀ i, 0 ≤ i → Z.testbit e' i = negb (5 =? i) && Z.testbit e i).
  { intros i Hi. unfold e', ACCESSED. rewrite Z.land_spec, bnot_testbit, Z.shiftl_1_l, Z.pow2_bits_eqb by lia.
    case_bool_decide as Hr; [by rewrite andb_comm|]. apply is_u_bits in Hu as [_ Hu]; [|lia].
    rewrite Hu by lia. by destruct (5 =? i). }
  assert (Hp : is_present e' = is_present e) by (unfold is_present, PRESENT; rewrite !land_bit, Hb by lia; done).
  split; [done|]. split; [unfold is_swapped, MAP_SWAPPED; rewrite Hp, !land_bit, Hb by lia; done|].
  split; [unfold is_cow, MAP_COW; rewrite !land_bit, Hb by lia; done|].
  split; [|split; [|split; [|split]]].
  - unfold frame_of. apply Z.bits_inj'. intros i Hi. rewrite !Z.land_spec, Hb, address_mask_bits by lia.
    destruct (Z.eqb_spec 5 i); [rewrite bool_decide_false by lia; by rewrite !andb_false_r|done].
  - unfold slot_of. apply Z.bits_inj'. intros i Hi. rewrite !Z.land_spec, !Z.shiftr_spec, Hb by lia.
    destruct (Z.eqb_spec 5 (i + 12)); [lia|done].
  - unfold perms. apply Z.bits_inj'. intros i Hi. rewrite !Z.land_spec, Hb, perm_bits by lia.
    destruct (Z.eqb_spec 5 i) as [<-|]; [by rewrite !andb_false_r|done].
  - apply Z.eqb_eq. unfold ACCESSED at 1. rewrite land_bit, Hb by lia. done.
  - by apply is_u_land.
Qed.

(** ** Sectors *)

Lemma sectors_page (page : list Z) n : ∀ i, 0 ≤ i →
  mjoin ((λ j, take 512 (drop (Z.to_nat (j * 512)) page)) <$> seqZ i (Z.of_nat n)) =
  take (512 * n) (drop (Z.to_nat (i * 512)) page).
Proof.
  induction n as [|n IH]; intros i Hi; [done|].
  rewrite seqZ_cons by lia. cbn [fmap list_fmap mjoin list_join].
  replace (Z.pred (Z.of_nat (S n))) with (Z.of_nat n) by lia. rewrite IH by lia.
  replace (512 * S n)%nat with (512 + 512 * n)%nat by lia.
  rewrite <- take_take_drop, drop_drop. do 3 f_equal. lia.
Qed.

Section swap.
Context {A : Type} `{FA : !FrameAllocator A} `{SF : !SharedFrames A} (hhdm : option Z) (sector_ok : Z → bool).
Implicit Types s : @system A.
Implicit Types H : gmultiset Z.

(** ** What the user sees *)

Definition slot_page s (slot : Z) : list Z :=
  mjoin ((λ i, disk s (u64 (sector_base s slot + i))) <$> seqZ 0 8).

(** Permissions and bytes of a page, resident or swapped out. *)
Definition view s (k : Z * Z) : option (Z * list Z) :=
  e ← ptes s !! k;
  if is_present e then Some (perms e, smem s (frame_of e))
  else if is_swapped e then Some (perms e, slot_page s (slot_of e)) else None.

(** The resident page [k] is in frame [f]. *)
Definition in_frame s (f : Z) (k : Z * Z) : Prop := ∃ e, ptes s !! k = Some e ∧ is_present e = true ∧ frame_of e = f.

(** [H] are the references to frames that the page tables have, and perhaps
    others: a frame that several pages map, copy-on-write or read-only as
    [clone_user_address_space] leaves them, is counted for each of them. *)
Record sound s H : Prop := {
  sd_slots : slots_ok (mgr s);
  sd_tracked : zlen (tracked_pages (mgr s)) = MAX_TRACKED_PAGES;
  sd_hand : 0 ≤ clock_hand (mgr s);
  sd_mem : mem_ok (smem s);
  sd_disk n : length (disk s n) = 512%nat;
  sd_base : 0 ≤ start_lba s ∧ start_lba s + 8 * MAX_SWAP_SLOTS ≤ 2 ^ 64;
  sd_holds : owned (sframes s) H;
  sd_word k e : ptes s !! k = Some e → is_u 64 e;
  sd_counted f ks : NoDup ks → Forall (in_frame s f) ks → (length ks ≤ multiplicity f H)%nat;
  sd_swapped k e : ptes s !! k = Some e → is_swapped e = true → used (bitmap (mgr s)) (slot_of e) = true;
  sd_owner k1 k2 e1 e2 : ptes s !! k1 = Some e1 → ptes s !! k2 = Some e2 →
    is_swapped e1 = true → is_swapped e2 = true → slot_of e1 = slot_of e2 → k1 = k2 }.

Lemma sd_present s H : sound s H → ∀ k e, ptes s !! k = Some e → is_present e = true → frame_of e ∈ H.
Proof.
  intros Hs k e Hk Hp. rewrite elem_of_multiplicity.
  assert (length [k] ≤ multiplicity (frame_of e) H)%nat as Hc; [|cbn in Hc; lia].
  apply (sd_counted s H Hs); [apply NoDup_singleton|]. repeat constructor. by exists e.
Qed.

(** Mapping a resident frame once more, as [clone_user_address_space] does for
    copy-on-write and for read-only pages, keeps the invariant. *)
Lemma sound_share s H k k' e e' : sound s H → ptes s !! k = Some e → is_present e = true → ptes s !! k' = None →
  is_u 64 e' → is_present e' = true → frame_of e' = frame_of e → Z.of_nat (multiplicity (frame_of e) H) < 65535 →
  sound (with_sframes (with_ptes s (<[k' := e']> (ptes s))) (frame_ref_inc (sframes s) (frame_of e))) ({[+ frame_of e +]} ⊎ H).
Proof.
  intros Hs Hk Hp Hk' Hu Hp' Hf Hm. pose proof (sd_present s H Hs k e Hk Hp) as Hin.
  assert (is_swapped e' = false) as Hns by (unfold is_swapped; by rewrite Hp').
  destruct Hs as [S1 S2 S2' S3 S4 S5 S6 S7 S8 S10 S11]. split; try done; cbn [ptes sframes with_ptes with_sframes].
  - by apply owned_ref_inc.
  - intros k1 e1. rewrite lookup_insert_Some. intros [[_ <-]|[_ ?]]; [done|eauto].
  - assert (Hold : ∀ f ks, k' ∉ ks → Forall (in_frame (with_sframes (with_ptes s (<[k' := e']> (ptes s))) (frame_ref_inc (sframes s) (frame_of e))) f) ks →
      Forall (in_frame s f) ks).
    { intros f ks Hn Hat. rewrite Forall_forall in *. intros x Hx. destruct (Hat x Hx) as (ex & He & ? & ?). cbn in He.
      rewrite lookup_insert_ne in He by congruence. by exists ex. }
    intros f ks Hks Hat. rewrite multiplicity_disj_union. destruct (decide (k' ∈ ks)) as [Hin'|Hnin]; [|specialize (S8 f ks Hks (Hold f ks Hnin Hat)); lia].
    apply elem_of_Permutation in Hin' as [ks' Hperm]. rewrite Hperm in Hks, Hat |- *. apply NoDup_cons in Hks as [Hnin Hks].
    apply Forall_cons in Hat as [(ex & He & _ & Hfe) Hat]. cbn in He. rewrite lookup_insert_eq in He. injection He as <-.
    specialize (S8 f ks' Hks (Hold f ks' Hnin Hat)). rewrite <- Hfe, Hf, multiplicity_singleton_eq in *. cbn. lia.
  - intros k1 e1. rewrite lookup_insert_Some. intros [[_ <-]|[_ ?]]; [congruence|eauto].
  - intros k1 k2 e1 e2. rewrite !lookup_insert_Some. intros [[_ <-]|[_ ?]] [[_ <-]|[_ ?]] ???; [congruence..|eauto].
Qed.

(** No page is kept in [slot]. *)
Definition vacant s (slot : Z) : Prop :=
  ∀ k e, ptes s !! k = Some e → is_swapped e = true → slot_of e ≠ slot.

(** The step leaves every page's view and every swapped entry alone. *)
Record quiet s s' : Prop := {
  qu_view k : view s' k = view s k;
  qu_keep k e : ptes s !! k = Some e → is_swapped e = true → ptes s' !! k = Some e;
  qu_evict : in_eviction s' = in_eviction s;
  qu_init : initialized s' = initialized s;
  qu_lba : start_lba s' = start_lba s }.

#[local] Instance quiet_refl : Reflexive quiet.
Proof. by intros s. Qed.
#[local] Instance quiet_trans : Transitive quiet.
Proof.
  intros s1 s2 s3 [V1 K1 E1 I1 L1] [V2 K2 E2 I2 L2]. split; [|auto|congruence..].
  intros k. by rewrite V2.
Qed.

Lemma sound_mgr s H m : sound s H → slots_ok m → zlen (tracked_pages m) = MAX_TRACKED_PAGES →
  0 ≤ clock_hand m →
  (∀ k e, ptes s !! k = Some e → is_swapped e = true → used (bitmap m) (slot_of e) = true) →
  sound (with_mgr s m) H ∧ quiet s (with_mgr s m).
Proof. intros [] ????. split; [by split|]. split; done. Qed.

Lemma vacant_unused s H slot : sound s H → used (bitmap (mgr s)) slot = false → vacant s slot.
Proof. intros Hs Hu k e Hk Hsw <-. pose proof (sd_swapped s H Hs k e Hk Hsw). congruence. Qed.

Lemma sector_base_range s H slot : sound s H → 0 ≤ slot < MAX_SWAP_SLOTS →
  sector_base s slot = start_lba s + slot * 8 ∧ 0 ≤ sector_base s slot ∧ sector_base s slot + 8 ≤ 2 ^ 64.
Proof.
  intros Hs Hslot. pose proof (sd_base s H Hs). unfold sector_base, MAX_SWAP_SLOTS in *.
  rewrite wrap_small by (unfold is_u; lia). lia.
Qed.

(** ** Transfers *)

Lemma write_sectors_spec n : ∀ d base page i, length page = 4096%nat → 0 ≤ i → i + Z.of_nat n = 8 →
  0 ≤ base → base + 8 ≤ 2 ^ 64 → (∀ x, length (d x) = 512%nat) →
  let '(d', r) := write_sectors sector_ok n d base page i in
  r ≠ Panic ∧ (∀ x, length (d' x) = 512%nat) ∧ (∀ x, ¬ base + i ≤ x < base + 8 → d' x = d x) ∧
  ((∀ x, sector_ok x = true) → r = Ok ()) ∧
  (r = Ok () → ∀ j, i ≤ j < 8 → d' (base + j) = take 512 (drop (Z.to_nat (j * 512)) page)).
Proof.
  induction n as [|n IH]; intros d base page i Hp Hi Hn Hb Hb2 Hd; cbn [write_sectors].
  { split; [done|]. split; [done|]. split; [done|]. split; [done|]. lia. }
  rewrite slice_in by lia. replace (Z.to_nat ((i + 1) * 512 - i * 512)) with 512%nat by lia.
  set (sec := take 512 _). assert (Hsec : length sec = 512%nat) by (unfold sec; rewrite length_take, length_drop; lia).
  rewrite wrap_small by (unfold is_u; lia). destruct (sector_ok (base + i)) eqn:Hok.
  2:{ split; [done|]. split; [done|]. split; [done|]. split; [intros Hall; by rewrite Hall in Hok|done]. }
  specialize (IH (set_mem d (base + i) sec) base page (i + 1) Hp ltac:(lia) ltac:(lia) Hb Hb2).
  destruct (write_sectors sector_ok n _ base page (i + 1)) as [d' r].
  destruct IH as (Hr & Hl & Ho & Hall & Hw); [intros x; unfold set_mem; by case_decide|].
  split; [done|]. split; [done|]. split; [|split; [done|]].
  - intros x Hx. rewrite Ho by lia. unfold set_mem. rewrite decide_False by lia. done.
  - intros Hr' j Hj. destruct (decide (j = i)) as [->|]; [|apply Hw; [done|lia]].
    rewrite Ho by lia. unfold set_mem. by rewrite decide_True.
Qed.

Lemma slot_page_ext s d' slot H : sound s H → 0 ≤ slot < MAX_SWAP_SLOTS →
  (∀ j, 0 ≤ j < 8 → d' (sector_base s slot + j) = disk s (sector_base s slot + j)) →
  slot_page (with_disk s d') slot = slot_page s slot.
Proof.
  intros Hs Hslot He. destruct (sector_base_range s H slot Hs Hslot) as (_ & ? & ?).
  unfold slot_page. f_equal. apply list_fmap_ext. intros i x Hx.
  apply list_elem_of_lookup_2, elem_of_seqZ in Hx. change (sector_base (with_disk s d') slot) with (sector_base s slot).
  rewrite wrap_small by (unfold is_u; lia). apply He. lia.
Qed.

Lemma slot_of_range e : 0 ≤ slot_of e.
Proof. unfold slot_of. apply Z.land_nonneg. right. lia. Qed.

Lemma swapped_slot_range s H k e : sound s H → ptes s !! k = Some e → is_swapped e = true →
  0 ≤ slot_of e < MAX_SWAP_SLOTS.
Proof.
  intros Hs Hk Hsw. pose proof (used_lt _ _ (sd_swapped s H Hs k e Hk Hsw)) as Hu.
  rewrite (so_len _ (sd_slots s H Hs)) in Hu. change BITMAP_WORDS with 256 in Hu. unfold MAX_SWAP_SLOTS. lia.
Qed.

Lemma write_page_spec s H slot phys : sound s H → 0 ≤ slot < MAX_SWAP_SLOTS → vacant s slot →
  let '(s', r) := write_page_to_disk hhdm sector_ok s slot phys in
  sound s' H ∧ quiet s s' ∧ r ≠ Panic ∧ s' = with_disk s (disk s') ∧
  ((∀ x, sector_ok x = true) → is_Some (phys_to_virt hhdm phys) → r = Ok ()) ∧
  (r = Ok () → slot_page s' slot = smem s phys).
Proof.
  intros Hs Hslot Hv. unfold write_page_to_disk.
  destruct (phys_to_virt hhdm phys) as [v|].
  2:{ split; [done|]. split; [done|]. split; [done|]. split; [by destruct s|]. split; [by intros _ [? ?]|done]. }
  destruct (sector_base_range s H slot Hs Hslot) as (Hbase & Hb0 & Hb8).
  pose proof (sd_mem s H Hs phys) as Hpage.
  pose proof (write_sectors_spec 8 (disk s) _ _ 0 Hpage ltac:(lia) ltac:(lia) Hb0 Hb8 (sd_disk s H Hs)) as Hw.
  destruct (write_sectors sector_ok 8 (disk s) (sector_base s slot) (smem s phys) 0) as [d' r].
  destruct Hw as (Hr & Hl & Ho & Hall & Hc). split; [by destruct Hs; split|]. split; [|split; [done|]].
  - split; [|done..]. intros k. unfold view. change (ptes (with_disk s d')) with (ptes s).
    destruct (ptes s !! k) as [e|] eqn:Hk; [|done]. cbn [mbind option_bind]. destruct (is_present e); [done|].
    destruct (is_swapped e) eqn:Hsw; [|done]. do 2 f_equal.
    pose proof (swapped_slot_range s H k e Hs Hk Hsw) as Hse.
    apply (slot_page_ext _ _ _ H); [done|done|]. intros j Hj. apply Ho.
    destruct (sector_base_range s H _ Hs Hse) as (-> & _). rewrite Hbase.
    specialize (Hv k e Hk Hsw). lia.
  - split; [done|]. split; [auto|]. intros Hok. specialize (Hc Hok). unfold slot_page.
    transitivity (mjoin ((λ j, take 512 (drop (Z.to_nat (j * 512)) (smem s phys))) <$> seqZ 0 (Z.of_nat 8))).
    + f_equal. apply list_fmap_ext. intros i x Hx. apply list_elem_of_lookup_2, elem_of_seqZ in Hx.
      change (sector_base (with_disk s d') slot) with (sector_base s slot).
      rewrite wrap_small by (unfold is_u; lia). apply Hc. lia.
    + rewrite sectors_page by lia. by rewrite drop_0, take_ge by lia.
Qed.

Lemma read_sectors_spec n : ∀ d base page i, length page = 4096%nat → 0 ≤ i → i + Z.of_nat n = 8 →
  (∀ x, length (d x) = 512%nat) →
  let '(page', r) := read_sectors sector_ok n d base page i in
  length page' = 4096%nat ∧ r ≠ Panic ∧ ((∀ x, sector_ok x = true) → r = Ok ()) ∧
  (r = Ok () → page' = splice page (i * 512) (mjoin ((λ j, d (u64 (base + j))) <$> seqZ i (Z.of_nat n)))).
Proof.
  induction n as [|n IH]; intros d base page i Hp Hi Hn Hd; cbn [read_sectors].
  { split; [done|]. split; [done|]. split; [done|]. intros _. unfold splice.
    change (seqZ i (Z.of_nat 0)) with (@nil Z). cbn [fmap list_fmap mjoin list_join app length].
    rewrite Nat.add_0_r. by rewrite take_drop. }
  destruct (sector_ok (u64 (base + i))) eqn:Hok.
  2:{ split; [done|]. split; [done|]. split; [intros Hall; by rewrite Hall in Hok|done]. }
  set (page1 := splice page (i * 512) (d (u64 (base + i)))).
  assert (Hl1 : length page1 = 4096%nat) by (unfold page1; rewrite length_splice; rewrite ?Hd; lia).
  specialize (IH d base page1 (i + 1) Hl1 ltac:(lia) ltac:(lia) Hd).
  destruct (read_sectors sector_ok n d base page1 (i + 1)) as [page' r].
  destruct IH as (Hl & Hr & Hall & Hc). split; [done|]. split; [done|]. split; [done|]. intros Hok'.
  rewrite (Hc Hok'). rewrite (seqZ_cons i (Z.of_nat (S n))) by lia. cbn [fmap list_fmap mjoin list_join].
  replace (Z.pred (Z.of_nat (S n))) with (Z.of_nat n) by lia. replace (Z.succ i) with (i + 1) by lia.
  assert (Hj : zlen (mjoin ((λ j, d (u64 (base + j))) <$> seqZ (i + 1) (Z.of_nat n))) = 512 * Z.of_nat n).
  { clear -Hd. generalize (i + 1). induction n as [|n IHn]; intros m; [done|].
    rewrite seqZ_cons by lia. cbn [fmap list_fmap mjoin list_join].
    replace (Z.pred (Z.of_nat (S n))) with (Z.of_nat n) by lia. rewrite length_app, Hd, Nat2Z.inj_add, IHn. lia. }
  rewrite <- splice_splice; rewrite ?Hd; [|lia|].
  - unfold page1. f_equal. lia.
  - assert (Hle : i * 512 + 512 + 512 * Z.of_nat n ≤ zlen page) by lia. rewrite <- Hj in Hle. exact Hle.
Qed.

Lemma read_page_spec s H slot phys : sound s H →
  let '(s', r) := read_page_from_disk hhdm sector_ok s slot phys in
  s' = with_smem s (smem s') ∧ mem_ok (smem s') ∧ (∀ f, f ≠ phys → smem s' f = smem s f) ∧ r ≠ Panic ∧
  ((∀ x, sector_ok x = true) → is_Some (phys_to_virt hhdm phys) → r = Ok ()) ∧
  (r = Ok () → smem s' phys = slot_page s slot).
Proof.
  intros Hs. unfold read_page_from_disk. destruct (phys_to_virt hhdm phys) as [v|].
  2:{ split; [by destruct s|]. split; [apply Hs|]. split; [done|]. split; [done|]. split; [by intros _ [? ?]|done]. }
  pose proof (sd_mem s H Hs phys) as Hpage.
  pose proof (read_sectors_spec 8 (disk s) (sector_base s slot) _ 0 Hpage ltac:(lia) ltac:(lia) (sd_disk s H Hs)) as Hr.
  destruct (read_sectors sector_ok 8 (disk s) (sector_base s slot) (smem s phys) 0) as [p' r].
  destruct Hr as (Hl & Hnp & Hall & Hc). split; [done|]. split; [by apply set_mem_ok; [apply Hs|]|].
  split; [intros f Hf; cbn; unfold set_mem; by rewrite decide_False|]. split; [done|]. split; [auto|].
  intros Hok. cbn. unfold set_mem. rewrite decide_True by done. rewrite (Hc Hok). unfold slot_page.
  change (Z.of_nat 8) with 8. set (X := mjoin _). change (0 * 512) with 0. rewrite splice_0.
  assert (length X = 4096%nat) as ->.
  { unfold X. change (seqZ 0 8) with [0; 1; 2; 3; 4; 5; 6; 7].
    cbn [fmap list_fmap mjoin list_join]. rewrite !length_app, !(sd_disk s H Hs). done. }
  rewrite drop_ge by lia. by rewrite app_nil_r.
Qed.

(** ** One page out *)

Lemma present_not_swapped e : is_present e = true → is_swapped e = false.
Proof. unfold is_swapped. by intros ->. Qed.

Lemma swap_page_out_spec s H space vaddr slot e : sound s H → 0 ≤ slot < MAX_SWAP_SLOTS →
  vacant s slot → used (bitmap (mgr s)) slot = true →
  ptes s !! (space, page_of vaddr) = Some e → is_present e = true → is_cow e = false →
  let '(s', r) := swap_page_out hhdm sector_ok s space vaddr slot in
  quiet s s' ∧ mgr s' = mgr s ∧ r ≠ Panic ∧
  ((∀ x, sector_ok x = true) → is_Some (phys_to_virt hhdm (frame_of e)) → ∃ f, r = Ok f) ∧
  match r with
  | Ok f => f = frame_of e ∧ sound s' (H ∖ {[+ f +]}) ∧
    ptes s' = <[(space, page_of vaddr) := out_entry e slot]> (ptes s)
  | _ => sound s' H ∧ ptes s' = ptes s
  end.
Proof.
  intros Hs Hslot Hv Hu Hk Hp Hcow. unfold swap_page_out. rewrite Hk.
  fold (frame_of e). fold (out_entry e slot). assert (Hp' : (Z.land e PRESENT =? 0) = false) by (by apply negb_true_iff). rewrite Hp'.
  pose proof (write_page_spec s H slot (frame_of e) Hs Hslot Hv) as Hw.
  destruct (write_page_to_disk hhdm sector_ok s slot (frame_of e)) as [s1 r].
  destruct Hw as (Hs1 & Hq1 & Hnp & Heq & Hall & Hc).
  assert (Hm : mgr s1 = mgr s ∧ ptes s1 = ptes s ∧ smem s1 = smem s ∧ start_lba s1 = start_lba s)
    by (by rewrite Heq). destruct Hm as (Hm & Hpt & Hmem & Hlba).
  destruct r as [[]|[]|]; [| |done].
  2:{ split; [done|]. split; [done|]. split; [done|]. split; [|done].
      intros H1 H2. by specialize (Hall H1 H2). }
  specialize (Hc eq_refl). destruct (out_entry_spec e slot Hslot) as (Ho1 & Ho2 & Ho3 & Ho4).
  assert (Hfr : frame_of e ∈ H) by exact (sd_present s H Hs _ e Hk Hp).
  destruct (owned_free (sframes s1) H (frame_of e) (sd_holds s1 H Hs1) Hfr) as (a' & Ha & Hh').
  cbn [sframes with_ptes]. rewrite Ha. cbn [fst]. set (k := (space, page_of vaddr)) in *.
  set (s' := with_sframes _ a'). assert (Hpt' : ptes s' = <[k := out_entry e slot]> (ptes s)) by (cbn; by rewrite Hpt).
  assert (Hns : is_swapped e = false) by (by apply present_not_swapped).
  split; [|split; [done|split; [done|split; [eauto|]]]].
  - split; [|..].
    + intros k'. rewrite <- (qu_view _ _ Hq1). unfold view. rewrite Hpt', Hpt.
      destruct (decide (k' = k)) as [->|Hne]; [|by rewrite lookup_insert_ne by done].
      rewrite lookup_insert_eq, Hk. cbn [mbind option_bind]. rewrite Ho1, Ho2, Ho3, Ho4.
      rewrite Hp. do 2 f_equal.
      change (slot_page s' slot) with (slot_page s1 slot). rewrite Hc. by rewrite Hmem.
    + intros k' e' Hk' Hsw. rewrite Hpt', lookup_insert_ne; [done|]. intros <-. congruence.
    + apply (qu_evict _ _ Hq1).
    + apply (qu_init _ _ Hq1).
    + apply (qu_lba _ _ Hq1).
  - split; [done|]. split; [|done]. destruct Hs1 as [S1 S2 S2' S3 S4 S5 S6 S7 S8 S10 S11].
    split; [exact S1|exact S2|exact S2'|exact S3|exact S4|exact S5|exact Hh'|..]; rewrite ?Hpt'; rewrite ?Hpt in *.
    + intros k' e'. rewrite lookup_insert_Some. intros [[<- <-]|[? ?]]; [|eauto].
      apply out_entry_word; [eauto|done].
    + intros f ks Hks Hin. assert (Hold : Forall (λ k', k' ≠ k ∧ in_frame s1 f k') ks).
      { eapply Forall_impl; [exact Hin|]. intros k' (e' & He' & Hpr & Hf). rewrite Hpt', lookup_insert_Some in He'.
        destruct He' as [[<- <-]|[Hne Hk']]; [congruence|]. split; [done|]. exists e'. by rewrite Hpt. }
      apply Forall_and in Hold as [Hne Hold]. rewrite multiplicity_difference. destruct (decide (f = frame_of e)) as [->|Hf].
      * rewrite multiplicity_singleton_eq. assert (length (k :: ks) ≤ multiplicity (frame_of e) H)%nat as Hle; [|cbn in Hle; lia].
        apply S8; [constructor; [|done]; intros Hk'; by eapply Forall_forall in Hne|]. constructor; [|done]. exists e. by rewrite Hpt.
      * rewrite multiplicity_singleton_ne by done. specialize (S8 f ks Hks Hold). lia.
    + intros k' e'. rewrite lookup_insert_Some. intros [[<- <-]|[Hne Hk']] Hsw.
      { rewrite Ho3. cbn. by rewrite Hm. } by eapply S10.
    + intros k1 k2 e1 e2. rewrite !lookup_insert_Some.
      intros [[<- <-]|[? Hk1]] [[<- <-]|[? Hk2]] Hw1 Hw2 Hsl; [done| | |by eapply S11].
      * rewrite Ho3 in Hsl. by destruct (Hv k2 e2 Hk2 Hw2).
      * rewrite Ho3 in Hsl. by destruct (Hv k1 e1 Hk1 Hw1).
Qed.

(** ** The clock *)

(** A resident page the clock may evict, and whether it was used lately. *)
Definition evictable s (k : Z * Z) (accessed : bool) : Prop :=
  ∃ e, ptes s !! k = Some e ∧ is_present e = true ∧ is_cow e = false ∧
    (Z.land e ACCESSED =? 0) = negb accessed.

Lemma check_spec s H space vaddr : sound s H →
  let k := (space, page_of vaddr) in
  let '(s', r) := check_and_clear_accessed s space vaddr in
  quiet s s' ∧ sound s' H ∧ mgr s' = mgr s ∧ (∀ slot, vacant s slot → vacant s' slot) ∧
  (∀ k' b, k' ≠ k → evictable s k' b → evictable s' k' b) ∧
  (evictable s k true → evictable s' k false ∧ r = Ok (Some true)) ∧
  (evictable s k false → s' = s ∧ r = Ok (Some false)) ∧
  match r with
  | Ok (Some false) => s' = s ∧ ∃ e, ptes s !! k = Some e ∧ is_present e = true ∧ is_cow e = false
  | Ok _ => True
  | _ => False
  end.
Proof.
  intros Hs k. unfold check_and_clear_accessed. fold k.
  destruct (ptes s !! k) as [e|] eqn:Hk; [destruct (Z.land e PRESENT =? 0) eqn:Hp|].
  - unfold evictable, is_present. do 5 (split; [done|]). split; [|split; [|done]];
      intros (e' & ? & Hp' & _); simplify_eq; by rewrite Hp in Hp'.
  - destruct (Z.land e MAP_COW =? 0) eqn:Hc; cbn [negb].
    2:{ unfold evictable, is_cow. do 5 (split; [done|]). split; [|split; [|done]];
        intros (e' & ? & ? & Hc' & _); simplify_eq; by rewrite Hc in Hc'. }
    assert (Hpr : is_present e = true) by (unfold is_present; by rewrite Hp).
    assert (Hcw : is_cow e = false) by (unfold is_cow; by rewrite Hc).
    destruct (Z.land e ACCESSED =? 0) eqn:Hac; cbn [negb].
    { do 5 (split; [done|]). split; [intros (e' & ? & ? & ? & He'); simplify_eq; by rewrite Hac in He'|].
      split; [done|]. split; [done|]. by exists e. }
    destruct (clear_accessed_spec e (sd_word s H Hs k e Hk)) as (C1 & C2 & C3 & C4 & C5 & C6 & C7 & C8).
    set (e1 := Z.land e (bnot 64 ACCESSED)) in *.
    assert (Hns : is_swapped e = false) by (by apply present_not_swapped).
    assert (Hat : ∀ k' e', <[k := e1]> (ptes s) !! k' = Some e' → ∃ e0, ptes s !! k' = Some e0 ∧
      is_present e' = is_present e0 ∧ is_swapped e' = is_swapped e0 ∧ is_cow e' = is_cow e0 ∧
      frame_of e' = frame_of e0 ∧ slot_of e' = slot_of e0 ∧ is_u 64 e').
    { intros k' e'. rewrite lookup_insert_Some. intros [[<- <-]|[_ Hk']]; [by exists e|].
      exists e'. do 6 (split; [done|]). by eapply sd_word. }
    split; [|split; [|split; [done|split; [|split; [|split; [|split; [|done]]]]]]].
    + split; [|..]; [| |done..].
      * intros k'. unfold view. cbn [ptes with_ptes]. destruct (decide (k' = k)) as [->|?].
        { rewrite lookup_insert_eq, Hk. cbn. by rewrite C1, C4, C6, Hpr. }
        by rewrite lookup_insert_ne.
      * intros k' e' Hk' Hsw. cbn. rewrite lookup_insert_ne; [done|]. intros <-. congruence.
    + destruct Hs as [S1 S2 S2' S3 S4 S5 S6 S7 S8 S10 S11]. split; try done; cbn [ptes with_ptes].
      * intros k' e' (? & ? & ? & ? & ? & ? & ? & ?)%Hat. done.
      * intros f ks Hks Hin. apply S8; [done|]. eapply Forall_impl; [exact Hin|].
        intros k' (e' & (e0 & ? & Hpe & ? & ? & Hfe & _)%Hat & ? & ?). exists e0. by rewrite <- Hpe, <- Hfe.
      * intros k' e' (e0 & ? & ? & -> & ? & ? & -> & ?)%Hat ?. by eapply S10.
      * intros k1 k2 e1' e2' (a1 & ? & ? & -> & ? & ? & -> & ?)%Hat (a2 & ? & ? & -> & ? & ? & -> & ?)%Hat ???.
        by eapply S11.
    + intros slot Hv k' e' (e0 & ? & ? & -> & ? & ? & -> & ?)%Hat ?. by eapply Hv.
    + intros k' b Hne (e' & He' & ?). exists e'. cbn. by rewrite lookup_insert_ne.
    + intros _. split; [|done]. exists e1. cbn. by rewrite lookup_insert_eq, C1, C3, C7.
    + intros (e' & ? & ? & ? & He'). simplify_eq. by rewrite Hac in He'.
  - unfold evictable. do 5 (split; [done|]). split; [|split; [|done]]; intros (e' & ? & _); congruence.
Qed.

Lemma sound_tracked s H t c hand : sound s H → zlen t = MAX_TRACKED_PAGES → 0 ≤ hand →
  sound (with_mgr s (with_tracked (mgr s) t c hand)) H ∧
  quiet s (with_mgr s (with_tracked (mgr s) t c hand)).
Proof.
  intros Hs Ht Hh. apply sound_mgr; [done| |done|done|apply Hs]. by destruct (sd_slots s H Hs).
Qed.

(** Giving the reserved slot back. *)
Lemma sound_release s H slot : sound s H → 0 ≤ slot → vacant s slot →
  sound (with_mgr s (free_slot (mgr s) slot)) H ∧ quiet s (with_mgr s (free_slot (mgr s) slot)) ∧
  ∀ j, used (bitmap (free_slot (mgr s) slot)) j = negb (slot =? j) && used (bitmap (mgr s)) j.
Proof.
  intros Hs Hslot Hv. destruct (free_slot_spec (mgr s) slot (sd_slots s H Hs) Hslot) as (Ho & Hu & Ht & _ & Hh).
  destruct (sound_mgr s H (free_slot (mgr s) slot)) as [? ?];
    [done|done|by rewrite Ht; apply Hs|by rewrite Hh; apply Hs| |done].
  intros k e Hk Hsw. rewrite Hu. pose proof (Hv k e Hk Hsw) as Hne.
  rewrite (sd_swapped s H Hs k e Hk Hsw), andb_true_r. apply negb_true_iff, Z.eqb_neq. congruence.
Qed.

Definition resident s (k : Z * Z) : Prop := ∃ e, ptes s !! k = Some e ∧ is_present e = true.

Lemma quiet_resident s s' k : quiet s s' → resident s' k → resident s k.
Proof.
  intros [Hv Hkeep _ _ _] (e & He & Hp). specialize (Hv k). unfold view in Hv. rewrite He in Hv.
  cbn [mbind option_bind] in Hv. rewrite Hp in Hv.
  destruct (ptes s !! k) as [e0|] eqn:He0; cbn [mbind option_bind] in Hv; [|done].
  destruct (is_present e0) eqn:Hp0; [by exists e0|]. destruct (is_swapped e0) eqn:Hsw; [|done].
  assert (is_present e = false); [|congruence]. specialize (Hkeep k e0 He0 Hsw). congruence.
Qed.

(** What an eviction started with the reserved [slot] ends in. *)
Definition evicted s s' (slot : Z) (r : res unit Z) : Prop :=
  quiet s s' ∧ (∃ H', sound s' H') ∧
  match r with
  | Ok x => x = slot ∧ (∀ j, used (bitmap (mgr s')) j = used (bitmap (mgr s)) j) ∧
    ∃ k e, resident s k ∧ ptes s' !! k = Some e ∧ is_swapped e = true ∧ slot_of e = slot
  | Err _ => ∀ j, used (bitmap (mgr s')) j = negb (slot =? j) && used (bitmap (mgr s)) j
  | Panic => False
  end.

Lemma evicted_step s s1 s2 slot r : quiet s s1 → bitmap (mgr s1) = bitmap (mgr s) →
  evicted s1 s2 slot r → evicted s s2 slot r.
Proof.
  intros Hq Hb (Hq2 & Hs2 & Hr). split; [by etrans|]. split; [done|]. rewrite Hb in Hr.
  destruct r as [x|[]|]; [|done|done]. destruct Hr as (-> & Hu & k & e & Hres & He).
  split; [done|]. split; [done|]. exists k, e. split; [by eapply quiet_resident|done].
Qed.

Lemma tracked_index s H i : sound s H → is_Some (index (tracked_pages (mgr s)) (i mod MAX_TRACKED_PAGES)).
Proof.
  intros Hs. pose proof (sd_tracked s H Hs) as Ht. pose proof (Z.mod_pos_bound i MAX_TRACKED_PAGES ltac:(done)).
  unfold index. rewrite bool_decide_true by lia. apply lookup_lt_is_Some. lia.
Qed.

(** The device accepts every sector and the frames are mapped. *)
Definition working H : Prop :=
  (∀ x, sector_ok x = true) ∧ ∀ f, f ∈ H → is_Some (phys_to_virt hhdm f).

(** One step of the scan on the page at [target]: it is evicted to the slot,
    or the attempt fails and the slot is given back. *)
Lemma evict_target s H slot space vaddr : sound s H → 0 ≤ slot < MAX_SWAP_SLOTS → vacant s slot →
  used (bitmap (mgr s)) slot = true →
  (∃ e, ptes s !! (space, page_of vaddr) = Some e ∧ is_present e = true ∧ is_cow e = false) →
  let '(s', r) := match swap_page_out hhdm sector_ok s space vaddr slot with
    | (s, Ok _) => (s, Ok slot)
    | (s, Err _) => (with_mgr s (free_slot (mgr s) slot), Err ())
    | (s, Panic) => (s, Panic)
    end in
  evicted s s' slot r ∧
  (working H → r = Ok slot).
Proof.
  intros Hs Hslot Hv Hu (e & Hk & Hp & Hc).
  pose proof (swap_page_out_spec s H space vaddr slot e Hs Hslot Hv Hu Hk Hp Hc) as Ho.
  destruct (swap_page_out hhdm sector_ok s space vaddr slot) as [s1 r].
  destruct Ho as (Hq & Hm & Hnp & Hall & Ho).
  assert (Hlive : working H → ∃ f, r = Ok f).
  { intros [Hok Hmap]. apply Hall; [done|]. apply Hmap. exact (sd_present s H Hs _ e Hk Hp). }
  destruct r as [f|er|]; [| |done].
  - destruct Ho as (-> & Hs1 & Hpt). split; [|done]. split; [done|]. split; [eauto|]. split; [done|].
    split; [by rewrite Hm|]. destruct (out_entry_spec e slot Hslot) as (_ & Ho2 & Ho3 & _).
    exists (space, page_of vaddr), (out_entry e slot). split; [by exists e|]. by rewrite Hpt, lookup_insert_eq.
  - destruct Ho as (Hs1 & Hpt). split; [|intros Hok; by destruct (Hlive Hok)].
    destruct (sound_release s1 H slot Hs1 ltac:(lia)) as (Hs2 & Hq2 & Hu2); [intros k'; rewrite Hpt; apply Hv|].
    split; [by etrans|]. split; [eauto|]. intros j. cbn. rewrite Hu2. by rewrite Hm.
Qed.

(** Some tracked page is evicted within [n] steps: the hand reaches it, once
    more after a full turn if it was used lately. *)
Definition due s (n : Z) : Prop :=
  ∃ i t acc, index (tracked_pages (mgr s)) i = Some (Some t) ∧
    evictable s (tp_space t, page_of (tp_vaddr t)) acc ∧ i < MAX_TRACKED_PAGES ∧
    (i - clock_hand (mgr s)) mod MAX_TRACKED_PAGES + (if acc then MAX_TRACKED_PAGES else 0) < n.

Lemma hand_step i hand : 0 ≤ i < MAX_TRACKED_PAGES → i ≠ hand mod MAX_TRACKED_PAGES →
  (i - (hand + 1) mod MAX_TRACKED_PAGES) mod MAX_TRACKED_PAGES = (i - hand) mod MAX_TRACKED_PAGES - 1.
Proof.
  unfold MAX_TRACKED_PAGES. intros Hi Hne. rewrite Zminus_mod_idemp_r.
  replace (i - (hand + 1)) with (i - hand - 1) by lia.
  assert ((i - hand) mod 512 ≠ 0).
  { intros Hz. apply Hne. apply Z.mod_divide in Hz as [q Hq]; [|done].
    replace hand with (i + (- q) * 512) by lia. rewrite Z_mod_plus_full, Z.mod_small by lia. done. }
  rewrite <- (Zminus_mod_idemp_l (i - hand)). apply Z.mod_small.
  pose proof (Z.mod_pos_bound (i - hand) 512). lia.
Qed.

Lemma due_next s hand n i t (acc acc' : bool) : index (tracked_pages (mgr s)) i = Some (Some t) →
  evictable s (tp_space t, page_of (tp_vaddr t)) acc' → (acc' = true → acc = true) →
  i < MAX_TRACKED_PAGES → i ≠ hand mod MAX_TRACKED_PAGES →
  clock_hand (mgr s) = (hand + 1) mod MAX_TRACKED_PAGES →
  (i - hand) mod MAX_TRACKED_PAGES + (if acc then MAX_TRACKED_PAGES else 0) < Z.of_nat (S n) →
  due s (Z.of_nat n).
Proof.
  intros Hi He Ha Hlt Hne Hh Hd. exists i, t, acc'. split; [done|]. split; [done|]. split; [done|].
  assert (0 ≤ i) by (by apply index_Some in Hi as [? _]). rewrite Hh, hand_step by done.
  unfold MAX_TRACKED_PAGES in *. destruct acc, acc'; intuition lia.
Qed.

(** A page that gets its second chance is reached again within a turn. *)
Lemma due_second_chance s s1 hand n i t t' acc :
  let k := (tp_space t, page_of (tp_vaddr t)) in
  let idx := hand mod MAX_TRACKED_PAGES in
  (∀ k' b, k' ≠ k → evictable s k' b → evictable s1 k' b) → (evictable s k true → evictable s1 k false) →
  ¬ evictable s k false →
  tracked_pages (mgr s1) = tracked_pages (mgr s) → clock_hand (mgr s1) = (hand + 1) mod MAX_TRACKED_PAGES →
  index (tracked_pages (mgr s)) idx = Some (Some t) → index (tracked_pages (mgr s)) i = Some (Some t') →
  evictable s (tp_space t', page_of (tp_vaddr t')) acc → i < MAX_TRACKED_PAGES →
  (i - hand) mod MAX_TRACKED_PAGES + (if acc then MAX_TRACKED_PAGES else 0) < Z.of_nat (S n) →
  due s1 (Z.of_nat n).
Proof.
  intros k idx Hother Htrue Hfalse Ht1 Hh1 Ht Hi Hev Hlt Hd.
  assert (Hix : 0 ≤ idx < MAX_TRACKED_PAGES) by (apply Z.mod_pos_bound; done).
  destruct (decide ((tp_space t', page_of (tp_vaddr t')) = k)) as [He|He].
  - rewrite He in Hev. destruct acc; [|done]. specialize (Htrue Hev).
    destruct (decide (i = idx)) as [->|Hne].
    + exists idx, t', false. rewrite Ht1, He, Hh1. split; [done|]. split; [done|]. split; [lia|].
      assert (Hz : (idx - hand) mod MAX_TRACKED_PAGES = 0).
      { unfold idx. rewrite Zminus_mod_idemp_l. by rewrite Z.sub_diag. }
      rewrite Hz in Hd. assert ((idx - (hand + 1) mod MAX_TRACKED_PAGES) mod MAX_TRACKED_PAGES < MAX_TRACKED_PAGES)
        by (apply Z.mod_pos_bound; done). lia.
    + eapply (due_next s1 hand n i t' true false); try done; [by rewrite Ht1|by rewrite He].
  - assert (Hne : i ≠ idx) by (intros ->; unfold k in He; congruence).
    eapply (due_next s1 hand n i t' acc acc); try done; [by rewrite Ht1|by apply Hother].
Qed.

Lemma clock_scan_spec slot n : ∀ s H, sound s H → 0 ≤ slot < MAX_SWAP_SLOTS → vacant s slot →
  used (bitmap (mgr s)) slot = true →
  let '(s', r) := clock_scan hhdm sector_ok n s slot in
  evicted s s' slot r ∧ (working H → due s (Z.of_nat n) → r = Ok slot).
Proof.
  induction n as [|n IH]; intros s H Hs Hslot Hv Hu; cbn [clock_scan].
  { destruct (sound_release s H slot Hs ltac:(lia) Hv) as (? & ? & ?). split; [repeat split; eauto|].
    intros _ (i & t & acc & _ & _ & _ & Hd). pose proof (Z.mod_pos_bound (i - clock_hand (mgr s)) MAX_TRACKED_PAGES ltac:(done)).
    unfold MAX_TRACKED_PAGES in *. destruct acc; lia. }
  set (hand := clock_hand (mgr s)) in *. set (idx := hand mod MAX_TRACKED_PAGES).
  set (s0 := with_mgr s _). assert (Hs0 : sound s0 H ∧ quiet s s0).
  { apply sound_tracked; [done|apply Hs|apply Z.mod_pos_bound; done]. }
  destruct Hs0 as [Hs0 Hq0]. destruct (tracked_index s0 H hand Hs0) as [[t|] Ht]; fold idx in Ht; rewrite Ht.
  2:{ specialize (IH s0 H Hs0 Hslot Hv Hu). destruct (clock_scan hhdm sector_ok n s0 slot) as [s' r].
      destruct IH as [IH1 IH2]. split; [eapply evicted_step; [exact Hq0|done|exact IH1]|].
      intros Hw (i & t' & acc & Hi & Hev & Hlt & Hd). apply IH2; [done|].
      eapply (due_next s0 hand n i t' acc acc); try done. intros ->. cbn in Ht. fold idx in Hi. congruence. }
  pose proof (check_spec s0 H (tp_space t) (tp_vaddr t) Hs0) as Hck. cbv zeta in Hck.
  destruct (check_and_clear_accessed s0 (tp_space t) (tp_vaddr t)) as [s1 rc].
  destruct Hck as (Hq1 & Hs1 & Hm1 & Hv1 & Hother & Htrue & Hfalse & Hrc).
  assert (Hev0 : ∀ k b, evictable s k b → evictable s0 k b) by done.
  assert (Hix : 0 ≤ idx < MAX_TRACKED_PAGES) by (apply Z.mod_pos_bound; done).
  destruct rc as [[[]|]|er|]; [| | |done|done].
  - specialize (IH s1 H Hs1 Hslot (Hv1 slot Hv)). rewrite Hm1 in IH. specialize (IH Hu).
    destruct (clock_scan hhdm sector_ok n s1 slot) as [s' r]. destruct IH as [IH1 IH2].
    split; [eapply evicted_step; [by transitivity s0| |exact IH1]; by rewrite Hm1|].
    intros Hw (i & t' & acc & Hi & Hev%Hev0 & Hlt & Hd). apply IH2; [done|].
    eapply (due_second_chance s0 s1 hand n i t t' acc); try done; [|by intros [_ ?]%Hfalse|by rewrite Hm1..].
    by intros [? _]%Htrue.
  - destruct Hrc as [-> Hex]. set (s2 := with_mgr s0 _).
    assert (Hs2 : sound s2 H ∧ quiet s0 s2).
    { apply sound_tracked; [done|rewrite length_insert; apply Hs|apply Hs0]. }
    destruct Hs2 as [Hs2 Hq2].
    pose proof (evict_target s2 H slot (tp_space t) (tp_vaddr t) Hs2 Hslot Hv Hu Hex) as He.
    destruct (swap_page_out hhdm sector_ok s2 (tp_space t) (tp_vaddr t) slot) as [s3 [f|e3|]];
      destruct He as [He Hok]; (split; [eapply evicted_step; [by transitivity s0| |exact He]; done|auto]).
  - set (s2 := with_mgr s1 _). assert (Hs2 : sound s2 H ∧ quiet s1 s2).
    { apply sound_mgr; [done|by destruct (sd_slots s H Hs)|cbn; rewrite length_insert; apply Hs|apply Hs0|].
      intros k e Hk Hsw. pose proof (sd_swapped s1 H Hs1 k e Hk Hsw) as Hx. by rewrite Hm1 in Hx. }
    destruct Hs2 as [Hs2 Hq2].
    specialize (IH s2 H Hs2 Hslot (Hv1 slot Hv) Hu). destruct (clock_scan hhdm sector_ok n s2 slot) as [s' r].
    destruct IH as [IH1 IH2]. split; [eapply evicted_step; [transitivity s0; [done|by transitivity s1]| |exact IH1]; done|].
    intros Hw (i & t' & acc & Hi & Hev%Hev0 & Hlt & Hd). apply IH2; [done|].
    assert (Hke : (tp_space t', page_of (tp_vaddr t')) ≠ (tp_space t, page_of (tp_vaddr t))).
    { intros He. rewrite He in Hev. destruct acc; [by destruct (Htrue Hev)|by destruct (Hfalse Hev)]. }
    assert (Hne : i ≠ idx) by (intros ->; cbn in Ht; congruence).
    eapply (due_next s2 hand n i t' acc acc); try done; [|by apply (Hother _ acc)].
    apply index_Some in Hi as [? Hi]. apply index_Some. split; [done|]. cbn.
    rewrite list_lookup_insert_ne; [done|]. intros ?%Z2Nat.inj; lia.
Qed.

(** Reserving the lowest free slot. *)
Lemma sound_reserve s H : sound s H →
  match alloc_slot (mgr s) with
  | (m, Some slot) => 0 ≤ slot < MAX_SWAP_SLOTS ∧ used (bitmap (mgr s)) slot = false ∧
    sound (with_mgr s m) H ∧ quiet s (with_mgr s m) ∧ vacant s slot ∧
    (∀ j, used (bitmap m) j = (slot =? j) || used (bitmap (mgr s)) j) ∧
    tracked_pages m = tracked_pages (mgr s) ∧ clock_hand m = clock_hand (mgr s)
  | (m, None) => m = mgr s ∧ ∀ j, 0 ≤ j < MAX_SWAP_SLOTS → used (bitmap (mgr s)) j = true
  end.
Proof.
  intros Hs. pose proof (alloc_slot_spec (mgr s) (sd_slots s H Hs)) as Ha.
  destruct (alloc_slot (mgr s)) as [m [slot|]]; [|done].
  destruct Ha as (Ho & Hr & Hf & _ & Hu & Ht & _ & Hh).
  destruct (sound_mgr s H m) as [? ?]; [done|done|by rewrite Ht; apply Hs|by rewrite Hh; apply Hs| |].
  { intros k e Hk Hsw. rewrite Hu, (sd_swapped s H Hs k e Hk Hsw). apply orb_true_r. }
  split; [done|]. split; [done|]. split; [done|]. split; [done|]. split; [by eapply vacant_unused|done].
Qed.

Lemma evict_spec s H : sound s H →
  let '(s', r) := evict_page_clock hhdm sector_ok s in
  quiet s s' ∧ (∃ H', sound s' H') ∧
  match r with
  | Ok slot => used (bitmap (mgr s)) slot = false ∧
    (∀ j, used (bitmap (mgr s')) j = (slot =? j) || used (bitmap (mgr s)) j) ∧
    ∃ k e, resident s k ∧ ptes s' !! k = Some e ∧ is_swapped e = true ∧ slot_of e = slot
  | Err _ => ∀ j, used (bitmap (mgr s')) j = used (bitmap (mgr s)) j
  | Panic => False
  end ∧
  (initialized s = true → in_eviction s = false → tracked_count (mgr s) ≠ 0 → working H →
   due s (2 * MAX_TRACKED_PAGES) → (∃ j, 0 ≤ j < MAX_SWAP_SLOTS ∧ used (bitmap (mgr s)) j = false) →
   ∃ slot, r = Ok slot).
Proof.
  intros Hs. unfold evict_page_clock. destruct (initialized s) eqn:Hin; cbn [negb].
  2:{ split; [done|]. split; [eauto|]. done. }
  destruct (in_eviction s) eqn:Hev; [split; [done|]; split; [eauto|]; done|].
  set (s0 := with_eviction s true). change (mgr s0) with (mgr s).
  assert (Hback : ∀ x, sound x H → sound (with_eviction x false) H) by (by intros x []).
  destruct (Z.eqb_spec (tracked_count (mgr s)) 0) as [Hz|Hz].
  { split; [by split|]. split; [exists H; by destruct Hs|]. done. }
  pose proof (sound_reserve s H Hs) as Hr. destruct (alloc_slot (mgr s)) as [m [slot|]].
  2:{ destruct Hr as [-> Hfull]. split; [by split|]. split; [exists H; by destruct Hs|]. split; [done|].
      intros _ _ _ _ _ (j & Hj & Hu). by rewrite Hfull in Hu. }
  destruct Hr as (Hslot & Hfree & Hsm & Hqm & Hvac & Hu & Ht & Hh).
  assert (Hs1 : sound (with_mgr s0 m) H) by (by destruct Hsm).
  pose proof (clock_scan_spec slot (Z.to_nat (MAX_TRACKED_PAGES * 2)) (with_mgr s0 m) H Hs1 Hslot Hvac) as Hc.
  specialize (Hc ltac:(cbn; rewrite Hu, Z.eqb_refl; done)).
  destruct (clock_scan hhdm sector_ok (Z.to_nat (MAX_TRACKED_PAGES * 2)) (with_mgr s0 m) slot) as [s2 r].
  destruct Hc as [(Hq & [H2 Hs2] & Hres) Hlive]. split.
  { destruct Hq as [Q1 Q2 Q3 Q4 Q5]. split; [exact Q1|exact Q2|by rewrite Hev|exact Q4|exact Q5]. }
  split; [exists H2; by destruct Hs2|]. split.
  - destruct r as [x|[]|]; [|intros j; cbn; rewrite Hres; cbn; rewrite Hu|done].
    + destruct Hres as (-> & Hb & k & e & Hk). split; [done|]. split; [intros j; cbn; rewrite Hb; apply Hu|].
      by exists k, e.
    + destruct (Z.eqb_spec slot j) as [<-|]; cbn; [by rewrite Hfree|done].
  - intros _ _ _ Hw (i & t & acc & D1 & D2 & D3 & D4) _. exists slot. apply Hlive; [done|].
    exists i, t, acc. cbn. rewrite Ht, Hh. done.
Qed.

(** C22: The clock eviction started by memory pressure, on every branch: it
    never panics, it changes neither the bytes nor the permissions of any
    page, resident or swapped out, and it releases the eviction guard.  On
    success exactly one more slot is used, it was free, and a page that was
    resident is now kept there; on failure the slots are those of before. *)
Theorem evict_page_clock_invisible s H : sound s H →
  let '(s', r) := evict_page_clock hhdm sector_ok s in
  (∃ H', sound s' H') ∧ (∀ k, view s' k = view s k) ∧ in_eviction s' = in_eviction s ∧
  match r with
  | Ok slot => used (bitmap (mgr s)) slot = false ∧
    (∀ j, used (bitmap (mgr s')) j = (slot =? j) || used (bitmap (mgr s)) j) ∧
    ∃ k e, resident s k ∧ ptes s' !! k = Some e ∧ is_swapped e = true ∧ slot_of e = slot
  | Err _ => ∀ j, used (bitmap (mgr s')) j = used (bitmap (mgr s)) j
  | Panic => False
  end.
Proof.
  intros Hs. pose proof (evict_spec s H Hs) as He. destruct (evict_page_clock hhdm sector_ok s) as [s' r].
  destruct He as ([Hv _ He _ _] & Hs' & Hr & _). done.
Qed.

(** C37: Eviction makes progress: when swap is set up and not already
    evicting, one resident page that is not shared copy-on-write is tracked,
    a slot is free, the device accepts writes and the frames are mapped,
    [evict_page_clock] succeeds.  Its two turns of the clock are enough even
    if every page was used since the last scan. *)
Theorem evict_page_clock_progress s H i t e : sound s H → initialized s = true → in_eviction s = false →
  tracked_count (mgr s) ≠ 0 → working H →
  index (tracked_pages (mgr s)) i = Some (Some t) →
  ptes s !! (tp_space t, page_of (tp_vaddr t)) = Some e → is_present e = true → is_cow e = false →
  (∃ j, 0 ≤ j < MAX_SWAP_SLOTS ∧ used (bitmap (mgr s)) j = false) →
  ∃ slot, (evict_page_clock hhdm sector_ok s).2 = Ok slot.
Proof.
  intros Hs Hin Hev Hc Hw Hi He Hp Hcow Hfree. pose proof (evict_spec s H Hs) as Hx.
  destruct (evict_page_clock hhdm sector_ok s) as [s' r]. destruct Hx as (_ & _ & _ & Hlive).
  apply Hlive; try done. exists i, t, (negb (Z.land e ACCESSED =? 0)). split; [done|]. split.
  { exists e. by rewrite negb_involutive. }
  apply index_Some in Hi as [Hi0 Hi]. apply lookup_lt_Some in Hi. pose proof (sd_tracked s H Hs).
  split; [lia|]. pose proof (Z.mod_pos_bound (i - clock_hand (mgr s)) MAX_TRACKED_PAGES ltac:(done)).
  unfold MAX_TRACKED_PAGES in *. case_match; lia.
Qed.

(** ** Page-in *)

Context (low_watermark : Z) (free_count : A → Z) (evict_clean : A → A).
(** The page cache gives back its own references only. *)
Context (Hclean : ∀ a H, owned a H → owned (evict_clean a) H).

Lemma sound_frames s H a H' : sound s H → owned a H' → H ⊆ H' →
  sound (with_sframes s a) H' ∧ quiet s (with_sframes s a).
Proof.
  intros [S1 S2 S2' S3 S4 S5 S6 S7 S8 S10 S11] Ha Hsub. split; [|by split]. split; try done.
  intros f ks Hks Hin. etrans; [by apply S8|apply Hsub].
Qed.

Lemma evict_some_spec s H : sound s H →
  quiet s (evict_some hhdm sector_ok evict_clean s) ∧ ∃ H', sound (evict_some hhdm sector_ok evict_clean s) H'.
Proof.
  intros Hs. unfold evict_some.
  destruct (sound_frames s H (evict_clean (sframes s)) H Hs) as [Hs1 Hq1]; [by apply Hclean, Hs|done|].
  pose proof (evict_spec _ H Hs1) as He. destruct (evict_page_clock _ _ _) as [s' r].
  destruct He as (Hq & Hs' & _). split; [by etrans|done].
Qed.

(** The frame handed out, under pressure or not, is none of the frames in use. *)
Lemma alloc_pressure_spec s H : sound s H →
  let '(s', r) := alloc_frame_pressure hhdm sector_ok low_watermark free_count evict_clean s in
  quiet s s' ∧ ∃ H', match r with
  | Some f => f ∉ H' ∧ sound s' ({[+ f +]} ⊎ H') ∧ ∀ k e, ptes s' !! k = Some e → is_present e = true → frame_of e ∈ H'
  | None => sound s' H'
  end.
Proof.
  intros Hs. unfold alloc_frame_pressure. set (s0 := if _ && _ then _ else s).
  assert (H0 : quiet s s0 ∧ ∃ H', sound s0 H').
  { unfold s0. case_match; [by eapply evict_some_spec|split; [done|eauto]]. }
  destruct H0 as [Hq0 [H0 Hs0]].
  assert (Hgo : ∀ x Hx, sound x Hx → let '(a, r) := alloc_frame (sframes x) in
    quiet x (with_sframes x a) ∧ ∃ H', match r with
    | Some f => f ∉ H' ∧ sound (with_sframes x a) ({[+ f +]} ⊎ H') ∧
      ∀ k e, ptes (with_sframes x a) !! k = Some e → is_present e = true → frame_of e ∈ H'
    | None => sound (with_sframes x a) H' end).
  { intros x Hx Hsx. destruct (alloc_frame (sframes x)) as [a [f|]] eqn:Ha.
    - destruct (owned_alloc_some _ Hx a f (sd_holds x Hx Hsx) Ha) as [Hf Hh].
      destruct (sound_frames x Hx a ({[+ f +]} ⊎ Hx) Hsx Hh) as [? ?]; [apply gmultiset_disj_union_subseteq_r|].
      split; [done|]. exists Hx. split; [done|]. split; [done|]. apply (sd_present x Hx Hsx).
    - pose proof (owned_alloc_none _ Hx a (sd_holds x Hx Hsx) Ha) as Hh.
      destruct (sound_frames x Hx a Hx Hsx Hh) as [? ?]; [done|]. eauto. }
  pose proof (Hgo s0 H0 Hs0) as Hg. destruct (alloc_frame (sframes s0)) as [a [f|]].
  { destruct Hg as [Hq Hg]. split; [by etrans|done]. }
  destruct Hg as [Hq1 [H1 Hs1]]. destruct (0 <? low_watermark); [|split; [by etrans|eauto]].
  destruct (evict_some_spec _ H1 Hs1) as [Hq2 [H2 Hs2]]. pose proof (Hgo _ H2 Hs2) as Hg.
  destruct (alloc_frame _) as [a' r]. destruct Hg as [Hq3 Hg]. split; [|done].
  etrans; [exact Hq0|]. etrans; [exact Hq1|]. by etrans.
Qed.

Lemma track_page_fields m space v :
  bitmap (track_page m space v) = bitmap m ∧ used_slots (track_page m space v) = used_slots m ∧
  length (tracked_pages (track_page m space v)) = length (tracked_pages m) ∧
  clock_hand (track_page m space v) = clock_hand m.
Proof.
  unfold track_page. case_match; [done|]. case_match; [|done]. case_match. cbn. by rewrite length_insert.
Qed.

(** Storing [f]'s new contents and pointing the swapped entry at it. *)
Lemma page_in_sound s H k e f page m : sound s ({[+ f +]} ⊎ H) → f ∉ H →
  (∀ k e, ptes s !! k = Some e → is_present e = true → frame_of e ∈ H) →
  ptes s !! k = Some e → is_swapped e = true → page = slot_page s (slot_of e) →
  mem_ok m → m f = page → (∀ g, g ≠ f → m g = smem s g) →
  let s' := with_ptes (with_smem s m) (<[k := in_entry e f]> (ptes s)) in
  sound s' ({[+ f +]} ⊎ H) ∧ (∀ k', view s' k' = view s k') ∧ vacant s' (slot_of e).
Proof.
  intros Hs Hf Hpr Hk Hsw -> Hm Hmf Hmo s'.
  destruct (owned_address (sframes s) ({[+ f +]} ⊎ H) f (sd_holds s _ Hs)) as [Hf36 Hfa]; [multiset_solver|].
  assert (Hf52 : 0 ≤ f < 2 ^ 52) by lia.
  destruct (in_entry_spec e f Hf52 Hfa) as (I1 & I2 & I3).
  assert (Hns : is_swapped (in_entry e f) = false) by (by apply present_not_swapped).
  pose proof (sd_counted s _ Hs) as S8. destruct Hs as [S1 S2 S2' S3 S4 S5 S6 S7 _ S10 S11]. split; [|split].
  - split; try done; cbn [ptes with_ptes with_smem s'].
    + intros k' e'. rewrite lookup_insert_Some. intros [[<- <-]|[_ ?]]; [|by eapply S7].
      apply in_entry_word; [by eapply S7|done].
    + intros g ks Hks Hin. destruct (decide (g = f)) as [->|Hg].
      * assert (Hone : Forall (λ k', k' = k) ks).
        { eapply Forall_impl; [exact Hin|]. intros k' (e' & He' & Hpe & Hfe). cbn in He'. rewrite lookup_insert_Some in He'.
          destruct He' as [[<- _]|[_ Hk']]; [done|]. destruct Hf. rewrite <- Hfe. by eapply Hpr. }
        rewrite multiplicity_disj_union, multiplicity_singleton_eq. destruct ks as [|k1 [|k2 ks]]; cbn; [lia|lia|].
        apply Forall_cons in Hone as [-> [-> _]%Forall_cons]. apply NoDup_cons in Hks as [Hks _]. destruct Hks. by left.
      * apply S8; [done|]. eapply Forall_impl; [exact Hin|]. intros k' (e' & He' & Hpe & Hfe). cbn in He'. rewrite lookup_insert_Some in He'.
        destruct He' as [[<- <-]|[_ Hk']]; [congruence|]. by exists e'.
    + intros k' e'. rewrite lookup_insert_Some. intros [[<- <-]|[_ ?]] ?; [congruence|by eapply S10].
    + intros k1 k2 e1 e2. rewrite !lookup_insert_Some.
      intros [[<- <-]|[? Hk1]] [[<- <-]|[? Hk2]] ???; [done|congruence|congruence|by eapply S11].
  - intros k'. unfold view. cbn [ptes with_ptes with_smem s']. destruct (decide (k' = k)) as [->|Hne].
    + rewrite lookup_insert_eq, Hk. cbn [mbind option_bind]. rewrite I1, I2, I3.
      assert (is_present e = false) as -> by (unfold is_swapped in Hsw; by destruct (is_present e)).
      rewrite Hsw. cbn. by rewrite Hmf.
    + rewrite lookup_insert_ne by done. destruct (ptes s !! k') as [e'|] eqn:Hk'; [|done].
      cbn [mbind option_bind]. destruct (is_present e') eqn:Hp'; [|done].
      cbn. rewrite Hmo; [done|]. intros Heq. apply Hf. rewrite <- Heq. by eapply Hpr.
  - intros k' e'. cbn [ptes with_ptes with_smem s']. rewrite lookup_insert_Some.
    intros [[<- <-]|[Hne ?]] Hsw' Hsl; [congruence|]. apply Hne. symmetry. by eapply S11.
Qed.

(** A page-in that fails half-way leaves the unused frame with other bytes. *)
Lemma page_in_failed s H f m : sound s ({[+ f +]} ⊎ H) → f ∉ H →
  (∀ k e, ptes s !! k = Some e → is_present e = true → frame_of e ∈ H) →
  mem_ok m → (∀ g, g ≠ f → m g = smem s g) →
  let s' := with_sframes (with_smem s m) (free_frame (sframes s) f).1 in
  quiet s s' ∧ sound s' H.
Proof.
  intros Hs Hf Hpr Hm Hmo s'.
  destruct (owned_free (sframes s) ({[+ f +]} ⊎ H) f (sd_holds s _ Hs)) as (a' & Ha & Hh); [multiset_solver|].
  replace (({[+ f +]} ⊎ H) ∖ {[+ f +]}) with H in Hh by multiset_solver. unfold s'. rewrite Ha.
  assert (Hcount : ∀ g ks, NoDup ks → Forall (in_frame s g) ks → (length ks ≤ multiplicity g H)%nat).
  { intros g ks Hks Hin. pose proof (sd_counted s _ Hs g ks Hks Hin) as Hc. rewrite multiplicity_disj_union in Hc.
    destruct (decide (g = f)) as [->|Hg]; [|rewrite multiplicity_singleton_ne in Hc by done; lia].
    destruct ks as [|k1 ks]; [cbn; lia|]. apply Forall_cons in Hin as [(e & He & Hp & Hfe) _]. destruct Hf. rewrite <- Hfe. by eapply Hpr. }
  destruct Hs as [S1 S2 S2' S3 S4 S5 S6 S7 S8 S10 S11]. split; [|by split].
  split; try done. intros k'. unfold view. cbn [ptes with_smem with_sframes].
  destruct (ptes s !! k') as [e'|] eqn:Hk'; [|done]. cbn [mbind option_bind].
  destruct (is_present e') eqn:Hp'; [|done]. cbn. rewrite Hmo; [done|].
  intros Heq. apply Hf. rewrite <- Heq. by eapply Hpr.
Qed.

(** C15: Page-in, on every branch and with the evictions its allocation may
    start, from a [sound] state: every resident page's reference to its frame
    is counted, and references of the page cache are the cache's own, so that
    its eviction of clean pages takes none of the page tables'
    ([evict_clean_owned] proves this of [evict_clean_pages]; a file page mapped
    without a reference of its own, as [get_or_fetch_frame] leaves it, is
    outside this, see [mapped_frame_reallocated]).  It never panics and changes
    neither the bytes nor the permissions of any page.  It declines exactly
    when the page is not swapped out; when it succeeds the page is resident
    with the permissions it had, its slot is free again and no page is kept
    there. *)
Theorem resolve_swapped_page_invisible s H space vaddr : sound s H →
  let k := (space, page_of vaddr) in
  let '(s', r) := resolve_swapped_page hhdm sector_ok low_watermark free_count evict_clean s space vaddr in
  (∃ H', sound s' H') ∧ (∀ k', view s' k' = view s k') ∧
  match r with
  | Ok false => s' = s ∧ ∀ e, ptes s !! k = Some e → is_swapped e = false
  | Ok true => ∃ e e', ptes s !! k = Some e ∧ is_swapped e = true ∧ ptes s' !! k = Some e' ∧
      is_present e' = true ∧ perms e' = perms e ∧
      vacant s' (slot_of e) ∧ used (bitmap (mgr s')) (slot_of e) = false
  | Err _ => ∃ e, ptes s !! k = Some e ∧ is_swapped e = true ∧ ptes s' !! k = Some e
  | Panic => False
  end.
Proof.
  intros Hs k. unfold resolve_swapped_page. fold k.
  destruct (ptes s !! k) as [e|] eqn:Hk.
  2:{ split; [eauto|]. split; [done|]. split; [done|]. congruence. }
  destruct (negb (Z.land e PRESENT =? 0) || (Z.land e MAP_SWAPPED =? 0)) eqn:Hb.
  { split; [eauto|]. split; [done|]. split; [done|]. intros e' ?. simplify_eq.
    unfold is_swapped, is_present. by destruct (Z.land e' PRESENT =? 0), (Z.land e' MAP_SWAPPED =? 0). }
  assert (Hsw : is_swapped e = true).
  { unfold is_swapped, is_present. by destruct (Z.land e PRESENT =? 0), (Z.land e MAP_SWAPPED =? 0). }
  fold (slot_of e).
  pose proof (alloc_pressure_spec s H Hs) as Ha.
  destruct (alloc_frame_pressure _ _ _ _ _ s) as [s1 [f|]]; destruct Ha as [Hq [H1 Ha]];
    pose proof (qu_keep _ _ Hq k e Hk Hsw) as Hk1.
  2:{ split; [eauto|]. split; [apply Hq|]. eauto. }
  destruct Ha as (Hf & Hs1 & Hpr).
  pose proof (read_page_spec s1 _ (slot_of e) f Hs1) as Hrd.
  destruct (read_page_from_disk hhdm sector_ok s1 (slot_of e) f) as [s2 r2].
  destruct Hrd as (Heq & Hm2 & Hmo & Hnp & _ & Hc).
  destruct r2 as [[]|[]|]; [| |done].
  2:{ destruct (page_in_failed s1 H1 f (smem s2) Hs1 Hf Hpr Hm2 Hmo) as [Hq2 Hs2].
      rewrite Heq. split; [eauto|]. split; [intros k'; by rewrite (qu_view _ _ Hq2), (qu_view _ _ Hq)|].
      exists e. split; [done|]. split; [done|]. by apply (qu_keep _ _ Hq2). }
  destruct (page_in_sound s1 H1 k e f _ (smem s2) Hs1 Hf Hpr Hk1 Hsw eq_refl Hm2 (Hc eq_refl) Hmo) as (Hs3 & Hv3 & Hvac).
  rewrite Heq. cbn [ptes mgr with_smem with_ptes with_mgr]. fold (in_entry e f).
  set (s3 := with_ptes (with_smem s1 (smem s2)) _) in *.
  destruct (sound_release s3 _ (slot_of e) Hs3 (slot_of_range e) Hvac) as (Hs4 & _ & Hu4).
  change (mgr s3) with (mgr s1) in *. set (m4 := free_slot (mgr s1) (slot_of e)) in *.
  destruct (track_page_fields m4 space (page_of vaddr)) as (T1 & T2 & T3 & T4).
  destruct (sound_mgr (with_mgr s3 m4) _ (track_page m4 space (page_of vaddr)) Hs4) as [Hs5 _].
  { destruct (sd_slots _ _ Hs4). split; cbn in *; rewrite ?T1, ?T2; done. }
  { rewrite T3. apply Hs4. } { rewrite T4. apply Hs4. } { intros k' e' Hk' Hw'. rewrite T1. by apply (sd_swapped _ _ Hs4 k'). }
  split; [eexists; exact Hs5|]. split; [intros k'; rewrite <- (qu_view _ _ Hq); apply Hv3|].
  destruct (owned_address (sframes s1) _ f (sd_holds s1 _ Hs1)) as [Hf36 Hfa]; [multiset_solver|]. assert (Hf52 : 0 ≤ f < 2 ^ 52) by lia.
  destruct (in_entry_spec e f Hf52 Hfa) as (I1 & I2 & I3).
  exists e, (in_entry e f). split; [done|]. split; [done|]. split; [cbn; by rewrite lookup_insert_eq|].
  split; [done|]. split; [done|]. split; [exact Hvac|]. cbn. rewrite T1, Hu4, Z.eqb_refl. done.
Qed.
End swap.

(** ** On a concrete machine: one user page, one frame *)

#[local] Existing Instances machine_frames machine_shared.

Definition one_frame : BuddyAllocator := (alloc_frame sample).1.
Lemma one_frame_holds : owned one_frame {[+ 4096 +]}.
Proof.
  destruct (owned_alloc_some sample ∅ one_frame 4096) as [_ H]; [|vm_compute; reflexivity|by rewrite (right_id_L ∅ (⊎)) in H].
  split; [apply sample_invariant|]. intros f Hf. by apply gmultiset_not_elem_of_empty in Hf.
Qed.

Definition all_sectors (x : Z) : bool := true.

(** Page [0x40000] of address space 1, writable, in frame 4096 and tracked. *)
Definition user_page : @system BuddyAllocator :=
  {| mgr := track_page new_manager 1 0x40000; initialized := true; start_lba := 34; total_sectors := 2014;
     in_eviction := false; disk := λ _, replicate 512 0; ptes := {[(1, 0x40000) := 0x1027]};
     sframes := one_frame; smem := λ f, replicate 4096 (if decide (f = 4096) then 7 else 0) |}.

Lemma user_page_sound : sound user_page {[+ 4096 +]}.
Proof.
  assert (Hone : ∀ k e, ptes user_page !! k = Some e → k = (1, 0x40000) ∧ e = 0x1027).
  { intros k e Hk. cbn in Hk. by apply lookup_singleton_Some in Hk as [<- <-]. }
  assert (Hns : ∀ k e, ptes user_page !! k = Some e → is_swapped e = false).
  { by intros k e [_ ->]%Hone. }
  split.
  - split; [vm_compute; reflexivity| |vm_compute; reflexivity].
    apply Forall_replicate. vm_compute. intuition congruence.
  - vm_compute. reflexivity.
  - done.
  - intros f. apply length_replicate.
  - intros n. apply length_replicate.
  - vm_compute. intuition congruence.
  - exact one_frame_holds.
  - intros k e [_ ->]%Hone. vm_compute. intuition congruence.
  - intros f ks Hks Hin. destruct ks as [|k1 [|k2 ks]]; [cbn; lia|..]; apply Forall_cons in Hin as [(e1 & [-> ->]%Hone & _ & <-) Hin].
    + change (frame_of 0x1027) with 4096. rewrite multiplicity_singleton_eq. done.
    + apply Forall_cons in Hin as [(e2 & [-> ->]%Hone & _ & _) _]. apply NoDup_cons in Hks as [Hks _]. destruct Hks. by left.
  - intros k e Hk. by rewrite (Hns k e Hk).
  - intros k1 k2 e1 e2 Hk. by rewrite (Hns k1 e1 Hk).
Qed.

Lemma evict_page_clock_invisible_witness :
  view (evict_page_clock machine_hhdm all_sectors user_page).1 (1, 0x40000) = view user_page (1, 0x40000).
Proof.
  pose proof (evict_page_clock_invisible machine_hhdm all_sectors user_page {[+ 4096 +]} user_page_sound) as H.
  destruct (evict_page_clock machine_hhdm all_sectors user_page) as [s' r]. exact (proj1 (proj2 H) _).
Defined.

Lemma evict_page_clock_progress_witness :
  ∃ slot, (evict_page_clock machine_hhdm all_sectors user_page).2 = Ok slot.
Proof.
  apply (evict_page_clock_progress machine_hhdm all_sectors user_page {[+ 4096 +]} 0
    {| tp_space := 1; tp_vaddr := 0x40000 |} 0x1027 user_page_sound eq_refl eq_refl).
  - vm_compute. discriminate.
  - split; [reflexivity|]. intros f Hf. apply machine_hhdm_covers. exact (proj1 (owned_address _ _ _ one_frame_holds Hf)).
  - vm_compute. reflexivity.
  - vm_compute. reflexivity.
  - reflexivity.
  - reflexivity.
  - exists 0. split; [vm_compute; intuition congruence|vm_compute; reflexivity].
Defined.

(** The slots are not limited to the partition.  With the fallback swap
    area of [main.rs] (sectors 34 to 2047) and the first 251 slots in use,
    the next page goes to slot 251, whose last two sectors are 2048 and
    2049. *)
Definition crowded : @system BuddyAllocator :=
  with_mgr (init user_page 34 2014)
    (with_bitmap (mgr user_page) ([2 ^ 64 - 1; 2 ^ 64 - 1; 2 ^ 64 - 1; 2 ^ 59 - 1] ++ replicate 252 0) 251).

Theorem swap_writes_past_partition :
  let '(s, r) := evict_page_clock machine_hhdm all_sectors crowded in
  r = Ok 251 ∧ start_lba s + total_sectors s = 2048 ∧
  disk s 2048 = replicate 512 7 ∧ disk s 2049 = replicate 512 7.
Proof. vm_compute. done. Qed.
