(* ===== verification/AfUnix.v ===== *)
(** * Local sockets ([rust/kernel/src/af_unix.rs])

    Stream and datagram sockets, the address registry, socket pairs and the
    listen/connect/accept handshake.  A socket object is named by its [id];
    the [Arc]s to it are represented by its presence in [heap], so
    [Weak::upgrade] succeeds exactly while the object is there, and
    [drop_socket] is the moment its last [Arc] goes away.  File descriptors
    passed along ([SCM_RIGHTS]) are of an arbitrary type [F].  Locks are
    taken and released inside each operation; a call that would wait for a
    lock it holds itself never returns, which is [Panic] here. *)

From stdpp Require Import gmap.
From S2P Require Import Prelude Words.

Inductive UnixAddress := Path (p : list Z) | Abstract (name : list Z).
#[export] Instance UnixAddress_eq_dec : EqDecision UnixAddress.
Proof. solve_decision. Defined.
#[export] Instance UnixAddress_countable : Countable UnixAddress.
Proof.
  apply (inj_countable' (λ a, match a with Path p => inl p | Abstract n => inr n end)
           (λ x, match x with inl p => Path p | inr n => Abstract n end)). by intros [].
Defined.

Section af_unix.
Context {F : Type}.

Record UnixDatagram := { sender_addr : option UnixAddress; dg_data : list Z; dg_fds : list F }.

Record StreamEndpoint := {
  st_peer : option Z; rx_buf : list Z; rx_fds : list F; closed : bool; peer_closed : bool }.
Record DatagramEndpoint := {
  dg_bound : option UnixAddress; dg_peer : option Z; rx_queue : list UnixDatagram }.
Record ListenerEndpoint := {
  ls_bound : UnixAddress; backlog : Z; accept_queue : list Z }.

Inductive AfUnixSocketKind :=
| Stream (s : StreamEndpoint)
| Datagram (d : DatagramEndpoint)
| Listener (l : ListenerEndpoint).

Record AfUnixSocket := { sk_kind : AfUnixSocketKind; nonblocking : bool }.

(** [NEXT_UNIX_SOCKET_ID], [UNIX_REGISTRY], the live sockets, and the calls
    of [scheduler::wake_pipe_waiters] in order. *)
Record net := {
  next_id : Z; registry : gmap UnixAddress Z; heap : gmap Z AfUnixSocket; woken : list Z }.
Definition net_start : net :=
  {| next_id := 0x60000000; registry := ∅; heap := ∅; woken := [] |}.

Definition set_heap (n : net) (h : gmap Z AfUnixSocket) : net :=
  {| next_id := next_id n; registry := registry n; heap := h; woken := woken n |}.
Definition set_registry (n : net) (r : gmap UnixAddress Z) : net :=
  {| next_id := next_id n; registry := r; heap := heap n; woken := woken n |}.
Definition wake_pipe_waiters (n : net) (id : Z) : net :=
  {| next_id := next_id n; registry := registry n; heap := heap n; woken := woken n ++ [id] |}.
Definition put (n : net) (id : Z) (k : AfUnixSocketKind) : net :=
  match heap n !! id with
  | Some s => set_heap n (<[id := {| sk_kind := k; nonblocking := nonblocking s |}]> (heap n))
  | None => n
  end.
Definition kind_of (n : net) (id : Z) : option AfUnixSocketKind := sk_kind <$> heap n !! id.

(** [Weak::upgrade] *)
Definition upgrade (n : net) (w : Z) : option Z :=
  match heap n !! w with Some _ => Some w | None => None end.

Definition empty_stream : StreamEndpoint :=
  {| st_peer := None; rx_buf := []; rx_fds := []; closed := false; peer_closed := false |}.
Definition empty_datagram : DatagramEndpoint :=
  {| dg_bound := None; dg_peer := None; rx_queue := [] |}.

Definition new_socket (n : net) (k : AfUnixSocketKind) : net * Z :=
  let id := next_id n in
  ({| next_id := u64 (id + 1); registry := registry n;
      heap := <[id := {| sk_kind := k; nonblocking := false |}]> (heap n); woken := woken n |}, id).
Definition new_stream (n : net) : net * Z := new_socket n (Stream empty_stream).
Definition new_datagram (n : net) : net * Z := new_socket n (Datagram empty_datagram).

Definition has_pending_data (k : AfUnixSocketKind) : bool :=
  match k with
  | Stream s => negb (bool_decide (length (rx_buf s) = 0%nat)) || peer_closed s
  | Datagram d => negb (bool_decide (length (rx_queue d) = 0%nat))
  | Listener l => negb (bool_decide (accept_queue l = []))
  end.
Definition can_write (k : AfUnixSocketKind) : bool :=
  match k with
  | Stream s => negb (closed s) && negb (peer_closed s)
  | Datagram _ => true
  | Listener _ => false
  end.

Definition with_peer (s : StreamEndpoint) (p : option Z) : StreamEndpoint :=
  {| st_peer := p; rx_buf := rx_buf s; rx_fds := rx_fds s; closed := closed s; peer_closed := peer_closed s |}.
Definition with_rx (s : StreamEndpoint) (b : list Z) (f : list F) : StreamEndpoint :=
  {| st_peer := st_peer s; rx_buf := b; rx_fds := f; closed := closed s; peer_closed := peer_closed s |}.
Definition with_closed (s : StreamEndpoint) : StreamEndpoint :=
  {| st_peer := st_peer s; rx_buf := rx_buf s; rx_fds := rx_fds s; closed := true; peer_closed := peer_closed s |}.
Definition with_peer_closed (s : StreamEndpoint) : StreamEndpoint :=
  {| st_peer := st_peer s; rx_buf := rx_buf s; rx_fds := rx_fds s; closed := closed s; peer_closed := true |}.
Definition dg_with_peer (d : DatagramEndpoint) (p : option Z) : DatagramEndpoint :=
  {| dg_bound := dg_bound d; dg_peer := p; rx_queue := rx_queue d |}.
Definition dg_with_queue (d : DatagramEndpoint) (q : list UnixDatagram) : DatagramEndpoint :=
  {| dg_bound := dg_bound d; dg_peer := dg_peer d; rx_queue := q |}.
Definition dg_with_bound (d : DatagramEndpoint) (a : option UnixAddress) : DatagramEndpoint :=
  {| dg_bound := a; dg_peer := dg_peer d; rx_queue := rx_queue d |}.

(** ** Closing *)

(** A socket whose own lock is held by a peer that is itself would spin;
    [close] is called with the socket locked. *)
Definition close (n : net) (id : Z) : net * res unit unit :=
  match kind_of n id with
  | None => (n, Err ())
  | Some k =>
    let '(n, peer_opt) :=
      match k with
      | Stream s => (put n id (Stream (with_closed s)), st_peer s ≫= upgrade n)
      | Datagram d =>
        (match dg_bound d with Some a => set_registry n (delete a (registry n)) | None => n end, None)
      | Listener l => (set_registry n (delete (ls_bound l) (registry n)), None)
      end in
    match peer_opt with
    | Some p =>
      if bool_decide (p = id) then (n, Panic) else
      let n := match kind_of n p with
               | Some (Stream ps) => put n p (Stream (with_peer_closed ps))
               | _ => n
               end in
      (wake_pipe_waiters (wake_pipe_waiters n p) id, Ok ())
    | None => (wake_pipe_waiters n id, Ok ())
    end
  end.

(** The last [Arc] to [id] is dropped; a listener drops the connections
    nobody accepted. *)
Definition drop_socket (n : net) (id : Z) : net :=
  let q := match kind_of n id with Some (Listener l) => accept_queue l | _ => [] end in
  set_heap n (foldr (λ i h, delete i h) (heap n) (id :: q)).

(** ** Creating *)

Definition create_socket (n : net) (socket_type : Z) : net * res unit Z :=
  let t := Z.land socket_type 0xf in
  if t =? 1 then let '(n, id) := new_stream n in (n, Ok id)
  else if t =? 2 then let '(n, id) := new_datagram n in (n, Ok id)
  else (n, Err ()).

Definition create_socketpair (n : net) (socket_type : Z) : net * res unit (Z * Z) :=
  let t := Z.land socket_type 0xf in
  if t =? 1 then
    let '(n, sock_a) := new_stream n in
    let '(n, sock_b) := new_stream n in
    let n := match kind_of n sock_a with
             | Some (Stream s_a) => put n sock_a (Stream (with_peer s_a (Some sock_b))) | _ => n end in
    let n := match kind_of n sock_b with
             | Some (Stream s_b) => put n sock_b (Stream (with_peer s_b (Some sock_a))) | _ => n end in
    (n, Ok (sock_a, sock_b))
  else if t =? 2 then
    let '(n, sock_a) := new_datagram n in
    let '(n, sock_b) := new_datagram n in
    let n := match kind_of n sock_a with
             | Some (Datagram d_a) => put n sock_a (Datagram (dg_with_peer d_a (Some sock_b))) | _ => n end in
    let n := match kind_of n sock_b with
             | Some (Datagram d_b) => put n sock_b (Datagram (dg_with_peer d_b (Some sock_a))) | _ => n end in
    (n, Ok (sock_a, sock_b))
  else (n, Err ()).

(** ** Sending and receiving *)

(** The peer a socket sends to, and whether it sends a stream. *)
Definition send_target (n : net) (k : AfUnixSocketKind) : option (Z * bool) :=
  match k with
  | Stream s =>
    if closed s || peer_closed s then None else
    weak ← st_peer s; p ← upgrade n weak; Some (p, true)
  | Datagram d => weak ← dg_peer d; p ← upgrade n weak; Some (p, false)
  | Listener _ => None
  end.

Definition send_af_unix (n : net) (sock : Z) (data : list Z) (passed_fds : list F) : net * res unit Z :=
  match kind_of n sock ≫= send_target n with
  | None => (n, Err ())
  | Some (peer, is_stream) =>
    let delivered :=
      match is_stream, kind_of n peer with
      | true, Some (Stream ps) =>
        if closed ps then None
        else Some (put n peer (Stream (with_rx ps (rx_buf ps ++ data) (rx_fds ps ++ passed_fds))))
      | false, Some (Datagram pd) =>
        Some (put n peer (Datagram (dg_with_queue pd (rx_queue pd ++
          [{| sender_addr := None; dg_data := data; dg_fds := passed_fds |}]))))
      | _, _ => None
      end in
    match delivered with
    | Some n => (wake_pipe_waiters n peer, Ok (zlen data))
    | None => (n, Err ())
    end
  end.

Definition recv_af_unix (n : net) (sock : Z) (limit : Z) : net * res unit (list Z * list F) :=
  match kind_of n sock with
  | Some (Stream s) =>
    if negb (bool_decide (length (rx_buf s) = 0%nat)) then
      let take_len := Z.min (zlen (rx_buf s)) limit in
      (put n sock (Stream (with_rx s (drop (Z.to_nat take_len) (rx_buf s)) [])),
       Ok (take (Z.to_nat take_len) (rx_buf s), rx_fds s))
    else if peer_closed s then (n, Ok ([], []))
    else (n, Err ())
  | Some (Datagram d) =>
    match rx_queue d with
    | dg :: rest =>
      let take_len := Z.min (zlen (dg_data dg)) limit in
      (put n sock (Datagram (dg_with_queue d rest)), Ok (take (Z.to_nat take_len) (dg_data dg), dg_fds dg))
    | [] => (n, Err ())
    end
  | _ => (n, Err ())
  end.

(** ** Addresses and connections *)

Definition bind_af_unix (n : net) (sock : Z) (addr : UnixAddress) : net * res unit unit :=
  if bool_decide (is_Some (registry n !! addr ≫= upgrade n)) then (n, Err ()) else
  match kind_of n sock with
  | Some (Stream _) =>
    let n := put n sock (Listener {| ls_bound := addr; backlog := 128; accept_queue := [] |}) in
    (set_registry n (<[addr := sock]> (registry n)), Ok ())
  | Some (Datagram d) =>
    let n := put n sock (Datagram (dg_with_bound d (Some addr))) in
    (set_registry n (<[addr := sock]> (registry n)), Ok ())
  | _ => (n, Err ())
  end.

Definition listen_af_unix (n : net) (sock : Z) (bl : Z) : net * res unit unit :=
  match kind_of n sock with
  | Some (Listener l) =>
    let b := if bl =? 0 then 128 else Z.min bl 128 in
    (put n sock (Listener {| ls_bound := ls_bound l; backlog := b; accept_queue := accept_queue l |}), Ok ())
  | _ => (n, Err ())
  end.

Definition connect_af_unix (n : net) (sock : Z) (addr : UnixAddress) : net * res unit unit :=
  match registry n !! addr ≫= upgrade n with
  | None => (n, Err ())
  | Some target =>
    match kind_of n target with
    | Some (Listener listener) =>
      let '(n', server_sock) := new_stream n in
      if bool_decide (sock = target) then (n', Panic) else
      match kind_of n' sock with
      | Some (Stream client) =>
        let n := put n' sock (Stream (with_peer client (Some server_sock))) in
        let n := match kind_of n server_sock with
                 | Some (Stream server) => put n server_sock (Stream (with_peer server (Some sock)))
                 | _ => n end in
        let n := put n target (Listener {| ls_bound := ls_bound listener; backlog := backlog listener;
                   accept_queue := accept_queue listener ++ [server_sock] |}) in
        (wake_pipe_waiters n target, Ok ())
      | _ => (drop_socket n' server_sock, Err ())
      end
    | Some (Datagram _) =>
      if bool_decide (sock = target) then (n, Panic) else
      match kind_of n sock with
      | Some (Datagram d) => (put n sock (Datagram (dg_with_peer d (Some target))), Ok ())
      | _ => (n, Err ())
      end
    | _ => (n, Err ())
    end
  end.

Definition accept_af_unix (n : net) (sock : Z) (nonblock : bool) : net * res unit Z :=
  match kind_of n sock with
  | Some (Listener l) =>
    match accept_queue l with
    | conn :: rest =>
      let n := put n sock (Listener {| ls_bound := ls_bound l; backlog := backlog l; accept_queue := rest |}) in
      let n := match nonblock, heap n !! conn with
               | true, Some c => set_heap n (<[conn := {| sk_kind := sk_kind c; nonblocking := true |}]> (heap n))
               | _, _ => n end in
      (n, Ok conn)
    | [] => (n, Err ())
    end
  | _ => (n, Err ())
  end.
End af_unix.
Arguments net : clear implicits.
