(* ===== verification/AfUnixSpec.v ===== *)
(** * What the local sockets promise

    Over any sequence of calls: bytes and descriptors of a stream arrive in
    order and exactly once, datagrams keep their boundaries, an address
    belongs to the socket that bound it, and end of file comes only after
    the last byte. *)

From stdpp Require Import gmap.
From S2P Require Import Prelude Words AfUnix.

Section af_unix_spec.
Context {F : Type}.
Implicit Types n : net F.

(** ** Looking sockets up *)

Lemma kind_put_eq n id k : is_Some (heap n !! id) → kind_of (put n id k) id = Some k.
Proof. intros [s Hs]. unfold kind_of, put. rewrite Hs. cbn. by rewrite lookup_insert_eq. Qed.

Lemma kind_put_ne n id b k : b ≠ id → kind_of (put n id k) b = kind_of n b.
Proof.
  intros Hb. unfold kind_of, put. destruct (heap n !! id); [|done]. cbn. by rewrite lookup_insert_ne.
Qed.

Lemma kind_live n id k : kind_of n id = Some k → is_Some (heap n !! id).
Proof. unfold kind_of. by intros (s & -> & _)%fmap_Some. Qed.

Lemma live_kind n id : is_Some (heap n !! id) ↔ is_Some (kind_of n id).
Proof. unfold kind_of. by rewrite fmap_is_Some. Qed.

Lemma live_put n id k b : is_Some (heap (put n id k) !! b) ↔ is_Some (heap n !! b).
Proof.
  unfold put. destruct (heap n !! id) eqn:E; [|done]. cbn.
  destruct (decide (b = id)) as [->|]; [rewrite lookup_insert_eq, E; naive_solver|by rewrite lookup_insert_ne].
Qed.

Lemma upgrade_Some n w p : upgrade n w = Some p ↔ p = w ∧ is_Some (heap n !! w).
Proof. unfold upgrade. destruct (heap n !! w); naive_solver. Qed.

Lemma put_fields n id k : next_id (put n id k) = next_id n ∧ registry (put n id k) = registry n.
Proof. unfold put. by destruct (heap n !! id). Qed.

(** ** Inboxes *)

Definition messages (q : list (@UnixDatagram F)) : list (list Z * list F) :=
  (λ g, (dg_data g, dg_fds g)) <$> q.

(** What waits to be received at a socket. *)
Definition inbox_of (k : @AfUnixSocketKind F) : option ((list Z * list F) + list (list Z * list F)) :=
  match k with
  | Stream s => Some (inl (rx_buf s, rx_fds s))
  | Datagram d => Some (inr (messages (rx_queue d)))
  | Listener _ => None
  end.
Definition inbox n (b : Z) := kind_of n b ≫= inbox_of.

Definition empty_inbox (x : (list Z * list F) + list (list Z * list F)) : Prop :=
  x = inl ([], []) ∨ x = inr [].

Definition room n (c : Z) : Prop := 0 ≤ next_id n ∧ next_id n + c < 2 ^ 64.

(** A step that delivers and consumes nothing. *)
Record tame n n' : Prop := {
  tm_next : next_id n ≤ next_id n';
  tm_live b : is_Some (heap n' !! b) → is_Some (heap n !! b) ∨ next_id n ≤ b < next_id n';
  tm_inbox b : inbox n' b = inbox n b ∨ inbox n' b = None ∨
    (next_id n ≤ b ∧ ∃ x, inbox n' b = Some x ∧ empty_inbox x) }.

#[local] Instance tame_refl : Reflexive tame.
Proof. intros n. split; auto with lia. Qed.
#[local] Instance tame_trans : Transitive tame.
Proof.
  intros n1 n2 n3 [N1 L1 I1] [N2 L2 I2]. split; [lia| |].
  - intros b [?%L1|?]%L2; [|lia]. destruct H as [?|?]; [auto|lia].
  - intros b. destruct (I2 b) as [->|[->|[? ?]]]; [apply I1|auto|]. right; right. split; [lia|done].
Qed.

Lemma tame_put n id k k' : kind_of n id = Some k → inbox_of k' = inbox_of k ∨ inbox_of k' = None →
  tame n (put n id k').
Proof.
  intros Hk Hb. split; [by rewrite (proj1 (put_fields _ _ _))|intros b Hl%live_put; auto|].
  intros b. unfold inbox. destruct (decide (b = id)) as [->|]; [|rewrite kind_put_ne by done; auto].
  rewrite kind_put_eq by (by eapply kind_live). rewrite Hk. cbn. destruct Hb as [-> | ->]; auto.
Qed.

Lemma tame_same n n' : next_id n' = next_id n → heap n' = heap n → tame n n'.
Proof. intros Hn Hh. split; [lia|rewrite Hh; auto|]. intros b. left. unfold inbox, kind_of. by rewrite Hh. Qed.

Lemma tame_less n h : (∀ b s, h !! b = Some s → heap n !! b = Some s) → tame n (set_heap n h).
Proof.
  intros Hh. split; [done| |].
  - intros b [s Hs]. left. exists s. by apply Hh.
  - intros b. unfold inbox, kind_of. cbn. destruct (h !! b) as [s|] eqn:Hb; [|auto].
    rewrite (Hh b s Hb). auto.
Qed.

Lemma tame_drop n id : tame n (drop_socket n id).
Proof.
  unfold drop_socket. apply tame_less. generalize (id :: match kind_of n id with
    | Some (Listener l) => accept_queue l | _ => [] end). intros q b s.
  induction q as [|i q IH]; [done|]. cbn. intros [_ ?]%lookup_delete_Some. auto.
Qed.

Lemma new_socket_spec n k : room n 1 →
  let '(n', id) := new_socket n k in
  id = next_id n ∧ next_id n' = next_id n + 1 ∧ registry n' = registry n ∧
  kind_of n' id = Some k ∧ (∀ b, b ≠ id → kind_of n' b = kind_of n b) ∧
  ((∃ x, inbox_of k = Some x ∧ empty_inbox x) → tame n n').
Proof.
  intros Hr. unfold room in Hr. cbn. rewrite wrap_small by (unfold is_u; lia). split; [done|].
  split; [done|]. split; [done|]. split; [unfold kind_of; cbn; by rewrite lookup_insert_eq|].
  split; [intros b Hb; unfold kind_of; cbn; by rewrite lookup_insert_ne|].
  intros (x & Hx & He). split; cbn.
  - lia.
  - intros b. destruct (decide (b = next_id n)) as [->|]; [lia|rewrite lookup_insert_ne by done; auto].
  - intros b. destruct (decide (b = next_id n)) as [->|Hb]; unfold inbox, kind_of; cbn.
    + rewrite lookup_insert_eq. cbn. rewrite Hx. right; right. eauto with lia.
    + rewrite lookup_insert_ne by done. auto.
Qed.

Lemma tame_new n k n' id : room n 1 → (∃ x, inbox_of k = Some x ∧ empty_inbox x) →
  new_socket n k = (n', id) → tame n n' ∧ next_id n' = next_id n + 1.
Proof. intros Hr Hk Hn. pose proof (new_socket_spec n k Hr) as Hs. rewrite Hn in Hs. naive_solver. Qed.

Lemma tame_update n id (f : AfUnixSocketKind → option AfUnixSocketKind) :
  (∀ k k', f k = Some k' → inbox_of k' = inbox_of k) →
  tame n (match kind_of n id ≫= f with Some k => put n id k | None => n end).
Proof.
  intros Hf. destruct (kind_of n id) as [k|] eqn:Hk; [|done]. cbn.
  destruct (f k) as [k'|] eqn:Hfk; [|done]. eapply tame_put; [done|]. left. by apply Hf.
Qed.

Lemma tame_wake n n' id : tame n n' → tame n (wake_pipe_waiters n' id).
Proof. intros H. etrans; [exact H|]. by apply tame_same. Qed.
Lemma tame_registry n n' r : tame n n' → tame n (set_registry n' r).
Proof. intros H. etrans; [exact H|]. by apply tame_same. Qed.

Lemma close_tame n id : tame n (close n id).1.
Proof.
  unfold close. destruct (kind_of n id) as [[s|d|l]|] eqn:Hk; [| | |done].
  - assert (tame n (put n id (Stream (with_closed s)))) as H1 by (eapply tame_put; [done|by left]).
    set (n1 := put n id _) in *. destruct (st_peer s ≫= upgrade n) as [p|]; [case_bool_decide; [done|]|].
    + cbn [fst]. do 2 apply tame_wake. etrans; [exact H1|].
      destruct (kind_of n1 p) as [[ps| |]|] eqn:Hp; [|done..]. eapply tame_put; [done|by left].
    + by apply tame_wake.
  - destruct (dg_bound d); by apply tame_same.
  - by apply tame_same.
Qed.

Lemma create_tame n t : room n 1 → tame n (create_socket n t).1.
Proof.
  intros Hr. unfold create_socket, new_stream, new_datagram.
  repeat case_match; try done; cbn [fst];
    (eapply tame_new; [done| |done]); eexists; (split; [done|]); by (left + right).
Qed.

Lemma pair_tame n t : room n 2 → tame n (create_socketpair n t).1.
Proof.
  intros Hr. unfold create_socketpair, new_stream, new_datagram.
  assert (Hpair : ∀ k (f : Z → AfUnixSocketKind → option AfUnixSocketKind),
    (∃ x, inbox_of k = Some x ∧ empty_inbox x) → (∀ p k k', f p k = Some k' → inbox_of k' = inbox_of k) →
    ∀ n1 a n2 b, new_socket n k = (n1, a) → new_socket n1 k = (n2, b) →
    let n3 := match kind_of n2 a ≫= f b with Some k => put n2 a k | None => n2 end in
    tame n (match kind_of n3 b ≫= f a with Some k => put n3 b k | None => n3 end)).
  { intros k f Hk Hf n1 a n2 b H1 H2 n3. unfold room in Hr.
    destruct (tame_new n k n1 a) as [T1 N1]; [unfold room; lia|done|done|].
    destruct (tame_new n1 k n2 b) as [T2 _]; [unfold room; lia|done|done|].
    etrans; [exact T1|]. etrans; [exact T2|].
    transitivity n3; apply tame_update; eauto. }
  destruct (Z.land t 15 =? 1).
  - destruct (new_socket n (Stream empty_stream)) as [n1 a] eqn:H1.
    destruct (new_socket n1 (Stream empty_stream)) as [n2 b] eqn:H2.
    specialize (Hpair (Stream empty_stream) (λ p k, match k with Stream s => Some (Stream (with_peer s (Some p))) | _ => None end)
      ltac:(eexists; split; [done|by left]) ltac:(intros ? [] ? ?; simplify_eq; done) n1 a n2 b H1 H2).
    cbn [fst]. cbv zeta in Hpair. clear -Hpair.
    destruct (kind_of n2 a) as [[]|]; cbn in Hpair |- *;
      match goal with |- context [kind_of ?m b] => destruct (kind_of m b) as [[]|] end; exact Hpair.
  - destruct (Z.land t 15 =? 2); [|done].
    destruct (new_socket n (Datagram empty_datagram)) as [n1 a] eqn:H1.
    destruct (new_socket n1 (Datagram empty_datagram)) as [n2 b] eqn:H2.
    specialize (Hpair (Datagram empty_datagram) (λ p k, match k with Datagram s => Some (Datagram (dg_with_peer s (Some p))) | _ => None end)
      ltac:(eexists; split; [done|by right]) ltac:(intros ? [] ? ?; simplify_eq; done) n1 a n2 b H1 H2).
    cbn [fst]. cbv zeta in Hpair. clear -Hpair.
    destruct (kind_of n2 a) as [[]|]; cbn in Hpair |- *;
      match goal with |- context [kind_of ?m b] => destruct (kind_of m b) as [[]|] end; exact Hpair.
Qed.

Lemma bind_tame n id a : tame n (bind_af_unix n id a).1.
Proof.
  unfold bind_af_unix. case_bool_decide; [done|]. destruct (kind_of n id) as [[s|d|l]|] eqn:Hk; [| |done..].
  - apply tame_registry. eapply tame_put; [done|by right].
  - apply tame_registry. eapply tame_put; [done|by left].
Qed.

Lemma listen_tame n id b : tame n (listen_af_unix n id b).1.
Proof.
  unfold listen_af_unix. destruct (kind_of n id) as [[s|d|l]|] eqn:Hk; [done|done| |done].
  eapply tame_put; [done|by left].
Qed.

Lemma accept_tame n id nb : tame n (accept_af_unix n id nb).1.
Proof.
  unfold accept_af_unix. destruct (kind_of n id) as [[s|d|l]|] eqn:Hk; [done|done| |done].
  destruct (accept_queue l) as [|c q]; [done|]. cbn [fst].
  set (n1 := put n id _). assert (tame n n1) by (eapply tame_put; [done|by left]).
  etrans; [done|]. destruct nb; [|done]. destruct (heap n1 !! c) as [sk|] eqn:Hc; [|done].
  split; [done| |].
  - intros b. cbn. destruct (decide (b = c)) as [->|]; [left; by exists sk|rewrite lookup_insert_ne by done; auto].
  - intros b. left. unfold inbox, kind_of. cbn. destruct (decide (b = c)) as [->|].
    + by rewrite lookup_insert_eq, Hc.
    + by rewrite lookup_insert_ne.
Qed.

Lemma connect_tame n id a : room n 1 → tame n (connect_af_unix n id a).1.
Proof.
  intros Hr. unfold connect_af_unix, new_stream. destruct (registry n !! a ≫= upgrade n) as [t|]; [|done].
  destruct (kind_of n t) as [[s|d|l]|] eqn:Hk; [done| | |done].
  { case_bool_decide; [done|]. destruct (kind_of n id) as [[]|] eqn:Hi; [done| |done..].
    eapply tame_put; [done|by left]. }
  destruct (new_socket n (Stream empty_stream)) as [n' sv] eqn:Hn.
  destruct (tame_new n (Stream empty_stream) n' sv Hr ltac:(eexists; split; [done|by left]) Hn) as [T _].
  pose proof (new_socket_spec n (Stream empty_stream) Hr) as Hsp. rewrite Hn in Hsp.
  destruct Hsp as (Hid & _ & _ & Hsv & Hother & _).
  case_bool_decide; [done|]. destruct (kind_of n' id) as [[c| |]|] eqn:Hi; cbn [fst];
    [|etrans; [exact T|apply tame_drop]..].
  etrans; [exact T|]. set (n1 := put n' id _). assert (T1 : tame n' n1) by (eapply tame_put; [done|by left]).
  etrans; [exact T1|]. set (n2 := match kind_of n1 sv with Some (Stream server) => _ | _ => n1 end).
  assert (T2 : tame n1 n2 ∧ ∀ b, is_Some (heap n2 !! b) ↔ is_Some (heap n1 !! b)).
  { unfold n2. destruct (kind_of n1 sv) as [[]|] eqn:Hs1; [|done..]. split; [eapply tame_put; [done|by left]|].
    intros b. apply live_put. }
  etrans; [apply T2|]. apply tame_wake.
  destruct (heap n2 !! t) as [kt|] eqn:Ht; [|unfold put; by rewrite Ht].
  eapply (tame_put n2 t (sk_kind kt)); [unfold kind_of; by rewrite Ht|]. by right.
Qed.

(** ** Runs *)

(** [OClose] is the close of the last descriptor, which drops the socket;
    [ODrop] drops it without a close. *)
Inductive unix_op :=
| OCreate (t : Z) | OPair (t : Z) | OSend (id : Z) (data : list Z) (fds : list F) | ORecv (id limit : Z)
| OBind (id : Z) (a : UnixAddress) | OListen (id b : Z) | OConnect (id : Z) (a : UnixAddress)
| OAccept (id : Z) (nb : bool) | OClose (id : Z) | ODrop (id : Z).

Inductive event :=
| Sent (to : Z) (data : list Z) (fds : list F)
| Got (at_ : Z) (limit : Z) (out : list Z) (fds : list F).

Definition unix_step n (o : unix_op) : net F * list event :=
  match o with
  | OCreate t => ((create_socket n t).1, [])
  | OPair t => ((create_socketpair n t).1, [])
  | OSend id data fds =>
    match kind_of n id ≫= send_target n, send_af_unix n id data fds with
    | Some (p, _), (n', Ok _) => (n', [Sent p data fds])
    | _, (n', _) => (n', [])
    end
  | ORecv id limit =>
    match recv_af_unix n id limit with
    | (n', Ok (out, fds)) => (n', [Got id limit out fds])
    | (n', _) => (n', [])
    end
  | OBind id a => ((bind_af_unix n id a).1, [])
  | OListen id b => ((listen_af_unix n id b).1, [])
  | OConnect id a => ((connect_af_unix n id a).1, [])
  | OAccept id nb => ((accept_af_unix n id nb).1, [])
  | OClose id => (drop_socket (close n id).1 id, [])
  | ODrop id => (drop_socket n id, [])
  end.

Definition unix_run n (ops : list unix_op) : net F * list event :=
  foldl (λ '(n, tr) o, let '(n', e) := unix_step n o in (n', tr ++ e)) (n, []) ops.

Definition sent_to (b : Z) (tr : list event) : list (list Z * list F) :=
  omap (λ e, match e with Sent p d f => if decide (p = b) then Some (d, f) else None | _ => None end) tr.
Definition got_at (b : Z) (tr : list event) : list (Z * list Z * list F) :=
  omap (λ e, match e with Got p l d f => if decide (p = b) then Some (l, d, f) else None | _ => None end) tr.

(** The bytes and descriptors sent are those received followed by those
    waiting; a datagram received is the one sent, cut at the limit. *)
Definition cut (m : list Z * list F) (g : Z * list Z * list F) : Prop :=
  g.1.2 = take (Z.to_nat (Z.min (zlen m.1) g.1.1)) m.1 ∧ g.2 = m.2.
Definition balanced (x : (list Z * list F) + list (list Z * list F))
    (sent : list (list Z * list F)) (got : list (Z * list Z * list F)) : Prop :=
  match x with
  | inl (buf, fds) =>
    mjoin sent.*1 = mjoin ((λ g, g.1.2) <$> got) ++ buf ∧ mjoin sent.*2 = mjoin got.*2 ++ fds
  | inr q => ∃ arrived, sent = arrived ++ q ∧ Forall2 cut arrived got
  end.

Record accounted n (tr : list event) : Prop := {
  ac_live b : is_Some (heap n !! b) → b < next_id n;
  ac_fresh b : next_id n ≤ b → sent_to b tr = [] ∧ got_at b tr = [];
  ac_bal b x : inbox n b = Some x → balanced x (sent_to b tr) (got_at b tr) }.

Lemma accounted_tame n n' tr : tame n n' → accounted n tr → accounted n' tr.
Proof.
  intros [Hn Hl Hi] [A1 A2 A3]. split.
  - intros b [?%A1|?]%Hl; lia.
  - intros b Hb. apply A2. lia.
  - intros b x Hx. destruct (Hi b) as [He|[He|(Hb & x' & He & Hem)]]; [|congruence|].
    + apply A3. congruence.
    + assert (x' = x) as -> by congruence. destruct (A2 b Hb) as [-> ->].
      destruct Hem as [-> | ->]; [done|]. by exists [].
Qed.

(** Changing the inbox of one socket and logging one event about it. *)
Lemma accounted_put n tr id k k' e x : accounted n tr → kind_of n id = Some k → inbox_of k' = Some x →
  balanced x (sent_to id (tr ++ [e])) (got_at id (tr ++ [e])) →
  (∀ b, b ≠ id → sent_to b [e] = [] ∧ got_at b [e] = []) → accounted (put n id k') (tr ++ [e]).
Proof.
  intros [A1 A2 A3] Hk Hx Hb Ho.
  assert (Hother : ∀ b, b ≠ id → sent_to b (tr ++ [e]) = sent_to b tr ∧ got_at b (tr ++ [e]) = got_at b tr).
  { intros b Hne. unfold sent_to, got_at in *. rewrite !omap_app. destruct (Ho b Hne) as [-> ->].
    by rewrite !app_nil_r. }
  split; rewrite ?(proj1 (put_fields _ _ _)).
  - intros b ?%live_put. auto.
  - intros b Hge. destruct (Hother b) as [-> ->]; [|auto].
    intros ->. apply kind_live, A1 in Hk. lia.
  - intros b y. unfold inbox. destruct (decide (b = id)) as [->|Hne].
    + rewrite kind_put_eq by (by eapply kind_live). cbn. intros Hy. assert (y = x) as -> by congruence. done.
    + rewrite kind_put_ne by done. intros Hy. destruct (Hother b Hne) as [-> ->]. by apply A3.
Qed.

Lemma sent_to_snoc b tr e : sent_to b (tr ++ [e]) = sent_to b tr ++ sent_to b [e].
Proof. apply omap_app. Qed.
Lemma got_at_snoc b tr e : got_at b (tr ++ [e]) = got_at b tr ++ got_at b [e].
Proof. apply omap_app. Qed.

Lemma sent_one p d f b : sent_to b [Sent p d f] = (if decide (p = b) then [(d, f)] else []) ∧ got_at b [Sent p d f] = [].
Proof. cbn. by destruct (decide (p = b)). Qed.
Lemma got_one p l d f b : sent_to b [Got p l d f] = [] ∧ got_at b [Got p l d f] = if decide (p = b) then [(l, d, f)] else [].
Proof. cbn. by destruct (decide (p = b)). Qed.

Lemma accounted_send n tr id data fds : accounted n tr →
  let '(n', e) := unix_step n (OSend id data fds) in accounted n' (tr ++ e).
Proof.
  intros Ha. cbn [unix_step]. unfold send_af_unix.
  destruct (kind_of n id ≫= send_target n) as [[p st]|]; [|by rewrite app_nil_r].
  assert (Hone : ∀ b, b ≠ p → sent_to b [Sent p data fds] = [] ∧ got_at b [Sent p data fds] = []).
  { intros b Hb. destruct (sent_one p data fds b) as [-> ->]. by rewrite decide_False by done. }
  destruct st; (destruct (kind_of n p) as [[ps|pd|l]|] eqn:Hp; try by rewrite app_nil_r).
  - destruct (closed ps); [by rewrite app_nil_r|]. eapply accounted_tame; [by apply tame_wake|].
    eapply accounted_put; [done|done|done| |done].
    rewrite sent_to_snoc, got_at_snoc. destruct (sent_one p data fds p) as [-> ->]. rewrite decide_True by done.
    destruct (ac_bal n tr Ha p (inl (rx_buf ps, rx_fds ps))) as [B1 B2]; [unfold inbox; by rewrite Hp|].
    rewrite app_nil_r. unfold balanced. cbn [rx_buf rx_fds with_rx].
    rewrite !fmap_app, !join_app, B1, B2. cbn. by rewrite !app_nil_r, !app_assoc.
  - eapply accounted_tame; [by apply tame_wake|]. eapply accounted_put; [done|done|done| |done].
    rewrite sent_to_snoc, got_at_snoc. destruct (sent_one p data fds p) as [-> ->]. rewrite decide_True by done.
    destruct (ac_bal n tr Ha p (inr (messages (rx_queue pd)))) as (ar & B1 & B2); [unfold inbox; by rewrite Hp|].
    rewrite app_nil_r. exists ar. split; [|done]. rewrite B1. cbn. unfold messages.
    by rewrite fmap_app, app_assoc.
Qed.

Lemma accounted_recv n tr id limit : accounted n tr →
  let '(n', e) := unix_step n (ORecv id limit) in accounted n' (tr ++ e).
Proof.
  intros Ha. cbn [unix_step]. unfold recv_af_unix.
  destruct (kind_of n id) as [[s|d|l]|] eqn:Hk; [| |by rewrite app_nil_r..].
  - assert (B : balanced (inl (rx_buf s, rx_fds s)) (sent_to id tr) (got_at id tr)).
    { apply (ac_bal n tr Ha). unfold inbox. by rewrite Hk. }
    case_bool_decide as Hl; cbn [negb].
    + destruct (peer_closed s); [|by rewrite app_nil_r]. destruct Ha as [A1 A2 A3]. split; [done| |].
      * intros b Hb. rewrite sent_to_snoc, got_at_snoc. destruct (got_one id limit [] [] b) as [-> ->].
        rewrite decide_False; [rewrite !app_nil_r; auto|]. intros ->. apply kind_live, A1 in Hk. lia.
      * intros b x Hx. rewrite sent_to_snoc, got_at_snoc. destruct (got_one id limit [] [] b) as [-> ->].
        rewrite app_nil_r. destruct (decide (id = b)) as [<-|]; [|rewrite app_nil_r; auto].
        unfold inbox in Hx. rewrite Hk in Hx. cbn in Hx. injection Hx as <-. destruct B as [B1 B2].
        split; rewrite ?fmap_app, join_app, ?B1, ?B2; cbn; by rewrite !app_nil_r.
    + eapply accounted_put; [done|done|done| |].
      * rewrite sent_to_snoc, got_at_snoc. destruct (got_one id limit (take (Z.to_nat (Z.min (zlen (rx_buf s)) limit)) (rx_buf s)) (rx_fds s) id) as [-> ->].
        rewrite decide_True, app_nil_r by done. destruct B as [B1 B2].
        split; rewrite ?fmap_app, join_app, ?B1, ?B2; cbn; rewrite !app_nil_r; [|done].
        by rewrite <- app_assoc, take_drop.
      * intros b Hb. destruct (got_one id limit (take (Z.to_nat (Z.min (zlen (rx_buf s)) limit)) (rx_buf s)) (rx_fds s) b) as [-> ->].
        by rewrite decide_False by done.
  - destruct (rx_queue d) as [|dg rest] eqn:Hq; [by rewrite app_nil_r|].
    destruct (ac_bal n tr Ha id (inr (messages (rx_queue d)))) as (ar & B1 & B2); [unfold inbox; by rewrite Hk|].
    set (out := take _ (dg_data dg)). eapply accounted_put; [done|done|done| |].
    + rewrite sent_to_snoc, got_at_snoc. destruct (got_one id limit out (dg_fds dg) id) as [-> ->].
      rewrite decide_True, app_nil_r by done. exists (ar ++ [(dg_data dg, dg_fds dg)]).
      split; [rewrite B1, Hq, <- app_assoc; done|]. apply Forall2_app; [done|]. by repeat constructor.
    + intros b Hb. destruct (got_one id limit out (dg_fds dg) b) as [-> ->]. by rewrite decide_False by done.
Qed.

Lemma next_put n id k : next_id (put n id k) = next_id n.
Proof. apply put_fields. Qed.

Lemma unix_step_next n o : room n 2 → next_id (unix_step n o).1 ≤ next_id n + 2.
Proof.
  intros Hr. unfold room in Hr. assert (Hw : ∀ m : Z, next_id n ≤ m ≤ next_id n + 1 → u64 (m + 1) = m + 1)
    by (intros; apply wrap_small; unfold is_u; lia).
  destruct o; cbn [unix_step]; unfold create_socket, create_socketpair, send_af_unix, recv_af_unix, bind_af_unix,
    listen_af_unix, connect_af_unix, accept_af_unix, close, new_stream, new_datagram, new_socket;
    repeat case_match; simplify_eq; cbn; rewrite ?next_put; cbn; rewrite ?next_put; cbn;
    rewrite ?Hw by (rewrite ?Hw; lia); lia.
Qed.

Lemma unix_step_mono n o : room n 2 → next_id n ≤ next_id (unix_step n o).1.
Proof.
  intros Hr. assert (room n 1) by (unfold room in *; lia).
  assert (Hg : ∀ m, tame n m → next_id n ≤ next_id m) by (by intros m []).
  destruct o; cbn [unix_step fst]; try (apply Hg;
    auto using create_tame, pair_tame, bind_tame, listen_tame, connect_tame, accept_tame, tame_drop; fail).
  - unfold send_af_unix. repeat case_match; simplify_eq; cbn; rewrite ?next_put; lia.
  - unfold recv_af_unix. repeat case_match; simplify_eq; cbn; rewrite ?next_put; lia.
  - apply Hg. etrans; [apply close_tame|apply tame_drop].
Qed.

Lemma accounted_step n tr o : room n 2 → accounted n tr →
  let '(n', e) := unix_step n o in accounted n' (tr ++ e).
Proof.
  intros Hr Ha. assert (room n 1) by (unfold room in *; lia).
  destruct o; try (by apply accounted_send); try (by apply accounted_recv); cbn [unix_step];
    rewrite app_nil_r; (eapply accounted_tame; [|exact Ha]);
    auto using create_tame, pair_tame, bind_tame, listen_tame, connect_tame, accept_tame, tame_drop.
  etrans; [apply close_tame|apply tame_drop].
Qed.

Lemma unix_run_snoc n ops o : unix_run n (ops ++ [o]) =
  let '(n1, tr) := unix_run n ops in let '(n', e) := unix_step n1 o in (n', tr ++ e).
Proof. unfold unix_run. rewrite foldl_app. cbn [foldl]. by destruct (foldl _ (n, []) ops). Qed.

Lemma accounted_run ops : 2 * zlen ops < 2 ^ 63 →
  let '(n, tr) := unix_run net_start ops in
  accounted n tr ∧ 0 ≤ next_id n ≤ 0x60000000 + 2 * zlen ops.
Proof.
  induction ops as [|o ops IH] using rev_ind; intros Hlen.
  { split; [|cbn; lia]. assert (Hno : ∀ b, heap (@net_start F) !! b = None) by (intros; apply lookup_empty).
    split; [intros b [s Hs]; by rewrite Hno in Hs|done|].
    intros b x. unfold inbox, kind_of. by rewrite Hno. }
  rewrite length_app in Hlen. cbn in Hlen. specialize (IH ltac:(lia)). rewrite unix_run_snoc.
  destruct (unix_run net_start ops) as [n tr]. destruct IH as [Ha Hn].
  assert (Hr : room n 2) by (unfold room; lia).
  pose proof (accounted_step n tr o Hr Ha) as Hs. pose proof (unix_step_next n o Hr) as Hx.
  pose proof (unix_step_mono n o Hr) as Hm.
  destruct (unix_step n o) as [n' e]. cbn in Hx, Hm. split; [done|]. rewrite length_app. cbn. lia.
Qed.

(** C17: Whatever sequence of socket calls is made, by any number of
    processes: the bytes sent to a stream socket are, in order and each
    once, those received from it followed by those still in its buffer, and
    so are the descriptors passed along; the datagrams sent to a datagram
    socket are those received, each cut only at the receiver's limit,
    followed by those still queued. *)
Theorem unix_delivery ops n tr b k : 2 * zlen ops < 2 ^ 63 → unix_run net_start ops = (n, tr) →
  kind_of n b = Some k →
  match k with
  | Stream s =>
    mjoin (sent_to b tr).*1 = mjoin ((λ g, g.1.2) <$> got_at b tr) ++ rx_buf s ∧
    mjoin (sent_to b tr).*2 = mjoin (got_at b tr).*2 ++ rx_fds s
  | Datagram d => ∃ arrived, sent_to b tr = arrived ++ messages (rx_queue d) ∧ Forall2 cut arrived (got_at b tr)
  | Listener _ => True
  end.
Proof.
  intros Hlen Hrun Hk. pose proof (accounted_run ops Hlen) as Ha. rewrite Hrun in Ha. destruct Ha as [Ha _].
  destruct k as [s|d|l]; [| |done].
  - apply (ac_bal n tr Ha b (inl (rx_buf s, rx_fds s))). unfold inbox. by rewrite Hk.
  - apply (ac_bal n tr Ha b (inr _)). unfold inbox. by rewrite Hk.
Qed.

(** ** Addresses *)

Definition bound_of (k : @AfUnixSocketKind F) : option UnixAddress :=
  match k with Stream _ => None | Datagram d => dg_bound d | Listener l => Some (ls_bound l) end.

(** Every bound socket owns its entry of the registry. *)
Definition owns n : Prop :=
  ∀ b k a, kind_of n b = Some k → bound_of k = Some a → registry n !! a = Some b.

(** A step that binds and unbinds nothing. *)
Definition steady n n' : Prop :=
  registry n' = registry n ∧ ∀ b k' a, kind_of n' b = Some k' → bound_of k' = Some a →
    ∃ k, kind_of n b = Some k ∧ bound_of k = Some a.

#[local] Instance steady_refl : Reflexive steady.
Proof. intros n. split; eauto. Qed.
#[local] Instance steady_trans : Transitive steady.
Proof.
  intros n1 n2 n3 [R1 H1] [R2 H2]. split; [congruence|]. intros b k a Hk Ha.
  destruct (H2 b k a Hk Ha) as (k2 & Hk2 & Ha2). eauto.
Qed.

Lemma owns_steady n n' : steady n n' → owns n → owns n'.
Proof. intros [Hr Hs] Ho b k a Hk Ha. rewrite Hr. destruct (Hs b k a Hk Ha) as (k0 & ? & ?). eauto. Qed.

Lemma steady_put n id k k' : kind_of n id = Some k → bound_of k' = bound_of k ∨ bound_of k' = None →
  steady n (put n id k').
Proof.
  intros Hk Hb. split; [apply put_fields|]. intros b k1 a.
  destruct (decide (b = id)) as [->|]; [|rewrite kind_put_ne by done; eauto].
  rewrite kind_put_eq by (by eapply kind_live). intros [= <-] Ha. exists k. split; [done|].
  destruct Hb; congruence.
Qed.

Lemma steady_wake n n' id : steady n n' → steady n (wake_pipe_waiters n' id).
Proof. done. Qed.

Lemma steady_new n k n' id : room n 1 → bound_of k = None → new_socket n k = (n', id) → steady n n'.
Proof.
  intros Hr Hb Hn. pose proof (new_socket_spec n k Hr) as Hs. rewrite Hn in Hs.
  destruct Hs as (_ & _ & Hreg & Hid & Ho & _). split; [done|]. intros b k1 a.
  destruct (decide (b = id)) as [->|]; [|rewrite Ho by done; eauto]. rewrite Hid. intros [= <-]. congruence.
Qed.

Lemma kind_drop n id b k : kind_of (drop_socket n id) b = Some k → kind_of n b = Some k ∧ b ≠ id.
Proof.
  unfold drop_socket, kind_of. cbn [heap set_heap]. intros (s & Hs & ->)%fmap_Some.
  cbn [foldr] in Hs. apply lookup_delete_Some in Hs as [Hne Hs]. split; [|congruence].
  revert Hs. generalize (match sk_kind <$> heap n !! id with Some (Listener l) => accept_queue l | _ => [] end).
  intros q Hs. assert (heap n !! b = Some s) as ->; [|done].
  induction q as [|i q IH]; [done|]. cbn [foldr] in Hs. apply lookup_delete_Some in Hs as [_ Hs]. auto.
Qed.

Lemma steady_drop n id : steady n (drop_socket n id).
Proof. split; [done|]. intros b k a [Hk _]%kind_drop Ha. eauto. Qed.

Lemma steady_update n id (f : AfUnixSocketKind → option AfUnixSocketKind) :
  (∀ k k', f k = Some k' → bound_of k' = bound_of k) →
  steady n (match kind_of n id ≫= f with Some k => put n id k | None => n end).
Proof.
  intros Hf. destruct (kind_of n id) as [k|] eqn:Hk; [|done]. cbn.
  destruct (f k) as [k'|] eqn:Hfk; [|done]. eapply steady_put; [done|]. left. by apply Hf.
Qed.

Lemma owns_bind n id a : owns n → owns (bind_af_unix n id a).1.
Proof.
  intros Ho. unfold bind_af_unix. case_bool_decide as Hb; [done|].
  assert (Hfree : ∀ b k, kind_of n b = Some k → bound_of k ≠ Some a).
  { intros b k Hk Ha. apply Hb. rewrite (Ho b k a Hk Ha). cbn. exists b. apply upgrade_Some.
    split; [done|]. by eapply kind_live. }
  assert (Hgo : ∀ k0 k', kind_of n id = Some k0 → bound_of k' = Some a →
    owns (set_registry (put n id k') (<[a := id]> (registry (put n id k'))))).
  { intros k0 k' Hk0 Hk' b k a'. change (kind_of (set_registry (put n id k') _) b) with (kind_of (put n id k') b).
    cbn [registry set_registry]. rewrite (proj2 (put_fields _ _ _)). destruct (decide (b = id)) as [->|Hne].
    - rewrite kind_put_eq by (by eapply kind_live). intros [= <-] Ha.
      assert (a' = a) as -> by congruence. by rewrite lookup_insert_eq.
    - rewrite kind_put_ne by done. intros Hk Ha. rewrite lookup_insert_ne; [by eapply Ho|].
      intros <-. by eapply Hfree. }
  destruct (kind_of n id) as [[s|d|l]|] eqn:Hk; [| |done..]; by eapply Hgo.
Qed.

Lemma owns_close n id : owns n → owns (drop_socket (close n id).1 id).
Proof.
  intros Ho. unfold close. destruct (kind_of n id) as [k|] eqn:Hk; [|by eapply owns_steady; [apply steady_drop|]].
  assert (Hdel : ∀ a, bound_of k = Some a → owns (drop_socket (wake_pipe_waiters (set_registry n (delete a (registry n))) id) id)).
  { intros a Ha b k' a' [Hk' Hne]%kind_drop Ha'. cbn. rewrite lookup_delete_ne; [by eapply Ho|].
    intros ->. apply Hne. pose proof (Ho _ _ _ Hk Ha). pose proof (Ho b k' a' Hk' Ha'). congruence. }
  assert (Hstay : ∀ m, steady n m → owns (drop_socket m id)).
  { intros m Hm. eapply owns_steady; [|exact Ho]. etrans; [exact Hm|apply steady_drop]. }
  destruct k as [s|d|l].
  - assert (H1 : steady n (put n id (Stream (with_closed s)))) by (eapply steady_put; [done|by left]).
    set (n1 := put n id _) in *. destruct (st_peer s ≫= upgrade n) as [p|]; [case_bool_decide|]; cbn [fst].
    + by apply Hstay.
    + apply Hstay. do 2 apply steady_wake. etrans; [exact H1|].
      destruct (kind_of n1 p) as [[ps| |]|] eqn:Hp; [|done..]. eapply steady_put; [done|by left].
    + by apply Hstay, steady_wake.
  - destruct (dg_bound d) as [a|] eqn:Ha; cbn [fst]; [by apply Hdel|by apply Hstay, steady_wake].
  - by apply Hdel.
Qed.

Lemma create_steady n t : room n 1 → steady n (create_socket n t).1.
Proof.
  intros Hr. unfold create_socket, new_stream, new_datagram.
  repeat case_match; try done; cbn [fst]; (eapply steady_new; [done| |eassumption]); done.
Qed.

Lemma pair_steady n t : room n 2 → steady n (create_socketpair n t).1.
Proof.
  intros Hr. assert (room n 1) by (unfold room in *; lia).
  assert (Hpair : ∀ k n1 a n2 b, bound_of k = None → new_socket n k = (n1, a) → new_socket n1 k = (n2, b) → steady n n2).
  { intros k n1 a n2 b Hk H1 H2. etrans; [by eapply steady_new|]. eapply steady_new; [|done|done].
    injection H1 as <- _. unfold room in *. cbn. rewrite wrap_small by (unfold is_u; lia). lia. }
  assert (Hput : ∀ m x k k', steady n m → kind_of m x = Some k → bound_of k' = bound_of k → steady n (put m x k')).
  { intros m x k k' Hm Hk Hb. etrans; [exact Hm|]. eapply steady_put; [done|by left]. }
  unfold create_socketpair, new_stream, new_datagram.
  destruct (new_socket n (Stream empty_stream)) as [n1 a] eqn:H1.
  destruct (new_socket n1 (Stream empty_stream)) as [n2 b] eqn:H2.
  destruct (new_socket n (Datagram empty_datagram)) as [n3 c] eqn:H3.
  destruct (new_socket n3 (Datagram empty_datagram)) as [n4 d] eqn:H4.
  pose proof (Hpair (Stream empty_stream) _ _ _ _ eq_refl H1 H2).
  pose proof (Hpair (Datagram empty_datagram) _ _ _ _ eq_refl H3 H4).
  repeat case_match; cbn [fst]; try done;
    repeat (first [done | eapply Hput; [|eassumption|reflexivity]]).
Qed.

Lemma send_steady n id data fds : steady n (unix_step n (OSend id data fds)).1.
Proof.
  cbn [unix_step]. unfold send_af_unix. destruct (kind_of n id ≫= send_target n) as [[p st]|]; [|done].
  destruct st; (destruct (kind_of n p) as [[ps|pd|l]|] eqn:Hp; try done); [destruct (closed ps); [done|]|];
    cbn [fst]; apply steady_wake; (eapply steady_put; [done|by left]).
Qed.

Lemma recv_steady n id limit : steady n (unix_step n (ORecv id limit)).1.
Proof.
  cbn [unix_step]. unfold recv_af_unix. destruct (kind_of n id) as [[s|d|l]|] eqn:Hk; [| |done..].
  - case_bool_decide; cbn [negb fst]; [by destruct (peer_closed s)|]. eapply steady_put; [done|by left].
  - destruct (rx_queue d); [done|]. eapply steady_put; [done|by left].
Qed.

Lemma listen_steady n id b : steady n (listen_af_unix n id b).1.
Proof.
  unfold listen_af_unix. destruct (kind_of n id) as [[s|d|l]|] eqn:Hk; [done|done| |done].
  eapply steady_put; [done|by left].
Qed.

Lemma accept_steady n id nb : steady n (accept_af_unix n id nb).1.
Proof.
  unfold accept_af_unix. destruct (kind_of n id) as [[s|d|l]|] eqn:Hk; [done|done| |done].
  destruct (accept_queue l) as [|c q]; [done|]. cbn [fst].
  set (n1 := put n id _). assert (steady n n1) by (eapply steady_put; [done|by left]).
  etrans; [done|]. destruct nb; [|done]. destruct (heap n1 !! c) as [sk|] eqn:Hc; [|done].
  split; [done|]. intros b k a. unfold kind_of. cbn. destruct (decide (b = c)) as [->|].
  - rewrite lookup_insert_eq, Hc. cbn. eauto.
  - rewrite lookup_insert_ne by done. eauto.
Qed.

(** Connecting to the listener [t] bound to [a]. *)
Lemma connect_listener n id a t l c : room n 1 → (∀ b, is_Some (heap n !! b) → b < next_id n) →
  registry n !! a = Some t → kind_of n t = Some (Listener l) → kind_of n id = Some (Stream c) →
  let sv := next_id n in
  let '(n', r) := connect_af_unix n id a in
  r = Ok () ∧ registry n' = registry n ∧
  kind_of n' id = Some (Stream (with_peer c (Some sv))) ∧
  kind_of n' sv = Some (Stream (with_peer empty_stream (Some id))) ∧
  kind_of n' t = Some (Listener {| ls_bound := ls_bound l; backlog := backlog l;
                                   accept_queue := accept_queue l ++ [sv] |}) ∧
  (∀ b, b ≠ id → b ≠ sv → b ≠ t → kind_of n' b = kind_of n b) ∧ woken n' = woken n ++ [t].
Proof.
  intros Hr Hlt Hreg Ht Hid sv. unfold connect_af_unix, new_stream. rewrite Hreg. cbn [mbind option_bind].
  rewrite (proj2 (upgrade_Some n t t)) by (split; [done|by eapply kind_live]). rewrite Ht.
  pose proof (new_socket_spec n (Stream empty_stream) Hr) as Hsp.
  assert (Hw : woken (new_socket n (Stream empty_stream)).1 = woken n) by done.
  destruct (new_socket n (Stream empty_stream)) as [n' sv'].
  destruct Hsp as (-> & _ & Hr1 & Hsv & Ho & _). fold sv in Hsv, Ho |- *. cbn [fst] in Hw.
  assert (id ≠ sv) by (unfold sv; pose proof (Hlt id (kind_live _ _ _ Hid)); lia).
  assert (t ≠ sv) by (unfold sv; pose proof (Hlt t (kind_live _ _ _ Ht)); lia).
  assert (id ≠ t) by congruence. rewrite bool_decide_false by done. rewrite Ho, Hid by done.
  assert (Hl1 : ∀ b k, is_Some (heap n' !! b) → is_Some (heap (put n' id k) !! b)) by (intros; by apply live_put).
  rewrite kind_put_ne, Hsv by done. set (n2 := put (put n' id _) sv _).
  assert (K2 : kind_of n2 id = Some (Stream (with_peer c (Some sv))) ∧
    kind_of n2 sv = Some (Stream (with_peer empty_stream (Some id))) ∧ kind_of n2 t = Some (Listener l) ∧
    ∀ b, b ≠ id → b ≠ sv → kind_of n2 b = kind_of n b).
  { unfold n2. repeat split.
    - rewrite kind_put_ne, kind_put_eq; [done|apply live_kind; rewrite Ho by done; by rewrite Hid|done].
    - apply kind_put_eq. apply live_put, live_kind. by rewrite Hsv.
    - rewrite !kind_put_ne, Ho by done. done.
    - intros b ??. rewrite !kind_put_ne, Ho by done. done. }
  destruct K2 as (K1 & K2 & K3 & K4). split; [done|].
  assert (Hf : ∀ x, registry (wake_pipe_waiters (put n2 t x) t) = registry n ∧
    woken (wake_pipe_waiters (put n2 t x) t) = woken n ++ [t]).
  { intros x. cbn. rewrite (proj2 (put_fields _ _ _)). unfold n2. rewrite !(proj2 (put_fields _ _ _)).
    split; [done|]. f_equal. unfold put. repeat case_match; done. }
  split; [apply Hf|]. unfold kind_of at 1 2 3 4. cbn [heap wake_pipe_waiters].
  split; [by rewrite <- K1; apply kind_put_ne|]. split; [by rewrite <- K2; apply kind_put_ne|].
  split; [apply kind_put_eq; by eapply kind_live|]. split; [|apply Hf].
  intros b ???. rewrite <- K4 by done. by apply kind_put_ne.
Qed.

Lemma connect_steady n id a : room n 1 → (∀ b, is_Some (heap n !! b) → b < next_id n) →
  steady n (connect_af_unix n id a).1.
Proof.
  intros Hr Hlt. destruct (registry n !! a ≫= upgrade n) as [t|] eqn:Hreg;
    [|unfold connect_af_unix; by rewrite Hreg].
  assert (Ht : registry n !! a = Some t).
  { destruct (registry n !! a) as [w|]; [|done]. cbn in Hreg. by apply upgrade_Some in Hreg as [-> _]. }
  destruct (kind_of n t) as [[s|d|l]|] eqn:Hk; unfold connect_af_unix; rewrite Hreg, Hk; [done| | |done].
  { case_bool_decide; [done|]. destruct (kind_of n id) as [[]|] eqn:Hi; [done| |done..].
    eapply steady_put; [done|by left]. }
  unfold new_stream. destruct (new_socket n (Stream empty_stream)) as [n' sv] eqn:Hn.
  assert (Hs : steady n n') by (eapply (steady_new n (Stream empty_stream)); done).
  case_bool_decide; [done|]. destruct (kind_of n' id) as [[c| |]|] eqn:Hi; cbn [fst];
    [|etrans; [exact Hs|apply steady_drop]..].
  pose proof (new_socket_spec n (Stream empty_stream) Hr) as Hsp. rewrite Hn in Hsp.
  destruct Hsp as (Hsv & _ & _ & Hk1 & Ho & _).
  assert (t ≠ sv) by (subst sv; pose proof (Hlt t (kind_live _ _ _ Hk)); lia).
  set (n1 := put n' id _). assert (S1 : steady n n1).
  { etrans; [exact Hs|]. eapply steady_put; [done|by left]. }
  set (n2 := match kind_of n1 sv with Some (Stream server) => _ | _ => n1 end).
  assert (S2 : steady n n2 ∧ kind_of n2 t = Some (Listener l)).
  { assert (kind_of n1 t = Some (Listener l)) by (unfold n1; rewrite kind_put_ne, Ho by congruence; done).
    unfold n2. destruct (kind_of n1 sv) as [[]|] eqn:Hs1; [|done..]. rewrite kind_put_ne by done.
    split; [|done]. etrans; [exact S1|]. eapply steady_put; [done|by left]. }
  apply steady_wake. etrans; [apply S2|]. eapply steady_put; [apply S2|by left].
Qed.

Lemma owns_step n o : room n 2 → (∀ b, is_Some (heap n !! b) → b < next_id n) →
  owns n → owns (unix_step n o).1.
Proof.
  intros Hr Hlt Ho. assert (room n 1) by (unfold room in *; lia).
  destruct o; try (by apply owns_bind); try (by apply owns_close); (eapply owns_steady; [|exact Ho]);
    try (by apply send_steady); try (by apply recv_steady); cbn [unix_step fst];
    auto using create_steady, pair_steady, listen_steady, connect_steady, accept_steady, steady_drop.
Qed.

Lemma owns_run ops : 2 * zlen ops < 2 ^ 63 → owns (unix_run net_start ops).1.
Proof.
  induction ops as [|o ops IH] using rev_ind; intros Hlen.
  { intros b k a Hk. unfold kind_of in Hk. cbn in Hk. rewrite lookup_empty in Hk. done. }
  rewrite length_app in Hlen. cbn in Hlen. specialize (IH ltac:(lia)). rewrite unix_run_snoc.
  pose proof (accounted_run ops ltac:(lia)) as Ha. destruct (unix_run net_start ops) as [n tr].
  destruct Ha as [Ha Hn]. pose proof (owns_step n o ltac:(unfold room; lia) (ac_live n tr Ha) IH) as Hs.
  by destruct (unix_step n o).
Qed.

(** After any sequence of calls a bound socket that is still alive owns
    its address: nobody can bind it again, no second socket is bound to it,
    and when it is a listener a stream socket that connects there succeeds
    and is paired with a fresh server socket at the end of the queue. *)
Theorem unix_addresses ops b k a : 2 * zlen ops < 2 ^ 62 →
  let n := (unix_run net_start ops).1 in
  kind_of n b = Some k → bound_of k = Some a →
  (∀ x, bind_af_unix n x a = (n, Err ())) ∧
  (∀ b' k', kind_of n b' = Some k' → bound_of k' = Some a → b' = b) ∧
  (∀ l c cs, k = Listener l → kind_of n c = Some (Stream cs) →
    let sv := next_id n in let '(n', r) := connect_af_unix n c a in
    r = Ok () ∧ kind_of n sv = None ∧
    kind_of n' c = Some (Stream (with_peer cs (Some sv))) ∧
    kind_of n' sv = Some (Stream (with_peer empty_stream (Some c))) ∧
    kind_of n' b = Some (Listener {| ls_bound := ls_bound l; backlog := backlog l;
                                     accept_queue := accept_queue l ++ [sv] |})).
Proof.
  intros Hlen n Hk Ha. pose proof (owns_run ops ltac:(lia)) as Ho. fold n in Ho.
  pose proof (accounted_run ops ltac:(lia)) as Hac.
  assert (accounted n (unix_run net_start ops).2 ∧ 0 ≤ next_id n ≤ 0x60000000 + 2 * zlen ops) as [Hacc Hn]
    by (unfold n; by destruct (unix_run net_start ops)).
  pose proof (Ho b k a Hk Ha) as Hreg. split; [|split].
  - intros x. unfold bind_af_unix. rewrite bool_decide_true; [done|]. rewrite Hreg. exists b.
    apply upgrade_Some. split; [done|]. by eapply kind_live.
  - intros b' k' Hk' Ha'. pose proof (Ho b' k' a Hk' Ha'). congruence.
  - intros l c cs -> Hc sv.
    pose proof (connect_listener n c a b l cs ltac:(unfold room; lia) (ac_live _ _ Hacc) Hreg Hk Hc) as Hcn.
    cbv zeta in Hcn. fold sv in Hcn. destruct (connect_af_unix n c a) as [n' r].
    destruct Hcn as (-> & _ & H1 & H2 & H3 & _). split; [done|]. split; [|done].
    destruct (kind_of n sv) as [k'|] eqn:Hsv; [|done]. apply kind_live, (ac_live _ _ Hacc) in Hsv. unfold sv in Hsv. lia.
Qed.

(** ** End of file *)

Fixpoint recvs n (b : Z) (limits : list Z) : net F * list (res unit (list Z * list F)) :=
  match limits with
  | [] => (n, [])
  | l :: rest => let '(n1, r) := recv_af_unix n b l in let '(n2, rs) := recvs n1 b rest in (n2, r :: rs)
  end.

Definition bytes_of (rs : list (res unit (list Z * list F))) : list Z :=
  mjoin ((λ r, match r with Ok (d, _) => d | _ => [] end) <$> rs).

Lemma bytes_of_cons d f rs : bytes_of (Ok (d, f) :: rs) = d ++ bytes_of rs.
Proof. done. Qed.

Lemma recvs_drain limits : ∀ n b s, kind_of n b = Some (Stream s) → peer_closed s = true →
  Forall (λ l, 0 < l) limits →
  let '(n', rs) := recvs n b limits in
  Forall (λ r, ∃ x, r = Ok x) rs ∧ bytes_of rs = take (Z.to_nat (foldr Z.add 0 limits)) (rx_buf s).
Proof.
  induction limits as [|l rest IH]; intros n b s Hk Hc Hl; cbn [recvs foldr]; [by split|].
  apply Forall_cons in Hl as [Hl Hrest].
  assert (Hsum : 0 ≤ foldr Z.add 0 rest) by (clear -Hrest; induction Hrest; cbn; lia).
  unfold recv_af_unix. rewrite Hk. case_bool_decide as He; cbn [negb].
  - rewrite Hc. specialize (IH n b s Hk Hc Hrest). destruct (recvs n b rest) as [n2 rs]. destruct IH as [I1 I2].
    split; [constructor; eauto|]. rewrite bytes_of_cons, I2.
    apply nil_length_inv in He. by rewrite He, !take_nil.
  - set (tl := Z.min (zlen (rx_buf s)) l).
    specialize (IH (put n b (Stream (with_rx s (drop (Z.to_nat tl) (rx_buf s)) []))) b
      (with_rx s (drop (Z.to_nat tl) (rx_buf s)) []) ltac:(apply kind_put_eq; by eapply kind_live) Hc Hrest).
    destruct (recvs _ b rest) as [n2 rs]. destruct IH as [I1 I2]. split; [constructor; eauto|].
    rewrite bytes_of_cons, I2. cbn [rx_buf with_rx].
    replace (Z.to_nat (l + foldr Z.add 0 rest)) with (Z.to_nat l + Z.to_nat (foldr Z.add 0%Z rest))%nat by lia.
    rewrite <- take_take_drop. destruct (decide (l ≤ zlen (rx_buf s))).
    + replace tl with l by lia. done.
    + rewrite (take_ge (rx_buf s) (Z.to_nat l)), (drop_ge (rx_buf s) (Z.to_nat l)) by lia.
      rewrite take_ge by lia. rewrite drop_ge by lia. done.
Qed.

(** Closing one end of a connected pair: the other end is woken, can no
    longer send, and whatever sizes it reads with it receives exactly the
    bytes that were waiting, in order, and then end of file; it never
    blocks. *)
Theorem unix_close_eof n a b sa sb data fds limits : a ≠ b →
  kind_of n a = Some (Stream sa) → st_peer sa = Some b →
  kind_of n b = Some (Stream sb) → Forall (λ l, 0 < l) limits →
  let '(n', r) := close n a in
  let n' := drop_socket n' a in
  let '(_, rs) := recvs n' b limits in
  r = Ok () ∧ b ∈ woken n' ∧ (send_af_unix n' b data fds).2 = Err () ∧
  Forall (λ r, ∃ x, r = Ok x) rs ∧ bytes_of rs = take (Z.to_nat (foldr Z.add 0 limits)) (rx_buf sb).
Proof.
  intros Hab Ha Hp Hb Hl. unfold close. rewrite Ha, Hp. cbn [mbind option_bind].
  rewrite (proj2 (upgrade_Some n b b)) by (split; [done|by eapply kind_live]).
  rewrite bool_decide_false, kind_put_ne, Hb by done.
  set (n1 := put (put n a _) b _). cbv zeta.
  set (n2 := drop_socket (wake_pipe_waiters (wake_pipe_waiters n1 b) a) a).
  assert (Hk2 : kind_of n2 b = Some (Stream (with_peer_closed sb))).
  { unfold n2, drop_socket.
    assert (kind_of (wake_pipe_waiters (wake_pipe_waiters n1 b) a) a = Some (Stream (with_closed sa))) as ->.
    { change (kind_of n1 a = Some (Stream (with_closed sa))). unfold n1. rewrite kind_put_ne by done.
      apply kind_put_eq. by eapply kind_live. }
    unfold kind_of. cbn. rewrite lookup_delete_ne by done. change (kind_of n1 b = Some (Stream (with_peer_closed sb))).
    apply kind_put_eq. apply live_put. by eapply kind_live. }
  pose proof (recvs_drain limits n2 b (with_peer_closed sb) Hk2 eq_refl Hl) as Hd.
  destruct (recvs n2 b limits) as [n3 rs]. split; [done|]. split.
  { unfold n2. cbn. rewrite <- app_assoc. apply elem_of_app. right. constructor. }
  split; [|exact Hd]. unfold send_af_unix. rewrite Hk2. cbn. by rewrite orb_true_r.
Qed.
End af_unix_spec.

(** ** Concrete runs *)

Definition SRV : UnixAddress := Path [47; 115].
Abbreviation S0 := 0x60000000 (only parsing).

(** A server, a client that sends before it is accepted, and the server's
    reads. *)
Definition talk : list (@unix_op Z) :=
  [OCreate 1; OBind S0 SRV; OCreate 1; OConnect (S0 + 1) SRV; OSend (S0 + 1) [1; 2; 3] [9];
   OAccept S0 false; ORecv (S0 + 2) 2].

Lemma unix_delivery_witness :
  mjoin (sent_to (S0 + 2) (unix_run net_start talk).2).*1 =
  mjoin ((λ g, g.1.2) <$> got_at (S0 + 2) (unix_run net_start talk).2) ++ [3].
Proof.
  destruct (unix_run net_start talk) as [n tr] eqn:E.
  assert (kind_of n (S0 + 2) = Some (Stream {| st_peer := Some (S0 + 1); rx_buf := [3]; rx_fds := [];
    closed := false; peer_closed := false |})) as Hk.
  { apply (f_equal fst) in E. cbn [fst] in E. rewrite <- E. vm_compute. reflexivity. }
  exact (proj1 (unix_delivery talk n tr (S0 + 2) _ ltac:(vm_compute; reflexivity) E Hk)).
Defined.

Lemma unix_addresses_witness :
  (bind_af_unix (unix_run (F := Z) net_start talk).1 (S0 + 1) SRV).2 = Err ().
Proof.
  destruct (unix_addresses talk S0 (Listener {| ls_bound := SRV; backlog := 128; accept_queue := [] |}) SRV
    ltac:(vm_compute; reflexivity) ltac:(vm_compute; reflexivity) ltac:(reflexivity)) as [H _].
  rewrite H. reflexivity.
Defined.

Lemma unix_close_eof_witness :
  let n := (unix_run (F := Z) net_start talk).1 in
  (recvs (drop_socket (close n (S0 + 1)).1 (S0 + 1)) (S0 + 2) [4; 4]).2 = [Ok ([3], []); Ok ([], [])] ∧
  (send_af_unix (drop_socket (close n (S0 + 1)).1 (S0 + 1)) (S0 + 2) [7] []).2 = Err ().
Proof.
  intros n. split; [vm_compute; reflexivity|].
  pose proof (unix_close_eof n (S0 + 1) (S0 + 2)
    {| st_peer := Some (S0 + 2); rx_buf := []; rx_fds := []; closed := false; peer_closed := false |}
    {| st_peer := Some (S0 + 1); rx_buf := [3]; rx_fds := []; closed := false; peer_closed := false |}
    [7] [] [4; 4] ltac:(discriminate) ltac:(vm_compute; reflexivity) ltac:(reflexivity) ltac:(vm_compute; reflexivity)
    ltac:(repeat constructor)) as H.
  destruct (close n (S0 + 1)) as [n' r]. cbv zeta in H.
  destruct (recvs (drop_socket n' (S0 + 1)) (S0 + 2) [4; 4]) as [n2 rs]. apply H.
Defined.

(** A datagram socket that connects to the address it is bound to waits for
    its own lock forever. *)
Theorem unix_self_connect_hangs :
  let n := (unix_run (F := Z) net_start [OCreate 2; OBind S0 SRV]).1 in
  (connect_af_unix n S0 SRV).2 = Panic.
Proof. vm_compute. reflexivity. Qed.

(** The backlog is recorded but not enforced: three clients are queued at a
    listener with backlog 1. *)
Theorem unix_backlog_ignored :
  let n := (unix_run (F := Z) net_start
    [OCreate 1; OBind S0 SRV; OListen S0 1; OCreate 1; OCreate 1; OCreate 1;
     OConnect (S0 + 1) SRV; OConnect (S0 + 2) SRV; OConnect (S0 + 3) SRV]).1 in
  kind_of n S0 = Some (Listener {| ls_bound := SRV; backlog := 1; accept_queue := [S0 + 4; S0 + 5; S0 + 6] |}).
Proof. vm_compute. reflexivity. Qed.

(** A listener that is closed with a connection still in its queue strands
    the client: it cannot send, and its reads would block forever, since
    nothing marks its peer as closed. *)
Theorem unix_close_strands_client :
  let n := (unix_run (F := Z) net_start
    [OCreate 1; OBind S0 SRV; OCreate 1; OConnect (S0 + 1) SRV; OClose S0]).1 in
  (send_af_unix n (S0 + 1) [1] []).2 = Err () ∧ (recv_af_unix n (S0 + 1) 1).2 = Err () ∧
  (has_pending_data <$> kind_of n (S0 + 1)) = Some false ∧ (can_write <$> kind_of n (S0 + 1)) = Some true.
Proof. vm_compute. done. Qed.
