(* ===== verification/PageCache.v ===== *)
(** * The page cache ([rust/kernel/src/page_cache.rs])

    Frames that hold pages of files, keyed by mount, inode and page, with
    write-back.  The filesystem below is reached through the operations of
    [BackingFs]; [fss] gives the one of each mount.  Every operation takes
    the cache lock only while it looks at the cache, so allocation can evict
    clean pages in between, which is modelled; other processors are not. *)

From stdpp Require Import gmap sorting.
From S2P Require Import Prelude Words Vfs Frames Pages.

(** What the page cache uses of a filesystem ([vfs::Filesystem]); a failed
    [read_inode] or [read] is [None]. *)
Class BackingFs (S : Type) := {
  fs_size : S → Z → option Z;
  fs_read : S → Z → Z → Z → option (list Z);
  fs_write : S → Z → Z → list Z → S * res VfsError Z;
  fs_truncate : S → Z → Z → S * res VfsError unit;
  fs_sync : S → S * res VfsError unit }.

Definition PAGE_CACHE_MAX_PAGES : Z := 16384.
Definition MAX_READAHEAD : Z := 16.
Definition BATCH_PAGES : Z := 16.

(** [PageKey]: mount, inode, page index. *)
Abbreviation PageKey := (Z * Z * Z)%type.

Record PageEntry := { frame : Z; dirty : bool; valid_bytes : Z; lru_seq : Z }.

Record PageCache := {
  entries : gmap PageKey PageEntry; file_sizes : gmap (Z * Z) Z; max_entries : Z;
  next_seq : Z; hits : Z; misses : Z }.

Definition cache_new : PageCache :=
  {| entries := ∅; file_sizes := ∅; max_entries := PAGE_CACHE_MAX_PAGES; next_seq := 1; hits := 0; misses := 0 |}.

Definition with_entries (c : PageCache) (e : gmap PageKey PageEntry) : PageCache :=
  {| entries := e; file_sizes := file_sizes c; max_entries := max_entries c;
     next_seq := next_seq c; hits := hits c; misses := misses c |}.
Definition set_file_size (c : PageCache) (mount_id ino size : Z) : PageCache :=
  {| entries := entries c; file_sizes := <[(mount_id, ino) := size]> (file_sizes c);
     max_entries := max_entries c; next_seq := next_seq c; hits := hits c; misses := misses c |}.
Definition get_file_size (c : PageCache) (mount_id ino : Z) : option Z := file_sizes c !! (mount_id, ino).
Definition count_hit (c : PageCache) : PageCache :=
  {| entries := entries c; file_sizes := file_sizes c; max_entries := max_entries c;
     next_seq := next_seq c; hits := u64 (hits c + 1); misses := misses c |}.
Definition count_miss (c : PageCache) : PageCache :=
  {| entries := entries c; file_sizes := file_sizes c; max_entries := max_entries c;
     next_seq := next_seq c; hits := hits c; misses := u64 (misses c + 1) |}.

(** [next_seq += 1] and the insertion of a page stamped with it. *)
Definition insert_page (c : PageCache) (k : PageKey) (f : Z) (d : bool) (valid : Z) : PageCache :=
  let seq := u64 (next_seq c + 1) in
  {| entries := <[k := {| frame := f; dirty := d; valid_bytes := valid; lru_seq := seq |}]> (entries c);
     file_sizes := file_sizes c; max_entries := max_entries c; next_seq := seq;
     hits := hits c; misses := misses c |}.

(** A hit: the entry as the operation leaves it. *)
Definition touch (e : PageEntry) : PageEntry :=
  {| frame := frame e; dirty := dirty e; valid_bytes := valid_bytes e;
     lru_seq := saturating_add 64 (lru_seq e) 1 |}.
Definition touch_write (e : PageEntry) (upto : Z) : PageEntry :=
  {| frame := frame e; dirty := true; valid_bytes := Z.max (valid_bytes e) upto;
     lru_seq := saturating_add 64 (lru_seq e) 1 |}.
Definition set_dirty (e : PageEntry) (d : bool) : PageEntry :=
  {| frame := frame e; dirty := d; valid_bytes := valid_bytes e; lru_seq := lru_seq e |}.

(** The order of [BTreeMap<PageKey, _>]. *)
Definition key_le (a b : PageKey * PageEntry) : Prop :=
  let '(m1, i1, p1) := a.1 in let '(m2, i2, p2) := b.1 in
  m1 < m2 ∨ m1 = m2 ∧ (i1 < i2 ∨ i1 = i2 ∧ p1 ≤ p2).
#[export] Instance key_le_dec : RelDecision key_le.
Proof. intros [[[m1 i1] p1] e1] [[[m2 i2] p2] e2]. unfold key_le. cbn. apply _. Defined.
Definition in_order (e : gmap PageKey PageEntry) : list (PageKey * PageEntry) :=
  merge_sort key_le (map_to_list e).

Definition lru_le (a b : PageKey * PageEntry) : Prop := lru_seq a.2 ≤ lru_seq b.2.
#[export] Instance lru_le_dec : RelDecision lru_le.
Proof. intros a b. unfold lru_le. apply _. Defined.

Section cache.
Context {A S : Type} `{FA : !FrameAllocator A} `{FS : !BackingFs S} (hhdm : option Z).
(** The pressure branch of [memory::alloc_frame]: the watermark, the count
    of free frames and the eviction of a user page. *)
Context (low_watermark : Z) (free_count : A → Z) (evict_user : A → A).
(** [vfs::get_mount_fs] finds the mount. *)
Context (mounted : Z → bool).

Record world := { cache : PageCache; fss : Z → S; cframes : A; cmem : memory }.

Definition with_cache (w : world) (c : PageCache) : world :=
  {| cache := c; fss := fss w; cframes := cframes w; cmem := cmem w |}.
Definition with_fs (w : world) (mount_id : Z) (s : S) : world :=
  {| cache := cache w; fss := λ x, if decide (x = mount_id) then s else fss w x;
     cframes := cframes w; cmem := cmem w |}.
Definition with_cframes (w : world) (a : A) : world :=
  {| cache := cache w; fss := fss w; cframes := a; cmem := cmem w |}.
Definition with_cmem (w : world) (m : memory) : world :=
  {| cache := cache w; fss := fss w; cframes := cframes w; cmem := m |}.

(** ** Eviction *)

(** Removing the pages of [ks] and freeing their frames. *)
Fixpoint remove_pages (w : world) (ks : list PageKey) : world :=
  match ks with
  | [] => w
  | k :: rest =>
    match entries (cache w) !! k with
    | Some e =>
      let w := with_cache w (with_entries (cache w) (delete k (entries (cache w)))) in
      remove_pages (with_cframes w (free_frame (cframes w) (frame e)).1) rest
    | None => remove_pages w rest
    end
  end.

Definition clean_keys (c : PageCache) : list PageKey :=
  (merge_sort lru_le (filter (λ ke, dirty ke.2 = false) (in_order (entries c)))).*1.

Definition evict_clean_pages (w : world) (max_count : Z) : world * Z :=
  let ks := take (Z.to_nat max_count) (clean_keys (cache w)) in
  (remove_pages w ks, zlen ks).

(** [memory::alloc_frame] *)
Definition relieve (w : world) : world :=
  let w := (evict_clean_pages w 32).1 in with_cframes w (evict_user (cframes w)).

Definition cache_alloc_frame (w : world) : world * option Z :=
  let wm := low_watermark in
  let w := if (0 <? wm) && (free_count (cframes w) <=? wm) then relieve w else w in
  let '(a, f) := alloc_frame (cframes w) in
  let w := with_cframes w a in
  match f with
  | None =>
    if 0 <? wm then
      let w := relieve w in
      let '(a, f) := alloc_frame (cframes w) in (with_cframes w a, f)
    else (w, None)
  | Some f => (w, Some f)
  end.

(** ** Reading *)

(** [while readahead_pages < MAX_READAHEAD && ...]; [n] is [MAX_READAHEAD - ra]. *)
Fixpoint readahead (n : nat) (c : PageCache) (mount_id ino page_index total ra : Z) : Z :=
  match n with
  | O => ra
  | Datatypes.S n' =>
    if (page_index + ra <? total) && bool_decide (entries c !! (mount_id, ino, page_index + ra) = None)
    then readahead n' c mount_id ino page_index total (ra + 1) else ra
  end.

Fixpoint alloc_batch (n : nat) (w : world) (fs : list Z) : world * list Z :=
  match n with
  | O => (w, fs)
  | Datatypes.S n' =>
    match cache_alloc_frame w with
    | (w, Some f) => alloc_batch n' w (fs ++ [f])
    | (w, None) => (w, fs)
    end
  end.

(** The page of [bytes] that starts at [start], padded with zeros. *)
Definition page_from (bytes : list Z) (start : Z) : list Z :=
  let chunk := take 4096 (drop (Z.to_nat start) bytes) in
  chunk ++ replicate (4096 - length chunk) 0.

(** Frames [fs] become pages [page_index + i ..] of the file, filled from
    the [bytes] read. *)
Fixpoint distribute (w : world) (mount_id ino page_index i : Z) (bytes : list Z) (fs : list Z)
    : world * res VfsError unit :=
  match fs with
  | [] => (w, Ok ())
  | f :: rest =>
    match phys_to_virt hhdm f with
    | None => (w, Err RedoxFs)
    | Some _ =>
      let chunk_start := i * 4096 in
      let valid := if chunk_start <? zlen bytes then Z.min (chunk_start + 4096) (zlen bytes) - chunk_start else 0 in
      let w := with_cmem w (set_mem (cmem w) f (page_from bytes chunk_start)) in
      let w := with_cache w (insert_page (cache w) (mount_id, ino, page_index + i) f false valid) in
      distribute w mount_id ino page_index (i + 1) bytes rest
    end
  end.

(** The miss branch: the frame that now holds the page. *)
Definition fetch_batch (w : world) (mount_id ino current_size page_index : Z) : world * res VfsError Z :=
  let total := u64 (current_size + 4096 - 1) / 4096 in
  let ra := readahead 15 (cache w) mount_id ino page_index total 1 in
  let '(w, fs) := alloc_batch (Z.to_nat ra) w [] in
  match fs with
  | [] => (w, Err NoSpace)
  | target :: _ =>
    let disk_offset := u64 (page_index * 4096) in
    let read_total := Z.min (zlen fs * 4096) (saturating_sub current_size disk_offset) in
    let bytes := default [] (fs_read (fss w mount_id) ino disk_offset read_total) in
    match distribute w mount_id ino page_index 0 bytes fs with
    | (w, Ok _) => (w, Ok target)
    | (w, Err e) => (w, Err e)
    | (w, Panic) => (w, Panic)
    end
  end.

(** The frame of one page, from the cache or the disk. *)
Definition read_frame (w : world) (mount_id ino current_size page_index : Z) : world * res VfsError Z :=
  let key := (mount_id, ino, page_index) in
  match entries (cache w) !! key with
  | Some e =>
    (with_cache w (count_hit (with_entries (cache w) (<[key := touch e]> (entries (cache w))))), Ok (frame e))
  | None => fetch_batch (with_cache w (count_miss (cache w))) mount_id ino current_size page_index
  end.

Fixpoint read_loop (fuel : nat) (w : world) (mount_id ino offset current_size to_read copied : Z) (buf : list Z)
    : world * res VfsError (list Z) :=
  if to_read <=? copied then (w, Ok buf) else
  match fuel with
  | O => (w, Panic)
  | Datatypes.S fuel' =>
    let current_offset := u64 (offset + copied) in
    let page_index := current_offset / 4096 in
    let page_offset := current_offset mod 4096 in
    let chunk_len := Z.min (Z.min (4096 - page_offset) (to_read - copied))
                           (saturating_sub current_size current_offset) in
    if chunk_len =? 0 then (w, Ok buf) else
    match read_frame w mount_id ino current_size page_index with
    | (w, Ok f) =>
      match phys_to_virt hhdm f with
      | None => (w, Err RedoxFs)
      | Some _ =>
        match slice (cmem w f) page_offset (page_offset + chunk_len) with
        | None => (w, Panic)
        | Some chunk =>
          read_loop fuel' w mount_id ino offset current_size to_read (copied + chunk_len) (buf ++ chunk)
        end
      end
    | (w, Err e) => (w, Err e)
    | (w, Panic) => (w, Panic)
    end
  end.

(** The bytes that end up in [buf]; their number is the result of the call. *)
Definition cache_read (w : world) (mount_id ino offset buf_len : Z) : world * res VfsError (list Z) :=
  if buf_len =? 0 then (w, Ok []) else
  let '(w, current_size) :=
    match get_file_size (cache w) mount_id ino with
    | Some sz => (w, sz)
    | None =>
      let sz := default 0 (fs_size (fss w mount_id) ino) in
      (with_cache w (set_file_size (cache w) mount_id ino sz), sz)
    end in
  if current_size <=? offset then (w, Ok []) else
  let to_read := Z.min buf_len (saturating_sub current_size offset) in
  if to_read =? 0 then (w, Ok []) else
  read_loop (Z.to_nat to_read) w mount_id ino offset current_size to_read 0 [].

(** ** Writing *)

(** What a new page holds before the chunk is copied in, and how much of it
    came from the disk; a page that is overwritten as a whole keeps what the
    frame held. *)
Definition base_page (w : world) (mount_id ino f initial_size page_start_disk : Z) (partial : bool) : list Z * Z :=
  if partial && (page_start_disk <? initial_size) then
    let bytes := default [] (fs_read (fss w mount_id) ino page_start_disk 4096) in
    (page_from bytes 0, zlen bytes)
  else if partial then (replicate 4096 0, 0)
  else (cmem w f, 0).

(** The frame that receives a chunk of [chunk_len] bytes at [page_offset]. *)
Definition write_frame (w : world) (mount_id ino initial_size page_index page_offset chunk_len : Z)
    : world * res VfsError Z :=
  let key := (mount_id, ino, page_index) in
  match entries (cache w) !! key with
  | Some e =>
    (with_cache w (count_hit (with_entries (cache w)
       (<[key := touch_write e (page_offset + chunk_len)]> (entries (cache w))))), Ok (frame e))
  | None =>
    match cache_alloc_frame (with_cache w (count_miss (cache w))) with
    | (w, None) => (w, Err NoSpace)
    | (w, Some f) =>
      match phys_to_virt hhdm f with
      | None => (w, Err RedoxFs)
      | Some _ =>
        let page_start_disk := u64 (page_index * 4096) in
        let partial := (0 <? page_offset) || (chunk_len <? 4096) in
        let '(page, valid) := base_page w mount_id ino f initial_size page_start_disk partial in
        let w := with_cmem w (set_mem (cmem w) f page) in
        let w := with_cache w (insert_page (cache w) key f true (Z.max valid (page_offset + chunk_len))) in
        (w, Ok f)
      end
    end
  end.

Fixpoint write_loop (fuel : nat) (w : world) (mount_id ino offset initial_size : Z) (buf : list Z) (written : Z)
    : world * res VfsError unit :=
  if zlen buf <=? written then (w, Ok ()) else
  match fuel with
  | O => (w, Panic)
  | Datatypes.S fuel' =>
    let current_offset := u64 (offset + written) in
    let page_index := current_offset / 4096 in
    let page_offset := current_offset mod 4096 in
    let chunk_len := Z.min (4096 - page_offset) (zlen buf - written) in
    match write_frame w mount_id ino initial_size page_index page_offset chunk_len with
    | (w, Ok f) =>
      match phys_to_virt hhdm f, slice buf written (written + chunk_len) with
      | None, _ => (w, Err RedoxFs)
      | Some _, None => (w, Panic)
      | Some _, Some chunk =>
        let w := with_cmem w (set_mem (cmem w) f (splice (cmem w f) page_offset chunk)) in
        write_loop fuel' w mount_id ino offset initial_size buf (written + chunk_len)
      end
    | (w, Err e) => (w, Err e)
    | (w, Panic) => (w, Panic)
    end
  end.

Definition logical_size (w : world) (mount_id ino : Z) : Z :=
  match get_file_size (cache w) mount_id ino with
  | Some sz => sz
  | None => default 0 (fs_size (fss w mount_id) ino)
  end.

Definition cache_write (w : world) (mount_id ino offset : Z) (buf : list Z) : world * res VfsError Z :=
  if zlen buf =? 0 then (w, Ok 0) else
  let initial_size := logical_size w mount_id ino in
  let new_size := Z.max initial_size (u64 (offset + zlen buf)) in
  match write_loop (length buf) w mount_id ino offset initial_size buf 0 with
  | (w, Ok _) => (with_cache w (set_file_size (cache w) mount_id ino new_size), Ok (zlen buf))
  | (w, Err e) => (w, Err e)
  | (w, Panic) => (w, Panic)
  end.

(** ** Mapped pages *)

Definition get_or_fetch_frame (w : world) (mount_id ino file_size page_index : Z) : world * res unit Z :=
  let key := (mount_id, ino, page_index) in
  match entries (cache w) !! key with
  | Some e =>
    (with_cache w (count_hit (with_entries (cache w) (<[key := touch e]> (entries (cache w))))), Ok (frame e))
  | None =>
    match cache_alloc_frame (with_cache w (count_miss (cache w))) with
    | (w, None) => (w, Err ())
    | (w, Some f) =>
      match phys_to_virt hhdm f with
      | None => (w, Err ())
      | Some _ =>
        let disk_offset := u64 (page_index * 4096) in
        let bytes := if disk_offset <? file_size
                     then default [] (fs_read (fss w mount_id) ino disk_offset 4096) else [] in
        let w := with_cmem w (set_mem (cmem w) f (page_from bytes 0)) in
        (with_cache w (insert_page (cache w) key f false (zlen bytes)), Ok f)
      end
    end
  end.

Definition change_entry (w : world) (key : PageKey) (g : PageEntry → PageEntry) : world :=
  match entries (cache w) !! key with
  | Some e => with_cache w (with_entries (cache w) (<[key := g e]> (entries (cache w))))
  | None => w
  end.

Definition mark_dirty (w : world) (mount_id ino page_index : Z) : world :=
  change_entry w (mount_id, ino, page_index) (λ e, set_dirty e true).

(** ** Write-back *)

Definition dirty_pages (c : PageCache) (mount_id ino : Z) : list (Z * Z) :=
  (λ ke, (ke.1.2, frame ke.2)) <$>
    filter (λ ke, ke.1.1 = (mount_id, ino) ∧ dirty ke.2 = true) (in_order (entries c)).

(** The contiguous pages from [start] at the head of [l], at most [n]. *)
Fixpoint batch (n : nat) (start : Z) (l : list (Z * Z)) : list Z :=
  match n, l with
  | Datatypes.S n', (p, f) :: l' => if p =? start then f :: batch n' (start + 1) l' else []
  | _, _ => []
  end.

Definition unmapped (f : Z) : bool := bool_decide (phys_to_virt hhdm f = None).

Fixpoint mark_clean (w : world) (mount_id ino start : Z) (n : nat) : world :=
  match n with
  | O => w
  | Datatypes.S n' =>
    mark_clean (change_entry w (mount_id, ino, start) (λ e, set_dirty e false)) mount_id ino (start + 1) n'
  end.

(** One batch per step; [fuel] is the number of dirty pages. *)
Fixpoint flush_loop (fuel : nat) (w : world) (mount_id ino : Z) (l : list (Z * Z)) : world * res VfsError unit :=
  match l with
  | [] => (w, Ok ())
  | (start, _) :: _ =>
    match fuel with
    | O => (w, Panic)
    | Datatypes.S fuel' =>
      let fs := batch (Z.to_nat BATCH_PAGES) start l in
      if existsb unmapped fs then (w, Err RedoxFs) else
      match fs_write (fss w mount_id) ino (u64 (start * 4096)) (data (cmem w) fs) with
      | (s, Ok _) =>
        let w := mark_clean (with_fs w mount_id s) mount_id ino start (length fs) in
        flush_loop fuel' w mount_id ino (drop (length fs) l)
      | (s, Err e) => (with_fs w mount_id s, Err e)
      | (s, Panic) => (with_fs w mount_id s, Panic)
      end
    end
  end.

Definition sync_fs (w : world) (mount_id : Z) : world * res VfsError unit :=
  let '(s, r) := fs_sync (fss w mount_id) in (with_fs w mount_id s, r).

Definition flush_inode (w : world) (mount_id ino : Z) : world * res VfsError unit :=
  let w := match get_file_size (cache w) mount_id ino with
           | Some sz => with_fs w mount_id (fs_truncate (fss w mount_id) ino sz).1
           | None => w
           end in
  let l := dirty_pages (cache w) mount_id ino in
  match flush_loop (length l) w mount_id ino l with
  | (w, Ok _) => sync_fs w mount_id
  | (w, r) => (w, r)
  end.

(** The files with cached pages, each once, in key order. *)
Definition cached_files (c : PageCache) : list (Z * Z) :=
  foldl (λ set k, if decide (k.1 ∈ set) then set else set ++ [k.1]) [] (in_order (entries c)).*1.

Definition flush_all (w : world) : world * res VfsError unit :=
  (foldl (λ w '(mount_id, ino), if mounted mount_id then (flush_inode w mount_id ino).1 else w)
     w (cached_files (cache w)), Ok ()).

(** ** Truncation and removal *)

Definition file_keys (c : PageCache) (mount_id ino from : Z) : list PageKey :=
  (filter (λ ke, ke.1.1 = (mount_id, ino) ∧ from ≤ ke.1.2) (in_order (entries c))).*1.

Definition cache_truncate (w : world) (mount_id ino new_size : Z) : world :=
  let w := with_cache w (set_file_size (cache w) mount_id ino new_size) in
  let first_removed_page := u64 (new_size + (4096 - 1)) / 4096 in
  let w := remove_pages w (file_keys (cache w) mount_id ino first_removed_page) in
  let boundary_page := new_size / 4096 in
  let boundary_offset := new_size mod 4096 in
  if 0 <? boundary_offset then
    match entries (cache w) !! (mount_id, ino, boundary_page) with
    | Some e =>
      match phys_to_virt hhdm (frame e) with
      | Some _ =>
        let page := take (Z.to_nat boundary_offset) (cmem w (frame e)) ++
                    replicate (4096 - Z.to_nat boundary_offset) 0 in
        let w := with_cmem w (set_mem (cmem w) (frame e) page) in
        with_cache w (with_entries (cache w) (<[(mount_id, ino, boundary_page) :=
          {| frame := frame e; dirty := true; valid_bytes := boundary_offset; lru_seq := lru_seq e |}]>
          (entries (cache w))))
      | None => w
      end
    | None => w
    end
  else w.

Definition invalidate_inode (w : world) (mount_id ino : Z) : world :=
  let c := cache w in
  let w := with_cache w {| entries := entries c; file_sizes := delete (mount_id, ino) (file_sizes c);
             max_entries := max_entries c; next_seq := next_seq c; hits := hits c; misses := misses c |} in
  remove_pages w (file_keys (cache w) mount_id ino 0).

(** [vfs::truncate_root] and [scheduler::truncate_current] on a cached file. *)
Definition truncate_file (w : world) (mount_id ino size : Z) : world * res VfsError unit :=
  let w := cache_truncate w mount_id ino size in
  let '(s, r) := fs_truncate (fss w mount_id) ino size in (with_fs w mount_id s, r).

Definition dirty_count (w : world) : Z :=
  zlen (filter (λ ke, dirty ke.2 = true) (in_order (entries (cache w)))).
Definition cached_pages_count (w : world) : Z := Z.of_nat (size (entries (cache w))).
End cache.

(** ** The background flusher *)

Record flusher := { ticks : Z; run_count : Z; pending : bool }.

Definition flusher_tick (f : flusher) : flusher :=
  let t := ticks f in
  {| ticks := u64 (t + 1); run_count := run_count f;
     pending := if (0 <? t) && (t mod 500 =? 0) then true else pending f |}.

(** [run_flusher]: whether [flush_all] is called. *)
Definition run_flusher (f : flusher) : flusher * bool :=
  if pending f then ({| ticks := ticks f; run_count := u64 (run_count f + 1); pending := false |}, true)
  else (f, false).
