(* ===== verification/PageCacheSpec.v ===== *)
(** * The page cache shows one file

    The bytes of a file are those of its cached pages and, elsewhere, those
    on disk.  Reads return them, writes change exactly the bytes written,
    eviction and readahead change nothing, and after a flush the disk holds
    them. *)

From stdpp Require Import gmap sorting.
From S2P Require Import Prelude Words Vfs Frames Pages PageCache.

(** Byte [o] of a string that continues with zeros. *)
Definition fbyte (l : list Z) (o : Z) : Z := default 0 (l !! Z.to_nat o).

(** What the cache relies on: the filesystem keeps byte strings, a read that
    succeeds returns their bytes (it may also fail), a write that succeeds
    stores all of its bytes, and the calls return.  A file whose inode cannot
    be read counts as empty. *)
Class BackingFsOk (S : Type) `{FS : !BackingFs S} := {
  file : S → Z → list Z;
  fs_size_ok s i : default 0 (fs_size s i) = zlen (file s i);
  fs_read_ok s i off len bs : 0 ≤ off → 0 ≤ len → fs_read s i off len = Some bs →
    bs = take (Z.to_nat len) (drop (Z.to_nat off) (file s i));
  fs_write_ok s i off bs s' n : 0 ≤ off → fs_write s i off bs = (s', Ok n) →
    (∀ o, 0 ≤ o → fbyte (file s' i) o =
       if bool_decide (off ≤ o < off + zlen bs) then fbyte bs (o - off) else fbyte (file s i) o) ∧
    zlen (file s' i) = Z.max (zlen (file s i)) (off + zlen bs) ∧
    ∀ j, j ≠ i → file s' j = file s j;
  fs_truncate_ok s i n : 0 ≤ n → let '(s', r) := fs_truncate s i n in
    (∀ j, j ≠ i → file s' j = file s j) ∧
    match r with
    | Ok _ => file s' i = take (Z.to_nat n) (file s i) ++ replicate (Z.to_nat n - length (file s i)) 0
    | _ => file s' i = file s i
    end;
  fs_sync_ok s i : file (fs_sync s).1 i = file s i;
  fs_returns s i off bs : (fs_write s i off bs).2 ≠ Panic ∧ (fs_truncate s i off).2 ≠ Panic ∧ (fs_sync s).2 ≠ Panic }.

(** The filesystem can read the file. *)
Definition readable {S} `{FS : !BackingFs S} (s : S) (i : Z) : Prop := ∀ off len, 0 ≤ off → 0 ≤ len → is_Some (fs_read s i off len).

Lemma readable_read {S} `{FS : !BackingFs S} `{FO : !BackingFsOk S} (s : S) i off len : readable s i → 0 ≤ off → 0 ≤ len →
  fs_read s i off len = Some (take (Z.to_nat len) (drop (Z.to_nat off) (file s i))).
Proof. intros Hr Ho Hl. destruct (Hr off len Ho Hl) as [bs Hbs]. by rewrite Hbs, (fs_read_ok _ _ _ _ _ Ho Hl Hbs). Qed.

Lemma fbyte_lookup l o b : l !! Z.to_nat o = Some b → fbyte l o = b.
Proof. unfold fbyte. by intros ->. Qed.

Lemma fbyte_past l o : zlen l ≤ o → fbyte l o = 0.
Proof. intros. unfold fbyte. rewrite lookup_ge_None_2 by lia. done. Qed.

Lemma fbyte_app_l l1 l2 o : 0 ≤ o < zlen l1 → fbyte (l1 ++ l2) o = fbyte l1 o.
Proof. intros. unfold fbyte. rewrite lookup_app_l by lia. done. Qed.
Lemma fbyte_app_r l1 l2 o : zlen l1 ≤ o → fbyte (l1 ++ l2) o = fbyte l2 (o - zlen l1).
Proof.
  intros. unfold fbyte. rewrite lookup_app_r by lia.
  by replace (Z.to_nat o - length l1)%nat with (Z.to_nat (o - zlen l1)) by lia.
Qed.

Lemma fbyte_zeros n o : fbyte (replicate n 0) o = 0.
Proof. unfold fbyte. destruct (replicate n 0 !! Z.to_nat o) as [x|] eqn:E; [|done]. by apply lookup_replicate in E as [-> _]. Qed.

Lemma fbyte_take_drop l a n o : 0 ≤ a → 0 ≤ o → fbyte (take n (drop (Z.to_nat a) l)) o =
  if bool_decide (o < Z.of_nat n) then fbyte l (a + o) else 0.
Proof.
  intros Ha Ho. unfold fbyte. case_bool_decide.
  - rewrite lookup_take_lt by lia. rewrite lookup_drop. by replace (Z.to_nat a + Z.to_nat o)%nat with (Z.to_nat (a + o)) by lia.
  - rewrite lookup_take_ge by lia. done.
Qed.

Lemma length_page_from bs start : length (page_from bs start) = 4096%nat.
Proof.
  unfold page_from. rewrite length_app, length_replicate.
  pose proof (length_take_le (drop (Z.to_nat start) bs) 4096). rewrite length_take. lia.
Qed.

Lemma fbyte_page_from bs start j : 0 ≤ start → 0 ≤ j < 4096 → fbyte (page_from bs start) j = fbyte bs (start + j).
Proof.
  intros Hs Hj. unfold page_from. set (c := take 4096 _).
  destruct (decide (j < zlen c)).
  - rewrite fbyte_app_l by lia. unfold c. rewrite fbyte_take_drop by lia. by rewrite bool_decide_true by lia.
  - rewrite fbyte_app_r, fbyte_zeros by lia. symmetry. apply fbyte_past.
    unfold c in n. rewrite length_take, length_drop in n. lia.
Qed.

Lemma fbyte_splice l off bs j : 0 ≤ off → off + zlen bs ≤ zlen l → 0 ≤ j →
  fbyte (splice l off bs) j = if bool_decide (off ≤ j < off + zlen bs) then fbyte bs (j - off) else fbyte l j.
Proof.
  intros Ho Hl Hj. unfold splice. assert (Ht : length (take (Z.to_nat off) l) = Z.to_nat off) by (rewrite length_take; lia).
  case_bool_decide.
  - rewrite fbyte_app_r, Ht by lia. rewrite fbyte_app_l by lia. f_equal. lia.
  - destruct (decide (j < off)).
    + rewrite fbyte_app_l by lia. unfold fbyte. by rewrite lookup_take_lt by lia.
    + rewrite app_assoc, fbyte_app_r by (rewrite length_app; lia). unfold fbyte. rewrite lookup_drop.
      do 2 f_equal. rewrite length_app. lia.
Qed.

(** Two strings with the same bytes are equal. *)
Lemma fbyte_eq l1 l2 : length l1 = length l2 → (∀ o, 0 ≤ o < zlen l1 → fbyte l1 o = fbyte l2 o) → l1 = l2.
Proof.
  intros Hl He. apply list_eq_same_length with (length l1); [done|done|].
  intros i x y Hi Hx Hy. specialize (He (Z.of_nat i) ltac:(lia)).
  unfold fbyte in He. rewrite Nat2Z.id, Hx, Hy in He. done.
Qed.

(** Page and position of an offset. *)
Lemma page_pos o : 0 ≤ o → 0 ≤ o / 4096 ∧ 0 ≤ o mod 4096 < 4096 ∧ o = 4096 * (o / 4096) + o mod 4096.
Proof.
  intros. pose proof (Z.div_mod o 4096 ltac:(lia)). pose proof (Z.mod_pos_bound o 4096 ltac:(lia)).
  split; [apply Z.div_pos; lia|]. lia.
Qed.

Lemma pos_page p j : 0 ≤ j < 4096 → (4096 * p + j) / 4096 = p ∧ (4096 * p + j) mod 4096 = j.
Proof.
  intros. split; [rewrite Z.mul_comm, Z.div_add_l, Z.div_small by lia; lia|].
  rewrite Z.add_comm, Z.mul_comm, Z_mod_plus_full. by apply Z.mod_small.
Qed.

Section spec.
Context {A S : Type} `{FA : !FrameAllocator A} `{FS : !BackingFs S} `{FO : !BackingFsOk S} (hhdm : option Z).
Context (low_watermark : Z) (free_count : A → Z) (evict_user : A → A).
Implicit Types w : @world A S.

Definition disk_byte w (m i o : Z) : Z := fbyte (file (fss w m) i) o.

(** Byte [o] of the file [i] of mount [m]. *)
Definition byte w (m i o : Z) : Z :=
  match entries (cache w) !! (m, i, o / 4096) with
  | Some e => fbyte (cmem w (frame e)) (o mod 4096)
  | None => disk_byte w m i o
  end.

(** [P]: frames allocated but not in the cache yet.  Clean pages are copies
    of the disk; past [ld] the disk is zero where it is seen, past [lw] the
    dirty pages are zero. *)
Record coherent (ld lw : Z → Z → Z) w (H : gset Z) (P : list Z) : Prop := {
  co_mem : mem_ok (cmem w);
  co_holds : holds (cframes w) H;
  co_frame k e : entries (cache w) !! k = Some e → frame e ∈ H;
  co_inj k1 k2 e1 e2 : entries (cache w) !! k1 = Some e1 → entries (cache w) !! k2 = Some e2 →
    frame e1 = frame e2 → k1 = k2;
  co_spare : NoDup P;
  co_spare_held f : f ∈ P → f ∈ H;
  co_spare_free f k e : f ∈ P → entries (cache w) !! k = Some e → frame e ≠ f;
  co_index k e : entries (cache w) !! k = Some e → 0 ≤ k.2 < 2 ^ 52;
  co_clean m i p e : entries (cache w) !! (m, i, p) = Some e → dirty e = false →
    ∀ j, 0 ≤ j < 4096 → fbyte (cmem w (frame e)) j = disk_byte w m i (4096 * p + j);
  co_disk m i o : 0 ≤ o → ld m i ≤ o →
    (∀ e, entries (cache w) !! (m, i, o / 4096) = Some e → dirty e = false) → disk_byte w m i o = 0;
  co_dirty m i o e : 0 ≤ o → lw m i ≤ o → entries (cache w) !! (m, i, o / 4096) = Some e → dirty e = true →
    fbyte (cmem w (frame e)) (o mod 4096) = 0 }.

(** A step that changes no byte, no size and not the disk. *)
Record silent w w' : Prop := {
  si_byte m i o : 0 ≤ o → byte w' m i o = byte w m i o;
  si_size m i : logical_size w' m i = logical_size w m i;
  si_fss : fss w' = fss w }.

#[local] Instance silent_refl : Reflexive silent.
Proof. by intros w. Qed.
#[local] Instance silent_trans : Transitive silent.
Proof.
  intros w1 w2 w3 [B1 Z1 F1] [B2 Z2 F2]. split; [|congruence|congruence].
  intros m i o Ho. by rewrite B2, B1.
Qed.

(** ** Removing pages *)

Lemma coherent_delete ld lw w H P k e : coherent ld lw w H P → entries (cache w) !! k = Some e →
  (dirty e = false ∨ ∀ o, 0 ≤ o → o / 4096 = k.2 → ld k.1.1 k.1.2 ≤ o → disk_byte w k.1.1 k.1.2 o = 0) →
  coherent ld lw (with_cframes (with_cache w (with_entries (cache w) (delete k (entries (cache w)))))
    (free_frame (cframes w) (frame e)).1) (H ∖ {[frame e]}) P.
Proof.
  intros Hc Hk Hd. destruct Hc as [C1 C2 C3 C4 C5 C5h C5f C6 C7 C8 C9].
  destruct (free_frame_held (cframes w) H (frame e) C2 (C3 k e Hk)) as (a' & Ha & Hh). rewrite Ha.
  split; cbn [fst cmem cframes cache fss with_cframes with_cache entries with_entries]; try done.
  - intros k' e' [Hne Hk']%lookup_delete_Some. apply elem_of_difference. split; [by eapply C3|].
    rewrite elem_of_singleton. intros Hf. apply Hne. symmetry. by eapply C4.
  - intros k1 k2 e1 e2 [_ H1]%lookup_delete_Some [_ H2]%lookup_delete_Some. by eapply C4.
  - intros f Hf. apply elem_of_difference. split; [auto|]. rewrite elem_of_singleton. intros ->. by eapply C5f.
  - intros f k' e' Hf [_ Hk']%lookup_delete_Some. by eapply C5f.
  - intros k' e' [_ Hk']%lookup_delete_Some. by eapply C6.
  - intros m i p e' [_ Hk']%lookup_delete_Some. by eapply C7.
  - intros m i o Ho Hl Hcl. destruct (decide (k = (m, i, o / 4096))) as [->|Hne].
    + destruct Hd as [Hd|Hd]; [|by apply (Hd o)]. apply C8; [done|done|]. intros e' He'. congruence.
    + apply C8; [done|done|]. intros e' He'. apply Hcl. by rewrite lookup_delete_ne.
  - intros m i o e' Ho Hl [_ Hk']%lookup_delete_Some. by eapply C9.
Qed.

Lemma delete_silent ld lw w H P k e a : coherent ld lw w H P → entries (cache w) !! k = Some e → dirty e = false →
  silent w (with_cframes (with_cache w (with_entries (cache w) (delete k (entries (cache w))))) a).
Proof.
  intros Hc Hk Hd. split; [|done|done].
  intros m i o Ho. unfold byte. cbn [cache with_cframes with_cache entries with_entries cmem].
  destruct (decide (k = (m, i, o / 4096))) as [->|Hne]; [|by rewrite lookup_delete_ne].
  rewrite lookup_delete_eq, Hk. destruct (page_pos o Ho) as (_ & Hj & Heq).
  rewrite (co_clean _ _ _ _ _ Hc m i _ e Hk Hd) by done. unfold disk_byte. cbn. by rewrite <- Heq.
Qed.

(** Pages only disappear. *)
Definition shrinks w w' : Prop := ∀ k e, entries (cache w') !! k = Some e → entries (cache w) !! k = Some e.

Lemma remove_clean ld lw ks : ∀ w H P, coherent ld lw w H P → 
  (∀ k e, k ∈ ks → entries (cache w) !! k = Some e → dirty e = false) →
  silent w (remove_pages w ks) ∧ shrinks w (remove_pages w ks) ∧ ∃ H', coherent ld lw (remove_pages w ks) H' P.
Proof.
  induction ks as [|k ks IH]; intros w H P Hc Hcl; cbn [remove_pages]; [split; [done|split; [by intros k e|eauto]]|].
  destruct (entries (cache w) !! k) as [e|] eqn:Hk.
  2:{ apply (IH w H P Hc). intros k' e' Hin. apply Hcl. by right. }
  assert (Hd : dirty e = false) by (apply (Hcl k); [by left|done]).
  pose proof (coherent_delete ld lw w H P k e Hc Hk (or_introl Hd)) as Hc1.
  pose proof (delete_silent ld lw w H P k e (free_frame (cframes w) (frame e)).1 Hc Hk Hd) as Hs1.
  cbn [cframes with_cache]. set (w1 := with_cframes _ _) in *.
  assert (Hsh : shrinks w w1) by (intros k' e'; cbn; by intros [_ ?]%lookup_delete_Some).
  destruct (IH w1 _ P Hc1) as (Hs2 & Hsh2 & Hc2).
  { intros k' e' Hin Hk'%Hsh. apply (Hcl k'); [by right|done]. }
  split; [by etrans|]. split; [|done]. intros k' e' ?%Hsh2. by apply Hsh.
Qed.

(** ** Allocation *)

Lemma elem_of_in_order (e : gmap PageKey PageEntry) k x : (k, x) ∈ in_order e ↔ e !! k = Some x.
Proof. unfold in_order. rewrite merge_sort_Permutation. apply elem_of_map_to_list. Qed.

Lemma clean_keys_clean w k e : k ∈ clean_keys (cache w) → entries (cache w) !! k = Some e → dirty e = false.
Proof.
  unfold clean_keys. intros ([k' e'] & -> & Hin)%list_elem_of_fmap Hk. rewrite merge_sort_Permutation in Hin.
  apply list_elem_of_filter in Hin as [Hd Hin%elem_of_in_order]. cbn in *. congruence.
Qed.

Lemma remove_pages_other ks : ∀ w k e,
  (∀ k e, k ∈ ks → entries (cache w) !! k = Some e → dirty e = false) →
  entries (cache w) !! k = Some e → dirty e = true → entries (cache (remove_pages w ks)) !! k = Some e.
Proof.
  induction ks as [|k0 ks IH]; intros w k e Hcl Hk Hd; [done|]. cbn [remove_pages].
  destruct (entries (cache w) !! k0) as [e0|] eqn:Hk0.
  2:{ apply IH; [|done|done]. intros k' e' Hin. apply Hcl. by right. }
  apply IH; [| |done]; cbn.
  - intros k' e' Hin [_ ?]%lookup_delete_Some. eapply Hcl; [by right|done].
  - rewrite lookup_delete_ne; [done|]. intros ->. pose proof (Hcl k e ltac:(by left) Hk). congruence.
Qed.

Definition alloc_ok ld lw w P (r : world * option Z) : Prop :=
  silent w r.1 ∧ shrinks w r.1 ∧ ∃ H', match r.2 with
  | Some f => coherent ld lw r.1 H' (P ++ [f])
  | None => coherent ld lw r.1 H' P
  end.

Context (Huser : ∀ a H, holds a H → holds (evict_user a) H).

Lemma coherent_frames ld lw w H P a H' : coherent ld lw w H P → holds a H' → H ⊆ H' →
  coherent ld lw (with_cframes w a) H' P.
Proof.
  intros [C1 C2 C3 C4 C5 C5h C5f C6 C7 C8 C9] Ha Hs. split; try done.
  - intros k e Hk. apply Hs. by eapply C3.
  - intros f Hf. auto.
Qed.

Lemma frames_silent w a : silent w (with_cframes w a).
Proof. done. Qed.

Lemma relieve_spec ld lw w H P : coherent ld lw w H P →
  silent w (relieve evict_user w) ∧ shrinks w (relieve evict_user w) ∧ ∃ H', coherent ld lw (relieve evict_user w) H' P.
Proof.
  intros Hc. unfold relieve, evict_clean_pages. cbn [fst].
  destruct (remove_clean ld lw (take (Z.to_nat 32) (clean_keys (cache w))) w H P Hc) as (Hs & Hsh & H1 & Hc1).
  { intros k e Hin. apply clean_keys_clean. by eapply elem_of_take in Hin as (? & ?%list_elem_of_lookup_2 & _). }
  split; [by etrans; [exact Hs|apply frames_silent]|]. split; [exact Hsh|].
  exists H1. eapply coherent_frames; [done|by apply Huser, Hc1|done].
Qed.

Lemma alloc_plain ld lw w H P : coherent ld lw w H P →
  alloc_ok ld lw w P (let '(a, f) := alloc_frame (cframes w) in (with_cframes w a, f)).
Proof.
  intros Hc. destruct (alloc_frame (cframes w)) as [a [f|]] eqn:Ha; unfold alloc_ok; cbn [fst snd];
    (split; [apply frames_silent|]; split; [by intros k e|]).
  - destruct (alloc_frame_some _ H a f (co_holds _ _ _ _ _ Hc) Ha) as [Hf Hh]. exists ({[f]} ∪ H).
    assert (Hc' : coherent ld lw (with_cframes w a) ({[f]} ∪ H) P) by (eapply coherent_frames; [done|done|set_solver]).
    destruct Hc as [_ _ C3 _ _ C5h _ _ _ _ _]. destruct Hc' as [D1 D2 D3 D4 D5 D5h D5f D6 D7 D8 D9]. split; try done.
    + apply NoDup_app. split; [done|]. split; [|by apply NoDup_singleton]. intros g Hg ->%list_elem_of_singleton. auto.
    + intros g [Hg| ->%list_elem_of_singleton]%elem_of_app; [auto|]. by apply elem_of_union_l, elem_of_singleton.
    + intros g k e [Hg| ->%list_elem_of_singleton]%elem_of_app Hk; [by eapply D5f|]. intros <-. apply Hf. by eapply C3.
  - exists H. eapply coherent_frames; [done|exact (alloc_frame_none _ H a (co_holds _ _ _ _ _ Hc) Ha)|done].
Qed.

Lemma alloc_spec ld lw w H P : coherent ld lw w H P →
  alloc_ok ld lw w P (cache_alloc_frame low_watermark free_count evict_user w).
Proof.
  intros Hc. unfold cache_alloc_frame. set (w0 := if _ && _ then _ else w).
  assert (H0 : silent w w0 ∧ shrinks w w0 ∧ ∃ H', coherent ld lw w0 H' P).
  { unfold w0. case_match; [by eapply relieve_spec|]. split; [done|]. split; [by intros k e|eauto]. }
  destruct H0 as (Hs0 & Hsh0 & H0 & Hc0). clearbody w0.
  assert (Hjoin : ∀ w1 r, silent w w1 → shrinks w w1 → alloc_ok ld lw w1 P r → alloc_ok ld lw w P r).
  { intros w1 r Hs1 Hsh1 (Hs2 & Hsh2 & Hc2). assert (Hsh : shrinks w r.1) by (intros k e ?%Hsh2; by apply Hsh1).
    split; [by etrans|by split]. }
  pose proof (alloc_plain ld lw w0 H0 P Hc0) as Hp. destruct (alloc_frame (cframes w0)) as [a [f|]].
  { by eapply Hjoin. }
  destruct (0 <? low_watermark); [|by eapply Hjoin].
  destruct Hp as (Hs1 & Hsh1 & H1 & Hc1). cbn [fst snd] in *.
  destruct (relieve_spec _ _ _ _ _ Hc1) as (Hs2 & Hsh2 & H2 & Hc2).
  eapply Hjoin; [| |by eapply alloc_plain].
  - etrans; [exact Hs0|]. by etrans.
  - intros k e Hk%Hsh2%Hsh1. by apply Hsh0.
Qed.

Lemma alloc_batch_spec ld lw n : ∀ w H P, coherent ld lw w H P →
  let '(w', fs) := alloc_batch low_watermark free_count evict_user n w P in
  silent w w' ∧ shrinks w w' ∧ (∃ l, fs = P ++ l) ∧ ∃ H', coherent ld lw w' H' fs.
Proof.
  induction n as [|n IH]; intros w H P Hc; cbn [alloc_batch].
  { split; [done|]. split; [by intros k e|]. split; [exists []; by rewrite app_nil_r|eauto]. }
  pose proof (alloc_spec ld lw w H P Hc) as Ha.
  destruct (cache_alloc_frame _ _ _ w) as [w1 [f|]]; destruct Ha as (Hs & Hsh & H1 & Hc1); cbn [fst snd] in *.
  - specialize (IH w1 H1 (P ++ [f]) Hc1). destruct (alloc_batch _ _ _ n w1 (P ++ [f])) as [w2 fs].
    destruct IH as (Hs2 & Hsh2 & [l ->] & Hc2).
    split; [by etrans|]. split; [intros k e ?%Hsh2; by apply Hsh|].
    split; [exists ([f] ++ l); by rewrite app_assoc|done].
  - split; [done|]. split; [done|]. split; [exists []; by rewrite app_nil_r|eauto].
Qed.

(** ** Adding a page *)

Definition add_page w (m i p f : Z) (page : list Z) (d : bool) (valid : Z) : world :=
  with_cache (with_cmem w (set_mem (cmem w) f page)) (insert_page (cache w) (m, i, p) f d valid).

Lemma coherent_add ld lw w H P f m i p page (d : bool) valid : coherent ld lw w H (f :: P) →
  entries (cache w) !! (m, i, p) = None → 0 ≤ p < 2 ^ 52 → length page = 4096%nat →
  (if d then ∀ j, 0 ≤ j < 4096 → lw m i ≤ 4096 * p + j → fbyte page j = 0
   else ∀ j, 0 ≤ j < 4096 → fbyte page j = disk_byte w m i (4096 * p + j)) →
  coherent ld lw (add_page w m i p f page d valid) H P.
Proof.
  intros [C1 C2 C3 C4 C5 C5h C5f C6 C7 C8 C9] Hk Hp Hl Hd. apply NoDup_cons in C5 as [Hf HP].
  assert (Hother : ∀ k e, entries (cache w) !! k = Some e → set_mem (cmem w) f page (frame e) = cmem w (frame e)).
  { intros k e He. unfold set_mem. rewrite decide_False; [done|]. apply (C5f f k e); [by left|done]. }
  assert (Hnew : set_mem (cmem w) f page f = page) by (unfold set_mem; by rewrite decide_True).
  split; cbn [add_page with_cache with_cmem cmem cache cframes fss insert_page entries].
  - by apply set_mem_ok.
  - done.
  - intros k e. rewrite lookup_insert_Some. intros [[<- <-]|[_ He]]; [|by eapply C3]. apply C5h. by left.
  - intros k1 k2 e1 e2. rewrite !lookup_insert_Some. intros [[<- <-]|[_ H1]] [[<- <-]|[_ H2]] Hfr; cbn in Hfr.
    + done.
    + exfalso. apply (C5f f k2 e2); [by left|done|done].
    + exfalso. apply (C5f f k1 e1); [by left|done|done].
    + by eapply C4.
  - done.
  - intros g Hg. apply C5h. by right.
  - intros g k e Hg. rewrite lookup_insert_Some. intros [[<- <-]|[_ He]]; cbn; [by intros ->|].
    eapply C5f; [by right|done].
  - intros k e. rewrite lookup_insert_Some. intros [[<- <-]|[_ He]]; [done|by eapply C6].
  - intros m' i' p' e. rewrite lookup_insert_Some. intros [[[= <- <- <-] <-]|[_ He]] Hdr j Hj; cbn in *.
    + subst d. rewrite Hnew. by apply Hd.
    + rewrite (Hother _ _ He). by eapply C7.
  - intros m' i' o Ho Hlo Hcl. apply C8; [done|done|]. intros e He. apply Hcl.
    rewrite lookup_insert_ne; [done|]. congruence.
  - intros m' i' o e Ho Hlo. rewrite lookup_insert_Some. intros [[[= <- <- Hpo] <-]|[_ He]] Hdr; cbn in *.
    + subst d. rewrite Hnew. destruct (page_pos o Ho) as (_ & Hj & Heq). apply Hd; [done|]. rewrite Hpo. lia.
    + rewrite (Hother _ _ He). by eapply C9.
Qed.

Lemma byte_add ld lw w H P f m i p page d valid m' i' o : coherent ld lw w H (f :: P) → 0 ≤ o →
  byte (add_page w m i p f page d valid) m' i' o =
  if bool_decide ((m', i', o / 4096) = (m, i, p)) then fbyte page (o mod 4096) else byte w m' i' o.
Proof.
  intros Hc Ho. unfold byte. cbn [add_page with_cache with_cmem cmem cache insert_page entries].
  case_bool_decide as Hk.
  - rewrite Hk, lookup_insert_eq. cbn. unfold set_mem. by rewrite decide_True.
  - rewrite lookup_insert_ne by congruence. destruct (entries (cache w) !! (m', i', o / 4096)) as [e|] eqn:He; [|done].
    unfold set_mem. rewrite decide_False; [done|]. eapply (co_spare_free _ _ _ _ _ Hc f); [by left|done].
Qed.

Lemma add_clean_silent ld lw w H P f m i p page valid : coherent ld lw w H (f :: P) →
  entries (cache w) !! (m, i, p) = None →
  (∀ j, 0 ≤ j < 4096 → fbyte page j = disk_byte w m i (4096 * p + j)) →
  silent w (add_page w m i p f page false valid).
Proof.
  intros Hc Hk Hd. split; [|done|done]. intros m' i' o Ho.
  rewrite (byte_add ld lw w H P) by done. case_bool_decide as He; [|done]. injection He as -> -> <-.
  destruct (page_pos o Ho) as (_ & Hj & Heq). unfold byte. rewrite Hk, Hd by done. by rewrite <- Heq.
Qed.

(** ** Fetching *)

Lemma distribute_spec ld lw bytes m i p fs : ∀ w H n, coherent ld lw w H fs → 0 ≤ p → 0 ≤ n → p + n + zlen fs ≤ 2 ^ 52 →
  (∀ x, n ≤ x < n + zlen fs → entries (cache w) !! (m, i, p + x) = None) →
  (∀ x j, n ≤ x < n + zlen fs → 0 ≤ j < 4096 → fbyte bytes (x * 4096 + j) = disk_byte w m i (4096 * (p + x) + j)) →
  let '(w', r) := distribute hhdm w m i p n bytes fs in
  r ≠ Panic ∧ silent w w' ∧ (∃ P', coherent ld lw w' H P') ∧
  (∀ k e, entries (cache w) !! k = Some e → entries (cache w') !! k = Some e) ∧
  (r = Ok () → ∀ x f, 0 ≤ x → fs !! Z.to_nat x = Some f → ∃ e, entries (cache w') !! (m, i, p + (n + x)) = Some e ∧ frame e = f).
Proof.
  induction fs as [|f fs IH]; intros w H n Hc Hp Hn Hup Hnone Hbytes; cbn [distribute].
  { split; [done|]. split; [done|]. split; [eauto|]. split; [done|]. intros _ x f Hx Hf. by rewrite lookup_nil in Hf. }
  destruct (phys_to_virt hhdm f); [|split; [done|]; split; [done|]; split; [eauto|]; done].
  cbn [length] in Hup, Hnone, Hbytes. set (v := if _ <? _ then _ else 0).
  assert (Hpage : ∀ j, 0 ≤ j < 4096 → fbyte (page_from bytes (n * 4096)) j = disk_byte w m i (4096 * (p + n) + j)).
  { intros j Hj. rewrite fbyte_page_from by lia. apply Hbytes; lia. }
  pose proof (Hnone n ltac:(lia)) as Hk.
  pose proof (coherent_add ld lw w H fs f m i (p + n) (page_from bytes (n * 4096)) false v Hc Hk ltac:(lia)
    (length_page_from _ _) Hpage) as Hc1.
  pose proof (add_clean_silent ld lw w H fs f m i (p + n) (page_from bytes (n * 4096)) v Hc Hk Hpage) as Hs1.
  change (with_cache _ (insert_page _ (m, i, p + n) f false v)) with
    (add_page w m i (p + n) f (page_from bytes (n * 4096)) false v).
  set (w1 := add_page _ _ _ _ _ _ _ _) in *.
  assert (Hkeep1 : ∀ k e, entries (cache w) !! k = Some e → entries (cache w1) !! k = Some e).
  { intros k e He. cbn. rewrite lookup_insert_ne; [done|]. congruence. }
  specialize (IH w1 H (n + 1) Hc1 Hp ltac:(lia) ltac:(lia)). destruct (distribute hhdm w1 m i p (n + 1) bytes fs) as [w2 r].
  destruct IH as (Hr & Hs2 & Hc2 & Hkeep & Hgot).
  { intros x Hx. cbn. rewrite lookup_insert_ne by (intros [= ?]; lia). apply Hnone. lia. }
  { intros x j Hx Hj. apply Hbytes; lia. }
  split; [done|]. split; [by etrans|]. split; [done|]. split; [auto|]. intros Hok x g Hx Hg.
  destruct (decide (x = 0)) as [->|].
  - injection Hg as <-. rewrite Z.add_0_r. eexists. split; [apply Hkeep; cbn; apply lookup_insert_eq|done].
  - replace (Z.to_nat x) with (Datatypes.S (Z.to_nat (x - 1))) in Hg by lia.
    destruct (Hgot Hok (x - 1) g ltac:(lia) Hg) as (e & He & Hfr). exists e. split; [|done].
    by replace (p + (n + x)) with (p + (n + 1 + (x - 1))) by lia.
Qed.

Lemma coherent_forget ld lw w H P : coherent ld lw w H P → coherent ld lw w H [].
Proof.
  intros [C1 C2 C3 C4 C5 C5h C5f C6 C7 C8 C9]. split; try done; [by constructor|by intros f ?%not_elem_of_nil|].
  by intros f k e ?%not_elem_of_nil.
Qed.

(** The counters and the recency of a page are invisible. *)
Lemma coherent_same ld lw w c H P : coherent ld lw w H P →
  (∀ k e', entries c !! k = Some e' → ∃ e, entries (cache w) !! k = Some e ∧ frame e' = frame e ∧ dirty e' = dirty e) →
  (∀ k, entries (cache w) !! k = None → entries c !! k = None) →
  (∀ k e, entries (cache w) !! k = Some e → is_Some (entries c !! k)) →
  (∀ k, file_sizes c !! k = file_sizes (cache w) !! k) →
  coherent ld lw (with_cache w c) H P ∧ silent w (with_cache w c).
Proof.
  intros [C1 C2 C3 C4 C5 C5h C5f C6 C7 C8 C9] He Hn Hs Hf. split.
  - split; cbn [with_cache cmem cframes cache fss]; try done.
    + intros k e' (e & ? & -> & _)%He. by eapply C3.
    + intros k1 k2 e1 e2 (e1' & ? & -> & _)%He (e2' & ? & -> & _)%He. by eapply C4.
    + intros f k e' Hin (e & ? & -> & _)%He. by eapply C5f.
    + intros k e' (e & ? & _)%He. by eapply C6.
    + intros m i p e' (e & ? & -> & ->)%He. by eapply C7.
    + intros m i o Ho Hl Hcl. apply C8; [done|done|]. intros e Hk. destruct (Hs _ _ Hk) as [e' Hk'].
      destruct (He _ _ Hk') as (e0 & ? & _ & Hd). rewrite (Hcl e' Hk') in Hd. congruence.
    + intros m i o e' Ho Hl (e & ? & -> & ->)%He. by eapply C9.
  - split; [|intros m i; unfold logical_size, get_file_size; cbn; by rewrite Hf|done].
    intros m i o Ho. unfold byte. cbn [with_cache cache cmem].
    destruct (entries c !! (m, i, o / 4096)) as [e'|] eqn:Hk'.
    + destruct (He _ _ Hk') as (e & -> & -> & _). done.
    + destruct (entries (cache w) !! (m, i, o / 4096)) as [e|] eqn:Hk; [|done].
      destruct (Hs _ _ Hk). congruence.
Qed.

Lemma readahead_spec n c m i p total : ∀ ra, 1 ≤ ra →
  let r := readahead n c m i p total ra in
  ra ≤ r ≤ ra + Z.of_nat n ∧ ∀ x, ra ≤ x < r → entries c !! (m, i, p + x) = None.
Proof.
  induction n as [|n IH]; intros ra Hra; cbn [readahead]; [split; [lia|lia]|].
  destruct (p + ra <? total); cbn [andb]; [|split; lia]. case_bool_decide as Hn; [|split; lia].
  destruct (IH (ra + 1) ltac:(lia)) as [Hr Hx]. cbv zeta. split; [lia|].
  intros x Hx'. destruct (decide (x = ra)) as [->|]; [done|apply Hx; lia].
Qed.

Lemma fetch_batch_spec ld lw w H P m i p : coherent ld lw w H P → readable (fss w m) i → entries (cache w) !! (m, i, p) = None →
  0 ≤ p → 4096 * p < ld m i → ld m i ≤ 2 ^ 63 →
  let '(w', r) := fetch_batch hhdm low_watermark free_count evict_user w m i (ld m i) p in
  r ≠ Panic ∧ silent w w' ∧ (∃ H' P', coherent ld lw w' H' P') ∧
  match r with Ok f => ∃ e, entries (cache w') !! (m, i, p) = Some e ∧ frame e = f | _ => True end.
Proof.
  intros Hc%coherent_forget Hrd Hk Hp Hlt Hle. unfold fetch_batch.
  set (total := u64 _ / 4096).
  destruct (readahead_spec 15 (cache w) m i p total 1 ltac:(lia)) as [Hra Hnone].
  set (ra := readahead 15 _ _ _ _ _ _) in *.
  pose proof (alloc_batch_spec ld lw (Z.to_nat ra) w H [] Hc) as Ha.
  destruct (alloc_batch _ _ _ _ w []) as [w1 fs] eqn:Eb.
  destruct Ha as (Hs1 & Hsh & _ & H1 & Hc1).
  assert (Hlen : zlen fs ≤ ra).
  { assert (Hl : ∀ n w P, (length (alloc_batch low_watermark free_count evict_user n w P).2 ≤ length P + n)%nat).
    { clear. induction n as [|n IH]; intros w P; cbn [alloc_batch]; [cbn; lia|].
      destruct (cache_alloc_frame _ _ _ w) as [w1 [f|]]; [|cbn; lia]. specialize (IH w1 (P ++ [f])).
      rewrite length_app in IH. cbn [length] in IH. lia. }
    specialize (Hl (Z.to_nat ra) w []). rewrite Eb in Hl. cbn [snd length] in Hl. lia. }
  destruct fs as [|target fs]; [split; [done|]; split; [done|]; split; [eauto|done]|].
  assert (Hmiss : ∀ x, 0 ≤ x < 0 + zlen (target :: fs) → entries (cache w1) !! (m, i, p + x) = None).
  { intros x Hx. destruct (entries (cache w1) !! (m, i, p + x)) as [e|] eqn:He; [|done]. apply Hsh in He.
    destruct (decide (x = 0)) as [->|]; [rewrite Z.add_0_r in He; congruence|].
    rewrite Hnone in He by lia. done. }
  rewrite (wrap_small 64 (p * 4096)) by (unfold is_u; lia).
  set (rt := Z.min _ _). rewrite <- (si_fss _ _ Hs1) in Hrd. rewrite readable_read by (done || (unfold rt, saturating_sub; lia)). cbn [default from_option id].
  set (bytes := take _ _).
  pose proof (distribute_spec ld lw bytes m i p (target :: fs) w1 H1 0 Hc1 Hp ltac:(lia) ltac:(lia) Hmiss) as Hd.
  destruct (distribute hhdm w1 m i p 0 bytes (target :: fs)) as [w2 r].
  destruct Hd as (Hr & Hs2 & Hc2 & _ & Hgot).
  { intros x j Hx Hj. unfold bytes. rewrite fbyte_take_drop by lia. unfold disk_byte. case_bool_decide as Hb.
    - f_equal. lia.
    - symmetry. apply (co_disk _ _ _ _ _ Hc1 m i); [lia| |].
      + unfold rt, saturating_sub in Hb. lia.
      + intros e He. replace ((4096 * (p + x) + j) / 4096) with (p + x) in He by (symmetry; by apply pos_page).
        rewrite Hmiss in He by lia. done. }
  assert (Hs : silent w w2) by (by etrans).
  destruct r as [[]|er|]; [| |done]; (split; [done|]; split; [done|]; split; [eauto|]); [|done].
  destruct (Hgot eq_refl 0 target ltac:(lia) eq_refl) as (e & He & Hf). exists e.
  by replace (p + (0 + 0)) with p in He by lia.
Qed.

Lemma hit_coherent ld lw w H P k e g : coherent ld lw w H P → entries (cache w) !! k = Some e →
  frame (g e) = frame e → dirty (g e) = dirty e →
  let w' := with_cache w (count_hit (with_entries (cache w) (<[k := g e]> (entries (cache w))))) in
  coherent ld lw w' H P ∧ silent w w'.
Proof.
  intros Hc Hk Hf Hd. apply (coherent_same ld lw w _ H P Hc); cbn [count_hit with_entries entries file_sizes].
  - intros k' e'. rewrite lookup_insert_Some. intros [[<- <-]|[_ ?]]; eauto.
  - intros k' Hn. rewrite lookup_insert_ne; [done|]. congruence.
  - intros k' e' Hk'. destruct (decide (k = k')) as [<-|]; [rewrite lookup_insert_eq|rewrite lookup_insert_ne by done]; eauto.
  - done.
Qed.

Lemma miss_coherent ld lw w H P : coherent ld lw w H P →
  coherent ld lw (with_cache w (count_miss (cache w))) H P ∧ silent w (with_cache w (count_miss (cache w))).
Proof. intros Hc. apply (coherent_same ld lw w _ H P Hc); eauto. Qed.

Lemma read_frame_spec ld lw w H P m i p : coherent ld lw w H P → readable (fss w m) i →
  0 ≤ p → 4096 * p < ld m i → ld m i ≤ 2 ^ 63 →
  let '(w', r) := read_frame hhdm low_watermark free_count evict_user w m i (ld m i) p in
  r ≠ Panic ∧ silent w w' ∧ (∃ H' P', coherent ld lw w' H' P') ∧
  match r with Ok f => ∃ e, entries (cache w') !! (m, i, p) = Some e ∧ frame e = f | _ => True end.
Proof.
  intros Hc Hrd Hp Hlt Hle. unfold read_frame. destruct (entries (cache w) !! (m, i, p)) as [e|] eqn:Hk.
  - destruct (hit_coherent ld lw w H P _ e touch Hc Hk eq_refl eq_refl) as [Hc1 Hs1].
    split; [done|]. split; [done|]. split; [eauto|]. cbn. rewrite lookup_insert_eq. eauto.
  - destruct (miss_coherent ld lw w H P Hc) as [Hc1 Hs1].
    pose proof (fetch_batch_spec ld lw _ H P m i p Hc1 Hrd Hk Hp Hlt Hle) as Hf.
    destruct (fetch_batch _ _ _ _ _ _ _ _ _) as [w' r]. destruct Hf as (Hr & Hs & Hc' & Hg).
    split; [done|]. split; [by etrans|]. done.
Qed.

(** Bytes [off .. off + n) of a file. *)
Definition range w (m i off n : Z) : list Z := byte w m i <$> seqZ off n.

Lemma range_app w m i off a b : 0 ≤ a → 0 ≤ b → range w m i off (a + b) = range w m i off a ++ range w m i (off + a) b.
Proof. intros. unfold range. by rewrite seqZ_app, fmap_app by lia. Qed.

Lemma range_silent w w' m i off n : silent w w' → 0 ≤ off → range w' m i off n = range w m i off n.
Proof.
  intros Hs Ho. apply list_fmap_ext. intros x o Hx. apply list_elem_of_lookup_2, elem_of_seqZ in Hx.
  apply (si_byte _ _ Hs). lia.
Qed.

Lemma fbyte_range w m i off n j : 0 ≤ j < n → fbyte (range w m i off n) j = byte w m i (off + j).
Proof.
  intros Hj. apply fbyte_lookup. unfold range. rewrite list_lookup_fmap, lookup_seqZ_lt by lia. cbn.
  f_equal. f_equal. lia.
Qed.

Lemma frame_chunk ld lw w H P m i o e n : coherent ld lw w H P → 0 ≤ o →
  entries (cache w) !! (m, i, o / 4096) = Some e → 0 ≤ n → o mod 4096 + n ≤ 4096 →
  slice (cmem w (frame e)) (o mod 4096) (o mod 4096 + n) = Some (range w m i o n).
Proof.
  intros Hc Ho Hk Hn Hle. pose proof (co_mem _ _ _ _ _ Hc (frame e)) as Hl.
  destruct (page_pos o Ho) as (_ & Hj & Heq). rewrite slice_in by lia. f_equal.
  apply fbyte_eq.
  { unfold range. rewrite length_fmap, length_seqZ, length_take, length_drop. lia. }
  rewrite length_take, length_drop. intros x Hx. rewrite fbyte_take_drop by lia. rewrite bool_decide_true by lia.
  rewrite fbyte_range by lia. unfold byte.
  assert (Hpos : o + x = 4096 * (o / 4096) + (o mod 4096 + x)) by lia.
  destruct (pos_page (o / 4096) (o mod 4096 + x) ltac:(lia)) as [Hq Hr]. rewrite <- Hpos in Hq, Hr.
  by rewrite Hq, Hr, Hk.
Qed.

Lemma cached_read_loop ld lw m i off n fuel : ∀ w H P copied buf, coherent ld lw w H P → readable (fss w m) i →
  0 ≤ off → 0 ≤ copied ≤ n → off + n ≤ ld m i → ld m i ≤ 2 ^ 63 → n - copied ≤ Z.of_nat fuel →
  let '(w', r) := read_loop hhdm low_watermark free_count evict_user fuel w m i off (ld m i) n copied buf in
  r ≠ Panic ∧ silent w w' ∧ (∃ H' P', coherent ld lw w' H' P') ∧
  ∀ b, r = Ok b → b = buf ++ range w m i (off + copied) (n - copied).
Proof.
  induction fuel as [|fuel IH]; intros w H P copied buf Hc Hrd Hoff Hcp Hld Hbig Hfuel; cbn [read_loop].
  { destruct (Z.leb_spec n copied); [|lia]. split; [done|]. split; [done|]. split; [eauto|].
    intros b [= <-]. replace (n - copied) with 0 by lia. by rewrite app_nil_r. }
  destruct (Z.leb_spec n copied) as [Hdone|Hmore].
  { split; [done|]. split; [done|]. split; [eauto|].
    intros b [= <-]. replace (n - copied) with 0 by lia. by rewrite app_nil_r. }
  rewrite wrap_small by (unfold is_u; lia). set (o := off + copied).
  destruct (page_pos o ltac:(lia)) as (Hp & Hj & Heq).
  set (cl := Z.min _ _). assert (Hcl : 0 < cl ≤ n - copied ∧ o mod 4096 + cl ≤ 4096) by (unfold cl, saturating_sub; lia).
  destruct (Z.eqb_spec cl 0); [lia|].
  pose proof (read_frame_spec ld lw w H P m i (o / 4096) Hc Hrd Hp ltac:(lia) Hbig) as Hf.
  destruct (read_frame _ _ _ _ w m i (ld m i) (o / 4096)) as [w1 r]. destruct Hf as (Hr & Hs1 & (H1 & P1 & Hc1) & Hg).
  destruct r as [f|er|]; [| |done].
  2:{ split; [done|]. split; [done|]. split; [eauto|]. done. }
  destruct Hg as (e & He & <-). destruct (phys_to_virt hhdm (frame e)).
  2:{ split; [done|]. split; [done|]. split; [eauto|]. done. }
  rewrite (frame_chunk ld lw w1 H1 P1 m i o e cl Hc1) by (done || lia).
  rewrite <- (si_fss _ _ Hs1) in Hrd.
  specialize (IH w1 H1 P1 (copied + cl) (buf ++ range w1 m i o cl) Hc1 Hrd Hoff ltac:(lia) Hld Hbig ltac:(lia)).
  destruct (read_loop _ _ _ _ fuel w1 m i off (ld m i) n (copied + cl) _) as [w2 r].
  destruct IH as (Hr2 & Hs2 & Hc2 & Hb). split; [done|]. split; [by etrans|]. split; [done|].
  intros b Hok. rewrite (Hb b Hok), <- app_assoc. f_equal.
  rewrite !(range_silent w w1) by (done || lia).
  replace (n - copied) with (cl + (n - (copied + cl))) by lia. fold o. rewrite range_app by lia.
  do 2 f_equal. lia.
Qed.

(** A cache in its steady state. *)
Definition steady w : Prop :=
  (∃ H P, coherent (logical_size w) (logical_size w) w H P) ∧
  ∀ m i, 0 ≤ logical_size w m i ≤ 2 ^ 63.

Lemma coherent_limits ld lw ld' lw' w H P : (∀ m i, ld m i ≤ ld' m i) → (∀ m i, lw m i ≤ lw' m i) →
  coherent ld lw w H P → coherent ld' lw' w H P.
Proof.
  intros Hd Hw [C1 C2 C3 C4 C5 C5h C5f C6 C7 C8 C9]. split; try done.
  - intros m i o Ho Hl. apply C8; [done|]. specialize (Hd m i). lia.
  - intros m i o e Ho Hl. apply C9; [done|]. specialize (Hw m i). lia.
Qed.

Lemma steady_silent w w' : steady w → silent w w' →
  (∃ H P, coherent (logical_size w) (logical_size w) w' H P) → steady w'.
Proof.
  intros [_ Hz] [_ Hs _] (H & P & Hc). split; [|intros m i; by rewrite Hs].
  exists H, P. eapply coherent_limits; [| |exact Hc]; intros m i; by rewrite Hs.
Qed.

(** Evicting clean pages changes no byte and no size of any file, and
    never drops a page with unwritten data. *)
Theorem evict_clean_pages_silent w n : steady w →
  let w' := (evict_clean_pages w n).1 in
  steady w' ∧ (∀ m i o, 0 ≤ o → byte w' m i o = byte w m i o) ∧ (∀ m i, logical_size w' m i = logical_size w m i) ∧
  ∀ k e, entries (cache w) !! k = Some e → dirty e = true → entries (cache w') !! k = Some e.
Proof.
  intros Hst. pose proof Hst as [(H & P & Hc) _]. unfold evict_clean_pages. cbn [fst].
  assert (Hcl : ∀ k e, k ∈ take (Z.to_nat n) (clean_keys (cache w)) → entries (cache w) !! k = Some e → dirty e = false).
  { intros k e Hin. apply clean_keys_clean. by eapply elem_of_take in Hin as (? & ?%list_elem_of_lookup_2 & _). }
  destruct (remove_clean _ _ _ w H P Hc Hcl) as (Hs & _ & H' & Hc').
  split; [eapply steady_silent; eauto|]. destruct Hs as [B Z _]. split; [done|]. split; [done|].
  intros k e Hk Hd. by apply remove_pages_other.
Qed.

(** C21: Reading through the page cache.  Take a steady cache (clean pages are
    copies of the disk, sizes at most 2^63) over a filesystem that can read
    the file ([readable]: a read the filesystem fails is turned into zeros by
    the code, see [failed_disk_read_gives_zeros]), and a memory manager whose
    eviction of user pages takes no frame of the cache.  Whatever is cached,
    read ahead or evicted meanwhile, the call does not panic, a success returns
    exactly the bytes of the file from the offset, cut at its end, and every
    byte and size is left as it was. *)
Theorem page_cache_read w m i off len : steady w → readable (fss w m) i → 0 ≤ off → 0 ≤ len →
  let '(w', r) := cache_read hhdm low_watermark free_count evict_user w m i off len in
  steady w' ∧ silent w w' ∧ r ≠ Panic ∧
  ∀ b, r = Ok b → b = range w m i off (Z.max 0 (Z.min len (logical_size w m i - off))).
Proof.
  intros Hst Hrd Hoff Hlen. destruct Hst as [(H & P & Hc) Hz] eqn:Est. clear Est. unfold cache_read.
  destruct (Z.eqb_spec len 0) as [->|Hne].
  { split; [done|]. split; [done|]. split; [done|]. intros b [= <-].
    replace (Z.max 0 _) with 0 by lia. done. }
  set (p := match get_file_size (cache w) m i with Some sz => (w, sz) | None => _ end).
  assert (Hp : p.2 = logical_size w m i ∧ silent w p.1 ∧
    ∃ H P, coherent (logical_size w) (logical_size w) p.1 H P).
  { unfold p, logical_size. destruct (get_file_size (cache w) m i) as [sz|] eqn:Hsz; [split; [done|]; split; [done|eauto]|].
    split; [done|]. cbn [fst]. split; [|exists H, P; by destruct Hc].
    split; [done| |done]. intros m' i'. unfold logical_size, get_file_size in *. cbn.
    destruct (decide ((m, i) = (m', i'))) as [[= <- <-]|]; [by rewrite lookup_insert_eq, Hsz|by rewrite lookup_insert_ne]. }
  destruct p as [w1 size]. cbn [fst snd] in Hp. destruct Hp as (-> & Hs1 & H1 & P1 & Hc1).
  set (ld := logical_size w) in *. specialize (Hz m i) as Hzm. fold (ld m i) in Hzm.
  assert (Hsteady1 : steady w1) by (eapply steady_silent; [by split; [eauto|]|done|eauto]).
  destruct (Z.leb_spec (ld m i) off).
  { split; [done|]. split; [done|]. split; [done|]. intros b [= <-]. by replace (Z.max 0 _) with 0 by lia. }
  set (n := Z.min len _). assert (Hn : n = Z.max 0 (Z.min len (ld m i - off))) by (unfold n, saturating_sub; lia).
  rewrite <- Hn. destruct (Z.eqb_spec n 0) as [Hn0|Hn0].
  { split; [done|]. split; [done|]. split; [done|]. intros b [= <-]. by rewrite Hn0. }
  pose proof (cached_read_loop ld ld m i off n (Z.to_nat n) w1 H1 P1 0 [] Hc1 ltac:(by rewrite (si_fss _ _ Hs1)) Hoff ltac:(lia) ltac:(lia) ltac:(lia) ltac:(lia)) as Hr.
  destruct (read_loop _ _ _ _ _ w1 m i off (ld m i) n 0 []) as [w2 r].
  destruct Hr as (Hr & Hs2 & Hc2 & Hb). assert (silent w w2) by (by etrans).
  split; [eapply steady_silent; [by split; [eauto|]|done|done]|]. split; [done|]. split; [done|].
  intros b Hok. rewrite (Hb b Hok). cbn [app]. rewrite Z.add_0_r, Z.sub_0_r. by apply range_silent.
Qed.

(** ** Writing *)

(** Frames that are handed out can be reached through the direct map. *)
Context (Hmapped : ∀ (a : A) H f, holds a H → f ∈ H → is_Some (phys_to_virt hhdm f)).

Lemma coherent_ext ld lw w m' H P : (∀ f, m' f = cmem w f) → coherent ld lw w H P → coherent ld lw (with_cmem w m') H P.
Proof.
  intros He [C1 C2 C3 C4 C5 C5h C5f C6 C7 C8 C9]. split; cbn [with_cmem cmem cache cframes fss]; try done.
  - intros f. by rewrite He.
  - intros m i p e Hk Hd j Hj. rewrite He. by eapply C7.
  - intros m i o e Ho Hl Hk Hd. rewrite He. by eapply C9.
Qed.

Definition rewrite_page w (k : PageKey) (e : PageEntry) (page : list Z) : world :=
  with_cmem (with_cache w (count_hit (with_entries (cache w) (<[k := e]> (entries (cache w))))))
    (set_mem (cmem w) (frame e) page).

Lemma coherent_rewrite ld lw w H P m i p e e' page : coherent ld lw w H P →
  entries (cache w) !! (m, i, p) = Some e → frame e' = frame e → dirty e' = true → length page = 4096%nat →
  (∀ j, 0 ≤ j < 4096 → lw m i ≤ 4096 * p + j → fbyte page j = 0) →
  coherent ld lw (rewrite_page w (m, i, p) e' page) H P.
Proof.
  intros [C1 C2 C3 C4 C5 C5h C5f C6 C7 C8 C9] Hk Hf Hd Hl Hz.
  assert (Hother : ∀ k e0, k ≠ (m, i, p) → entries (cache w) !! k = Some e0 →
    set_mem (cmem w) (frame e') page (frame e0) = cmem w (frame e0)).
  { intros k e0 Hne He0. unfold set_mem. rewrite decide_False; [done|]. rewrite Hf. intros ?. apply Hne. by eapply C4. }
  assert (Hnew : set_mem (cmem w) (frame e') page (frame e') = page) by (unfold set_mem; by rewrite decide_True).
  split; cbn [rewrite_page with_cache with_cmem cmem cache cframes fss count_hit with_entries entries]; try done.
  - by apply set_mem_ok.
  - intros k e0. rewrite lookup_insert_Some. intros [[<- <-]|[_ ?]]; [rewrite Hf|]; by eapply C3.
  - intros k1 k2 e1 e2. rewrite !lookup_insert_Some.
    intros [[<- <-]|[? H1]] [[<- <-]|[? H2]] Hfr; rewrite ?Hf in Hfr; [done|by eapply C4..].
  - intros g k e0 Hg. rewrite lookup_insert_Some. intros [[<- <-]|[_ ?]]; [rewrite Hf|]; by eapply C5f.
  - intros k e0. rewrite lookup_insert_Some. intros [[<- <-]|[_ ?]]; by eapply C6.
  - intros m' i' p' e0. rewrite lookup_insert_Some. intros [[? <-]|[? He0]] Hd0; [congruence|].
    intros j Hj. rewrite (Hother (m', i', p') e0) by (done || congruence). by eapply C7.
  - intros m' i' o Ho Hlo Hcl. apply C8; [done|done|]. intros e0 He0.
    destruct (decide ((m, i, p) = (m', i', o / 4096))) as [Heq|Hne].
    + rewrite <- Heq in Hcl. specialize (Hcl e' ltac:(apply lookup_insert_eq)). congruence.
    + apply Hcl. by rewrite lookup_insert_ne.
  - intros m' i' o e0 Ho Hlo. rewrite lookup_insert_Some. intros [[[= <- <- Hp] <-]|[? He0]] Hd0.
    + rewrite Hnew. destruct (page_pos o Ho) as (_ & Hj & Heq). apply Hz; [done|]. rewrite Hp. lia.
    + rewrite (Hother (m', i', o / 4096) e0) by (done || congruence). by eapply C9.
Qed.

Lemma byte_rewrite ld lw w H P m i p e e' page m' i' o : coherent ld lw w H P →
  entries (cache w) !! (m, i, p) = Some e → frame e' = frame e → 0 ≤ o →
  byte (rewrite_page w (m, i, p) e' page) m' i' o =
  if bool_decide ((m', i', o / 4096) = (m, i, p)) then fbyte page (o mod 4096) else byte w m' i' o.
Proof.
  intros Hc Hk Hf Ho. unfold byte.
  cbn [rewrite_page with_cache with_cmem cmem cache count_hit with_entries entries]. case_bool_decide as Hq.
  - rewrite Hq, lookup_insert_eq. unfold set_mem. by rewrite decide_True.
  - rewrite lookup_insert_ne by congruence. destruct (entries (cache w) !! (m', i', o / 4096)) as [e0|] eqn:He0; [|done].
    unfold set_mem. rewrite decide_False; [done|]. rewrite Hf. intros ?. apply Hq. by eapply (co_inj _ _ _ _ _ Hc).
Qed.

(** The bytes of [w'] are those of [w] with [bs] written at [off]. *)
Definition written w w' (m i off : Z) (bs : list Z) : Prop :=
  (∀ m' i' o, 0 ≤ o → byte w' m' i' o =
     if bool_decide (m' = m ∧ i' = i ∧ off ≤ o < off + zlen bs) then fbyte bs (o - off) else byte w m' i' o) ∧
  (∀ m' i', logical_size w' m' i' = logical_size w m' i') ∧ fss w' = fss w.

(** A page whose bytes outside the chunk are those of the file becomes the
    page of the file with the chunk written. *)
Lemma chunk_written w w' m i o chunk base : 0 ≤ o → o mod 4096 + zlen chunk ≤ 4096 → length base = 4096%nat →
  (∀ j, 0 ≤ j < 4096 → ¬ o mod 4096 ≤ j < o mod 4096 + zlen chunk → fbyte base j = byte w m i (4096 * (o / 4096) + j)) →
  (∀ m' i' x, 0 ≤ x → byte w' m' i' x = if bool_decide ((m', i', x / 4096) = (m, i, o / 4096))
     then fbyte (splice base (o mod 4096) chunk) (x mod 4096) else byte w m' i' x) →
  (∀ m' i', logical_size w' m' i' = logical_size w m' i') → fss w' = fss w →
  written w w' m i o chunk.
Proof.
  intros Ho Hle Hl Hbase Hbyte Hz Hf. split; [|done]. intros m' i' x Hx. rewrite Hbyte by done.
  destruct (page_pos o Ho) as (_ & Hj & Heq). destruct (page_pos x Hx) as (_ & Hjx & Heqx).
  case_bool_decide as Hk.
  - injection Hk as -> -> Hpg. rewrite fbyte_splice by lia.
    case_bool_decide; case_bool_decide; try lia.
    + f_equal. lia.
    + rewrite Hbase by lia. f_equal. lia.
  - case_bool_decide as Hin; [|done]. destruct Hin as (-> & -> & Hr). destruct Hk.
    replace (x / 4096) with (o / 4096); [done|]. 
    destruct (pos_page (o / 4096) (o mod 4096 + (x - o)) ltac:(lia)) as [Hq _].
    rewrite <- Hq. f_equal. lia.
Qed.

(** Past [lw] the page with the chunk written is zero. *)
Lemma chunk_tail lw w ld H P m i o chunk base : coherent ld lw w H P → ld m i ≤ lw m i → 0 ≤ o →
  o mod 4096 + zlen chunk ≤ 4096 → length base = 4096%nat → o + zlen chunk ≤ lw m i →
  (∀ j, 0 ≤ j < 4096 → ¬ o mod 4096 ≤ j < o mod 4096 + zlen chunk → fbyte base j = byte w m i (4096 * (o / 4096) + j)) →
  ∀ j, 0 ≤ j < 4096 → lw m i ≤ 4096 * (o / 4096) + j → fbyte (splice base (o mod 4096) chunk) j = 0.
Proof.
  intros Hc Hlw Ho Hle Hl Hend Hbase j Hj Hpast. destruct (page_pos o Ho) as (_ & Hjo & Heq).
  rewrite fbyte_splice by lia. rewrite bool_decide_false by lia. rewrite Hbase by lia.
  destruct (pos_page (o / 4096) j Hj) as [Hq Hr]. unfold byte.
  set (x := 4096 * (o / 4096) + j) in *. rewrite Hq.
  destruct (entries (cache w) !! (m, i, o / 4096)) as [e|] eqn:Hk.
  - destruct (dirty e) eqn:Hd.
    + apply (co_dirty _ _ _ _ _ Hc m i x e); [lia|lia|by rewrite Hq|done].
    + rewrite Hr, (co_clean _ _ _ _ _ Hc m i _ e Hk Hd) by done. fold x.
      apply (co_disk _ _ _ _ _ Hc); [lia|lia|]. rewrite Hq. intros e' He'. congruence.
  - apply (co_disk _ _ _ _ _ Hc); [lia|lia|]. rewrite Hq. congruence.
Qed.

Lemma silent_written w w1 w2 m i o bs : silent w w1 → written w1 w2 m i o bs → written w w2 m i o bs.
Proof.
  intros [B Z F] (W1 & W2 & W3). split; [|split; congruence].
  intros m' i' x Hx. rewrite W1 by done. case_bool_decide; [done|auto].
Qed.

(** A page added for a chunk agrees with the file outside the chunk. *)
Lemma base_page_spec ld lw w H P m i o f (chunk : list Z) : coherent ld lw w H P → readable (fss w m) i → 0 ≤ o →
  o mod 4096 + zlen chunk ≤ 4096 → 4096 * (o / 4096) < 2 ^ 64 → entries (cache w) !! (m, i, o / 4096) = None →
  let '(base, _) := base_page w m i f (ld m i) (o / 4096 * 4096) ((0 <? o mod 4096) || (zlen chunk <? 4096)) in
  length base = 4096%nat ∧ ∀ j, 0 ≤ j < 4096 → ¬ o mod 4096 ≤ j < o mod 4096 + zlen chunk →
    fbyte base j = byte w m i (4096 * (o / 4096) + j).
Proof.
  intros Hc Hrd Ho Hle Hbig Hk. set (p := o / 4096) in *. set (po := o mod 4096) in *.
  destruct (page_pos o Ho) as (Hp & Hjo & _). fold p in Hp. fold po in Hjo.
  assert (Hun : ∀ j, 0 ≤ j < 4096 → byte w m i (4096 * p + j) = disk_byte w m i (4096 * p + j)).
  { intros j Hj. unfold byte. destruct (pos_page p j Hj) as [-> _]. by rewrite Hk. }
  unfold base_page. destruct ((0 <? po) || (zlen chunk <? 4096)) eqn:Epart; cbn [andb].
  - destruct (Z.ltb_spec (p * 4096) (ld m i)) as [Hin|Hout].
    + split; [apply length_page_from|]. intros j Hj _. rewrite Hun by done.
      rewrite fbyte_page_from, readable_read by (done || lia). cbn [default from_option id].
      rewrite fbyte_take_drop by lia. rewrite bool_decide_true by lia. unfold disk_byte. f_equal. lia.
    + split; [rewrite length_replicate; done|]. intros j Hj _. rewrite Hun, fbyte_zeros by done. symmetry.
      apply (co_disk _ _ _ _ _ Hc); [lia|lia|]. destruct (pos_page p j Hj) as [-> _]. congruence.
  - split; [apply Hc|]. apply orb_false_iff in Epart as [E1%Z.ltb_ge E2%Z.ltb_ge]. lia.
Qed.

(** A frame just allocated joins the spare ones at the front. *)
Lemma coherent_front ld lw w H P f : coherent ld lw w H (P ++ [f]) → coherent ld lw w H (f :: P).
Proof.
  intros [D1 D2 D3 D4 D5 D5h D5f D6 D7 D8 D9].
  assert (Hperm : f :: P ≡ₚ P ++ [f]) by apply Permutation_cons_append. split; try done.
  - by rewrite Hperm.
  - intros g. rewrite Hperm. auto.
  - intros g k e. rewrite Hperm. eauto.
Qed.

Lemma write_chunk ld lw w H P m i o chunk : coherent ld lw w H P → readable (fss w m) i → ld m i ≤ lw m i → 0 ≤ o →
  o + zlen chunk ≤ lw m i → lw m i ≤ 2 ^ 63 → 0 < zlen chunk → o mod 4096 + zlen chunk ≤ 4096 →
  let '(w1, r) := write_frame hhdm low_watermark free_count evict_user w m i (ld m i) (o / 4096) (o mod 4096) (zlen chunk) in
  match r with
  | Ok f => let w2 := with_cmem w1 (set_mem (cmem w1) f (splice (cmem w1 f) (o mod 4096) chunk)) in
    written w w2 m i o chunk ∧ (∃ H' P', coherent ld lw w2 H' P') ∧ is_Some (phys_to_virt hhdm f)
  | Err _ => silent w w1 ∧ ∃ H' P', coherent ld lw w1 H' P'
  | Panic => False
  end.
Proof.
  intros Hc Hrd Hlw Ho Hend Hbig Hpos Hle. unfold write_frame. set (p := o / 4096). set (po := o mod 4096) in *.
  destruct (page_pos o Ho) as (Hp & Hj & Heq). fold p in Hp, Heq. fold po in Hj, Heq.
  destruct (entries (cache w) !! (m, i, p)) as [e|] eqn:Hk.
  - set (e' := touch_write e (po + zlen chunk)).
    assert (Hl : length (cmem w (frame e)) = 4096%nat) by apply Hc.
    assert (Hbase : ∀ j, 0 ≤ j < 4096 → ¬ po ≤ j < po + zlen chunk → fbyte (cmem w (frame e)) j = byte w m i (4096 * p + j)).
    { intros j Hjj _. unfold byte. destruct (pos_page p j Hjj) as [-> ->]. by rewrite Hk. }
    change (with_cmem _ _) with (rewrite_page w (m, i, p) e' (splice (cmem w (frame e)) po chunk)).
    assert (Hl2 : length (splice (cmem w (frame e)) po chunk) = 4096%nat) by (rewrite length_splice; lia).
    split.
    + apply (chunk_written w _ m i o chunk (cmem w (frame e)) Ho Hle Hl Hbase); [|done|done].
      intros m' i' x Hx. by rewrite (byte_rewrite ld lw w H P m i p e e').
    + split; [|apply (Hmapped (cframes w) H); [apply Hc|by eapply co_frame]].
      exists H, P. apply (coherent_rewrite ld lw w H P m i p e e'); try done.
      by apply (chunk_tail lw w ld H P m i o chunk).
  - destruct (miss_coherent ld lw w H P Hc) as [Hc0 Hs0]. set (w0 := with_cache w _) in *.
    pose proof (alloc_spec ld lw w0 H P Hc0) as Ha.
    destruct (cache_alloc_frame _ _ _ w0) as [w1 [f|]]; destruct Ha as (Hs1 & Hsh & H1 & Hc1); cbn [fst snd] in *;
      [|split; [by etrans|eauto]].
    assert (Hs : silent w w1) by (by etrans).
    destruct (phys_to_virt hhdm f) eqn:Hphys; [|split; [done|eauto]].
    pose proof (coherent_front ld lw w1 H1 P f Hc1) as Hc2.
    assert (Hk1 : entries (cache w1) !! (m, i, p) = None).
    { destruct (entries (cache w1) !! (m, i, p)) as [e|] eqn:He; [|done]. apply Hsh in He. cbn in He. congruence. }
    assert (Hbig' : 4096 * (o / 4096) < 2 ^ 64) by (fold p; lia).
    rewrite (wrap_small 64 (p * 4096)) by (unfold is_u; lia).
    rewrite <- (si_fss _ _ Hs) in Hrd.
    pose proof (base_page_spec ld lw w1 H1 _ m i o f chunk Hc1 Hrd Ho Hle Hbig' Hk1) as Hb. fold po p in Hb.
    destruct (base_page w1 m i f (ld m i) (p * 4096) _) as [base valid]. cbv zeta.
    destruct Hb as [Hlb Hbase].
    set (v := Z.max valid _). set (pg := splice base po chunk).
    assert (Hpgl : length pg = 4096%nat) by (unfold pg; rewrite length_splice; lia).
    set (w2 := with_cmem _ (set_mem _ f _)).
    assert (Hmem : ∀ g, cmem w2 g = cmem (add_page w1 m i p f pg true v) g).
    { intros g. unfold w2. cbn. unfold set_mem. case_decide; [|done]. subst g. by rewrite decide_True. }
    assert (Hc3 : coherent ld lw (add_page w1 m i p f pg true v) H1 P).
    { apply coherent_add; [done|done|lia|done|]. by apply (chunk_tail lw w1 ld H1 (f :: P) m i o chunk). }
    split.
    + eapply silent_written; [exact Hs|].
      apply (chunk_written w1 w2 m i o chunk base Ho Hle Hlb Hbase); [|done|done].
      intros m' i' x Hx. transitivity (byte (add_page w1 m i p f pg true v) m' i' x).
      * unfold byte, w2. cbn [with_cmem with_cache cache add_page]. case_match; [|done]. f_equal. apply Hmem.
      * by rewrite (byte_add ld lw w1 H1 P).
    + split; [|by rewrite Hphys]. exists H1, P.
      apply (coherent_ext ld lw _ (cmem w2) H1 P) in Hc3; [|done]. exact Hc3.
Qed.

Lemma written_app w w1 w2 m i o a b : 0 ≤ o → written w w1 m i o a → written w1 w2 m i (o + zlen a) b →
  written w w2 m i o (a ++ b).
Proof.
  intros Ho (A1 & A2 & A3) (B1 & B2 & B3). split; [|split; congruence]. intros m' i' x Hx. rewrite B1, A1 by done.
  rewrite length_app. case_bool_decide as H1; case_bool_decide as H2; try (case_bool_decide as H3); try lia; try done.
  - rewrite fbyte_app_r by lia. f_equal. lia.
  - by rewrite fbyte_app_l by lia.
Qed.

Lemma written_nil w m i o : written w w m i o [].
Proof. split; [|done]. intros m' i' x _. rewrite bool_decide_false; [done|]. cbn. lia. Qed.

(** Nothing outside [off, upto) changed. *)
Definition confined w w' (m i off upto : Z) : Prop :=
  (∀ m' i' o, 0 ≤ o → ¬ (m' = m ∧ i' = i ∧ off ≤ o < upto) → byte w' m' i' o = byte w m' i' o) ∧
  (∀ m' i', logical_size w' m' i' = logical_size w m' i') ∧ fss w' = fss w.

Lemma written_confined w w1 w2 m i o bs upto : 0 ≤ o → o + zlen bs ≤ upto → written w w1 m i o bs →
  confined w1 w2 m i (o + zlen bs) upto → confined w w2 m i o upto.
Proof.
  intros Ho Hu (A1 & A2 & A3) (B1 & B2 & B3). split; [|split; congruence]. intros m' i' x Hx Hout.
  rewrite B1 by (done || lia). rewrite A1 by done. by rewrite bool_decide_false by lia.
Qed.

Lemma cached_write_loop ld lw m i off buf fuel : ∀ w H P k, coherent ld lw w H P → readable (fss w m) i →
  0 ≤ off → 0 ≤ k ≤ zlen buf → ld m i ≤ lw m i → off + zlen buf ≤ lw m i → lw m i ≤ 2 ^ 63 → zlen buf - k ≤ Z.of_nat fuel →
  let '(w', r) := write_loop hhdm low_watermark free_count evict_user fuel w m i off (ld m i) buf k in
  (∃ H' P', coherent ld lw w' H' P') ∧
  match r with
  | Ok _ => written w w' m i (off + k) (drop (Z.to_nat k) buf)
  | Err _ => confined w w' m i (off + k) (off + zlen buf)
  | Panic => False
  end.
Proof.
  induction fuel as [|fuel IH]; intros w H P k Hc Hrd Hoff Hk Hlw Hend Hbig Hfuel; cbn [write_loop].
  { destruct (Z.leb_spec (zlen buf) k); [|lia]. split; [eauto|]. rewrite drop_ge by lia. apply written_nil. }
  destruct (Z.leb_spec (zlen buf) k) as [Hdone|Hmore].
  { split; [eauto|]. rewrite drop_ge by lia. apply written_nil. }
  rewrite wrap_small by (unfold is_u; lia). set (o := off + k).
  destruct (page_pos o ltac:(lia)) as (_ & Hj & Heq).
  set (cl := Z.min (4096 - o mod 4096) (zlen buf - k)).
  rewrite (slice_in buf k (k + cl)) by lia. replace (Z.to_nat (k + cl - k)) with (Z.to_nat cl) by lia.
  set (chunk := take (Z.to_nat cl) (drop (Z.to_nat k) buf)).
  assert (Hcl : zlen chunk = cl) by (unfold chunk; rewrite length_take, length_drop; lia).
  pose proof (write_chunk ld lw w H P m i o chunk Hc Hrd Hlw ltac:(lia) ltac:(lia) Hbig ltac:(lia) ltac:(lia)) as Hw.
  rewrite Hcl in Hw.
  destruct (write_frame _ _ _ _ w m i (ld m i) (o / 4096) (o mod 4096) cl) as [w1 r].
  destruct r as [f|er|]; [| |done].
  2:{ destruct Hw as [[B Z Fs] Hc1]. split; [done|]. split; [|done]. intros m' i' x Hx _. by apply B. }
  cbv zeta in Hw. destruct Hw as (Hw & (H2 & P2 & Hc2) & [? ->]).
  set (w2 := with_cmem w1 _) in *.
  assert (readable (fss w2 m) i) as Hrd2 by (destruct Hw as (_ & _ & Hfs); by rewrite Hfs).
  specialize (IH w2 H2 P2 (k + cl) Hc2 Hrd2 Hoff ltac:(lia) Hlw Hend Hbig ltac:(lia)).
  destruct (write_loop _ _ _ _ fuel w2 m i off (ld m i) buf (k + cl)) as [w3 r].
  destruct IH as [Hc3 IH]. split; [done|].
  replace (off + (k + cl)) with (o + zlen chunk) in IH by lia. destruct r as [[]|er|]; [| |done].
  - replace (drop (Z.to_nat k) buf) with (chunk ++ drop (Z.to_nat (k + cl)) buf).
    { apply (written_app w w2); [lia|done|done]. }
    unfold chunk. replace (Z.to_nat (k + cl)) with (Z.to_nat k + Z.to_nat cl)%nat by lia.
    by rewrite <- drop_drop, take_drop.
  - apply (written_confined w w2 w3 m i o chunk); [lia|lia|done|done].
Qed.

Lemma cache_write_spec w m i off buf : steady w → readable (fss w m) i → 0 ≤ off → off + zlen buf ≤ 2 ^ 63 →
  let '(w', r) := cache_write hhdm low_watermark free_count evict_user w m i off buf in
  match r with
  | Ok n => n = zlen buf ∧ steady w' ∧ fss w' = fss w ∧
    (∀ m' i' o, 0 ≤ o → byte w' m' i' o =
       if bool_decide (m' = m ∧ i' = i ∧ off ≤ o < off + zlen buf) then fbyte buf (o - off) else byte w m' i' o) ∧
    (∀ m' i', logical_size w' m' i' =
       if bool_decide (m' = m ∧ i' = i ∧ 0 < zlen buf) then Z.max (logical_size w m i) (off + zlen buf)
       else logical_size w m' i')
  | Err _ => confined w w' m i off (off + zlen buf)
  | Panic => False
  end.
Proof.
  intros Hst Hrd Hoff Hend. destruct Hst as [(H & P & Hc) Hz] eqn:Est. clear Est. unfold cache_write.
  destruct (Z.eqb_spec (zlen buf) 0) as [Hnil|Hne].
  { split; [done|]. split; [done|]. split; [done|].
    split; intros; rewrite bool_decide_false by lia; done. }
  rewrite (wrap_small 64) by (unfold is_u; lia). set (sz := logical_size w) in *. set (ns := Z.max _ _).
  set (lw := λ m' i', if bool_decide (m' = m ∧ i' = i) then ns else sz m' i').
  assert (Hlw : lw m i = ns) by (unfold lw; by rewrite bool_decide_true).
  pose proof (Hz m i) as Hzm. fold sz in Hzm. change (logical_size w m i) with (sz m i) in *.
  assert (Hmono : ∀ m' i', sz m' i' ≤ lw m' i') by (intros; unfold lw; case_bool_decide as Hq; [destruct Hq as [-> ->]; unfold ns|]; lia).
  assert (Hc' : coherent sz lw w H P) by (eapply coherent_limits; [|exact Hmono|exact Hc]; done).
  pose proof (cached_write_loop sz lw m i off buf (length buf) w H P 0 Hc' Hrd Hoff ltac:(lia) (Hmono m i)
    ltac:(rewrite Hlw; unfold ns; lia) ltac:(rewrite Hlw; unfold ns; lia) ltac:(lia)) as Hl.
  destruct (write_loop _ _ _ _ _ w m i off (sz m i) buf 0) as [w1 r]. destruct Hl as [(H1 & P1 & Hc1) Hr].
  rewrite Z.add_0_r in Hr. destruct r as [[]|er|]; [|exact Hr|done]. destruct Hr as (W1 & W2 & W3).
  set (w2 := with_cache w1 _).
  assert (Hsz : ∀ m' i', logical_size w2 m' i' = lw m' i').
  { intros m' i'. unfold lw. rewrite <- W2. unfold logical_size, get_file_size, w2. cbn. case_bool_decide as Hq.
    - destruct Hq as [-> ->]. by rewrite lookup_insert_eq.
    - rewrite lookup_insert_ne by (intros [= -> ->]; by apply Hq). done. }
  split; [done|]. split; [|split; [done|split; [exact W1|]]].
  - split.
    + exists H1, P1. assert (Hc2 : coherent sz lw w2 H1 P1) by (by destruct Hc1).
      eapply coherent_limits; [| |exact Hc2]; intros m' i'; rewrite Hsz; [apply Hmono|done].
    + intros m' i'. rewrite Hsz. unfold lw. case_bool_decide; [unfold ns; lia|]. apply Hz.
  - intros m' i'. rewrite Hsz. unfold lw. case_bool_decide as Hq.
    + rewrite bool_decide_true; [done|]. destruct Hq. lia.
    + rewrite bool_decide_false; [done|]. intros (? & ? & _). by apply Hq.
Qed.

(** C20: Writing through the page cache, under the same conditions and for a
    write that ends below 2^63.  The call does not panic; when it succeeds it
    stored every byte: the file has exactly the given bytes in their place,
    every other byte of it and every other file is as before, and its size is
    the larger of the old size and the end of the write.  A write that fails
    (for lack of memory) changes no byte outside its range and no size.  The
    condition that the filesystem can read the file matters: for a page that is
    written in part and whose read fails, the code keeps zeros for the rest
    ([failed_read_zeroes_page]). *)
Theorem page_cache_write w m i off buf : steady w → readable (fss w m) i → 0 ≤ off → off + zlen buf ≤ 2 ^ 63 →
  let '(w', r) := cache_write hhdm low_watermark free_count evict_user w m i off buf in
  match r with
  | Ok n => n = zlen buf ∧ steady w' ∧ fss w' = fss w ∧
    (∀ m' i' o, 0 ≤ o → byte w' m' i' o =
       if bool_decide (m' = m ∧ i' = i ∧ off ≤ o < off + zlen buf) then fbyte buf (o - off) else byte w m' i' o) ∧
    (∀ m' i', logical_size w' m' i' =
       if bool_decide (m' = m ∧ i' = i ∧ 0 < zlen buf) then Z.max (logical_size w m i) (off + zlen buf)
       else logical_size w m' i')
  | Err _ => confined w w' m i off (off + zlen buf)
  | Panic => False
  end.
Proof. apply cache_write_spec. Qed.
End spec.
