(* ===== verification/PageCacheSync.v ===== *)
(** * The page cache and the disk

    A flush brings the disk up to the file that the cache shows, without
    changing what it shows; a truncation cuts the file. *)

From stdpp Require Import gmap sorting.
From S2P Require Import Prelude Words Vfs Frames Pages PageCache PageCacheSpec.

Lemma fbyte_data m fs x f j : mem_ok m → fs !! x = Some f → 0 ≤ j < 4096 →
  fbyte (data m fs) (4096 * Z.of_nat x + j) = fbyte (m f) j.
Proof.
  intros Hm Hx Hj.
  destruct (data_split m fs (Z.of_nat x) f Hm) as (l1 & l2 & _ & _ & -> & Hl).
  { apply index_Some. split; [lia|by rewrite Nat2Z.id]. }
  rewrite fbyte_app_r by lia. rewrite fbyte_app_l by (rewrite Hm; lia). f_equal. lia.
Qed.

(** A string cut or extended with zeros to [n] bytes. *)
Lemma fbyte_resize l n o : 0 ≤ n → 0 ≤ o →
  fbyte (take (Z.to_nat n) l ++ replicate (Z.to_nat n - length l) 0) o = if bool_decide (o < n) then fbyte l o else 0.
Proof.
  intros Hn Ho. destruct (decide (o < zlen (take (Z.to_nat n) l))) as [Hlt|Hge].
  - rewrite length_take in Hlt. rewrite fbyte_app_l by (rewrite length_take; lia).
    unfold fbyte. rewrite lookup_take_lt by lia. by rewrite bool_decide_true by lia.
  - rewrite length_take in Hge. rewrite fbyte_app_r, fbyte_zeros by (rewrite length_take; lia).
    case_bool_decide; [|done]. symmetry. apply fbyte_past. lia.
Qed.

Lemma batch_lookup n : ∀ start l x f, batch n start l !! x = Some f → l !! x = Some (start + Z.of_nat x, f).
Proof.
  induction n as [|n IH]; intros start [|[p g] l] x f; cbn [batch]; try by rewrite lookup_nil.
  destruct (Z.eqb_spec p start) as [->|]; [|by rewrite lookup_nil]. destruct x as [|x].
  - intros [= ->]. by rewrite Z.add_0_r.
  - intros Hx%IH. change (l !! x = Some (start + Z.of_nat (Datatypes.S x), f)). rewrite Hx. do 2 f_equal. lia.
Qed.

Lemma batch_length n start l : (length (batch n start l) ≤ length l)%nat.
Proof.
  revert start l. induction n as [|n IH]; intros start [|[p g] l]; cbn; try lia.
  destruct (p =? start); cbn; [|lia]. specialize (IH (start + 1) l). lia.
Qed.

Lemma batch_head start f l : (0 < length (batch (Z.to_nat BATCH_PAGES) start ((start, f) :: l)))%nat.
Proof. change (Z.to_nat BATCH_PAGES) with 16%nat. cbn [batch]. rewrite Z.eqb_refl. cbn [length]. lia. Qed.

Section sync.
Context {A S : Type} `{FA : !FrameAllocator A} `{FS : !BackingFs S} `{FO : !BackingFsOk S} (hhdm : option Z).
Implicit Types w : @world A S.

Lemma mark_clean_lookup m i n : ∀ w start k,
  entries (cache (mark_clean w m i start n)) !! k =
  (λ e, if bool_decide (k.1 = (m, i) ∧ start ≤ k.2 < start + Z.of_nat n) then set_dirty e false else e) <$>
    entries (cache w) !! k.
Proof.
  induction n as [|n IH]; intros w start k; cbn [mark_clean].
  { rewrite bool_decide_false by lia. by destruct (entries (cache w) !! k). }
  rewrite IH. destruct k as [[m' i'] p]. cbn [fst snd]. unfold change_entry.
  destruct (entries (cache w) !! (m, i, start)) as [e|] eqn:He; cbn.
  - destruct (decide ((m, i, start) = (m', i', p))) as [[= <- <- <-]|Hne].
    + rewrite lookup_insert_eq, He. cbn. f_equal.
      rewrite bool_decide_false by lia. by rewrite bool_decide_true by (split; [done|lia]).
    + rewrite lookup_insert_ne by done. destruct (entries (cache w) !! (m', i', p)) as [e'|]; [|done]. cbn. f_equal.
      case_bool_decide as H1; case_bool_decide as H2; try done; [destruct H2; destruct H1; split; [done|lia]|].
      destruct H2 as [[= -> ->] H2]. destruct H1. split; [done|]. assert (p ≠ start) by (by intros ->). lia.
  - destruct (entries (cache w) !! (m', i', p)) as [e'|] eqn:He'; [|done]. cbn. f_equal.
    case_bool_decide as H1; case_bool_decide as H2; try done; [destruct H2; destruct H1; split; [done|lia]|].
    destruct H2 as [[= -> ->] H2]. destruct H1. split; [done|]. assert (p ≠ start) by (intros ->; congruence). lia.
Qed.

Lemma mark_clean_rest m i n : ∀ w start, let w' := mark_clean w m i start n in
  cmem w' = cmem w ∧ cframes w' = cframes w ∧ fss w' = fss w ∧ file_sizes (cache w') = file_sizes (cache w).
Proof.
  induction n as [|n IH]; intros w start; cbn [mark_clean]; [done|].
  destruct (IH (change_entry w (m, i, start) (λ e, set_dirty e false)) (start + 1)) as (-> & -> & -> & ->).
  unfold change_entry. by case_match.
Qed.

(** What a flush of one file may change: the disk copy of that file. *)
Definition same_view w w' (m i : Z) : Prop :=
  (∀ m' i' o, 0 ≤ o → byte w' m' i' o = byte w m' i' o) ∧
  (∀ m' i', (m', i') ≠ (m, i) → file (fss w' m') i' = file (fss w m') i') ∧
  file_sizes (cache w') = file_sizes (cache w).

Lemma same_view_trans w1 w2 w3 m i : same_view w1 w2 m i → same_view w2 w3 m i → same_view w1 w3 m i.
Proof.
  intros (A1 & A2 & A3) (B1 & B2 & B3). split; [|split; [|congruence]].
  - intros m' i' o Ho. by rewrite B1, A1.
  - intros m' i' Hne. by rewrite B2, A2.
Qed.

Lemma same_view_size w w' m i sz : same_view w w' m i → get_file_size (cache w) m i = Some sz →
  ∀ m' i', logical_size w' m' i' = logical_size w m' i'.
Proof.
  intros (_ & Ho & Hf) Hs m' i'. unfold logical_size, get_file_size in *. rewrite Hf.
  destruct (decide ((m', i') = (m, i))) as [[= -> ->]|Hne]; [by rewrite Hs|].
  by rewrite !fs_size_ok, Ho by done.
Qed.

(** The disk of one mount changes under unchanged pages: the file [i] may
    differ where dirty pages hide it, and elsewhere shows the same bytes. *)
Lemma disk_change ld lw w H P m i s : coherent ld lw w H P →
  (∀ j, j ≠ i → file s j = file (fss w m) j) →
  (∀ o, 0 ≤ o → (∀ e, entries (cache w) !! (m, i, o / 4096) = Some e → dirty e = false) →
     fbyte (file s i) o = disk_byte w m i o) →
  coherent ld lw (with_fs w m s) H P ∧ same_view w (with_fs w m s) m i.
Proof.
  intros [C1 C2 C3 C4 C5 C5h C5f C6 C7 C8 C9] Hj Hi.
  assert (Hd : ∀ m' i' o, 0 ≤ o → (∀ e, entries (cache w) !! (m', i', o / 4096) = Some e → dirty e = false) →
    disk_byte (with_fs w m s) m' i' o = disk_byte w m' i' o).
  { intros m' i' o Ho Hcl. unfold disk_byte. cbn. case_decide; [subst m'|done].
    destruct (decide (i' = i)) as [->|Hne]; [by apply Hi|by rewrite Hj]. }
  split.
  - split; cbn [with_fs cmem cache cframes]; try done.
    + intros m' i' p e Hk Hdr j Hjj. pose proof (C6 _ _ Hk) as Hp. cbn in Hp.
      rewrite Hd; [by eapply C7|lia|]. destruct (pos_page p j Hjj) as [-> _]. congruence.
    + intros m' i' o Ho Hl Hcl. rewrite Hd by done. by apply C8.
  - split; [|split; [|done]].
    + intros m' i' o Ho. unfold byte. cbn [with_fs cmem cache].
      destruct (entries (cache w) !! (m', i', o / 4096)) eqn:Hk; [done|]. apply Hd; [done|]. congruence.
    + intros m' i' Hne. cbn. case_decide; [subst m'|done]. apply Hj. congruence.
Qed.

(** Pages that are on disk can be marked clean. *)
Lemma clean_change ld lw w H P m i start n : coherent ld lw w H P → (∀ m i, lw m i ≤ ld m i) →
  (∀ p e j, start ≤ p < start + Z.of_nat n → entries (cache w) !! (m, i, p) = Some e → 0 ≤ j < 4096 →
     fbyte (cmem w (frame e)) j = disk_byte w m i (4096 * p + j)) →
  let w' := mark_clean w m i start n in coherent ld lw w' H P ∧ same_view w w' m i.
Proof.
  intros [C1 C2 C3 C4 C5 C5h C5f C6 C7 C8 C9] Hl Hd w'.
  destruct (mark_clean_rest m i n w start) as (Em & Ef & Es & Ez). fold w' in Em, Ef, Es, Ez.
  assert (Hk : ∀ k e', entries (cache w') !! k = Some e' → ∃ e, entries (cache w) !! k = Some e ∧ frame e' = frame e ∧
    (dirty e' = dirty e ∧ ¬ (k.1 = (m, i) ∧ start ≤ k.2 < start + Z.of_nat n) ∨
     dirty e' = false ∧ k.1 = (m, i) ∧ start ≤ k.2 < start + Z.of_nat n)).
  { intros k e'. unfold w'. rewrite mark_clean_lookup, fmap_Some. intros (e & He & ->). exists e. split; [done|].
    case_bool_decide; cbn; [|tauto]. split; [done|]. right. split; [done|tauto]. }
  assert (Hdisk : ∀ m' i' o, disk_byte w' m' i' o = disk_byte w m' i' o) by (intros; unfold disk_byte; by rewrite Es).
  split; [split; rewrite ?Em, ?Ef|split; [|split; [by rewrite Es|done]]]; try done.
  - intros k e' (e & ? & -> & _)%Hk. by eapply C3.
  - intros k1 k2 e1 e2 (e1' & ? & -> & _)%Hk (e2' & ? & -> & _)%Hk. by eapply C4.
  - intros f k e' Hin (e & ? & -> & _)%Hk. by eapply C5f.
  - intros k e' (e & ? & _)%Hk. by eapply C6.
  - intros m' i' p e' (e & He & -> & [[Hdr _]|(_ & [= -> ->] & Hr)])%Hk Hcl j Hj; rewrite Hdisk.
    + eapply C7; [done|congruence|done].
    + by apply Hd.
  - intros m' i' o Ho Hlo Hcl. rewrite Hdisk. destruct (page_pos o Ho) as (_ & Hj & Heq).
    destruct (entries (cache w) !! (m', i', o / 4096)) as [e|] eqn:He; [|apply C8; congruence || done].
    destruct (dirty e) eqn:Hdr; [|apply C8; congruence || done].
    destruct (decide ((m', i') = (m, i) ∧ start ≤ o / 4096 < start + Z.of_nat n)) as [[[= -> ->] Hr]|Hno].
    + pose proof (C9 m i o e Ho ltac:(specialize (Hl m i); lia) He Hdr) as Hz. rewrite Heq.
      by rewrite <- (Hd (o / 4096) e) by done.
    + specialize (Hcl e). unfold w' in Hcl. rewrite mark_clean_lookup, He, bool_decide_false in Hcl by done.
      specialize (Hcl eq_refl). congruence.
  - intros m' i' o e' Ho Hlo (e & He & -> & [[Hdr _]|[Hdr _]])%Hk Hd'; [|congruence]. eapply C9; [done..|congruence].
  - intros m' i' o Ho. unfold byte. rewrite Em, Hdisk. unfold w'. rewrite mark_clean_lookup.
    destruct (entries (cache w) !! (m', i', o / 4096)); cbn; [|done]. by case_bool_decide.
Qed.

(** One batch: its pages are written in one call and become clean. *)
Lemma flush_step ld lw w H P m i start fs s n : coherent ld lw w H P → (∀ m i, lw m i ≤ ld m i) → 0 ≤ start →
  (∀ x f, fs !! x = Some f → ∃ e, entries (cache w) !! (m, i, start + Z.of_nat x) = Some e ∧ frame e = f) →
  fs_write (fss w m) i (4096 * start) (data (cmem w) fs) = (s, Ok n) →
  let w' := mark_clean (with_fs w m s) m i start (length fs) in coherent ld lw w' H P ∧ same_view w w' m i.
Proof.
  intros Hc Hl Hs Hfs Hw w'. pose proof (fs_write_ok (fss w m) i (4096 * start) _ s n ltac:(lia) Hw) as (Hb & _ & Hj).
  rewrite (length_data _ _ (co_mem _ _ _ _ _ Hc)) in Hb.
  assert (Hin : ∀ p j e, start ≤ p < start + zlen fs → 0 ≤ j < 4096 → entries (cache w) !! (m, i, p) = Some e →
    fbyte (file s i) (4096 * p + j) = fbyte (cmem w (frame e)) j).
  { intros p j e Hp Hjj He. rewrite Hb by lia. rewrite bool_decide_true by lia.
    destruct (lookup_lt_is_Some_2 fs (Z.to_nat (p - start)) ltac:(lia)) as [f Hf].
    destruct (Hfs _ _ Hf) as (e' & He' & <-). rewrite Z2Nat.id in He' by lia.
    replace (start + (p - start)) with p in He' by lia. assert (e' = e) as -> by congruence.
    rewrite <- (fbyte_data (cmem w) fs _ _ j (co_mem _ _ _ _ _ Hc) Hf Hjj). f_equal. lia. }
  destruct (disk_change ld lw w H P m i s Hc Hj) as [Hc1 Hv1].
  { intros o Ho Hcl. destruct (page_pos o Ho) as (_ & Hjj & Heq).
    destruct (decide (start ≤ o / 4096 < start + zlen fs)) as [Hr|Hr].
    - destruct (lookup_lt_is_Some_2 fs (Z.to_nat (o / 4096 - start)) ltac:(lia)) as [f Hf].
      destruct (Hfs _ _ Hf) as (e & He & _). rewrite Z2Nat.id in He by lia.
      replace (start + (o / 4096 - start)) with (o / 4096) in He by lia.
      rewrite Heq, (Hin _ _ e) by done. by apply (co_clean _ _ _ _ _ Hc); [|apply Hcl|].
    - rewrite Hb by done. by rewrite bool_decide_false by lia. }
  destruct (clean_change ld lw (with_fs w m s) H P m i start (length fs) Hc1 Hl) as [Hc2 Hv2].
  { intros p e j Hp He Hjj. cbn. unfold disk_byte. cbn. rewrite decide_True by done. symmetry. by apply Hin. }
  split; [done|]. by eapply same_view_trans.
Qed.

Lemma flush_loop_spec ld lw m i fuel : ∀ w H P l, coherent ld lw w H P → (∀ m i, lw m i ≤ ld m i) →
  (∀ p f, (p, f) ∈ l → ∃ e, entries (cache w) !! (m, i, p) = Some e ∧ frame e = f) → (length l ≤ fuel)%nat →
  let '(w', r) := flush_loop hhdm fuel w m i l in
  r ≠ Panic ∧ (r = Ok () → coherent ld lw w' H P ∧ same_view w w' m i ∧
    ∀ p e, entries (cache w') !! (m, i, p) = Some e → dirty e = true →
      p ∉ l.*1 ∧ ∃ e0, entries (cache w) !! (m, i, p) = Some e0 ∧ dirty e0 = true).
Proof.
  induction fuel as [|fuel IH]; intros w H P l Hc Hl Hin Hlen.
  { destruct l; [|cbn in Hlen; lia]. cbn. split; [done|]. intros _. split; [done|]. split; [done|].
    intros p e He Hd. split; [apply not_elem_of_nil|eauto]. }
  destruct l as [|[start f0] l0].
  { cbn. split; [done|]. intros _. split; [done|]. split; [done|].
    intros p e He Hd. split; [apply not_elem_of_nil|eauto]. }
  cbn [flush_loop]. set (l := (start, f0) :: l0) in *. set (fs := batch _ start l).
  destruct (existsb (unmapped hhdm) fs); [done|].
  destruct (Hin start f0 ltac:(by left)) as (e0 & He0 & _). pose proof (co_index _ _ _ _ _ Hc _ _ He0) as Hst. cbn in Hst.
  rewrite wrap_small by (unfold is_u; lia).
  destruct (fs_write (fss w m) i (start * 4096) (data (cmem w) fs)) as [s r] eqn:Hw.
  destruct r as [n|er|]; [|done|].
  2:{ destruct (fs_returns (fss w m) i (start * 4096) (data (cmem w) fs)) as [Hp _]. by rewrite Hw in Hp. }
  rewrite Z.mul_comm in Hw.
  assert (Hfs : ∀ x f, fs !! x = Some f → ∃ e, entries (cache w) !! (m, i, start + Z.of_nat x) = Some e ∧ frame e = f).
  { intros x f Hx%batch_lookup%list_elem_of_lookup_2. by apply Hin. }
  destruct (flush_step ld lw w H P m i start fs s n Hc Hl ltac:(lia) Hfs Hw) as [Hc1 Hv1].
  pose proof (batch_head start f0 l0) as Hpos. fold l in Hpos. fold fs in Hpos.
  set (w1 := mark_clean _ m i start (length fs)) in *.
  assert (Hk : ∀ k, entries (cache w1) !! k = (λ e, if bool_decide (k.1 = (m, i) ∧ start ≤ k.2 < start + zlen fs)
    then set_dirty e false else e) <$> entries (cache w) !! k) by (intros k; unfold w1; by rewrite mark_clean_lookup).
  specialize (IH w1 H P (drop (length fs) l) Hc1 Hl). rewrite length_drop in IH.
  destruct (flush_loop hhdm fuel w1 m i (drop (length fs) l)) as [w2 r].
  destruct IH as [Hr Hok]; [|lia|].
  { intros p f Hpf. assert (Hpl : (p, f) ∈ l) by (rewrite <- (take_drop (length fs) l); apply elem_of_app; by right).
    destruct (Hin p f Hpl) as (e & He & Hf). rewrite Hk, He. eexists. split; [done|]. by case_bool_decide. }
  split; [done|]. intros Hrok. destruct (Hok Hrok) as (Hc2 & Hv2 & Hd2). split; [done|].
  split; [by eapply same_view_trans|]. intros p e He Hd. destruct (Hd2 p e He Hd) as (Hnot & e1 & He1 & Hd1).
  rewrite Hk, fmap_Some in He1. destruct He1 as (e2 & He2 & ->).
  case_bool_decide as Hrange; [done|]. split; [|eauto].
  rewrite <- (take_drop (length fs) l), fmap_app, elem_of_app. intros [Hp|Hp]; [|done].
  apply list_elem_of_fmap in Hp as ([p' f] & -> & Hp). apply Hrange. split; [done|]. cbn [fst snd].
  apply elem_of_take in Hp as (x & Hx & Hlt). destruct (lookup_lt_is_Some_2 fs x Hlt) as [g Hg].
  apply batch_lookup in Hg. assert (p' = start + Z.of_nat x) by congruence. lia.
Qed.

Lemma elem_of_dirty_pages c m i p f : (p, f) ∈ dirty_pages c m i ↔
  ∃ e, entries c !! (m, i, p) = Some e ∧ frame e = f ∧ dirty e = true.
Proof.
  unfold dirty_pages. rewrite list_elem_of_fmap. split.
  - intros ([[[m' i'] p'] e] & [= -> ->] & [[[= -> ->] Hd] He%elem_of_in_order]%list_elem_of_filter). eauto.
  - intros (e & He & <- & Hd). exists ((m, i, p), e). split; [done|]. apply list_elem_of_filter.
    split; [done|]. by apply elem_of_in_order.
Qed.

(** Cutting the disk copy at the file's size shows in no byte. *)
Lemma resize_silent ld lw w H P m i : coherent ld lw w H P → 0 ≤ ld m i →
  let w' := with_fs w m (fs_truncate (fss w m) i (ld m i)).1 in coherent ld lw w' H P ∧ same_view w w' m i.
Proof.
  intros Hc Hld. pose proof (fs_truncate_ok (fss w m) i (ld m i) Hld) as Ht.
  destruct (fs_truncate (fss w m) i (ld m i)) as [s r]. destruct Ht as [Hj Hi]. cbn [fst].
  apply disk_change; [done|done|]. intros o Ho Hcl. unfold disk_byte.
  destruct r; rewrite Hi; [|done|done]. rewrite fbyte_resize by done. case_bool_decide; [done|].
  symmetry. apply (co_disk _ _ _ _ _ Hc); [done|lia|done].
Qed.

Lemma sync_silent ld lw w H P m i : coherent ld lw w H P →
  let w' := (sync_fs w m).1 in coherent ld lw w' H P ∧ same_view w w' m i.
Proof.
  intros Hc. unfold sync_fs. pose proof (fs_sync_ok (fss w m)) as Hs.
  destruct (fs_sync (fss w m)) as [s r]. cbn [fst] in *. apply disk_change; [done|auto|].
  intros o _ _. by rewrite Hs.
Qed.

Lemma disk_up_to_date ld lw w H P m i : coherent ld lw w H P →
  (∀ p e, entries (cache w) !! (m, i, p) = Some e → dirty e = false) →
  ∀ o, 0 ≤ o → disk_byte w m i o = byte w m i o.
Proof.
  intros Hc Hd o Ho. destruct (page_pos o Ho) as (_ & Hj & Heq). unfold byte.
  destruct (entries (cache w) !! (m, i, o / 4096)) as [e|] eqn:He; [|done].
  rewrite (co_clean _ _ _ _ _ Hc m i _ e He (Hd _ _ He)) by done. by rewrite <- Heq.
Qed.

(** A file whose size is cached. *)
Lemma flush_sized w m i sz : steady w → get_file_size (cache w) m i = Some sz →
  let '(w', r) := flush_inode hhdm w m i in
  r ≠ Panic ∧ (r = Ok () → steady w' ∧
    (∀ m' i' o, 0 ≤ o → byte w' m' i' o = byte w m' i' o) ∧
    (∀ m' i', logical_size w' m' i' = logical_size w m' i') ∧
    (∀ o, 0 ≤ o → disk_byte w' m i o = byte w m i o) ∧
    (∀ p e, entries (cache w') !! (m, i, p) = Some e → dirty e = false) ∧
    (∀ m' i', (m', i') ≠ (m, i) → file (fss w' m') i' = file (fss w m') i')).
Proof.
  intros [(H & P & Hc) Hz] Hsz. unfold flush_inode. rewrite Hsz. set (ld := logical_size w) in *.
  assert (Hld : ld m i = sz) by (unfold ld, logical_size; by rewrite Hsz). rewrite <- Hld.
  destruct (resize_silent ld ld w H P m i Hc ltac:(apply Hz)) as [Hc1 Hv1]. set (w1 := with_fs w m _) in *.
  set (l := dirty_pages (cache w1) m i).
  pose proof (flush_loop_spec ld ld m i (length l) w1 H P l Hc1 ltac:(done)) as Hf.
  destruct (flush_loop hhdm (length l) w1 m i l) as [w2 r]. destruct Hf as [Hr Hok]; [|done|].
  { intros p f (e & He & Hfr & _)%elem_of_dirty_pages. eauto. }
  destruct r as [[]|er|]; [|done|done]. destruct (Hok eq_refl) as (Hc2 & Hv2 & Hd2).
  destruct (sync_silent ld ld w2 H P m i Hc2) as [Hc3 Hv3]. unfold sync_fs in *.
  pose proof (fs_returns (fss w2 m) 0 0 []) as (_ & _ & Hret).
  destruct (fs_sync (fss w2 m)) as [s r]. cbn [fst snd] in *. split; [done|]. intros _.
  assert (Hclean : ∀ p e, entries (cache w2) !! (m, i, p) = Some e → dirty e = false).
  { intros p e He. destruct (dirty e) eqn:Hd; [|done]. destruct (Hd2 p e He Hd) as (Hnot & e0 & He0 & Hd0).
    destruct Hnot. apply list_elem_of_fmap. exists (p, frame e0). split; [done|]. apply elem_of_dirty_pages. eauto. }
  assert (Hv : same_view w (with_fs w2 m s) m i) by (eapply same_view_trans; [|exact Hv3]; by eapply same_view_trans).
  pose proof (same_view_size _ _ _ _ _ Hv Hsz) as Hsize. pose proof Hv as (Hbyte & Hother & _).
  split. { split; [|intros m' i'; rewrite Hsize; apply Hz]. exists H, P.
    eapply coherent_limits; [| |exact Hc3]; intros m' i'; by rewrite Hsize. }
  split; [done|]. split; [done|]. split; [|done].
  intros o Ho. rewrite <- Hbyte by done. by apply (disk_up_to_date _ _ _ _ _ m i Hc3).
Qed.

(** C14: A flush.  Take a steady cache and a file of which the cache holds the
    size or no dirty page (every write through the cache records the size),
    on a filesystem whose successful writes store all their bytes.  The flush
    comes to an end without panic, and when it reports success the disk holds
    every byte that the cache shows of the file, the file has no dirty page
    left, no byte of any file and no size as the cache shows it has changed,
    and the other files are untouched on disk.  (Reads of the filesystem play
    no part.  The length of the file on disk may be rounded up to whole pages
    and becomes the size once the cache forgets it: [flush_rounds_size_up].) *)
Theorem page_cache_flush w m i : steady w → is_Some (get_file_size (cache w) m i) ∨ dirty_pages (cache w) m i = [] →
  let '(w', r) := flush_inode hhdm w m i in
  r ≠ Panic ∧ (r = Ok () → steady w' ∧
    (∀ m' i' o, 0 ≤ o → byte w' m' i' o = byte w m' i' o) ∧
    (∀ m' i', logical_size w' m' i' = logical_size w m' i') ∧
    (∀ o, 0 ≤ o → disk_byte w' m i o = byte w m i o) ∧
    (∀ p e, entries (cache w') !! (m, i, p) = Some e → dirty e = false) ∧
    (∀ m' i', (m', i') ≠ (m, i) → file (fss w' m') i' = file (fss w m') i')).
Proof.
  intros Hst [[sz Hsz]|Hnone]; [by apply flush_sized with sz|].
  destruct (get_file_size (cache w) m i) as [sz|] eqn:Hsz; [by apply flush_sized with sz|].
  pose proof Hst as [(H & P & Hc) Hz]. unfold flush_inode. rewrite Hsz, Hnone. cbn [flush_loop length].
  destruct (sync_silent _ _ w H P m i Hc) as [Hc3 (Hbyte & Hother & _)]. unfold sync_fs in *.
  pose proof (fs_returns (fss w m) 0 0 []) as (_ & _ & Hret). pose proof (fs_sync_ok (fss w m)) as Hs.
  destruct (fs_sync (fss w m)) as [s r]. cbn [fst snd] in *. split; [done|]. intros _.
  assert (Hsize : ∀ m' i', logical_size (with_fs w m s) m' i' = logical_size w m' i').
  { intros m' i'. unfold logical_size, get_file_size. cbn. case_match; [done|]. case_decide; [subst|done]. by rewrite !fs_size_ok, Hs. }
  assert (Hclean : ∀ p e, entries (cache w) !! (m, i, p) = Some e → dirty e = false).
  { intros p e He. destruct (dirty e) eqn:Hd; [|done]. exfalso. apply (not_elem_of_nil (p, frame e)). rewrite <- Hnone. apply elem_of_dirty_pages. eauto. }
  split. { split; [|intros m' i'; rewrite Hsize; apply Hz]. exists H, P. eapply coherent_limits; [| |exact Hc3]; intros m' i'; by rewrite Hsize. }
  split; [done|]. split; [done|]. split; [|done].
  intros o Ho. rewrite <- Hbyte by done. by apply (disk_up_to_date _ _ _ _ _ m i Hc3).
Qed.

(** ** Truncation *)

Context (Hmapped : ∀ (a : A) H f, holds a H → f ∈ H → is_Some (phys_to_virt hhdm f)).

Lemma elem_of_file_keys c m i from m' i' p : (m', i', p) ∈ file_keys c m i from ↔
  (m', i') = (m, i) ∧ from ≤ p ∧ is_Some (entries c !! (m', i', p)).
Proof.
  unfold file_keys. rewrite list_elem_of_fmap. split.
  - intros ([k e] & [= <-] & [[? ?] He%elem_of_in_order]%list_elem_of_filter). eauto.
  - intros (? & ? & [e He]). exists ((m', i', p), e). split; [done|]. apply list_elem_of_filter.
    split; [done|]. by apply elem_of_in_order.
Qed.

Lemma remove_pages_lookup ks : ∀ w k,
  entries (cache (remove_pages w ks)) !! k = if bool_decide (k ∈ ks) then None else entries (cache w) !! k.
Proof.
  induction ks as [|k0 ks IH]; intros w k; cbn [remove_pages].
  { rewrite bool_decide_false; [done|apply not_elem_of_nil]. }
  destruct (entries (cache w) !! k0) as [e|] eqn:He; rewrite IH.
  - cbn. destruct (decide (k = k0)) as [->|Hne].
    + rewrite lookup_delete_eq. rewrite (bool_decide_true (k0 ∈ k0 :: ks)) by left. by case_bool_decide.
    + rewrite lookup_delete_ne by done. by rewrite (bool_decide_ext (k ∈ k0 :: ks) (k ∈ ks)) by (rewrite elem_of_cons; tauto).
  - destruct (decide (k = k0)) as [->|Hne].
    + rewrite He, (bool_decide_true (k0 ∈ k0 :: ks)) by left. by case_bool_decide.
    + by rewrite (bool_decide_ext (k ∈ k0 :: ks) (k ∈ ks)) by (rewrite elem_of_cons; tauto).
Qed.

Lemma remove_pages_rest ks : ∀ w, let w' := remove_pages w ks in
  cmem w' = cmem w ∧ fss w' = fss w ∧ file_sizes (cache w') = file_sizes (cache w).
Proof.
  induction ks as [|k ks IH]; intros w; cbn [remove_pages]; [done|].
  destruct (entries (cache w) !! k) as [e|]; [|apply IH].
  match goal with |- context [remove_pages ?x ks] => by destruct (IH x) as (-> & -> & ->) end.
Qed.

(** Where the disk is known to be zero past [ld], any page can go. *)
Lemma coherent_remove ld lw ks : ∀ w H P, coherent ld lw w H P →
  (∀ k, k ∈ ks → ∀ o, ld k.1.1 k.1.2 ≤ o → disk_byte w k.1.1 k.1.2 o = 0) →
  ∃ H', coherent ld lw (remove_pages w ks) H' P.
Proof.
  induction ks as [|k ks IH]; intros w H P Hc Hz; cbn [remove_pages]; [eauto|].
  assert (Hz' : ∀ k, k ∈ ks → ∀ o, ld k.1.1 k.1.2 ≤ o → disk_byte w k.1.1 k.1.2 o = 0) by (intros k' Hk'; apply Hz; by right).
  destruct (entries (cache w) !! k) as [e|] eqn:He; [|by eapply IH].
  eapply IH; [|exact Hz']. change (cframes (with_cache w _)) with (cframes w).
  apply coherent_delete; [exact Hc|exact He|]. right. intros o Ho _ Hlo. apply Hz; [by left|done].
Qed.

(** The page at the new end, zeroed from there on and dirty. *)
Definition cut_page w (m i : Z) (e : PageEntry) (size : Z) : world :=
  with_cache (with_cmem w (set_mem (cmem w) (frame e)
      (take (Z.to_nat (size mod 4096)) (cmem w (frame e)) ++ replicate (4096 - Z.to_nat (size mod 4096)) 0)))
    (with_entries (cache w) (<[(m, i, size / 4096) :=
      {| frame := frame e; dirty := true; valid_bytes := size mod 4096; lru_seq := lru_seq e |}]> (entries (cache w)))).

(** The pages of [w'] are those of [w] below [size] and no others of the file. *)
Record cut w w' (m i size : Z) : Prop := {
  cut_fss : fss w' = fss w;
  cut_sizes : file_sizes (cache w') = <[(m, i) := size]> (file_sizes (cache w));
  cut_other m' i' p : (m', i') ≠ (m, i) → entries (cache w') !! (m', i', p) = entries (cache w) !! (m', i', p);
  cut_other_mem m' i' p e : (m', i') ≠ (m, i) → entries (cache w) !! (m', i', p) = Some e →
    cmem w' (frame e) = cmem w (frame e);
  cut_gone p e : entries (cache w') !! (m, i, p) = Some e → 4096 * p < size;
  cut_none p : 4096 * p < size → entries (cache w) !! (m, i, p) = None → entries (cache w') !! (m, i, p) = None;
  cut_kept p e : 4096 * p < size → entries (cache w) !! (m, i, p) = Some e →
    ∃ e', entries (cache w') !! (m, i, p) = Some e' ∧ (dirty e' = false → 4096 * p + 4096 ≤ size) ∧
    ∀ j, 0 ≤ j < 4096 → fbyte (cmem w' (frame e')) j =
      if bool_decide (4096 * p + j < size) then fbyte (cmem w (frame e)) j else 0 }.

Lemma first_removed size p : (size + 4095) / 4096 ≤ p ↔ size ≤ 4096 * p.
Proof.
  pose proof (Z.div_mod (size + 4095) 4096 ltac:(lia)). pose proof (Z.mod_pos_bound (size + 4095) 4096 ltac:(lia)). lia.
Qed.

(** No page holds the new end: removing the pages past it is enough. *)
Lemma removed_cut ld lw w H P m i size c : coherent ld lw w H P → 0 ≤ size →
  entries c = entries (cache w) → file_sizes c = <[(m, i) := size]> (file_sizes (cache w)) →
  let w1 := remove_pages (with_cache w c) (file_keys c m i ((size + 4095) / 4096)) in
  (∀ k, entries (cache w1) !! k =
     if bool_decide (k.1 = (m, i) ∧ size ≤ 4096 * k.2) then None else entries (cache w) !! k) ∧
  cmem w1 = cmem w ∧ fss w1 = fss w ∧ file_sizes (cache w1) = <[(m, i) := size]> (file_sizes (cache w)) ∧
  ((∀ o, ld m i ≤ o → disk_byte w m i o = 0) → ∃ H', coherent ld lw w1 H' P).
Proof.
  intros Hc Hs He Hz. set (ks := file_keys _ _ _ _). intros w1.
  destruct (remove_pages_rest ks (with_cache w c)) as (Em & Es & Ez). fold w1 in Em, Es, Ez.
  split; [|split; [done|split; [done|split; [by rewrite Ez|]]]].
  - intros [[m' i'] p]. unfold w1. rewrite remove_pages_lookup. cbn [with_cache cache fst snd]. rewrite He.
    destruct (entries (cache w) !! (m', i', p)) as [e|] eqn:Hk; [|by do 2 case_bool_decide].
    rewrite (bool_decide_ext _ ((m', i') = (m, i) ∧ size ≤ 4096 * p)); [done|].
    unfold ks. rewrite elem_of_file_keys, first_removed, He, Hk. naive_solver.
  - intros Hd. apply (coherent_remove ld lw ks (with_cache w c) H P).
    + destruct Hc. split; cbn [with_cache cache]; rewrite ?He; done.
    + intros [[m' i'] p] ([= -> ->] & _)%elem_of_file_keys. apply Hd.
Qed.

Lemma cut_page_cut ld lw w w1 H P m i size e : coherent ld lw w H P → 0 ≤ size → 0 < size mod 4096 →
  (∀ k, entries (cache w1) !! k =
     if bool_decide (k.1 = (m, i) ∧ size ≤ 4096 * k.2) then None else entries (cache w) !! k) →
  cmem w1 = cmem w → fss w1 = fss w → file_sizes (cache w1) = <[(m, i) := size]> (file_sizes (cache w)) →
  entries (cache w1) !! (m, i, size / 4096) = Some e →
  cut w (cut_page w1 m i e size) m i size.
Proof.
  intros Hc Hs Hpos Hk Em Es Ez He. destruct (page_pos size Hs) as (_ & Hj & Heq).
  assert (He' : entries (cache w) !! (m, i, size / 4096) = Some e).
  { rewrite Hk in He. by case_bool_decide. }
  assert (Hother : ∀ k e0, k ≠ (m, i, size / 4096) → entries (cache w) !! k = Some e0 → frame e0 ≠ frame e).
  { intros k e0 Hne He0 Hf. apply Hne. by eapply (co_inj _ _ _ _ _ Hc). }
  split; cbn [cut_page with_cache with_cmem cache cmem fss with_entries entries file_sizes]; rewrite ?Em; try done.
  - intros m' i' p Hne. rewrite lookup_insert_ne, Hk by congruence. cbn. by rewrite bool_decide_false by tauto.
  - intros m' i' p e0 Hne He0. unfold set_mem. rewrite decide_False; [done|]. eapply Hother; [|done]. congruence.
  - intros p e0. rewrite lookup_insert_Some. intros [[[= <-] _]|[_ Hp]]; [lia|].
    rewrite Hk in Hp. cbn in Hp. case_bool_decide as Hb; [done|]. assert (¬ size ≤ 4096 * p) by (intros ?; by apply Hb). lia.
  - intros p Hp Hn. rewrite lookup_insert_ne, Hk by congruence. by case_bool_decide.
  - intros p e0 Hp He0. destruct (decide (p = size / 4096)) as [->|Hne].
    + assert (e0 = e) as -> by congruence. rewrite lookup_insert_eq. eexists. split; [done|]. split; [done|].
      cbn [frame]. intros j Hjj. unfold set_mem. rewrite decide_True by done.
      assert (Hlen : length (take (Z.to_nat (size mod 4096)) (cmem w (frame e))) = Z.to_nat (size mod 4096)).
      { rewrite length_take, (co_mem _ _ _ _ _ Hc). lia. }
      case_bool_decide.
      * rewrite fbyte_app_l by lia. unfold fbyte. by rewrite lookup_take_lt by lia.
      * rewrite fbyte_app_r by lia. apply fbyte_zeros.
    + assert (p < size / 4096) by lia. rewrite lookup_insert_ne, Hk by congruence. cbn. rewrite bool_decide_false by lia.
      exists e0. split; [done|]. split; [lia|]. intros j Hjj. rewrite bool_decide_true by lia. unfold set_mem.
      rewrite decide_False; [done|]. eapply Hother; [|done]. congruence.
Qed.

Lemma no_page_cut w w1 m i size : 0 ≤ size →
  (∀ k, entries (cache w1) !! k =
     if bool_decide (k.1 = (m, i) ∧ size ≤ 4096 * k.2) then None else entries (cache w) !! k) →
  cmem w1 = cmem w → fss w1 = fss w → file_sizes (cache w1) = <[(m, i) := size]> (file_sizes (cache w)) →
  (0 < size mod 4096 → entries (cache w1) !! (m, i, size / 4096) = None) →
  cut w w1 m i size.
Proof.
  intros Hs Hk Em Es Ez Hn. destruct (page_pos size Hs) as (_ & Hj & Heq). split; rewrite ?Em; try done.
  - intros m' i' p Hne. rewrite Hk. cbn. by rewrite bool_decide_false by tauto.
  - intros p e0 Hp. rewrite Hk in Hp. cbn in Hp. case_bool_decide as Hb; [done|].
    assert (¬ size ≤ 4096 * p) by (intros ?; by apply Hb). lia.
  - intros p Hp Hp0. rewrite Hk. by case_bool_decide.
  - intros p e0 Hp He0. rewrite Hk in *. cbn [fst snd] in *. rewrite bool_decide_false by lia.
    assert (4096 * p + 4096 ≤ size).
    { destruct (decide (0 < size mod 4096)) as [Hpos|]; [|lia]. specialize (Hn Hpos).
      rewrite bool_decide_false in Hn by lia. assert (p ≠ size / 4096) by congruence. lia. }
    exists e0. split; [done|]. split; [done|]. intros j Hjj. by rewrite bool_decide_true by lia.
Qed.

Lemma cache_truncate_cut ld lw w H P m i size : coherent ld lw w H P → 0 ≤ size ≤ 2 ^ 62 → size ≤ lw m i →
  (∀ o, ld m i ≤ o → disk_byte w m i o = 0) →
  let w' := cache_truncate hhdm w m i size in cut w w' m i size ∧ ∃ H', coherent ld lw w' H' P.
Proof.
  intros Hc Hs Hlw Hz. unfold cache_truncate. rewrite wrap_small by (unfold is_u; lia). cbn [with_cache cache].
  replace (size + (4096 - 1)) with (size + 4095) by lia.
  destruct (removed_cut ld lw w H P m i size (set_file_size (cache w) m i size) Hc) as (Hk & Em & Es & Ez & Hc1);
    [lia|done|done|]. destruct (Hc1 Hz) as [H1 Hc2].
  change (with_cache w _) with (with_cache w (set_file_size (cache w) m i size)).
  set (w1 := remove_pages _ _) in *. clearbody w1.
  destruct (Z.ltb_spec 0 (size mod 4096)) as [Hpos|]; [|split; [apply no_page_cut; (done || lia)|eauto]].
  destruct (entries (cache w1) !! (m, i, size / 4096)) as [e|] eqn:He;
    [|split; [apply no_page_cut; (done || lia)|eauto]].
  destruct (Hmapped (cframes w1) H1 (frame e)) as [v ->]; [apply Hc2|by eapply (co_frame _ _ _ _ _ Hc2)|].
  change (with_cache _ _) with (cut_page w1 m i e size). split; [apply (cut_page_cut ld lw w w1 H P); (done || lia)|].
  exists H1. destruct (page_pos size ltac:(lia)) as (_ & Hj & Heq).
  pose proof (coherent_rewrite ld lw w1 H1 P m i (size / 4096) e
    {| frame := frame e; dirty := true; valid_bytes := size mod 4096; lru_seq := lru_seq e |}
    (take (Z.to_nat (size mod 4096)) (cmem w1 (frame e)) ++ replicate (4096 - Z.to_nat (size mod 4096)) 0) Hc2 He
    eq_refl eq_refl) as Hr.
  assert (Hlen : length (take (Z.to_nat (size mod 4096)) (cmem w1 (frame e))) = Z.to_nat (size mod 4096)).
  { rewrite length_take, (co_mem _ _ _ _ _ Hc2). lia. }
  destruct Hr; [rewrite length_app, length_replicate; lia| |by split].
  intros j Hjj Hpast. rewrite fbyte_app_r by lia. apply fbyte_zeros.
Qed.

Lemma cut_page_of w w1 m i size p e : cut w w1 m i size → entries (cache w1) !! (m, i, p) = Some e →
  ∃ e0, entries (cache w) !! (m, i, p) = Some e0 ∧ 4096 * p < size ∧ (dirty e = false → 4096 * p + 4096 ≤ size) ∧
    ∀ j, 0 ≤ j < 4096 → fbyte (cmem w1 (frame e)) j =
      if bool_decide (4096 * p + j < size) then fbyte (cmem w (frame e0)) j else 0.
Proof.
  intros Hcut He. pose proof (cut_gone _ _ _ _ _ Hcut p e He) as Hp.
  destruct (entries (cache w) !! (m, i, p)) as [e0|] eqn:He0.
  - destruct (cut_kept _ _ _ _ _ Hcut p e0 Hp He0) as (e' & He' & Hd & Hb). assert (e' = e) as -> by congruence. eauto 6.
  - rewrite (cut_none _ _ _ _ _ Hcut p Hp He0) in He. done.
Qed.

(** The cut cache over the cut disk file. *)
Lemma cut_coherent ld lw w w1 H P m i size s (sz := λ m' i', if decide ((m', i') = (m, i)) then size else ld m' i') :
  coherent ld lw w1 H P → cut w w1 m i size → 0 ≤ size →
  (∀ m' i', (m', i') ≠ (m, i) → lw m' i' = ld m' i') →
  (∀ j, j ≠ i → file s j = file (fss w m) j) →
  (∀ o, 0 ≤ o → fbyte (file s i) o = if bool_decide (o < size) then disk_byte w m i o else 0) →
  coherent sz sz (with_fs w1 m s) H P.
Proof.
  intros [C1 C2 C3 C4 C5 C5h C5f C6 C7 C8 C9] Hcut Hsz Hlw Hj Hi.
  assert (Hsame : ∀ m' i' o, (m', i') ≠ (m, i) → disk_byte (with_fs w1 m s) m' i' o = disk_byte w1 m' i' o).
  { intros m' i' o Hne. unfold disk_byte. cbn. case_decide; [|done]. subst m'.
    by rewrite (cut_fss _ _ _ _ _ Hcut), Hj by congruence. }
  assert (Hown : ∀ o, 0 ≤ o → disk_byte (with_fs w1 m s) m i o = if bool_decide (o < size) then disk_byte w1 m i o else 0).
  { intros o Ho. unfold disk_byte. cbn. rewrite decide_True by done. rewrite Hi by done.
    unfold disk_byte. by rewrite (cut_fss _ _ _ _ _ Hcut). }
  split; cbn [with_fs cmem cache cframes]; try done.
  - intros m' i' p e He Hd j Hjj. pose proof (C6 _ _ He) as Hp. cbn in Hp.
    destruct (decide ((m', i') = (m, i))) as [[= -> ->]|Hne]; [|rewrite Hsame by done; by eapply C7].
    destruct (cut_page_of _ _ _ _ _ _ _ Hcut He) as (e0 & _ & _ & Hin & _). specialize (Hin Hd).
    rewrite Hown by lia. rewrite bool_decide_true by lia. by eapply C7.
  - intros m' i' o Ho Hlo Hcl. unfold sz in Hlo. case_decide as Hne; [injection Hne as -> ->|].
    + rewrite Hown by done. by rewrite bool_decide_false by lia.
    + rewrite Hsame by done. by apply C8.
  - intros m' i' o e Ho Hlo He Hd. unfold sz in Hlo. case_decide as Hne; [injection Hne as -> ->|].
    + destruct (cut_page_of _ _ _ _ _ _ _ Hcut He) as (e0 & _ & _ & _ & Hb). destruct (page_pos o Ho) as (_ & Hjj & Heq).
      rewrite Hb by done. by rewrite bool_decide_false by lia.
    + apply (C9 m' i' o e); [done|rewrite Hlw; done|done|done].
Qed.

Lemma cut_byte w w1 m i size s : cut w w1 m i size →
  (∀ j, j ≠ i → file s j = file (fss w m) j) →
  (∀ o, 0 ≤ o → fbyte (file s i) o = if bool_decide (o < size) then disk_byte w m i o else 0) →
  ∀ m' i' o, 0 ≤ o → byte (with_fs w1 m s) m' i' o =
    if bool_decide ((m', i') = (m, i) ∧ size ≤ o) then 0 else byte w m' i' o.
Proof.
  intros Hcut Hj Hi m' i' o Ho. destruct (page_pos o Ho) as (_ & Hjj & Heq). unfold byte at 1. cbn [with_fs cache cmem].
  destruct (decide ((m', i') = (m, i))) as [[= -> ->]|Hne].
  - destruct (entries (cache w1) !! (m, i, o / 4096)) as [e|] eqn:He.
    + destruct (cut_page_of _ _ _ _ _ _ _ Hcut He) as (e0 & He0 & _ & _ & Hb). rewrite Hb by done. unfold byte. rewrite He0.
      rewrite <- Heq. case_bool_decide as H1; case_bool_decide as H2; try done; [lia|].
      destruct H2. split; [done|lia].
    + unfold disk_byte. cbn. rewrite decide_True, Hi by done. case_bool_decide as H1; case_bool_decide as H2; try lia; try done.
      * unfold byte. destruct (entries (cache w) !! (m, i, o / 4096)) as [e|] eqn:He0; [|done].
        destruct (cut_kept _ _ _ _ _ Hcut (o / 4096) e ltac:(lia) He0) as (e' & He' & _). congruence.
      * destruct H2. split; [done|lia].
  - rewrite (bool_decide_false (_ ∧ _)) by tauto. rewrite (cut_other _ _ _ _ _ Hcut) by done. unfold byte.
    destruct (entries (cache w) !! (m', i', o / 4096)) as [e|] eqn:He.
    + by rewrite (cut_other_mem _ _ _ _ _ Hcut _ _ _ _ Hne He).
    + unfold disk_byte. cbn. case_decide; [subst m'|by rewrite (cut_fss _ _ _ _ _ Hcut)]. by rewrite Hj by congruence.
Qed.

(** Truncation of a cached file.  When the filesystem accepts the new
    size, the file has exactly that size, its bytes below it are unchanged,
    everything past it reads as zero from then on (also when the file grows
    again), and no other file changes. *)
Theorem page_cache_truncate w m i size : steady w → 0 ≤ size ≤ 2 ^ 62 →
  let '(w', r) := truncate_file hhdm w m i size in
  r ≠ Panic ∧ (r = Ok () → steady w' ∧
    (∀ m' i' o, 0 ≤ o → byte w' m' i' o =
       if bool_decide ((m', i') = (m, i) ∧ size ≤ o) then 0 else byte w m' i' o) ∧
    (∀ m' i', logical_size w' m' i' = if decide ((m', i') = (m, i)) then size else logical_size w m' i')).
Proof.
  intros [(H & P & Hc) Hz] Hs. set (ld := logical_size w) in *.
  set (L := λ m' i', if decide ((m', i') = (m, i)) then Z.max (ld m i) (Z.max size (zlen (file (fss w m) i))) else ld m' i').
  assert (HL : ∀ m' i', ld m' i' ≤ L m' i') by (intros; unfold L; case_decide as Hq; [injection Hq as -> ->|]; lia).
  pose proof (coherent_limits ld ld L L w H P HL HL Hc) as HcL.
  assert (HLm : L m i = Z.max (ld m i) (Z.max size (zlen (file (fss w m) i)))) by (unfold L; by rewrite decide_True).
  destruct (cache_truncate_cut L L w H P m i size HcL Hs) as [Hcut [H1 Hc1]]; [lia| |].
  { intros o Ho. apply fbyte_past. lia. }
  unfold truncate_file. set (w1 := cache_truncate hhdm w m i size) in *. clearbody w1.
  pose proof (cut_fss _ _ _ _ _ Hcut) as Hfs. rewrite Hfs.
  pose proof (fs_truncate_ok (fss w m) i size ltac:(lia)) as Ht.
  pose proof (fs_returns (fss w m) i size []) as (_ & Hret & _).
  destruct (fs_truncate (fss w m) i size) as [s r]. destruct Ht as [Hj Hi]. split; [done|]. intros ->.
  assert (Hb : ∀ o, 0 ≤ o → fbyte (file s i) o = if bool_decide (o < size) then disk_byte w m i o else 0).
  { intros o Ho. rewrite Hi, fbyte_resize by lia. done. }
  assert (Hsz : ∀ m' i', logical_size (with_fs w1 m s) m' i' = if decide ((m', i') = (m, i)) then size else ld m' i').
  { intros m' i'. unfold ld, logical_size, get_file_size. cbn. rewrite (cut_sizes _ _ _ _ _ Hcut).
    destruct (decide ((m', i') = (m, i))) as [[= -> ->]|Hq].
    - by rewrite lookup_insert_eq.
    - rewrite lookup_insert_ne by done. destruct (file_sizes (cache w) !! (m', i')); [done|]. rewrite !fs_size_ok.
      case_decide; [subst m'|by rewrite Hfs]. by rewrite Hj by congruence. }
  split; [|split; [by apply (cut_byte w w1)|done]]. split.
  - exists H1, P. pose proof (cut_coherent L L w w1 H1 P m i size s Hc1 Hcut ltac:(lia) ltac:(done) Hj Hb) as Hfin.
    eapply coherent_limits; [| |exact Hfin]; intros m' i'; rewrite Hsz; unfold L; by repeat case_decide.
  - intros m' i'. rewrite Hsz. case_decide; [lia|apply Hz].
Qed.
End sync.

(** ** A small machine *)

(** A filesystem kept in memory. *)
Definition mem_fs : Type := Z → list Z.
Definition mem_update (s : mem_fs) (i : Z) (l : list Z) : mem_fs := λ j, if decide (j = i) then l else s j.
Definition resize_to (l : list Z) (n : Z) : list Z := take (Z.to_nat n) l ++ replicate (Z.to_nat n - length l) 0.

#[export] Instance mem_backing : BackingFs mem_fs := {|
  fs_size s i := Some (zlen (s i));
  fs_read s i off len := Some (take (Z.to_nat len) (drop (Z.to_nat off) (s i)));
  fs_write s i off bs :=
    (mem_update s i (splice (resize_to (s i) (Z.max (zlen (s i)) (off + zlen bs))) off bs), Ok (zlen bs));
  fs_truncate s i n := (mem_update s i (resize_to (s i) n), Ok ());
  fs_sync s := (s, Ok ()) |}.

Lemma length_resize l n : 0 ≤ n → zlen (resize_to l n) = n.
Proof. intros. unfold resize_to. rewrite length_app, length_take, length_replicate. lia. Qed.

#[export] Instance mem_backing_ok : BackingFsOk mem_fs.
Proof.
  refine {| file := λ (s : mem_fs) i, s i |}.
  - done.
  - intros s i off len bs _ _ [= <-]. done.
  - intros s i off bs s' n Ho [= <- _]. unfold mem_update. rewrite decide_True by done.
    pose proof (length_resize (s i) (Z.max (zlen (s i)) (off + zlen bs)) ltac:(lia)) as Hl.
    split; [|split; [rewrite length_splice; lia|intros j Hj; by rewrite decide_False]].
    intros o Hoo. rewrite fbyte_splice by lia. case_bool_decide; [done|].
    unfold resize_to. rewrite fbyte_resize by lia. case_bool_decide; [done|]. symmetry. apply fbyte_past. lia.
  - intros s i n Hn. cbn. unfold mem_update. rewrite decide_True by done. split; [|done].
    intros j Hj. by rewrite decide_False.
  - done.
  - done.
Defined.

#[local] Existing Instance machine_frames.

Abbreviation machine := (@world Buddy.BuddyAllocator mem_fs).

(** One file, inode 1 of mount 0, with three bytes; nothing cached. *)
Definition demo : machine :=
  {| cache := cache_new; fss := λ _ i, if decide (i = 1) then [7; 8; 9] else []; cframes := BuddySpec.sample;
     cmem := λ _, replicate 4096 0 |}.

Lemma uncached_steady (w : machine) H : cmem w = (λ _, replicate 4096 0) → entries (cache w) = ∅ → holds (cframes w) H →
  (∀ m i, zlen (fss w m i) ≤ logical_size w m i ≤ 2 ^ 63) → steady w.
Proof.
  intros Hm He Hh Hz. split; [|intros m i; specialize (Hz m i); lia]. exists H, [].
  assert (Hn : ∀ k, entries (cache w) !! k = None) by (intros k; by rewrite He).
  split; rewrite ?Hm.
  - intros f. apply length_replicate.
  - exact Hh.
  - intros k e. by rewrite Hn.
  - intros k1 k2 e1 e2. by rewrite Hn.
  - constructor.
  - intros f Hf. by apply not_elem_of_nil in Hf.
  - intros f k e Hf. by apply not_elem_of_nil in Hf.
  - intros k e. by rewrite Hn.
  - intros m i p e. by rewrite Hn.
  - intros m i o Ho Hl _. apply fbyte_past. cbn. specialize (Hz m i). lia.
  - intros m i o e Ho Hl. by rewrite Hn.
Qed.

Lemma mem_readable (s : mem_fs) i : readable s i.
Proof. intros off len _ _. by eexists. Qed.

Lemma demo_steady : steady demo.
Proof.
  apply (uncached_steady demo ∅); [done|done|exact machine_holds|]. intros m i.
  unfold logical_size, get_file_size, demo, cache_new. cbn [cache file_sizes fss fs_size mem_backing default from_option id].
  rewrite lookup_empty. case_decide; cbn; lia.
Qed.

Abbreviation demo_alloc := (λ a : Buddy.BuddyAllocator, a) (only parsing).
Lemma demo_user (a : Buddy.BuddyAllocator) H : holds a H → holds (demo_alloc a) H.
Proof. done. Qed.
Lemma demo_mapped (a : Buddy.BuddyAllocator) H f : holds a H → f ∈ H → is_Some (phys_to_virt machine_hhdm f).
Proof. intros Hh Hf. apply machine_hhdm_covers. by apply (frame_address a H). Qed.

Definition demo_read (w : machine) := cache_read machine_hhdm 0 Buddy.free_frames demo_alloc w.
Definition demo_write (w : machine) := cache_write machine_hhdm 0 Buddy.free_frames demo_alloc w.
(** Four bytes written across a page boundary: two dirty pages. *)
Definition demo_dirty : machine := (demo_write demo 0 1 4094 [1; 2; 3; 4]).1.

Lemma demo_dirty_steady : steady demo_dirty.
Proof.
  pose proof (cache_write_spec machine_hhdm 0 Buddy.free_frames demo_alloc demo_user demo_mapped
    demo 0 1 4094 [1; 2; 3; 4] demo_steady (mem_readable _ _) ltac:(lia) ltac:(cbn; lia)) as Hw.
  unfold demo_dirty, demo_write.
  assert (Hr : (demo_write demo 0 1 4094 [1; 2; 3; 4]).2 = Ok 4) by (vm_compute; reflexivity).
  unfold demo_write in Hr. destruct (cache_write _ _ _ _ demo 0 1 4094 [1; 2; 3; 4]) as [w r].
  cbn [snd] in Hr. subst r. exact (proj1 (proj2 Hw)).
Qed.

Lemma page_cache_read_witness : steady demo_dirty ∧ 
  let '(w', r) := demo_read demo_dirty 0 1 1 5 in
  steady w' ∧ silent demo_dirty w' ∧ r ≠ Panic ∧
  ∀ b, r = Ok b → b = range demo_dirty 0 1 1 (Z.max 0 (Z.min 5 (logical_size demo_dirty 0 1 - 1))).
Proof.
  split; [exact demo_dirty_steady|].
  exact (page_cache_read machine_hhdm 0 Buddy.free_frames demo_alloc demo_user demo_dirty 0 1 1 5
    demo_dirty_steady (mem_readable _ _) ltac:(lia) ltac:(lia)).
Defined.

Lemma page_cache_write_witness : steady demo_dirty ∧
  match demo_write demo_dirty 0 1 2 [5; 6] with
  | (w', Ok n) => n = 2 ∧ steady w' ∧ byte w' 0 1 3 = 6 ∧ byte w' 0 1 4094 = byte demo_dirty 0 1 4094
  | _ => False
  end.
Proof.
  split; [exact demo_dirty_steady|].
  pose proof (page_cache_write machine_hhdm 0 Buddy.free_frames demo_alloc demo_user demo_mapped
    demo_dirty 0 1 2 [5; 6] demo_dirty_steady (mem_readable _ _) ltac:(lia) ltac:(cbn; lia)) as Hw.
  assert (Hr : (demo_write demo_dirty 0 1 2 [5; 6]).2 = Ok 2) by (vm_compute; reflexivity).
  unfold demo_write in *. destruct (cache_write _ _ _ _ demo_dirty 0 1 2 [5; 6]) as [w r].
  cbn [snd] in Hr. subst r. destruct Hw as (Hn & Hst & _ & Hb & _). split; [exact Hn|]. split; [exact Hst|].
  split; rewrite Hb by lia; [by rewrite bool_decide_true by (cbn; lia)|by rewrite bool_decide_false by (cbn; lia)].
Defined.

Lemma evict_clean_pages_silent_witness : steady demo_dirty ∧ steady (evict_clean_pages demo_dirty 32).1 ∧
  byte (evict_clean_pages demo_dirty 32).1 0 1 4095 = byte demo_dirty 0 1 4095.
Proof.
  destruct (evict_clean_pages_silent demo_dirty 32 demo_dirty_steady) as (Hst & Hb & _).
  split; [exact demo_dirty_steady|]. split; [exact Hst|]. apply Hb. lia.
Defined.

Lemma page_cache_flush_witness : steady demo_dirty ∧ get_file_size (cache demo_dirty) 0 1 = Some 4098 ∧
  match flush_inode machine_hhdm demo_dirty 0 1 with
  | (w', Ok _) => steady w' ∧ disk_byte w' 0 1 4097 = byte demo_dirty 0 1 4097
  | _ => False
  end.
Proof.
  assert (Hsz : get_file_size (cache demo_dirty) 0 1 = Some 4098) by (vm_compute; reflexivity).
  split; [exact demo_dirty_steady|]. split; [exact Hsz|].
  pose proof (page_cache_flush machine_hhdm demo_dirty 0 1 demo_dirty_steady (or_introl (ex_intro _ _ Hsz))) as Hf.
  assert (Hr : (flush_inode machine_hhdm demo_dirty 0 1).2 = Ok ()) by (vm_compute; reflexivity).
  destruct (flush_inode machine_hhdm demo_dirty 0 1) as [w r]. cbn [snd] in Hr. subst r.
  destruct Hf as [_ Hf]. destruct (Hf eq_refl) as (Hst & _ & _ & Hd & _). split; [exact Hst|]. apply Hd. lia.
Defined.

Lemma page_cache_truncate_witness : steady demo_dirty ∧
  match truncate_file machine_hhdm demo_dirty 0 1 4095 with
  | (w', Ok _) => steady w' ∧ byte w' 0 1 4094 = byte demo_dirty 0 1 4094 ∧ byte w' 0 1 4095 = 0 ∧
      logical_size w' 0 1 = 4095
  | _ => False
  end.
Proof.
  split; [exact demo_dirty_steady|].
  pose proof (page_cache_truncate machine_hhdm demo_mapped demo_dirty 0 1 4095 demo_dirty_steady ltac:(lia)) as Hf.
  assert (Hr : (truncate_file machine_hhdm demo_dirty 0 1 4095).2 = Ok ()) by (vm_compute; reflexivity).
  destruct (truncate_file machine_hhdm demo_dirty 0 1 4095) as [w r]. cbn [snd] in Hr. subst r.
  destruct Hf as [_ Hf]. destruct (Hf eq_refl) as (Hst & Hb & Hz). split; [exact Hst|].
  split; [by rewrite Hb, bool_decide_false by lia|]. split; [by rewrite Hb, bool_decide_true by (try split; done || lia)|].
  by rewrite Hz, decide_True.
Defined.

(** ** What the code does at the edges *)

(** Whole pages are written back after the truncation to the file's size,
    so a flush leaves the file on disk rounded up to a page: 4098 bytes
    become 8192, and that is its size once the cache forgets it. *)
Theorem flush_rounds_size_up : logical_size demo_dirty 0 1 = 4098 ∧
  let w := (flush_inode machine_hhdm demo_dirty 0 1).1 in
  zlen (file (fss w 0) 1) = 8192 ∧ logical_size (invalidate_inode w 0 1) 0 1 = 8192.
Proof. vm_compute. auto. Qed.

(** A page that was handed to a mapping by [get_or_fetch_frame] is clean and
    its frame has no further reference, so memory pressure frees it and the
    next allocation returns the frame that the process still maps. *)
Theorem mapped_frame_reallocated :
  let '(w, r) := get_or_fetch_frame machine_hhdm 0 Buddy.free_frames demo_alloc demo 0 1 3 0 in
  let w := (evict_clean_pages w 32).1 in
  match r with Ok f => (alloc_frame (cframes w)).2 = Some f | _ => False end.
Proof. vm_compute. reflexivity. Qed.

(** A filesystem whose reads fail. *)
Definition broken_backing : BackingFs mem_fs := {|
  fs_size s i := Some (zlen (s i)); fs_read _ _ _ _ := None; fs_write s _ _ _ := (s, Err RedoxFs);
  fs_truncate s _ _ := (s, Err RedoxFs); fs_sync s := (s, Ok ()) |}.

(** A disk read that fails is not reported: the page is cached as zeros and
    the read succeeds. *)
Theorem failed_disk_read_gives_zeros :
  (cache_read (FS := broken_backing) machine_hhdm 0 Buddy.free_frames demo_alloc demo 0 1 0 3).2 = Ok [0; 0; 0].
Proof. vm_compute. reflexivity. Qed.

(** One byte written to a file that cannot be read: the other bytes of the
    page are lost. *)
Theorem failed_read_zeroes_page :
  (let w := (cache_write (FS := broken_backing) machine_hhdm 0 Buddy.free_frames demo_alloc demo 0 1 1 [5]).1 in
   range demo 0 1 0 3 = [7; 8; 9] ∧ range w 0 1 0 3 = [0; 5; 0]).
Proof. vm_compute. by split. Qed.

Definition demo_files : machine :=
  {| cache := cache_new; fss := λ _ _, [7]; cframes := BuddySpec.sample; cmem := λ _, replicate 4096 0 |}.

(** A hit adds one to the stamp of the page instead of giving it a new one:
    after reads of the files 1, 2, 3 and 1 again, file 1 is evicted first. *)
Theorem hit_page_evicted_first :
  let w := foldl (λ w i, (demo_read w 0 i 0 1).1) demo_files [1; 2; 3; 1] in
  let w' := (evict_clean_pages w 1).1 in
  entries (cache w') !! (0, 1, 0) = None ∧ is_Some (entries (cache w') !! (0, 2, 0)).
Proof. vm_compute. eauto. Qed.
