(* ===== verification/SwapCache.v ===== *)
(** * Page-in over the page cache

    [memory::alloc_frame] makes room by evicting clean pages of the page cache
    before it evicts user pages.  Here the frame allocator together with the
    page cache is itself a frame allocator for everybody else: the cache's
    pages are references of its own, and [evict_clean_pages] gives back these
    only.  This is what the page-in theorem of [SwapSpec] asks of the eviction
    of clean pages. *)

From stdpp Require Import gmap gmultiset.
From S2P Require Import Prelude Words Buddy BuddySpec Frames SharedFrames Vfs Pages Swap SwapSlots SwapSpec PageCache PageCacheSpec PageCacheSync.

Section pool.
Context {A S : Type} `{FA : !FrameAllocator A} `{SF : !SharedFrames A}.
Abbreviation pool := (@PageCache.world A S).
Implicit Types w : pool.

(** The frames of the cached pages, one reference for each page. *)
Definition entry_frames (e : gmap PageKey PageEntry) : gmultiset Z := list_to_set_disj (frame <$> (map_to_list e).*2).
Definition cache_frames w : gmultiset Z := entry_frames (entries (cache w)).

Lemma cached_delete e k x : e !! k = Some x → entry_frames e = {[+ frame x +]} ⊎ entry_frames (delete k e).
Proof.
  intros Hk. unfold entry_frames. rewrite <- (insert_delete_id e k x Hk) at 1. rewrite map_to_list_insert by apply lookup_delete_eq. done.
Qed.

Definition set_of (H : gset Z) : gmultiset Z := list_to_set_disj (elements H).
Lemma set_of_elem H f : f ∈ set_of H ↔ f ∈ H.
Proof. unfold set_of. rewrite elem_of_list_to_set_disj. apply elem_of_elements. Qed.
Lemma set_of_add H f : f ∉ H → set_of ({[f]} ∪ H) = {[+ f +]} ⊎ set_of H.
Proof. intros Hf. unfold set_of. by rewrite (elements_union_singleton H f Hf). Qed.
Lemma set_of_remove H f : f ∈ H → set_of (H ∖ {[f]}) = set_of H ∖ {[+ f +]}.
Proof.
  intros Hf. replace H with ({[f]} ∪ (H ∖ {[f]})) at 2; [|symmetry; by apply union_difference_singleton_L].
  rewrite set_of_add by set_solver. multiset_solver.
Qed.

Lemma ms_shuffle (C X : gmultiset Z) f : C ⊎ ({[+ f +]} ⊎ X) = {[+ f +]} ⊎ (C ⊎ X).
Proof. multiset_solver. Qed.
Lemma ms_remove (C X : gmultiset Z) f : f ∈ X → C ⊎ X ∖ {[+ f +]} = (C ⊎ X) ∖ {[+ f +]}.
Proof. intros Hf. multiset_solver. Qed.

Definition pool_alloc w : pool * option Z := let '(a, f) := alloc_frame (cframes w) in (with_cframes w a, f).
Definition pool_free w (f : Z) : pool * bool := let '(a, b) := free_frame (cframes w) f in (with_cframes w a, b).
(** The others' references are counted besides the cache's, and none of their
    frames is a page of the cache. *)
Definition pool_owned w (X : gmultiset Z) : Prop := owned (cframes w) (cache_frames w ⊎ X) ∧ ∀ f, f ∈ X → f ∉ cache_frames w.

Lemma pool_alloc_some w X w' f : pool_owned w X → pool_alloc w = (w', Some f) → f ∉ X ∧ pool_owned w' ({[+ f +]} ⊎ X).
Proof.
  unfold pool_owned, pool_alloc. intros [Ho Hd] Ha. destruct (alloc_frame (cframes w)) as [a o] eqn:He. injection Ha as <- ->.
  destruct (owned_alloc_some _ _ _ _ Ho He) as [Hf Ho']. split; [multiset_solver|]. change (cache_frames (with_cframes w a)) with (cache_frames w). split.
  - by rewrite ms_shuffle.
  - intros g Hg. destruct (decide (g = f)) as [->|]; [multiset_solver|]. apply Hd. multiset_solver.
Qed.
Lemma pool_alloc_none w X w' : pool_owned w X → pool_alloc w = (w', None) → pool_owned w' X.
Proof.
  unfold pool_owned, pool_alloc. intros [Ho Hd] Ha. destruct (alloc_frame (cframes w)) as [a o] eqn:He. injection Ha as <- ->.
  split; [exact (owned_alloc_none _ _ _ Ho He)|exact Hd].
Qed.
Lemma pool_free_owned w X f : pool_owned w X → f ∈ X → ∃ w', pool_free w f = (w', true) ∧ pool_owned w' (X ∖ {[+ f +]}).
Proof.
  unfold pool_owned, pool_free. intros [Ho Hd] Hf. destruct (owned_free _ _ f Ho) as (a & -> & Ho'); [multiset_solver|].
  eexists. split; [done|]. change (cache_frames (with_cframes w a)) with (cache_frames w). split.
  - by rewrite ms_remove.
  - intros g Hg. apply Hd. multiset_solver.
Qed.

#[local] Instance pool_frames : FrameAllocator pool.
Proof.
  refine {| holds := λ w H, pool_owned w (set_of H); alloc_frame := pool_alloc; free_frame := pool_free |}.
  - intros w H w' f Ho Ha. destruct (pool_alloc_some _ _ _ _ Ho Ha) as [Hf Ho']. rewrite set_of_elem in Hf. split; [done|]. by rewrite set_of_add.
  - intros w H w'. apply pool_alloc_none.
  - intros w H f Ho Hf. rewrite set_of_remove by done. apply pool_free_owned; [done|]. by apply set_of_elem.
  - intros w H f [Ho _] Hf. apply (owned_address _ _ _ Ho). apply gmultiset_elem_of_disj_union. right. by apply set_of_elem.
Defined.
#[local] Instance pool_shared : SharedFrames pool.
Proof.
  refine {| owned := pool_owned; frame_ref_inc := λ w f, with_cframes w (frame_ref_inc (cframes w) f); frame_refcount := λ w f, frame_refcount (cframes w) f |}.
  - exact pool_alloc_some.
  - exact pool_alloc_none.
  - exact pool_free_owned.
  - intros w X f [Ho Hd] Hf Hm. assert (multiplicity f (cache_frames w) = 0%nat) as H0 by by apply not_elem_of_multiplicity, Hd.
    split; change (cache_frames (with_cframes w (frame_ref_inc (cframes w) f))) with (cache_frames w); [|intros g [->%gmultiset_elem_of_singleton|Hg]%gmultiset_elem_of_disj_union; by apply Hd].
    rewrite ms_shuffle.
    apply owned_ref_inc; [done|multiset_solver|]. rewrite multiplicity_disj_union, H0. done.
  - intros w X f [Ho _] Hf. etrans; [|apply (owned_refcount _ _ f Ho); multiset_solver]. rewrite multiplicity_disj_union. lia.
  - intros w X f [Ho _] Hf. apply (owned_address _ _ _ Ho). multiset_solver.
Defined.

(** Clean pages are evicted at the cost of the cache only. *)
Lemma remove_pages_owned ks : ∀ w X, pool_owned w X → pool_owned (remove_pages w ks) X.
Proof.
  induction ks as [|k ks IH]; intros w X [Ho Hd]; cbn [remove_pages]; [done|]. destruct (entries (cache w) !! k) as [e|] eqn:Hk; [|by apply IH].
  apply IH. pose proof (cached_delete _ _ _ Hk) as Hc. fold (cache_frames w) in Hc. cbn [cframes with_cache].
  destruct (owned_free (cframes w) _ (frame e) Ho) as (a & -> & Ho'); [multiset_solver|]. cbn [fst].
  split; unfold cache_frames; cbn [cache with_cframes with_cache with_entries entries cframes].
  - by replace (entry_frames (delete k (entries (cache w))) ⊎ X) with ((cache_frames w ⊎ X) ∖ {[+ frame e +]}) by multiset_solver.
  - intros f Hf Hin. apply (Hd f Hf). multiset_solver.
Qed.
Lemma evict_clean_owned w X : owned w X → owned (evict_clean_pages w 32).1 X.
Proof. apply remove_pages_owned. Qed.
End pool.

(** ** A machine low on memory

    One file page is cached and clean, one user page is in swap slot 0, and
    the watermark makes the page-in evict the clean page first. *)

#[local] Existing Instances machine_frames machine_shared.
#[local] Instance machine_pool_frames : FrameAllocator machine := pool_frames.
#[local] Instance machine_pool_shared : SharedFrames machine := pool_shared.

Definition one_cached : machine := (demo_read demo 0 1 0 3).1.
Definition clean_first (w : machine) : machine := (evict_clean_pages w 32).1.
Definition away : @system machine :=
  {| mgr := (alloc_slot new_manager).1; initialized := true; start_lba := 34; total_sectors := 2014;
     in_eviction := false; disk := λ _, replicate 512 7; ptes := {[(1, 0x40000) := 0x406]};
     sframes := one_cached; smem := λ _, replicate 4096 0 |}.
Definition back : @system machine * res MapError bool :=
  resolve_swapped_page machine_hhdm all_sectors 32 (λ w : machine, Buddy.free_frames (cframes w)) clean_first away 1 0x40123.

Lemma one_cached_owned : owned one_cached ∅.
Proof.
  split; [|intros f Hf; by apply gmultiset_not_elem_of_empty in Hf]. rewrite (right_id_L ∅ (⊎)).
  assert (cframes one_cached = one_frame) as -> by (vm_compute; reflexivity).
  assert (cache_frames one_cached = {[+ 4096 +]}) as -> by (vm_compute; reflexivity). exact one_frame_holds.
Qed.
Lemma away_sound : sound away ∅.
Proof.
  assert (Hone : ∀ k e, ptes away !! k = Some e → k = (1, 0x40000) ∧ e = 0x406).
  { intros k e Hk. cbn in Hk. by apply lookup_singleton_Some in Hk as [<- <-]. }
  split.
  - split; [vm_compute; reflexivity| |vm_compute; reflexivity].
    assert (bitmap (mgr away) = 1 :: replicate 255 0) as -> by (vm_compute; reflexivity).
    constructor; [|apply Forall_replicate]; vm_compute; intuition congruence.
  - vm_compute. reflexivity.
  - done.
  - intros f. apply length_replicate.
  - intros n. apply length_replicate.
  - vm_compute. intuition congruence.
  - exact one_cached_owned.
  - intros k e [_ ->]%Hone. vm_compute. intuition congruence.
  - intros f [|k ks] _ Hin; [cbn; lia|]. apply Forall_cons in Hin as [(e & [_ ->]%Hone & Hp & _) _]. vm_compute in Hp. discriminate.
  - intros k e [_ ->]%Hone _. vm_compute. reflexivity.
  - intros k1 k2 e1 e2 [-> _]%Hone [-> _]%Hone. done.
Qed.

(** The page comes back with its bytes, and the clean page has made room. *)
Lemma resolve_swapped_page_invisible_witness :
  back.2 = Ok true ∧ entries (cache (sframes back.1)) = ∅ ∧ view back.1 (1, 0x40000) = view away (1, 0x40000).
Proof.
  split; [vm_compute; reflexivity|]. split; [vm_compute; reflexivity|].
  pose proof (resolve_swapped_page_invisible machine_hhdm all_sectors 32 (λ w : machine, Buddy.free_frames (cframes w)) clean_first evict_clean_owned
    away ∅ 1 0x40123 away_sound) as Hr. cbv zeta in Hr. unfold back.
  destruct (resolve_swapped_page _ _ _ _ _ _ _ _) as [s' r]. exact (proj1 (proj2 Hr) _).
Defined.
