(* ===== verification/Timer.v ===== *)
(** * Timers and clocks ([rust/kernel/src/timer.rs])

    The hierarchical timer wheel, the interval timers and sleeps kept in it,
    and the clocks.  A slot index is masked to the size of its array, so
    none of the accesses can be out of range. *)

From stdpp Require Import list.
From S2P Require Import Prelude Words.

Definition LVL0_SIZE : nat := 256.
Definition LVL1_SIZE : nat := 64.
Definition LVL2_SIZE : nat := 64.
Definition LVL3_SIZE : nat := 64.
Definition LVL1_SHIFT : Z := 8.
Definition LVL2_SHIFT : Z := 14.
Definition LVL3_SHIFT : Z := 20.
Definition LVL0_SPAN : Z := Z.shiftl 1 LVL1_SHIFT.
Definition LVL1_SPAN : Z := Z.shiftl 1 LVL2_SHIFT.
Definition LVL2_SPAN : Z := Z.shiftl 1 LVL3_SHIFT.
Definition LVL3_SPAN : Z := Z.shiftl 1 (LVL3_SHIFT + 6).

Inductive TimerKind :=
| Sleep (tid : Z)
| ITimerReal (pid interval_ticks : Z).
#[export] Instance TimerKind_eq_dec : EqDecision TimerKind.
Proof. solve_decision. Defined.

Record TimerEntry := { timer_id : Z; target_tick : Z; timer_kind : TimerKind }.
#[export] Instance TimerEntry_eq_dec : EqDecision TimerEntry.
Proof. solve_decision. Defined.

Record TimerWheel := {
  current_tick : Z;
  level0 : list (list TimerEntry); level1 : list (list TimerEntry);
  level2 : list (list TimerEntry); level3 : list (list TimerEntry);
  overflow : list TimerEntry; next_timer_id : Z }.

Definition wheel_new : TimerWheel :=
  {| current_tick := 0; level0 := replicate LVL0_SIZE []; level1 := replicate LVL1_SIZE [];
     level2 := replicate LVL2_SIZE []; level3 := replicate LVL3_SIZE []; overflow := []; next_timer_id := 1 |}.

Definition with_tick (w : TimerWheel) (t : Z) : TimerWheel :=
  {| current_tick := t; level0 := level0 w; level1 := level1 w; level2 := level2 w; level3 := level3 w;
     overflow := overflow w; next_timer_id := next_timer_id w |}.
Definition with_level0 (w : TimerWheel) (l : list (list TimerEntry)) : TimerWheel :=
  {| current_tick := current_tick w; level0 := l; level1 := level1 w; level2 := level2 w; level3 := level3 w;
     overflow := overflow w; next_timer_id := next_timer_id w |}.
Definition with_level1 (w : TimerWheel) (l : list (list TimerEntry)) : TimerWheel :=
  {| current_tick := current_tick w; level0 := level0 w; level1 := l; level2 := level2 w; level3 := level3 w;
     overflow := overflow w; next_timer_id := next_timer_id w |}.
Definition with_level2 (w : TimerWheel) (l : list (list TimerEntry)) : TimerWheel :=
  {| current_tick := current_tick w; level0 := level0 w; level1 := level1 w; level2 := l; level3 := level3 w;
     overflow := overflow w; next_timer_id := next_timer_id w |}.
Definition with_level3 (w : TimerWheel) (l : list (list TimerEntry)) : TimerWheel :=
  {| current_tick := current_tick w; level0 := level0 w; level1 := level1 w; level2 := level2 w; level3 := l;
     overflow := overflow w; next_timer_id := next_timer_id w |}.
Definition with_overflow (w : TimerWheel) (l : list TimerEntry) : TimerWheel :=
  {| current_tick := current_tick w; level0 := level0 w; level1 := level1 w; level2 := level2 w;
     level3 := level3 w; overflow := l; next_timer_id := next_timer_id w |}.
Definition with_next_id (w : TimerWheel) (n : Z) : TimerWheel :=
  {| current_tick := current_tick w; level0 := level0 w; level1 := level1 w; level2 := level2 w;
     level3 := level3 w; overflow := overflow w; next_timer_id := n |}.

(** [levels[slot].push(entry)] *)
Definition push_slot (ls : list (list TimerEntry)) (slot : Z) (e : TimerEntry) : list (list TimerEntry) :=
  alter (λ l, l ++ [e]) (Z.to_nat slot) ls.

Definition reinsert (w : TimerWheel) (e : TimerEntry) : TimerWheel :=
  let delta := saturating_sub (target_tick e) (current_tick w) in
  if delta <? LVL0_SPAN then with_level0 w (push_slot (level0 w) (Z.land (target_tick e) 0xff) e)
  else if delta <? LVL1_SPAN then
    with_level1 w (push_slot (level1 w) (Z.land (Z.shiftr (target_tick e) LVL1_SHIFT) 0x3f) e)
  else if delta <? LVL2_SPAN then
    with_level2 w (push_slot (level2 w) (Z.land (Z.shiftr (target_tick e) LVL2_SHIFT) 0x3f) e)
  else if delta <? LVL3_SPAN then
    with_level3 w (push_slot (level3 w) (Z.land (Z.shiftr (target_tick e) LVL3_SHIFT) 0x3f) e)
  else with_overflow w (overflow w ++ [e]).

Definition add_timer (w : TimerWheel) (target : Z) (k : TimerKind) : TimerWheel * Z :=
  let id := next_timer_id w in
  let w := with_next_id w (u64 (next_timer_id w + 1)) in
  (reinsert w {| timer_id := id; target_tick := target; timer_kind := k |}, id).

(** [core::mem::take(&mut levels[slot])]: what it returns; it leaves the slot empty. *)
Definition slot_of (ls : list (list TimerEntry)) (slot : Z) : list TimerEntry := default [] (ls !! Z.to_nat slot).
Definition clear_slot (ls : list (list TimerEntry)) (slot : Z) : list (list TimerEntry) := <[Z.to_nat slot := []]> ls.

Definition cascade1 (w : TimerWheel) (tick : Z) : TimerWheel :=
  let slot1 := Z.land (Z.shiftr tick LVL1_SHIFT) 0x3f in
  foldl reinsert (with_level1 w (clear_slot (level1 w) slot1)) (slot_of (level1 w) slot1).
Definition cascade2 (w : TimerWheel) (tick : Z) : TimerWheel :=
  let slot2 := Z.land (Z.shiftr tick LVL2_SHIFT) 0x3f in
  foldl reinsert (with_level2 w (clear_slot (level2 w) slot2)) (slot_of (level2 w) slot2).
Definition cascade3 (w : TimerWheel) (tick : Z) : TimerWheel :=
  let slot3 := Z.land (Z.shiftr tick LVL3_SHIFT) 0x3f in
  foldl reinsert (with_level3 w (clear_slot (level3 w) slot3)) (slot_of (level3 w) slot3).

(** [Vec::swap_remove] without its result. *)
Definition swap_remove (l : list TimerEntry) (i : nat) : list TimerEntry :=
  match last l with
  | Some x => take (length l - 1) (<[i := x]> l)
  | None => l
  end.

(** The promotion loop: every round moves on or shortens the list, so the
    length of the list is enough fuel. *)
Fixpoint promote (fuel : nat) (w : TimerWheel) (i : nat) : TimerWheel :=
  match fuel with
  | O => w
  | S fuel' =>
    match overflow w !! i with
    | None => w
    | Some e =>
      if saturating_sub (target_tick e) (current_tick w) <? LVL3_SPAN
      then promote fuel' (reinsert (with_overflow w (swap_remove (overflow w) i)) e) i
      else promote fuel' w (S i)
    end
  end.

Definition advance_tick (w : TimerWheel) : TimerWheel * list TimerEntry :=
  let w := with_tick w (wrapping_add 64 (current_tick w) 1) in
  let tick := current_tick w in
  let w := if Z.land tick 0xff =? 0 then cascade1 w tick else w in
  let w := if Z.land tick 0x3fff =? 0 then cascade2 w tick else w in
  let w := if Z.land tick 0xfffff =? 0 then
             let w := cascade3 w tick in promote (length (overflow w)) w 0
           else w in
  let slot0 := Z.land tick 0xff in
  let entries := slot_of (level0 w) slot0 in
  let expired := filter (λ e, target_tick e ≤ current_tick w) entries in
  let remaining := filter (λ e, ¬ target_tick e ≤ current_tick w) entries in
  (with_level0 w (<[Z.to_nat slot0 := remaining]> (level0 w)), expired).

(** ** Cancelling *)

(** [slot.iter().position(p)] and [slot.remove(pos)] *)
Fixpoint remove_first (p : TimerEntry → bool) (l : list TimerEntry) : option (TimerEntry * list TimerEntry) :=
  match l with
  | [] => None
  | e :: l' =>
    if p e then Some (e, l')
    else match remove_first p l' with Some (x, r) => Some (x, e :: r) | None => None end
  end.

(** [for slot in &mut level { ... }] *)
Fixpoint remove_slot (p : TimerEntry → bool) (ls : list (list TimerEntry))
    : option (TimerEntry * list (list TimerEntry)) :=
  match ls with
  | [] => None
  | l :: ls' =>
    match remove_first p l with
    | Some (x, r) => Some (x, r :: ls')
    | None => match remove_slot p ls' with Some (x, rs) => Some (x, l :: rs) | None => None end
    end
  end.

(** The search through the four levels and the overflow list. *)
Definition take_entry (p : TimerEntry → bool) (w : TimerWheel) : option (TimerEntry * TimerWheel) :=
  match remove_slot p (level0 w) with
  | Some (e, l) => Some (e, with_level0 w l)
  | None =>
  match remove_slot p (level1 w) with
  | Some (e, l) => Some (e, with_level1 w l)
  | None =>
  match remove_slot p (level2 w) with
  | Some (e, l) => Some (e, with_level2 w l)
  | None =>
  match remove_slot p (level3 w) with
  | Some (e, l) => Some (e, with_level3 w l)
  | None =>
  match remove_first p (overflow w) with
  | Some (e, l) => Some (e, with_overflow w l)
  | None => None
  end end end end end.

Definition is_sleep (tid : Z) (e : TimerEntry) : bool :=
  match timer_kind e with Sleep t => t =? tid | _ => false end.
Definition is_itimer (pid : Z) (e : TimerEntry) : bool :=
  match timer_kind e with ITimerReal p _ => p =? pid | _ => false end.

Definition wheel_cancel_sleep (w : TimerWheel) (tid : Z) : TimerWheel * option Z :=
  match take_entry (is_sleep tid) w with
  | Some (e, w) => (w, Some (target_tick e))
  | None => (w, None)
  end.

(** Interval and remaining time of an interval timer. *)
Definition itimer_answer (w : TimerWheel) (e : TimerEntry) : option (Z * Z) :=
  match timer_kind e with
  | ITimerReal _ interval => Some (interval, saturating_sub (target_tick e) (current_tick w))
  | Sleep _ => None
  end.

Definition cancel_itimer (w : TimerWheel) (pid : Z) : TimerWheel * option (Z * Z) :=
  match take_entry (is_itimer pid) w with
  | Some (e, w) => (w, itimer_answer w e)
  | None => (w, None)
  end.

(** Every entry, in the order in which the loops visit them. *)
Definition pending (w : TimerWheel) : list TimerEntry :=
  mjoin (level0 w) ++ mjoin (level1 w) ++ mjoin (level2 w) ++ mjoin (level3 w) ++ overflow w.

Definition wheel_get_itimer (w : TimerWheel) (pid : Z) : option (Z * Z) :=
  '(_, e) ← list_find (λ e, Is_true (is_itimer pid e)) (pending w); itimer_answer w e.

Definition rearm_itimer_entry (w : TimerWheel) (entry_id target : Z) : TimerWheel :=
  let p e := timer_id e =? entry_id in
  let again e := {| timer_id := timer_id e; target_tick := target; timer_kind := timer_kind e |} in
  match remove_slot p (level0 w) with
  | Some (e, l) => reinsert (with_level0 w l) (again e)
  | None =>
    match remove_slot p (level1 w) with
    | Some (e, l) => reinsert (with_level1 w l) (again e)
    | None => w
    end
  end.

(** ** The calls of the rest of the kernel *)

Definition add_sleep_timer (w : TimerWheel) (tid duration_ms : Z) : TimerWheel * Z :=
  let target := saturating_add 64 (current_tick w) (Z.max duration_ms 1) in
  ((add_timer w target (Sleep tid)).1, target).

Definition set_itimer (w : TimerWheel) (pid which interval_ms value_ms : Z) : TimerWheel * (Z * Z) :=
  let '(w, o) := cancel_itimer w pid in
  let old := default (0, 0) o in
  if (0 <? value_ms) && (which =? 0)
  then ((add_timer w (saturating_add 64 (current_tick w) value_ms) (ITimerReal pid interval_ms)).1, old)
  else (w, old).

Definition get_itimer (w : TimerWheel) (pid which : Z) : Z * Z :=
  if negb (which =? 0) then (0, 0) else default (0, 0) (wheel_get_itimer w pid).

Definition rearm_itimer (w : TimerWheel) (entry_id interval_ticks : Z) : TimerWheel :=
  rearm_itimer_entry w entry_id (saturating_add 64 (current_tick w) interval_ticks).

(** The timer part of [scheduler::timer_tick]: interval timers that expired
    are rearmed.  The threads woken and the processes signalled are the
    result. *)
Definition timer_tick (w : TimerWheel) : TimerWheel * list TimerEntry :=
  let '(w, expired) := advance_tick w in
  (foldl (λ w e, match timer_kind e with
                 | ITimerReal _ interval => if 0 <? interval then rearm_itimer w (timer_id e) interval else w
                 | Sleep _ => w
                 end) w expired, expired).

(** ** Clocks *)

(** What the real-time clock chip holds. *)
Record rtc := { r_sec : Z; r_min : Z; r_hour : Z; r_day : Z; r_month : Z; r_year : Z; r_century : Z; reg_b : Z }.

Definition rtc_decode (is_bcd : bool) (v : Z) : Z :=
  if is_bcd then Z.shiftr v 4 * 10 + Z.land v 0x0f else v.

Definition is_leap (y : Z) : bool := (y mod 4 =? 0) && (negb (y mod 100 =? 0) || (y mod 400 =? 0)).

Definition days_before (month leap : Z) : Z :=
  if month =? 1 then 0 else if month =? 2 then 31 else if month =? 3 then 59 + leap
  else if month =? 4 then 90 + leap else if month =? 5 then 120 + leap else if month =? 6 then 151 + leap
  else if month =? 7 then 181 + leap else if month =? 8 then 212 + leap else if month =? 9 then 243 + leap
  else if month =? 10 then 273 + leap else if month =? 11 then 304 + leap else if month =? 12 then 334 + leap
  else 0.

(** [for y in 1970..full_year { days += leap }] *)
Fixpoint year_days (n : nat) (y days : Z) : Z :=
  match n with
  | O => days
  | S n' => year_days n' (y + 1) (days + if is_leap y then 366 else 365)
  end.

Definition full_year (century year : Z) : Z :=
  if (19 <=? century) && (century <=? 22) then century * 100 + year
  else if 70 <=? year then 1900 + year else 2000 + year.

Definition unix_seconds (y month day hour min sec : Z) : Z :=
  let days := year_days (Z.to_nat (y - 1970)) 1970 0 in
  let days := days + days_before month (if is_leap y then 1 else 0) + (day - 1) in
  days * 86400 + hour * 3600 + min * 60 + sec.

(** [busy]: the update flag stayed set for all the attempts. *)
Definition read_rtc_seconds (busy : bool) (r : rtc) : option Z :=
  if busy then None else
  let dec := rtc_decode (Z.land (reg_b r) 0x04 =? 0) in
  let sec := dec (r_sec r) in
  let min := dec (r_min r) in
  let hour := dec (Z.land (r_hour r) 0x7f) in
  let hour := if (Z.land (reg_b r) 0x02 =? 0) && negb (Z.land hour 0x80 =? 0)
              then (Z.land hour 0x7f + 12) mod 24 else hour in
  let day := dec (r_day r) in
  let month := dec (r_month r) in
  let y := full_year (dec (r_century r)) (dec (r_year r)) in
  if (month <? 1) || (12 <? month) || (day <? 1) || (31 <? day) || (23 <? hour) || (59 <? min) || (59 <? sec)
  then None else Some (unix_seconds y month day hour min sec).

Record clocks := { global_ticks : Z; realtime_base_sec : Z; rtc_initialized : bool }.
Definition clocks_new : clocks :=
  {| global_ticks := 0; realtime_base_sec := 1789100000; rtc_initialized := false |}.

Definition sync_rtc_if_needed (c : clocks) (rtc_seconds : option Z) : clocks :=
  if rtc_initialized c then c else
  {| global_ticks := global_ticks c; rtc_initialized := true;
     realtime_base_sec :=
       match rtc_seconds with
       | Some s => if 1700000000 <=? s then signed 64 s else realtime_base_sec c
       | None => realtime_base_sec c
       end |}.

(** [cpu_ms] is [scheduler::current_cpu_ticks()]. *)
Definition get_clock_time (c : clocks) (rtc_seconds : option Z) (cpu_ms clock_id : Z) : clocks * (Z * Z) :=
  let ms := global_ticks c in
  let sec := ms / 1000 in
  let nsec := ms mod 1000 * 1000000 in
  if clock_id =? 0 then
    let c := sync_rtc_if_needed c rtc_seconds in
    (c, (wrapping_add 64 (u64 (realtime_base_sec c)) sec, nsec))
  else if (clock_id =? 2) || (clock_id =? 3) then (c, (cpu_ms / 1000, cpu_ms mod 1000 * 1000000))
  else (c, (sec, nsec)).

Definition set_clock_time (c : clocks) (clock_id sec nsec : Z) : clocks * res unit unit :=
  if negb (clock_id =? 0) then (c, Err ()) else
  let current_sec := global_ticks c / 1000 in
  ({| global_ticks := global_ticks c; rtc_initialized := rtc_initialized c;
      realtime_base_sec := signed 64 (signed 64 sec - signed 64 current_sec) |}, Ok ()).
