(* ===== verification/TimerSpec.v ===== *)
(** * The timer wheel is a set of timers

    Whatever is added and cancelled meanwhile, a timer expires at the tick
    it was set for, once, and no other timer expires then. *)

From stdpp Require Import list.
From S2P Require Import Prelude Words Timer.

(** Entry [e] may wait in slot [s] of a level of [n] slots of [2^sh] ticks
    when the cascades up to tick [b] have been done. *)
Definition in_place (n sh b s : Z) (e : TimerEntry) : Prop :=
  s = (target_tick e / 2 ^ sh) mod n ∧ 0 < target_tick e / 2 ^ sh - b / 2 ^ sh ≤ n.

Definition level_ok (n : nat) (sh b : Z) (ls : list (list TimerEntry)) : Prop :=
  length ls = n ∧ ∀ s l e, ls !! s = Some l → e ∈ l → in_place (Z.of_nat n) sh b (Z.of_nat s) e.

(** The cascades of level [k] have been done up to tick [bk]. *)
Record placed (b0 b1 b2 b3 b4 : Z) (w : TimerWheel) : Prop := {
  pl_now : 0 ≤ current_tick w;
  pl_0 : level_ok LVL0_SIZE 0 b0 (level0 w);
  pl_1 : level_ok LVL1_SIZE 8 b1 (level1 w);
  pl_2 : level_ok LVL2_SIZE 14 b2 (level2 w);
  pl_3 : level_ok LVL3_SIZE 20 b3 (level3 w);
  pl_over : Forall (λ e, b4 / 2 ^ 20 + 64 ≤ target_tick e / 2 ^ 20) (overflow w) }.

(** The wheel between two ticks. *)
Definition wheel_ok (w : TimerWheel) : Prop :=
  let t := current_tick w in placed t t t t t w.

(** ** Slots *)

Lemma land_slot t sh : 0 ≤ sh → Z.land (Z.shiftr t sh) 0x3f = (t / 2 ^ sh) mod 64.
Proof. intros. rewrite Z.shiftr_div_pow2 by done. apply (Z.land_ones _ 6). done. Qed.
Lemma land_low t : Z.land t 0xff = (t / 2 ^ 0) mod 256.
Proof. rewrite Z.div_1_r. apply (Z.land_ones _ 8). done. Qed.

Lemma push_level_ok n sh b ls e : level_ok n sh b ls → (0 < n)%nat →
  0 < target_tick e / 2 ^ sh - b / 2 ^ sh ≤ Z.of_nat n →
  level_ok n sh b (push_slot ls ((target_tick e / 2 ^ sh) mod Z.of_nat n) e).
Proof.
  intros [Hl Hin] Hn Hd. unfold push_slot. split; [by rewrite length_alter|].
  intros s l x. rewrite list_lookup_alter. case_decide as Hs; [subst s|apply Hin].
  destruct (ls !! _) as [l0|] eqn:Hl0; [|done]. intros [= <-] [Hx| ->%list_elem_of_singleton]%elem_of_app.
  - by eapply Hin.
  - split; [|done]. pose proof (Z.mod_pos_bound (target_tick e / 2 ^ sh) (Z.of_nat n) ltac:(lia)). lia.
Qed.

Lemma push_join ls s e : (Z.to_nat s < length ls)%nat → mjoin (push_slot ls s e) ≡ₚ e :: mjoin ls.
Proof.
  intros Hs. unfold push_slot. destruct (lookup_lt_is_Some_2 ls (Z.to_nat s) Hs) as [l Hl].
  apply list_elem_of_split_length in Hl as (l1 & l2 & -> & ->). rewrite alter_app_r_alt by done.
  rewrite Nat.sub_diag. cbn. rewrite !join_app. cbn. rewrite <- app_assoc. cbn.
  cbn [app]; by rewrite <- ?Permutation_middle.
Qed.

Lemma slot_in n a : (0 < n)%nat → (Z.to_nat (a mod Z.of_nat n) < n)%nat.
Proof. intros. pose proof (Z.mod_pos_bound a (Z.of_nat n) ltac:(lia)). lia. Qed.

(** Emptying a slot moves its entries out. *)
Lemma take_slot_join ls s : (Z.to_nat s < length ls)%nat → mjoin ls ≡ₚ slot_of ls s ++ mjoin (clear_slot ls s).
Proof.
  intros Hs. destruct (lookup_lt_is_Some_2 ls (Z.to_nat s) Hs) as [l Hl]. unfold slot_of, clear_slot. rewrite Hl. cbn.
  apply list_elem_of_split_length in Hl as (l1 & l2 & -> & ->). rewrite insert_app_r_alt by done.
  rewrite Nat.sub_diag. cbn. rewrite !join_app. cbn. rewrite !app_assoc. by rewrite (Permutation_app_comm (mjoin l1) l).
Qed.

(** The step of a level to the next tick, when it starts a new slot: the
    slot that is due holds exactly the entries whose time has come. *)
Lemma slot_due n sh b ls : level_ok n sh b ls → (0 < n)%nat → 0 ≤ b → 0 ≤ sh → (b + 1) mod 2 ^ sh = 0 →
  let s := ((b + 1) / 2 ^ sh) mod Z.of_nat n in
  (∀ e, e ∈ slot_of ls s → target_tick e / 2 ^ sh = (b + 1) / 2 ^ sh) ∧ level_ok n sh (b + 1) (clear_slot ls s).
Proof.
  intros [Hl Hin] Hn Hb Hsh Hmod s. assert (Hp : 0 < 2 ^ sh) by (apply Z.pow_pos_nonneg; lia).
  assert (Hdiv : (b + 1) / 2 ^ sh = b / 2 ^ sh + 1).
  { pose proof (Z.div_mod (b + 1) (2 ^ sh) ltac:(lia)) as H1. rewrite Hmod in H1.
    pose proof (Z.div_mod b (2 ^ sh) ltac:(lia)). pose proof (Z.mod_pos_bound b (2 ^ sh) Hp). nia. }
  assert (Hs : 0 ≤ s < Z.of_nat n) by (apply Z.mod_pos_bound; lia).
  split.
  - intros e. unfold slot_of. destruct (ls !! Z.to_nat s) as [l|] eqn:Hls; [|by intros ?%not_elem_of_nil].
    cbn. intros He. destruct (Hin _ _ _ Hls He) as [Hse Hd]. rewrite Z2Nat.id in Hse by lia.
    set (x := target_tick e / 2 ^ sh) in *. set (y := (b + 1) / 2 ^ sh) in *. unfold s in Hse.
    pose proof (Z.div_mod x (Z.of_nat n) ltac:(lia)). pose proof (Z.div_mod y (Z.of_nat n) ltac:(lia)).
    rewrite <- Hse in *. assert (x / Z.of_nat n = y / Z.of_nat n) by nia. nia.
  - unfold clear_slot. split; [by rewrite length_insert|].
    intros i l e. rewrite list_lookup_insert. case_decide as Hi; [intros [= <-]; by intros ?%not_elem_of_nil|].
    intros Hli He. destruct (Hin _ _ _ Hli He) as [Hie Hd]. split; [done|].
    assert (target_tick e / 2 ^ sh ≠ (b + 1) / 2 ^ sh); [|lia].
    intros Heq. rewrite Heq in Hie. fold s in Hie. apply Hi. split; [lia|]. apply lookup_lt_Some in Hli. lia.
Qed.

(** Inside a slot nothing is due at a level. *)
Lemma level_wait n sh b ls : level_ok n sh b ls → 0 ≤ b → 0 ≤ sh → (b + 1) mod 2 ^ sh ≠ 0 → level_ok n sh (b + 1) ls.
Proof.
  intros [Hl Hin] Hb Hsh Hmod. split; [done|]. intros s l e Hs He. destruct (Hin _ _ _ Hs He) as [H1 H2].
  split; [done|]. assert (Hp : 0 < 2 ^ sh) by (apply Z.pow_pos_nonneg; lia).
  assert ((b + 1) / 2 ^ sh = b / 2 ^ sh) as ->; [|done].
  pose proof (Z.div_mod (b + 1) (2 ^ sh) ltac:(lia)). pose proof (Z.mod_pos_bound (b + 1) (2 ^ sh) Hp).
  pose proof (Z.div_mod b (2 ^ sh) ltac:(lia)). pose proof (Z.mod_pos_bound b (2 ^ sh) Hp). nia.
Qed.

(** ** Inserting *)

(** The level that [reinsert] chooses for a timer [delta] ticks ahead. *)
Lemma reinsert_eq w e : let d := saturating_sub (target_tick e) (current_tick w) in
  reinsert w e =
    if bool_decide (d < 2 ^ 8) then with_level0 w (push_slot (level0 w) ((target_tick e / 2 ^ 0) mod 256) e)
    else if bool_decide (d < 2 ^ 14) then with_level1 w (push_slot (level1 w) ((target_tick e / 2 ^ 8) mod 64) e)
    else if bool_decide (d < 2 ^ 20) then with_level2 w (push_slot (level2 w) ((target_tick e / 2 ^ 14) mod 64) e)
    else if bool_decide (d < 2 ^ 26) then with_level3 w (push_slot (level3 w) ((target_tick e / 2 ^ 20) mod 64) e)
    else with_overflow w (overflow w ++ [e]).
Proof.
  cbv zeta. unfold reinsert. rewrite land_low, !land_slot by done.
  change LVL0_SPAN with (2 ^ 8). change LVL1_SPAN with (2 ^ 14). change LVL2_SPAN with (2 ^ 20).
  change LVL3_SPAN with (2 ^ 26). set (d := saturating_sub _ _).
  repeat (case_bool_decide; [rewrite (proj2 (Z.ltb_lt d _)) by lia|rewrite (proj2 (Z.ltb_ge d _)) by lia]; try done).
Qed.

(** A level is ready to take a timer [d] ticks ahead of tick [t]. *)
Definition ready (b1 b2 b3 b4 t d : Z) : Prop :=
  (2 ^ 8 ≤ d < 2 ^ 14 → b1 = t) ∧ (2 ^ 14 ≤ d < 2 ^ 20 → b2 = t) ∧ (2 ^ 20 ≤ d < 2 ^ 26 → b3 = t) ∧ (2 ^ 26 ≤ d → b4 = t).

Lemma quotient_ahead t x sh k : 0 ≤ sh → 2 ^ sh ≤ x - t → x - t < k * 2 ^ sh → 0 < x / 2 ^ sh - t / 2 ^ sh ≤ k.
Proof.
  intros Hsh H1 H2. assert (Hp : 0 < 2 ^ sh) by (apply Z.pow_pos_nonneg; lia).
  pose proof (Z.div_mod t (2 ^ sh) ltac:(lia)). pose proof (Z.mod_pos_bound t (2 ^ sh) Hp).
  pose proof (Z.div_mod x (2 ^ sh) ltac:(lia)). pose proof (Z.mod_pos_bound x (2 ^ sh) Hp). nia.
Qed.

Lemma reinsert_placed b0 b1 b2 b3 b4 w e : placed b0 b1 b2 b3 b4 w →
  let t := current_tick w in b0 ≤ t ≤ b0 + 1 → t ≤ target_tick e → b0 < target_tick e →
  ready b1 b2 b3 b4 t (target_tick e - t) →
  placed b0 b1 b2 b3 b4 (reinsert w e) ∧ current_tick (reinsert w e) = t ∧ next_timer_id (reinsert w e) = next_timer_id w.
Proof.
  intros [Hn H0 H1 H2 H3 H4] t Hb Ht Hlt (R1 & R2 & R3 & R4). rewrite reinsert_eq. fold t.
  replace (saturating_sub (target_tick e) t) with (target_tick e - t) by (unfold saturating_sub; lia).
  set (d := target_tick e - t) in *.
  case_bool_decide as D0; [|case_bool_decide as D1; [|case_bool_decide as D2; [|case_bool_decide as D3]]];
    (split; [|done]; split; cbn [current_tick level0 level1 level2 level3 overflow with_level0 with_level1 with_level2
      with_level3 with_overflow]; try done).
  - apply (push_level_ok LVL0_SIZE); [done|unfold LVL0_SIZE; lia|].
    rewrite !Z.div_1_r. unfold LVL0_SIZE. lia.
  - apply (push_level_ok LVL1_SIZE); [done|unfold LVL1_SIZE; lia|].
    rewrite R1 by lia. apply quotient_ahead; unfold LVL1_SIZE; lia.
  - apply (push_level_ok LVL2_SIZE); [done|unfold LVL2_SIZE; lia|].
    rewrite R2 by lia. apply quotient_ahead; unfold LVL2_SIZE; lia.
  - apply (push_level_ok LVL3_SIZE); [done|unfold LVL3_SIZE; lia|].
    rewrite R3 by lia. apply quotient_ahead; unfold LVL3_SIZE; lia.
  - apply Forall_app. split; [done|]. apply Forall_singleton. rewrite R4 by lia.
    pose proof (Z.div_le_mono (t + 64 * 2 ^ 20) (target_tick e) (2 ^ 20) ltac:(lia) ltac:(lia)) as Hd.
    rewrite Z.div_add in Hd by lia. lia.
Qed.

Lemma reinsert_pending b0 b1 b2 b3 b4 w e : placed b0 b1 b2 b3 b4 w → pending (reinsert w e) ≡ₚ e :: pending w.
Proof.
  intros [_ [H0 _] [H1 _] [H2 _] [H3 _] _]. rewrite reinsert_eq. unfold pending.
  repeat case_bool_decide; cbn [level0 level1 level2 level3 overflow with_level0 with_level1 with_level2
    with_level3 with_overflow].
  - rewrite push_join; [done|]. rewrite H0. apply (slot_in 256). lia.
  - rewrite push_join by (rewrite H1; apply (slot_in 64); lia). cbn [app]; by rewrite <- ?Permutation_middle.
  - rewrite push_join by (rewrite H2; apply (slot_in 64); lia). cbn [app]; by rewrite <- ?Permutation_middle.
  - rewrite push_join by (rewrite H3; apply (slot_in 64); lia). cbn [app]; by rewrite <- ?Permutation_middle.
  - rewrite !app_assoc. rewrite (Permutation_app_comm _ [e]). done.
Qed.

Lemma reinsert_all b0 b1 b2 b3 b4 es : ∀ w, placed b0 b1 b2 b3 b4 w → b0 ≤ current_tick w ≤ b0 + 1 →
  Forall (λ e, current_tick w ≤ target_tick e ∧ b0 < target_tick e ∧
    ready b1 b2 b3 b4 (current_tick w) (target_tick e - current_tick w)) es →
  let w' := foldl reinsert w es in
  placed b0 b1 b2 b3 b4 w' ∧ current_tick w' = current_tick w ∧ next_timer_id w' = next_timer_id w ∧
    pending w' ≡ₚ es ++ pending w.
Proof.
  induction es as [|e es IH]; intros w Hw Hb Hes; [done|].
  apply Forall_cons in Hes as [(E1 & E2 & E3) Hes].
  destruct (reinsert_placed b0 b1 b2 b3 b4 w e Hw Hb E1 E2 E3) as (Hw1 & Ht & Hi).
  destruct (IH (reinsert w e) Hw1) as (Hw2 & Ht2 & Hi2 & Hp2); [lia|by rewrite Ht|].
  cbn [foldl]. split; [done|]. split; [by rewrite Ht2|]. split; [by rewrite Hi2|].
  rewrite Hp2, (reinsert_pending b0 b1 b2 b3 b4 w e Hw). by rewrite <- Permutation_middle.
Qed.

(** ** One tick *)

Lemma due_range x t sh : 0 ≤ sh → t mod 2 ^ sh = 0 → x / 2 ^ sh = t / 2 ^ sh → t ≤ x < t + 2 ^ sh.
Proof.
  intros Hsh Hm Hq. assert (Hp : 0 < 2 ^ sh) by (apply Z.pow_pos_nonneg; lia).
  pose proof (Z.div_mod t (2 ^ sh) ltac:(lia)). pose proof (Z.div_mod x (2 ^ sh) ltac:(lia)).
  pose proof (Z.mod_pos_bound x (2 ^ sh) Hp). nia.
Qed.

(** What a part of a tick may do: nothing is lost and the clock stays. *)
Definition moves (w w' : TimerWheel) : Prop :=
  current_tick w' = current_tick w ∧ next_timer_id w' = next_timer_id w ∧ pending w' ≡ₚ pending w.

Lemma moves_trans w1 w2 w3 : moves w1 w2 → moves w2 w3 → moves w1 w3.
Proof. intros (A1 & A2 & A3) (B1 & B2 & B3). split; [congruence|]. split; [congruence|by rewrite B3]. Qed.

Lemma cascade1_ok c b2 b3 b4 w : 0 ≤ c → current_tick w = c + 1 → placed c c b2 b3 b4 w →
  let w' := if Z.land (c + 1) 0xff =? 0 then cascade1 w (c + 1) else w in
  placed c (c + 1) b2 b3 b4 w' ∧ moves w w'.
Proof.
  intros Hc Ht [Hn H0 H1 H2 H3 H4]. rewrite (land_mask 8) by done.
  destruct (Z.eqb_spec ((c + 1) mod 2 ^ 8) 0) as [Hm|Hm].
  2:{ cbv zeta. split; [|done]. split; try done. by apply level_wait. }
  unfold cascade1. rewrite land_slot by done.
  destruct (slot_due LVL1_SIZE 8 c (level1 w) H1 ltac:(unfold LVL1_SIZE; lia) Hc ltac:(lia) Hm) as [Hdue Hclear].
  change (Z.of_nat LVL1_SIZE) with 64 in *. set (s := ((c + 1) / 2 ^ 8) mod 64) in *.
  set (w1 := with_level1 w _). assert (Hw1 : placed c (c + 1) b2 b3 b4 w1) by (by split).
  destruct (reinsert_all c (c + 1) b2 b3 b4 (slot_of (level1 w) s) w1 Hw1) as (Hp & Ht' & Hi' & Hpend).
  { cbn. lia. }
  { apply Forall_forall. intros e He. cbn. rewrite Ht. pose proof (due_range _ _ 8 ltac:(lia) Hm (Hdue e He)).
    unfold ready. lia. }
  split; [done|]. split; [done|]. split; [done|]. etrans; [exact Hpend|]. unfold pending, w1. cbn.
  rewrite (take_slot_join (level1 w) s) by (destruct H1 as [-> _]; apply (slot_in 64); lia).
  rewrite <- (app_assoc (slot_of _ _)). by rewrite Permutation_app_swap_app.
Qed.

Lemma cascade2_ok c b3 b4 w : 0 ≤ c → current_tick w = c + 1 → placed c (c + 1) c b3 b4 w →
  let w' := if Z.land (c + 1) 0x3fff =? 0 then cascade2 w (c + 1) else w in
  placed c (c + 1) (c + 1) b3 b4 w' ∧ moves w w'.
Proof.
  intros Hc Ht [Hn H0 H1 H2 H3 H4]. rewrite (land_mask 14) by done.
  destruct (Z.eqb_spec ((c + 1) mod 2 ^ 14) 0) as [Hm|Hm].
  2:{ cbv zeta. split; [|done]. split; try done. by apply level_wait. }
  unfold cascade2. rewrite land_slot by done.
  destruct (slot_due LVL2_SIZE 14 c (level2 w) H2 ltac:(unfold LVL2_SIZE; lia) Hc ltac:(lia) Hm) as [Hdue Hclear].
  change (Z.of_nat LVL2_SIZE) with 64 in *. set (s := ((c + 1) / 2 ^ 14) mod 64) in *.
  set (w1 := with_level2 w _). assert (Hw1 : placed c (c + 1) (c + 1) b3 b4 w1) by (by split).
  destruct (reinsert_all c (c + 1) (c + 1) b3 b4 (slot_of (level2 w) s) w1 Hw1) as (Hp & Ht' & Hi' & Hpend).
  { cbn. lia. }
  { apply Forall_forall. intros e He. cbn. rewrite Ht. pose proof (due_range _ _ 14 ltac:(lia) Hm (Hdue e He)).
    unfold ready. lia. }
  split; [done|]. split; [done|]. split; [done|]. etrans; [exact Hpend|]. unfold pending, w1. cbn.
  rewrite (take_slot_join (level2 w) s) by (destruct H2 as [-> _]; apply (slot_in 64); lia).
  rewrite <- (app_assoc (slot_of _ _)). rewrite Permutation_app_swap_app. by rewrite (Permutation_app_swap_app (slot_of _ _)).
Qed.

Lemma cascade3_ok c w : 0 ≤ c → current_tick w = c + 1 → placed c (c + 1) (c + 1) c c w → (c + 1) mod 2 ^ 20 = 0 →
  let w' := cascade3 w (c + 1) in placed c (c + 1) (c + 1) (c + 1) c w' ∧ moves w w'.
Proof.
  intros Hc Ht [Hn H0 H1 H2 H3 H4] Hm. unfold cascade3. rewrite land_slot by done.
  destruct (slot_due LVL3_SIZE 20 c (level3 w) H3 ltac:(unfold LVL3_SIZE; lia) Hc ltac:(lia) Hm) as [Hdue Hclear].
  change (Z.of_nat LVL3_SIZE) with 64 in *. set (s := ((c + 1) / 2 ^ 20) mod 64) in *.
  set (w1 := with_level3 w _). assert (Hw1 : placed c (c + 1) (c + 1) (c + 1) c w1) by (by split).
  destruct (reinsert_all c (c + 1) (c + 1) (c + 1) c (slot_of (level3 w) s) w1 Hw1) as (Hp & Ht' & Hi' & Hpend).
  { cbn. lia. }
  { apply Forall_forall. intros e He. cbn. rewrite Ht. pose proof (due_range _ _ 20 ltac:(lia) Hm (Hdue e He)).
    unfold ready. lia. }
  split; [done|]. split; [done|]. split; [done|]. etrans; [exact Hpend|]. unfold pending, w1. cbn.
  rewrite (take_slot_join (level3 w) s) by (destruct H3 as [-> _]; apply (slot_in 64); lia).
  rewrite <- (app_assoc (slot_of _ _)). rewrite Permutation_app_swap_app.
  rewrite (Permutation_app_swap_app (slot_of _ _)). by rewrite (Permutation_app_swap_app (slot_of _ _)).
Qed.

(** ** The overflow list *)

Lemma swap_remove_perm l i e : l !! i = Some e → l ≡ₚ e :: swap_remove l i.
Proof.
  intros Hi. unfold swap_remove. destruct l as [|a l0 _] using rev_ind; [done|].
  rewrite last_snoc, length_app. cbn [length]. replace (length l0 + 1 - 1)%nat with (length l0) by lia.
  destruct (decide (i = length l0)) as [->|Hne].
  - rewrite lookup_app_r, Nat.sub_diag in Hi by lia. injection Hi as ->.
    rewrite insert_app_r_alt, Nat.sub_diag by lia. cbn. rewrite take_app_length. apply Permutation_app_comm.
  - apply lookup_lt_Some in Hi as Hlt. rewrite length_app in Hlt. cbn in Hlt.
    rewrite lookup_app_l in Hi by lia. rewrite insert_app_l by lia.
    rewrite take_app_le, take_ge by (rewrite length_insert; lia).
    rewrite (Permutation_app_comm l0 [a]). cbn. apply list_elem_of_split_length in Hi as (l1 & l2 & -> & ->).
    rewrite insert_app_r_alt, Nat.sub_diag by lia. cbn. rewrite <- !Permutation_middle. apply Permutation_swap.
Qed.

Lemma swap_remove_lookup l i j : (j < i)%nat → (i < length l)%nat → swap_remove l i !! j = l !! j.
Proof.
  intros Hj Hi. unfold swap_remove. destruct (last l) as [x|] eqn:Hx; [|apply last_None in Hx; by subst].
  rewrite lookup_take_lt by lia. by rewrite list_lookup_insert_ne by lia.
Qed.

Lemma swap_remove_length l i : (i < length l)%nat → length (swap_remove l i) = (length l - 1)%nat.
Proof.
  intros Hi. unfold swap_remove. destruct (last l) as [x|] eqn:Hx; [|apply last_None in Hx; by subst].
  rewrite length_take, length_insert. lia.
Qed.

Lemma promote_ok c fuel : ∀ w i, let b := c + 1 in current_tick w = b → 0 ≤ c → b mod 2 ^ 20 = 0 →
  placed c b b b c w → (length (overflow w) ≤ i + fuel)%nat →
  (∀ j e, (j < i)%nat → overflow w !! j = Some e → b / 2 ^ 20 + 64 ≤ target_tick e / 2 ^ 20) →
  let w' := promote fuel w i in placed c b b b b w' ∧ moves w w'.
Proof.
  induction fuel as [|fuel IH]; intros w i b Ht Hc Hm Hw Hlen Hkept; cbn [promote].
  { split; [|done]. destruct Hw as [? ? ? ? ? _]. split; try done. apply Forall_lookup. intros j e Hj.
    apply (Hkept j); [|done]. apply lookup_lt_Some in Hj. lia. }
  destruct (overflow w !! i) as [e|] eqn:He.
  2:{ split; [|done]. destruct Hw as [? ? ? ? ? _]. split; try done. apply Forall_lookup. intros j e Hj.
      apply (Hkept j); [|done]. apply lookup_ge_None in He. apply lookup_lt_Some in Hj. lia. }
  apply lookup_lt_Some in He as Hlt. rewrite Ht.
  assert (Hge : b ≤ target_tick e).
  { destruct Hw as [_ _ _ _ _ Ho]. rewrite Forall_lookup in Ho. specialize (Ho i e He). cbn in Ho.
    assert (b / 2 ^ 20 ≤ target_tick e / 2 ^ 20).
    { etrans; [|exact Ho]. etrans; [apply (Z.div_le_mono b (c + 64 * 2 ^ 20)); lia|]. rewrite Z.div_add by lia. lia. }
    pose proof (Z.div_mod b (2 ^ 20) ltac:(lia)). pose proof (Z.div_mod (target_tick e) (2 ^ 20) ltac:(lia)).
    pose proof (Z.mod_pos_bound (target_tick e) (2 ^ 20) ltac:(lia)). lia. }
  change LVL3_SPAN with (2 ^ 26). unfold saturating_sub.
  destruct (Z.ltb_spec (Z.max 0 (target_tick e - b)) (2 ^ 26)) as [Hin|Hout].
  - set (w1 := with_overflow w (swap_remove (overflow w) i)).
    assert (Hw1 : placed c b b b c w1).
    { destruct Hw as [? ? ? ? ? Ho]. split; try done. cbn. rewrite (swap_remove_perm _ _ _ He) in Ho.
      by apply Forall_cons in Ho as [_ Ho]. }
    destruct (reinsert_placed c b b b c w1 e Hw1) as (Hw2 & Ht2 & Hi2); [cbn; lia|cbn; lia|lia|unfold ready; cbn; lia|].
    assert (Ho2 : overflow (reinsert w1 e) = swap_remove (overflow w) i).
    { rewrite reinsert_eq. cbn [current_tick w1 with_overflow]. rewrite Ht. unfold saturating_sub.
      repeat (case_bool_decide; [done|]). lia. }
    destruct (IH (reinsert w1 e) i) as [Hw3 Hm3]; [by rewrite Ht2|done|done|done| | |].
    + rewrite Ho2, swap_remove_length by done. lia.
    + intros j x Hj. rewrite Ho2, swap_remove_lookup by done. by apply Hkept.
    + split; [done|]. eapply moves_trans; [|exact Hm3]. split; [done|]. split; [done|].
      rewrite (reinsert_pending c b b b c w1 e Hw1). unfold pending, w1. cbn.
      rewrite (swap_remove_perm (overflow w) i e He) at 2. by rewrite <- !Permutation_middle.
  - apply (IH w (S i)); [done|done|done|done|lia|].
    intros j x Hj Hx. destruct (decide (j = i)) as [->|]; [|apply (Hkept j); [lia|done]].
    assert (x = e) as -> by congruence.
    pose proof (Z.div_le_mono (b + 64 * 2 ^ 20) (target_tick e) (2 ^ 20) ltac:(lia) ltac:(lia)) as Hd.
    rewrite Z.div_add in Hd by lia. exact Hd.
Qed.

Lemma cascade_top_ok c w : 0 ≤ c → current_tick w = c + 1 → placed c (c + 1) (c + 1) c c w →
  let w' := if Z.land (c + 1) 0xfffff =? 0 then
              let w := cascade3 w (c + 1) in promote (length (overflow w)) w 0
            else w in
  placed c (c + 1) (c + 1) (c + 1) (c + 1) w' ∧ moves w w'.
Proof.
  intros Hc Ht Hw. rewrite (land_mask 20) by done. destruct (Z.eqb_spec ((c + 1) mod 2 ^ 20) 0) as [Hm|Hm].
  - destruct (cascade3_ok c w Hc Ht Hw Hm) as [Hw1 Hm1]. cbv zeta. set (w1 := cascade3 w (c + 1)) in *.
    destruct (promote_ok c (length (overflow w1)) w1 0) as [Hw2 Hm2]; try done.
    + destruct Hm1 as [-> _]. done.
    + intros j e Hj. lia.
    + split; [done|]. by eapply moves_trans.
  - cbv zeta. split; [|done]. destruct Hw as [? ? ? ? H3 H4]. split; try done; [by apply level_wait|].
    eapply Forall_impl; [exact H4|]. cbn. intros e He.
    assert ((c + 1) / 2 ^ 20 = c / 2 ^ 20) as ->; [|done].
    pose proof (Z.div_mod (c + 1) (2 ^ 20) ltac:(lia)). pose proof (Z.mod_pos_bound (c + 1) (2 ^ 20) ltac:(lia)).
    pose proof (Z.div_mod c (2 ^ 20) ltac:(lia)). pose proof (Z.mod_pos_bound c (2 ^ 20) ltac:(lia)). lia.
Qed.

Lemma level_ahead n sh b ls e : level_ok n sh b ls → 0 ≤ sh → e ∈ mjoin ls → b < target_tick e.
Proof.
  intros [_ Hin] Hsh He. apply list_elem_of_join in He as (l & He & Hl).
  apply list_elem_of_lookup_1 in Hl as [s Hs]. destruct (Hin _ _ _ Hs He) as [_ Hd].
  assert (Hp : 0 < 2 ^ sh) by (apply Z.pow_pos_nonneg; lia).
  apply Z.lt_nge. intros Hle. pose proof (Z.div_le_mono (target_tick e) b (2 ^ sh) Hp Hle). lia.
Qed.

(** Every timer in the wheel lies in the future. *)
Lemma wheel_ahead w e : wheel_ok w → e ∈ pending w → current_tick w < target_tick e.
Proof.
  intros [Hn H0 H1 H2 H3 H4] He. unfold pending in He. rewrite !elem_of_app in He.
  destruct He as [He|[He|[He|[He|He]]]];
    [by apply (level_ahead _ _ _ _ e H0)|by apply (level_ahead _ _ _ _ e H1)|by apply (level_ahead _ _ _ _ e H2)
    |by apply (level_ahead _ _ _ _ e H3)|].
  rewrite Forall_forall in H4. specialize (H4 e He). apply Z.lt_nge. intros Hle.
  pose proof (Z.div_le_mono (target_tick e) (current_tick w) (2 ^ 20) ltac:(lia) Hle). lia.
Qed.

(** A tick: what expires and what stays. *)
Lemma advance_ok w : wheel_ok w → current_tick w + 1 < 2 ^ 64 →
  let '(w', expired) := advance_tick w in
  wheel_ok w' ∧ current_tick w' = current_tick w + 1 ∧ next_timer_id w' = next_timer_id w ∧
  pending w ≡ₚ expired ++ pending w' ∧ Forall (λ e, target_tick e = current_tick w + 1) expired.
Proof.
  intros Hw Hbig. unfold advance_tick, wrapping_add. set (c := current_tick w) in *.
  pose proof (pl_now _ _ _ _ _ _ Hw) as Hc. fold c in Hc. rewrite wrap_small by (unfold is_u; lia).
  set (w0 := with_tick w (c + 1)). change (current_tick w0) with (c + 1).
  assert (Hw0 : placed c c c c c w0) by (destruct Hw; split; try done; cbn; lia).
  assert (M0 : next_timer_id w0 = next_timer_id w ∧ pending w0 = pending w) by done.
  assert (T0 : current_tick w0 = c + 1) by done. clearbody w0.
  destruct (cascade1_ok c c c c w0 Hc T0 Hw0) as [Hw1 Hm1]. set (w1 := if Z.land (c + 1) 0xff =? 0 then _ else w0) in *.
  pose proof (proj1 Hm1) as T1. rewrite T0 in T1. clearbody w1.
  destruct (cascade2_ok c c c w1 Hc T1 Hw1) as [Hw2 Hm2]. set (w2 := if Z.land (c + 1) 0x3fff =? 0 then _ else w1) in *.
  pose proof (proj1 Hm2) as T2. rewrite T1 in T2. clearbody w2.
  destruct (cascade_top_ok c w2 Hc T2 Hw2) as [Hw3 Hm3]. cbv zeta in Hw3, Hm3. cbv zeta.
  set (w3 := if Z.land (c + 1) 0xfffff =? 0 then _ else w2) in *.
  pose proof (proj1 Hm3) as T3. rewrite T2 in T3. clearbody w3.
  pose proof (moves_trans _ _ _ (moves_trans _ _ _ Hm1 Hm2) Hm3) as (_ & I & P).
  rewrite T3, land_low. destruct Hw3 as [Hn H0 H1 H2 H3 H4].
  destruct (slot_due LVL0_SIZE 0 c (level0 w3) H0 ltac:(unfold LVL0_SIZE; lia) Hc ltac:(lia) (Z.mod_1_r _)) as [Hdue Hclear].
  change (Z.of_nat LVL0_SIZE) with 256 in *. set (s := ((c + 1) / 2 ^ 0) mod 256) in *.
  assert (Hex : Forall (λ e, target_tick e ≤ c + 1) (slot_of (level0 w3) s)).
  { apply Forall_forall. intros e He. specialize (Hdue e He). rewrite !Z.div_1_r in Hdue. lia. }
  assert (Hrem : filter (λ e, ¬ target_tick e ≤ c + 1) (slot_of (level0 w3) s) = []).
  { clear -Hex. induction Hex as [|e l He _ IH]; [done|]. rewrite filter_cons_False; [done|]. auto. }
  assert (Hexp : filter (λ e, target_tick e ≤ c + 1) (slot_of (level0 w3) s) = slot_of (level0 w3) s).
  { clear -Hex. induction Hex as [|e l He _ IH]; [done|]. rewrite filter_cons_True by done. by rewrite IH. }
  rewrite Hrem, Hexp. change (<[Z.to_nat s := []]> (level0 w3)) with (clear_slot (level0 w3) s).
  split; [|split; [done|split; [by rewrite <- (proj1 M0), <- I|split]]].
  - unfold wheel_ok. cbn [with_level0 current_tick]. rewrite T3. by split.
  - rewrite <- (proj2 M0), <- P. unfold pending. cbn.
    rewrite (take_slot_join (level0 w3) s) by (destruct H0 as [-> _]; apply (slot_in 256); lia). by rewrite <- app_assoc.
  - apply Forall_forall. intros e He. specialize (Hdue e He). by rewrite !Z.div_1_r in Hdue.
Qed.

(** ** Cancelling *)

Lemma remove_first_spec p l : match remove_first p l with
  | Some (e, l') => p e = true ∧ l ≡ₚ e :: l'
  | None => Forall (λ e, p e = false) l
  end.
Proof.
  induction l as [|x l IH]; cbn [remove_first]; [done|]. destruct (p x) eqn:Hp; [done|].
  destruct (remove_first p l) as [[e l']|]; [|by constructor]. destruct IH as [He ->]. split; [done|]. apply Permutation_swap.
Qed.

(** Taking an entry out of a level leaves every slot with fewer entries. *)
Lemma remove_slot_spec p ls : match remove_slot p ls with
  | Some (e, ls') => p e = true ∧ mjoin ls ≡ₚ e :: mjoin ls' ∧ length ls' = length ls ∧
      ∀ s l' x, ls' !! s = Some l' → x ∈ l' → ∃ l, ls !! s = Some l ∧ x ∈ l
  | None => Forall (λ e, p e = false) (mjoin ls)
  end.
Proof.
  induction ls as [|l ls IH]; cbn [remove_slot]; [done|].
  pose proof (remove_first_spec p l) as Hl. destruct (remove_first p l) as [[e l']|].
  - destruct Hl as [He Hp]. split; [done|]. split; [cbn; by rewrite Hp|]. split; [done|].
    intros [|s] k x Hk Hx; [|by exists k]. injection Hk as <-. exists l. split; [done|]. rewrite Hp. by right.
  - destruct (remove_slot p ls) as [[e ls']|]; [|cbn; by apply Forall_app].
    destruct IH as (He & Hp & Hlen & Hsub). split; [done|].
    split; [cbn; rewrite Hp; by rewrite <- Permutation_middle|]. split; [cbn; by rewrite Hlen|].
    intros [|s] k x Hk Hx; [by exists k|]. by apply (Hsub s k).
Qed.

Lemma level_ok_less n sh b ls ls' : level_ok n sh b ls → length ls' = length ls →
  (∀ s l' x, ls' !! s = Some l' → x ∈ l' → ∃ l, ls !! s = Some l ∧ x ∈ l) → level_ok n sh b ls'.
Proof.
  intros [Hl Hin] Hl' Hsub. split; [congruence|]. intros s l' x Hs Hx.
  destruct (Hsub _ _ _ Hs Hx) as (l & Hls & Hxl). by eapply Hin.
Qed.

Lemma take_entry_spec p w : wheel_ok w → match take_entry p w with
  | Some (e, w') => p e = true ∧ pending w ≡ₚ e :: pending w' ∧ wheel_ok w' ∧
      current_tick w' = current_tick w ∧ next_timer_id w' = next_timer_id w
  | None => Forall (λ e, p e = false) (pending w)
  end.
Proof.
  intros [Hn H0 H1 H2 H3 H4]. unfold take_entry, pending.
  pose proof (remove_slot_spec p (level0 w)) as S0. destruct (remove_slot p (level0 w)) as [[e l]|].
  { destruct S0 as (He & Hp & Hl & Hsub). split; [done|]. cbn. rewrite Hp. split; [done|]. split; [|done].
    split; try done. by eapply level_ok_less. }
  pose proof (remove_slot_spec p (level1 w)) as S1. destruct (remove_slot p (level1 w)) as [[e l]|].
  { destruct S1 as (He & Hp & Hl & Hsub). split; [done|]. cbn. rewrite Hp. cbn [app].
    split; [by rewrite <- Permutation_middle|]. split; [|done]. split; try done. by eapply level_ok_less. }
  pose proof (remove_slot_spec p (level2 w)) as S2. destruct (remove_slot p (level2 w)) as [[e l]|].
  { destruct S2 as (He & Hp & Hl & Hsub). split; [done|]. cbn. rewrite Hp. cbn [app].
    split; [by rewrite <- !Permutation_middle|]. split; [|done]. split; try done. by eapply level_ok_less. }
  pose proof (remove_slot_spec p (level3 w)) as S3. destruct (remove_slot p (level3 w)) as [[e l]|].
  { destruct S3 as (He & Hp & Hl & Hsub). split; [done|]. cbn. rewrite Hp. cbn [app].
    split; [by rewrite <- !Permutation_middle|]. split; [|done]. split; try done. by eapply level_ok_less. }
  pose proof (remove_first_spec p (overflow w)) as S4. destruct (remove_first p (overflow w)) as [[e l]|].
  { destruct S4 as (He & Hp). split; [done|]. cbn. rewrite Hp.
    split; [by rewrite <- !Permutation_middle|]. split; [|done]. split; try done. rewrite Hp in H4.
    by apply Forall_cons in H4 as [_ H4]. }
  by rewrite !Forall_app.
Qed.

(** Rearming finds only timers that are still in the wheel. *)
Lemma rearm_absent w i t : Forall (λ e, timer_id e ≠ i) (pending w) → rearm_itimer_entry w i t = w.
Proof.
  unfold pending. rewrite !Forall_app. intros (H0 & H1 & _). unfold rearm_itimer_entry.
  assert (Hno : ∀ ls, Forall (λ e, timer_id e ≠ i) (mjoin ls) → remove_slot (λ e, timer_id e =? i) ls = None).
  { intros ls Hls. pose proof (remove_slot_spec (λ e, timer_id e =? i) ls) as S.
    destruct (remove_slot _ ls) as [[e ls']|]; [|done]. destruct S as (He%Z.eqb_eq & Hp & _).
    rewrite Forall_forall in Hls. exfalso. apply (Hls e); [rewrite Hp; by left|done]. }
  by rewrite !Hno.
Qed.

(** ** The abstract timers *)

Record spec := { now : Z; timers : list TimerEntry; fresh : Z }.
Definition spec_new : spec := {| now := 0; timers := []; fresh := 1 |}.

Inductive timer_op :=
| OSleep (tid ms : Z)
| OCancelSleep (tid : Z)
| OSetItimer (pid which interval value : Z)
| OGetItimer (pid which : Z)
| OTick.
Inductive answer :=
| ATarget (t : Z)
| ACancelled (o : option Z)
| AItimer (interval left_ : Z)
| AExpired (es : list TimerEntry).

Definition add_spec (sp : spec) (t : Z) (k : TimerKind) : spec :=
  {| now := now sp; fresh := fresh sp + 1;
     timers := {| timer_id := fresh sp; target_tick := t; timer_kind := k |} :: timers sp |}.

(** Timer [e] is taken out, if there is one that [p] wants. *)
Inductive take_spec (p : TimerEntry → bool) (sp : spec) : option TimerEntry → spec → Prop :=
| take_some e ts : timers sp ≡ₚ e :: ts → p e = true →
    take_spec p sp (Some e) {| now := now sp; timers := ts; fresh := fresh sp |}
| take_none : Forall (λ e, p e = false) (timers sp) → take_spec p sp None sp.

(** Interval and time left of the interval timer [o]. *)
Definition itimer_left (sp : spec) (o : option TimerEntry) : Z * Z :=
  match o with
  | Some {| target_tick := t; timer_kind := ITimerReal _ interval |} => (interval, t - now sp)
  | _ => (0, 0)
  end.

Inductive spec_step (sp : spec) : timer_op → answer → spec → Prop :=
| step_sleep tid ms (t := Z.min (now sp + Z.max ms 1) (2 ^ 64 - 1)) :
    spec_step sp (OSleep tid ms) (ATarget t) (add_spec sp t (Sleep tid))
| step_cancel tid o sp' : take_spec (is_sleep tid) sp o sp' →
    spec_step sp (OCancelSleep tid) (ACancelled (target_tick <$> o)) sp'
| step_set pid which interval value o sp1 : take_spec (is_itimer pid) sp o sp1 → 
    spec_step sp (OSetItimer pid which interval value) (AItimer (itimer_left sp o).1 (itimer_left sp o).2)
      (if (0 <? value) && (which =? 0)
       then add_spec sp1 (Z.min (now sp + value) (2 ^ 64 - 1)) (ITimerReal pid interval) else sp1)
| step_get pid which o sp1 : take_spec (is_itimer pid) sp o sp1 → which = 0 →
    spec_step sp (OGetItimer pid which) (AItimer (itimer_left sp o).1 (itimer_left sp o).2) sp
| step_get_other pid which : which ≠ 0 → spec_step sp (OGetItimer pid which) (AItimer 0 0) sp
| step_tick expired ts : timers sp ≡ₚ expired ++ ts →
    Forall (λ e, target_tick e = now sp + 1) expired → Forall (λ e, now sp + 1 < target_tick e) ts →
    spec_step sp OTick (AExpired expired) {| now := now sp + 1; timers := ts; fresh := fresh sp |}.

Inductive spec_run : spec → list timer_op → list answer → spec → Prop :=
| spec_run_nil sp : spec_run sp [] [] sp
| spec_run_cons sp o a sp1 os ans sp2 : spec_step sp o a sp1 → spec_run sp1 os ans sp2 →
    spec_run sp (o :: os) (a :: ans) sp2.

(** The calls on the wheel. *)
Definition wheel_step (w : TimerWheel) (o : timer_op) : TimerWheel * answer :=
  match o with
  | OSleep tid ms => let '(w, t) := add_sleep_timer w tid ms in (w, ATarget t)
  | OCancelSleep tid => let '(w, r) := wheel_cancel_sleep w tid in (w, ACancelled r)
  | OSetItimer pid which interval value =>
    let '(w, (i, l)) := set_itimer w pid which interval value in (w, AItimer i l)
  | OGetItimer pid which => let '(i, l) := get_itimer w pid which in (w, AItimer i l)
  | OTick => let '(w, es) := timer_tick w in (w, AExpired es)
  end.

Fixpoint wheel_run (w : TimerWheel) (os : list timer_op) : TimerWheel * list answer :=
  match os with
  | [] => (w, [])
  | o :: os => let '(w, a) := wheel_step w o in let '(w, ans) := wheel_run w os in (w, a :: ans)
  end.

(** The wheel holds the timers of the abstract state. *)
Record holds_timers (w : TimerWheel) (sp : spec) : Prop := {
  ht_ok : wheel_ok w;
  ht_now : current_tick w = now sp;
  ht_fresh : next_timer_id w = fresh sp;
  ht_timers : pending w ≡ₚ timers sp;
  ht_ids : Forall (λ e, timer_id e < fresh sp) (timers sp);
  ht_nodup : NoDup (timer_id <$> timers sp) }.

Lemma add_holds w sp t k : holds_timers w sp → now sp < t → 0 ≤ fresh sp → fresh sp + 1 < 2 ^ 64 →
  holds_timers (add_timer w t k).1 (add_spec sp t k).
Proof.
  intros [Hok Hnow Hfr Ht Hids Hnd] Hlt H0 Hbig. unfold add_timer. cbn [fst]. rewrite Hfr, wrap_small by (unfold is_u; lia).
  set (w1 := with_next_id w _). set (e := {| timer_id := _ |}).
  assert (Hw1 : placed (now sp) (now sp) (now sp) (now sp) (now sp) w1) by (unfold wheel_ok in Hok; rewrite <- Hnow; by destruct Hok).
  destruct (reinsert_placed _ _ _ _ _ w1 e Hw1) as (Hp & Htick & Hid); [cbn; lia|cbn; lia|cbn; lia|by unfold ready; cbn; rewrite Hnow|].
  split; [|by rewrite Htick|by rewrite Hid| | |].
  - unfold wheel_ok. rewrite Htick. cbn. by rewrite Hnow.
  - rewrite (reinsert_pending _ _ _ _ _ w1 e Hw1). change (pending w1) with (pending w). cbn. by rewrite Ht.
  - cbn. constructor; [cbn; lia|]. eapply Forall_impl; [exact Hids|]. cbn. lia.
  - cbn. constructor; [|done]. intros (x & Hx & Hin)%list_elem_of_fmap. rewrite Forall_forall in Hids.
    specialize (Hids x Hin). cbn in Hids. lia.
Qed.

Lemma take_holds p w sp : holds_timers w sp → match take_entry p w with
  | Some (e, w') => ∃ sp', take_spec p sp (Some e) sp' ∧ holds_timers w' sp' ∧ now sp' = now sp ∧ fresh sp' = fresh sp ∧
      now sp < target_tick e
  | None => take_spec p sp None sp
  end.
Proof.
  intros [Hok Hnow Hfr Ht Hids Hnd]. pose proof (take_entry_spec p w Hok) as S.
  destruct (take_entry p w) as [[e w']|]; [|apply take_none; by rewrite <- Ht].
  destruct S as (He & Hp & Hok' & Htick & Hid). rewrite Ht in Hp.
  eexists. split; [by apply (take_some p sp e (pending w'))|]. rewrite Hp in Hids, Hnd.
  apply Forall_cons in Hids as [_ Hids]. apply NoDup_cons in Hnd as [_ Hnd].
  split; [split; cbn; try done; congruence|]. split; [done|]. split; [done|].
  rewrite <- Hnow. apply wheel_ahead; [done|]. rewrite Ht, Hp. by left.
Qed.

(** Rearming after a tick changes nothing: the timers are gone. *)
Lemma timer_tick_eq w sp : holds_timers w sp → now sp + 1 < 2 ^ 64 → timer_tick w = advance_tick w.
Proof.
  intros [Hok Hnow Hfr Ht Hids Hnd] Hbig. unfold timer_tick. pose proof (advance_ok w Hok ltac:(lia)) as Ha.
  destruct (advance_tick w) as [w' es]. destruct Ha as (_ & _ & _ & Hp & _). f_equal.
  assert (Hgone : Forall (λ e, Forall (λ x, timer_id x ≠ timer_id e) (pending w')) es).
  { apply Forall_forall. intros e He. apply Forall_forall. intros x Hx Heq.
    rewrite <- Ht, Hp, fmap_app, NoDup_app in Hnd. destruct Hnd as (_ & Hd & _).
    apply (Hd (timer_id e)); apply list_elem_of_fmap; [by exists e|by exists x]. }
  clear -Hgone. induction es as [|e es IH]; [done|]. apply Forall_cons in Hgone as [He Hes]. cbn [foldl].
  destruct (timer_kind e); [by apply IH|]. case_match; [|by apply IH]. unfold rearm_itimer.
  rewrite rearm_absent by done. by apply IH.
Qed.

Lemma find_first_app {A} (P : A → Prop) `{!∀ x, Decision (P x)} l :
  match list_find P l with Some (_, x) => P x ∧ x ∈ l | None => Forall (λ x, ¬ P x) l end.
Proof.
  destruct (list_find P l) as [[i x]|] eqn:E.
  - apply list_find_Some in E as (Hl & Hx & _). split; [done|]. by apply list_elem_of_lookup_2 in Hl.
  - by apply list_find_None in E.
Qed.

Lemma itimer_answer_left pid w sp e : is_itimer pid e = true → current_tick w = now sp → now sp < target_tick e →
  itimer_answer w e = Some (itimer_left sp (Some e)).
Proof.
  unfold is_itimer, itimer_answer, itimer_left. destruct e as [i t [tid|p interval]]; [done|]. cbn. intros _ -> Ht.
  unfold saturating_sub. do 2 f_equal. lia.
Qed.

(** Every call on the wheel is a step of the abstract timers. *)
Lemma wheel_step_ok w sp o : holds_timers w sp → now sp + 1 < 2 ^ 64 → 0 ≤ fresh sp → fresh sp + 1 < 2 ^ 64 →
  let '(w', a) := wheel_step w o in
  ∃ sp', spec_step sp o a sp' ∧ holds_timers w' sp' ∧ now sp' ≤ now sp + 1 ∧ fresh sp ≤ fresh sp' ≤ fresh sp + 1.
Proof.
  intros Hw Hn Hf0 Hf. pose proof (ht_now _ _ Hw) as Hnow. pose proof (pl_now _ _ _ _ _ _ (ht_ok _ _ Hw)) as Hpos.
  destruct o as [tid ms|tid|pid which interval value|pid which|]; cbn [wheel_step].
  - unfold add_sleep_timer, saturating_add. rewrite Hnow. set (t := Z.min _ _).
    exists (add_spec sp t (Sleep tid)). split; [constructor|]. split; [apply add_holds; [done|lia|lia|lia]|]. cbn. lia.
  - unfold wheel_cancel_sleep. pose proof (take_holds (is_sleep tid) w sp Hw) as Ht.
    destruct (take_entry (is_sleep tid) w) as [[e w']|].
    + destruct Ht as (sp' & Hs & Hh & Hn' & Hf' & _). exists sp'. split; [by apply (step_cancel sp tid (Some e))|].
      split; [done|]. lia.
    + exists sp. split; [by apply (step_cancel sp tid None)|]. split; [done|]. lia.
  - unfold set_itimer, cancel_itimer. pose proof (take_holds (is_itimer pid) w sp Hw) as Ht.
    assert (Hend : ∀ w1 sp1 o, take_spec (is_itimer pid) sp o sp1 → holds_timers w1 sp1 → now sp1 = now sp → fresh sp1 = fresh sp →
      let w2 := if (0 <? value) && (which =? 0)
        then (add_timer w1 (saturating_add 64 (current_tick w1) value) (ITimerReal pid interval)).1 else w1 in
      ∃ sp', spec_step sp (OSetItimer pid which interval value) (AItimer (itimer_left sp o).1 (itimer_left sp o).2) sp' ∧
        holds_timers w2 sp' ∧ now sp' ≤ now sp + 1 ∧ fresh sp ≤ fresh sp' ≤ fresh sp + 1).
    { intros w1 sp1 o Hs Hh Hn1 Hf1 w2. eexists. split; [by apply step_set|]. unfold w2.
      destruct (Z.ltb_spec 0 value); cbn [andb]; [|split; [done|lia]]. destruct (which =? 0); [|split; [done|lia]].
      rewrite (ht_now _ _ Hh), Hn1. split; [|cbn; lia]. apply add_holds; [done| |lia|lia]. rewrite Hn1. lia. }
    destruct (take_entry (is_itimer pid) w) as [[e w']|] eqn:Et.
    + destruct Ht as (sp' & Hs & Hh & Hn' & Hf' & Hlt). specialize (Hend w' sp' (Some e) Hs Hh Hn' Hf').
      assert (He : is_itimer pid e = true) by (by inversion Hs).
      rewrite (itimer_answer_left pid w' sp e He) by (done || rewrite (ht_now _ _ Hh); done).
      cbn [default from_option id]. destruct (itimer_left sp (Some e)) as [i l].
      cbn [fst snd] in Hend. destruct ((0 <? value) && (which =? 0)); exact Hend.
    + specialize (Hend w sp None Ht Hw eq_refl eq_refl). cbn [default from_option id itimer_left fst snd] in *.
      destruct ((0 <? value) && (which =? 0)); exact Hend.
  - unfold get_itimer. destruct (Z.eqb_spec which 0) as [->|Hne]; cbn [negb].
    2:{ exists sp. split; [by apply step_get_other|]. split; [done|lia]. }
    unfold wheel_get_itimer. pose proof (find_first_app (λ e, Is_true (is_itimer pid e)) (pending w)) as Hfind.
    destruct (list_find _ (pending w)) as [[j e]|]; cbn [mbind option_bind].
    + destruct Hfind as [He%Is_true_true Hin]. pose proof (wheel_ahead w e (ht_ok _ _ Hw) Hin) as Hlt.
      rewrite (itimer_answer_left pid w sp e) by (done || lia). cbn [default from_option id].
      rewrite (ht_timers _ _ Hw) in Hin. apply elem_of_Permutation in Hin as [ts Hts].
      destruct (itimer_left sp (Some e)) as [i l] eqn:El. exists sp. split; [|split; [done|lia]].
      pose proof (step_get sp pid 0 (Some e) _ (take_some (is_itimer pid) sp e ts Hts He) eq_refl) as Hg. by rewrite El in Hg.
    + exists sp. split; [|split; [done|lia]]. apply (step_get sp pid 0 None sp); [|done]. apply take_none.
      rewrite <- (ht_timers _ _ Hw). eapply Forall_impl; [exact Hfind|]. cbn. intros e He. by apply Is_true_false.
  - rewrite (timer_tick_eq w sp Hw Hn). pose proof (advance_ok w (ht_ok _ _ Hw) ltac:(lia)) as Ha.
    destruct (advance_tick w) as [w' es]. destruct Ha as (Hok' & Ht' & Hid' & Hp & Hes).
    destruct Hw as [Hok _ Hfr Ht Hids Hnd]. rewrite Ht in Hp. rewrite Hp in Hids, Hnd.
    eexists. split; [apply (step_tick sp es (pending w') Hp); [by rewrite <- Hnow|]|].
    { apply Forall_forall. intros e He. rewrite <- Hnow, <- Ht'. by apply wheel_ahead. }
    split; [|cbn; lia]. apply Forall_app in Hids as [_ Hids]. rewrite fmap_app in Hnd.
    apply NoDup_app in Hnd as (_ & _ & Hnd). split; cbn; try done; congruence.
Qed.

Lemma wheel_run_ok os : ∀ w sp, holds_timers w sp → now sp + zlen os < 2 ^ 64 → 0 ≤ fresh sp → fresh sp + zlen os < 2 ^ 64 →
  let '(w', ans) := wheel_run w os in ∃ sp', spec_run sp os ans sp' ∧ holds_timers w' sp'.
Proof.
  induction os as [|o os IH]; intros w sp Hw Hn Hf0 Hf; cbn [wheel_run]; [exists sp; split; [constructor|done]|].
  cbn [length] in Hn, Hf. pose proof (wheel_step_ok w sp o Hw ltac:(lia) Hf0 ltac:(lia)) as Hs.
  destruct (wheel_step w o) as [w1 a]. destruct Hs as (sp1 & Hs & Hw1 & Hn1 & Hf1).
  specialize (IH w1 sp1 Hw1 ltac:(lia) ltac:(lia) ltac:(lia)). destruct (wheel_run w1 os) as [w2 ans].
  destruct IH as (sp2 & Hr & Hw2). exists sp2. split; [by econstructor|done].
Qed.

Lemma empty_level n sh b : level_ok n sh b (replicate n []).
Proof.
  split; [apply length_replicate|]. intros s l e Hs He. apply lookup_replicate in Hs as [-> _]. by apply not_elem_of_nil in He.
Qed.

Lemma new_holds : holds_timers wheel_new spec_new.
Proof.
  split; [|done|done| |constructor|constructor].
  - split; [done|apply empty_level..|constructor].
  - unfold pending. cbn [level0 level1 level2 level3 overflow wheel_new].
    assert (He : ∀ n, mjoin (replicate n ([] : list TimerEntry)) = []) by (by induction n). by rewrite !He.
Qed.

(** C3: From an empty wheel, every sequence of calls (sleeps, cancelled
    sleeps, interval timers set and queried, ticks) gives answers that the
    abstract timers give: a tick returns exactly the timers set for it, in
    some order, and keeps the others; a cancellation takes out one timer of
    the thread or process, or reports that there is none. *)
Theorem timer_wheel_refines os : zlen os < 2 ^ 63 →
  let '(w, ans) := wheel_run wheel_new os in ∃ sp, spec_run spec_new os ans sp ∧ pending w ≡ₚ timers sp ∧ current_tick w = now sp.
Proof.
  intros Hlen. pose proof (wheel_run_ok os wheel_new spec_new new_holds ltac:(cbn; lia) ltac:(done) ltac:(cbn; lia)) as H.
  destruct (wheel_run wheel_new os) as [w ans]. destruct H as (sp & Hr & [_ Hn _ Ht _ _]). eauto.
Qed.

(** ** On time *)

Lemma spec_run_bounds sp os ans sp' : spec_run sp os ans sp' →
  now sp' ≤ now sp + zlen os ∧ fresh sp ≤ fresh sp' ≤ fresh sp + zlen os.
Proof.
  induction 1 as [|sp o a sp1 os ans sp2 Hs _ IH]; [cbn; lia|]. cbn [length].
  assert (now sp1 ≤ now sp + 1 ∧ fresh sp ≤ fresh sp1 ≤ fresh sp + 1); [|lia].
  destruct Hs as [tid' ms' t|tid' o sp' Ht|pid which interval value o sp' Ht|pid which o sp' Ht Hw|pid which Hw|es ts Hp He Hts];
    try destruct Ht; try case_match; cbn; lia.
Qed.

(** What each tick of a run expired, in order. *)
Definition expirations (ans : list answer) : list (list TimerEntry) :=
  omap (λ a, match a with AExpired es => Some es | _ => None end) ans.

Definition ids_ok (sp : spec) : Prop :=
  Forall (λ e, timer_id e < fresh sp) (timers sp) ∧ NoDup (timer_id <$> timers sp).

Lemma add_ids sp t k : ids_ok sp → ids_ok (add_spec sp t k).
Proof.
  intros [Hids Hnd]. split; cbn.
  - constructor; [cbn; lia|]. eapply Forall_impl; [exact Hids|]. cbn. lia.
  - constructor; [|done]. intros (x & Hx & Hin)%list_elem_of_fmap. rewrite Forall_forall in Hids.
    specialize (Hids x Hin). cbn in Hids. lia.
Qed.

Lemma take_ids p sp o sp' : take_spec p sp o sp' → ids_ok sp →
  ids_ok sp' ∧ now sp' = now sp ∧ fresh sp' = fresh sp ∧
  (∀ e, p e = false → e ∈ timers sp → e ∈ timers sp') ∧ (∀ e, e ∈ timers sp' → e ∈ timers sp).
Proof.
  intros [e ts Hp He|Hn] [Hids Hnd]; [|split; [done|]; split; [done|]; split; [done|]; split; [done|auto]].
  cbn. rewrite Hp in Hids, Hnd. apply Forall_cons in Hids as [_ Hids]. apply NoDup_cons in Hnd as [_ Hnd].
  split; [done|]. split; [done|]. split; [done|]. split.
  - intros x Hx. rewrite Hp. intros [->|Hin]%elem_of_cons; [congruence|done].
  - intros x Hx. rewrite Hp. by right.
Qed.

(** One step, as seen by a sleeping thread's timer. *)
Lemma step_timer sp o a sp' e tid : spec_step sp o a sp' → ids_ok sp → timer_kind e = Sleep tid → timer_id e < fresh sp →
  ids_ok sp' ∧ fresh sp ≤ fresh sp' ∧ (e ∉ timers sp → e ∉ timers sp') ∧
  match a with
  | AExpired es => now sp' = now sp + 1 ∧ NoDup es ∧ (e ∈ es ↔ e ∈ timers sp ∧ target_tick e = now sp') ∧
      (e ∈ timers sp → target_tick e ≠ now sp' → e ∈ timers sp') ∧ (e ∈ es → e ∉ timers sp')
  | _ => now sp' = now sp ∧ (o ≠ OCancelSleep tid → e ∈ timers sp → e ∈ timers sp')
  end.
Proof.
  intros Hs Hok Hk Hid.
  assert (Hnew : ∀ s t k, timer_id e < fresh s → e ∉ timers s → e ∉ timers (add_spec s t k)).
  { intros s t k Hlt Hn [->|Hin]%elem_of_cons; [cbn in Hlt; lia|done]. }
  assert (Hit : ∀ pid, is_itimer pid e = false) by (intros; unfold is_itimer; by rewrite Hk).
  destruct Hs as [tid' ms t|tid' o sp' Ht|pid which interval value o sp1 Ht|pid which o sp1 Ht Hw|pid which Hw|es ts Hp He Hts].
  - split; [by apply add_ids|]. split; [cbn; lia|]. split; [by apply Hnew|]. split; [done|]. intros _ Hin. by right.
  - destruct (take_ids _ _ _ _ Ht Hok) as (Hok' & Hn & Hf & Hkeep & Hless). split; [done|]. split; [lia|].
    split; [auto|]. split; [done|]. intros Hne. apply Hkeep. unfold is_sleep. rewrite Hk. apply Z.eqb_neq. congruence.
  - destruct (take_ids _ _ _ _ Ht Hok) as (Hok' & Hn & Hf & Hkeep & Hless).
    case_match; [|split; [done|]; split; [lia|]; split; [auto|]; split; [done|auto]].
    split; [by apply add_ids|]. split; [cbn; lia|]. split; [intros Hni; apply Hnew; [lia|auto]|].
    split; [done|]. intros _ Hin. right. auto.
  - split; [done|]. split; [lia|]. done.
  - split; [done|]. split; [lia|]. done.
  - destruct Hok as [Hids Hnd]. rewrite Hp in Hids, Hnd. rewrite fmap_app, NoDup_app in Hnd.
    destruct Hnd as (Hnd1 & Hdis & Hnd2). apply Forall_app in Hids as [_ Hids]. cbn. rewrite Forall_forall in He, Hts.
    split; [done|]. split; [lia|]. split; [rewrite Hp, elem_of_app; tauto|]. split; [done|].
    split; [by eapply NoDup_fmap_1|]. split; [|split].
    + rewrite Hp, elem_of_app. split; [intros Hin; split; [by left|by apply He]|].
      intros [[Hin|Hin] Ht]; [done|]. specialize (Hts e Hin). cbn in Hts. lia.
    + rewrite Hp, elem_of_app. intros [Hin|Hin] Hne; [|done]. by apply He in Hin.
    + intros Hin Hin2. specialize (Hts e Hin2). specialize (He e Hin). cbn in *. lia.
Qed.

Lemma run_timer os ans sp sp' e tid : spec_run sp os ans sp' → ids_ok sp → timer_kind e = Sleep tid →
  timer_id e < fresh sp → OCancelSleep tid ∉ os →
  ∀ j es, expirations ans !! j = Some es → NoDup es ∧
    (e ∈ es ↔ e ∈ timers sp ∧ now sp < target_tick e ∧ target_tick e = now sp + 1 + Z.of_nat j).
Proof.
  induction 1 as [|sp o a sp1 os ans sp2 Hs Hr IH]; intros Hok Hk Hid Hno j es; [done|].
  apply not_elem_of_cons in Hno as [Hne Hno].
  destruct (step_timer _ _ _ _ e tid Hs Hok Hk Hid) as (Hok1 & Hf & Hgone & Ha).
  specialize (IH Hok1 Hk ltac:(lia) Hno).
  destruct a as [t|r|i l|l]; cbn [expirations omap list_omap];
    [destruct Ha as [Hn Hkeep]; intros Hj; destruct (IH j es Hj) as [Hnd Hiff]; split; [done|]; rewrite Hiff, Hn;
      split; [intros (? & ? & ?); split; [destruct (decide (e ∈ timers sp)); naive_solver|done]
             |intros (? & ? & ?); split; [by apply Hkeep|done]] ..|].
  destruct Ha as (Hn & Hnd & Hiff & Hkeep & Hout). destruct j as [|j].
  - intros [= <-]. split; [done|]. rewrite Hiff, Hn. split; [intros [? ?]; lia || (split; [done|lia])|].
    intros (? & ? & ?). split; [done|lia].
  - intros Hj. destruct (IH j es Hj) as [Hnd' Hiff']. split; [done|]. rewrite Hiff', Hn. split.
    + intros (Hin & Hlt & Ht). split; [|lia]. destruct (decide (e ∈ timers sp)) as [?|Hni]; [done|]. by apply Hgone in Hni.
    + intros (Hin & Hlt & Ht). split; [|lia]. apply Hkeep; [done|lia].
Qed.

(** C38: A thread that goes to sleep is woken at its tick: whatever is done
    with other timers before and after, the timer is among the expired ones
    of the tick it was set for, exactly once, and of no other tick. *)
Theorem timer_fires_on_time os1 tid ms os2 : zlen os1 + zlen os2 < 2 ^ 62 → OCancelSleep tid ∉ os2 →
  let w1 := (wheel_run wheel_new os1).1 in
  let '(w2, t) := add_sleep_timer w1 tid ms in
  let ans := (wheel_run w2 os2).2 in
  t = Z.min (current_tick w1 + Z.max ms 1) (2 ^ 64 - 1) ∧
  ∀ j es, expirations ans !! j = Some es → NoDup es ∧
    ({| timer_id := next_timer_id w1; target_tick := t; timer_kind := Sleep tid |} ∈ es ↔
     t = current_tick w1 + 1 + Z.of_nat j).
Proof.
  intros Hlen Hno.
  pose proof (wheel_run_ok os1 wheel_new spec_new new_holds ltac:(cbn; lia) ltac:(done) ltac:(cbn; lia)) as H1.
  destruct (wheel_run wheel_new os1) as [w1 ans1]. cbn [fst]. destruct H1 as (sp1 & Hr1 & Hw1).
  destruct (spec_run_bounds _ _ _ _ Hr1) as [Hn1 Hf1]. cbn in Hn1, Hf1.
  pose proof (pl_now _ _ _ _ _ _ (ht_ok _ _ Hw1)) as Hpos. pose proof (ht_now _ _ Hw1) as Hnow.
  unfold add_sleep_timer, saturating_add. set (t := Z.min _ _).
  pose proof (add_holds w1 sp1 t (Sleep tid) Hw1 ltac:(lia) ltac:(lia) ltac:(lia)) as Hw2.
  set (w2 := (add_timer w1 t (Sleep tid)).1) in *. split; [done|].
  pose proof (wheel_run_ok os2 w2 _ Hw2 ltac:(cbn; lia) ltac:(cbn; lia) ltac:(cbn; lia)) as H2.
  destruct (wheel_run w2 os2) as [w3 ans]. destruct H2 as (sp3 & Hr2 & _). cbn [snd].
  intros j es Hj. destruct Hw2 as [_ _ _ _ Hids Hnd]. rewrite (ht_fresh _ _ Hw1).
  destruct (run_timer os2 ans _ sp3 {| timer_id := fresh sp1; target_tick := t; timer_kind := Sleep tid |} tid Hr2
    (conj Hids Hnd) eq_refl ltac:(cbn; lia) Hno j es Hj) as [Hnd' Hiff]. split; [done|]. rewrite Hiff. cbn [target_tick].
  rewrite Hnow. cbn [now add_spec]. split; [by intros (_ & _ & ?)|]. intros Ht. split; [by left|lia].
Qed.

Lemma timer_wheel_refines_witness : zlen [OSleep 1 3; OTick] < 2 ^ 63 ∧
  ∃ sp, spec_run spec_new [OSleep 1 3; OTick] (wheel_run wheel_new [OSleep 1 3; OTick]).2 sp.
Proof.
  split; [done|]. pose proof (timer_wheel_refines [OSleep 1 3; OTick] ltac:(done)) as H.
  destruct (wheel_run wheel_new [OSleep 1 3; OTick]) as [w ans]. destruct H as (sp & Hr & _). exists sp. exact Hr.
Defined.

Lemma timer_fires_on_time_witness : OCancelSleep 5 ∉ replicate 300 OTick ∧
  let w1 := (wheel_run wheel_new [OTick]).1 in
  let '(w2, t) := add_sleep_timer w1 5 290 in
  ∀ es, expirations (wheel_run w2 (replicate 300 OTick)).2 !! 289%nat = Some es →
    {| timer_id := next_timer_id w1; target_tick := t; timer_kind := Sleep 5 |} ∈ es.
Proof.
  assert (Hno : OCancelSleep 5 ∉ replicate 300 OTick) by (intros [? _]%elem_of_replicate; done).
  split; [exact Hno|].
  pose proof (timer_fires_on_time [OTick] 5 290 (replicate 300 OTick) ltac:(rewrite length_replicate; cbn; lia) Hno) as H.
  cbv zeta in H |- *. set (w1 := (wheel_run wheel_new [OTick]).1) in *.
  assert (Ht : current_tick w1 = 1) by (vm_compute; reflexivity).
  destruct (add_sleep_timer w1 5 290) as [w2 t]. destruct H as [Hm Hj]. intros es Hes.
  apply (Hj 289%nat es Hes). rewrite Hm, Ht. reflexivity.
Defined.

(** ** The calendar of the real-time clock *)

Definition month_days (y m : Z) : Z :=
  if m =? 2 then (if is_leap y then 29 else 28)
  else if (m =? 4) || (m =? 6) || (m =? 9) || (m =? 11) then 30 else 31.

Definition next_day (y m d : Z) : Z * Z * Z :=
  if d <? month_days y m then (y, m, d + 1) else if m <? 12 then (y, m + 1, 1) else (y + 1, 1, 1).

Lemma year_days_add n : ∀ y d, year_days n y d = d + year_days n y 0.
Proof. induction n as [|n IH]; intros y d; cbn; [lia|]. rewrite IH, (IH _ (0 + _)). lia. Qed.

Lemma year_days_next n y : year_days (S n) y 0 = year_days n y 0 + if is_leap (y + Z.of_nat n) then 366 else 365.
Proof.
  revert y. induction n as [|n IH]; intros y; [cbn; rewrite Z.add_0_r; lia|].
  change (year_days (S (S n)) y 0) with (year_days (S n) (y + 1) (0 + if is_leap y then 366 else 365)).
  change (year_days (S n) y 0) with (year_days n (y + 1) (0 + if is_leap y then 366 else 365)).
  rewrite (year_days_add (S n)), (year_days_add n), IH. replace (y + 1 + Z.of_nat n) with (y + Z.of_nat (S n)) by lia. lia.
Qed.

Lemma months_add_up y m : 1 ≤ m ≤ 11 →
  days_before (m + 1) (if is_leap y then 1 else 0) = days_before m (if is_leap y then 1 else 0) + month_days y m.
Proof.
  intros Hm. assert (Hc : m = 1 ∨ m = 2 ∨ m = 3 ∨ m = 4 ∨ m = 5 ∨ m = 6 ∨ m = 7 ∨ m = 8 ∨ m = 9 ∨ m = 10 ∨ m = 11) by lia.
  unfold month_days. destruct (is_leap y); repeat (destruct Hc as [->|Hc]; [done|]); by subst m.
Qed.

(** The clock chip's date is turned into seconds by the Gregorian
    calendar: 1 January 1970 is 0, the day after a date is 86400 seconds
    later (over month ends, leap days and year ends), and the time of day
    adds its seconds. *)
Theorem rtc_calendar y m d h mi s : 1970 ≤ y → 1 ≤ m ≤ 12 → 1 ≤ d ≤ month_days y m →
  unix_seconds 1970 1 1 0 0 0 = 0 ∧
  (let '(y', m', d') := next_day y m d in unix_seconds y' m' d' h mi s = unix_seconds y m d h mi s + 86400) ∧
  unix_seconds y m d h mi s = unix_seconds y m d 0 0 0 + (h * 3600 + mi * 60 + s).
Proof.
  intros Hy Hm Hd. split; [done|]. split; [|unfold unix_seconds; lia]. unfold next_day.
  destruct (Z.ltb_spec d (month_days y m)); [unfold unix_seconds; lia|].
  destruct (Z.ltb_spec m 12).
  - unfold unix_seconds. rewrite months_add_up by lia. lia.
  - assert (m = 12) as -> by lia. unfold unix_seconds.
    replace (Z.to_nat (y + 1 - 1970)) with (S (Z.to_nat (y - 1970))) by lia. rewrite year_days_next.
    replace (1970 + Z.of_nat (Z.to_nat (y - 1970))) with y by lia.
    change (days_before 1 _) with 0. change (month_days y 12) with 31 in *. unfold days_before. cbn.
    destruct (is_leap y); lia.
Qed.

Lemma rtc_calendar_witness : 1 ≤ 29 ≤ month_days 2024 2 ∧ unix_seconds 2024 3 1 12 0 0 = unix_seconds 2024 2 29 12 0 0 + 86400.
Proof.
  split; [vm_compute; split; discriminate|].
  exact (proj1 (proj2 (rtc_calendar 2024 2 29 12 0 0 ltac:(lia) ltac:(lia) ltac:(vm_compute; split; discriminate)))).
Defined.

(** ** What the code does at the edges *)

(** An interval timer fires once: when it expires it has left the wheel,
    and [rearm_itimer] looks for it there. *)
Theorem itimer_never_rearmed os : zlen os < 2 ^ 62 →
  let w := (wheel_run wheel_new os).1 in timer_tick w = advance_tick w.
Proof.
  intros Hlen. pose proof (wheel_run_ok os wheel_new spec_new new_holds ltac:(cbn; lia) ltac:(done) ltac:(cbn; lia)) as H.
  destruct (wheel_run wheel_new os) as [w ans]. cbn [fst]. destruct H as (sp & Hr & Hw).
  apply (timer_tick_eq w sp Hw).
  destruct (spec_run_bounds _ _ _ _ Hr) as [Hb _]. cbn in Hb. lia.
Qed.

(** Setting another kind of interval timer stops the real one. *)
Theorem other_itimer_stops_real :
  let w := (set_itimer wheel_new 7 0 1000 1000).1 in
  get_itimer w 7 0 = (1000, 1000) ∧ get_itimer (set_itimer w 7 1 500 500).1 7 0 = (0, 0).
Proof. vm_compute. auto. Qed.

(** A real time set before the first time it is asked for is lost: the
    first query takes the time of the clock chip. *)
Theorem set_clock_lost rtc_seconds : 1700000000 ≤ rtc_seconds < 2 ^ 62 →
  let c := (set_clock_time clocks_new 0 2000000000 0).1 in
  (get_clock_time c (Some rtc_seconds) 0 0).2 = (rtc_seconds, 0).
Proof.
  intros Hr. unfold set_clock_time, get_clock_time, sync_rtc_if_needed.
  cbn [negb Z.eqb fst snd global_ticks rtc_initialized realtime_base_sec clocks_new].
  rewrite (proj2 (Z.leb_le 1700000000 rtc_seconds)) by lia. rewrite signed_id by (unfold is_i; lia).
  unfold wrapping_add. rewrite Z.div_0_l, Z.add_0_r by lia. by rewrite !(wrap_small 64 rtc_seconds) by (unfold is_u; lia).
Qed.

(** The clock chip's twelve-hour mode: the afternoon bit is masked out
    before it is tested, so 3 pm (0x83) is read as 3 am. *)
Theorem rtc_afternoon_ignored :
  let r h := {| r_sec := 0; r_min := 0; r_hour := h; r_day := 1; r_month := 1; r_year := 0x24; r_century := 0x20; reg_b := 0 |} in
  read_rtc_seconds false (r 0x83) = read_rtc_seconds false (r 0x03).
Proof. vm_compute. reflexivity. Qed.
