(* ===== verification/Paths.v ===== *)
(** * Strings and paths

    A Rust [str] is the list of its bytes; the functions of the standard
    library the path code uses. *)

From stdpp Require Import strings.
From S2P Require Import Prelude Words.

(** The bytes of a string literal. *)
Definition text (s : string) : list Z := (λ a, Z.of_N (Ascii.N_of_ascii a)) <$> String.list_ascii_of_string s.

Abbreviation SLASH := 47 (only parsing).
Abbreviation DOT := 46 (only parsing).

(** [s.split(c)]: the pieces between the separators, empty ones included. *)
Fixpoint split_on (c : Z) (l : list Z) : list (list Z) :=
  match l with
  | [] => [[]]
  | b :: l' =>
    if b =? c then [] :: split_on c l'
    else match split_on c l' with
         | p :: ps => (b :: p) :: ps
         | [] => [[b]]
         end
  end.

(** [core::str::from_utf8(l).is_ok()] *)
Definition cont (b : Z) : bool := (0x80 <=? b) && (b <=? 0xbf).
Definition two_bytes (a b : Z) : bool := (0xc2 <=? a) && (a <=? 0xdf) && cont b.
Definition three_bytes (a b c : Z) : bool :=
  (0xe0 <=? a) && (a <=? 0xef) && cont b && cont c &&
  negb ((a =? 0xe0) && (b <? 0xa0)) && negb ((a =? 0xed) && (0x9f <? b)).
Definition four_bytes (a b c d : Z) : bool :=
  (0xf0 <=? a) && (a <=? 0xf4) && cont b && cont c && cont d &&
  negb ((a =? 0xf0) && (b <? 0x90)) && negb ((a =? 0xf4) && (0x8f <? b)).
Fixpoint utf8 (l : list Z) : bool :=
  match l with
  | [] => true
  | a :: l1 =>
    if a <? 0x80 then utf8 l1 else
    match l1 with
    | [] => false
    | b :: l2 =>
      if two_bytes a b then utf8 l2 else
      match l2 with
      | [] => false
      | c :: l3 =>
        if three_bytes a b c then utf8 l3 else
        match l3 with
        | [] => false
        | d :: l4 => if four_bytes a b c d then utf8 l4 else false
        end
      end
    end
  end.

(** [l.starts_with(p)] *)
Fixpoint starts_with (l p : list Z) {struct p} : bool :=
  match p, l with
  | [], _ => true
  | x :: p', y :: l' => (x =? y) && starts_with l' p'
  | _ :: _, [] => false
  end.

Lemma starts_with_spec l p : starts_with l p = true ↔ ∃ k, l = p ++ k.
Proof.
  revert l. induction p as [|x p IH]; intros l; cbn; [by split; [exists l|]|].
  destruct l as [|y l]; [split; [done|by intros [? ?]]|].
  rewrite andb_true_iff, Z.eqb_eq, IH. split.
  - intros (-> & k & ->). by exists k.
  - intros (k & [= -> ->]). eauto.
Qed.

(** [s.strip_prefix(p)], [s.trim_matches('/')] and its halves. *)
Definition strip_prefix (p l : list Z) : option (list Z) :=
  if starts_with l p then Some (drop (length p) l) else None.

Fixpoint trim_start (c : Z) (l : list Z) : list Z :=
  match l with
  | [] => []
  | b :: l' => if b =? c then trim_start c l' else l
  end.
Definition trim_end (c : Z) (l : list Z) : list Z := rev (trim_start c (rev l)).
Definition trim_matches (c : Z) (l : list Z) : list Z := trim_end c (trim_start c l).

(** [s.rfind('/')]: what is before and after the last separator. *)
Fixpoint rsplit (c : Z) (l : list Z) : option (list Z * list Z) :=
  match l with
  | [] => None
  | b :: l' =>
    match rsplit c l' with
    | Some (x, y) => Some (b :: x, y)
    | None => if b =? c then Some ([], l') else None
    end
  end.

(** [s.trim()]: white space by the [White_Space] property of Unicode, in
    UTF-8. *)
Definition white_space : list (list Z) :=
  [[9]; [10]; [11]; [12]; [13]; [32]; [0xc2; 0x85]; [0xc2; 0xa0]; [0xe1; 0x9a; 0x80];
   [0xe2; 0x80; 0x80]; [0xe2; 0x80; 0x81]; [0xe2; 0x80; 0x82]; [0xe2; 0x80; 0x83]; [0xe2; 0x80; 0x84];
   [0xe2; 0x80; 0x85]; [0xe2; 0x80; 0x86]; [0xe2; 0x80; 0x87]; [0xe2; 0x80; 0x88]; [0xe2; 0x80; 0x89];
   [0xe2; 0x80; 0x8a]; [0xe2; 0x80; 0xa8]; [0xe2; 0x80; 0xa9]; [0xe2; 0x80; 0xaf]; [0xe2; 0x81; 0x9f];
   [0xe3; 0x80; 0x80]].

(** Dropping characters of [cs] from the front; one round takes a byte. *)
Fixpoint drop_chars (fuel : nat) (cs : list (list Z)) (l : list Z) : list Z :=
  match fuel with
  | O => l
  | S fuel' =>
    match list_find (λ c, starts_with l c = true) cs with
    | Some (_, c) => drop_chars fuel' cs (drop (length c) l)
    | None => l
    end
  end.
Definition trim (l : list Z) : list Z :=
  let l := drop_chars (length l) white_space l in
  reverse (drop_chars (length l) (reverse <$> white_space) (reverse l)).
