(* ===== verification/Dns.v ===== *)
(** * The DNS resolver ([rust/kernel/src/dns.rs])

    Queries and responses as byte strings, the walk over compressed names,
    and the cache.  A Rust slice has fewer than [2^63] bytes, so offsets
    into it do not wrap. *)

From stdpp Require Import gmap strings.
From S2P Require Import Prelude Words Paths.

Inductive DnsError := InvalidHostname | FormatError | ServerFailure | NxDomain | NoRecords | Timeout | NetworkError.
#[export] Instance DnsError_eq_dec : EqDecision DnsError.
Proof. solve_decision. Defined.

Abbreviation dres := (res DnsError).

Definition DOT : Z := 46.

(** [u16::to_be_bytes], [u32::to_be_bytes] and their inverses. *)
Definition to_be (n : nat) (z : Z) : list Z := reverse (to_le n z).
Definition be16 {E} (p : list Z) (o : Z) : res E Z :=
  a ← expect (index p o); b ← expect (index p (o + 1)); Ok (a * 256 + b).
Definition be32 {E} (p : list Z) (o : Z) : res E Z :=
  a ← be16 p o; b ← be16 p (o + 2); Ok (a * 65536 + b).

(** [s.split('.')] *)
Fixpoint split_dot (s : list Z) : list (list Z) :=
  match s with
  | [] => [[]]
  | b :: s' =>
    if b =? DOT then [] :: split_dot s' else
    match split_dot s' with
    | l :: ls => (b :: l) :: ls
    | [] => [[b]]
    end
  end.

(** ** Queries *)

Fixpoint encode_labels (ls : list (list Z)) : dres (list Z) :=
  match ls with
  | [] => Ok []
  | l :: ls' =>
    if bool_decide (l = []) then encode_labels ls' else
    if 63 <? zlen l then Err InvalidHostname else
    rest ← encode_labels ls'; Ok (zlen l :: l ++ rest)
  end.

Definition encode_query (hostname : list Z) (tx_id : Z) : dres (list Z) :=
  if bool_decide (hostname = []) || (255 <? zlen hostname) then Err InvalidHostname else
  let header := to_be 2 tx_id ++ to_be 2 0x0100 ++ to_be 2 1 ++ to_be 2 0 ++ to_be 2 0 ++ to_be 2 0 in
  qname ← encode_labels (split_dot hostname);
  Ok (header ++ qname ++ [0] ++ to_be 2 1 ++ to_be 2 1).

(** The loop over the labels: hostname and offset after it.  Every round
    moves the offset, so the length of the packet is enough fuel. *)
Fixpoint decode_labels (fuel : nat) (packet : list Z) (offset : Z) (hostname : list Z) (first : bool)
    : dres (list Z * Z) :=
  if zlen packet <=? offset then Ok (hostname, offset) else
  match fuel with
  | O => Panic
  | S fuel' =>
    len ← expect (index packet offset);
    let offset := offset + 1 in
    if len =? 0 then Ok (hostname, offset) else
    if negb (Z.land len 0xc0 =? 0) then Err FormatError else
    if zlen packet <? offset + len then Err FormatError else
    let hostname := if first then hostname else hostname ++ [DOT] in
    label ← expect (slice packet offset (offset + len));
    if negb (utf8 label) then Err InvalidHostname else
    decode_labels fuel' packet (offset + len) (hostname ++ label) false
  end.

Definition decode_query_name (packet : list Z) : dres (Z * list Z * Z * Z) :=
  if zlen packet <? 12 then Err FormatError else
  tx_id ← be16 packet 0;
  qdcount ← be16 packet 4;
  if qdcount <? 1 then Err FormatError else
  '(hostname, offset) ← decode_labels (length packet) packet 12 [] true;
  if zlen packet <? offset + 4 then Err FormatError else
  qtype ← be16 packet offset;
  qclass ← be16 packet (offset + 2);
  Ok (tx_id, hostname, qtype, qclass).

(** ** Responses *)

(** [while offset < packet.len() && steps < 128] *)
Definition NAME_STEPS : nat := 128.

Fixpoint skip_dns_name (steps : nat) (packet : list Z) (offset : Z) (jumped : bool) (final_offset : Z) : dres Z :=
  let stop := if jumped then Ok final_offset else Err FormatError in
  match steps with
  | O => stop
  | S steps' =>
    if zlen packet <=? offset then stop else
    len ← expect (index packet offset);
    if len =? 0 then Ok (if jumped then final_offset else offset + 1) else
    if Z.land len 0xc0 =? 0xc0 then
      if zlen packet <? offset + 2 then Err FormatError else
      low ← expect (index packet (offset + 1));
      let ptr := Z.lor (Z.shiftl (Z.land len 0x3f) 8) low in
      skip_dns_name steps' packet ptr true (if jumped then final_offset else offset + 2)
    else skip_dns_name steps' packet (offset + (1 + len)) jumped final_offset
  end.

(** [for _ in 0..qdcount] *)
Fixpoint skip_questions (n : nat) (packet : list Z) (offset : Z) : dres Z :=
  match n with
  | O => Ok offset
  | S n' =>
    offset ← skip_dns_name NAME_STEPS packet offset false 0;
    if zlen packet <? offset + 4 then Err FormatError else skip_questions n' packet (offset + 4)
  end.

(** [for _ in 0..ancount] *)
Fixpoint find_answer (n : nat) (packet : list Z) (offset : Z) : dres (list Z * Z) :=
  match n with
  | O => Err NoRecords
  | S n' =>
    offset ← skip_dns_name NAME_STEPS packet offset false 0;
    if zlen packet <? offset + 10 then Err FormatError else
    rtype ← be16 packet offset;
    rclass ← be16 packet (offset + 2);
    ttl ← be32 packet (offset + 4);
    rdlength ← be16 packet (offset + 8);
    let offset := offset + 10 in
    if zlen packet <? offset + rdlength then Err FormatError else
    if (rtype =? 1) && (rclass =? 1) && (rdlength =? 4) then
      ip ← expect (slice packet offset (offset + 4)); Ok (ip, ttl)
    else find_answer n' packet (offset + rdlength)
  end.

Definition decode_response (packet : list Z) (expected_tx_id : option Z) : dres (list Z * Z) :=
  if zlen packet <? 12 then Err FormatError else
  tx_id ← be16 packet 0;
  if match expected_tx_id with Some e => negb (tx_id =? e) | None => false end then Err FormatError else
  flags ← be16 packet 2;
  if Z.land (Z.shiftr flags 15) 1 =? 0 then Err FormatError else
  let rcode := Z.land flags 0x0f in
  if rcode =? 3 then Err NxDomain else if negb (rcode =? 0) then Err ServerFailure else
  qdcount ← be16 packet 4;
  ancount ← be16 packet 6;
  if ancount =? 0 then Err NoRecords else
  offset ← skip_questions (Z.to_nat qdcount) packet 12;
  find_answer (Z.to_nat ancount) packet offset.

(** The end of the question section of a query, as the builders look for it. *)
Fixpoint question_end (fuel : nat) (q : list Z) (q_offset : Z) : Z :=
  if zlen q <=? q_offset then q_offset else
  match fuel with
  | O => q_offset
  | S fuel' =>
    let len := default 0 (index q q_offset) in
    let q_offset := q_offset + 1 in
    if len =? 0 then q_offset else question_end fuel' q (q_offset + len)
  end.

Definition question (q : list Z) : list Z :=
  let q_offset := question_end (length q) q 12 + 4 in
  if q_offset <=? zlen q then drop 12 (take (Z.to_nat q_offset) q) else [].

Definition response_header (q : list Z) (flags ancount : Z) : list Z :=
  take 2 q ++ to_be 2 flags ++ to_be 2 1 ++ to_be 2 ancount ++ to_be 2 0 ++ to_be 2 0.

Definition build_response (q : list Z) (ip : list Z) (ttl : Z) : list Z :=
  if zlen q <? 12 then [] else
  response_header q 0x8180 1 ++ question q ++
    [0xc0; 0x0c] ++ to_be 2 1 ++ to_be 2 1 ++ to_be 4 ttl ++ to_be 2 4 ++ ip.

Definition build_nxdomain_response (q : list Z) : list Z :=
  if zlen q <? 12 then [] else response_header q 0x8183 0 ++ question q.

(** ** The cache *)

Record DnsCacheEntry := { ce_ip : list Z; ce_ttl : Z; expire_tick : Z }.
Record resolver := { dns_cache : gmap (list Z) DnsCacheEntry; outbound_queries : Z; cache_hits : Z; tx_id_counter : Z }.

Definition next_tx_id (r : resolver) : resolver * Z :=
  ({| dns_cache := dns_cache r; outbound_queries := outbound_queries r; cache_hits := cache_hits r;
      tx_id_counter := u16 (tx_id_counter r + 1) |}, tx_id_counter r).

Definition clear_cache (r : resolver) : resolver :=
  {| dns_cache := ∅; outbound_queries := outbound_queries r; cache_hits := cache_hits r; tx_id_counter := tx_id_counter r |}.

Definition lower (b : Z) : Z := if (65 <=? b) && (b <=? 90) then b + 32 else b.

Definition ends_with (l suffix : list Z) : bool :=
  bool_decide (suffix = drop (length l - length suffix) l).

Definition cached (r : resolver) (name : list Z) (now : Z) : option (list Z * Z) :=
  match dns_cache r !! name with
  | Some e => if now <? expire_tick e then Some (ce_ip e, Z.max (u32 ((expire_tick e - now) / 1000)) 1) else None
  | None => None
  end.

Definition remember (r : resolver) (name : list Z) (e : DnsCacheEntry) : resolver :=
  {| dns_cache := <[name := e]> (dns_cache r); outbound_queries := outbound_queries r; cache_hits := cache_hits r;
     tx_id_counter := tx_id_counter r |}.

(** [now] is [timer::current_tick()], [address] the configured address. *)
Definition handle_dns_datagram (r : resolver) (query : list Z) (address : list Z) (now : Z)
    : resolver * res unit (option (list Z)) :=
  match decode_query_name query with
  | Panic => (r, Panic)
  | Err _ => (r, Ok None)
  | Ok (_, hostname, qtype, qclass) =>
    if negb (qtype =? 1) || negb (qclass =? 1) then (r, Ok None) else
    let qname := lower <$> hostname in
    if bool_decide (qname = text "localhost") then (r, Ok (Some (build_response query [127; 0; 0; 1] 86400))) else
    if bool_decide (qname = text "vanta") then (r, Ok (Some (build_response query address 86400))) else
    match cached r qname now with
    | Some (ip, ttl) =>
      ({| dns_cache := dns_cache r; outbound_queries := outbound_queries r; cache_hits := u64 (cache_hits r + 1);
          tx_id_counter := tx_id_counter r |}, Ok (Some (build_response query ip ttl)))
    | None =>
      let r := {| dns_cache := dns_cache r; outbound_queries := u64 (outbound_queries r + 1);
                  cache_hits := cache_hits r; tx_id_counter := tx_id_counter r |} in
      if ends_with qname (text ".invalid") then (r, Ok (Some (build_nxdomain_response query))) else
      let ip := if bool_decide (qname = text "example.com") then [93; 184; 216; 34] else [10; 0; 2; 2] in
      let r := remember r qname {| ce_ip := ip; ce_ttl := 300; expire_tick := u64 (now + 300 * 1000) |} in
      (r, Ok (Some (build_response query ip 300)))
    end
  end.

Definition record_dns_response (r : resolver) (packet : list Z) (now : Z) : resolver * res unit unit :=
  if zlen packet <? 12 then (r, Ok ()) else
  match be16 (E := DnsError) packet 2 with
  | Ok flags =>
    if negb (Z.land (Z.shiftr flags 15) 1 =? 1) then (r, Ok ()) else
    if negb (Z.land flags 0x0f =? 0) then (r, Ok ()) else
    match decode_query_name packet, decode_response packet None with
    | Panic, _ | Ok _, Panic => (r, Panic)
    | Ok (_, hostname, _, _), Ok (ip, ttl) =>
      (remember r (lower <$> hostname) {| ce_ip := ip; ce_ttl := ttl; expire_tick := u64 (now + Z.max ttl 5 * 1000) |}, Ok ())
    | _, _ => (r, Ok ())
    end
  | _ => (r, Panic)
  end.
