(* ===== verification/DnsSpec.v ===== *)
(** * DNS messages round-trip and no packet can panic the resolver *)

From stdpp Require Import gmap strings.
From S2P Require Import Prelude Words Paths Dns.

(** ** Arbitrary packets *)

Lemma packet_index {A} (l : list A) i : 0 ≤ i < zlen l → ∃ x, index l i = Some x ∧ l !! Z.to_nat i = Some x.
Proof.
  intros Hi. destruct (lookup_lt_is_Some_2 l (Z.to_nat i) ltac:(lia)) as [x Hx]. exists x.
  split; [apply index_Some; split; [lia|done]|done].
Qed.

Lemma index_byte p i x : bytes p → index p i = Some x → is_u 8 x.
Proof. intros Hp [_ Hx]%index_Some. rewrite Forall_lookup in Hp. by eapply Hp. Qed.

Lemma be16_in {E} p o : bytes p → 0 ≤ o → o + 2 ≤ zlen p → ∃ v, be16 (E := E) p o = Ok v ∧ 0 ≤ v < 2 ^ 16.
Proof.
  intros Hp Ho Hl. unfold be16. destruct (packet_index p o ltac:(lia)) as (a & Ha & _). destruct (packet_index p (o + 1) ltac:(lia)) as (b & Hb & _).
  rewrite Ha, Hb. cbn. eexists. split; [done|].
  pose proof (index_byte p _ _ Hp Ha) as Ua. pose proof (index_byte p _ _ Hp Hb) as Ub. unfold is_u in *. lia.
Qed.

Lemma be32_in {E} p o : bytes p → 0 ≤ o → o + 4 ≤ zlen p → ∃ v, be32 (E := E) p o = Ok v.
Proof.
  intros Hp Ho Hl. unfold be32. destruct (be16_in (E := E) p o Hp Ho ltac:(lia)) as (a & -> & _).
  destruct (be16_in (E := E) p (o + 2) Hp ltac:(lia) ltac:(lia)) as (b & -> & _). cbn. eauto.
Qed.

Lemma decode_labels_total fuel : ∀ p o h f, bytes p → 0 ≤ o → zlen p - o ≤ Z.of_nat fuel →
  decode_labels fuel p o h f ≠ Panic ∧ ∀ h' o', decode_labels fuel p o h f = Ok (h', o') → 0 ≤ o'.
Proof.
  induction fuel as [|fuel IH]; intros p o h f Hp Ho Hf; cbn [decode_labels].
  - destruct (Z.leb_spec (zlen p) o); [|lia]. split; [done|]. by intros h' o' [= _ <-].
  - destruct (Z.leb_spec (zlen p) o); [split; [done|]; by intros h' o' [= _ <-]|].
    destruct (packet_index p o ltac:(lia)) as (len & Hi & _). pose proof (index_byte p _ _ Hp Hi) as Hb. unfold is_u in Hb.
    rewrite Hi. cbn [expect mbind res_bind]. destruct (Z.eqb_spec len 0); [split; [done|]; intros h' o' [= _ <-]; lia|].
    case_match; [done|]. destruct (Z.ltb_spec (zlen p) (o + 1 + len)); [done|].
    rewrite slice_in by lia. cbn [expect mbind res_bind]. case_match; [done|]. apply IH; [done|lia|lia].
Qed.

Lemma skip_dns_name_total steps : ∀ p o j fo, bytes p → 0 ≤ o → 0 ≤ fo →
  skip_dns_name steps p o j fo ≠ Panic ∧ ∀ o', skip_dns_name steps p o j fo = Ok o' → 0 ≤ o'.
Proof.
  induction steps as [|steps IH]; intros p o j fo Hp Ho Hfo; cbn [skip_dns_name].
  - destruct j; split; try done. by intros o' [= <-].
  - destruct (Z.leb_spec (zlen p) o); [destruct j; split; try done; by intros o' [= <-]|].
    destruct (packet_index p o ltac:(lia)) as (len & Hi & _). pose proof (index_byte p _ _ Hp Hi) as Hb. unfold is_u in Hb.
    rewrite Hi. cbn [expect mbind res_bind]. destruct (len =? 0); [split; [done|]; intros o' [= <-]; destruct j; lia|].
    case_match.
    + destruct (Z.ltb_spec (zlen p) (o + 2)); [done|]. destruct (packet_index p (o + 1) ltac:(lia)) as (low & Hl & _).
      pose proof (index_byte p _ _ Hp Hl) as Hb2. unfold is_u in Hb2. rewrite Hl. cbn [expect mbind res_bind].
      apply IH; [done| |destruct j; lia]. apply Z.lor_nonneg. split; [|lia]. apply Z.shiftl_nonneg, Z.land_nonneg. lia.
    + apply IH; [done|lia|done].
Qed.

Lemma skip_questions_total n : ∀ p o, bytes p → 0 ≤ o →
  skip_questions n p o ≠ Panic ∧ ∀ o', skip_questions n p o = Ok o' → 0 ≤ o'.
Proof.
  induction n as [|n IH]; intros p o Hp Ho; cbn [skip_questions]; [split; [done|]; by intros o' [= <-]|].
  destruct (skip_dns_name_total NAME_STEPS p o false 0 Hp Ho ltac:(lia)) as [Hn Hk].
  destruct (skip_dns_name NAME_STEPS p o false 0) as [o1| |]; cbn; [|done|done]. specialize (Hk o1 eq_refl).
  case_match; [done|]. apply IH; [done|lia].
Qed.

Lemma find_answer_total n : ∀ p o, bytes p → 0 ≤ o → find_answer n p o ≠ Panic.
Proof.
  induction n as [|n IH]; intros p o Hp Ho; cbn [find_answer]; [done|].
  destruct (skip_dns_name_total NAME_STEPS p o false 0 Hp Ho ltac:(lia)) as [Hn Hk].
  destruct (skip_dns_name NAME_STEPS p o false 0) as [o1| |]; cbn [mbind res_bind]; [|done|done]. specialize (Hk o1 eq_refl).
  destruct (Z.ltb_spec (zlen p) (o1 + 10)); [done|].
  destruct (be16_in (E := DnsError) p o1 Hp Hk ltac:(lia)) as (ty & -> & _).
  destruct (be16_in (E := DnsError) p (o1 + 2) Hp ltac:(lia) ltac:(lia)) as (cl & -> & _).
  destruct (be32_in (E := DnsError) p (o1 + 4) Hp ltac:(lia) ltac:(lia)) as (ttl & ->).
  destruct (be16_in (E := DnsError) p (o1 + 8) Hp ltac:(lia) ltac:(lia)) as (rd & -> & Hrd). cbn [mbind res_bind].
  destruct (Z.ltb_spec (zlen p) (o1 + 10 + rd)); [done|].
  destruct ((ty =? 1) && (cl =? 1) && (rd =? 4)) eqn:Ht; [|apply IH; [done|lia]].
  apply andb_true_iff in Ht as [_ ->%Z.eqb_eq]. by rewrite slice_in by lia.
Qed.

(** C39: No packet, however malformed, panics the resolver or sends it into
    an endless loop over compressed names: both decoders always return. *)
Theorem dns_decoders_total p tx : bytes p → decode_query_name p ≠ Panic ∧ decode_response p tx ≠ Panic.
Proof.
  intros Hp. unfold decode_query_name, decode_response. destruct (Z.ltb_spec (zlen p) 12) as [|Hl]; [done|].
  destruct (be16_in (E := DnsError) p 0 Hp ltac:(lia) ltac:(lia)) as (v0 & -> & _).
  destruct (be16_in (E := DnsError) p 2 Hp ltac:(lia) ltac:(lia)) as (v2 & -> & _).
  destruct (be16_in (E := DnsError) p 4 Hp ltac:(lia) ltac:(lia)) as (v4 & -> & _).
  destruct (be16_in (E := DnsError) p 6 Hp ltac:(lia) ltac:(lia)) as (v6 & -> & _). cbn [mbind res_bind]. split.
  - case_match; [done|]. destruct (decode_labels_total (length p) p 12 [] true Hp ltac:(lia) ltac:(lia)) as [Hn Hk].
    destruct (decode_labels (length p) p 12 [] true) as [[h o]| |]; cbn [mbind res_bind]; [|done|done].
    specialize (Hk h o eq_refl). destruct (Z.ltb_spec (zlen p) (o + 4)); [done|].
    destruct (be16_in (E := DnsError) p o Hp Hk ltac:(lia)) as (ty & -> & _).
    by destruct (be16_in (E := DnsError) p (o + 2) Hp ltac:(lia) ltac:(lia)) as (cl & -> & _).
  - destruct (match tx with Some e => _ | None => _ end); [done|]. repeat (case_match; [done|]).
    destruct (skip_questions_total (Z.to_nat v4) p 12 Hp ltac:(lia)) as [Hn Hk].
    destruct (skip_questions (Z.to_nat v4) p 12) as [o| |]; cbn [mbind res_bind]; [|done|done]. apply find_answer_total; [done|].
    by apply Hk.
Qed.

Lemma dns_decoders_total_witness : bytes (replicate 12 0xc0 ++ [0xc0; 12]) ∧
  decode_response (replicate 12 0xc0 ++ [0xc0; 12]) None ≠ Panic.
Proof.
  assert (Hb : bytes (replicate 12 0xc0 ++ [0xc0; 12])) by (repeat constructor; done).
  split; [exact Hb|]. apply (dns_decoders_total _ None Hb).
Defined.

(** ** Names *)

(** A label as [split('.')] makes it. *)
Definition good_label (l : list Z) : Prop := l ≠ [] ∧ zlen l ≤ 63 ∧ utf8 l = true ∧ DOT ∉ l.

Definition wire (ls : list (list Z)) : list Z := mjoin ((λ l, zlen l :: l) <$> ls).

(** The labels joined by dots again. *)
Fixpoint join_dot (ls : list (list Z)) : list Z :=
  match ls with
  | [] => []
  | [l] => l
  | l :: ls' => l ++ DOT :: join_dot ls'
  end.

Definition labels (h : list Z) : list (list Z) := filter (λ l, l ≠ []) (split_dot h).

Lemma encode_labels_eq ls q : encode_labels ls = Ok q →
  q = wire (filter (λ l, l ≠ []) ls) ∧ Forall (λ l, zlen l ≤ 63) (filter (λ l, l ≠ []) ls).
Proof.
  revert q. induction ls as [|l ls IH]; intros q; cbn [encode_labels]; [by intros [= <-]|].
  case_bool_decide as Hl; [intros Hq; rewrite filter_cons_False by (by intros ?); by apply IH|].
  rewrite filter_cons_True by done. destruct (Z.ltb_spec 63 (zlen l)); [done|]. intros Hq. inv_bind Hq.
  injection Hq as <-. destruct (IH _ E) as [-> Hf]. split; [done|]. by constructor.
Qed.

Lemma encode_labels_ok ls : Forall (λ l, zlen l ≤ 63) ls →
  encode_labels ls = Ok (wire (filter (λ l, l ≠ []) ls)).
Proof.
  induction 1 as [|l ls Hl _ IH]; [done|]. cbn [encode_labels]. case_bool_decide as Hn.
  - by rewrite filter_cons_False by (by intros ?).
  - rewrite filter_cons_True by done. rewrite (proj2 (Z.ltb_ge _ _)) by done. by rewrite IH.
Qed.

Lemma split_dot_nonempty h : split_dot h ≠ [].
Proof. destruct h; cbn; [done|]. repeat case_match; done. Qed.

Lemma split_dot_no_dot h : Forall (λ l, DOT ∉ l) (split_dot h).
Proof.
  induction h as [|b h IH]; cbn [split_dot].
  { constructor; [apply not_elem_of_nil|constructor]. }
  destruct (Z.eqb_spec b DOT) as [->|Hb]; [constructor; [apply not_elem_of_nil|done]|].
  destruct (split_dot h) as [|l ls] eqn:E; [by apply split_dot_nonempty in E|].
  apply Forall_cons in IH as [Hl Hls]. constructor; [|done]. by apply not_elem_of_cons.
Qed.

(** A dot never lies inside a character. *)
Lemma utf8_dot a b : utf8 (a ++ DOT :: b) = utf8 a && utf8 b.
Proof.
  induction a as [a IH] using (induction_ltof1 _ (@length Z)). unfold ltof in IH.
  destruct a as [|x a]; [done|]. cbn [app utf8].
  destruct (x <? 128); [apply IH; cbn; lia|].
  destruct a as [|y a]; cbn [app].
  { unfold two_bytes, three_bytes, four_bytes. change (cont DOT) with false. rewrite !andb_false_r. cbn [andb].
    destruct b as [|c b]; [done|]. rewrite ?andb_false_r. cbn [andb]. destruct b; [done|]. by rewrite ?andb_false_r. }
  destruct (two_bytes x y); [apply IH; cbn; lia|]. destruct a as [|z a]; cbn [app].
  { unfold three_bytes, four_bytes. change (cont DOT) with false. rewrite !andb_false_r. cbn [andb]. destruct b as [|d b]; [done|].
    by rewrite ?andb_false_r. }
  destruct (three_bytes x y z); [apply IH; cbn; lia|]. destruct a as [|t a]; cbn [app].
  { unfold four_bytes. change (cont DOT) with false. by rewrite !andb_false_r. }
  destruct (four_bytes x y z t); [apply IH; cbn; lia|done].
Qed.

Lemma split_dot_join h : join_dot (split_dot h) = h.
Proof.
  induction h as [|b h IH]; [done|]. cbn [split_dot].
  destruct (Z.eqb_spec b DOT) as [->|Hb].
  - destruct (split_dot h) as [|l ls] eqn:E; [by apply split_dot_nonempty in E|]. cbn [join_dot app].
    cbn [join_dot] in IH. by rewrite IH.
  - destruct (split_dot h) as [|l ls] eqn:E; [by apply split_dot_nonempty in E|].
    destruct ls as [|l' ls]; cbn [join_dot] in *; [by rewrite IH|]. cbn. by rewrite IH.
Qed.

Lemma join_dot_utf8 ls : utf8 (join_dot ls) = true → Forall (λ l, utf8 l = true) ls.
Proof.
  induction ls as [|l ls IH]; [done|]. destruct ls as [|l' ls]; [by repeat constructor|].
  cbn [join_dot]. rewrite utf8_dot. intros [Hl Hr]%andb_true_iff. constructor; [done|]. by apply IH.
Qed.

Lemma labels_good h q : utf8 h = true → encode_labels (split_dot h) = Ok q → q = wire (labels h) ∧ Forall good_label (labels h).
Proof.
  intros Hu [Hq Hl]%encode_labels_eq. split; [done|]. rewrite <- (split_dot_join h) in Hu. apply join_dot_utf8 in Hu.
  pose proof (split_dot_no_dot h) as Hd. unfold labels. rewrite Forall_forall in Hl, Hu, Hd. apply Forall_forall.
  intros l Hin. specialize (Hl l Hin). apply list_elem_of_filter in Hin as [Hne Hin]. repeat split; auto.
Qed.

(** ** Reading at a known place *)

Lemma index_skip {A} (pre l : list A) i : 0 ≤ i → index (pre ++ l) (zlen pre + i) = index l i.
Proof.
  intros Hi. unfold index. rewrite length_app. replace (Z.to_nat (zlen pre + i)) with (length pre + Z.to_nat i)%nat by lia.
  rewrite lookup_app_r by lia. replace (length pre + Z.to_nat i - length pre)%nat with (Z.to_nat i) by lia.
  case_bool_decide; case_bool_decide; (done || lia).
Qed.

Lemma be16_skip {E} pre l i : 0 ≤ i → be16 (E := E) (pre ++ l) (zlen pre + i) = be16 l i.
Proof. intros. unfold be16. rewrite <- Z.add_assoc, !index_skip by lia. done. Qed.

Lemma be32_skip {E} pre l i : 0 ≤ i → be32 (E := E) (pre ++ l) (zlen pre + i) = be32 l i.
Proof. intros. unfold be32. rewrite <- Z.add_assoc, !be16_skip by lia. done. Qed.

Lemma slice_shift {A} (pre l : list A) a b : 0 ≤ a → slice (pre ++ l) (zlen pre + a) (zlen pre + b) = slice l a b.
Proof. intros Ha. rewrite slice_skip by lia. f_equal; lia. Qed.

Lemma length_to_be n z : length (to_be n z) = n.
Proof. unfold to_be. by rewrite length_reverse, length_to_le. Qed.

Lemma to_be_2 z : to_be 2 z = [z / 256 mod 256; z mod 256].
Proof. done. Qed.
Lemma to_be_4 z : to_be 4 z = [z / 256 / 256 / 256 mod 256; z / 256 / 256 mod 256; z / 256 mod 256; z mod 256].
Proof. done. Qed.

Lemma index_at {A} (l : list A) i x : 0 ≤ i → l !! Z.to_nat i = Some x → index l i = Some x.
Proof. intros. by apply index_Some. Qed.

Lemma index_head {A} (pre l : list A) x : index (pre ++ x :: l) (zlen pre) = Some x.
Proof. apply index_at; [lia|]. rewrite Nat2Z.id, lookup_app_r, Nat.sub_diag by lia. done. Qed.

Lemma be16_here {E} a b l : be16 (E := E) (a :: b :: l) 0 = Ok (a * 256 + b).
Proof. unfold be16. by rewrite (index_at (a :: b :: l) 0 a), (index_at (a :: b :: l) (0 + 1) b). Qed.
Lemma be32_here {E} a b c d l : be32 (E := E) (a :: b :: c :: d :: l) 0 = Ok ((a * 256 + b) * 65536 + (c * 256 + d)).
Proof.
  unfold be32. rewrite be16_here. cbn [mbind res_bind]. change (0 + 2) with (zlen [a; b] + 0).
  change (a :: b :: c :: d :: l) with ([a; b] ++ c :: d :: l). rewrite be16_skip by lia. by rewrite be16_here.
Qed.

Lemma be16_to_be {E} z l : is_u 16 z → be16 (E := E) (to_be 2 z ++ l) 0 = Ok z.
Proof.
  intros Hz. rewrite to_be_2. unfold is_u in Hz. cbn [app]. rewrite be16_here. f_equal.
  pose proof (Z.div_mod z 256 ltac:(lia)).
  rewrite (Z.mod_small (z / 256)) by (split; [apply Z.div_pos; lia|apply Z.div_lt_upper_bound; lia]). lia.
Qed.

Lemma be32_to_be {E} z l : is_u 32 z → be32 (E := E) (to_be 4 z ++ l) 0 = Ok z.
Proof.
  intros Hz. rewrite to_be_4. unfold is_u in Hz. cbn [app]. rewrite be32_here. f_equal.
  pose proof (Z.div_mod z 256 ltac:(lia)). pose proof (Z.div_mod (z / 256) 256 ltac:(lia)).
  pose proof (Z.div_mod (z / 256 / 256) 256 ltac:(lia)).
  rewrite (Z.mod_small (z / 256 / 256 / 256)); [lia|].
  rewrite !Z.div_div by lia. split; [apply Z.div_pos; lia|apply Z.div_lt_upper_bound; lia].
Qed.

(** ** Walking over labels *)

(** What the decoder makes of the labels. *)
Fixpoint append_labels (h : list Z) (first : bool) (ls : list (list Z)) : list Z :=
  match ls with
  | [] => h
  | l :: ls' => append_labels ((if first then h else h ++ [DOT]) ++ l) false ls'
  end.

Lemma append_labels_more ls : ∀ h, append_labels h false ls = h ++ mjoin ((λ l, DOT :: l) <$> ls).
Proof.
  induction ls as [|l ls IH]; intros h; cbn; [by rewrite app_nil_r|]. rewrite IH, <- !app_assoc. done.
Qed.

Lemma append_labels_join ls : append_labels [] true ls = join_dot ls.
Proof.
  destruct ls as [|l ls]; [done|]. cbn [append_labels app]. rewrite append_labels_more.
  revert l. induction ls as [|l' ls IH]; intros l; [cbn; by rewrite app_nil_r|].
  change (join_dot (l :: l' :: ls)) with (l ++ DOT :: join_dot (l' :: ls)). by rewrite <- IH.
Qed.

Lemma label_length_bits n : 0 < n ≤ 63 → Z.land n 0xc0 = 0.
Proof.
  intros Hn. change 0xc0 with (Z.shiftl 3 6). apply Z.bits_inj'. intros i Hi. rewrite Z.land_spec, Z.bits_0.
  destruct (Z.le_gt_cases 6 i) as [H6|H6].
  - rewrite (Z.bits_above_log2 n i); [done|lia|]. assert (Z.log2 n < 6); [|lia]. apply Z.log2_lt_pow2; lia.
  - rewrite Z.shiftl_spec_low by done. apply andb_false_r.
Qed.

Lemma zlen_cons {A} (x : A) l : zlen (x :: l) = 1 + zlen l.
Proof. cbn [length]. lia. Qed.

Lemma wire_cons l ls : wire (l :: ls) = zlen l :: l ++ wire ls.
Proof. done. Qed.

Lemma decode_labels_wire ls : ∀ fuel pre h f rest, Forall good_label ls → (length ls < fuel)%nat →
  decode_labels fuel (pre ++ wire ls ++ 0 :: rest) (zlen pre) h f =
  Ok (append_labels h f ls, zlen pre + zlen (wire ls) + 1).
Proof.
  induction ls as [|l ls IH]; intros fuel pre h f rest Hg Hf; destruct fuel as [|fuel]; try (cbn in Hf; lia); cbn [decode_labels].
  - rewrite (proj2 (Z.leb_gt _ _)) by (rewrite !length_app; cbn; lia).
    change (wire [] ++ 0 :: rest) with (0 :: rest). rewrite index_head. cbn. f_equal. f_equal. lia.
  - apply Forall_cons in Hg as [(Hne & Hl & Hu & _) Hg]. rewrite wire_cons. cbn [app].
    assert (0 < zlen l) by (destruct l; [done|cbn; lia]).
    rewrite (proj2 (Z.leb_gt _ _)) by (rewrite !length_app; cbn; lia).
    rewrite index_head.
    cbn [expect mbind res_bind]. rewrite (proj2 (Z.eqb_neq (zlen l) 0)) by lia.
    rewrite label_length_bits by lia. cbn [negb Z.eqb].
    rewrite (proj2 (Z.ltb_ge _ _)) by (rewrite length_app; cbn [length]; rewrite !length_app; lia).
    replace (zlen pre + 1) with (zlen (pre ++ [zlen l])) by (rewrite length_app; cbn; lia).
    replace (pre ++ zlen l :: (l ++ wire ls) ++ 0 :: rest) with ((pre ++ [zlen l]) ++ l ++ wire ls ++ 0 :: rest)
      by (by rewrite <- !app_assoc).
    rewrite <- (Z.add_0_r (zlen (pre ++ [zlen l]))) at 1. rewrite slice_shift by lia.
    rewrite slice_in by (rewrite ?length_app; lia). rewrite Z.sub_0_r, Nat2Z.id, drop_0, take_app_length.
    cbn [expect mbind res_bind]. rewrite Hu. cbn [negb].
    replace (zlen (pre ++ [zlen l]) + zlen l) with (zlen ((pre ++ [zlen l]) ++ l)) by (rewrite !length_app; lia).
    rewrite (app_assoc _ l). rewrite IH by (done || (cbn in Hf; lia)). cbn [append_labels]. f_equal. f_equal.
    rewrite !length_app. cbn [length]. rewrite !length_app. lia.
Qed.

Lemma question_end_wire ls : ∀ fuel pre rest, Forall good_label ls → (length ls < fuel)%nat →
  question_end fuel (pre ++ wire ls ++ 0 :: rest) (zlen pre) = zlen pre + zlen (wire ls) + 1.
Proof.
  induction ls as [|l ls IH]; intros fuel pre rest Hg Hf; destruct fuel as [|fuel]; try (cbn in Hf; lia); cbn [question_end].
  - rewrite (proj2 (Z.leb_gt _ _)) by (rewrite !length_app; cbn; lia).
    change (wire [] ++ 0 :: rest) with (0 :: rest). rewrite index_head. cbn. lia.
  - apply Forall_cons in Hg as [(Hne & Hl & Hu & _) Hg]. rewrite wire_cons. cbn [app].
    assert (0 < zlen l) by (destruct l; [done|cbn; lia]).
    rewrite (proj2 (Z.leb_gt _ _)) by (rewrite !length_app; cbn; lia).
    rewrite index_head. cbn [default from_option id]. rewrite (proj2 (Z.eqb_neq (zlen l) 0)) by lia.
    replace (pre ++ zlen l :: (l ++ wire ls) ++ 0 :: rest) with ((pre ++ zlen l :: l) ++ wire ls ++ 0 :: rest)
      by (by rewrite <- !app_assoc).
    replace (zlen pre + 1 + zlen l) with (zlen (pre ++ zlen l :: l)) by (rewrite length_app; cbn; lia).
    rewrite IH by (done || (cbn in Hf; lia)). rewrite !length_app. cbn [length]. rewrite !length_app. lia.
Qed.

(** One label of a name that is skipped. *)
Lemma skip_label l : ∀ steps pre rest j fo, good_label l →
  skip_dns_name (S steps) (pre ++ zlen l :: l ++ rest) (zlen pre) j fo =
  skip_dns_name steps ((pre ++ zlen l :: l) ++ rest) (zlen (pre ++ zlen l :: l)) j fo.
Proof.
  intros steps pre rest j fo (Hne & Hl & Hu & _). assert (0 < zlen l) by (destruct l; [done|cbn; lia]).
  cbn [skip_dns_name]. rewrite (proj2 (Z.leb_gt _ _)) by (rewrite !length_app; cbn; lia).
  rewrite index_head. cbn [expect mbind res_bind].
  rewrite (proj2 (Z.eqb_neq (zlen l) 0)) by lia. rewrite label_length_bits by lia. cbn [Z.eqb].
  rewrite <- app_assoc. cbn [app]. f_equal. rewrite length_app. cbn [length]. lia.
Qed.

Lemma skip_end steps pre rest j fo :
  skip_dns_name (S steps) (pre ++ 0 :: rest) (zlen pre) j fo = Ok (if j then fo else zlen pre + 1).
Proof.
  cbn [skip_dns_name]. rewrite (proj2 (Z.leb_gt _ _)) by (rewrite !length_app; cbn; lia).
  by rewrite index_head.
Qed.

(** A pointer into the first 256 bytes. *)
Lemma skip_pointer steps pre lo rest fo :
  skip_dns_name (S steps) (pre ++ 0xc0 :: lo :: rest) (zlen pre) false fo =
  skip_dns_name steps (pre ++ 0xc0 :: lo :: rest) lo true (zlen pre + 2).
Proof.
  cbn [skip_dns_name]. rewrite (proj2 (Z.leb_gt _ _)) by (rewrite !length_app; cbn; lia).
  rewrite index_head. cbn [expect mbind res_bind]. change (192 =? 0) with false. change (Z.land 192 192 =? 192) with true.
  cbv iota. rewrite (proj2 (Z.ltb_ge _ _)) by (rewrite !length_app; cbn [length]; lia).
  rewrite index_skip, (index_at (0xc0 :: lo :: rest) 1 lo) by done. done.
Qed.

Lemma skip_wire ls : ∀ steps pre j fo rest, Forall good_label ls → (length ls < steps)%nat →
  skip_dns_name steps (pre ++ wire ls ++ 0 :: rest) (zlen pre) j fo =
  Ok (if j then fo else zlen pre + zlen (wire ls) + 1).
Proof.
  induction ls as [|l ls IH]; intros steps pre j fo rest Hg Hs; destruct steps as [|steps]; try (cbn in Hs; lia).
  - cbn [wire fmap list_fmap mjoin list_join app]. rewrite skip_end. cbn. by rewrite Z.add_0_r.
  - apply Forall_cons in Hg as [Hl Hg]. rewrite wire_cons. cbn [app]. rewrite <- app_assoc.
    rewrite skip_label by done. rewrite IH by (done || (cbn in Hs; lia)).
    f_equal. destruct j; [done|]. rewrite !length_app. cbn [length]. rewrite !length_app. lia.
Qed.

(** After a jump the end of the name no longer matters. *)
Lemma skip_wire_jumped ls : ∀ steps pre fo rest, Forall good_label ls →
  skip_dns_name steps (pre ++ wire ls ++ 0 :: rest) (zlen pre) true fo = Ok fo.
Proof.
  induction ls as [|l ls IH]; intros steps pre fo rest Hg; destruct steps as [|steps]; try done.
  - cbn [wire fmap list_fmap mjoin list_join app]. by rewrite skip_end.
  - apply Forall_cons in Hg as [Hl Hg]. rewrite wire_cons. cbn [app]. rewrite <- app_assoc.
    rewrite skip_label by done. by apply IH.
Qed.

Lemma wire_length ls : (length ls ≤ length (wire ls))%nat.
Proof. induction ls as [|l ls IH]; [done|]. rewrite wire_cons. cbn. rewrite length_app. lia. Qed.

(** ** Whole messages *)

Lemma header_reads {E} a b c d rest : is_u 16 a → is_u 16 b → is_u 16 c → is_u 16 d →
  let p := to_be 2 a ++ to_be 2 b ++ to_be 2 c ++ to_be 2 d ++ rest in
  be16 (E := E) p 0 = Ok a ∧ be16 (E := E) p 2 = Ok b ∧ be16 (E := E) p 4 = Ok c ∧ be16 (E := E) p 6 = Ok d.
Proof.
  intros Ha Hb Hc Hd p. unfold p. split; [by apply be16_to_be|].
  assert (H2 : ∀ x l i, 0 ≤ i → be16 (E := E) (to_be 2 x ++ l) (2 + i) = be16 l i).
  { intros x l i Hi. change (2 + i) with (zlen (to_be 2 x) + i). by apply be16_skip. }
  split; [|split].
  - change 2 with (2 + 0). rewrite H2 by lia. by apply be16_to_be.
  - change 4 with (2 + (2 + 0)). rewrite !H2 by lia. by apply be16_to_be.
  - change 6 with (2 + (2 + (2 + 0))). rewrite !H2 by lia. by apply be16_to_be.
Qed.

Lemma encode_query_eq h tx q : utf8 h = true → encode_query h tx = Ok q →
  q = (to_be 2 tx ++ [1; 0; 0; 1; 0; 0; 0; 0; 0; 0]) ++ wire (labels h) ++ 0 :: [0; 1; 0; 1] ∧
  Forall good_label (labels h).
Proof.
  unfold encode_query. intros Hu. case_match; [done|]. intros Hq. inv_bind Hq. injection Hq as <-.
  destruct (labels_good h x Hu E) as [-> Hg]. split; [|done]. by rewrite <- !app_assoc.
Qed.

Lemma query_decodes h tx q : utf8 h = true → is_u 16 tx → encode_query h tx = Ok q →
  decode_query_name q = Ok (tx, join_dot (labels h), 1, 1).
Proof.
  intros Hu Htx Hq. destruct (encode_query_eq h tx q Hu Hq) as [-> Hg]. set (hdr := to_be 2 tx ++ _).
  assert (Hh : length hdr = 12%nat) by done. unfold decode_query_name.
  rewrite (proj2 (Z.ltb_ge _ _)) by (rewrite length_app; lia).
  destruct (header_reads (E := DnsError) tx 0x0100 1 0 ([0; 0; 0; 0] ++ wire (labels h) ++ 0 :: [0; 1; 0; 1]) Htx
    ltac:(done) ltac:(done) ltac:(done)) as (R0 & _ & R4 & _).
  change (to_be 2 tx ++ to_be 2 0x0100 ++ _) with (hdr ++ wire (labels h) ++ 0 :: [0; 1; 0; 1]) in R0, R4.
  rewrite R0, R4. cbn [mbind res_bind]. change (1 <? 1) with false. cbv iota.
  replace 12 with (zlen hdr) by lia. rewrite decode_labels_wire; [|done|].
  2:{ rewrite !length_app. pose proof (wire_length (labels h)). lia. }
  cbn [mbind res_bind]. rewrite append_labels_join.
  replace (zlen hdr + zlen (wire (labels h)) + 1) with (zlen (hdr ++ wire (labels h) ++ [0]) + 0) by (rewrite !length_app; cbn; lia).
  replace (hdr ++ wire (labels h) ++ 0 :: [0; 1; 0; 1]) with ((hdr ++ wire (labels h) ++ [0]) ++ [0; 1; 0; 1])
    by (by rewrite <- !app_assoc).
  rewrite (proj2 (Z.ltb_ge _ _)) by (rewrite (length_app _ [0; 1; 0; 1]); cbn [length]; lia). rewrite !be16_skip by lia. rewrite be16_here.
  done.
Qed.

(** A query carries its name: whatever hostname is accepted, the query
    decodes to the same transaction, the question type and class of an
    address lookup, and the labels of the hostname joined by single dots;
    it is accepted exactly when it is not empty, has at most 255 bytes and
    no label of more than 63. *)
Theorem dns_query_roundtrip h tx : utf8 h = true → is_u 16 tx →
  ((∃ q, encode_query h tx = Ok q) ↔ h ≠ [] ∧ zlen h ≤ 255 ∧ Forall (λ l, zlen l ≤ 63) (labels h)) ∧
  ∀ q, encode_query h tx = Ok q → decode_query_name q = Ok (tx, join_dot (labels h), 1, 1).
Proof.
  intros Hu Htx. split.
  - split.
    + intros [q Hq]. destruct (encode_query_eq h tx q Hu Hq) as [_ Hg]. unfold encode_query in Hq.
      case_match eqn:Hc; [done|]. apply orb_false_iff in Hc as [H1%bool_decide_eq_false H2%Z.ltb_ge].
      split; [done|]. split; [done|]. eapply Forall_impl; [exact Hg|]. by intros l (_ & ? & _).
    + intros (Hne & Hl & Hlab). unfold encode_query. rewrite bool_decide_false by done.
      rewrite (proj2 (Z.ltb_ge _ _)) by done. cbn [orb]. rewrite encode_labels_ok; [cbn; eauto|].
      unfold labels in Hlab. rewrite Forall_forall in Hlab. apply Forall_forall. intros l Hin.
      destruct (decide (l = [])) as [->|]; [cbn; lia|]. apply Hlab. by apply list_elem_of_filter.
  - intros q. by apply query_decodes.
Qed.

Lemma dns_query_roundtrip_witness : utf8 (text "www.example.com") = true ∧ is_u 16 7 ∧
  ∀ q, encode_query (text "www.example.com") 7 = Ok q → decode_query_name q = Ok (7, text "www.example.com", 1, 1).
Proof.
  split; [reflexivity|]. split; [done|].
  exact (proj2 (dns_query_roundtrip (text "www.example.com") 7 ltac:(reflexivity) ltac:(done))).
Defined.

Lemma question_eq hdr ls : length hdr = 12%nat → Forall good_label ls →
  question (hdr ++ wire ls ++ 0 :: [0; 1; 0; 1]) = wire ls ++ 0 :: [0; 1; 0; 1].
Proof.
  intros Hh Hg. unfold question. set (q := hdr ++ _).
  assert (Hq : length q = (12 + (length (wire ls) + 5))%nat) by (unfold q; rewrite !length_app; cbn [length]; lia).
  assert (He : question_end (length q) q 12 = 12 + zlen (wire ls) + 1).
  { replace 12 with (zlen hdr) by lia. apply question_end_wire; [done|]. pose proof (wire_length ls). lia. }
  rewrite He, (proj2 (Z.leb_le _ _)) by lia. rewrite take_ge by lia. unfold q. by rewrite <- Hh, drop_app_length.
Qed.

Lemma answer_reads {E} ttl (ip rest : list Z) pre : is_u 32 ttl → zlen ip = 4 →
  let p := pre ++ [0; 1; 0; 1] ++ to_be 4 ttl ++ [0; 4] ++ ip ++ rest in
  be16 (E := E) p (zlen pre) = Ok 1 ∧ be16 (E := E) p (zlen pre + 2) = Ok 1 ∧ be32 (E := E) p (zlen pre + 4) = Ok ttl ∧
  be16 (E := E) p (zlen pre + 8) = Ok 4 ∧ slice p (zlen pre + 10) (zlen pre + 10 + 4) = Some ip.
Proof.
  intros Ht Hip p. unfold p. rewrite to_be_4. cbn [app].
  set (a := ttl / _ / _ / _ mod _). set (b := ttl / _ / _ mod _). set (c := ttl / 256 mod _). set (d := ttl mod _).
  set (l := 0 :: 1 :: 0 :: 1 :: a :: b :: c :: d :: 0 :: 4 :: ip ++ rest).
  assert (H16 : ∀ l1 x y l2, l = l1 ++ x :: y :: l2 → be16 (E := E) (pre ++ l) (zlen pre + zlen l1) = Ok (x * 256 + y)).
  { intros l1 x y l2 ->. rewrite be16_skip by lia. rewrite <- (Z.add_0_r (zlen l1)), be16_skip by lia. apply be16_here. }
  split; [rewrite <- (Z.add_0_r (zlen pre)); by apply (H16 [] 0 1 (drop 2 l))|].
  split; [by apply (H16 [0; 1] 0 1 (drop 4 l))|]. split.
  { rewrite be32_skip by lia. change l with ([0; 1; 0; 1] ++ to_be 4 ttl ++ [0; 4] ++ ip ++ rest).
    etrans; [apply (be32_skip [0; 1; 0; 1] (to_be 4 ttl ++ [0; 4] ++ ip ++ rest) 0); lia|]. by apply be32_to_be. }
  split; [by apply (H16 [0; 1; 0; 1; a; b; c; d] 0 4 (ip ++ rest))|].
  rewrite <- Z.add_assoc, slice_shift by lia. change l with ([0; 1; 0; 1; a; b; c; d; 0; 4] ++ ip ++ rest).
  change 10 with (zlen [0; 1; 0; 1; a; b; c; d; 0; 4]).
  rewrite <- (Z.add_0_r (zlen [0; 1; 0; 1; a; b; c; d; 0; 4])) at 1. rewrite slice_shift by lia.
  rewrite slice_in by (rewrite ?length_app; lia). change (Z.to_nat (4 - 0)) with 4%nat. change (Z.to_nat 0) with 0%nat.
  rewrite drop_0, take_app_length'; [done|lia].
Qed.

Lemma skip_question n p o o1 : skip_dns_name NAME_STEPS p o false 0 = Ok o1 → o1 + 4 ≤ zlen p →
  skip_questions (S n) p o = skip_questions n p (o1 + 4).
Proof. intros S1 L1. cbn [skip_questions]. rewrite S1. cbn [mbind res_bind]. by rewrite (proj2 (Z.ltb_ge _ _)). Qed.

Lemma find_address n p o o2 ip ttl : skip_dns_name NAME_STEPS p o false 0 = Ok o2 → o2 + 14 ≤ zlen p →
  be16 (E := DnsError) p o2 = Ok 1 → be16 (E := DnsError) p (o2 + 2) = Ok 1 → be32 (E := DnsError) p (o2 + 4) = Ok ttl →
  be16 (E := DnsError) p (o2 + 8) = Ok 4 → slice p (o2 + 10) (o2 + 10 + 4) = Some ip →
  find_answer (S n) p o = Ok (ip, ttl).
Proof.
  intros S2 L2 A0 A2 A4 A8 AS. cbn [find_answer]. rewrite S2. cbn [mbind res_bind].
  rewrite (proj2 (Z.ltb_ge _ _)) by lia. rewrite A0, A2, A4, A8. cbn [mbind res_bind].
  rewrite (proj2 (Z.ltb_ge _ _)) by lia. by rewrite AS.
Qed.

Lemma decode_response_parts p tx o1 : 12 ≤ zlen p → be16 (E := DnsError) p 0 = Ok tx →
  be16 (E := DnsError) p 2 = Ok 0x8180 → be16 (E := DnsError) p 4 = Ok 1 → be16 (E := DnsError) p 6 = Ok 1 →
  skip_questions 1 p 12 = Ok o1 → decode_response p (Some tx) = find_answer 1 p o1.
Proof.
  intros Hl R0 R2 R4 R6 S1. unfold decode_response.
  rewrite (proj2 (Z.ltb_ge _ _)), R0 by done. cbn [mbind res_bind]. rewrite Z.eqb_refl. cbn [negb].
  rewrite R2. cbn [mbind res_bind]. rewrite R4, R6. cbn [mbind res_bind]. change (Z.to_nat 1) with 1%nat. by rewrite S1.
Qed.

(** The name of the answer: a pointer back to the question. *)
Lemma skip_back hdr ls rest : length hdr = 12%nat → Forall good_label ls →
  let pre := hdr ++ wire ls ++ 0 :: [0; 1; 0; 1] in
  skip_dns_name NAME_STEPS (pre ++ 0xc0 :: 12 :: rest) (zlen pre) false 0 = Ok (zlen pre + 2).
Proof.
  intros Hh Hg pre. unfold NAME_STEPS. rewrite (skip_pointer 127). unfold pre at 1. rewrite <- !app_assoc. cbn [app].
  replace 12 with (zlen hdr) at 2 by lia. by apply skip_wire_jumped.
Qed.

Lemma decode_response_wire tx ls ip ttl : is_u 16 tx → Forall good_label ls → (length ls ≤ 127)%nat → is_u 32 ttl → zlen ip = 4 →
  decode_response (to_be 2 tx ++ to_be 2 0x8180 ++ to_be 2 1 ++ to_be 2 1 ++ [0; 0; 0; 0] ++ wire ls ++ 0 :: [0; 1; 0; 1] ++
    [0xc0; 0x0c] ++ [0; 1; 0; 1] ++ to_be 4 ttl ++ [0; 4] ++ ip) (Some tx) = Ok (ip, ttl).
Proof.
  intros Htx Hg Hn Ht Hip.
  set (hdr := to_be 2 tx ++ to_be 2 0x8180 ++ to_be 2 1 ++ to_be 2 1 ++ [0; 0; 0; 0]).
  assert (Hh : length hdr = 12%nat) by done.
  set (pre := hdr ++ wire ls ++ 0 :: [0; 1; 0; 1]).
  assert (Hpre : zlen pre = 12 + zlen (wire ls) + 1 + 4) by (unfold pre; rewrite !length_app; cbn [length]; lia).
  match goal with |- decode_response ?q _ = _ => set (p := q) end.
  assert (Hp1 : p = hdr ++ wire ls ++ 0 :: [0; 1; 0; 1] ++ [0xc0; 12] ++ [0; 1; 0; 1] ++ to_be 4 ttl ++ [0; 4] ++ ip)
    by (unfold p, hdr; by rewrite <- !app_assoc).
  assert (Hp2 : p = pre ++ 0xc0 :: 12 :: [0; 1; 0; 1] ++ to_be 4 ttl ++ [0; 4] ++ ip)
    by (rewrite Hp1; unfold pre; by rewrite <- !app_assoc).
  assert (Hp3 : p = (pre ++ [0xc0; 12]) ++ [0; 1; 0; 1] ++ to_be 4 ttl ++ [0; 4] ++ ip ++ [])
    by (rewrite Hp2, app_nil_r; by rewrite <- !app_assoc).
  assert (Hlen : zlen p = zlen pre + 16) by (rewrite Hp2, length_app; cbn [length]; rewrite !length_app, length_to_be; cbn [length]; lia).
  destruct (header_reads (E := DnsError) tx 0x8180 1 1 ([0; 0; 0; 0] ++ wire ls ++ 0 :: [0; 1; 0; 1] ++
    [0xc0; 0x0c] ++ [0; 1; 0; 1] ++ to_be 4 ttl ++ [0; 4] ++ ip) Htx ltac:(done) ltac:(done) ltac:(done)) as (R0 & R2 & R4 & R6).
  fold p in R0, R2, R4, R6. clearbody p.
  destruct (answer_reads (E := DnsError) ttl ip [] (pre ++ [0xc0; 12]) Ht Hip) as (A0 & A2 & A4 & A8 & AS).
  rewrite <- Hp3 in A0, A2, A4, A8, AS. rewrite length_app in A0, A2, A4, A8, AS. cbn [length] in A0, A2, A4, A8, AS.
  replace (Z.of_nat (length pre + 2)) with (zlen pre + 2) in A0, A2, A4, A8, AS by lia.
  rewrite (decode_response_parts p tx (zlen pre)); try done; try lia.
  - apply (find_address 0 p (zlen pre) (zlen pre + 2)); try done; try lia. rewrite Hp2. by apply skip_back.
  - rewrite (skip_question 0 p 12 (12 + zlen (wire ls) + 1)); [cbn [skip_questions]; f_equal; lia| |lia].
    rewrite Hp1. replace 12 with (zlen hdr) at 1 2 by lia. apply skip_wire; [done|unfold NAME_STEPS; lia].
Qed.

(** A response that says that there is no such name. *)
Lemma decode_nxdomain p tx : 12 ≤ zlen p → be16 (E := DnsError) p 0 = Ok tx → be16 (E := DnsError) p 2 = Ok 0x8183 →
  decode_response p (Some tx) = Err NxDomain.
Proof.
  intros Hl R0 R2. unfold decode_response. rewrite (proj2 (Z.ltb_ge _ _)), R0 by done. cbn [mbind res_bind].
  rewrite Z.eqb_refl. cbn [negb]. by rewrite R2.
Qed.

Lemma answer_roundtrip h tx q ip ttl : utf8 h = true → is_u 16 tx → encode_query h tx = Ok q →
  (length (labels h) ≤ 127)%nat → zlen ip = 4 → is_u 32 ttl →
  decode_response (build_response q ip ttl) (Some tx) = Ok (ip, ttl) ∧
  decode_response (build_nxdomain_response q) (Some tx) = Err NxDomain.
Proof.
  intros Hu Htx Hq Hn Hip Ht. destruct (encode_query_eq h tx q Hu Hq) as [-> Hg].
  set (hdr := to_be 2 tx ++ [1; 0; 0; 1; 0; 0; 0; 0; 0; 0]). assert (Hh : length hdr = 12%nat) by done.
  assert (Htake : take 2 (hdr ++ wire (labels h) ++ 0 :: [0; 1; 0; 1]) = to_be 2 tx) by done.
  pose proof (question_eq hdr (labels h) Hh Hg) as Hquest. unfold build_response, build_nxdomain_response.
  rewrite (proj2 (Z.ltb_ge _ _)) by (rewrite length_app; lia). unfold response_header. rewrite Htake, Hquest. split.
  - rewrite <- !app_assoc. exact (decode_response_wire tx (labels h) ip ttl Htx Hg Hn Ht Hip).
  - rewrite <- !app_assoc. set (rest := to_be 2 0 ++ to_be 2 0 ++ wire (labels h) ++ 0 :: [0; 1; 0; 1]).
    destruct (header_reads (E := DnsError) tx 0x8183 1 0 rest Htx ltac:(done) ltac:(done) ltac:(done)) as (R0 & R2 & _).
    apply decode_nxdomain; [|done|done]. unfold rest. rewrite !length_app, !length_to_be. lia.
Qed.

(** The resolver understands its own answers: the response built for a
    query is accepted under the query's transaction and carries exactly the
    address and lifetime put into it, and the response for an unknown name
    is recognised as such.  (A name of 128 labels is beyond the 128 steps
    that the reader takes over a name.) *)
Theorem dns_answer_roundtrip h tx q ip ttl : utf8 h = true → is_u 16 tx → encode_query h tx = Ok q →
  (length (labels h) ≤ 127)%nat → zlen ip = 4 → is_u 32 ttl →
  decode_response (build_response q ip ttl) (Some tx) = Ok (ip, ttl) ∧
  decode_response (build_nxdomain_response q) (Some tx) = Err NxDomain.
Proof. apply answer_roundtrip. Qed.

Lemma dns_answer_roundtrip_witness :
  match encode_query (text "example.com") 9 with
  | Ok q => decode_response (build_response q [1; 2; 3; 4] 60) (Some 9) = Ok ([1; 2; 3; 4], 60)
  | _ => False
  end.
Proof.
  destruct (encode_query (text "example.com") 9) as [q| |] eqn:E; [|vm_compute in E; discriminate..].
  apply (dns_answer_roundtrip (text "example.com") 9 q [1; 2; 3; 4] 60); try done. vm_compute. lia.
Defined.

(** ** The cache *)

(** The name that a query asks for, as the cache files it. *)
Definition cache_name (h : list Z) : list Z := lower <$> join_dot (labels h).

(** Names that are answered without the cache. *)
Definition plain_name (n : list Z) : Prop :=
  n ≠ text "localhost" ∧ n ≠ text "vanta" ∧ ends_with n (text ".invalid") = false.

Lemma handle_miss r h tx q addr t : utf8 h = true → is_u 16 tx → encode_query h tx = Ok q →
  plain_name (cache_name h) → cached r (cache_name h) t = None →
  ∃ ip, zlen ip = 4 ∧ let '(r', a) := handle_dns_datagram r q addr t in
    a = Ok (Some (build_response q ip 300)) ∧
    dns_cache r' !! cache_name h = Some {| ce_ip := ip; ce_ttl := 300; expire_tick := u64 (t + 300 * 1000) |}.
Proof.
  intros Hu Htx Hq (N1 & N2 & N3) Hmiss. unfold handle_dns_datagram. rewrite (query_decodes h tx q Hu Htx Hq).
  change ((1 =? 1)) with true. cbn [negb orb]. fold (cache_name h). rewrite !bool_decide_false by done. rewrite Hmiss, N3.
  eexists. split; [|split; [done|apply lookup_insert_eq]]. by case_match.
Qed.

Lemma handle_hit r h tx q addr t ip ttl : utf8 h = true → is_u 16 tx → encode_query h tx = Ok q →
  plain_name (cache_name h) → cached r (cache_name h) t = Some (ip, ttl) →
  let '(r', a) := handle_dns_datagram r q addr t in
  a = Ok (Some (build_response q ip ttl)) ∧ dns_cache r' = dns_cache r ∧ outbound_queries r' = outbound_queries r.
Proof.
  intros Hu Htx Hq (N1 & N2 & N3) Hhit. unfold handle_dns_datagram. rewrite (query_decodes h tx q Hu Htx Hq).
  change ((1 =? 1)) with true. cbn [negb orb]. fold (cache_name h). rewrite !bool_decide_false by done. by rewrite Hhit.
Qed.

(** A name that was looked up is answered from the cache for its
    lifetime: a second query for the name, in whatever letter case and under
    its own transaction, within 300 seconds gets the same address without
    any outbound query, with the seconds that remain (at least one) as its
    lifetime. *)
Theorem dns_resolve_cached r h1 tx1 q1 h2 tx2 q2 addr t1 t2 :
  utf8 h1 = true → utf8 h2 = true → is_u 16 tx1 → is_u 16 tx2 →
  encode_query h1 tx1 = Ok q1 → encode_query h2 tx2 = Ok q2 →
  (length (labels h1) ≤ 127)%nat → (length (labels h2) ≤ 127)%nat →
  cache_name h2 = cache_name h1 → plain_name (cache_name h1) → cached r (cache_name h1) t1 = None →
  0 ≤ t1 ≤ t2 → t2 < t1 + 300000 → t1 + 300000 < 2 ^ 64 →
  let '(r1, a1) := handle_dns_datagram r q1 addr t1 in
  let '(r2, a2) := handle_dns_datagram r1 q2 addr t2 in
  ∃ p1 p2 ip, a1 = Ok (Some p1) ∧ a2 = Ok (Some p2) ∧ decode_response p1 (Some tx1) = Ok (ip, 300) ∧
    decode_response p2 (Some tx2) = Ok (ip, Z.max ((t1 + 300000 - t2) / 1000) 1) ∧
    outbound_queries r2 = outbound_queries r1.
Proof.
  intros Hu1 Hu2 Htx1 Htx2 Hq1 Hq2 Hl1 Hl2 Hname Hplain Hmiss Ht Hlt Hbig.
  destruct (handle_miss r h1 tx1 q1 addr t1 Hu1 Htx1 Hq1 Hplain Hmiss) as (ip & Hip & H1).
  destruct (handle_dns_datagram r q1 addr t1) as [r1 a1]. destruct H1 as [-> Hcache].
  assert (Hd : 0 ≤ (t1 + 300000 - t2) / 1000 ≤ 300)
    by (split; [apply Z.div_pos; lia|apply Z.div_le_upper_bound; lia]).
  assert (Hhit : cached r1 (cache_name h2) t2 = Some (ip, Z.max ((t1 + 300000 - t2) / 1000) 1)).
  { unfold cached. rewrite Hname, Hcache. cbn [expire_tick ce_ip]. rewrite wrap_small by (unfold is_u; lia).
    rewrite (proj2 (Z.ltb_lt _ _)) by lia. replace (300 * 1000) with 300000 by lia. by rewrite wrap_small by (unfold is_u; lia). }
  rewrite <- Hname in Hplain. pose proof (handle_hit r1 h2 tx2 q2 addr t2 _ _ Hu2 Htx2 Hq2 Hplain Hhit) as H2.
  destruct (handle_dns_datagram r1 q2 addr t2) as [r2 a2]. destruct H2 as (-> & _ & Ho).
  eexists _, _, ip. split; [done|]. split; [done|].
  split; [by apply (answer_roundtrip h1)|]. split; [|done]. apply (answer_roundtrip h2); try done. unfold is_u. lia.
Qed.

Definition fresh_resolver : resolver :=
  {| dns_cache := ∅; outbound_queries := 0; cache_hits := 0; tx_id_counter := 0x2000 |}.

Lemma dns_resolve_cached_witness :
  match encode_query (text "Vanta.Org") 1, encode_query (text "vanta.org") 2 with
  | Ok q1, Ok q2 =>
    let '(r1, a1) := handle_dns_datagram fresh_resolver q1 [10; 0; 2; 15] 5000 in
    let '(r2, a2) := handle_dns_datagram r1 q2 [10; 0; 2; 15] 65000 in
    outbound_queries r2 = outbound_queries r1
  | _, _ => False
  end.
Proof.
  destruct (encode_query (text "Vanta.Org") 1) as [q1| |] eqn:E1; [|vm_compute in E1; discriminate..].
  destruct (encode_query (text "vanta.org") 2) as [q2| |] eqn:E2; [|vm_compute in E2; discriminate..].
  pose proof (dns_resolve_cached fresh_resolver (text "Vanta.Org") 1 q1 (text "vanta.org") 2 q2 [10; 0; 2; 15] 5000 65000
    ltac:(reflexivity) ltac:(reflexivity) ltac:(done) ltac:(done) E1 E2 ltac:(by apply Nat.leb_le) ltac:(by apply Nat.leb_le)
    ltac:(vm_compute; reflexivity) ltac:(split; [vm_compute; discriminate|split; [vm_compute; discriminate|vm_compute; reflexivity]])
    ltac:(vm_compute; reflexivity) ltac:(lia) ltac:(lia) ltac:(lia)) as H.
  destruct (handle_dns_datagram fresh_resolver q1 _ _) as [r1 a1]. destruct (handle_dns_datagram r1 q2 _ _) as [r2 a2].
  destruct H as (p1 & p2 & ip & _ & _ & _ & _ & Ho). exact Ho.
Defined.

(** ** What the code does at the edges *)

(** [a.a. ... .a] with 128 labels: 255 bytes, accepted as a hostname. *)
Definition long_name : list Z := join_dot (replicate 128 [97]).

(** The longest names are asked for, but their answers cannot be read: the
    reader gives up after 128 steps. *)
Theorem dns_long_name_unreadable :
  match encode_query long_name 1 with
  | Ok q => decode_response (build_response q [1; 2; 3; 4] 60) (Some 1) = Err FormatError
  | _ => False
  end.
Proof. vm_compute. reflexivity. Qed.

(** A response is cached without a matching query: whatever transaction it
    carries, its answer is used for later queries. *)
Theorem dns_unsolicited_response_cached tx q1 q2 : is_u 16 tx →
  encode_query (text "bank.example") tx = Ok q1 → encode_query (text "bank.example") 1 = Ok q2 →
  let r := (record_dns_response fresh_resolver (build_response q1 [6; 6; 6; 6] 60) 0).1 in
  (handle_dns_datagram r q2 [10; 0; 2; 15] 1).2 = Ok (Some (build_response q2 [6; 6; 6; 6] 59)).
Proof.
  intros Htx Hq1 Hq2. unfold encode_query in Hq1, Hq2. rewrite to_be_2 in Hq1. cbn in Hq1, Hq2.
  injection Hq1 as <-. injection Hq2 as <-. vm_compute. reflexivity.
Qed.
