(* ===== verification/Heap.v ===== *)
(** * The kernel heap ([rust/kernel/src/heap.rs])

    Slab caches of fixed-size objects carved from page frames, the size
    classes of [kmalloc], and the direct route to the frame allocator for
    larger requests.  [words] is the memory seen through the direct map, by
    aligned address: a free object holds the address of the next one. *)

From stdpp Require Import gmap.
From S2P Require Import Prelude Words Vfs Frames.

Definition HEAP_BASE : Z := 0xffffff0000000000.
Definition HEAP_SIZE : Z := 32 * 1024 * 1024.

Record HeapStats := { hs_base : Z; hs_size : Z; hs_used : Z; hs_free : Z }.

Record CacheInner := { current_page : option Z; next_offset : Z; freelist : option Z }.
Definition inner_empty : CacheInner := {| current_page := None; next_offset := 0; freelist := None |}.

Record KMemCache := {
  object_size : Z; alignment : Z; inner : CacheInner; alloc_count : Z; reuse_count : Z; free_count : Z }.
Definition cache_new (object_size alignment : Z) : KMemCache :=
  {| object_size := object_size; alignment := alignment; inner := inner_empty;
     alloc_count := 0; reuse_count := 0; free_count := 0 |}.

Definition counted (c : KMemCache) (i : CacheInner) (allocs reuses frees : Z) : KMemCache :=
  {| object_size := object_size c; alignment := alignment c; inner := i;
     alloc_count := u64 (alloc_count c + allocs); reuse_count := u64 (reuse_count c + reuses);
     free_count := u64 (free_count c + frees) |}.

(** The size an object takes in its page. *)
Definition obj_size (c : KMemCache) : Z :=
  let align := Z.max (alignment c) 8 in
  let raw_size := Z.max (object_size c) 8 in
  Z.land (u64 (raw_size + align - 1)) (bnot 64 (align - 1)).

Section heap.
Context {A : Type} `{FA : !FrameAllocator A} (hhdm : option Z).

(** [KMemCache::alloc] *)
Definition kmem_alloc (c : KMemCache) (words : Z → Z) (a : A) : KMemCache * A * option Z :=
  let i := inner c in
  match freelist i with
  | Some curr =>
    let next := words curr in
    (counted c {| current_page := current_page i; next_offset := next_offset i;
                  freelist := if negb (next =? 0) then Some next else None |} 1 1 0, a, Some curr)
  | None =>
    let size := obj_size c in
    let fresh_page :=
      match alloc_frame a with
      | (a, None) => (c, a, None)
      | (a, Some frame) =>
        match phys_to_virt hhdm frame with
        | None => (c, a, None)
        | Some vaddr =>
          (counted c {| current_page := Some vaddr; next_offset := size; freelist := None |} 1 0 0, a, Some vaddr)
        end
      end in
    match current_page i with
    | Some page_vaddr =>
      if next_offset i + size <=? 4096 then
        (counted c {| current_page := Some page_vaddr; next_offset := next_offset i + size; freelist := None |} 1 0 0, a,
         Some (page_vaddr + next_offset i))
      else fresh_page
    | None => fresh_page
    end
  end.

(** [KMemCache::free] *)
Definition kmem_free (c : KMemCache) (words : Z → Z) (ptr : Z) : KMemCache * (Z → Z) :=
  if ptr =? 0 then (c, words) else
  let i := inner c in
  let next := default 0 (freelist i) in
  (counted c {| current_page := current_page i; next_offset := next_offset i; freelist := Some ptr |} 0 0 1,
   λ x, if decide (x = ptr) then next else words x).

(** ** [kmalloc] *)

(** The size class of a request, by the branches of [alloc] and [dealloc]. *)
Definition class_of (size : Z) : option Z :=
  if size <=? 32 then Some 32 else if size <=? 64 then Some 64 else if size <=? 128 then Some 128
  else if size <=? 256 then Some 256 else if size <=? 512 then Some 512 else if size <=? 1024 then Some 1024
  else if size <=? 2048 then Some 2048 else None.

(** [num_pages.next_power_of_two().trailing_zeros()] *)
Definition large_order (size : Z) : Z := Z.log2_up ((size + 4096 - 1) / 4096).

(** [memory::alloc_frames] *)
Context (alloc_frames : A → Z → A * option Z).

Record heap := {
  caches : Z → KMemCache; words : Z → Z; hframes : A; initialized : bool;
  total_allocated : Z; total_freed : Z }.

Definition heap_new (a : A) (w : Z → Z) : heap :=
  {| caches := λ size, cache_new size size; words := w; hframes := a; initialized := false;
     total_allocated := 0; total_freed := 0 |}.

Definition heap_init (h : heap) : heap * bool :=
  ({| caches := caches h; words := words h; hframes := hframes h; initialized := true;
      total_allocated := total_allocated h; total_freed := total_freed h |}, negb (initialized h)).

Definition set_cache (h : heap) (k : Z) (c : KMemCache) (w : Z → Z) (a : A) (allocated freed : Z) : heap :=
  {| caches := λ x, if decide (x = k) then c else caches h x; words := w; hframes := a; initialized := initialized h;
     total_allocated := u64 (total_allocated h + allocated); total_freed := u64 (total_freed h + freed) |}.

(** [GlobalAlloc::alloc]; 0 is the null pointer. *)
Definition heap_alloc (h : heap) (layout_size layout_align : Z) : heap * Z :=
  if layout_size =? 0 then (h, layout_align) else
  if negb (initialized h) then (h, 0) else
  let size := Z.max layout_size layout_align in
  match class_of size with
  | Some k =>
    let '(c, a, p) := kmem_alloc (caches h k) (words h) (hframes h) in
    match p with
    | Some p => (set_cache h k c (words h) a (if p =? 0 then 0 else k) 0, p)
    | None => (set_cache h k c (words h) a 0 0, 0)
    end
  | None =>
    let order := large_order size in
    match alloc_frames (hframes h) order with
    | (a, None) => (set_cache h 0 (caches h 0) (words h) a 0 0, 0)
    | (a, Some frame) =>
      match phys_to_virt hhdm frame with
      | None => (set_cache h 0 (caches h 0) (words h) a 0 0, 0)
      | Some vaddr =>
        (set_cache h 0 (caches h 0) (words h) a (if vaddr =? 0 then 0 else Z.shiftl 1 order * 4096) 0, vaddr)
      end
    end
  end.

(** [GlobalAlloc::dealloc] *)
Definition heap_dealloc (h : heap) (ptr layout_size layout_align : Z) : heap :=
  if (ptr =? 0) || (layout_size =? 0) then h else
  let size := Z.max layout_size layout_align in
  match class_of size with
  | Some k =>
    let '(c, w) := kmem_free (caches h k) (words h) ptr in set_cache h k c w (hframes h) 0 k
  | None =>
    let a := match match hhdm with Some o => checked_sub ptr o | None => None end with
             | Some phys => (free_frame (hframes h) phys).1
             | None => hframes h
             end in
    set_cache h 0 (caches h 0) (words h) a 0 (Z.shiftl 1 (large_order size) * 4096)
  end.

Definition heap_stats (h : heap) : HeapStats :=
  let used := saturating_sub (total_allocated h) (total_freed h) in
  {| hs_base := HEAP_BASE; hs_size := HEAP_SIZE; hs_used := used; hs_free := saturating_sub HEAP_SIZE used |}.
End heap.
