(* ===== verification/HeapSpec.v ===== *)
(** * Heap allocations do not overlap

    Any mix of allocations, deallocations, writes of the owners into their
    memory and work of other users of the frame allocator: what the heap
    hands out is aligned, large enough, disjoint from everything else that
    is in use, and left alone until it is given back. *)

From stdpp Require Import gmap.
From S2P Require Import Prelude Words Vfs Frames Heap.

(** An allocation in use: address and layout. *)
Record allocation := { ptr : Z; lsize : Z; lalign : Z }.
Definition class (x : allocation) : option Z := class_of (Z.max (lsize x) (lalign x)).

(** A layout served from a slab cache. *)
Definition small_layout (size align : Z) : Prop :=
  0 < size ∧ (∃ i, 0 ≤ i ∧ align = 2 ^ i) ∧ Z.max size align ≤ 2048.

Definition CLASSES : list Z := [32; 64; 128; 256; 512; 1024; 2048].

Lemma class_of_spec n k : class_of n = Some k → n ≤ k ∧ k ∈ CLASSES.
Proof.
  unfold class_of, CLASSES. intros H.
  repeat (match type of H with (if ?a <=? ?b then _ else _) = _ => destruct (Z.leb_spec a b) end;
    [injection H as <-; split; [lia|set_solver]|]). done.
Qed.

Lemma class_of_small n : n ≤ 2048 → is_Some (class_of n).
Proof.
  intros Hn. unfold class_of.
  repeat (match goal with |- context [?a <=? ?b] => destruct (Z.leb_spec a b) end; [eauto|]). lia.
Qed.

(** A class is a power of two that divides the page. *)
Lemma class_pow k : k ∈ CLASSES → ∃ i, 5 ≤ i ≤ 11 ∧ k = 2 ^ i.
Proof.
  unfold CLASSES. rewrite !elem_of_cons, elem_of_nil.
  intros [->|[->|[->|[->|[->|[->|[->|[]]]]]]]]; [exists 5|exists 6|exists 7|exists 8|exists 9|exists 10|exists 11]; done.
Qed.

Lemma class_obj_size k c : k ∈ CLASSES → object_size c = k → alignment c = k → obj_size c = k.
Proof.
  unfold CLASSES, obj_size. rewrite !elem_of_cons, elem_of_nil. intros Hk -> ->.
  destruct Hk as [->|[->|[->|[->|[->|[->|[->|[]]]]]]]]; reflexivity.
Qed.

Lemma pow_divide_page v j i k n : 0 ≤ i ≤ n → k = 2 ^ n → n ≤ 12 → v mod 4096 = 0 → (v + j * k) mod 2 ^ i = 0.
Proof.
  intros Hi -> Hn Hv. assert (Hp : 2 ^ i ≠ 0) by (pose proof (Z.pow_pos_nonneg 2 i); lia).
  assert (Hd : ∀ m, i ≤ m → (2 ^ i | 2 ^ m)).
  { intros m Hm. exists (2 ^ (m - i)). rewrite <- Z.pow_add_r by lia. f_equal. lia. }
  apply Z.mod_divide; [done|]. apply Z.divide_add_r.
  - etrans; [apply (Hd 12); lia|]. by apply Z.mod_divide in Hv.
  - apply Z.divide_mul_r. apply Hd. lia.
Qed.

(** The free list of a cache, as linked through memory. *)
Fixpoint chain (w : Z → Z) (head : option Z) (l : list Z) : Prop :=
  match l with
  | [] => head = None
  | x :: l' => head = Some x ∧ x ≠ 0 ∧ chain w (if w x =? 0 then None else Some (w x)) l'
  end.

Lemma chain_ext w w' head l : chain w head l → (∀ x, x ∈ l → w' x = w x) → chain w' head l.
Proof.
  revert head. induction l as [|x l IH]; intros head; [done|]. intros (Hh & Hx & Hc) He. split; [done|]. split; [done|].
  rewrite He by left. apply IH; [done|]. intros y Hy. apply He. by right.
Qed.

Section spec.
Context {A : Type} `{FA : !FrameAllocator A} (o : Z) (alloc_frames : A → Z → A * option Z).
(** The direct map is page aligned and covers the 64 GiB of frames. *)
Context (Hpos : 0 < o ≤ 2 ^ 64 - 2 ^ 36) (Haligned : o mod 4096 = 0).
Implicit Types (h : @heap A) (c : KMemCache) (w : Z → Z).

(** Object [p] of class [k] lies in the part of a page already carved. *)
Definition object_at c (pages : list Z) (k p : Z) : Prop :=
  ∃ v j, v ∈ pages ∧ p = v + j * k ∧ 0 ≤ j ∧ (j + 1) * k ≤ 4096 ∧
    (current_page (inner c) = Some v → (j + 1) * k ≤ next_offset (inner c)).

(** A cache of class [k] with pages [pages], free objects [spare] and objects
    in use [live]. *)
Record slab_ok c w (live pages spare : list Z) (k : Z) : Prop := {
  sl_size : object_size c = k;
  sl_align : alignment c = k;
  sl_chain : chain w (freelist (inner c)) spare;
  sl_nodup : NoDup (spare ++ live);
  sl_objects p : p ∈ spare ++ live → object_at c pages k p;
  sl_current v : current_page (inner c) = Some v → v ∈ pages ∧ ∃ j, 0 ≤ j ∧ next_offset (inner c) = j * k }.

(** Pages are page aligned and clear of the null page. *)
Definition pages_ok (H : gset Z) (pages : list Z) : Prop :=
  ∀ v, v ∈ pages → (∃ f, f ∈ H ∧ v = o + f) ∧ 0 < v < 2 ^ 64 ∧ v mod 4096 = 0.

Lemma slab_ext c w w' live live' pages spare k : slab_ok c w live pages spare k →
  (∀ x, x ∈ spare → w' x = w x) → live ≡ₚ live' → slab_ok c w' live' pages spare k.
Proof.
  intros [Hs Ha Hc Hn Ho Hu] Hw Hl. split; [done|done|by eapply chain_ext|by rewrite <- Hl|intros p; rewrite <- Hl; apply Ho|done].
Qed.

Lemma page_address a H f : holds a H → f ∈ H → 0 < o + f < 2 ^ 64 ∧ (o + f) mod 4096 = 0.
Proof.
  intros Hh Hf. destruct (frame_address a H f Hh Hf) as [Hr Hm]. split; [lia|].
  rewrite Z.add_mod, Haligned, Hm by lia. done.
Qed.

Lemma phys_ok a H f : holds a H → f ∈ H → phys_to_virt (Some o) f = Some (o + f).
Proof.
  intros Hh Hf. destruct (page_address a H f Hh Hf) as [Hr _]. cbn. unfold checked_add. by rewrite (proj2 (Z.ltb_lt _ _)) by lia.
Qed.

(** Two slots of aligned pages coincide only in the same place. *)
Lemma slots_apart v v' j j' k : v mod 4096 = 0 → v' mod 4096 = 0 → 0 < k → 0 ≤ j → 0 ≤ j' →
  (j + 1) * k ≤ 4096 → (j' + 1) * k ≤ 4096 → v + j * k = v' + j' * k → v = v' ∧ j = j'.
Proof.
  intros Hv Hv' Hk Hj Hj' Hle Hle' He.
  pose proof (Z.div_mod v 4096 ltac:(lia)). pose proof (Z.div_mod v' 4096 ltac:(lia)).
  assert (v / 4096 = v' / 4096) by nia. assert (v = v') as <- by lia. split; [done|]. nia.
Qed.

Lemma class_pos k : k ∈ CLASSES → 0 < k ≤ 2048.
Proof. intros Hk. destruct (class_pow k Hk) as (i & Hi & ->). change 2048 with (2 ^ 11). split; [by apply Z.pow_pos_nonneg; lia|]. apply Z.pow_le_mono_r; lia. Qed.

Lemma object_pos c H pages k p : pages_ok H pages → k ∈ CLASSES → object_at c pages k p → 0 < p.
Proof. intros Hp Hk (v & j & Hv & -> & Hj & _). destruct (Hp v Hv) as (_ & ? & _). pose proof (class_pos k Hk). nia. Qed.

(** *** The operations of one cache *)

Lemma slab_reuse c w live pages spare k p n : slab_ok c w live pages spare k → freelist (inner c) = Some p →
  ∃ spare', spare = p :: spare' ∧
    slab_ok (counted c {| current_page := current_page (inner c); next_offset := next_offset (inner c);
                          freelist := if negb (w p =? 0) then Some (w p) else None |} 1 n 0)
      w (p :: live) pages spare' k.
Proof.
  intros [Hs Ha Hc Hn Ho Hu] Hf. rewrite Hf in Hc. destruct spare as [|q spare]; [done|].
  destruct Hc as ([= <-] & Hq & Hc). exists spare. split; [done|].
  assert (HP : (p :: spare) ++ live ≡ₚ spare ++ p :: live) by (cbn; by rewrite Permutation_middle).
  split; try done; cbn [inner counted freelist].
  - by destruct (w p =? 0).
  - by rewrite <- HP.
  - intros q. rewrite <- HP. apply Ho.
Qed.

Lemma slab_carve c w live H pages k v n : slab_ok c w live pages [] k → pages_ok H pages → k ∈ CLASSES →
  current_page (inner c) = Some v → next_offset (inner c) + k ≤ 4096 →
  slab_ok (counted c {| current_page := Some v; next_offset := next_offset (inner c) + k; freelist := None |} 1 n 0)
    w ((v + next_offset (inner c)) :: live) pages [] k.
Proof.
  intros [Hs Ha Hc Hn Ho Hu] Hp Hk Hv Hle. destruct (Hu v Hv) as (Hin & j & Hj & Hoff).
  pose proof (class_pos k Hk) as Hk0. split; try done; cbn [inner counted freelist current_page next_offset app] in *.
  - constructor; [|done]. intros (v' & j' & Hv' & He & Hj' & Hle' & Hcur)%Ho. rewrite Hoff in *.
    destruct (Hp v Hin) as (_ & _ & Hm). destruct (Hp v' Hv') as (_ & _ & Hm').
    destruct (slots_apart v v' j j' k) as [<- <-]; try lia. specialize (Hcur Hv). cbn in *; lia.
  - intros p [->|Hpl]%elem_of_cons.
    + exists v, j. rewrite Hoff in *. split_and!; [done|lia|done|lia|intros _; cbn; lia].
    + destruct (Ho p Hpl) as (v' & j' & Hv' & -> & Hj' & Hle' & Hcur). exists v', j'.
      split_and!; try done. intros [= <-]. specialize (Hcur Hv). cbn in *; lia.
  - intros v' [= <-]. split; [done|]. exists (j + 1). lia.
Qed.

Lemma slab_fresh c w live H pages k v n : slab_ok c w live pages [] k → pages_ok H pages → k ∈ CLASSES →
  v ∉ pages → v mod 4096 = 0 →
  slab_ok (counted c {| current_page := Some v; next_offset := k; freelist := None |} 1 n 0)
    w (v :: live) (v :: pages) [] k.
Proof.
  intros [Hs Ha Hc Hn Ho Hu] Hp Hk Hv Hm. pose proof (class_pos k Hk) as Hk0.
  split; try done; cbn [inner counted freelist current_page next_offset app] in *.
  - constructor; [|done]. intros (v' & j' & Hv' & He & Hj' & Hle' & _)%Ho.
    destruct (Hp v' Hv') as (_ & _ & Hm'). destruct (slots_apart v v' 0 j' k) as [<- _]; try done; lia.
  - intros p [->|Hpl]%elem_of_cons.
    + exists v, 0. split_and!; [left|lia|lia|lia|intros _; cbn; lia].
    + destruct (Ho p Hpl) as (v' & j' & Hv' & -> & Hj' & Hle' & _). exists v', j'.
      split_and!; try done; [by right|]. by intros [= <-].
  - intros v' [= <-]. split; [left|]. exists 1. lia.
Qed.

Lemma slab_free c w live H pages spare k p n : slab_ok c w (p :: live) pages spare k → pages_ok H pages → k ∈ CLASSES →
  slab_ok (counted c {| current_page := current_page (inner c); next_offset := next_offset (inner c);
                        freelist := Some p |} 0 0 n)
    (λ x, if decide (x = p) then default 0 (freelist (inner c)) else w x) live pages (p :: spare) k.
Proof.
  intros [Hs Ha Hc Hn Ho Hu] Hp Hk.
  assert (HP : spare ++ p :: live ≡ₚ (p :: spare) ++ live) by (cbn; by rewrite Permutation_middle).
  assert (Hns : p ∉ spare). { rewrite HP in Hn. cbn in Hn. apply NoDup_cons in Hn as [Hn _]. intros Hin. apply Hn, elem_of_app. by left. }
  assert (Hpp : 0 < p) by (eapply object_pos; [done..|]; apply Ho, elem_of_app; right; left).
  split; try done; cbn [inner counted freelist].
  - split; [done|]. split; [lia|]. rewrite decide_True by done.
    eapply (chain_ext w); [|intros x Hx; rewrite decide_False; [done|by intros ->]].
    destruct spare as [|q spare]; cbn in *; [by rewrite Hc|]. destruct Hc as (-> & Hq & Hc). cbn.
    rewrite (proj2 (Z.eqb_neq _ _)) by done. done.
  - by rewrite <- HP.
  - intros q. rewrite <- HP. apply Ho.
Qed.

(** What a cache does on an allocation: an object of its own, or no frame. *)
Lemma kmem_alloc_ok c w a H live pages spare k c' a' r : holds a H → pages_ok H pages →
  slab_ok c w live pages spare k → k ∈ CLASSES → kmem_alloc (Some o) c w a = (c', a', r) →
  match r with
  | None => c' = c ∧ holds a' H ∧ alloc_frame a = (a', None)
  | Some p => 0 < p ∧ ∃ H' pages' spare', holds a' H' ∧ H ⊆ H' ∧ pages_ok H' pages' ∧
      slab_ok c' w (p :: live) pages' spare' k ∧ (∀ v, v ∈ pages' → v ∈ pages ∨ ∀ f, f ∈ H → v ≠ o + f) ∧
      (∀ x, x ∈ spare' → x ∈ spare)
  end.
Proof.
  intros Hh Hp Hs Hk. unfold kmem_alloc.
  assert (Hpos' : ∀ c' p l pg s, pages_ok H pg ∨ (∃ H', pages_ok H' pg) → slab_ok c' w (p :: l) pg s k → 0 < p).
  { intros c'' p l pg s HP Hs'. assert (∃ H', pages_ok H' pg) as [H' HP'] by (destruct HP as [?|[? ?]]; eauto).
    apply (object_pos c'' H' pg k p HP' Hk). apply (sl_objects _ _ _ _ _ _ Hs'), elem_of_app. right. left. }
  destruct (freelist (inner c)) as [curr|] eqn:Hf.
  { intros [= <- <- <-]. destruct (slab_reuse c w live pages spare k curr 1 Hs Hf) as (spare' & -> & Hs').
    split; [by eapply Hpos'; [left|]|]. exists H, pages, spare'. split_and!; try done; [by left|by right]. }
  assert (spare = []) as -> by (pose proof (sl_chain _ _ _ _ _ _ Hs) as Hc; rewrite Hf in Hc; by destruct spare as [|? ?]; [|destruct Hc]).
  rewrite (class_obj_size k c Hk (sl_size _ _ _ _ _ _ Hs) (sl_align _ _ _ _ _ _ Hs)).
  assert (Hfresh : ∀ q, match alloc_frame a with
      | (a, None) => (c, a, None)
      | (a, Some frame) => match phys_to_virt (Some o) frame with
        | None => (c, a, None)
        | Some vaddr => (counted c {| current_page := Some vaddr; next_offset := k; freelist := None |} 1 0 0, a, Some vaddr)
        end end = q → q = (c', a', r) →
    match r with
    | None => c' = c ∧ holds a' H ∧ alloc_frame a = (a', None)
    | Some p => 0 < p ∧ ∃ H' pages' spare', holds a' H' ∧ H ⊆ H' ∧ pages_ok H' pages' ∧
      slab_ok c' w (p :: live) pages' spare' k ∧ (∀ v, v ∈ pages' → v ∈ pages ∨ ∀ f, f ∈ H → v ≠ o + f) ∧
      (∀ x, x ∈ spare' → x ∈ [])
    end).
  { intros q <-. destruct (alloc_frame a) as [a1 [f|]] eqn:Ha.
    2: { intros [= <- <- <-]. by pose proof (alloc_frame_none a H a1 Hh Ha). }
    destruct (alloc_frame_some a H a1 f Hh Ha) as [Hnf Hh1].
    destruct (page_address a1 _ f Hh1 ltac:(set_solver)) as [Hr Hm].
    rewrite (phys_ok a1 _ f Hh1) by set_solver. intros [= <- <- <-]. split; [lia|].
    exists ({[f]} ∪ H), (o + f :: pages), []. split_and!; [done|set_solver| | | |done].
    - intros v [->|Hv]%elem_of_cons; [split_and!; try lia; exists f; set_solver|].
      destruct (Hp v Hv) as ((g & Hg & ->) & Hv1 & Hv2). split_and!; try lia. exists g. set_solver.
    - eapply slab_fresh; try done. intros Hin. destruct (Hp _ Hin) as ((g & Hg & He) & _).
      assert (f = g) as -> by lia. done.
    - intros v [->|Hv]%elem_of_cons; [right|by left]. intros g Hg He. assert (f = g) as -> by lia. done. }
  destruct (current_page (inner c)) as [v|] eqn:Hv; [|by apply Hfresh].
  destruct (Z.leb_spec (next_offset (inner c) + k) 4096) as [Hle|]; [|by apply Hfresh].
  intros [= <- <- <-]. pose proof (slab_carve c w live H pages k v 0 Hs Hp Hk Hv Hle) as Hs'.
  split; [by eapply Hpos'; [left|]|]. exists H, pages, []. split_and!; try done. by left.
Qed.

(** ** The whole heap *)

Definition of_class (k : Z) (L : list allocation) : list Z := ptr <$> filter (λ x, class x = Some k) L.

(** [pages k]: the pages of class [k]; [spare k]: its free objects. *)
Record heap_ok h (L : list allocation) (H : gset Z) (pages spare : Z → list Z) : Prop := {
  hp_init : initialized h = true;
  hp_holds : holds (hframes h) H;
  hp_pages k : k ∈ CLASSES → pages_ok H (pages k);
  hp_apart k k' v : k ∈ CLASSES → k' ∈ CLASSES → v ∈ pages k → v ∈ pages k' → k = k';
  hp_slab k : k ∈ CLASSES → slab_ok (caches h k) (words h) (of_class k L) (pages k) (spare k) k;
  hp_small x : x ∈ L → small_layout (lsize x) (lalign x) }.

Lemma of_class_in L x k : x ∈ L → class x = Some k → ptr x ∈ of_class k L.
Proof. intros Hx Hk. apply list_elem_of_fmap. exists x. split; [done|]. by apply list_elem_of_filter. Qed.

Lemma of_class_cons k x L : of_class k (x :: L) = if decide (class x = Some k) then ptr x :: of_class k L else of_class k L.
Proof. unfold of_class. rewrite filter_cons. by case_decide. Qed.

#[local] Instance of_class_perm k : Proper ((≡ₚ) ==> (≡ₚ)) (of_class k).
Proof. intros L L' HL. unfold of_class. by rewrite HL. Qed.

Lemma small_class x : small_layout (lsize x) (lalign x) →
  ∃ k, class x = Some k ∧ k ∈ CLASSES ∧ lsize x ≤ k ∧ lalign x ≤ k.
Proof.
  intros (_ & _ & Hs). destruct (class_of_small _ Hs) as [k Hk]. destruct (class_of_spec _ _ Hk) as [Hle Hin].
  exists k. split_and!; [done|done|lia|lia].
Qed.

Lemma live_object h L H pages spare x : heap_ok h L H pages spare → x ∈ L →
  ∃ k, class x = Some k ∧ k ∈ CLASSES ∧ lsize x ≤ k ∧ lalign x ≤ k ∧ object_at (caches h k) (pages k) k (ptr x).
Proof.
  intros Hok Hx. destruct (small_class x (hp_small _ _ _ _ _ Hok x Hx)) as (k & Hk & Hin & ? & ?). exists k.
  split_and!; try done. apply (sl_objects _ _ _ _ _ _ (hp_slab _ _ _ _ _ Hok k Hin)), elem_of_app. right. by apply of_class_in.
Qed.

(** Objects of the heap never overlap. *)
Lemma objects_apart h L H pages spare k k' p q : heap_ok h L H pages spare → k ∈ CLASSES → k' ∈ CLASSES →
  object_at (caches h k) (pages k) k p → object_at (caches h k') (pages k') k' q → (k = k' → p ≠ q) → p + k ≤ q ∨ q + k' ≤ p.
Proof.
  intros Hok Hk Hk' (v & j & Hv & -> & Hj & Hle & _) (v' & j' & Hv' & -> & Hj' & Hle' & _) Hne.
  destruct (hp_pages _ _ _ _ _ Hok k Hk v Hv) as (_ & _ & Hm).
  destruct (hp_pages _ _ _ _ _ Hok k' Hk' v' Hv') as (_ & _ & Hm').
  pose proof (class_pos k Hk). pose proof (class_pos k' Hk'). destruct (decide (v = v')) as [<-|Hvv].
  - assert (k = k') as <- by (by eapply (hp_apart _ _ _ _ _ Hok)).
    assert (j ≠ j') by (intros ->; by apply Hne). destruct (decide (j < j')); [left|right]; nia.
  - pose proof (Z.div_mod v 4096 ltac:(lia)). pose proof (Z.div_mod v' 4096 ltac:(lia)).
    assert (v / 4096 ≠ v' / 4096) by lia. destruct (decide (v < v')); [left|right]; nia.
Qed.

(** A live allocation on its own beside the others. *)
Lemma live_split h L H pages spare i j x y : heap_ok h L H pages spare → L !! i = Some x → L !! j = Some y → i ≠ j →
  ptr x + default 0 (class x) ≤ ptr y ∨ ptr y + default 0 (class y) ≤ ptr x.
Proof.
  intros Hok Hi Hj Hij. pose proof (list_elem_of_lookup_2 _ _ _ Hi) as Hx. pose proof (list_elem_of_lookup_2 _ _ _ Hj) as Hy.
  destruct (live_object _ _ _ _ _ x Hok Hx) as (k & Hk & Hin & _ & _ & Ho).
  destruct (live_object _ _ _ _ _ y Hok Hy) as (k' & Hk' & Hin' & _ & _ & Ho'). rewrite Hk, Hk'. cbn [from_option id].
  apply (objects_apart h L H pages spare k k' _ _ Hok Hin Hin' Ho Ho'). intros <- He.
  pose proof (sl_nodup _ _ _ _ _ _ (hp_slab _ _ _ _ _ Hok k Hin)) as (_ & _ & Hn)%NoDup_app.
  assert (y ∈ delete i L) as Hyd.
  { apply list_elem_of_lookup. destruct (decide (j < i)%nat).
    - exists j. by rewrite list_lookup_delete_lt.
    - exists (pred j). rewrite list_lookup_delete_ge by lia. by replace (S (pred j)) with j by lia. }
  rewrite (of_class_perm k _ _ (delete_Permutation L i x Hi)), of_class_cons, decide_True in Hn by done.
  apply NoDup_cons in Hn as [Hn _]. apply Hn. rewrite He. by apply of_class_in.
Qed.

Definition upd {B} (f : Z → B) (k : Z) (b : B) : Z → B := λ x, if decide (x = k) then b else f x.

Lemma upd_eq {B} (f : Z → B) k b : upd f k b k = b.
Proof. unfold upd. by rewrite decide_True. Qed.
Lemma upd_ne {B} (f : Z → B) k b x : x ≠ k → upd f k b x = f x.
Proof. intros Hx. unfold upd. by rewrite decide_False. Qed.

Lemma alloc_preserves h L H pages spare size align h' p : heap_ok h L H pages spare → small_layout size align →
  heap_alloc (Some o) alloc_frames h size align = (h', p) → words h' = words h ∧
  if p =? 0 then (∃ a', alloc_frame (hframes h) = (a', None)) ∧ heap_ok h' L H pages spare
  else ∃ H' pages' spare', heap_ok h' ({| ptr := p; lsize := size; lalign := align |} :: L) H' pages' spare'.
Proof.
  intros Hok Hsm. set (x := {| ptr := p; lsize := size; lalign := align |}).
  destruct (small_class {| ptr := 0; lsize := size; lalign := align |} Hsm) as (k & Hk & Hin & _).
  unfold class in Hk. cbn in Hk. unfold heap_alloc. pose proof Hsm as (Hs0 & _).
  rewrite (proj2 (Z.eqb_neq size 0)), (hp_init _ _ _ _ _ Hok), Hk by lia. cbn [negb].
  destruct (kmem_alloc (Some o) (caches h k) (words h) (hframes h)) as [[c a] r] eqn:Hm.
  pose proof (kmem_alloc_ok _ _ _ H _ _ _ _ _ _ _ (hp_holds _ _ _ _ _ Hok) (hp_pages _ _ _ _ _ Hok k Hin)
    (hp_slab _ _ _ _ _ Hok k Hin) Hin Hm) as Hr.
  destruct r as [q|]; intros [= <- <-]; (split; [done|]).
  2: { destruct Hr as (-> & Hh & Hn). split; [by exists a|]. destruct Hok as [? ? ? ? Hsl ?]. split; try done.
       intros k' Hk'. cbn. case_decide as Hd; [subst k'|]; by apply Hsl. }
  destruct Hr as (Hq & H' & pages' & spare' & Hh & HH & Hp & Hs & Hnew & Hsp).
  rewrite (proj2 (Z.eqb_neq q 0)) by lia. exists H', (upd pages k pages'), (upd spare k spare').
  destruct Hok as [? ? Hpg Hap Hsl Hsmall].
  assert (Hpg' : ∀ k', k' ∈ CLASSES → pages_ok H' (pages k')).
  { intros k' Hk' v Hv. destruct (Hpg k' Hk' v Hv) as ((f & Hf & ->) & ? & ?). split_and!; try lia. exists f. split; [by apply HH|done]. }
  assert (Hdis : ∀ k' v, k' ∈ CLASSES → v ∈ pages' → v ∈ pages k' → k = k').
  { intros k' v Hk' Hv Hv'. destruct (Hnew v Hv) as [Hin'|Hf]; [by eapply Hap|].
    destruct (Hpg k' Hk' v Hv') as ((f & Hfi & He) & _). by destruct (Hf f Hfi). }
  split; cbn [initialized set_cache hframes caches words]; try done.
  - intros k' Hk'. unfold upd. case_decide; [done|auto].
  - intros k1 k2 v H1 H2. unfold upd. case_decide as D1; case_decide as D2; subst; try done.
    + intros. by apply (Hdis k2 v).
    + intros. symmetry. by apply (Hdis k1 v).
    + by apply Hap.
  - intros k' Hk'. rewrite of_class_cons. unfold upd. destruct (decide (k' = k)) as [D1|D1].
    + subst k'. by rewrite decide_True.
    + rewrite decide_False; [by apply Hsl|]. unfold class, x. cbn. rewrite Hk. congruence.
  - intros y [->|Hy]%elem_of_cons; [done|auto].
Qed.

Lemma free_preserves h L L1 L2 H pages spare x : heap_ok h L H pages spare → L = L1 ++ x :: L2 →
  (∃ spare', heap_ok (heap_dealloc (Some o) h (ptr x) (lsize x) (lalign x)) (L1 ++ L2) H pages spare') ∧
  (∀ a, a ≠ ptr x → words (heap_dealloc (Some o) h (ptr x) (lsize x) (lalign x)) a = words h a).
Proof.
  intros Hok HL. assert (Hx : x ∈ L) by (rewrite HL; set_solver).
  destruct (live_object _ _ _ _ _ x Hok Hx) as (k & Hk & Hin & _ & _ & Ho).
  pose proof (object_pos _ _ _ _ _ (hp_pages _ _ _ _ _ Hok k Hin) Hin Ho) as Hp.
  destruct (hp_small _ _ _ _ _ Hok x Hx) as (Hs0 & _). unfold heap_dealloc. unfold class in Hk.
  rewrite (proj2 (Z.eqb_neq (ptr x) 0)), (proj2 (Z.eqb_neq (lsize x) 0)) by lia. cbn [orb]. rewrite Hk.
  unfold kmem_free. rewrite (proj2 (Z.eqb_neq (ptr x) 0)) by lia. split.
  2: { intros a Ha. cbn. by rewrite decide_False. }
  exists (upd spare k (ptr x :: spare k)).
  assert (HP : L ≡ₚ x :: L1 ++ L2) by (by rewrite HL, Permutation_middle).
  pose proof Hok as [? ? Hpg Hap Hsl Hsmall]. split; cbn [initialized set_cache hframes caches words]; try done.
  - intros k' Hk'. pose proof (Hsl k' Hk') as Hs'. unfold upd. destruct (decide (k' = k)) as [D1|D1].
    + subst k'. eapply slab_free; [|by apply Hpg|done]. eapply slab_ext; [done|done|].
      rewrite HP, of_class_cons, decide_True by done. done.
    + eapply slab_ext; [done| |].
      * intros y Hy. rewrite decide_False; [done|]. intros ->.
        assert (Ho' : object_at (caches h k') (pages k') k' (ptr x)) by (by apply (sl_objects _ _ _ _ _ _ Hs'), elem_of_app; left).
        destruct (objects_apart h L H pages spare k k' (ptr x) (ptr x)) as [?|?]; try done;
          [pose proof (class_pos k Hin); lia|pose proof (class_pos k' Hk'); lia].
      * rewrite HP, of_class_cons, decide_False; [done|]. unfold class. rewrite Hk. congruence.
  - intros y Hy. apply Hsmall. rewrite HP. by right.
Qed.

(** Writes into memory in use leave the free lists alone. *)
Lemma write_preserves h L H pages spare x w : heap_ok h L H pages spare → x ∈ L →
  (∀ a, ¬ (ptr x ≤ a < ptr x + lsize x) → w a = words h a) →
  heap_ok {| caches := caches h; words := w; hframes := hframes h; initialized := initialized h;
             total_allocated := total_allocated h; total_freed := total_freed h |} L H pages spare.
Proof.
  intros Hok Hx Hw. destruct (live_object _ _ _ _ _ x Hok Hx) as (k & Hk & Hin & Hsz & _ & Ho).
  pose proof Hok as [? ? Hpg Hap Hsl Hsmall]. split; try done. cbn [caches words]. intros k' Hk'.
  eapply slab_ext; [by apply Hsl| |done]. intros y Hy. apply Hw. intros Hr.
  pose proof (Hsl k' Hk') as Hs'.
  assert (Ho' : object_at (caches h k') (pages k') k' y) by (by apply (sl_objects _ _ _ _ _ _ Hs'), elem_of_app; left).
  destruct (objects_apart h L H pages spare k k' (ptr x) y Hok Hin Hk' Ho Ho') as [?|?]; [|lia|pose proof (class_pos k' Hk'); lia].
  intros <- <-. pose proof (sl_nodup _ _ _ _ _ _ Hs') as (_ & Hn & _)%NoDup_app. apply (Hn (ptr x)); [done|]. by apply of_class_in.
Qed.

(** *** Runs of the heap *)

Definition set_words h w : heap :=
  {| caches := caches h; words := w; hframes := hframes h; initialized := initialized h;
     total_allocated := total_allocated h; total_freed := total_freed h |}.
Definition set_frames h (a : A) : heap :=
  {| caches := caches h; words := words h; hframes := a; initialized := initialized h;
     total_allocated := total_allocated h; total_freed := total_freed h |}.

(** One step: an allocation that succeeds or fails, the release of a live
    allocation with its own layout, a write of an owner inside its memory,
    and any use of the frame allocator by others, who respect what the heap
    holds. *)
Inductive heap_step : heap * list allocation → heap * list allocation → Prop :=
  | step_alloc h L size align h' p : small_layout size align →
      heap_alloc (Some o) alloc_frames h size align = (h', p) → p ≠ 0 →
      heap_step (h, L) (h', {| ptr := p; lsize := size; lalign := align |} :: L)
  | step_alloc_fails h L size align h' : small_layout size align →
      heap_alloc (Some o) alloc_frames h size align = (h', 0) → heap_step (h, L) (h', L)
  | step_dealloc h L1 x L2 :
      heap_step (h, L1 ++ x :: L2) (heap_dealloc (Some o) h (ptr x) (lsize x) (lalign x), L1 ++ L2)
  | step_write h L x w : x ∈ L → (∀ a, ¬ (ptr x ≤ a < ptr x + lsize x) → w a = words h a) →
      heap_step (h, L) (set_words h w, L)
  | step_frames h L a : (∀ H, holds (hframes h) H → holds a H) → heap_step (h, L) (set_frames h a, L).

Definition consistent (x : heap * list allocation) : Prop := ∃ H pages spare, heap_ok x.1 x.2 H pages spare.

Lemma step_consistent x y : heap_step x y → consistent x → consistent y.
Proof.
  destruct 1 as [h L size align h' p Hsm Hal Hp|h L size align h' Hsm Hal|h L1 x L2|h L x w Hx Hw|h L a Ha];
    intros (H & pages & spare & Hok); cbn in *.
  - destruct (alloc_preserves _ _ _ _ _ _ _ _ _ Hok Hsm Hal) as [_ Hr]. by rewrite (proj2 (Z.eqb_neq p 0)) in Hr.
  - destruct (alloc_preserves _ _ _ _ _ _ _ _ _ Hok Hsm Hal) as [_ [_ Hr]]. by exists H, pages, spare.
  - destruct (free_preserves _ _ _ _ _ _ _ _ Hok eq_refl) as [[spare' Hr] _]. by exists H, pages, spare'.
  - exists H, pages, spare. by apply (write_preserves h L H pages spare x w).
  - exists H, pages, spare. destruct Hok as [? Hh ? ? ? ?]. split; try done. by apply Ha.
Qed.

Lemma start_consistent a w : holds a ∅ → consistent ((heap_init (heap_new a w)).1, []).
Proof.
  intros Ha. exists ∅, (λ _, []), (λ _, []). split; cbn; try done.
  - intros k _ v Hv. by apply elem_of_nil in Hv.
  - intros k k' v _ _ Hv. by apply elem_of_nil in Hv.
  - intros k Hk. split; cbn; try done; [constructor|]. intros p Hp. by apply elem_of_nil in Hp.
  - intros x Hx. by apply elem_of_nil in Hx.
Qed.

Lemma reachable_consistent x y : rtc heap_step x y → consistent x → consistent y.
Proof. induction 1 as [|x y z Hxy _ IH]; [done|]. intros Hx. apply IH. by eapply step_consistent. Qed.

(** What the owners of the live allocations [L] rely on. *)
Definition allocations_safe h (L : list allocation) : Prop :=
  (∀ x, x ∈ L → 0 < ptr x ∧ ptr x mod lalign x = 0) ∧
  (∀ i j x y, L !! i = Some x → L !! j = Some y → i ≠ j → ptr x + lsize x ≤ ptr y ∨ ptr y + lsize y ≤ ptr x) ∧
  (∀ i j x y a, L !! i = Some x → L !! j = Some y → i ≠ j → ptr y ≤ a < ptr y + lsize y →
    words (heap_dealloc (Some o) h (ptr x) (lsize x) (lalign x)) a = words h a) ∧
  (∀ size align h' p, small_layout size align → heap_alloc (Some o) alloc_frames h size align = (h', p) →
    words h' = words h ∧ (p = 0 → ∃ a', alloc_frame (hframes h) = (a', None))).

Lemma consistent_aligned h L x : consistent (h, L) → x ∈ L → 0 < ptr x ∧ ptr x mod lalign x = 0.
Proof.
  intros (H & pages & spare & Hok) Hx. cbn in Hok.
  destruct (live_object _ _ _ _ _ x Hok Hx) as (k & Hk & Hin & _ & Hal & Ho).
  split; [by eapply object_pos; [by apply (hp_pages _ _ _ _ _ Hok k)|done..]|].
  destruct (hp_small _ _ _ _ _ Hok x Hx) as (_ & (i & Hi & Hai) & _). destruct (class_pow k Hin) as (n & Hn & Hkn).
  destruct Ho as (v & j & Hv & -> & _). destruct (hp_pages _ _ _ _ _ Hok k Hin v Hv) as (_ & _ & Hm).
  rewrite Hai. apply (pow_divide_page v j i k n); [|done|lia|done]. split; [done|].
  apply (Z.pow_le_mono_r_iff 2); lia.
Qed.

Lemma consistent_apart h L i j x y : consistent (h, L) → L !! i = Some x → L !! j = Some y → i ≠ j →
  ptr x + lsize x ≤ ptr y ∨ ptr y + lsize y ≤ ptr x.
Proof.
  intros (H & pages & spare & Hok) Hi Hj Hij. cbn in Hok.
  pose proof (list_elem_of_lookup_2 _ _ _ Hi) as Hx. pose proof (list_elem_of_lookup_2 _ _ _ Hj) as Hy.
  destruct (live_object _ _ _ _ _ x Hok Hx) as (k & Hk & _ & ? & _).
  destruct (live_object _ _ _ _ _ y Hok Hy) as (k' & Hk' & _ & ? & _).
  pose proof (live_split _ _ _ _ _ i j x y Hok Hi Hj Hij) as Hs. rewrite Hk, Hk' in Hs. cbn in Hs. lia.
Qed.

(** C4: the kernel heap keeps allocations apart.  Start it on any frame
    allocator and let it run through any sequence of small allocations
    (successful or not), releases of live allocations, writes of the owners
    into their memory and uses of the frame allocator by others: every live
    allocation is non-null and aligned as its layout asks, no two of them
    overlap, releasing one changes no word of another, allocating changes no
    word at all, and an allocation fails only when no frame is left. *)
Theorem heap_allocations_apart a w h L : holds a ∅ →
  rtc heap_step ((heap_init (heap_new a w)).1, []) (h, L) → allocations_safe h L.
Proof.
  intros Ha Hr. pose proof (reachable_consistent _ _ Hr (start_consistent a w Ha)) as Hc. split_and!.
  - intros x Hx. by eapply consistent_aligned.
  - intros i j x y. by apply consistent_apart with (h := h).
  - intros i j x y b Hi Hj Hij Hb. destruct Hc as (H & pages & spare & Hok). cbn in Hok.
    pose proof (take_drop_middle L i x Hi) as HL. symmetry in HL.
    apply (proj2 (free_preserves _ _ _ _ _ _ _ _ Hok HL)). intros ->.
    destruct (hp_small _ _ _ _ _ Hok x (list_elem_of_lookup_2 _ _ _ Hi)) as (? & _).
    destruct (consistent_apart h L i j x y (ex_intro _ _ (ex_intro _ _ (ex_intro _ _ Hok))) Hi Hj Hij); lia.
  - intros size align h' p Hsm Hal. destruct Hc as (H & pages & spare & Hok). cbn in Hok.
    destruct (alloc_preserves _ _ _ _ _ _ _ _ _ Hok Hsm Hal) as [Hw Hp]. split; [done|]. intros ->. by destruct Hp.
Qed.
End spec.

(** A machine with 15 frames: two allocations, a release, and an allocation
    that gets the released object. *)
Definition demo_offset : Z := 0xffff800000000000.
Definition no_frames (s : Buddy.BuddyAllocator) (_ : Z) : Buddy.BuddyAllocator * option Z := (s, None).
#[local] Existing Instance machine_frames.
Definition demo_heap : heap := (heap_init (heap_new BuddySpec.sample (λ _, 0))).1.
Definition demo1 := heap_alloc (Some demo_offset) no_frames demo_heap 40 8.
Definition demo2 := heap_alloc (Some demo_offset) no_frames demo1.1 50 16.
Definition demo_x := {| ptr := demo_offset + 0x1000; lsize := 40; lalign := 8 |}.
Definition demo_y := {| ptr := demo_offset + 0x1040; lsize := 50; lalign := 16 |}.
Definition demo3 := heap_dealloc (Some demo_offset) demo2.1 (ptr demo_x) (lsize demo_x) (lalign demo_x).
Definition demo4 := heap_alloc (Some demo_offset) no_frames demo3 33 32.
Definition demo_z := {| ptr := demo_offset + 0x1000; lsize := 33; lalign := 32 |}.

Lemma with_result {B} (x : B * Z) p : x.2 = p → x = (x.1, p).
Proof. destruct x. by intros <-. Qed.

Lemma demo_results : demo1.2 = ptr demo_x ∧ demo2.2 = ptr demo_y ∧ demo4.2 = ptr demo_z.
Proof. vm_compute. done. Qed.

Lemma demo_step h L size align (r : heap * Z) p : small_layout size align → heap_alloc (Some demo_offset) no_frames h size align = r →
  r.2 = p → p ≠ 0 → heap_step demo_offset no_frames (h, L) (r.1, {| ptr := p; lsize := size; lalign := align |} :: L).
Proof. intros Hs <- Hp Hn. apply step_alloc; [done|by apply with_result|done]. Qed.

Lemma heap_allocations_apart_witness : allocations_safe demo_offset no_frames demo4.1 [demo_z; demo_y].
Proof.
  apply (heap_allocations_apart demo_offset no_frames ltac:(unfold demo_offset; lia) eq_refl BuddySpec.sample (λ _, 0)).
  - exact machine_holds.
  - apply (rtc_l _ _ (demo1.1, [demo_x])).
    { apply (demo_step demo_heap [] 40 8 demo1 (ptr demo_x)); [|unfold demo1; reflexivity|exact (proj1 demo_results)|done].
      split; [done|]. split; [by exists 3|done]. }
    apply (rtc_l _ _ (demo2.1, [demo_y; demo_x])).
    { apply (demo_step demo1.1 [demo_x] 50 16 demo2 (ptr demo_y)); [|unfold demo2; reflexivity|exact (proj1 (proj2 demo_results))|done].
      split; [done|]. split; [by exists 4|done]. }
    apply (rtc_l _ _ (demo3, [demo_y])); [unfold demo3; exact (step_dealloc _ _ demo2.1 [demo_y] demo_x [])|].
    apply rtc_once, (demo_step demo3 [demo_y] 33 32 demo4 (ptr demo_z)); [|unfold demo4; reflexivity|exact (proj2 (proj2 demo_results))|done].
    split; [done|]. split; [by exists 5|done].
Defined.

