(* ===== verification/Storage.v ===== *)
(** * Block devices ([rust/kernel/src/storage.rs])

    The [BlockDevice] trait as a class of operations, what a working device
    promises as a class of laws, and the RAM disk, which keeps them. *)

From stdpp Require Import gmap.
From S2P Require Import Prelude Words Vfs.

Definition SECTOR_SIZE : Z := 512.

Class BlockDevice (D : Type) := {
  sector_count : D → Z;
  read_sector : D → Z → res StorageError (list Z);
  write_sector : D → Z → list Z → D * res StorageError unit }.

(** The contents of a sector. *)
Definition sector_ok (b : list Z) : Prop := length b = 512%nat ∧ bytes b.

(** A device whose sectors can all be read and written. *)
Class WorkingDevice (D : Type) `{BlockDevice D} := {
  device_ok : D → Prop;
  disk : D → Z → list Z;
  count_range d : device_ok d → 0 ≤ sector_count d < 2 ^ 64;
  disk_sector d s : device_ok d → 0 ≤ s < sector_count d → sector_ok (disk d s);
  read_disk d s : device_ok d → 0 ≤ s < sector_count d → read_sector d s = Ok (disk d s);
  write_disk d s b : device_ok d → 0 ≤ s < sector_count d → sector_ok b →
    ∃ d', write_sector d s b = (d', Ok ()) ∧ device_ok d' ∧ sector_count d' = sector_count d ∧
      disk d' s = b ∧ ∀ t, 0 ≤ t < sector_count d → t ≠ s → disk d' t = disk d t }.

(** ** The RAM disk *)

Record RamDisk := { sectors : Z; data : list Z }.

Definition ISIZE_MAX : Z := 2 ^ 63 - 1.

(** [vec![0u8; bytes]] panics beyond [isize::MAX] bytes. *)
Definition ramdisk_new (n : Z) : res StorageError RamDisk :=
  size ← ok_or AllocationFailed (checked_mul 64 n SECTOR_SIZE);
  if ISIZE_MAX <? size then Panic else Ok {| sectors := n; data := replicate (Z.to_nat size) 0 |}.

Definition ramdisk_read (d : RamDisk) (sector : Z) : res StorageError (list Z) :=
  if sectors d <=? sector then Err OutOfBounds else
  let start := sector * SECTOR_SIZE in
  expect (slice (data d) start (start + SECTOR_SIZE)).

Definition ramdisk_write (d : RamDisk) (sector : Z) (buffer : list Z) : RamDisk * res StorageError unit :=
  if sectors d <=? sector then (d, Err OutOfBounds) else
  let start := sector * SECTOR_SIZE in
  match slice (data d) start (start + SECTOR_SIZE) with
  | Some _ => ({| sectors := sectors d; data := splice (data d) start buffer |}, Ok ())
  | None => (d, Panic)
  end.

#[export] Instance ramdisk_device : BlockDevice RamDisk :=
  {| sector_count := sectors; read_sector := ramdisk_read; write_sector := ramdisk_write |}.

Definition ramdisk_ok (d : RamDisk) : Prop :=
  0 ≤ sectors d < 2 ^ 64 ∧ zlen (data d) = sectors d * 512 ∧ bytes (data d).
Definition ramdisk_sector (d : RamDisk) (s : Z) : list Z := take 512 (drop (Z.to_nat (s * 512)) (data d)).

Lemma ramdisk_slice d s : ramdisk_ok d → 0 ≤ s < sectors d →
  slice (data d) (s * 512) (s * 512 + 512) = Some (ramdisk_sector d s).
Proof.
  intros (Hn & Hl & _) Hs. rewrite slice_in by lia. unfold ramdisk_sector.
  by replace (Z.to_nat (s * 512 + 512 - s * 512)) with 512%nat by lia.
Qed.

Lemma ramdisk_in_range d s : 0 ≤ s < sectors d → (sectors d <=? s) = false.
Proof. intros Hs. apply Z.leb_gt. lia. Qed.

#[export] Instance ramdisk_working : WorkingDevice RamDisk.
Proof.
  refine {| device_ok := ramdisk_ok; disk := ramdisk_sector |}; cbn.
  - by intros d (? & _).
  - intros d s Hd Hs. pose proof (ramdisk_slice d s Hd Hs) as Hsl. split.
    + apply slice_length in Hsl. lia.
    + destruct Hd as (_ & _ & Hb). by eapply slice_Forall.
  - intros d s Hd Hs. unfold ramdisk_read, SECTOR_SIZE. by rewrite ramdisk_in_range, ramdisk_slice.
  - intros d s b Hd Hs [Hbl Hb]. unfold ramdisk_write, SECTOR_SIZE. rewrite ramdisk_in_range, ramdisk_slice by done.
    eexists. split; [reflexivity|]. cbn [sectors data]. destruct Hd as (Hn & Hl & Hby).
    assert (Hlen : length (splice (data d) (s * 512) b) = length (data d)) by (apply length_splice; lia).
    assert (Hok : ramdisk_ok {| sectors := sectors d; data := splice (data d) (s * 512) b |}).
    { split; [done|]. cbn. rewrite Hlen. split; [done|]. unfold splice. rewrite !Forall_app.
      split; [by apply Forall_take|]. split; [done|]. by apply Forall_drop. }
    split; [done|]. split; [done|]. split.
    + pose proof (ramdisk_slice _ s Hok Hs) as Hsl. cbn [data] in Hsl. rewrite splice_same in Hsl by lia. congruence.
    + intros t Ht Hne. pose proof (ramdisk_slice _ t Hok Ht) as Hsl. cbn [data] in Hsl.
      assert (Hd : ramdisk_ok d) by done. pose proof (ramdisk_slice d t Hd Ht) as Hsl'.
      destruct (decide (t < s)); [rewrite splice_before in Hsl by lia|rewrite splice_after in Hsl by lia]; congruence.
Defined.

Lemma ramdisk_new_ok n d : ramdisk_new n = Ok d → 0 ≤ n → ramdisk_ok d ∧ sectors d = n.
Proof.
  unfold ramdisk_new. intros H Hn. inv_bind H. apply ok_or_Ok, checked_mul_Some in E as [-> Hlt].
  unfold SECTOR_SIZE in *. destruct (_ <? _); [done|]. injection H as <-. split; [|done].
  split; cbn [sectors data]; [lia|]. rewrite length_replicate. split; [lia|].
  apply Forall_replicate. done.
Qed.
