(* ===== verification/VantaFs.v ===== *)
(** * VantaFS ([rust/kernel/src/vfs.rs], [VantaFs], [Vfs], [VantaFsAdapter])

    A small filesystem on a block device: a superblock, one directory sector
    of eight entries holding whole paths, and contiguous runs of sectors for
    the files.  Over it, the slot for the root filesystem and the path
    operations of the [Filesystem] trait. *)

From stdpp Require Import gmap sorting.
From S2P Require Import Prelude Words Vfs Storage Paths.

Definition MAGIC : list Z := [86; 65; 78; 84; 65; 49; 70; 83].
Definition SUPERBLOCK_SECTOR : Z := 0.
Definition DIRECTORY_SECTOR : Z := 1.
Definition FIRST_DATA_SECTOR : Z := 2.
Definition MAX_DIRECTORY_ENTRIES : Z := 8.
Definition DIRECTORY_ENTRY_SIZE : Z := 64.
Definition MAX_PATH_LENGTH : Z := 48.

Record FileInfo := {
  fi_length : Z; allocated_sectors : Z; is_directory : bool; fi_uid : Z; fi_gid : Z; fi_mode : Z }.

Inductive EntryKind := KFile | KDirectory.
#[export] Instance EntryKind_eq_dec : EqDecision EntryKind.
Proof. solve_decision. Defined.

Record FileRecord := {
  kind : EntryKind; name : list Z; name_length : Z; start_sector : Z; rsector_count : Z; flength : Z }.

Definition record_empty : FileRecord :=
  {| kind := KFile; name := replicate 48 0; name_length := 0; start_sector := 0; rsector_count := 0; flength := 0 |}.

(** ** Bytes of a sector *)

Definition put_slice {E} (l : list Z) (offset : Z) (b : list Z) : res E (list Z) :=
  _ ← expect (slice l offset (offset + zlen b)); Ok (splice l offset b).
Definition put_u32 {E} (l : list Z) (offset v : Z) : res E (list Z) := put_slice l offset (to_le 4 v).
Definition put_u64 {E} (l : list Z) (offset v : Z) : res E (list Z) := put_slice l offset (to_le 8 v).
Definition get_u32 {E} (l : list Z) (offset : Z) : res E Z :=
  b ← expect (slice l offset (offset + 4)); Ok (from_le b).
Definition get_u64 {E} (l : list Z) (offset : Z) : res E Z :=
  b ← expect (slice l offset (offset + 8)); Ok (from_le b).

Definition zeros (n : Z) : list Z := replicate (Z.to_nat n) 0.

(** ** Paths *)

Definition bad_component (c : list Z) : bool :=
  bool_decide (c = []) || bool_decide (c = [DOT]) || bool_decide (c = [DOT; DOT]).

Definition normalize_path (path : list Z) : res VfsError (list Z) :=
  let path := default path (strip_prefix [SLASH] path) in
  if bool_decide (path = []) || (MAX_PATH_LENGTH <? zlen path) || existsb bad_component (split_on SLASH path) then
    Err (if MAX_PATH_LENGTH <? zlen path then NameTooLong else InvalidPath)
  else Ok path.

(** ** Directory entries *)

(** [FileRecord::matches] *)
Definition matches (r : FileRecord) (path : list Z) : bool :=
  (name_length r =? zlen path) && bool_decide (take (Z.to_nat (name_length r)) (name r) = path).

(** One round of the loop of [records]; [sectors] is [self.sector_count]. *)
Definition parse_record (sectors : Z) (sector : list Z) (index : Z) : res VfsError FileRecord :=
  let offset := index * DIRECTORY_ENTRY_SIZE in
  active ← expect (Prelude.index sector offset);
  if active =? 0 then Ok record_empty else
  kind ← (if active =? 1 then Ok KFile else if active =? 2 then Ok KDirectory else Err InvalidFormat);
  name_length ← expect (Prelude.index sector (offset + 1));
  if (name_length =? 0) || (MAX_PATH_LENGTH <? name_length) then Err InvalidFormat else
  name ← expect (slice sector (offset + 2) (offset + 50));
  start_sector ← get_u32 sector (offset + 50);
  count ← get_u32 sector (offset + 54);
  length ← get_u32 sector (offset + 58);
  if negb (count =? 0) && ((start_sector <? FIRST_DATA_SECTOR) || (sectors <? start_sector + count)) then Err InvalidFormat else
  if count * SECTOR_SIZE <? length then Err InvalidFormat else
  if bool_decide (kind = KDirectory) && (negb (length =? 0) || negb (count =? 0) || negb (start_sector =? 0)) then
    Err InvalidFormat
  else Ok {| kind := kind; name := name; name_length := name_length; start_sector := start_sector;
             rsector_count := count; flength := length |}.

Definition slots : list Z := [0; 1; 2; 3; 4; 5; 6; 7].

Fixpoint parse_records (sectors : Z) (sector : list Z) (ixs : list Z) : res VfsError (list FileRecord) :=
  match ixs with
  | [] => Ok []
  | i :: ixs' => r ← parse_record sectors sector i; rs ← parse_records sectors sector ixs'; Ok (r :: rs)
  end.

(** The directory sector with entry [index] set, as [write_record] builds it. *)
Definition encode_record (sector : list Z) (index : Z) (r : FileRecord) : res VfsError (list Z) :=
  let offset := index * DIRECTORY_ENTRY_SIZE in
  sector ← put_slice sector offset [match kind r with KFile => 1 | KDirectory => 2 end];
  sector ← put_slice sector (offset + 1) [u8 (name_length r)];
  sector ← put_slice sector (offset + 2) (name r);
  sector ← put_u32 sector (offset + 50) (start_sector r);
  sector ← put_u32 sector (offset + 54) (rsector_count r);
  length ← (if flength r <? 2 ^ 32 then Ok (flength r) else Err FileTooLarge);
  put_u32 sector (offset + 58) length.

Section vantafs.
Context {D : Type} `{BD : !BlockDevice D}.

Record VantaFs := { device : D; vsectors : Z }.
Abbreviation F := (M VantaFs VfsError).

Definition to_vfs {A} (r : res StorageError A) : res VfsError A :=
  match r with Ok a => Ok a | Err e => Err (Storage e) | Panic => Panic end.

Definition read_dev (s : Z) : F (list Z) := λ fs, (fs, to_vfs (read_sector (device fs) s)).
Definition write_dev (s : Z) (b : list Z) : F unit := λ fs,
  let '(d, r) := write_sector (device fs) s b in ({| device := d; vsectors := vsectors fs |}, to_vfs r).

(** ** Formatting and mounting *)

Definition superblock (n : Z) : res VfsError (list Z) :=
  b ← put_slice (zeros SECTOR_SIZE) 0 MAGIC;
  b ← put_u32 b 8 1;
  b ← put_u32 b 12 SECTOR_SIZE;
  b ← put_u64 b 16 n;
  b ← put_u32 b 24 DIRECTORY_SECTOR;
  put_u32 b 28 MAX_DIRECTORY_ENTRIES.

Definition format (d : D) : res VfsError VantaFs :=
  if sector_count d <=? FIRST_DATA_SECTOR then Err NoSpace else
  b ← superblock (sector_count d);
  match write_sector d SUPERBLOCK_SECTOR b with
  | (d, Ok _) =>
    match write_sector d DIRECTORY_SECTOR (zeros SECTOR_SIZE) with
    | (d, Ok _) => Ok {| device := d; vsectors := sector_count d |}
    | (_, Err e) => Err (Storage e)
    | (_, Panic) => Panic
    end
  | (_, Err e) => Err (Storage e)
  | (_, Panic) => Panic
  end.

(** The test shared by [mount] and [mount_or_format]. *)
Definition formatted (d : D) (b : list Z) : res VfsError bool :=
  magic ← expect (slice b 0 8);
  version ← get_u32 b 8; size ← get_u32 b 12; n ← get_u64 b 16; dir ← get_u32 b 24; entries ← get_u32 b 28;
  Ok (bool_decide (magic = MAGIC) && (version =? 1) && (size =? SECTOR_SIZE) && (n =? sector_count d) &&
      (dir =? DIRECTORY_SECTOR) && (entries =? MAX_DIRECTORY_ENTRIES)).

Definition mount (d : D) : res VfsError VantaFs :=
  b ← to_vfs (read_sector d SUPERBLOCK_SECTOR);
  ok ← formatted d b;
  if negb ok then Err InvalidFormat else Ok {| device := d; vsectors := sector_count d |}.

Definition mount_or_format (d : D) : res VfsError (VantaFs * bool) :=
  b ← to_vfs (read_sector d SUPERBLOCK_SECTOR);
  ok ← formatted d b;
  if (ok : bool) then fs ← mount d; Ok (fs, true) else fs ← format d; Ok (fs, false).

(** ** The directory *)

Definition records : F (list FileRecord) := λ fs,
  match read_dev DIRECTORY_SECTOR fs with
  | (fs, Ok b) => (fs, parse_records (vsectors fs) b slots)
  | (fs, Err e) => (fs, Err e)
  | (fs, Panic) => (fs, Panic)
  end.

Definition find_record (path : list Z) : F (option (Z * FileRecord)) :=
  rs ← records;
  mret (match list_find (λ r, negb (name_length r =? 0) && matches r path = true) rs with
        | Some (i, r) => Some (Z.of_nat i, r)
        | None => None
        end).

Definition is_child (path : list Z) (r : FileRecord) : bool :=
  (zlen path <? name_length r) && starts_with (take (Z.to_nat (name_length r)) (name r)) path &&
  bool_decide (name r !! length path = Some SLASH).

Definition has_children (path : list Z) : F bool := rs ← records; mret (existsb (is_child path) rs).

Definition write_record (index : Z) (r : FileRecord) : F unit :=
  sector ← read_dev DIRECTORY_SECTOR;
  sector ← lift (encode_record sector index r);
  write_dev DIRECTORY_SECTOR sector.

Definition clear_record (index : Z) : F unit :=
  sector ← read_dev DIRECTORY_SECTOR;
  sector ← lift (put_slice sector (index * DIRECTORY_ENTRY_SIZE) (zeros DIRECTORY_ENTRY_SIZE));
  write_dev DIRECTORY_SECTOR sector.

Definition first_free_index : F Z :=
  rs ← records;
  match list_find (λ r, name_length r = 0) rs with
  | Some (i, _) => mret (Z.of_nat i)
  | None => fail NoSpace
  end.

Definition available (rs : list FileRecord) (candidate sectors : Z) (ignored : Z) : bool :=
  let end_ := candidate + sectors in
  forallb id (imap (λ index r, (Z.of_nat index =? ignored) || (name_length r =? 0) || (end_ <=? start_sector r) ||
                               (start_sector r + rsector_count r <=? candidate)) rs).

(** [for candidate in candidate ..= last_start], [n] candidates in all. *)
Fixpoint scan (n : nat) (rs : list FileRecord) (candidate sectors ignored : Z) : res VfsError Z :=
  match n with
  | O => Err NoSpace
  | S n' =>
    if available rs candidate sectors ignored then
      if candidate <? 2 ^ 32 then Ok candidate else Err NoSpace
    else scan n' rs (candidate + 1) sectors ignored
  end.

Definition USIZE_MAX : Z := 2 ^ 64 - 1.

Definition allocate (sectors : Z) (ignored_index : option Z) : F Z :=
  rs ← records;
  fs ← get;
  match checked_sub (vsectors fs) sectors with
  | None => fail NoSpace
  | Some last_start =>
    lift (scan (Z.to_nat (last_start - FIRST_DATA_SECTOR + 1)) rs FIRST_DATA_SECTOR sectors
            (default USIZE_MAX ignored_index))
  end.

(** ** Files *)

Definition require {A} (e : VfsError) (o : option A) : F A := lift (ok_or e o).

(** [for index in index .. sector_count], [n] sectors left. *)
Fixpoint read_run (n : nat) (start length index copied : Z) (data : list Z) : F (list Z) :=
  match n with
  | O => mret data
  | S n' =>
    sector ← read_dev (start + index);
    let count := Z.min (length - copied) SECTOR_SIZE in
    b ← lift (expect (slice sector 0 count));
    data ← lift (put_slice data copied b);
    let copied := copied + count in
    if copied =? length then mret data else read_run n' start length (index + 1) copied data
  end.

Definition read_file (path : list Z) : F (list Z) :=
  path ← lift (normalize_path path);
  found ← find_record path;
  '(_, record) ← require NotFound found;
  if bool_decide (kind record = KDirectory) then fail IsDirectory else
  read_run (Z.to_nat (rsector_count record)) (start_sector record) (flength record) 0 0 (zeros (flength record)).

Fixpoint write_run (n : nat) (start offset : Z) (data : list Z) : F unit :=
  match n with
  | O => mret ()
  | S n' =>
    let from := offset * SECTOR_SIZE in
    sector ← lift (if from <? zlen data then
                     let count := Z.min (zlen data - from) SECTOR_SIZE in
                     b ← expect (slice data from (from + count)); put_slice (zeros SECTOR_SIZE) 0 b
                   else Ok (zeros SECTOR_SIZE));
    _ ← write_dev (start + offset) sector;
    write_run n' start (offset + 1) data
  end.

Definition with_extent (r : FileRecord) (start count : Z) : FileRecord :=
  {| kind := kind r; name := name r; name_length := name_length r; start_sector := start; rsector_count := count;
     flength := flength r |}.
Definition with_length (r : FileRecord) (n : Z) : FileRecord :=
  {| kind := kind r; name := name r; name_length := name_length r; start_sector := start_sector r;
     rsector_count := rsector_count r; flength := n |}.

Definition write_file (path data : list Z) : F unit :=
  path ← lift (normalize_path path);
  let required := (Z.max (zlen data) 1 + SECTOR_SIZE - 1) / SECTOR_SIZE in
  required ← lift (if required <? 2 ^ 32 then Ok required else Err FileTooLarge);
  existing ← find_record path;
  '(index, record) ←
    match existing with
    | Some (index, record) =>
      if bool_decide (kind record = KDirectory) then fail IsDirectory else
      if rsector_count record =? required then mret (index, record) else
      start ← allocate required (Some index); mret (index, with_extent record start required)
    | None =>
      index ← first_free_index;
      n ← lift (put_slice (name record_empty) 0 path);
      start ← allocate required None;
      mret (index, {| kind := KFile; name := n; name_length := zlen path; start_sector := start;
                      rsector_count := required; flength := 0 |})
    end;
  let record := with_length record (zlen data) in
  _ ← write_run (Z.to_nat (rsector_count record)) (start_sector record) 0 data;
  write_record index record.

Definition remove_file (path : list Z) : F unit :=
  path ← lift (normalize_path path);
  found ← find_record path;
  '(index, record) ← require NotFound found;
  children ← (if bool_decide (kind record = KDirectory) then has_children path else mret false);
  if (children : bool) then fail NotEmpty else clear_record index.

Definition create_dir (path : list Z) : F unit :=
  path ← lift (normalize_path path);
  found ← find_record path;
  match found with
  | Some _ => fail AlreadyExists
  | None =>
    index ← first_free_index;
    n ← lift (put_slice (name record_empty) 0 path);
    write_record index {| kind := KDirectory; name := n; name_length := zlen path; start_sector := 0;
                          rsector_count := 0; flength := 0 |}
  end.

Definition rename_file (old_path new_path : list Z) : F unit :=
  old_path ← lift (normalize_path old_path);
  new_path ← lift (normalize_path new_path);
  if bool_decide (old_path = new_path) then mret () else
  found ← find_record old_path;
  '(index, record) ← require NotFound found;
  children ← (if bool_decide (kind record = KDirectory) then has_children old_path else mret false);
  if (children : bool) then fail NotEmpty else
  found ← find_record new_path;
  match found with
  | Some _ => fail AlreadyExists
  | None =>
    n ← lift (put_slice (zeros MAX_PATH_LENGTH) 0 new_path);
    write_record index {| kind := kind record; name := n; name_length := zlen new_path;
                          start_sector := start_sector record; rsector_count := rsector_count record;
                          flength := flength record |}
  end.

Definition file_info (path : list Z) : F FileInfo :=
  path ← lift (normalize_path path);
  found ← find_record path;
  '(_, record) ← require NotFound found;
  mret {| fi_length := flength record; allocated_sectors := rsector_count record;
          is_directory := bool_decide (kind record = KDirectory); fi_uid := 0; fi_gid := 0;
          fi_mode := if bool_decide (kind record = KDirectory) then 16877 else 33188 |}.

Fixpoint list_names (rs : list FileRecord) : res VfsError (list (list Z)) :=
  match rs with
  | [] => Ok []
  | r :: rs' =>
    if name_length r =? 0 then list_names rs' else
    let n := take (Z.to_nat (name_length r)) (name r) in
    if negb (utf8 n) then Err InvalidFormat else
    let path := [SLASH] ++ n ++ (if bool_decide (kind r = KDirectory) then [SLASH] else []) in
    ps ← list_names rs'; Ok (path :: ps)
  end.

Definition list_files : F (list (list Z)) := rs ← records; lift (list_names rs).

(** ** The root filesystem *)

Record Vfs := { root : option VantaFs }.
Abbreviation V := (M Vfs VfsError).

Definition vfs_new : Vfs := {| root := None |}.

Definition mount_root (filesystem : VantaFs) : V unit := λ v,
  match root v with
  | Some _ => (v, Err InvalidFormat)
  | None => ({| root := Some filesystem |}, Ok ())
  end.

Definition unmount_root : V VantaFs := λ v, ({| root := None |}, ok_or NotMounted (root v)).
Definition replace_root (filesystem : VantaFs) : V unit := λ _, ({| root := Some filesystem |}, Ok ()).

(** [self.root.as_mut().ok_or(NotMounted)?] followed by an operation. *)
Definition on_root {A} (op : F A) : V A := λ v,
  match root v with
  | None => (v, Err NotMounted)
  | Some fs => let '(fs, r) := op fs in ({| root := Some fs |}, r)
  end.

Definition vfs_read (path : list Z) : V (list Z) := on_root (read_file path).
Definition vfs_write (path data : list Z) : V unit := on_root (write_file path data).
Definition vfs_list : V (list (list Z)) := on_root list_files.
Definition vfs_remove (path : list Z) : V unit := on_root (remove_file path).
Definition vfs_rename (old_path new_path : list Z) : V unit := on_root (rename_file old_path new_path).
Definition vfs_info (path : list Z) : V FileInfo := on_root (file_info path).
Definition vfs_create_dir (path : list Z) : V unit := on_root (create_dir path).

(** ** The path operations of the adapter *)

(** [Vec::resize(n, 0)]; the capacity of a vector is at most [isize::MAX]. *)
Definition resize (l : list Z) (n : Z) : res VfsError (list Z) :=
  if ISIZE_MAX <? n then Panic else Ok (take (Z.to_nat n) l ++ zeros (n - zlen l)).

(** [.unwrap_or_default()] *)
Definition or_default (m : V (list Z)) : V (list Z) := λ v,
  match m v with
  | (v, Ok l) => (v, Ok l)
  | (v, Err _) => (v, Ok [])
  | (v, Panic) => (v, Panic)
  end.

Definition read_at_path (path : list Z) (offset len : Z) : V (list Z) :=
  full ← vfs_read path;
  let start := Z.min offset (zlen full) in
  let end_ := Z.min (saturating_add 64 start len) (zlen full) in
  lift (expect (slice full start end_)).

Definition write_at_path (path : list Z) (offset : Z) (buf : list Z) : V Z :=
  full ← or_default (vfs_read path);
  let start := offset in
  let end_ := saturating_add 64 start (zlen buf) in
  full ← lift (if zlen full <? end_ then resize full end_ else Ok full);
  full ← lift (_ ← expect (slice full start end_);
               if end_ - start =? zlen buf then Ok (splice full start buf) else Panic);
  _ ← vfs_write path full;
  mret (zlen buf).

Definition truncate_path (path : list Z) (size : Z) : V unit :=
  full ← or_default (vfs_read path);
  full ← lift (resize full size);
  vfs_write path full.

(** Byte order of strings. *)
Fixpoint string_le (a b : list Z) : bool :=
  match a, b with
  | [], _ => true
  | _ :: _, [] => false
  | x :: a', y :: b' => (x <? y) || ((x =? y) && string_le a' b')
  end.

Definition string_order (a b : list Z) : Prop := string_le a b = true.
#[export] Instance string_order_dec : RelDecision string_order.
Proof. intros a b. unfold string_order. apply _. Defined.

Definition list_dir_path (path : list Z) : V (list (list Z)) :=
  let prefix := if bool_decide (path = [SLASH]) || bool_decide (path = []) then [SLASH]
                else [SLASH] ++ trim_matches SLASH path ++ [SLASH] in
  entries ← vfs_list;
  let names := omap (λ entry,
    match strip_prefix prefix entry with
    | Some n => if negb (bool_decide (n = [])) && negb (existsb (Z.eqb SLASH) n) then Some (trim_end SLASH n) else None
    | None => None
    end) entries in
  mret (merge_sort string_order names).

(** The VantaFS half of [remount_root]. *)
Definition remount_vantafs : V unit :=
  filesystem ← unmount_root;
  remounted ← lift (mount (device filesystem));
  mount_root remounted.
End vantafs.
