(* ===== verification/VantaFsDisk.v ===== *)
(** * VantaFS on disk

    Directory entries and runs of sectors: what is written is read back, the
    invariant of a mounted filesystem, and how each step of an operation
    keeps it. *)

From stdpp Require Import gmap sorting.
From S2P Require Import Prelude Words Vfs Storage Paths VantaFs.

(** ** Writing into a sector *)

Lemma put_slice_ok {E} (l b : list Z) a : 0 ≤ a → a + zlen b ≤ zlen l → put_slice (E := E) l a b = Ok (splice l a b).
Proof. intros Ha Hb. unfold put_slice. by rewrite slice_in by lia. Qed.

Lemma length_zeros n : length (zeros n) = Z.to_nat n.
Proof. apply length_replicate. Qed.

Lemma zeros_bytes n : bytes (zeros n).
Proof. unfold zeros. by apply Forall_replicate. Qed.

Lemma splice_sector b a x : sector_ok b → bytes x → 0 ≤ a → a + zlen x ≤ 512 → sector_ok (splice b a x).
Proof.
  intros [Hl Hb] Hx Ha Hax. split; [rewrite length_splice; lia|]. unfold splice. rewrite !Forall_app.
  split; [by apply Forall_take|]. split; [done|by apply Forall_drop].
Qed.

(** ** Directory entries *)

Abbreviation active r := (name_length r ≠ 0) (only parsing).
Definition path_of (r : FileRecord) : list Z := take (Z.to_nat (name_length r)) (name r).

(** Sectors of a file of [n] bytes. *)
Definition extent (n : Z) : Z := (Z.max n 1 + 511) / 512.

(** An entry in use on a device of [n] sectors. *)
Record entry_ok (n : Z) (r : FileRecord) : Prop := {
  eo_name : length (name r) = 48%nat;
  eo_bytes : bytes (name r);
  eo_length : 0 < name_length r ≤ 48;
  eo_kind : match kind r with
            | KFile => 2 ≤ start_sector r < 2 ^ 32 ∧ start_sector r + rsector_count r ≤ n ∧
                       0 ≤ flength r < 2 ^ 32 ∧ rsector_count r = extent (flength r)
            | KDirectory => start_sector r = 0 ∧ rsector_count r = 0 ∧ flength r = 0
            end }.

Definition kind_byte (k : EntryKind) : Z := match k with KFile => 1 | KDirectory => 2 end.
Definition entry_bytes (r : FileRecord) : list Z :=
  [kind_byte (kind r); name_length r] ++ name r ++ to_le 4 (start_sector r) ++ to_le 4 (rsector_count r) ++ to_le 4 (flength r).

Lemma extent_bounds n : 0 ≤ n < 2 ^ 32 → 1 ≤ extent n ≤ 2 ^ 23 ∧ n ≤ extent n * 512.
Proof. intros Hn. unfold extent. pose proof (Z.div_mod (Z.max n 1 + 511) 512 ltac:(lia)). pose proof (Z.mod_pos_bound (Z.max n 1 + 511) 512). lia. Qed.

Lemma entry_fields n r : entry_ok n r → is_u 32 (start_sector r) ∧ is_u 32 (rsector_count r) ∧ is_u 32 (flength r).
Proof.
  intros [_ _ _ Hk]. unfold is_u. destruct (kind r).
  - destruct Hk as (? & ? & Hl & ->). pose proof (extent_bounds _ Hl). lia.
  - destruct Hk as (-> & -> & ->). lia.
Qed.

Lemma length_entry_bytes n r : entry_ok n r → length (entry_bytes r) = 62%nat.
Proof. intros Hr. unfold entry_bytes. rewrite !length_app, !length_to_le, (eo_name _ _ Hr). done. Qed.

Lemma entry_bytes_bytes n r : entry_ok n r → bytes (entry_bytes r).
Proof.
  intros Hr. unfold entry_bytes. rewrite !Forall_app. split_and!; try apply to_le_bytes; [|apply (eo_bytes _ _ Hr)].
  repeat constructor; unfold is_u; try (destruct (kind r); cbn; lia); pose proof (eo_length _ _ Hr); lia.
Qed.

Lemma encode_spec n b i r : sector_ok b → 0 ≤ i < 8 → entry_ok n r →
  encode_record b i r = Ok (splice b (64 * i) (entry_bytes r)).
Proof.
  intros [Hl Hb] Hi Hr. pose proof (entry_fields n r Hr) as (Hs & Hc & Hf). pose proof (eo_length _ _ Hr) as Hn.
  unfold encode_record, DIRECTORY_ENTRY_SIZE, put_u32. rewrite (Z.mul_comm i 64).
  assert (E : ∀ l a (x : list Z), length l = 512%nat → 0 ≤ a → a + zlen x ≤ 512 → length (splice l a x) = 512%nat)
    by (intros; rewrite length_splice; lia).
  assert (Hnm := eo_name _ _ Hr). pose proof (length_to_le 4 (start_sector r)). pose proof (length_to_le 4 (rsector_count r)).
  pose proof (length_to_le 4 (flength r)).
  rewrite put_slice_ok by (cbn; lia). cbn [mbind res_bind].
  rewrite put_slice_ok by (rewrite ?E; cbn; lia). cbn [mbind res_bind].
  rewrite splice_adjacent by (cbn; lia). cbn [app]. rewrite wrap_small by (unfold is_u; lia).
  do 3 (rewrite put_slice_ok by (rewrite ?E; rewrite ?length_app; cbn; lia); cbn [mbind res_bind];
        rewrite splice_adjacent by (rewrite ?length_app; cbn; lia)).
  rewrite (proj2 (Z.ltb_lt _ _)) by apply Hf. cbn [mbind res_bind].
  rewrite put_slice_ok by (rewrite ?E; rewrite ?length_app; cbn; lia).
  rewrite splice_adjacent by (rewrite ?length_app; cbn; lia). do 2 f_equal. unfold entry_bytes, kind_byte.
  by rewrite <- !app_assoc.
Qed.

(** Where the fields of an entry lie. *)
Lemma entry_slices n r : entry_ok n r →
  slice (entry_bytes r) 0 1 = Some [kind_byte (kind r)] ∧ slice (entry_bytes r) 1 2 = Some [name_length r] ∧
  slice (entry_bytes r) 2 50 = Some (name r) ∧ slice (entry_bytes r) 50 54 = Some (to_le 4 (start_sector r)) ∧
  slice (entry_bytes r) 54 58 = Some (to_le 4 (rsector_count r)) ∧ slice (entry_bytes r) 58 62 = Some (to_le 4 (flength r)).
Proof.
  intros Hr. pose proof (eo_name _ _ Hr) as Hn. unfold entry_bytes.
  pose proof (length_to_le 4 (start_sector r)). pose proof (length_to_le 4 (rsector_count r)). pose proof (length_to_le 4 (flength r)).
  change ([kind_byte (kind r); name_length r]) with ([kind_byte (kind r)] ++ [name_length r]). rewrite <- app_assoc. split_and!.
  - by apply slice_head.
  - rewrite slice_skip by (cbn; lia). by apply slice_head.
  - do 2 (rewrite slice_skip by (cbn; lia)). cbn [length]. apply slice_head. lia.
  - do 3 (rewrite slice_skip by (cbn; lia)). cbn [length]. rewrite Hn. apply slice_head. lia.
  - do 4 (rewrite slice_skip by (rewrite ?Hn, ?length_to_le; cbn; lia)). cbn [length]. rewrite Hn, !length_to_le. apply slice_head. rewrite length_to_le. lia.
  - do 5 (rewrite slice_skip by (rewrite ?Hn, ?length_to_le; cbn; lia)). cbn [length]. rewrite Hn, !length_to_le. apply slice_all. rewrite length_to_le. lia.
Qed.

Lemma entry_tests n r : entry_ok n r →
  (negb (rsector_count r =? 0) && ((start_sector r <? FIRST_DATA_SECTOR) || (n <? start_sector r + rsector_count r)) = false) ∧
  (rsector_count r * SECTOR_SIZE <? flength r) = false ∧
  (bool_decide (kind r = KDirectory) && (negb (flength r =? 0) || negb (rsector_count r =? 0) || negb (start_sector r =? 0)) = false).
Proof.
  intros [_ _ _ Hk]. unfold FIRST_DATA_SECTOR, SECTOR_SIZE. destruct (kind r).
  - destruct Hk as (Hs & He & Hl & Hc). pose proof (extent_bounds _ Hl). rewrite bool_decide_false by done. cbn [andb].
    rewrite !(proj2 (Z.ltb_ge _ _)) by lia. cbn. by rewrite andb_false_r.
  - destruct Hk as (-> & -> & ->). cbn. by rewrite andb_false_r.
Qed.

Lemma parse_own n b i r : sector_ok b → 0 ≤ i < 8 → entry_ok n r →
  parse_record n (splice b (64 * i) (entry_bytes r)) i = Ok r.
Proof.
  intros [Hl Hb] Hi Hr. pose proof (entry_slices n r Hr) as (S0 & S1 & S2 & S3 & S4 & S5).
  pose proof (entry_fields n r Hr) as (Fs & Fc & Fl). pose proof (length_entry_bytes n r Hr) as He.
  assert (Hin : ∀ u v, 0 ≤ u ≤ v → v ≤ 62 → slice (splice b (64 * i) (entry_bytes r)) (64 * i + u) (64 * i + v) = slice (entry_bytes r) u v).
  { intros u v Hu Hv. apply slice_splice_in; lia. }
  unfold parse_record, DIRECTORY_ENTRY_SIZE, get_u32. rewrite (Z.mul_comm i 64).
  rewrite !index_slice. replace (64 * i) with (64 * i + 0) at 2 by lia. rewrite <- !Z.add_assoc.
  replace (64 * i + 1) with (64 * i + 0 + 1) at 1 by lia.
  replace (64 * i + 0 + 1) with (64 * i + 1) by lia.
  rewrite (Hin 0 1), (Hin 1 (1 + 1)), (Hin 2 50), (Hin 50 (50 + 4)), (Hin 54 (54 + 4)), (Hin 58 (58 + 4)) by lia.
  change (1 + 1) with 2. change (50 + 4) with 54. change (54 + 4) with 58. change (58 + 4) with 62.
  rewrite S0, S1, S2, S3, S4, S5. cbn [expect mbind res_bind].
  assert ((kind_byte (kind r) =? 0) = false) as -> by (by destruct (kind r)).
  assert ((if kind_byte (kind r) =? 1 then Ok KFile else if kind_byte (kind r) =? 2 then Ok KDirectory else Err InvalidFormat)
    = Ok (E := VfsError) (kind r)) as -> by (by destruct (kind r)). cbn [mbind res_bind].
  unfold MAX_PATH_LENGTH. pose proof (eo_length _ _ Hr). rewrite (proj2 (Z.eqb_neq _ _)), (proj2 (Z.ltb_ge _ _)) by lia. cbn [orb].
  rewrite !from_to_le_small by done. destruct (entry_tests n r Hr) as (-> & -> & ->). by destruct r.
Qed.

(** An entry does not depend on the bytes outside of its 64. *)
Lemma parse_other n b i j x : sector_ok b → 0 ≤ i < 8 → 0 ≤ j < 8 → j ≠ i → zlen x ≤ 64 →
  parse_record n (splice b (64 * i) x) j = parse_record n b j.
Proof.
  intros [Hl Hb] Hi Hj Hne Hx.
  assert (Hs : ∀ u v, 0 ≤ u ≤ v → v ≤ 64 → slice (splice b (64 * i) x) (64 * j + u) (64 * j + v) = slice b (64 * j + u) (64 * j + v)).
  { intros u v Hu Hv. destruct (decide (j < i)); [apply splice_before|apply splice_after]; lia. }
  unfold parse_record, DIRECTORY_ENTRY_SIZE, get_u32. rewrite (Z.mul_comm j 64), !index_slice.
  pose proof (Hs 0 1 ltac:(lia) ltac:(lia)) as H0. rewrite Z.add_0_r in H0. rewrite H0. rewrite <- !Z.add_assoc.
  rewrite (Hs 1 (1 + 1)), (Hs 2 50), (Hs 50 (50 + 4)), (Hs 54 (54 + 4)), (Hs 58 (58 + 4)) by lia. done.
Qed.

Lemma parse_cleared n b i : sector_ok b → 0 ≤ i < 8 → parse_record n (splice b (64 * i) (zeros 64)) i = Ok record_empty.
Proof.
  intros [Hl Hb] Hi. unfold parse_record, DIRECTORY_ENTRY_SIZE. rewrite (Z.mul_comm i 64), !index_slice.
  pose proof (slice_splice_in b (zeros 64) (64 * i) 0 1 ltac:(lia) ltac:(lia) ltac:(rewrite length_zeros; lia) ltac:(rewrite length_zeros; lia)) as H0.
  rewrite Z.add_0_r in H0. rewrite H0. done.
Qed.

(** *** The whole directory *)

Lemma parse_records_spec n b ixs rs : parse_records n b ixs = Ok rs ↔ Forall2 (λ i r, parse_record n b i = Ok r) ixs rs.
Proof.
  revert rs. induction ixs as [|i ixs IH]; intros rs; cbn.
  - split; [intros [= <-]; constructor|]. by inversion 1.
  - split.
    + intros H. inv_bind H. inv_bind H. injection H as <-. constructor; [done|]. by apply IH.
    + inversion 1 as [|? r ? rs' Hr Hrs]; subst. rewrite Hr. cbn. apply IH in Hrs. by rewrite Hrs.
Qed.

Lemma slots_lookup i : (i < 8)%nat → slots !! i = Some (Z.of_nat i).
Proof. intros Hi. do 8 (destruct i as [|i]; [done|]). lia. Qed.

Lemma parse_slots n b rs : parse_records n b slots = Ok rs ↔
  length rs = 8%nat ∧ ∀ i r, rs !! i = Some r → parse_record n b (Z.of_nat i) = Ok r.
Proof.
  rewrite parse_records_spec, Forall2_same_length_lookup. split.
  - intros [Hl H]. split; [done|]. intros i r Hi. eapply H; [|done]. apply slots_lookup.
    apply lookup_lt_Some in Hi. cbn in Hl. lia.
  - intros [Hl H]. split; [done|]. intros i x r Hx Hr. pose proof (lookup_lt_Some _ _ _ Hr). rewrite slots_lookup in Hx by lia.
    injection Hx as <-. by apply H.
Qed.

Lemma parse_update n b i x r rs : sector_ok b → (i < 8)%nat → zlen x ≤ 64 →
  parse_record n (splice b (64 * Z.of_nat i) x) (Z.of_nat i) = Ok r →
  parse_records n b slots = Ok rs → parse_records n (splice b (64 * Z.of_nat i) x) slots = Ok (<[i := r]> rs).
Proof.
  rewrite !parse_slots. intros Hb Hi Hx Hr [Hl H]. rewrite length_insert. split; [done|].
  intros j r' Hj. destruct (decide (j = i)) as [->|Hne].
  - rewrite list_lookup_insert_eq in Hj by lia. injection Hj as <-. done.
  - rewrite list_lookup_insert_ne in Hj by done. pose proof (lookup_lt_Some _ _ _ Hj).
    rewrite parse_other; [by apply H|done|lia..].
Qed.

(** ** The state of a mounted filesystem *)

(** What a path stands for, and the filesystem as a map. *)
Inductive node := NFile (b : list Z) | NDir.
#[export] Instance node_eq_dec : EqDecision node.
Proof. solve_decision. Defined.
Abbreviation files := (gmap (list Z) node).


Section spec.
Context {D : Type} `{BD : !BlockDevice D} `{WD : !WorkingDevice D}.
Implicit Types (fs : @VantaFs D) (rs : list FileRecord) (r : FileRecord).

Lemma bind_ok {S E A B} (m : M S E A) (f : A → M S E B) s s' a : m s = (s', Ok a) → (m ≫= f) s = f a s'.
Proof. intros H. unfold mbind, M_bind. by rewrite H. Qed.
Lemma bind_err {S E A B} (m : M S E A) (f : A → M S E B) s s' e : m s = (s', Err e) → (m ≫= f) s = (s', Err e).
Proof. intros H. unfold mbind, M_bind. by rewrite H. Qed.
Lemma bind_lift {S E A B} (a : A) (f : A → M S E B) s : (lift (Ok a) ≫= f) s = f a s.
Proof. done. Qed.

Lemma read_dev_ok fs s : device_ok (device fs) → 0 ≤ s < sector_count (device fs) →
  read_dev s fs = (fs, Ok (disk (device fs) s)).
Proof. intros Hd Hs. unfold read_dev. by rewrite read_disk. Qed.

(** [fs'] differs from [fs] at most in the sectors of [P]. *)
Record changed (P : Z → Prop) fs fs' : Prop := {
  ch_ok : device_ok (device fs');
  ch_count : sector_count (device fs') = sector_count (device fs);
  ch_vsectors : vsectors fs' = vsectors fs;
  ch_same t : 0 ≤ t < sector_count (device fs) → ¬ P t → disk (device fs') t = disk (device fs) t }.

Lemma write_dev_ok fs s b : device_ok (device fs) → 0 ≤ s < sector_count (device fs) → sector_ok b →
  ∃ fs', write_dev s b fs = (fs', Ok ()) ∧ changed (λ t, t = s) fs fs' ∧ disk (device fs') s = b.
Proof.
  intros Hd Hs Hb. destruct (write_disk (device fs) s b Hd Hs Hb) as (d' & Hw & Hok & Hc & Hbs & Hot).
  exists {| device := d'; vsectors := vsectors fs |}. unfold write_dev. rewrite Hw. split; [done|]. split; [|done].
  split; cbn; try done.
Qed.

Lemma changed_refl P fs : device_ok (device fs) → changed P fs fs.
Proof. by split. Qed.

Lemma changed_trans (P Q R : Z → Prop) fs1 fs2 fs3 : changed P fs1 fs2 → changed Q fs2 fs3 →
  (∀ t, P t ∨ Q t → R t) → changed R fs1 fs3.
Proof.
  intros [O1 C1 V1 S1] [O2 C2 V2 S2] HR. split; [done|congruence|congruence|].
  intros t Ht Hn. rewrite S2, S1; [done|done|naive_solver|by rewrite C1|naive_solver].
Qed.

(** The bytes of [n] consecutive sectors. *)
Fixpoint run_bytes (dk : Z → list Z) (start : Z) (n : nat) : list Z :=
  match n with
  | O => []
  | S n' => dk start ++ run_bytes dk (start + 1) n'
  end.

Lemma run_bytes_ext dk dk' start n : (∀ t, start ≤ t < start + Z.of_nat n → dk' t = dk t) →
  run_bytes dk' start n = run_bytes dk start n.
Proof.
  revert start. induction n as [|n IH]; intros start H; [done|]. cbn. rewrite H by lia. f_equal. apply IH. intros t Ht. apply H. lia.
Qed.

Lemma read_run_ok fs start n : device_ok (device fs) → 0 ≤ start → ∀ index copied length done,
  0 ≤ index → start + index + Z.of_nat n ≤ sector_count (device fs) → zlen done = copied → copied ≤ length →
  length - copied ≤ 512 * Z.of_nat n →
  read_run n start length index copied (done ++ zeros (length - copied)) fs =
    (fs, Ok (done ++ take (Z.to_nat (length - copied)) (run_bytes (disk (device fs)) (start + index) n))).
Proof.
  intros Hd Hs. induction n as [|n IH]; intros index copied length done Hi Hr Hdone Hle Hfit.
  { cbn. replace (length - copied) with 0 by lia. done. }
  cbn [read_run run_bytes]. rewrite (bind_ok _ _ _ _ _ (read_dev_ok fs (start + index) Hd ltac:(lia))).
  destruct (disk_sector (device fs) (start + index) Hd ltac:(lia)) as [Hl Hb].
  set (sec := disk (device fs) (start + index)) in *. set (count := Z.min (length - copied) SECTOR_SIZE).
  assert (Hc : count = Z.min (length - copied) 512) by done.
  rewrite (slice_in sec 0 count) by lia. rewrite Z.sub_0_r, drop_0.
  cbn [expect]. rewrite bind_lift.
  rewrite put_slice_ok by (rewrite ?length_app, ?length_take, ?length_zeros; lia). rewrite bind_lift.
  assert (Hsp : splice (done ++ zeros (length - copied)) copied (take (Z.to_nat count) sec) =
    (done ++ take (Z.to_nat count) sec) ++ zeros (length - (copied + count))).
  { unfold splice. rewrite take_app_length' by lia. rewrite <- app_assoc. do 2 f_equal.
    rewrite drop_app_ge by lia. rewrite length_take. unfold zeros. rewrite drop_replicate. f_equal. lia. }
  rewrite Hsp. destruct (Z.eqb_spec (copied + count) length) as [He|He].
  - unfold mret, M_ret. do 2 f_equal. rewrite He, Z.sub_diag. change (zeros 0) with (@nil Z). rewrite app_nil_r. f_equal.
    replace (length - copied) with count by lia. symmetry. apply take_app_le. lia.
  - assert (Hc5 : count = 512) by lia. rewrite IH; [|lia|lia|rewrite length_app, length_take; lia|lia|lia].
    do 2 f_equal. rewrite <- app_assoc. f_equal. rewrite (take_ge sec) by lia.
    rewrite take_app_ge by lia. f_equal. replace (start + (index + 1)) with (start + index + 1) by lia. f_equal. lia.
Qed.

(** The sector built for one round of the loop. *)
Lemma chunk_ok (data : list Z) offset : 0 ≤ offset → bytes data →
  let from := offset * SECTOR_SIZE in
  ∃ b, (if from <? zlen data then
          let count := Z.min (zlen data - from) SECTOR_SIZE in
          b ← expect (slice data from (from + count)); put_slice (zeros SECTOR_SIZE) 0 b
        else Ok (E := VfsError) (zeros SECTOR_SIZE)) = Ok b ∧ sector_ok b ∧
    take (Z.to_nat (zlen data - 512 * offset)) b = take 512 (drop (Z.to_nat (512 * offset)) data).
Proof.
  intros Ho Hd. cbv zeta. unfold SECTOR_SIZE. replace (offset * 512) with (512 * offset) by lia.
  assert (Hz : sector_ok (zeros 512)) by (split; [done|apply zeros_bytes]).
  destruct (Z.ltb_spec (512 * offset) (zlen data)) as [Hlt|Hge].
  - set (count := Z.min (zlen data - 512 * offset) 512). rewrite slice_in by lia. cbn [expect mbind res_bind].
    replace (512 * offset + count - 512 * offset) with count by lia.
    set (x := take (Z.to_nat count) (drop (Z.to_nat (512 * offset)) data)).
    assert (Hx : zlen x = count) by (unfold x; rewrite length_take, length_drop; lia).
    rewrite put_slice_ok by (rewrite ?length_zeros; lia). eexists. split; [reflexivity|]. split.
    + apply splice_sector; [done|by apply Forall_take, Forall_drop|lia|lia].
    + rewrite splice_0. destruct (decide (zlen data - 512 * offset ≤ 512)).
      * rewrite take_app_length' by lia. unfold x. rewrite !take_ge by (rewrite ?length_drop; lia). done.
      * rewrite take_ge by (rewrite length_app, length_drop, length_zeros; lia). rewrite drop_ge by (rewrite length_zeros; lia).
        rewrite app_nil_r. unfold x. by replace (Z.to_nat count) with 512%nat by lia.
  - eexists. split; [reflexivity|]. split; [done|]. rewrite drop_ge by lia. by replace (Z.to_nat (zlen data - 512 * offset)) with 0%nat by lia.
Qed.

Lemma write_run_ok start data n : 0 ≤ start → bytes data → ∀ offset fs, device_ok (device fs) → 0 ≤ offset →
  start + offset + Z.of_nat n ≤ sector_count (device fs) → zlen data ≤ 512 * (offset + Z.of_nat n) →
  ∃ fs', write_run n start offset data fs = (fs', Ok ()) ∧
    changed (λ t, start + offset ≤ t < start + offset + Z.of_nat n) fs fs' ∧
    take (Z.to_nat (zlen data - 512 * offset)) (run_bytes (disk (device fs')) (start + offset) n) =
      drop (Z.to_nat (512 * offset)) data.
Proof.
  intros Hs Hb. induction n as [|n IH]; intros offset fs Hd Ho Hr Hfit.
  { exists fs. split; [done|]. split; [by apply changed_refl|]. cbn. rewrite take_nil, drop_ge by lia. done. }
  cbn [write_run run_bytes]. destruct (chunk_ok data offset Ho Hb) as (b & Hch & Hbs & Htk).
  cbv zeta in Hch |- *. rewrite Hch, bind_lift.
  destruct (write_dev_ok fs (start + offset) b Hd ltac:(lia) Hbs) as (fs1 & Hw & Hc1 & Hb1).
  rewrite (bind_ok _ _ _ _ _ Hw). pose proof (ch_count _ _ _ Hc1) as Hn1.
  destruct (IH (offset + 1) fs1) as (fs' & Hws & Hc2 & Htail); [apply Hc1|lia|lia|lia|].
  exists fs'. split; [done|]. split; [eapply changed_trans; [done|done|cbn; lia]|].
  rewrite (ch_same _ _ _ Hc2 (start + offset)), Hb1 by lia. replace (start + offset + 1) with (start + (offset + 1)) by lia.
  destruct Hbs as [Hbl _]. rewrite take_app, Hbl, Htk.
  replace (Z.to_nat (zlen data - 512 * offset) - 512)%nat with (Z.to_nat (zlen data - 512 * (offset + 1))) by lia.
  rewrite Htail. replace (Z.to_nat (512 * (offset + 1))) with (Z.to_nat (512 * offset) + 512)%nat by lia.
  rewrite <- drop_drop. apply take_drop.
Qed.

(** *** The invariant *)

Record wf fs rs : Prop := {
  wf_dev : device_ok (device fs);
  wf_sectors : vsectors fs = sector_count (device fs);
  wf_size : 2 < sector_count (device fs);
  wf_super : superblock (vsectors fs) = Ok (disk (device fs) 0);
  wf_dir : parse_records (vsectors fs) (disk (device fs) 1) slots = Ok rs;
  wf_entry r : r ∈ rs → r = record_empty ∨ entry_ok (vsectors fs) r ∧ utf8 (path_of r) = true;
  wf_names i j r r' : rs !! i = Some r → rs !! j = Some r' → active r → active r' → path_of r = path_of r' → i = j;
  wf_apart i j r r' : rs !! i = Some r → rs !! j = Some r' → i ≠ j → active r → active r' →
    start_sector r + rsector_count r ≤ start_sector r' ∨ start_sector r' + rsector_count r' ≤ start_sector r }.

Lemma records_ok fs rs : wf fs rs → records fs = (fs, Ok rs).
Proof.
  intros H. pose proof (wf_size _ _ H). unfold records, DIRECTORY_SECTOR. rewrite read_dev_ok; [|apply H|lia].
  by rewrite (wf_dir _ _ H).
Qed.

Lemma wf_length fs rs : wf fs rs → length rs = 8%nat.
Proof. intros H. by destruct (proj1 (parse_slots _ _ _) (wf_dir _ _ H)). Qed.

Lemma wf_active fs rs i r : wf fs rs → rs !! i = Some r → active r →
  entry_ok (vsectors fs) r ∧ utf8 (path_of r) = true.
Proof.
  intros H Hi Ha. destruct (wf_entry _ _ H r) as [->|Hr]; [by eapply list_elem_of_lookup_2|done|done].
Qed.

Lemma matches_path r p : 0 ≤ name_length r ≤ 48 → length (name r) = 48%nat → matches r p = true ↔ path_of r = p.
Proof.
  intros Hn Hl. unfold matches. rewrite andb_true_iff, Z.eqb_eq, bool_decide_eq_true. unfold path_of.
  split; [tauto|]. intros <-. split; [|done]. rewrite length_take. lia.
Qed.

(** A path is looked up by the entries in use. *)
Lemma find_record_ok fs rs p : wf fs rs → ∃ o, find_record p fs = (fs, Ok o) ∧
  match o with
  | Some (i, r) => ∃ k, i = Z.of_nat k ∧ rs !! k = Some r ∧ active r ∧ path_of r = p
  | None => ∀ k r, rs !! k = Some r → active r → path_of r ≠ p
  end.
Proof.
  intros H. unfold find_record. eexists. rewrite (bind_ok _ _ _ _ _ (records_ok fs rs H)). split; [reflexivity|].
  assert (Hm : ∀ k r, rs !! k = Some r → (negb (name_length r =? 0) && matches r p = true) ↔ active r ∧ path_of r = p).
  { intros k r Hk. rewrite andb_true_iff, negb_true_iff, Z.eqb_neq. split; intros [Ha ?]; (split; [done|]);
      destruct (wf_active fs rs k r H Hk Ha) as [[Hn _ Hl _] _]; by apply (matches_path r p ltac:(lia) Hn). }
  destruct (list_find _ rs) as [[k r]|] eqn:Hf.
  - apply list_find_Some in Hf as (Hk & Hp & _). exists k. split; [done|]. split; [done|]. by apply (Hm k r Hk).
  - intros k r Hk Ha Hp. apply list_find_None in Hf. rewrite Forall_lookup in Hf. apply (Hf k r Hk). by apply (Hm k r Hk).
Qed.

(** *** The abstract state *)

Definition content fs r : node :=
  match kind r with
  | KFile => NFile (take (Z.to_nat (flength r)) (run_bytes (disk (device fs)) (start_sector r) (Z.to_nat (rsector_count r))))
  | KDirectory => NDir
  end.

Definition shows fs rs (m : files) : Prop :=
  ∀ p v, m !! p = Some v ↔ ∃ k r, rs !! k = Some r ∧ active r ∧ path_of r = p ∧ v = content fs r.

Definition represents fs (m : files) : Prop := ∃ rs, wf fs rs ∧ shows fs rs m.

Lemma shows_found fs rs m k r : shows fs rs m → rs !! k = Some r → active r → m !! path_of r = Some (content fs r).
Proof. intros Hs Hk Ha. apply Hs. by exists k, r. Qed.

Lemma shows_none fs rs m p : shows fs rs m → (∀ k r, rs !! k = Some r → active r → path_of r ≠ p) → m !! p = None.
Proof.
  intros Hs Hn. destruct (m !! p) as [v|] eqn:Hm; [|done]. apply Hs in Hm as (k & r & Hk & Ha & Hp & _). by destruct (Hn k r Hk Ha).
Qed.

(** Finding a path in the directory and in the map. *)
Lemma find_shows fs rs m p : wf fs rs → shows fs rs m → ∃ o, find_record p fs = (fs, Ok o) ∧
  match o with
  | Some (i, r) => ∃ k, i = Z.of_nat k ∧ rs !! k = Some r ∧ active r ∧ path_of r = p ∧ m !! p = Some (content fs r)
  | None => m !! p = None ∧ ∀ k r, rs !! k = Some r → active r → path_of r ≠ p
  end.
Proof.
  intros H Hs. destruct (find_record_ok fs rs p H) as (o & Hf & Ho). exists o. split; [done|]. destruct o as [[i r]|].
  - destruct Ho as (k & -> & Hk & Ha & <-). exists k. split_and!; try done. by eapply shows_found.
  - split; [by eapply shows_none|done].
Qed.

(** A change of the disk outside of the directory and of the files shows the
    same map. *)
Lemma content_same (P : Z → Prop) fs fs' r : changed P fs fs' → entry_ok (sector_count (device fs)) r →
  (∀ t, start_sector r ≤ t < start_sector r + rsector_count r → ¬ P t) → content fs' r = content fs r.
Proof.
  intros Hc Hr Hp. unfold content. destruct Hr as [_ _ _ Hk]. destruct (kind r); [|done].
  destruct Hk as (Hs & Hle & Hl & Hx). pose proof (extent_bounds _ Hl). do 2 f_equal. apply run_bytes_ext. intros t Ht.
  apply (ch_same _ _ _ Hc); [lia|]. apply Hp. lia.
Qed.

(** *** Changing one entry *)

(** Entry [k] can become [r'] beside the other entries. *)
Record fits fs rs (k : nat) (r' : FileRecord) : Prop := {
  ft_entry : r' = record_empty ∨ entry_ok (vsectors fs) r' ∧ utf8 (path_of r') = true;
  ft_other j r : rs !! j = Some r → j ≠ k → active r → active r' → path_of r ≠ path_of r' ∧
    (start_sector r + rsector_count r ≤ start_sector r' ∨ start_sector r' + rsector_count r' ≤ start_sector r) }.

(** Writing entry [k] after the sectors [P] of the entry were written. *)
Lemma install_entry (P : Z → Prop) fs fs1 rs k r' x : wf fs rs → changed P fs fs1 → (k < 8)%nat → fits fs rs k r' →
  (∀ t, P t → 2 ≤ t) → bytes x → zlen x ≤ 64 → (∀ j r, rs !! j = Some r → j ≠ k → active r → ∀ t, start_sector r ≤ t < start_sector r + rsector_count r → ¬ P t) →
  (∀ b, sector_ok b → parse_record (vsectors fs) (splice b (64 * Z.of_nat k) x) (Z.of_nat k) = Ok r') →
  ∃ fs', write_dev 1 (splice (disk (device fs1) 1) (64 * Z.of_nat k) x) fs1 = (fs', Ok ()) ∧ wf fs' (<[k := r']> rs) ∧
    content fs' r' = content fs1 r' ∧ (∀ j r, rs !! j = Some r → j ≠ k → active r → content fs' r = content fs r).
Proof.
  intros H Hc Hk [Hent Hoth] HP Hx Hxl Hfree Hparse. pose proof H as [Hdev Hsec Hsize Hsup Hdir Hentry Hnames Hapart].
  pose proof (ch_count _ _ _ Hc) as Hn. pose proof (ch_vsectors _ _ _ Hc) as Hv. pose proof (ch_ok _ _ _ Hc) as Hd1.
  pose proof (wf_length _ _ H) as Hlen.
  assert (Hd0 : disk (device fs1) 0 = disk (device fs) 0) by (apply (ch_same _ _ _ Hc); [lia|]; intros ?%HP; lia).
  assert (Hd : disk (device fs1) 1 = disk (device fs) 1) by (apply (ch_same _ _ _ Hc); [lia|]; intros ?%HP; lia).
  assert (Hb1 : sector_ok (disk (device fs1) 1)) by (apply disk_sector; [done|lia]).
  destruct (write_dev_ok fs1 1 (splice (disk (device fs1) 1) (64 * Z.of_nat k) x) Hd1 ltac:(lia)) as (fs' & Hw & Hc' & Hb');
    [by apply splice_sector; [done|done|lia|lia]|].
  exists fs'. split; [done|]. pose proof (ch_count _ _ _ Hc') as Hn'. pose proof (ch_vsectors _ _ _ Hc') as Hv'.
  assert (Hcc : changed (λ t, P t ∨ t = 1) fs fs') by (eapply changed_trans; [done|done|cbn; tauto]).
  assert (Hkeep : ∀ j r, rs !! j = Some r → j ≠ k → active r → content fs' r = content fs r).
  { intros j r Hj Hne Ha. destruct (wf_active fs rs j r H Hj Ha) as [Hr _]. eapply content_same; [done|by rewrite <- Hsec|].
    intros t Ht [HPt| ->]; [by eapply Hfree|]. destruct Hr as [_ _ _ Hkk]. destruct (kind r); lia. }
  split; [|split; [|done]].
  - assert (Hlk : ∀ j r, <[k := r']> rs !! j = Some r → j = k ∧ r = r' ∨ j ≠ k ∧ rs !! j = Some r).
    { intros j r Hj. destruct (decide (j = k)) as [->|Hne].
      - rewrite list_lookup_insert_eq in Hj by lia. left. split; congruence.
      - rewrite list_lookup_insert_ne in Hj by done. by right. }
    split; [apply Hc'|congruence|congruence| | | | |].
    + rewrite Hv', Hv, (ch_same _ _ _ Hc'), Hd0 by lia. done.
    + rewrite Hb', Hv', Hv, Hd. rewrite Hd in Hb1. by apply parse_update; [done|done|lia|apply Hparse|].
    + intros r [j Hj]%list_elem_of_lookup. rewrite Hv', Hv.
      destruct (Hlk j r Hj) as [[-> ->]|[Hne Hj']]; [done|]. by apply Hentry; eapply list_elem_of_lookup_2.
    + intros i j r1 r2 Hi Hj Ha1 Ha2 Hp. destruct (Hlk i r1 Hi) as [[-> ->]|[Hi' Hi2]], (Hlk j r2 Hj) as [[-> ->]|[Hj' Hj2]]; try done.
      * symmetry in Hp. by destruct (Hoth j r2 Hj2 Hj' Ha2 Ha1).
      * by destruct (Hoth i r1 Hi2 Hi' Ha1 Ha2).
      * by eapply Hnames.
    + intros i j r1 r2 Hi Hj Hij Ha1 Ha2. destruct (Hlk i r1 Hi) as [[-> ->]|[Hi' Hi2]], (Hlk j r2 Hj) as [[-> ->]|[Hj' Hj2]]; try done.
      * destruct (Hoth j r2 Hj2 Hj' Ha2 Ha1). tauto.
      * by destruct (Hoth i r1 Hi2 Hi' Ha1 Ha2).
      * by eapply (Hapart i j).
  - destruct Hent as [->|[Hr _]]; [done|]. eapply content_same; [done|rewrite <- Hsec in Hn; rewrite Hn; done|].
    intros t Ht ->. destruct Hr as [_ _ _ Hkk]. destruct (kind r'); lia.
Qed.

(** The map after entry [k] became [r']. *)
Definition forget (r0 : FileRecord) (m : files) : files := if decide (name_length r0 = 0) then m else delete (path_of r0) m.
Definition remember fs (r' : FileRecord) (m : files) : files :=
  if decide (name_length r' = 0) then m else <[path_of r' := content fs r']> m.

Lemma shows_update fs fs' rs m k r0 r' : wf fs' (<[k := r']> rs) → wf fs rs → shows fs rs m → rs !! k = Some r0 →
  (∀ j r, rs !! j = Some r → j ≠ k → active r → content fs' r = content fs r) →
  shows fs' (<[k := r']> rs) (remember fs' r' (forget r0 m)).
Proof.
  intros H' H Hs Hk Hkeep p v. pose proof (lookup_lt_Some _ _ _ Hk) as Hlt.
  assert (Hold : forget r0 m !! p = Some v ↔ ∃ j r, rs !! j = Some r ∧ j ≠ k ∧ active r ∧ path_of r = p ∧ v = content fs r).
  { unfold forget. case_decide as Hz.
    - rewrite (Hs p v). split; intros (j & r & Hj & Hrest); exists j, r; [|tauto]. split; [done|].
      split; [|tauto]. intros ->. rewrite Hk in Hj. injection Hj as <-. tauto.
    - rewrite lookup_delete_Some, (Hs p v). split.
      + intros (Hne & j & r & Hj & Ha & Hp & Hv). exists j, r. split_and!; try done. intros ->. congruence.
      + intros (j & r & Hj & Hne & Ha & Hp & Hv). split; [|by exists j, r]. intros Hpe. apply Hne.
        eapply (wf_names _ _ H j k r r0); congruence. }
  assert (Hother : (∃ j r, <[k := r']> rs !! j = Some r ∧ j ≠ k ∧ active r ∧ path_of r = p ∧ v = content fs' r) ↔ forget r0 m !! p = Some v).
  { rewrite Hold. split; intros (j & r & Hj & Hne & Ha & Hp & ->); exists j, r; rewrite list_lookup_insert_ne in * by done;
      (split_and!; try done); [|symmetry]; by eapply Hkeep. }
  assert (Hsame : <[k := r']> rs !! k = Some r') by (by apply list_lookup_insert_eq).
  unfold remember. case_decide as Hz.
  - rewrite <- Hother. split; intros (j & r & Hj & Hrest); exists j, r; [tauto|]. split; [done|]. split; [|done].
    intros ->. rewrite Hsame in Hj. injection Hj as <-. tauto.
  - destruct (decide (p = path_of r')) as [->|Hne].
    + rewrite lookup_insert_eq. split; [intros [= <-]; by exists k, r'|]. intros (j & r & Hj & Ha & Hp & ->).
      assert (j = k) as -> by (by eapply (wf_names _ _ H' j k r r')). rewrite Hsame in Hj. by injection Hj as <-.
    + rewrite lookup_insert_ne by done. rewrite <- Hother. split; intros (j & r & Hj & Hrest); exists j, r; [tauto|].
      split; [done|]. split; [|done]. intros ->. rewrite Hsame in Hj. injection Hj as <-. destruct Hrest as (_ & ? & _). done.
Qed.

Lemma dir_sector fs : device_ok (device fs) → 2 < sector_count (device fs) → read_dev DIRECTORY_SECTOR fs = (fs, Ok (disk (device fs) 1)).
Proof. intros Hd Hn. unfold DIRECTORY_SECTOR. by apply read_dev_ok; [|lia]. Qed.

Lemma write_record_ok (P : Z → Prop) fs fs1 rs k r' : wf fs rs → changed P fs fs1 → (k < 8)%nat → fits fs rs k r' → active r' →
  (∀ t, P t → 2 ≤ t) → (∀ j r, rs !! j = Some r → j ≠ k → active r → ∀ t, start_sector r ≤ t < start_sector r + rsector_count r → ¬ P t) →
  ∃ fs', write_record (Z.of_nat k) r' fs1 = (fs', Ok ()) ∧ wf fs' (<[k := r']> rs) ∧
    content fs' r' = content fs1 r' ∧ (∀ j r, rs !! j = Some r → j ≠ k → active r → content fs' r = content fs r).
Proof.
  intros H Hc Hk Hfit Ha HP Hfree. pose proof (ch_ok _ _ _ Hc) as Hd1. pose proof (ch_count _ _ _ Hc) as Hn. pose proof (wf_size _ _ H).
  destruct (ft_entry _ _ _ _ Hfit) as [->|[Hr _]]; [done|].
  destruct (install_entry P fs fs1 rs k r' (entry_bytes r') H Hc Hk Hfit HP) as (fs' & Hw & Hrest); try done.
  - by eapply entry_bytes_bytes.
  - rewrite (length_entry_bytes _ _ Hr). lia.
  - intros b Hb. apply parse_own; [done|lia|done].
  - exists fs'. split; [|done]. unfold write_record. rewrite (bind_ok _ _ _ _ _ (dir_sector fs1 Hd1 ltac:(lia))).
    rewrite (encode_spec (vsectors fs)); [|apply disk_sector; [done|lia]|lia|done]. by rewrite bind_lift.
Qed.

Lemma clear_record_ok fs rs k : wf fs rs → (k < 8)%nat →
  ∃ fs', clear_record (Z.of_nat k) fs = (fs', Ok ()) ∧ wf fs' (<[k := record_empty]> rs) ∧
    (∀ j r, rs !! j = Some r → j ≠ k → active r → content fs' r = content fs r).
Proof.
  intros H Hk. pose proof (wf_size _ _ H) as Hn. pose proof (wf_dev _ _ H) as Hd.
  destruct (install_entry (λ _, False) fs fs rs k record_empty (zeros 64) H (changed_refl _ _ Hd) Hk) as (fs' & Hw & Hwf & _ & Hkeep); try done.
  - split; [by left|done].
  - apply zeros_bytes.
  - tauto.
  - intros b Hb. apply parse_cleared; [done|lia].
  - exists fs'. split; [|done]. unfold clear_record. rewrite (bind_ok _ _ _ _ _ (dir_sector fs Hd ltac:(lia))).
    unfold DIRECTORY_ENTRY_SIZE. destruct (disk_sector (device fs) 1 Hd ltac:(lia)) as [Hl _].
    rewrite put_slice_ok by (rewrite ?length_zeros; lia). rewrite bind_lift. by rewrite Z.mul_comm.
Qed.

Lemma first_free_ok fs rs : wf fs rs →
  (∃ k r, first_free_index fs = (fs, Ok (Z.of_nat k)) ∧ rs !! k = Some r ∧ name_length r = 0) ∨
  first_free_index fs = (fs, Err NoSpace) ∧ (∀ r, r ∈ rs → active r).
Proof.
  intros H. unfold first_free_index. rewrite (bind_ok _ _ _ _ _ (records_ok fs rs H)).
  destruct (list_find _ rs) as [[k r]|] eqn:Hf.
  - apply list_find_Some in Hf as (Hk & Hz & _). left. by exists k, r.
  - right. split; [done|]. apply list_find_None in Hf. by rewrite Forall_forall in Hf.
Qed.

(** *** Free space *)

Definition clear_of rs (ignored c k : Z) : Prop := ∀ j r, rs !! j = Some r → Z.of_nat j ≠ ignored → active r →
  c + k ≤ start_sector r ∨ start_sector r + rsector_count r ≤ c.

Lemma available_spec rs c k ignored : available rs c k ignored = true ↔ clear_of rs ignored c k.
Proof.
  unfold available. rewrite forallb_forall. split.
  - intros H j r Hj Hne Ha. specialize (H ((Z.of_nat j =? ignored) || (name_length r =? 0) || (c + k <=? start_sector r) ||
                               (start_sector r + rsector_count r <=? c))).
    unfold id in H at 1. rewrite !orb_true_iff, Z.eqb_eq, Z.eqb_eq, !Z.leb_le in H. destruct H as [[[?|?]|?]|?]; try tauto.
    apply list_elem_of_In, list_elem_of_lookup. exists j. rewrite list_lookup_imap, Hj. done.
  - intros H b [j Hj]%list_elem_of_In%list_elem_of_lookup. rewrite list_lookup_imap in Hj. destruct (rs !! j) as [r|] eqn:Hr; [|done].
    injection Hj as <-. cbn. rewrite !orb_true_iff, !Z.eqb_eq, !Z.leb_le.
    destruct (decide (Z.of_nat j = ignored)); [tauto|]. destruct (decide (name_length r = 0)); [tauto|]. destruct (H j r); tauto.
Qed.

Lemma scan_spec n rs k ignored c : match scan n rs c k ignored with
  | Ok s => c ≤ s < c + Z.of_nat n ∧ s < 2 ^ 32 ∧ clear_of rs ignored s k
  | Err e => e = NoSpace ∧ ∀ s, c ≤ s < c + Z.of_nat n → s < 2 ^ 32 → ¬ clear_of rs ignored s k
  | Panic => False
  end.
Proof.
  revert c. induction n as [|n IH]; intros c; cbn; [split; [done|lia]|].
  destruct (available rs c k ignored) eqn:Ha.
  - apply available_spec in Ha. destruct (Z.ltb_spec c (2 ^ 32)); [split; [lia|done]|]. split; [done|lia].
  - specialize (IH (c + 1)). destruct (scan n rs (c + 1) k ignored); [|destruct IH as [-> IH]|done].
    + destruct IH as (? & ? & ?). split; [lia|done].
    + split; [done|]. intros s Hs Hs2. destruct (decide (s = c)) as [->|]; [|apply IH; lia].
      intros Hc%available_spec. congruence.
Qed.

Lemma allocate_ok fs rs k o : wf fs rs → 0 < k → (∀ i, o = Some i → 0 ≤ i < 8) →
  let other j := ∀ i, o = Some i → Z.of_nat j ≠ i in
  let free c := ∀ j r, rs !! j = Some r → other j → active r → c + k ≤ start_sector r ∨ start_sector r + rsector_count r ≤ c in
  (∃ c, allocate k o fs = (fs, Ok c) ∧ 2 ≤ c < 2 ^ 32 ∧ c + k ≤ vsectors fs ∧ free c) ∨
  allocate k o fs = (fs, Err NoSpace) ∧ ∀ c, 2 ≤ c < 2 ^ 32 → c + k ≤ vsectors fs → ¬ free c.
Proof.
  intros H Hk Ho other free. unfold allocate. rewrite (bind_ok _ _ _ _ _ (records_ok fs rs H)). rewrite (bind_ok get _ fs fs fs eq_refl).
  unfold checked_sub. destruct (Z.leb_spec k (vsectors fs)) as [Hle|Hlt]; [|right; split; [done|lia]].
  assert (Heq : ∀ c, clear_of rs (default USIZE_MAX o) c k ↔ free c).
  { intros c. pose proof (wf_length _ _ H) as Hl. unfold clear_of, free, other, USIZE_MAX.
    split; intros Hf j r Hj Hne Ha; (eapply Hf; [done| |done]); pose proof (lookup_lt_Some _ _ _ Hj).
    - destruct o as [i|]; cbn; [by apply Hne|lia].
    - intros i ->. done. }
  pose proof (scan_spec (Z.to_nat (vsectors fs - k - FIRST_DATA_SECTOR + 1)) rs k (default USIZE_MAX o) FIRST_DATA_SECTOR) as Hs.
  unfold lift. destruct (scan (Z.to_nat (vsectors fs - k - FIRST_DATA_SECTOR + 1)) rs FIRST_DATA_SECTOR k (default USIZE_MAX o)) as [c|e|];
    [left|right|done]; unfold FIRST_DATA_SECTOR in *.
  - destruct Hs as (Hc & Hc2 & Hf%Heq). exists c. split; [done|]. split; [lia|]. split; [lia|done].
  - destruct Hs as [-> Hs]. split; [done|]. intros c Hc Hc2 Hf%Heq. apply (Hs c); [lia|lia|done].
Qed.
End spec.
