(* ===== verification/VantaFsSpec.v ===== *)
(** * VantaFS is a map from paths to files

    On a working device every operation does what it would do on a finite
    map of at most eight paths, and what is stored survives a remount. *)

From stdpp Require Import gmap sorting.
From S2P Require Import Prelude Words Vfs Storage Paths VantaFs VantaFsDisk.

(** ** Requests and what they mean on a map *)

Inductive request :=
| RRead (p : list Z) | RWrite (p data : list Z) | RRemove (p : list Z) | RCreateDir (p : list Z)
| RRename (p q : list Z) | RInfo (p : list Z) | RList.

Inductive reply := Done | Data (b : list Z) | Info (i : FileInfo) | Names (l : list (list Z)).

Definition info_of (v : node) : FileInfo :=
  match v with
  | NFile b => {| fi_length := zlen b; allocated_sectors := extent (zlen b); is_directory := false; fi_uid := 0; fi_gid := 0; fi_mode := 33188 |}
  | NDir => {| fi_length := 0; allocated_sectors := 0; is_directory := true; fi_uid := 0; fi_gid := 0; fi_mode := 16877 |}
  end.

Definition has_child (m : files) (p : list Z) : Prop := ∃ k, is_Some (m !! (p ++ SLASH :: k)).
Definition listed (p : list Z) (v : node) : list Z := [SLASH] ++ p ++ match v with NDir => [SLASH] | NFile _ => [] end.

(** The outcome on a path that is not acceptable, or on the path itself. *)
Definition on_path (p : list Z) (m : files) (r : res VfsError reply) (m' : files) (k : list Z → Prop) : Prop :=
  match normalize_path p with
  | Ok p => k p
  | Err e => r = Err e ∧ m' = m
  | Panic => False
  end.

Section spec.
Context {D : Type} `{BD : !BlockDevice D} `{WD : !WorkingDevice D}.
Implicit Types (fs : @VantaFs D) (rs : list FileRecord) (r : FileRecord).

Definition run (q : request) : M VantaFs VfsError reply :=
  match q with
  | RRead p => b ← read_file p; mret (Data b)
  | RWrite p data => _ ← write_file p data; mret Done
  | RRemove p => _ ← remove_file p; mret Done
  | RCreateDir p => _ ← create_dir p; mret Done
  | RRename p q => _ ← rename_file p q; mret Done
  | RInfo p => i ← file_info p; mret (Info i)
  | RList => l ← list_files; mret (Names l)
  end.

(** No run of [k] sectors is free of the files other than [p]. *)
Definition no_room fs (p : list Z) (k : Z) : Prop := ∀ rs c, records fs = (fs, Ok rs) → 2 ≤ c < 2 ^ 32 → c + k ≤ vsectors fs →
  ∃ r, r ∈ rs ∧ active r ∧ path_of r ≠ p ∧ start_sector r < c + k ∧ c < start_sector r + rsector_count r.

(** What request [q] does to the map [m], when [fs] holds it. *)
Definition means fs (q : request) (m : files) (r : res VfsError reply) (m' : files) : Prop :=
  match q with
  | RRead p => on_path p m r m' (λ p, m' = m ∧ r =
      match m !! p with Some (NFile b) => Ok (Data b) | Some NDir => Err IsDirectory | None => Err NotFound end)
  | RWrite p data => on_path p m r m' (λ p,
      if decide (m !! p = Some NDir) then r = Err IsDirectory ∧ m' = m else
      (r = Ok Done ∧ m' = <[p := NFile data]> m) ∨
      (r = Err NoSpace ∧ m' = m ∧ (m !! p = None ∧ size m = 8%nat ∨ no_room fs p (extent (zlen data)))))
  | RRemove p => on_path p m r m' (λ p,
      match m !! p with
      | None => r = Err NotFound ∧ m' = m
      | Some v => (v = NDir ∧ has_child m p ∧ r = Err NotEmpty ∧ m' = m) ∨
                  (¬ (v = NDir ∧ has_child m p) ∧ r = Ok Done ∧ m' = delete p m)
      end)
  | RCreateDir p => on_path p m r m' (λ p,
      match m !! p with
      | Some _ => r = Err AlreadyExists ∧ m' = m
      | None => if decide (size m = 8%nat) then r = Err NoSpace ∧ m' = m else r = Ok Done ∧ m' = <[p := NDir]> m
      end)
  | RRename p q => on_path p m r m' (λ p, on_path q m r m' (λ q,
      if decide (p = q) then r = Ok Done ∧ m' = m else
      match m !! p with
      | None => r = Err NotFound ∧ m' = m
      | Some v => (v = NDir ∧ has_child m p ∧ r = Err NotEmpty ∧ m' = m) ∨
                  (¬ (v = NDir ∧ has_child m p) ∧
                   if decide (m !! q = None) then r = Ok Done ∧ m' = <[q := v]> (delete p m)
                   else r = Err AlreadyExists ∧ m' = m)
      end))
  | RInfo p => on_path p m r m' (λ p, m' = m ∧ r = match m !! p with Some v => Ok (Info (info_of v)) | None => Err NotFound end)
  | RList => m' = m ∧ ∃ l, r = Ok (Names l) ∧ l ≡ₚ ((λ pv, listed pv.1 pv.2) <$> map_to_list m)
  end.

Definition request_ok (q : request) : Prop :=
  match q with
  | RWrite p data => utf8 p = true ∧ bytes p ∧ bytes data ∧ zlen data < 2 ^ 32
  | RRename _ p | RCreateDir p => utf8 p = true ∧ bytes p
  | _ => True
  end.

(** ** Reading *)

Lemma normalize_no_panic p : normalize_path p ≠ Panic.
Proof. unfold normalize_path. destruct (_ || _); [|done]. by destruct (_ <? _). Qed.

Lemma normalize_good p q : normalize_path p = Ok q → utf8 p = true → bytes p → 0 < zlen q ≤ 48 ∧ utf8 q = true ∧ bytes q.
Proof.
  unfold normalize_path, MAX_PATH_LENGTH. intros Hn Hu Hb.
  set (q' := default p (strip_prefix [SLASH] p)) in *.
  assert (Hq : utf8 q' = true ∧ bytes q').
  { unfold q', strip_prefix. destruct p as [|c p]; [done|]. cbn [starts_with]. destruct (Z.eqb_spec SLASH c) as [<-|]; [|done].
    cbn. inversion Hb; subst. done. }
  destruct (_ || _) eqn:Hbad; [by destruct (_ <? _)|]. injection Hn as <-.
  apply orb_false_iff in Hbad as [Hbad _]. apply orb_false_iff in Hbad as [He%bool_decide_eq_false Hl%Z.ltb_ge].
  split; [|done]. destruct q'; [done|]. cbn [length] in *. lia.
Qed.

(** The file an entry points to. *)
Lemma content_length fs r : device_ok (device fs) → entry_ok (sector_count (device fs)) r → kind r = KFile →
  ∃ b, content fs r = NFile b ∧ zlen b = flength r.
Proof.
  intros Hd [_ _ _ Hk] Hkind. unfold content. rewrite Hkind in *. eexists. split; [done|].
  destruct Hk as (Hs & Hle & Hl & Hx). pose proof (extent_bounds _ Hl) as [_ He].
  assert (Hlen : ∀ n s, 0 ≤ s → s + Z.of_nat n ≤ sector_count (device fs) → zlen (run_bytes (disk (device fs)) s n) = 512 * Z.of_nat n).
  { induction n as [|n IH]; intros s H0 Hn; [done|]. cbn [run_bytes]. rewrite length_app. destruct (disk_sector (device fs) s Hd ltac:(lia)) as [Hsl _].
    specialize (IH (s + 1)). lia. }
  rewrite length_take. specialize (Hlen (Z.to_nat (rsector_count r)) (start_sector r)). lia.
Qed.

Lemma read_file_ok fs rs m p q : wf fs rs → shows fs rs m → normalize_path p = Ok q →
  read_file p fs = (fs, match m !! q with Some (NFile b) => Ok b | Some NDir => Err IsDirectory | None => Err NotFound end).
Proof.
  intros H Hs Hn. unfold read_file. rewrite Hn, bind_lift. destruct (find_shows fs rs m q H Hs) as (o & Hf & Ho).
  rewrite (bind_ok _ _ _ _ _ Hf). destruct o as [[i r]|]; [|destruct Ho as [-> _]; done].
  destruct Ho as (k & -> & Hk & Ha & Hp & ->). unfold require, ok_or. rewrite bind_lift.
  destruct (wf_active fs rs k r H Hk Ha) as [Hr _]. pose proof (eo_kind _ _ Hr) as Hkd. unfold content.
  destruct (kind r) eqn:Hkind; [|done]. rewrite bool_decide_false by done. destruct Hkd as (Hst & Hle & Hl & Hx).
  pose proof (extent_bounds _ Hl) as [Hc He]. rewrite (wf_sectors _ _ H) in Hle.
  pose proof (read_run_ok fs (start_sector r) (Z.to_nat (rsector_count r)) (wf_dev _ _ H) ltac:(lia) 0 0 (flength r) []
    ltac:(lia) ltac:(lia) ltac:(done) ltac:(lia) ltac:(lia)) as Hrd.
  by rewrite Z.sub_0_r, Z.add_0_r in Hrd.
Qed.

(** ** Storing *)

Lemma store_file fs rs m k r0 r' data : wf fs rs → shows fs rs m → rs !! k = Some r0 → fits fs rs k r' → active r' →
  kind r' = KFile → flength r' = zlen data → bytes data →
  ∃ fs', (_ ← write_run (Z.to_nat (rsector_count r')) (start_sector r') 0 data; write_record (Z.of_nat k) r') fs = (fs', Ok ()) ∧
    represents fs' (<[path_of r' := NFile data]> (forget r0 m)).
Proof.
  intros H Hs Hk Hfit Ha Hkind Hlen Hb. destruct (ft_entry _ _ _ _ Hfit) as [->|[Hr _]]; [done|].
  pose proof (eo_kind _ _ Hr) as Hkd. rewrite Hkind in Hkd. destruct Hkd as (Hst & Hle & Hl & Hx). rewrite (wf_sectors _ _ H) in Hle.
  pose proof (extent_bounds _ Hl) as [Hc He]. pose proof (lookup_lt_Some _ _ _ Hk) as Hlt. rewrite (wf_length _ _ H) in Hlt.
  destruct (write_run_ok (start_sector r') data (Z.to_nat (rsector_count r')) ltac:(lia) Hb 0 fs (wf_dev _ _ H))
    as (fs1 & Hw & Hch & Htk); [lia..|]. rewrite (bind_ok _ _ _ _ _ Hw).
  destruct (write_record_ok _ fs fs1 rs k r' H Hch Hlt Hfit Ha) as (fs' & Hw' & Hwf & Hcont & Hkeep).
  - intros t Ht. lia.
  - intros j r Hj Hne Haj t Ht Ht2. destruct (ft_other _ _ _ _ Hfit j r Hj Hne Haj Ha) as [_ [?|?]]; lia.
  - exists fs'. split; [done|]. exists (<[k := r']> rs). split; [done|].
    pose proof (shows_update fs fs' rs m k r0 r' Hwf H Hs Hk Hkeep) as Hu. unfold remember in Hu. rewrite decide_False in Hu by done.
    assert (content fs' r' = NFile data) as <-; [|done]. rewrite Hcont. unfold content. rewrite Hkind, Hlen.
    rewrite Z.mul_0_r, Z.sub_0_r, Z.add_0_r in Htk. by rewrite Htk.
Qed.

Lemma store_entry fs rs m k r0 r' : wf fs rs → shows fs rs m → rs !! k = Some r0 → fits fs rs k r' → active r' →
  ∃ fs', write_record (Z.of_nat k) r' fs = (fs', Ok ()) ∧ represents fs' (<[path_of r' := content fs r']> (forget r0 m)).
Proof.
  intros H Hs Hk Hfit Ha. pose proof (lookup_lt_Some _ _ _ Hk) as Hlt. rewrite (wf_length _ _ H) in Hlt.
  destruct (write_record_ok (λ _, False) fs fs rs k r' H (changed_refl _ _ (wf_dev _ _ H)) Hlt Hfit Ha) as (fs' & Hw & Hwf & Hcont & Hkeep);
    [tauto|tauto|]. exists fs'. split; [done|]. exists (<[k := r']> rs). split; [done|].
  pose proof (shows_update fs fs' rs m k r0 r' Hwf H Hs Hk Hkeep) as Hu. unfold remember in Hu. rewrite decide_False in Hu by done.
  by rewrite <- Hcont.
Qed.

Lemma remove_entry fs rs m k r0 : wf fs rs → shows fs rs m → rs !! k = Some r0 → active r0 →
  ∃ fs', clear_record (Z.of_nat k) fs = (fs', Ok ()) ∧ represents fs' (delete (path_of r0) m).
Proof.
  intros H Hs Hk Ha. pose proof (lookup_lt_Some _ _ _ Hk) as Hlt. rewrite (wf_length _ _ H) in Hlt.
  destruct (clear_record_ok fs rs k H Hlt) as (fs' & Hw & Hwf & Hkeep). exists fs'. split; [done|].
  exists (<[k := record_empty]> rs). split; [done|].
  pose proof (shows_update fs fs' rs m k r0 record_empty Hwf H Hs Hk Hkeep) as Hu. unfold remember, forget in Hu.
  by rewrite decide_True, decide_False in Hu.
Qed.

(** The name field of a new entry. *)
Lemma name_field (p : list Z) : 0 < zlen p ≤ 48 → bytes p → ∃ nm, put_slice (E := VfsError) (replicate 48 0) 0 p = Ok nm ∧
  length nm = 48%nat ∧ bytes nm ∧ take (Z.to_nat (zlen p)) nm = p.
Proof.
  intros Hl Hb. exists (splice (replicate 48 0) 0 p). split; [by apply put_slice_ok; [lia|rewrite length_replicate; lia]|].
  split; [by rewrite length_splice by (rewrite ?length_replicate; lia)|]. rewrite splice_0. split.
  - apply Forall_app. split; [done|]. apply Forall_drop, Forall_replicate. done.
  - rewrite Nat2Z.id. apply take_app_length.
Qed.

(** Beside an entry with a new name. *)
Lemma fits_new fs rs k r' : wf fs rs → entry_ok (vsectors fs) r' → utf8 (path_of r') = true →
  (∀ j r, rs !! j = Some r → j ≠ k → active r → path_of r ≠ path_of r') →
  (∀ j r, rs !! j = Some r → j ≠ k → active r → start_sector r' + rsector_count r' ≤ start_sector r ∨ start_sector r + rsector_count r ≤ start_sector r') →
  fits fs rs k r'.
Proof.
  intros H Hr Hu Hp Ha. split; [by right|]. intros j r Hj Hne Haj _. split; [by eapply Hp|]. destruct (Ha j r Hj Hne Haj); tauto.
Qed.

(** ** The number of paths *)

Lemma paths_nodup {A} (P : A → Prop) `{HPd : !∀ x, Decision (P x)} (f : A → list Z) (l : list A) :
  (∀ i j x y, l !! i = Some x → l !! j = Some y → P x → P y → f x = f y → i = j) → NoDup (f <$> filter P l).
Proof.
  induction l as [|x l IH]; intros H; [constructor|].
  assert (NoDup (f <$> filter P l)) by (apply IH; intros i j y z Hi Hj; intros; assert (S i = S j) by (by eapply (H (S i) (S j) y z)); lia).
  rewrite filter_cons. case_decide as Hx; [|done]. rewrite fmap_cons. constructor; [|done].
  intros (y & He & [Hy (j & Hj)%list_elem_of_lookup]%list_elem_of_filter)%list_elem_of_fmap.
  assert (0%nat = S j) by (by eapply (H 0%nat (S j) x y)). done.
Qed.

Lemma size_shows fs rs m : wf fs rs → shows fs rs m → size m = length (filter (λ r, active r) rs).
Proof.
  intros H Hs. set (l := path_of <$> filter (λ r, active r) rs).
  assert (Hnd : NoDup l) by (apply paths_nodup; intros; by eapply (wf_names _ _ H)).
  assert (Hdom : dom m = list_to_set (C := gset (list Z)) l).
  { apply set_eq. intros p. rewrite elem_of_dom, elem_of_list_to_set. unfold l. rewrite list_elem_of_fmap. split.
    - intros [v (k & r & Hk & Ha & Hp & _)%Hs]. exists r. split; [done|]. apply list_elem_of_filter. split; [done|].
      by eapply list_elem_of_lookup_2.
    - intros (r & -> & [Ha [k Hk]%list_elem_of_lookup]%list_elem_of_filter). eexists. by eapply shows_found. }
  rewrite <- size_dom, Hdom, size_list_to_set by done. unfold l. by rewrite length_fmap.
Qed.

Lemma list_filter_all {A} (P : A → Prop) `{HPd : !∀ x, Decision (P x)} (l : list A) : Forall P l → filter P l = l.
Proof. induction 1; [done|]. rewrite filter_cons_True by done. by f_equal. Qed.

Lemma size_full fs rs m : wf fs rs → shows fs rs m → (∀ r, r ∈ rs → active r) → size m = 8%nat.
Proof. intros H Hs Ha. rewrite (size_shows fs rs m H Hs), list_filter_all; [by apply wf_length in H|]. by apply Forall_forall. Qed.

Lemma size_not_full fs rs m k r : wf fs rs → shows fs rs m → rs !! k = Some r → name_length r = 0 → size m ≠ 8%nat.
Proof.
  intros H Hs Hk Hz. rewrite (size_shows fs rs m H Hs).
  pose proof (filter_length_lt (λ r, active r) (λ _, True) rs r ltac:(done) (list_elem_of_lookup_2 _ _ _ Hk) I ltac:(cbn; lia)) as Hlt.
  assert (filter (λ _ : FileRecord, True) rs = rs) as Hall by (apply list_filter_all, Forall_forall; done).
  rewrite Hall in Hlt. rewrite (wf_length _ _ H) in Hlt. lia.
Qed.

(** ** Every request means what it says *)

Definition correct fs (q : request) (m : files) : Prop :=
  ∃ fs' (a : res VfsError reply) m', run q fs = (fs', a) ∧ means fs q m a m' ∧ represents fs' m'.

Lemma bind_bad {S A B} (e : VfsError) (f : A → M S VfsError B) s : (lift (Err e) ≫= f) s = (s, Err e).
Proof. done. Qed.

Lemma content_kind fs r : content fs r = NDir ↔ kind r = KDirectory.
Proof. unfold content. by destruct (kind r). Qed.

Lemma read_correct fs m p : represents fs m → correct fs (RRead p) m.
Proof.
  intros (rs & H & Hs). unfold correct, run, means, on_path. destruct (normalize_path p) as [q|e|] eqn:Hn.
  - eexists fs, _, m. split; [|split; [split; [done|reflexivity]|by exists rs]].
    pose proof (read_file_ok fs rs m p q H Hs Hn) as Hr. destruct (m !! q) as [[b|]|];
      [by rewrite (bind_ok _ _ _ _ _ Hr)|by rewrite (bind_err _ _ _ _ _ Hr)..].
  - eexists fs, _, m. split; [|split; [split; reflexivity|by exists rs]]. apply bind_err. unfold read_file. rewrite Hn. apply bind_bad.
  - by destruct (normalize_no_panic p).
Qed.

Lemma info_correct fs m p : represents fs m → correct fs (RInfo p) m.
Proof.
  intros (rs & H & Hs). unfold correct, run, means, on_path, file_info. destruct (normalize_path p) as [q|e|] eqn:Hn.
  - eexists fs, _, m. split; [|split; [split; [done|reflexivity]|by exists rs]].
    destruct (find_shows fs rs m q H Hs) as (o & Hf & Ho). destruct o as [[i r]|].
    + destruct Ho as (k & -> & Hk & Ha & Hp & ->). erewrite bind_ok; [|rewrite bind_lift, (bind_ok _ _ _ _ _ Hf); unfold require, ok_or; rewrite bind_lift; reflexivity].
      unfold mret, M_ret. do 3 f_equal. destruct (wf_active fs rs k r H Hk Ha) as [Hr _]. unfold info_of.
      destruct (kind r) eqn:Hkd.
      * rewrite (wf_sectors _ _ H) in Hr. destruct (content_length fs r (wf_dev _ _ H) Hr Hkd) as (b & -> & Hb).
        pose proof (eo_kind _ _ Hr) as Hek. rewrite Hkd in Hek. destruct Hek as (_ & _ & _ & Hx). rewrite !bool_decide_false by done. by rewrite Hb, Hx.
      * assert (content fs r = NDir) as -> by (by apply content_kind). pose proof (eo_kind _ _ Hr) as Hek. rewrite Hkd in Hek.
        destruct Hek as (_ & -> & ->). by rewrite !bool_decide_true.
    + destruct Ho as [-> _]. apply bind_err. rewrite bind_lift, (bind_ok _ _ _ _ _ Hf). apply bind_bad.
  - eexists fs, _, m. split; [|split; [split; reflexivity|by exists rs]]. apply bind_err. apply bind_bad.
  - by destruct (normalize_no_panic p).
Qed.

Lemma list_names_spec rs : (∀ r, r ∈ rs → active r → utf8 (path_of r) = true) →
  list_names rs = Ok ((λ r, [SLASH] ++ path_of r ++ (if bool_decide (kind r = KDirectory) then [SLASH] else [])) <$> filter (λ r, active r) rs).
Proof.
  induction rs as [|r rs IH]; intros H; [done|]. cbn [list_names]. rewrite filter_cons.
  rewrite IH by (intros x Hx; apply H; by right). destruct (Z.eqb_spec (name_length r) 0) as [Hz|Hz].
  - by rewrite decide_False by (cbn; lia).
  - rewrite decide_True by done. fold (path_of r). rewrite H by (done || left). done.
Qed.

Lemma listed_content fs r : listed (path_of r) (content fs r) = [SLASH] ++ path_of r ++ (if bool_decide (kind r = KDirectory) then [SLASH] else []).
Proof. unfold listed, content. by destruct (kind r). Qed.

(** The entries in use are the map. *)
Lemma entries_map fs rs m : wf fs rs → shows fs rs m →
  ((λ r, (path_of r, content fs r)) <$> filter (λ r, active r) rs) ≡ₚ map_to_list m.
Proof.
  intros H Hs. apply NoDup_Permutation.
  - apply (NoDup_fmap_1 fst). rewrite <- list_fmap_compose. apply (paths_nodup (λ r, active r)). intros. by eapply (wf_names _ _ H).
  - apply NoDup_map_to_list.
  - intros [p v]. rewrite elem_of_map_to_list, (Hs p v), list_elem_of_fmap. split.
    + intros (r & [= -> ->] & [Ha [k Hk]%list_elem_of_lookup]%list_elem_of_filter). by exists k, r.
    + intros (k & r & Hk & Ha & <- & ->). exists r. split; [done|]. apply list_elem_of_filter. split; [done|]. by eapply list_elem_of_lookup_2.
Qed.

Lemma list_correct fs m : represents fs m → correct fs RList m.
Proof.
  intros (rs & H & Hs). unfold correct, run, means, list_files.
  eexists fs, _, m. split; [|split; [split; [done|]|by exists rs]].
  { erewrite bind_ok; [reflexivity|]. rewrite (bind_ok _ _ _ _ _ (records_ok fs rs H)). rewrite list_names_spec; [reflexivity|].
    intros r [k Hk]%list_elem_of_lookup Ha. by destruct (wf_active fs rs k r H Hk Ha). }
  eexists. split; [reflexivity|]. rewrite <- (entries_map fs rs m H Hs), <- list_fmap_compose.
  apply reflexive_eq, list_fmap_ext. intros i r _. symmetry. apply listed_content.
Qed.

Lemma is_child_spec fs rs k r p : wf fs rs → rs !! k = Some r → is_child p r = true ↔ active r ∧ ∃ x, path_of r = p ++ SLASH :: x.
Proof.
  intros H Hk. unfold is_child. fold (path_of r). rewrite !andb_true_iff, Z.ltb_lt, starts_with_spec, bool_decide_eq_true.
  assert (Hact : active r → zlen (path_of r) = name_length r ∧ (∀ i, (i < Z.to_nat (name_length r))%nat → name r !! i = path_of r !! i)).
  { intros Ha. destruct (wf_active fs rs k r H Hk Ha) as [Hr _]. pose proof (eo_length _ _ Hr). pose proof (eo_name _ _ Hr).
    unfold path_of. split; [rewrite length_take; lia|]. intros i Hi. by rewrite lookup_take_lt. }
  split.
  - intros [[Hlt [x Hx]] Hsl]. assert (Ha : active r) by lia. split; [done|]. destruct (Hact Ha) as [Hl Hn].
    rewrite Hn in Hsl by lia. rewrite Hx, lookup_app_r, Nat.sub_diag in Hsl by lia. destruct x as [|c x]; [done|]. injection Hsl as ->. by exists x.
  - intros [Ha [x Hx]]. destruct (Hact Ha) as [Hl Hn]. rewrite Hx in Hl. rewrite length_app in Hl. cbn [length] in Hl.
    split; [split; [lia|by eexists]|]. rewrite Hn by lia. by rewrite Hx, lookup_app_r, Nat.sub_diag.
Qed.

Lemma has_children_ok fs rs m p : wf fs rs → shows fs rs m → ∃ b, has_children p fs = (fs, Ok b) ∧ (b = true ↔ has_child m p).
Proof.
  intros H Hs. unfold has_children. rewrite (bind_ok _ _ _ _ _ (records_ok fs rs H)). eexists. split; [reflexivity|].
  rewrite existsb_exists. unfold has_child. split.
  - intros (r & [k Hk]%list_elem_of_In%list_elem_of_lookup & [Ha [x Hx]]%(is_child_spec fs rs k r p H Hk)). exists x, (content fs r).
    rewrite <- Hx. by eapply shows_found.
  - intros (x & v & (k & r & Hk & Ha & Hp & _)%Hs). exists r. split; [by apply list_elem_of_In; eapply list_elem_of_lookup_2|].
    apply (is_child_spec fs rs k r p H Hk). split; [done|]. by exists x.
Qed.

(** The check for children made on directories only. *)
Lemma children_ok fs rs m p r : wf fs rs → shows fs rs m → ∃ b,
  (if bool_decide (kind r = KDirectory) then has_children p else mret false) fs = (fs, Ok b) ∧
  (b = true ↔ content fs r = NDir ∧ has_child m p).
Proof.
  intros H Hs. pose proof (content_kind fs r) as Hck. destruct (has_children_ok fs rs m p H Hs) as (b & Hb & Hiff). case_bool_decide as Hk.
  - exists b. split; [done|]. tauto.
  - exists false. split; [done|]. split; [done|tauto].
Qed.

Lemma remove_correct fs m p : represents fs m → correct fs (RRemove p) m.
Proof.
  intros (rs & H & Hs). unfold correct, run, means, on_path, remove_file. destruct (normalize_path p) as [q|e|] eqn:Hn.
  2: { eexists fs, _, m. split; [|split; [split; reflexivity|by exists rs]]. apply bind_err. apply bind_bad. }
  2: { by destruct (normalize_no_panic p). }
  destruct (find_shows fs rs m q H Hs) as (o & Hf & Ho). destruct o as [[i r]|].
  - destruct Ho as (k & -> & Hk & Ha & <- & ->). destruct (children_ok fs rs m (path_of r) r H Hs) as (b & Hb & Hiff).
    assert (Hrun : ∀ x, (if b then fail NotEmpty else clear_record (Z.of_nat k)) fs = x →
      (path ← lift (Ok (path_of r)); found ← find_record path; '(index, record) ← require NotFound found;
       children ← (if bool_decide (kind record = KDirectory) then has_children path else mret false);
       if (children : bool) then fail NotEmpty else clear_record index) fs = x).
    { intros x Hx. rewrite bind_lift, (bind_ok _ _ _ _ _ Hf). unfold require, ok_or. rewrite bind_lift.
      by rewrite (bind_ok _ _ _ _ _ Hb). }
    destruct b.
    + destruct (proj1 Hiff eq_refl) as [Hd Hc]. eexists fs, _, m. split; [apply bind_err; by apply Hrun|].
      split; [left; rewrite Hd; split_and!; done|by exists rs].
    + assert (Hno : ¬ (content fs r = NDir ∧ has_child m (path_of r))) by (intros Hx%Hiff; done).
      destruct (remove_entry fs rs m k r H Hs Hk Ha) as (fs' & Hw & Hrep).
      eexists fs', _, _. split; [erewrite bind_ok; [reflexivity|by apply Hrun]|]. split; [by right|done].
  - destruct Ho as [-> _]. eexists fs, _, m. split; [|split; [split; reflexivity|by exists rs]].
    apply bind_err. rewrite bind_lift, (bind_ok _ _ _ _ _ Hf). apply bind_bad.
Qed.

Lemma create_dir_correct fs m p : represents fs m → request_ok (RCreateDir p) → correct fs (RCreateDir p) m.
Proof.
  intros (rs & H & Hs) [Hu Hb]. unfold correct, run, means, on_path, create_dir. destruct (normalize_path p) as [q|e|] eqn:Hn.
  2: { eexists fs, _, m. split; [|split; [split; reflexivity|by exists rs]]. apply bind_err. apply bind_bad. }
  2: { by destruct (normalize_no_panic p). }
  destruct (normalize_good p q Hn Hu Hb) as (Hl & Huq & Hbq).
  destruct (find_shows fs rs m q H Hs) as (o & Hf & Ho). destruct o as [[i r]|].
  { destruct Ho as (k & -> & Hk & Ha & <- & ->). eexists fs, _, m. split; [|split; [split; reflexivity|by exists rs]].
    apply bind_err. by rewrite bind_lift, (bind_ok _ _ _ _ _ Hf). }
  destruct Ho as [Hm Hnone]. rewrite Hm. destruct (first_free_ok fs rs H) as [(k & r & Hfi & Hk & Hz)|[Hfi Hall]].
  - destruct (name_field q Hl Hbq) as (nm & Hput & Hnl & Hnb & Htk).
    set (r' := {| kind := KDirectory; name := nm; name_length := zlen q; start_sector := 0; rsector_count := 0; flength := 0 |}).
    assert (Hr : entry_ok (vsectors fs) r') by (by split).
    assert (Hp : path_of r' = q) by done.
    destruct (store_entry fs rs m k r r' H Hs Hk) as (fs' & Hw & Hrep).
    { apply fits_new; [done|done|by rewrite Hp|rewrite Hp; by eauto|].
      intros j x Hj _ Hax. destruct (wf_active fs rs j x H Hj Hax) as [Hx _]. pose proof (eo_kind _ _ Hx). cbn. destruct (kind x); lia. }
    { cbn. lia. }
    unfold forget in Hrep. rewrite decide_True, Hp in Hrep by done. change (content fs r') with NDir in Hrep.
    eexists fs', _, _. split; [|split; [rewrite decide_False by (by eapply size_not_full); split; reflexivity|done]].
    erewrite bind_ok; [reflexivity|]. rewrite bind_lift, (bind_ok _ _ _ _ _ Hf), (bind_ok _ _ _ _ _ Hfi). cbn [name record_empty]. by rewrite Hput, bind_lift.
  - eexists fs, _, m. split; [|split; [rewrite decide_True by (by eapply size_full); split; reflexivity|by exists rs]].
    apply bind_err. rewrite bind_lift, (bind_ok _ _ _ _ _ Hf). by rewrite (bind_err _ _ _ _ _ Hfi).
Qed.

Lemma entry_renamed n r nm k : entry_ok n r → length nm = 48%nat → bytes nm → 0 < k ≤ 48 →
  entry_ok n {| kind := kind r; name := nm; name_length := k; start_sector := start_sector r;
                rsector_count := rsector_count r; flength := flength r |}.
Proof. intros [_ _ _ Hk] Hl Hb Hn. by split. Qed.

Lemma rename_correct fs m p p' : represents fs m → request_ok (RRename p p') → correct fs (RRename p p') m.
Proof.
  intros (rs & H & Hs) [Hu Hb]. unfold correct, run, means, on_path, rename_file. destruct (normalize_path p) as [q|e|] eqn:Hn.
  2: { eexists fs, _, m. split; [|split; [split; reflexivity|by exists rs]]. apply bind_err. apply bind_bad. }
  2: { by destruct (normalize_no_panic p). }
  destruct (normalize_path p') as [q'|e|] eqn:Hn'.
  2: { eexists fs, _, m. split; [|split; [split; reflexivity|by exists rs]]. apply bind_err. rewrite bind_lift. apply bind_bad. }
  2: { by destruct (normalize_no_panic p'). }
  destruct (normalize_good p' q' Hn' Hu Hb) as (Hl & Huq & Hbq). destruct (decide (q = q')) as [->|Hqq].
  { eexists fs, _, m. split; [|split; [split; reflexivity|by exists rs]]. erewrite bind_ok; [reflexivity|].
    rewrite !bind_lift. by rewrite bool_decide_true. }
  destruct (find_shows fs rs m q H Hs) as (o & Hf & Ho). destruct o as [[i r]|].
  2: { destruct Ho as [-> _]. eexists fs, _, m. split; [|split; [split; reflexivity|by exists rs]].
       apply bind_err. rewrite !bind_lift, bool_decide_false by done. rewrite (bind_ok _ _ _ _ _ Hf). apply bind_bad. }
  destruct Ho as (k & -> & Hk & Ha & <- & ->). destruct (children_ok fs rs m (path_of r) r H Hs) as (b & Hb' & Hiff).
  destruct b.
  { destruct (proj1 Hiff eq_refl) as [Hd Hc]. eexists fs, _, m. split; [|split; [left; rewrite Hd; by split_and!|by exists rs]].
    apply bind_err. rewrite !bind_lift, bool_decide_false by done. rewrite (bind_ok _ _ _ _ _ Hf). unfold require, ok_or. rewrite bind_lift.
    by rewrite (bind_ok _ _ _ _ _ Hb'). }
  assert (Hno : ¬ (content fs r = NDir ∧ has_child m (path_of r))) by (intros Hx%Hiff; done).
  destruct (find_shows fs rs m q' H Hs) as (o & Hf' & Ho). destruct o as [[i r2]|].
  { destruct Ho as (k2 & -> & _ & _ & _ & Hm). eexists fs, _, m. split; [|split; [right; rewrite Hm; by rewrite decide_False|by exists rs]].
    apply bind_err. rewrite !bind_lift, bool_decide_false by done. rewrite (bind_ok _ _ _ _ _ Hf). unfold require, ok_or. rewrite bind_lift.
    rewrite (bind_ok _ _ _ _ _ Hb'). by rewrite (bind_ok _ _ _ _ _ Hf'). }
  destruct Ho as [Hm Hnone]. destruct (name_field q' Hl Hbq) as (nm & Hput & Hnl & Hnb & Htk).
  destruct (wf_active fs rs k r H Hk Ha) as [Hr _].
  set (r' := {| kind := kind r; name := nm; name_length := zlen q'; start_sector := start_sector r; rsector_count := rsector_count r; flength := flength r |}).
  assert (Hp : path_of r' = q') by done. pose proof (entry_renamed _ r nm (zlen q') Hr Hnl Hnb Hl) as Hr'. fold r' in Hr'.
  destruct (store_entry fs rs m k r r' H Hs Hk) as (fs' & Hw & Hrep).
  { apply fits_new; [done|done|by rewrite Hp|rewrite Hp; by eauto|].
    intros j x Hj Hne Hax. by destruct (wf_apart _ _ H j k x r Hj Hk Hne Hax Ha); [right|left]. }
  { cbn. lia. }
  unfold forget in Hrep. rewrite decide_False, Hp in Hrep by done. change (content fs r') with (content fs r) in Hrep.
  eexists fs', _, _. split; [|split; [right; rewrite decide_True by done; by split_and!|done]].
  erewrite bind_ok; [reflexivity|]. rewrite !bind_lift, bool_decide_false by done. rewrite (bind_ok _ _ _ _ _ Hf). unfold require, ok_or.
  rewrite bind_lift, (bind_ok _ _ _ _ _ Hb'), (bind_ok _ _ _ _ _ Hf'). change (zeros MAX_PATH_LENGTH) with (replicate 48 0). by rewrite Hput, bind_lift.
Qed.

(** *** Writing a file *)

Lemma no_room_intro fs rs p k i : wf fs rs → (∀ j r, rs !! j = Some r → active r → path_of r = p → Some (Z.of_nat j) = i) →
  (∀ c, 2 ≤ c < 2 ^ 32 → c + k ≤ vsectors fs →
     ¬ (∀ j r, rs !! j = Some r → (∀ x, i = Some x → Z.of_nat j ≠ x) → active r → c + k ≤ start_sector r ∨ start_sector r + rsector_count r ≤ c)) →
  no_room fs p k.
Proof.
  intros H Hown Hno rs' c Hr Hc Hck. rewrite (records_ok fs rs H) in Hr. injection Hr as <-.
  destruct (decide (Exists (λ r, active r ∧ path_of r ≠ p ∧ start_sector r < c + k ∧ c < start_sector r + rsector_count r) rs)) as [He|He].
  { apply Exists_exists in He as (r & Hin & ?). by exists r. }
  exfalso. apply (Hno c Hc Hck). intros j r Hj Hx Ha. apply not_Exists_Forall in He; [|apply _].
  rewrite Forall_lookup in He. specialize (He j r Hj). cbn in He.
  destruct (decide (c + k ≤ start_sector r)); [by left|]. destruct (decide (start_sector r + rsector_count r ≤ c)); [by right|].
  destruct (decide (path_of r = p)) as [Hp|Hp]; [|destruct He; split_and!; [done|done|lia|lia]]. pose proof (Hown j r Hj Ha Hp) as <-. by destruct (Hx (Z.of_nat j)).
Qed.

(** Where the data go: the run of the file, or a free one. *)
Definition placed fs rs (q data : list Z) (k : nat) (r1 : FileRecord) : Prop :=
  let r' := with_length r1 (zlen data) in
  path_of r' = q ∧ kind r' = KFile ∧ active r' ∧ fits fs rs k r'.

Lemma place_existing fs rs q data k r : wf fs rs → rs !! k = Some r → active r → path_of r = q → kind r = KFile → zlen data < 2 ^ 32 →
  let pick := (if rsector_count r =? extent (zlen data) then mret (Z.of_nat k, r) else
    start ← allocate (extent (zlen data)) (Some (Z.of_nat k)); mret (Z.of_nat k, with_extent r start (extent (zlen data)))) in
  (∃ r1, pick fs = (fs, Ok (Z.of_nat k, r1)) ∧ placed fs rs q data k r1) ∨ pick fs = (fs, Err NoSpace) ∧ no_room fs q (extent (zlen data)).
Proof.
  intros H Hk Ha Hp Hkd Hlen pick. destruct (wf_active fs rs k r H Hk Ha) as [Hr Hu].
  pose proof (extent_bounds (zlen data) ltac:(lia)) as [Hx _]. pose proof (eo_kind _ _ Hr) as Hek. rewrite Hkd in Hek. destruct Hek as (Hst & Hend & _ & _).
  assert (Hname : ∀ j x, rs !! j = Some x → j ≠ k → active x → path_of x ≠ q).
  { intros j x Hj Hne Hax He. apply Hne. by eapply (wf_names _ _ H j k x r); rewrite ?Hp. }
  unfold pick. destruct (Z.eqb_spec (rsector_count r) (extent (zlen data))) as [Heq|Hne].
  - left. exists r. split; [done|]. split_and!; try done. apply fits_new; [done| |by subst|by subst|].
    + destruct Hr as [? ? ? _]. split; try done. cbn. rewrite Hkd. split_and!; lia.
    + intros j x Hj Hne Hax. cbn. by destruct (wf_apart _ _ H j k x r Hj Hk Hne Hax Ha); [right|left].
  - pose proof (lookup_lt_Some _ _ _ Hk) as Hlt. rewrite (wf_length _ _ H) in Hlt.
    destruct (allocate_ok fs rs (extent (zlen data)) (Some (Z.of_nat k)) H ltac:(lia)) as [(c & Hal & Hc & Hce & Hfree)|[Hal Hno]];
      [intros i [= <-]; lia| |].
    + left. exists (with_extent r c (extent (zlen data))). split; [by rewrite (bind_ok _ _ _ _ _ Hal)|]. split_and!; try done.
      apply fits_new; [done| |by subst|by subst|].
      * destruct Hr as [? ? ? _]. split; try done. cbn. rewrite Hkd. split_and!; lia.
      * intros j x Hj Hne' Hax. cbn. apply (Hfree j x Hj); [|done]. intros i [= <-]. lia.
    + right. split; [by rewrite (bind_err _ _ _ _ _ Hal)|]. eapply (no_room_intro fs rs q _ (Some (Z.of_nat k)) H); [|done].
      intros j x Hj Hax Hpx. do 2 f_equal. by eapply (wf_names _ _ H j k x r); rewrite ?Hp.
Qed.

Lemma place_new fs rs q data : wf fs rs → (∀ k r, rs !! k = Some r → active r → path_of r ≠ q) → 0 < zlen q ≤ 48 → bytes q → utf8 q = true → zlen data < 2 ^ 32 →
  let pick := (index ← first_free_index; n ← lift (put_slice (name record_empty) 0 q); start ← allocate (extent (zlen data)) None;
    mret (index, {| kind := KFile; name := n; name_length := zlen q; start_sector := start; rsector_count := extent (zlen data); flength := 0 |})) in
  (∃ k r0 r1, pick fs = (fs, Ok (Z.of_nat k, r1)) ∧ rs !! k = Some r0 ∧ name_length r0 = 0 ∧ placed fs rs q data k r1) ∨
  pick fs = (fs, Err NoSpace) ∧ ((∀ r, r ∈ rs → active r) ∨ no_room fs q (extent (zlen data))).
Proof.
  intros H Hnone Hl Hb Hu Hlen pick. pose proof (extent_bounds (zlen data) ltac:(lia)) as [Hx _]. unfold pick.
  destruct (first_free_ok fs rs H) as [(k & r0 & Hfi & Hk & Hz)|[Hfi Hall]]; [|right; split; [by rewrite (bind_err _ _ _ _ _ Hfi)|by left]].
  destruct (name_field q Hl Hb) as (nm & Hput & Hnl & Hnb & Htk). rewrite (bind_ok _ _ _ _ _ Hfi). cbn [name record_empty]. rewrite Hput, bind_lift.
  destruct (allocate_ok fs rs (extent (zlen data)) None H ltac:(lia) ltac:(done)) as [(c & Hal & Hc & Hce & Hfree)|[Hal Hno]].
  - left. eexists k, r0, _. split; [by rewrite (bind_ok _ _ _ _ _ Hal)|]. split; [done|]. split; [done|]. split; [done|]. split; [done|].
    split; [cbn; lia|]. apply fits_new; [done|split; cbn; try done; lia|cbn; by rewrite <- Htk in Hu|cbn; unfold path_of; cbn; rewrite Htk; by eauto|].
    intros j x Hj _ Hax. cbn. by apply (Hfree j x Hj).
  - right. split; [by rewrite (bind_err _ _ _ _ _ Hal)|]. right. eapply (no_room_intro fs rs q _ None H); [|done].
    intros j x Hj Hax Hpx. by destruct (Hnone j x Hj Hax).
Qed.
Lemma write_correct fs m p data : represents fs m → request_ok (RWrite p data) → correct fs (RWrite p data) m.
Proof.
  intros (rs & H & Hs) (Hu & Hb & Hdb & Hlen). unfold correct, run, means, on_path, write_file. destruct (normalize_path p) as [q|e|] eqn:Hn.
  2: { eexists fs, _, m. split; [|split; [split; reflexivity|by exists rs]]. apply bind_err. apply bind_bad. }
  2: { by destruct (normalize_no_panic p). }
  destruct (normalize_good p q Hn Hu Hb) as (Hl & Huq & Hbq). unfold SECTOR_SIZE.
  replace (Z.max (zlen data) 1 + 512 - 1) with (Z.max (zlen data) 1 + 511) by lia. fold (extent (zlen data)).
  pose proof (extent_bounds (zlen data) ltac:(lia)) as [Hx _]. rewrite (proj2 (Z.ltb_lt (extent (zlen data)) (2 ^ 32))) by lia.
  destruct (find_shows fs rs m q H Hs) as (o & Hf & Ho).
  assert (Hstore : ∀ k r0 r1, rs !! k = Some r0 → placed fs rs q data k r1 → ∃ fs',
    (_ ← write_run (Z.to_nat (rsector_count (with_length r1 (zlen data)))) (start_sector (with_length r1 (zlen data))) 0 data;
     write_record (Z.of_nat k) (with_length r1 (zlen data))) fs = (fs', Ok ()) ∧ represents fs' (<[q := NFile data]> (forget r0 m))).
  { intros k r0 r1 Hk (Hp & Hkd & Ha & Hfit). subst q. by eapply store_file. }
  destruct o as [[i r]|].
  - destruct Ho as (k & -> & Hk & Ha & Hp & Hm). destruct (kind r) eqn:Hkd.
    + assert (Hnd : m !! q ≠ Some NDir) by (rewrite Hm; intros [= Hc%content_kind]; congruence).
      destruct (place_existing fs rs q data k r H Hk Ha Hp Hkd Hlen) as [(r1 & Hpick & Hpl)|[Hpick Hno]].
      * destruct (Hstore k r r1 Hk Hpl) as (fs' & Hw & Hrep). unfold forget in Hrep. rewrite decide_False, Hp, insert_delete_eq in Hrep by done.
        eexists fs', _, _. split; [|split; [rewrite decide_False by done; left; split; reflexivity|done]].
        erewrite bind_ok; [reflexivity|]. rewrite !bind_lift, (bind_ok _ _ _ _ _ Hf). erewrite bind_ok; [|rewrite Hkd, bool_decide_false by done; exact Hpick]. exact Hw.
      * eexists fs, _, m. split; [|split; [rewrite decide_False by done; right; split_and!; [reflexivity|done|by right]|by exists rs]].
        apply bind_err. rewrite !bind_lift, (bind_ok _ _ _ _ _ Hf). apply bind_err. by rewrite Hkd, bool_decide_false.
    + assert (Hd : m !! q = Some NDir) by (rewrite Hm; f_equal; by apply content_kind).
      eexists fs, _, m. split; [|split; [rewrite decide_True by done; split; reflexivity|by exists rs]].
      apply bind_err. rewrite !bind_lift, (bind_ok _ _ _ _ _ Hf). apply bind_err. by rewrite Hkd, bool_decide_true.
  - destruct Ho as [Hm Hnone]. destruct (place_new fs rs q data H Hnone Hl Hbq Huq Hlen) as [(k & r0 & r1 & Hpick & Hk & Hz & Hpl)|[Hpick Hno]].
    + destruct (Hstore k r0 r1 Hk Hpl) as (fs' & Hw & Hrep). unfold forget in Hrep. rewrite decide_True in Hrep by done.
      eexists fs', _, _. split; [|split; [rewrite decide_False by congruence; left; split; reflexivity|done]].
      erewrite bind_ok; [reflexivity|]. rewrite !bind_lift, (bind_ok _ _ _ _ _ Hf), (bind_ok _ _ _ _ _ Hpick). exact Hw.
    + eexists fs, _, m. split; [|split; [rewrite decide_False by congruence; right; split_and!; [reflexivity|done|]|by exists rs]].
      * apply bind_err. rewrite !bind_lift, (bind_ok _ _ _ _ _ Hf). by apply bind_err.
      * destruct Hno as [Hall|?]; [left; split; [done|by eapply size_full]|by right].
Qed.

Lemma request_correct fs m q : represents fs m → request_ok q → correct fs q m.
Proof.
  destruct q; intros Hr Hok; [by apply read_correct|by apply write_correct|by apply remove_correct|by apply create_dir_correct|
    by apply rename_correct|by apply info_correct|by apply list_correct].
Qed.

(** ** Formatting and mounting *)

Definition super_bytes (n : Z) : list Z :=
  MAGIC ++ to_le 4 1 ++ to_le 4 512 ++ to_le 8 n ++ to_le 4 1 ++ to_le 4 8.

Lemma superblock_spec n : superblock n = Ok (splice (zeros 512) 0 (super_bytes n)).
Proof.
  unfold superblock, put_u32, put_u64, SECTOR_SIZE, DIRECTORY_SECTOR, MAX_DIRECTORY_ENTRIES.
  assert (Hz : length (zeros 512) = 512%nat) by done.
  assert (E : ∀ l a (x : list Z), length l = 512%nat → 0 ≤ a → a + zlen x ≤ 512 → length (splice l a x) = 512%nat)
    by (intros; rewrite length_splice; lia).
  rewrite put_slice_ok by (cbn; lia). cbn [mbind res_bind].
  do 4 (rewrite put_slice_ok by (rewrite ?E; rewrite ?length_app, ?length_to_le; cbn; lia); cbn [mbind res_bind];
        rewrite splice_adjacent by (rewrite ?length_app, ?length_to_le; cbn; lia)).
  rewrite put_slice_ok by (rewrite ?E; rewrite ?length_app, ?length_to_le; cbn; lia).
  rewrite splice_adjacent by (rewrite ?length_app, ?length_to_le; cbn; lia). unfold super_bytes. by rewrite <- !app_assoc.
Qed.

Lemma super_slices n : slice (super_bytes n) 0 8 = Some MAGIC ∧ slice (super_bytes n) 8 12 = Some (to_le 4 1) ∧
  slice (super_bytes n) 12 16 = Some (to_le 4 512) ∧ slice (super_bytes n) 16 24 = Some (to_le 8 n) ∧
  slice (super_bytes n) 24 28 = Some (to_le 4 1) ∧ slice (super_bytes n) 28 32 = Some (to_le 4 8).
Proof.
  unfold super_bytes. pose proof (length_to_le 8 n) as L. split_and!.
  - by apply slice_head.
  - rewrite slice_skip by (cbn; lia). by apply slice_head.
  - do 2 (rewrite slice_skip by (rewrite ?length_to_le; cbn; lia)). by apply slice_head.
  - do 3 (rewrite slice_skip by (rewrite ?length_to_le; cbn; lia)). rewrite !length_to_le. apply slice_head. rewrite length_to_le. cbn. lia.
  - do 4 (rewrite slice_skip by (rewrite ?length_to_le; cbn; lia)). rewrite !length_to_le. apply slice_head. cbn. lia.
  - do 5 (rewrite slice_skip by (rewrite ?length_to_le; cbn; lia)). rewrite !length_to_le. apply slice_all. cbn. lia.
Qed.

Lemma length_super n : length (super_bytes n) = 32%nat.
Proof. unfold super_bytes. rewrite !length_app, !length_to_le. done. Qed.

Lemma formatted_ok (d : D) b : 0 ≤ sector_count d < 2 ^ 64 → superblock (sector_count d) = Ok b → formatted d b = Ok true.
Proof.
  intros Hn. rewrite superblock_spec. intros [= <-]. set (n := sector_count d) in *. destruct (super_slices n) as (S0 & S1 & S2 & S3 & S4 & S5).
  assert (Hin : ∀ u v, 0 ≤ u ≤ v → v ≤ 32 → slice (splice (zeros 512) 0 (super_bytes n)) u v = slice (super_bytes n) u v).
  { intros u v Hu Hv. pose proof (slice_splice_in (zeros 512) (super_bytes n) 0 u v) as Hs. rewrite !Z.add_0_l in Hs.
    apply Hs; rewrite ?length_super, ?length_zeros; lia. }
  unfold formatted, get_u32, get_u64. change (8 + 4) with 12. change (12 + 4) with 16. change (16 + 8) with 24. change (24 + 4) with 28.
  change (28 + 4) with 32. rewrite !Hin, S0, S1, S2, S3, S4, S5 by lia. cbn [expect mbind res_bind].
  rewrite bool_decide_true by done. fold n. rewrite (from_to_le_small 8 n) by (unfold is_u; change (8 * Z.of_nat 8) with 64; lia).
  by rewrite (Z.eqb_refl n).
Qed.

Lemma format_ok (d : D) : device_ok d → 2 < sector_count d →
  ∃ fs, format d = Ok fs ∧ represents fs ∅ ∧ sector_count (device fs) = sector_count d.
Proof.
  intros Hd Hn. unfold format, FIRST_DATA_SECTOR. rewrite (proj2 (Z.leb_gt _ _)) by lia. rewrite superblock_spec. cbn [mbind res_bind].
  assert (Hz : sector_ok (zeros 512)) by (split; [done|apply zeros_bytes]).
  assert (Hb : sector_ok (splice (zeros 512) 0 (super_bytes (sector_count d)))).
  { apply splice_sector; [done| |lia|rewrite length_super; lia]. unfold super_bytes. rewrite !Forall_app.
    split_and!; try apply to_le_bytes. by repeat constructor. }
  destruct (write_disk d 0 _ Hd ltac:(lia) Hb) as (d1 & Hw1 & Hok1 & Hc1 & Hs1 & _). unfold SUPERBLOCK_SECTOR. rewrite Hw1.
  destruct (write_disk d1 1 (zeros 512) Hok1 ltac:(lia) Hz) as (d2 & Hw2 & Hok2 & Hc2 & Hs2 & Hsame). unfold DIRECTORY_SECTOR, SECTOR_SIZE. rewrite Hw2.
  eexists. split; [reflexivity|]. split; [|cbn; congruence]. exists (replicate 8 record_empty). split.
  - assert (Hrep : ∀ i r, replicate 8 record_empty !! i = Some r → r = record_empty) by (by intros i r [-> _]%lookup_replicate).
    split; cbn [device vsectors]; try done; try lia.
    + rewrite Hsame, Hs1 by lia. rewrite superblock_spec. do 3 f_equal. lia.
    + rewrite Hs2. apply parse_slots. split; [done|]. intros i r [-> Hi]%lookup_replicate. unfold parse_record, DIRECTORY_ENTRY_SIZE.
      do 8 (destruct i as [|i]; [done|]). lia.
    + intros r [i Hi]%list_elem_of_lookup. left. by eapply Hrep.
    + intros i j r r' Hi _ Ha. by rewrite (Hrep i r Hi) in Ha.
    + intros i j r r' Hi _ _ Ha. by rewrite (Hrep i r Hi) in Ha.
  - intros p v. rewrite lookup_empty. split; [done|]. intros (k & r & [-> _]%lookup_replicate & Ha & _). done.
Qed.

Lemma mount_ok fs m : represents fs m → mount (device fs) = Ok fs.
Proof.
  intros (rs & [Hd Hv Hn Hsup _ _ _ _] & _). unfold mount, SUPERBLOCK_SECTOR. rewrite read_disk by (done || lia). cbn [to_vfs mbind res_bind].
  rewrite formatted_ok; [|by apply count_range|by rewrite <- Hv]. cbn [mbind res_bind negb]. rewrite <- Hv. by destruct fs.
Qed.

(** ** Whole runs *)

Fixpoint run_all (qs : list request) fs : VantaFs * list (res VfsError reply) :=
  match qs with
  | [] => (fs, [])
  | q :: qs' => let '(fs1, a) := run q fs in let '(fs2, l) := run_all qs' fs1 in (fs2, a :: l)
  end.

(** The answers [l] to the requests [qs] take the map [m] to [m']. *)
Fixpoint all_mean fs (qs : list request) (m : files) (l : list (res VfsError reply)) (m' : files) : Prop :=
  match qs, l with
  | [], [] => m' = m
  | q :: qs', a :: l' => ∃ m1, means fs q m a m1 ∧ all_mean (run q fs).1 qs' m1 l' m'
  | _, _ => False
  end.

Lemma run_all_correct qs : ∀ fs m, represents fs m → Forall request_ok qs →
  ∃ m', all_mean fs qs m (run_all qs fs).2 m' ∧ represents (run_all qs fs).1 m'.
Proof.
  induction qs as [|q qs IH]; intros fs m Hr Hqs; [by exists m|]. apply Forall_cons in Hqs as [Hq Hqs].
  destruct (request_correct fs m q Hr Hq) as (fs1 & a & m1 & Hrun & Hmean & Hr1). cbn [run_all]. rewrite Hrun.
  destruct (IH fs1 m1 Hr1 Hqs) as (m' & Ham & Hr'). destruct (run_all qs fs1) as [fs2 l] eqn:E. exists m'. split; [|done].
  exists m1. split; [done|]. by rewrite Hrun.
Qed.

(** C5: a VantaFS volume is a map from paths to files and directories.  A
    working device with more than two sectors can be formatted, and then
    every sequence of requests gets the answers of a finite map that starts
    empty: reads return the bytes last written, errors name the reason
    and change nothing, and space runs out only when eight paths exist or no
    gap is long enough.  Mounting the device again after any such sequence
    gives back the same volume. *)
Theorem vantafs_refines (d : D) qs : device_ok d → 2 < sector_count d → Forall request_ok qs →
  ∃ fs m, format d = Ok fs ∧ all_mean fs qs ∅ (run_all qs fs).2 m ∧
    mount (device (run_all qs fs).1) = Ok (run_all qs fs).1 ∧ represents (run_all qs fs).1 m.
Proof.
  intros Hd Hn Hqs. destruct (format_ok d Hd Hn) as (fs & Hf & Hr & _). destruct (run_all_correct qs fs ∅ Hr Hqs) as (m & Ham & Hr').
  exists fs, m. split_and!; try done. by eapply mount_ok.
Qed.

(** ** Files through the adapter *)

Definition holds_files (v : Vfs) (m : files) : Prop := ∃ fs, root v = Some fs ∧ represents fs m.

Lemma run_bytes_bytes (d : D) n s : device_ok d → 0 ≤ s → s + Z.of_nat n ≤ sector_count d → bytes (run_bytes (disk d) s n).
Proof.
  intros Hd. revert s. induction n as [|n IH]; intros s Hs Hn; [constructor|]. cbn. apply Forall_app.
  split; [by apply disk_sector; [|lia]|]. apply IH; lia.
Qed.

Lemma file_bounds fs m q b : represents fs m → m !! q = Some (NFile b) → zlen b < 2 ^ 32 ∧ bytes b.
Proof.
  intros (rs & H & Hs) (k & r & Hk & Ha & _ & Hc)%(proj1 (proj2 (conj H Hs) _ _)).
  destruct (wf_active fs rs k r H Hk Ha) as [Hr _]. rewrite (wf_sectors _ _ H) in Hr. pose proof (eo_kind _ _ Hr) as Hek.
  destruct (kind r) eqn:Hkd; [|by rewrite (proj2 (content_kind fs r) Hkd) in Hc].
  destruct (content_length fs r (wf_dev _ _ H) Hr Hkd) as (b' & Hc' & Hl). rewrite Hc' in Hc. injection Hc as ->.
  destruct Hek as (Hst & He & Hfl & Hx). split; [lia|]. unfold content in Hc'. rewrite Hkd in Hc'. injection Hc' as <-.
  apply Forall_take, run_bytes_bytes; [apply (wf_dev _ _ H)|lia|]. pose proof (extent_bounds _ Hfl). lia.
Qed.

Lemma read_through v m p q : holds_files v m → normalize_path p = Ok q →
  vfs_read p v = (v, match m !! q with Some (NFile b) => Ok b | Some NDir => Err IsDirectory | None => Err NotFound end).
Proof.
  intros (fs & Hv & rs & H & Hs) Hn. unfold vfs_read, on_root. rewrite Hv, (read_file_ok fs rs m p q H Hs Hn). by destruct v as [o]; cbn in *; subst.
Qed.

Lemma write_through v m p q data : holds_files v m → normalize_path p = Ok q → utf8 p = true → bytes p → bytes data → zlen data < 2 ^ 32 →
  m !! q ≠ Some NDir → ∃ v' m', holds_files v' m' ∧
    (vfs_write p data v = (v', Ok ()) ∧ m' = <[q := NFile data]> m ∨ vfs_write p data v = (v', Err NoSpace) ∧ m' = m).
Proof.
  intros (fs & Hv & Hr) Hn Hu Hb Hd Hl Hnd.
  destruct (write_correct fs m p data Hr (conj Hu (conj Hb (conj Hd Hl)))) as (fs' & a & m' & Hrun & Hmean & Hr').
  exists {| root := Some fs' |}, m'. split; [by exists fs'|]. unfold means, on_path in Hmean. rewrite Hn, decide_False in Hmean by done.
  unfold vfs_write, on_root. rewrite Hv. unfold run, mbind, M_bind in Hrun.
  destruct (write_file p data fs) as [fs1 [[]|e|]]; injection Hrun as <- <-.
  - left. destruct Hmean as [[_ ->]|(? & _)]; [done|done].
  - right. destruct Hmean as [[? _]|(Hw & -> & _)]; [done|]. by injection Hw as ->.
  - destruct Hmean as [[? _]|(? & _)]; done.
Qed.

(** The bytes of a file of which [buf] replaces those from [off] on. *)
Definition overwrite (b : list Z) (off : Z) (buf : list Z) : list Z :=
  take (Z.to_nat off) (b ++ zeros (off - zlen b)) ++ buf ++ drop (Z.to_nat (off + zlen buf)) b.

Lemma overwrite_built (b : list Z) off buf : 0 ≤ off → off + zlen buf ≤ ISIZE_MAX →
  (full ← (if zlen b <? off + zlen buf then resize b (off + zlen buf) else Ok b);
   _ ← expect (slice full off (off + zlen buf));
   if off + zlen buf - off =? zlen buf then Ok (splice full off buf) else Panic) = Ok (overwrite b off buf).
Proof.
  intros Ho Hm. rewrite (proj2 (Z.eqb_eq (off + zlen buf - off) (zlen buf))) by lia. unfold overwrite, resize.
  destruct (Z.ltb_spec (zlen b) (off + zlen buf)) as [Hlt|Hge].
  - rewrite (proj2 (Z.ltb_ge _ _)) by lia. cbn [mbind res_bind]. rewrite take_ge by lia.
    rewrite slice_in by (rewrite ?length_app, ?length_zeros; lia). cbn [expect mbind res_bind]. f_equal. unfold splice.
    rewrite (drop_ge b) by lia. rewrite (drop_ge (b ++ _)) by (rewrite length_app, length_zeros; lia). f_equal.
    destruct (decide (zlen b ≤ off)).
    + rewrite !take_app_ge by lia. f_equal. unfold zeros. rewrite !take_replicate. f_equal. lia.
    + by rewrite !take_app_le by lia.
  - cbn [mbind res_bind]. rewrite slice_in by lia. cbn [expect mbind res_bind]. unfold splice. do 2 f_equal.
    + unfold zeros. replace (Z.to_nat (off - zlen b)) with 0%nat by lia. cbn. by rewrite app_nil_r.
    + do 2 f_equal. lia.
Qed.

Lemma overwrite_length (b : list Z) off buf : 0 ≤ off → zlen (overwrite b off buf) = Z.max (zlen b) (off + zlen buf).
Proof. intros Ho. unfold overwrite. rewrite !length_app, length_take, length_app, length_drop, length_zeros. lia. Qed.

Lemma overwrite_bytes (b : list Z) off buf : bytes b → bytes buf → bytes (overwrite b off buf).
Proof.
  intros Hb Hbuf. unfold overwrite. rewrite !Forall_app. split; [apply Forall_take, Forall_app; split; [done|apply zeros_bytes]|].
  split; [done|by apply Forall_drop].
Qed.

Lemma overwrite_read (b : list Z) off buf : 0 ≤ off → take (length buf) (drop (Z.to_nat off) (overwrite b off buf)) = buf.
Proof.
  intros Ho. unfold overwrite. rewrite drop_app_length' by (rewrite length_take, length_app, length_zeros; lia).
  by rewrite take_app_length.
Qed.

Lemma read_at v m p q b off len : holds_files v m → normalize_path p = Ok q → m !! q = Some (NFile b) → 0 ≤ off → 0 ≤ len → off + len < 2 ^ 64 →
  read_at_path p off len v = (v, Ok (take (Z.to_nat len) (drop (Z.to_nat off) b))).
Proof.
  intros Hv Hn Hm Ho Hl Hs. unfold read_at_path. pose proof (read_through v m p q Hv Hn) as Hr. rewrite Hm in Hr. rewrite (bind_ok _ _ _ _ _ Hr).
  unfold saturating_add. rewrite slice_in by lia. unfold lift, expect. do 2 f_equal.
  destruct (decide (off ≤ zlen b)).
  - rewrite (Z.min_l off) by lia. destruct (decide (off + len ≤ zlen b)); [f_equal; lia|].
    rewrite !take_ge by (rewrite length_drop; lia). done.
  - rewrite (Z.min_r off) by lia. rewrite !drop_ge by lia. by rewrite !take_nil.
Qed.

(** writing at an offset through the VFS.  On a mounted volume a write
    at any offset of a file, or of a path that does not exist yet, either
    reports that no space is left and changes nothing, or replaces exactly
    the bytes written, fills a gap past the old end with zeros, keeps every
    other byte and every other path, and is read back as written. *)
Theorem vantafs_write_at (v : Vfs) m p q off buf : holds_files v m → normalize_path p = Ok q → utf8 p = true → bytes p → bytes buf →
  0 ≤ off → off + zlen buf < 2 ^ 32 → m !! q ≠ Some NDir →
  let old := match m !! q with Some (NFile b) => b | _ => [] end in
  ∃ v' m', holds_files v' m' ∧
    (write_at_path p off buf v = (v', Err NoSpace) ∧ m' = m ∨
     write_at_path p off buf v = (v', Ok (zlen buf)) ∧ m' = <[q := NFile (overwrite old off buf)]> m ∧
     read_at_path p off (zlen buf) v' = (v', Ok buf)).
Proof.
  intros Hv Hn Hu Hb Hbuf Ho Hlen Hnd old. pose proof (read_through v m p q Hv Hn) as Hr.
  assert (Hold : zlen old < 2 ^ 32 ∧ bytes old).
  { unfold old. destruct (m !! q) as [[b|]|] eqn:Hm; [|by split; [|constructor]..]. destruct Hv as (fs & _ & Hrep). by eapply file_bounds. }
  assert (Hrd : or_default (vfs_read p) v = (v, Ok old)).
  { unfold or_default. rewrite Hr. unfold old. by destruct (m !! q) as [[b|]|]. }
  pose proof (overwrite_length old off buf Ho) as Hol.
  destruct (write_through v m p q (overwrite old off buf) Hv Hn Hu Hb) as (v' & m' & Hv' & Hw); [by apply overwrite_bytes; [apply Hold|]|lia|done|].
  exists v', m'. split; [done|].
  assert (Hrun : ∀ x, vfs_write p (overwrite old off buf) v = (v', x) → write_at_path p off buf v = (v', _ ← x; Ok (zlen buf))).
  { intros x Hx. unfold write_at_path. rewrite (bind_ok _ _ _ _ _ Hrd). unfold saturating_add. rewrite Z.min_l by lia.
    pose proof (overwrite_built old off buf Ho ltac:(unfold ISIZE_MAX; lia)) as Hbuilt.
    apply res_bind_Ok in Hbuilt as (full & Hf & Hb2). rewrite Hf, bind_lift, Hb2, bind_lift.
    unfold mbind, M_bind. rewrite Hx. by destruct x. }
  destruct Hw as [[Hw ->]|[Hw ->]]; [right|left]; rewrite (Hrun _ Hw); [|done]. split; [done|]. split; [done|].
  rewrite (read_at v' _ p q (overwrite old off buf) off (zlen buf) Hv' Hn (lookup_insert_eq _ _ _)) by lia.
  rewrite Nat2Z.id. do 2 f_equal. by apply overwrite_read.
Qed.
End spec.

(** ** On a RAM disk of ten sectors *)

Definition ten_sectors : RamDisk := {| sectors := 10; data := zeros 5120 |}.
Lemma ten_sectors_ok : device_ok ten_sectors.
Proof. split; [done|]. split; [done|]. apply Forall_replicate. done. Qed.

(** "ab", "c" and "d" *)
Definition AB : list Z := [97; 98].
Definition demo_requests : list request :=
  [RWrite AB [1; 2; 3]; RWrite [99] (replicate 600 7); RCreateDir [100]; RWrite AB (replicate 1000 5);
   RRename [99] [101]; RRemove [100]; RRead AB; RWrite [102] (replicate 3000 9); RRead [99]; RList].

Lemma demo_requests_ok : Forall request_ok demo_requests.
Proof.
  repeat constructor; cbn; try done; try lia; repeat first [apply Forall_replicate | constructor]; done.
Qed.

Lemma vantafs_refines_witness : ∃ fs m, format ten_sectors = Ok fs ∧
  all_mean fs demo_requests ∅ (run_all demo_requests fs).2 m ∧
  mount (device (run_all demo_requests fs).1) = Ok (run_all demo_requests fs).1.
Proof.
  destruct (vantafs_refines ten_sectors demo_requests ten_sectors_ok ltac:(done) demo_requests_ok) as (fs & m & Hf & Ha & Hm & _).
  by exists fs, m.
Defined.

Definition volume : Vfs :=
  {| root := match format ten_sectors with Ok fs => Some fs | _ => None end |}.

Lemma volume_holds : holds_files volume ∅.
Proof.
  destruct (format_ok ten_sectors ten_sectors_ok ltac:(done)) as (fs & Hf & Hr & _). exists fs. split; [|done].
  unfold volume. by rewrite Hf.
Qed.

Lemma vantafs_write_at_witness : ∃ v' m', holds_files v' m' ∧
  (write_at_path AB 700 [1; 2; 3] volume = (v', Err NoSpace) ∧ m' = ∅ ∨
   write_at_path AB 700 [1; 2; 3] volume = (v', Ok 3) ∧ m' = <[AB := NFile (overwrite [] 700 [1; 2; 3])]> (∅ : files) ∧
   read_at_path AB 700 3 v' = (v', Ok [1; 2; 3])).
Proof.
  exact (vantafs_write_at volume ∅ AB AB 700 [1; 2; 3] volume_holds eq_refl eq_refl ltac:(by repeat constructor) ltac:(by repeat constructor)
    ltac:(lia) ltac:(cbn; lia) ltac:(done)).
Defined.

(** A listing leaves out the subdirectories: they are listed with a slash
    at the end, and names with a slash are skipped. *)
Theorem list_dir_hides_directories :
  let v := (vfs_create_dir [100] (vfs_write AB [1] volume).1).1 in
  (vfs_list v).2 = Ok [[SLASH; 97; 98]; [SLASH; 100; SLASH]] ∧ (list_dir_path [SLASH] v).2 = Ok [AB].
Proof. vm_compute. by split. Qed.

(** A write at an offset near [2^64] panics: the end saturates and the
    vector cannot grow that far. *)
Theorem write_at_panics : (write_at_path AB (2 ^ 64 - 2) [1; 2; 3; 4] volume).2 = Panic.
Proof. vm_compute. reflexivity. Qed.

(** A device that fails to read one sector. *)
Record FlakyDisk := { flaky : RamDisk; bad_sector : Z }.
#[export] Instance flaky_device : BlockDevice FlakyDisk :=
  {| sector_count d := sectors (flaky d);
     read_sector d s := if s =? bad_sector d then Err IoFailed else ramdisk_read (flaky d) s;
     write_sector d s b := let '(f, r) := ramdisk_write (flaky d) s b in ({| flaky := f; bad_sector := bad_sector d |}, r) |}.

(** A read error during a partial write is taken for an empty file: the
    file loses every byte that was not written, and the call succeeds. *)
Theorem write_at_read_error_loses_file :
  let fs := match format {| flaky := ten_sectors; bad_sector := 2 |} with Ok fs => Some fs | _ => None end in
  let v := (vfs_write AB [1; 2; 3; 4] {| root := fs |}).1 in
  let '(v, r) := write_at_path AB 1 [9] v in
  r = Ok 1 ∧ match root v with Some fs => ramdisk_read (flaky (device fs)) 2 | None => Panic end = Ok ([0; 9] ++ replicate 510 0).
Proof. vm_compute. by split. Qed.
