(* ===== verification/Mounts.v ===== *)
(** * Mounts, path resolution and the dentry cache ([rust/kernel/src/vfs.rs])

    The [Filesystem] trait as a class of operations on the state of one
    filesystem, the mount table, the dentry cache, the walk along a path with
    its symbolic links, and the path operations of the kernel.  An
    [Arc<dyn Filesystem>] is a handle; [wfs] gives the state behind it.  The
    page cache is reached through [PageCaching]. *)

From stdpp Require Import gmap sorting strings.
From S2P Require Import Prelude Words Abi Vfs Paths Storage VantaFs.

Abbreviation str := (list Z).

(** ** The [Filesystem] trait *)

Definition S_IFMT : Z := 0xf000.
Definition S_IFDIR : Z := 0x4000.
Definition S_IFLNK : Z := 0xa000.
Definition is_dir (m : InodeMetadata) : bool := Z.land (im_mode m) S_IFMT =? S_IFDIR.
Definition is_link (m : InodeMetadata) : bool := Z.land (im_mode m) S_IFMT =? S_IFLNK.

(** [FileInfo] of an inode. *)
Definition info_of_meta (m : InodeMetadata) : FileInfo :=
  {| fi_length := im_size m; allocated_sectors := if im_size m =? 0 then 0 else u32 (u64 (im_size m + 511) / 512);
     is_directory := is_dir m; fi_uid := im_uid m; fi_gid := im_gid m; fi_mode := u16 (im_mode m) |}.

(** [s.split('/').filter(|s| !s.is_empty() && *s != ".")] *)
Definition components (s : str) : list str :=
  filter (λ c, c ≠ [] ∧ c ≠ [DOT]) (split_on SLASH s).

(** The default bodies of the trait's methods on paths, from the methods on
    inodes. *)
Section defaults.
Context {S : Type} (root_inode : S → Z) (lookup : S → Z → str → res VfsError Z)
  (read_inode : S → Z → res VfsError InodeMetadata) (mkdir : S → Z → str → Z → S * res VfsError Z).

(** The trait's [create_dir_path]: every component that is missing. *)
Fixpoint make_dirs (s : S) (curr : Z) (comps : list str) : S * res VfsError unit :=
  match comps with
  | [] => (s, Ok ())
  | comp :: comps' =>
    match lookup s curr comp with
    | Ok ino => make_dirs s ino comps'
    | Err NotFound =>
      match mkdir s curr comp 493 with
      | (s, Ok ino) => make_dirs s ino comps'
      | (s, Err e) => (s, Err e)
      | (s, Panic) => (s, Panic)
      end
    | Err e => (s, Err e)
    | Panic => (s, Panic)
    end
  end.
Definition create_dir_path (s : S) (path : str) : S * res VfsError unit :=
  make_dirs s (root_inode s) (components (trim_matches SLASH path)).

(** The trait's [resolve_path] and [file_info_path]. *)
Fixpoint follow_path (s : S) (curr : Z) (comps : list str) : res VfsError Z :=
  match comps with
  | [] => Ok curr
  | comp :: comps' => i ← lookup s curr comp; follow_path s i comps'
  end.
Definition resolve_path (s : S) (path : str) : res VfsError Z :=
  follow_path s (root_inode s) (components (trim_matches SLASH path)).
Definition file_info_path (s : S) (path : str) : res VfsError FileInfo :=
  ino ← resolve_path s path; meta ← read_inode s ino; Ok (info_of_meta meta).

End defaults.

(** [create_dir_path] and [file_info_path] have default bodies, which a
    filesystem may replace ([VantaFsAdapter] and [RedoxFsAdapter] do), so they
    are operations of the class. *)
Class Filesystem (S : Type) := {
  fs_root_inode : S → Z;
  fs_lookup : S → Z → str → res VfsError Z;
  fs_read_inode : S → Z → res VfsError InodeMetadata;
  fs_create : S → Z → str → Z → S * res VfsError Z;
  fs_mkdir : S → Z → str → Z → S * res VfsError Z;
  fs_unlink : S → Z → str → S * res VfsError unit;
  fs_rmdir : S → Z → str → S * res VfsError unit;
  fs_symlink : S → Z → str → str → S * res VfsError Z;
  fs_readlink : S → Z → res VfsError str;
  fs_rename : S → Z → str → Z → str → S * res VfsError unit;
  fs_read : S → Z → Z → Z → res VfsError (list Z);
  fs_write : S → Z → Z → list Z → S * res VfsError Z;
  fs_truncate : S → Z → Z → S * res VfsError unit;
  fs_read_dir : S → Z → res VfsError (list str);
  fs_is_page_cached : S → bool;
  fs_open_inode : S → Z → S;
  fs_create_dir_path : S → str → S * res VfsError unit;
  fs_file_info_path : S → str → res VfsError FileInfo }.

(** What the VFS uses of [page_cache.rs]: reading, writing, truncating,
    dropping an inode, and the size of a cached file. *)
Class PageCaching (C S : Type) := {
  pc_read : C → S → Z → Z → Z → Z → C * S * res VfsError (list Z);
  pc_write : C → S → Z → Z → Z → list Z → C * S * res VfsError Z;
  pc_truncate : C → Z → Z → Z → C;
  pc_invalidate : C → Z → Z → C;
  pc_size : C → Z → Z → option Z }.

(** ** The mount table *)

Definition MS_RDONLY : Z := 1.
Definition MS_REMOUNT : Z := 32.

Definition normalize_mount_target (target : str) : str :=
  let t := trim target in
  if bool_decide (t = []) || bool_decide (t = [SLASH]) then [SLASH] else
  (if starts_with t [SLASH] then [] else [SLASH]) ++ trim_end SLASH t.

Record MountPoint := { id : Z; prefix : str; mfs : Z; mflags : Z }.
Record MountTable := { next_id : Z; mounts : list MountPoint }.

Definition table_new : MountTable := {| next_id := 1; mounts := [] |}.

(** The stable sort by decreasing length of the prefix. *)
Fixpoint insert_desc (x : MountPoint) (l : list MountPoint) : list MountPoint :=
  match l with
  | [] => [x]
  | y :: l' => if zlen (prefix x) <? zlen (prefix y) then y :: insert_desc x l' else x :: l
  end.
Definition sort_desc (l : list MountPoint) : list MountPoint := foldr insert_desc [] l.

(** ** The dentry cache *)

Record DentryValue := { d_ino : Z; d_mode : Z }.
Abbreviation dkey := (Z * Z * list Z)%type.

Record DentryCache := {
  dentries : gmap dkey DentryValue; dkeys : list dkey; max_entries : Z; dhits : Z; dmisses : Z }.

Definition dcache_new (max_entries : Z) : DentryCache :=
  {| dentries := ∅; dkeys := []; max_entries := max_entries; dhits := 0; dmisses := 0 |}.

Definition dcache_lookup (c : DentryCache) (k : dkey) : DentryCache * option DentryValue :=
  match dentries c !! k with
  | Some v => ({| dentries := dentries c; dkeys := dkeys c; max_entries := max_entries c;
                  dhits := u64 (dhits c + 1); dmisses := dmisses c |}, Some v)
  | None => ({| dentries := dentries c; dkeys := dkeys c; max_entries := max_entries c;
                dhits := dhits c; dmisses := u64 (dmisses c + 1) |}, None)
  end.

Definition set_dentries (c : DentryCache) (e : gmap dkey DentryValue) (ks : list dkey) : DentryCache :=
  {| dentries := e; dkeys := ks; max_entries := max_entries c; dhits := dhits c; dmisses := dmisses c |}.

(** [while entries.len() >= max_entries], popping the oldest keys. *)
Fixpoint dcache_evict (max : Z) (e : gmap dkey DentryValue) (ks : list dkey) : gmap dkey DentryValue * list dkey :=
  if Z.of_nat (size e) <? max then (e, ks) else
  match ks with
  | [] => (e, [])
  | k :: ks' => dcache_evict max (delete k e) ks'
  end.

Definition dcache_insert (c : DentryCache) (k : dkey) (v : DentryValue) : DentryCache :=
  if bool_decide (is_Some (dentries c !! k)) then set_dentries c (<[k := v]> (dentries c)) (dkeys c) else
  let '(e, ks) := dcache_evict (max_entries c) (dentries c) (dkeys c) in
  set_dentries c (<[k := v]> e) (ks ++ [k]).

Definition dcache_invalidate (c : DentryCache) (k : dkey) : DentryCache :=
  set_dentries c (delete k (dentries c)) (dkeys c).

Definition dcache_invalidate_fs (c : DentryCache) (fs_id : Z) : DentryCache :=
  set_dentries c (filter (λ kv, kv.1.1.1 ≠ fs_id) (dentries c)) (filter (λ k, k.1.1 ≠ fs_id) (dkeys c)).

Definition DCACHE : DentryCache := dcache_new 4096.

(** ** Mounting *)

Definition find_pos (l : list MountPoint) (p : str) : option (nat * MountPoint) := list_find (λ m, prefix m = p) l.

Definition table_mount (t : MountTable) (c : DentryCache) (target : str) (fs flags : Z)
    : MountTable * DentryCache * res VfsError unit :=
  let p := normalize_mount_target target in
  let m := {| id := next_id t; prefix := p; mfs := fs; mflags := flags |} in
  match find_pos (mounts t) p with
  | Some (pos, old) =>
    if negb (Z.land flags MS_REMOUNT =? 0) || bool_decide (p = [SLASH]) then
      ({| next_id := u64 (next_id t + 1); mounts := <[pos := m]> (mounts t) |}, dcache_invalidate_fs c (id old), Ok ())
    else (t, c, Err AlreadyExists)
  | None => ({| next_id := u64 (next_id t + 1); mounts := sort_desc (mounts t ++ [m]) |}, c, Ok ())
  end.

Definition table_umount (t : MountTable) (c : DentryCache) (target : str) : MountTable * DentryCache * res VfsError unit :=
  let p := normalize_mount_target target in
  if bool_decide (p = [SLASH]) then (t, c, Err InvalidPath) else
  match find_pos (mounts t) p with
  | Some (pos, m) => ({| next_id := next_id t; mounts := delete pos (mounts t) |}, dcache_invalidate_fs c (id m), Ok ())
  | None => (t, c, Err NotFound)
  end.

(** What [resolve] makes of one mount. *)
Definition match_mount (path : str) (m : MountPoint) : option str :=
  if bool_decide (prefix m = [SLASH]) then None else
  if bool_decide (path = prefix m) then Some [] else
  match strip_prefix (prefix m) path with
  | Some rest => if starts_with rest [SLASH] then Some (trim_start SLASH rest) else None
  | None => None
  end.

Fixpoint first_match (path : str) (l : list MountPoint) : option (MountPoint * str) :=
  match l with
  | [] => None
  | m :: l' => match match_mount path m with Some rel => Some (m, rel) | None => first_match path l' end
  end.

Definition table_resolve (t : MountTable) (path : str) : res VfsError (MountPoint * str) :=
  let path := if bool_decide (path = []) then [SLASH] else path in
  match first_match path (mounts t) with
  | Some r => Ok r
  | None =>
    match find_pos (mounts t) [SLASH] with
    | Some (_, m) => Ok (m, trim_start SLASH path)
    | None => Err NotMounted
    end
  end.

Definition find_mount (t : MountTable) (target : str) : option MountPoint :=
  snd <$> find_pos (mounts t) (normalize_mount_target target).

Fixpoint child_names (pre : str) (l : list MountPoint) (children : list str) : list str :=
  match l with
  | [] => children
  | m :: l' =>
    if bool_decide (prefix m = [SLASH]) then child_names pre l' children else
    match strip_prefix pre (prefix m) with
    | Some rest =>
      let n := default [] (head (split_on SLASH rest)) in
      child_names pre l' (if bool_decide (n ≠ []) && bool_decide (n ∉ children) then children ++ [n] else children)
    | None => child_names pre l' children
    end
  end.

Definition child_mount_names (t : MountTable) (parent_dir : str) : list str :=
  let parent := normalize_mount_target parent_dir in
  child_names (if bool_decide (parent = [SLASH]) then [SLASH] else parent ++ [SLASH]) (mounts t) [].

(** ** Walking along a path *)

Section vfs.
Context {S C : Type} `{FS : !Filesystem S} `{PC : !PageCaching C S}.

Record vfs := { table : MountTable; dcache : DentryCache; wfs : Z → S; pages : C }.

(** The loop of [lookup_in_fs]. *)
Fixpoint walk_components (c : DentryCache) (mount_id : Z) (s : S) (curr : Z) (comps : list str)
    : DentryCache * res VfsError Z :=
  match comps with
  | [] => (c, Ok curr)
  | comp :: comps' =>
    let '(c, cached) := dcache_lookup c (mount_id, curr, comp) in
    match cached with
    | Some v => walk_components c mount_id s (d_ino v) comps'
    | None =>
      match (child ← fs_lookup s curr comp; meta ← fs_read_inode s child; Ok (child, im_mode meta)) with
      | Ok (child, mode) =>
        walk_components (dcache_insert c (mount_id, curr, comp) {| d_ino := child; d_mode := mode |}) mount_id s child comps'
      | Err e => (c, Err e)
      | Panic => (c, Panic)
      end
    end
  end.

Definition lookup_in_fs (c : DentryCache) (mount_id : Z) (s : S) (rel : str) : DentryCache * res VfsError Z :=
  walk_components c mount_id s (fs_root_inode s) (components rel).

Record found := { f_mount : Z; f_fs : Z; f_ino : Z; f_meta : InodeMetadata; f_path : str }.

Definition parent_dir (dir : str) : str :=
  if bool_decide (dir = [SLASH]) then dir else
  match rsplit SLASH dir with
  | Some (before, _) => if bool_decide (before = []) then [SLASH] else before
  | None => dir
  end.

Definition join (dir comp : str) : str :=
  if bool_decide (dir = [SLASH]) then SLASH :: comp else dir ++ SLASH :: comp.

(** What one component leads to: the end of the walk, a directory, or a
    symbolic link to follow. *)
Inductive walk := Return (r : res VfsError found) | Into (dir : str) | AtLink (m : MountPoint) (ino : Z).

Definition returning (m : MountPoint) (ino : Z) (meta : InodeMetadata) (path : str) : res VfsError found :=
  Ok {| f_mount := id m; f_fs := mfs m; f_ino := ino; f_meta := meta; f_path := path |}.

Definition into_res {A} (r : res VfsError A) (k : A → walk) : walk :=
  match r with Ok a => k a | Err e => Return (Err e) | Panic => Return Panic end.

(** The inode found for a component: a link is followed unless it is the
    last one and is not to be; on the way only directories are entered. *)
Definition arrive (follow is_last : bool) (m : MountPoint) (candidate : str) (ino : Z) (meta : InodeMetadata) : walk :=
  if is_link meta then
    if is_last && negb follow then Return (returning m ino meta candidate) else AtLink m ino
  else if is_last then Return (returning m ino meta candidate)
  else if negb (is_dir meta) then Return (Err NotDirectory)
  else Into candidate.

Definition walk_step (w : vfs) (follow : bool) (c : DentryCache) (dir comp : str) (is_last : bool) : DentryCache * walk :=
  if bool_decide (comp = [DOT; DOT]) then (c, Into (parent_dir dir)) else
  let candidate := join dir comp in
  match find_mount (table w) candidate with
  | Some m =>
    let s := wfs w (mfs m) in
    (c, into_res (fs_read_inode s (fs_root_inode s)) (λ _, Into candidate))
  | None =>
    if existsb (λ m, starts_with (prefix m) (candidate ++ [SLASH])) (mounts (table w)) then (c, Into candidate) else
    match table_resolve (table w) candidate with
    | Ok (m, rel) =>
      let s := wfs w (mfs m) in
      let '(c, r) := lookup_in_fs c (id m) s rel in
      (c, into_res (ino ← r; meta ← fs_read_inode s ino; Ok (ino, meta)) (λ '(ino, meta), arrive follow is_last m candidate ino meta))
    | Err e => (c, Return (Err e))
    | Panic => (c, Return Panic)
    end
  end.

(** No component is left: the directory itself. *)
Definition walk_end (w : vfs) (c : DentryCache) (dir : str) : DentryCache * res VfsError found :=
  match table_resolve (table w) dir with
  | Ok (m, rel) =>
    let s := wfs w (mfs m) in
    let '(c, r) := if bool_decide (rel = []) then (c, Ok (fs_root_inode s)) else lookup_in_fs c (id m) s rel in
    (c, ino ← r; meta ← fs_read_inode s ino; returning m ino meta dir)
  | Err e => (c, Err e)
  | Panic => (c, Panic)
  end.

(** The loop of [resolve_path_vfs]; [hops] links may still be followed. *)
Fixpoint walk_path (hops : nat) (w : vfs) (follow : bool) : DentryCache → str → list str → DentryCache * res VfsError found :=
  fix go (c : DentryCache) (dir : str) (remaining : list str) : DentryCache * res VfsError found :=
    match remaining with
    | [] => walk_end w c dir
    | comp :: rest =>
      let '(c, next) := walk_step w follow c dir comp (bool_decide (rest = [])) in
      match next with
      | Return r => (c, r)
      | Into dir => go c dir rest
      | AtLink m ino =>
        match hops with
        | O => (c, Err Loop)
        | Datatypes.S hops' =>
          match fs_readlink (wfs w (mfs m)) ino with
          | Ok target =>
            walk_path hops' w follow c (if starts_with target [SLASH] then [SLASH] else dir) (components target ++ rest)
          | Err e => (c, Err e)
          | Panic => (c, Panic)
          end
        end
      end
    end.

Definition MAX_HOPS : nat := 40.

Definition resolve_path_vfs (w : vfs) (path : str) (follow : bool) : DentryCache * res VfsError found :=
  walk_path MAX_HOPS w follow (dcache w) [SLASH] (components path).

(** ** The path operations of the kernel *)

Abbreviation O := (M vfs VfsError).

Definition set_dcache (w : vfs) (c : DentryCache) : vfs := {| table := table w; dcache := c; wfs := wfs w; pages := pages w |}.
Definition set_fs (w : vfs) (h : Z) (s : S) : vfs :=
  {| table := table w; dcache := dcache w; wfs := λ x, if decide (x = h) then s else wfs w x; pages := pages w |}.
Definition set_pages (w : vfs) (p : C) : vfs := {| table := table w; dcache := dcache w; wfs := wfs w; pages := p |}.
Definition set_table (w : vfs) (t : MountTable) (c : DentryCache) : vfs :=
  {| table := t; dcache := c; wfs := wfs w; pages := pages w |}.

Definition mount_filesystem (target : str) (fs flags : Z) : O unit := λ w,
  let '(t, c, r) := table_mount (table w) (dcache w) target fs flags in (set_table w t c, r).
Definition unmount_filesystem (target : str) : O unit := λ w,
  let '(t, c, r) := table_umount (table w) (dcache w) target in (set_table w t c, r).

Definition resolve (path : str) (follow : bool) : O found := λ w,
  let '(c, r) := resolve_path_vfs w path follow in (set_dcache w c, r).

(** A call on the filesystem behind a handle. *)
Definition on_fs {A} (h : Z) (op : S → S * res VfsError A) : O A := λ w,
  let '(s, r) := op (wfs w h) in (set_fs w h s, r).
Definition ask_fs {A} (h : Z) (op : S → res VfsError A) : O A := λ w, (w, op (wfs w h)).
Definition on_dcache (f : DentryCache → DentryCache) : O unit := λ w, (set_dcache w (f (dcache w)), Ok ()).

(** [if m.flags & MS_RDONLY != 0 { return Err(ReadOnlyFilesystem) }] for the
    mount of that id, if it is still there. *)
Definition check_writable (mount_id : Z) : O unit := λ w,
  match list_find (λ m, id m = mount_id) (mounts (table w)) with
  | Some (_, m) => if negb (Z.land (mflags m) MS_RDONLY =? 0) then (w, Err ReadOnlyFilesystem) else (w, Ok ())
  | None => (w, Ok ())
  end.

Definition state {A} (f : vfs → vfs * res VfsError A) : O A := f.
Definition reject (b : bool) (e : VfsError) : O unit := if b then fail e else mret ().

(** [match norm.rfind('/')]: parent directory and name. *)
Definition split_parent (norm : str) : str * str :=
  match rsplit SLASH norm with
  | Some ([], n) => ([SLASH], n)
  | Some (p, n) => (p, n)
  | None => ([SLASH], norm)
  end.

Definition read_root_as (path : str) : O (list Z) :=
  f ← resolve path true;
  let size := im_size (f_meta f) in
  _ ← (if ISIZE_MAX <? size then lift Panic else mret ());
  b ← ask_fs (f_fs f) (λ s, fs_read s (f_ino f) 0 size);
  mret (b ++ zeros (size - zlen b)).

Definition replace_contents (f h : Z) (data : list Z) : O unit :=
  _ ← on_fs h (λ s, fs_truncate s f 0);
  _ ← on_fs h (λ s, fs_write s f 0 data);
  mret ().

Definition write_root_as (path : str) (data : list Z) : O unit := λ w,
  match resolve path true w with
  | (w, Ok f) =>
    (_ ← reject (is_dir (f_meta f)) IsDirectory;
     _ ← check_writable (f_mount f);
     replace_contents (f_ino f) (f_fs f) data) w
  | (w, Err NotFound) =>
    (let '(parent_path, file_name) := split_parent (normalize_mount_target path) in
     p ← resolve parent_path true;
     _ ← check_writable (f_mount p);
     ino ← on_fs (f_fs p) (λ s, fs_create s (f_ino p) file_name 420);
     _ ← on_dcache (λ c, dcache_insert c (f_mount p, f_ino p, file_name) {| d_ino := ino; d_mode := 33188 |});
     replace_contents ino (f_fs p) data) w
  | (w, Err e) => (w, Err e)
  | (w, Panic) => (w, Panic)
  end.

Definition read_root_at_as (path : str) (offset len : Z) : O (list Z) :=
  f ← resolve path true;
  state (λ w, let s := wfs w (f_fs f) in
    if fs_is_page_cached s then
      let '(c, s, r) := pc_read (pages w) s (f_mount f) (f_ino f) offset len in (set_pages (set_fs w (f_fs f) s) c, r)
    else (w, fs_read s (f_ino f) offset len)).

Definition write_root_at_as (path : str) (offset : Z) (buf : list Z) : O Z :=
  f ← resolve path true;
  _ ← reject (is_dir (f_meta f)) IsDirectory;
  _ ← check_writable (f_mount f);
  state (λ w, let s := wfs w (f_fs f) in
    if fs_is_page_cached s then
      let '(c, s, r) := pc_write (pages w) s (f_mount f) (f_ino f) offset buf in (set_pages (set_fs w (f_fs f) s) c, r)
    else on_fs (f_fs f) (λ s, fs_write s (f_ino f) offset buf) w).

Definition truncate_root_as (path : str) (size : Z) : O unit :=
  f ← resolve path true;
  _ ← reject (is_dir (f_meta f)) IsDirectory;
  _ ← check_writable (f_mount f);
  _ ← state (λ w, (if fs_is_page_cached (wfs w (f_fs f)) then set_pages w (pc_truncate (pages w) (f_mount f) (f_ino f) size) else w, Ok ()));
  on_fs (f_fs f) (λ s, fs_truncate s (f_ino f) size).

(** Mount, handle, inode and initial offset of an opened file. *)
Definition open_path (path : str) (writable append : bool) : O (Z * Z * Z * Z) :=
  f ← resolve path true;
  _ ← reject (is_dir (f_meta f)) IsDirectory;
  _ ← (if writable then check_writable (f_mount f) else mret ());
  _ ← on_fs (f_fs f) (λ s, (fs_open_inode s (f_ino f), Ok ()));
  state (λ w, let size := if fs_is_page_cached (wfs w (f_fs f)) then default (im_size (f_meta f)) (pc_size (pages w) (f_mount f) (f_ino f))
                   else im_size (f_meta f) in
    (w, Ok (f_mount f, f_fs f, f_ino f, if append then size else 0))).

Definition list_dir_root_as (path : str) : O (list str) :=
  f ← resolve path true;
  _ ← reject (negb (is_dir (f_meta f))) NotDirectory;
  names ← ask_fs (f_fs f) (λ s, fs_read_dir s (f_ino f));
  state (λ w, let names := foldl (λ ns c, if bool_decide (c ∈ ns) then ns else ns ++ [c]) names (child_mount_names (table w) (f_path f)) in
    (w, Ok (merge_sort string_order names))).

Definition remove_root_as (path : str) : O unit :=
  let norm := normalize_mount_target path in
  _ ← reject (bool_decide (norm = [SLASH])) InvalidPath;
  _ ← state (λ w, if bool_decide (is_Some (find_mount (table w) norm)) then (w, Err IsDirectory) else (w, Ok ()));
  let '(parent_path, file_name) := split_parent norm in
  p ← resolve parent_path true;
  _ ← check_writable (f_mount p);
  child ← ask_fs (f_fs p) (λ s, fs_lookup s (f_ino p) file_name);
  meta ← ask_fs (f_fs p) (λ s, fs_read_inode s child);
  _ ← (if is_dir meta then on_fs (f_fs p) (λ s, fs_rmdir s (f_ino p) file_name)
       else _ ← on_fs (f_fs p) (λ s, fs_unlink s (f_ino p) file_name);
            state (λ w, (set_pages w (pc_invalidate (pages w) (f_mount p) child), Ok ())));
  on_dcache (λ c, dcache_invalidate c (f_mount p, f_ino p, file_name)).

Definition rename_root_as (old_path new_path : str) : O unit :=
  let '(old_parent, old_name) := split_parent (normalize_mount_target old_path) in
  let '(new_parent, new_name) := split_parent (normalize_mount_target new_path) in
  p ← resolve old_parent true;
  q ← resolve new_parent true;
  _ ← reject (negb (f_fs p =? f_fs q)) InvalidPath;
  _ ← check_writable (f_mount q);
  _ ← on_fs (f_fs p) (λ s, fs_rename s (f_ino p) old_name (f_ino q) new_name);
  on_dcache (λ c, dcache_invalidate (dcache_invalidate c (f_mount p, f_ino p, old_name)) (f_mount q, f_ino q, new_name)).

Definition symlink_root (linkpath target : str) : O unit :=
  let '(parent_path, file_name) := split_parent (normalize_mount_target linkpath) in
  _ ← reject (bool_decide (file_name = [])) InvalidPath;
  p ← resolve parent_path true;
  _ ← reject (negb (is_dir (f_meta p))) NotDirectory;
  _ ← check_writable (f_mount p);
  ino ← on_fs (f_fs p) (λ s, fs_symlink s (f_ino p) file_name target);
  on_dcache (λ c, dcache_insert c (f_mount p, f_ino p, file_name) {| d_ino := ino; d_mode := 41471 |}).

Definition readlink_root (path : str) : O str :=
  f ← resolve path false;
  _ ← reject (negb (is_link (f_meta f))) InvalidPath;
  ask_fs (f_fs f) (λ s, fs_readlink s (f_ino f)).

Definition file_info_root_as (path : str) : O FileInfo := f ← resolve path true; mret (info_of_meta (f_meta f)).
Definition file_info_root_nofollow_as (path : str) : O FileInfo := f ← resolve path false; mret (info_of_meta (f_meta f)).

Definition create_dir_root_as (path : str) : O unit := λ w,
  if bool_decide (is_Some (find_mount (table w) (normalize_mount_target path))) then (w, Ok ()) else
  match table_resolve (table w) path with
  | Ok (m, rel) =>
    if negb (Z.land (mflags m) MS_RDONLY =? 0) then (w, Err ReadOnlyFilesystem) else
    if bool_decide (rel = []) then (w, Ok ()) else on_fs (mfs m) (λ s, fs_create_dir_path s rel) w
  | Err e => (w, Err e)
  | Panic => (w, Panic)
  end.

(** ** Permissions *)

Definition is_writable_mount (t : MountTable) (path : str) : bool :=
  match table_resolve t path with Ok (m, _) => Z.land (mflags m) MS_RDONLY =? 0 | _ => false end.

Definition may_write (c : Credentials.t) (uid gid mode : Z) : bool :=
  ((uid =? Credentials.uid c) && negb (Z.land mode 0x80 =? 0)) ||
  ((gid =? Credentials.gid c) && negb (Z.land mode 0x10 =? 0)) ||
  negb (Z.land mode 0x2 =? 0).
Definition info_allows (c : Credentials.t) (i : res VfsError FileInfo) : bool :=
  match i with Ok i => may_write c (fi_uid i) (fi_gid i) (fi_mode i) | _ => false end.

Definition HOME : str := text "/home/vanta".

Definition can_user_mutate (w : vfs) (path : str) (c : Credentials.t) : bool :=
  if Credentials.is_root c then is_writable_mount (table w) path else
  match table_resolve (table w) path with
  | Ok (m, rel) =>
    if negb (Z.land (mflags m) MS_RDONLY =? 0) then false else
    let s := wfs w (mfs m) in
    let root_meta := fs_read_inode s (fs_root_inode s) in
    if match root_meta with Ok r => negb (Z.land (im_mode r) 0x2 =? 0) | _ => false end then true else
    if bool_decide (path = HOME) || starts_with path (HOME ++ [SLASH]) then true else
    let parent_path := match rsplit SLASH rel with Some (p, _) => p | None => [] end in
    let parent := if bool_decide (parent_path = []) then
                    r ← root_meta;
                    Ok {| fi_length := im_size r; allocated_sectors := 0; is_directory := true; fi_uid := im_uid r;
                          fi_gid := im_gid r; fi_mode := u16 (im_mode r) |}
                  else fs_file_info_path s parent_path in
    info_allows c parent || info_allows c (fs_file_info_path s rel)
  | _ => false
  end.
End vfs.
