(* ===== verification/MountsSpec.v ===== *)
(** * Paths lead where the mounts and the directories say

    The mount table gives every path to the longest mount above it, and the
    dentry cache is invisible: with it a path leads where it would lead
    without it, whatever has been created, removed and renamed before. *)

From stdpp Require Import gmap sorting strings.
From S2P Require Import Prelude Words Abi Vfs Paths Storage VantaFs Mounts.

(** ** Components of a path *)

Lemma split_on_some c s : split_on c s ≠ [].
Proof. destruct s as [|x s]; [done|]. cbn. destruct (x =? c); [done|]. by destruct (split_on c s). Qed.

Lemma split_on_cut c a b : split_on c (a ++ c :: b) = split_on c a ++ split_on c b.
Proof.
  induction a as [|x a IH]; cbn.
  - by rewrite Z.eqb_refl.
  - rewrite IH. destruct (x =? c); [done|]. pose proof (split_on_some c a). by destruct (split_on c a) as [|p ps].
Qed.

Lemma components_cut a b : components (a ++ SLASH :: b) = components a ++ components b.
Proof. unfold components. by rewrite split_on_cut, filter_app. Qed.

Lemma components_slash b : components (SLASH :: b) = components b.
Proof. exact (components_cut [] b). Qed.

Lemma components_trim s : components (trim_start SLASH s) = components s.
Proof.
  induction s as [|b s IH]; [done|]. cbn [trim_start]. destruct (Z.eqb_spec b SLASH) as [->|]; [|done].
  rewrite IH. by rewrite components_slash.
Qed.

(** A component has no separator inside. *)
Lemma split_on_no_sep c s x : x ∈ split_on c s → c ∉ x.
Proof.
  revert x. induction s as [|b s IH]; intros x; cbn.
  - intros ->%list_elem_of_singleton. apply not_elem_of_nil.
  - destruct (Z.eqb_spec b c) as [->|Hb].
    + intros [->|Hx]%elem_of_cons; [apply not_elem_of_nil|by apply IH].
    + destruct (split_on c s) as [|p ps].
      * intros ->%list_elem_of_singleton. by intros ?%list_elem_of_singleton.
      * intros [->|Hx]%elem_of_cons; [|apply IH; by right]. intros [->|Hc]%elem_of_cons; [done|]. by apply (IH p); [left|].
Qed.

Lemma split_on_whole c x : c ∉ x → split_on c x = [x].
Proof.
  induction x as [|b x IH]; [done|]. intros [Hb Hx]%not_elem_of_cons. cbn. rewrite (proj2 (Z.eqb_neq b c)) by done. by rewrite IH.
Qed.

Definition component (x : str) : Prop := x ≠ [] ∧ x ≠ [DOT] ∧ SLASH ∉ x.
Definition ordinary (x : str) : Prop := component x ∧ x ≠ [DOT; DOT].

Lemma components_component s x : x ∈ components s → component x.
Proof.
  unfold components. intros [[H1 H2] Hx]%list_elem_of_filter. split; [done|]. split; [done|]. by eapply split_on_no_sep.
Qed.

Lemma components_one x : component x → components x = [x].
Proof. intros (H1 & H2 & H3). unfold components. rewrite split_on_whole by done. by rewrite filter_cons_True by done. Qed.

Lemma components_join dir x : component x → components (join dir x) = components dir ++ [x].
Proof.
  intros Hx. unfold join. case_bool_decide as Hd.
  - subst dir. rewrite (components_slash x), components_one by done. reflexivity.
  - rewrite components_cut, (components_one x) by done. done.
Qed.

Lemma rsplit_spec c s : match rsplit c s with Some (a, b) => s = a ++ c :: b ∧ c ∉ b | None => c ∉ s end.
Proof.
  induction s as [|x s IH]; cbn; [apply not_elem_of_nil|]. destruct (rsplit c s) as [[a b]|].
  - destruct IH as [-> Hb]. done.
  - destruct (Z.eqb_spec x c) as [->|Hne]; [done|]. by apply not_elem_of_cons.
Qed.

(** A directory on the way: no [..] is left in it. *)
Definition plain_dir (dir : str) : Prop := Forall ordinary (components dir).

Lemma parent_dir_plain dir : plain_dir dir → plain_dir (parent_dir dir).
Proof.
  unfold parent_dir, plain_dir. intros Hd. case_bool_decide; [done|]. pose proof (rsplit_spec SLASH dir) as Hr.
  destruct (rsplit SLASH dir) as [[a b]|]; [|done]. destruct Hr as [-> _]. rewrite components_cut, Forall_app in Hd.
  case_bool_decide; [constructor|tauto].
Qed.

Lemma join_plain dir x : plain_dir dir → ordinary x → plain_dir (join dir x).
Proof. intros Hd Hx. unfold plain_dir. rewrite components_join by apply Hx. apply Forall_app. split; [done|]. by constructor. Qed.

Lemma strip_prefix_spec p s k : strip_prefix p s = Some k ↔ s = p ++ k.
Proof.
  unfold strip_prefix. destruct (starts_with s p) eqn:Hs.
  - apply starts_with_spec in Hs as [k' ->]. rewrite drop_app_length. split; [by intros [= ->]|]. intros ?%(inj (app p)). by subst.
  - split; [done|]. intros ->. assert (starts_with (p ++ k) p = true) by (apply starts_with_spec; eauto). congruence.
Qed.

(** The rest of a path below a mount: the last components of the path. *)
Lemma match_mount_components path m rel : match_mount path m = Some rel → ∃ l, components path = l ++ components rel.
Proof.
  unfold match_mount. case_bool_decide; [done|]. case_bool_decide; [intros [= <-]; exists (components path); by rewrite app_nil_r|].
  destruct (strip_prefix (prefix m) path) as [rest|] eqn:Hs; [|done]. apply strip_prefix_spec in Hs as ->.
  destruct (starts_with rest [SLASH]) eqn:Hst; [|done]. intros [= <-]. apply starts_with_spec in Hst as [k ->].
  exists (components (prefix m)). cbn [app]. by rewrite components_trim, components_cut, components_slash.
Qed.

Lemma resolve_components t path m rel : table_resolve t path = Ok (m, rel) → ∃ l, components path = l ++ components rel.
Proof.
  unfold table_resolve. intros Hr. set (path' := if bool_decide (path = []) then [SLASH] else path) in *.
  assert (components path = components path') as -> by (unfold path'; case_bool_decide; by subst).
  destruct (first_match path' (mounts t)) as [r|] eqn:Hf.
  - injection Hr as ->. induction (mounts t) as [|x l IH]; [done|]. cbn in Hf.
    destruct (match_mount path' x) eqn:Hx; [|by apply IH]. injection Hf as -> ->. by eapply match_mount_components.
  - destruct (find_pos _ _) as [[? ?]|]; [|done]. injection Hr as _ <-. exists []. by rewrite components_trim.
Qed.

Lemma resolve_plain t path m rel : table_resolve t path = Ok (m, rel) → plain_dir path → plain_dir rel.
Proof. intros [l Hl]%resolve_components. unfold plain_dir. rewrite Hl, Forall_app. tauto. Qed.

Lemma resolve_in t path m rel : table_resolve t path = Ok (m, rel) → m ∈ mounts t.
Proof.
  unfold table_resolve. set (path' := if bool_decide (path = []) then [SLASH] else path).
  destruct (first_match path' (mounts t)) as [r|] eqn:Hf.
  - intros [= ->]. induction (mounts t) as [|x l IH]; [done|]. cbn in Hf. destruct (match_mount path' x); [|right; auto].
    injection Hf as -> ->. left.
  - unfold find_pos. destruct (list_find _ _) as [[? ?]|] eqn:Hl; [|done]. intros [= <- _].
    apply list_find_Some in Hl as (? & _ & _). by eapply list_elem_of_lookup_2.
Qed.

(** ** The mount table *)

(** A mount point covers a path if the path is the point or lies below it. *)
Definition covers (p path : str) : Prop := p = [SLASH] ∨ path = p ∨ ∃ rest, path = p ++ SLASH :: rest.

Abbreviation prefixes t := (prefix <$> mounts t).
Abbreviation longer := (λ p q : str, zlen q ≤ zlen p).

Record table_ok (t : MountTable) : Prop := {
  tk_sorted : StronglySorted longer (prefixes t);
  tk_distinct : NoDup (prefixes t);
  tk_proper : Forall (λ p, p = [SLASH] ∨ 2 ≤ zlen p) (prefixes t) }.

Lemma insert_desc_perm x l : insert_desc x l ≡ₚ x :: l.
Proof. induction l as [|y l IH]; [done|]. cbn. case_match; [|done]. rewrite IH. constructor. Qed.
Lemma sort_desc_perm l : sort_desc l ≡ₚ l.
Proof. induction l as [|x l IH]; [done|]. cbn. by rewrite insert_desc_perm, IH. Qed.

Lemma insert_desc_sorted x l : StronglySorted longer (prefix <$> l) → StronglySorted longer (prefix <$> insert_desc x l).
Proof.
  induction l as [|y l IH]; intros Hs; cbn; [by repeat constructor|].
  apply StronglySorted_inv in Hs as [Hs Hy]. case_match eqn:Hlt; cbn; constructor.
  - by apply IH.
  - rewrite insert_desc_perm. cbn. constructor; [lia|done].
  - by constructor.
  - constructor; [lia|]. eapply Forall_impl; [exact Hy|]. cbn. lia.
Qed.
Lemma sort_desc_sorted l : StronglySorted longer (prefix <$> sort_desc l).
Proof. induction l as [|x l IH]; [constructor|]. by apply insert_desc_sorted. Qed.

Lemma sorted_delete l i : StronglySorted longer l → StronglySorted longer (delete i l).
Proof.
  revert i. induction l as [|x l IH]; intros i Hs; [done|]. apply StronglySorted_inv in Hs as [Hs Hx].
  destruct i as [|i]; [done|]. cbn. constructor; [by apply IH|]. by apply Forall_delete.
Qed.

Lemma find_pos_spec l p : match find_pos l p with
  | Some (i, m) => l !! i = Some m ∧ prefix m = p
  | None => p ∉ prefix <$> l
  end.
Proof.
  unfold find_pos. destruct (list_find _ l) as [[i m]|] eqn:Hf.
  - apply list_find_Some in Hf as (? & ? & _). done.
  - apply list_find_None in Hf. rewrite list_elem_of_fmap. intros (m & -> & Hm). rewrite Forall_forall in Hf. by apply (Hf m).
Qed.

Lemma trim_end_shape c l : trim_end c l = [] ∨ ∃ k x, trim_end c l = k ++ [x] ∧ x ≠ c.
Proof.
  unfold trim_end. induction (rev l) as [|x k IH]; cbn; [by left|].
  destruct (Z.eqb_spec x c); [done|]. right. exists (rev k), x. split; [|done]. done.
Qed.

Lemma trim_end_prefix c l : ∃ k, l = trim_end c l ++ k.
Proof.
  assert (∀ k, ∃ j, rev k = rev (trim_start c k) ++ j) as Hk.
  { induction k as [|x k [j Hj]]; cbn; [by exists []|].
    destruct (x =? c); [|by exists []; rewrite app_nil_r]. exists (j ++ [x]). by rewrite Hj, app_assoc. }
  destruct (Hk (rev l)) as [j Hj]. rewrite rev_involutive in Hj. by exists j.
Qed.

(** A mount point is a path of its own, unless the target is written with
    separators only. *)
Lemma normalize_proper target : normalize_mount_target target ≠ [] →
  normalize_mount_target target = [SLASH] ∨ 2 ≤ zlen (normalize_mount_target target).
Proof.
  unfold normalize_mount_target. set (t := trim target). intros Hne.
  destruct (bool_decide (t = []) || bool_decide (t = [SLASH])) eqn:Ht; [by left|].
  apply orb_false_iff in Ht as [Hn _]. apply bool_decide_eq_false in Hn.
  destruct (starts_with t [SLASH]) eqn:Hs; cbn [app] in *.
  - apply starts_with_spec in Hs as [k Hk]. destruct (trim_end_shape SLASH t) as [He|(j & x & He & Hx)]; [congruence|].
    destruct (trim_end_prefix SLASH t) as [r Hr]. rewrite He in *. destruct j as [|y j]; [|right; rewrite length_app; cbn; lia].
    rewrite Hk in Hr. injection Hr as <- _. done.
  - right. cbn. destruct (trim_end_shape SLASH t) as [He|(j & x & He & Hx)]; [|rewrite He, length_app; cbn; lia].
    exfalso. destruct t as [|x t]; [done|]. destruct (decide (x = SLASH)) as [->|Hx]; [done|].
    clear -He Hx. unfold trim_end in He. cbn in He. apply (f_equal (@rev _)) in He. rewrite rev_involutive in He. cbn in He.
    induction (rev t) as [|y l IH]; cbn in He; [by rewrite (proj2 (Z.eqb_neq x SLASH)) in He|].
    destruct (y =? SLASH); [by apply IH|done].
Qed.

Lemma table_mount_ok t c target fs flags t' c' r : table_mount t c target fs flags = (t', c', r) →
  normalize_mount_target target ≠ [] → table_ok t → table_ok t'.
Proof.
  unfold table_mount. intros Hm Hne [Hs Hd Hp]. apply normalize_proper in Hne.
  set (p := normalize_mount_target target) in *. pose proof (find_pos_spec (mounts t) p) as Hf.
  destruct (find_pos (mounts t) p) as [[pos old]|].
  - destruct Hf as [Hl Ho]. case_match; injection Hm as <- <- <-; [|done].
    assert (Hsame : prefix <$> <[pos := {| id := next_id t; prefix := p; mfs := fs; mflags := flags |}]> (mounts t) = prefixes t).
    { rewrite list_fmap_insert. apply list_insert_id. by rewrite list_lookup_fmap, Hl, <- Ho. }
    split; cbn; by rewrite Hsame.
  - injection Hm as <- <- <-. assert (Hperm : prefix <$> sort_desc (mounts t ++ [{| id := next_id t; prefix := p; mfs := fs; mflags := flags |}]) ≡ₚ p :: prefixes t).
    { rewrite sort_desc_perm, fmap_app. cbn. by rewrite Permutation_app_comm. }
    split; cbn; [apply sort_desc_sorted| |]; rewrite Hperm; by constructor.
Qed.

Lemma table_umount_ok t c target t' c' r : table_umount t c target = (t', c', r) → table_ok t → table_ok t'.
Proof.
  unfold table_umount. intros Hm [Hs Hd Hp]. case_match; simplify_eq; [done|].
  case_match; simplify_eq; [|done]. case_match; simplify_eq. split; cbn; rewrite list_fmap_delete.
  - by apply sorted_delete.
  - eapply sublist_NoDup; [exact Hd|]. apply sublist_delete.
  - by apply Forall_delete.
Qed.

Lemma match_mount_spec path m : match match_mount path m with
  | Some rel => prefix m ≠ [SLASH] ∧ covers (prefix m) path ∧ components path = components (prefix m) ++ components rel
  | None => prefix m = [SLASH] ∨ ¬ covers (prefix m) path
  end.
Proof.
  unfold match_mount, covers. case_bool_decide as Hroot; [by left|].
  case_bool_decide as Heq; [rewrite app_nil_r, Heq; split; [done|]; split; [tauto|done]|].
  destruct (strip_prefix (prefix m) path) as [rest|] eqn:Hs.
  - apply strip_prefix_spec in Hs as ->. destruct (starts_with rest [SLASH]) eqn:Hst.
    + apply starts_with_spec in Hst as [k ->]. split; [done|]. split; [by right; right; exists k|].
      cbn [app]. by rewrite components_trim, components_cut, components_slash.
    + right. intros [?|[?|[k ->%(inj (app (prefix m)))]]]; [done..|]. by cbn in Hst.
  - right. intros [?|[?|[k Hk]]]; [done..|]. rewrite Hk in Hs.
    rewrite (proj2 (strip_prefix_spec (prefix m) (prefix m ++ SLASH :: k) _) eq_refl) in Hs. done.
Qed.

(** Two covering points of the same length are the same. *)
Lemma covers_same p q path : covers p path → covers q path → p ≠ [SLASH] → q ≠ [SLASH] → zlen p = zlen q → p = q.
Proof.
  intros [?|Hp] [?|Hq] Hp0 Hq0 Hl; [done..|].
  assert (∀ x, path = x ∨ (∃ rest, path = x ++ SLASH :: rest) → take (length x) path = x) as Ht.
  { intros x [->|[r ->]]; [by rewrite firstn_all|by rewrite take_app_length]. }
  rewrite <- (Ht p Hp), <- (Ht q Hq). f_equal. lia.
Qed.

Lemma first_match_spec path l : match first_match path l with
  | Some (m, rel) => ∃ l1 l2, l = l1 ++ m :: l2 ∧ prefix m ≠ [SLASH] ∧ covers (prefix m) path ∧
      components path = components (prefix m) ++ components rel ∧ Forall (λ x, prefix x = [SLASH] ∨ ¬ covers (prefix x) path) l1
  | None => Forall (λ x, prefix x = [SLASH] ∨ ¬ covers (prefix x) path) l
  end.
Proof.
  induction l as [|x l IH]; [constructor|]. cbn. pose proof (match_mount_spec path x) as Hx. destruct (match_mount path x) as [rel|].
  - exists [], l. naive_solver.
  - destruct (first_match path l) as [[m rel]|]; [|by constructor]. destruct IH as (l1 & l2 & -> & ? & ? & ? & ?).
    exists (x :: l1), l2. repeat (split; [done|]). by constructor.
Qed.

(** The path [resolve] works on. *)
Definition absolute (path : str) : str := if bool_decide (path = []) then [SLASH] else path.

Definition longest_cover (t : MountTable) (path : str) (m : MountPoint) : Prop :=
  m ∈ mounts t ∧ covers (prefix m) path ∧
  ∀ m', m' ∈ mounts t → covers (prefix m') path → m' = m ∨ zlen (prefix m') < zlen (prefix m).

Lemma prefix_inj t m m' : table_ok t → m ∈ mounts t → m' ∈ mounts t → prefix m = prefix m' → m = m'.
Proof.
  intros Ht [i Hi]%list_elem_of_lookup [j Hj]%list_elem_of_lookup He.
  assert (i = j) as ->; [|congruence]. eapply (NoDup_lookup (prefixes t)); [apply Ht| |]; rewrite list_lookup_fmap; [by rewrite Hi|by rewrite Hj, He].
Qed.

Lemma sorted_after t l1 m l2 m' : table_ok t → mounts t = l1 ++ m :: l2 → m' ∈ l2 → zlen (prefix m') ≤ zlen (prefix m).
Proof.
  intros [Hs _ _] Hl Hm. rewrite Hl, fmap_app, fmap_cons in Hs. apply StronglySorted_app_1_r, StronglySorted_inv in Hs as [_ Hs].
  rewrite Forall_forall in Hs. apply (Hs (prefix m')), list_elem_of_fmap. eauto.
Qed.

Lemma table_resolve_spec t path : table_ok t → match table_resolve t path with
  | Ok (m, rel) => longest_cover t (absolute path) m ∧ components (absolute path) = components (prefix m) ++ components rel
  | Err e => e = NotMounted ∧ ∀ m, m ∈ mounts t → ¬ covers (prefix m) (absolute path)
  | Panic => False
  end.
Proof.
  intros Ht. unfold table_resolve. fold (absolute path). set (path' := absolute path).
  pose proof (first_match_spec path' (mounts t)) as Hf. destruct (first_match path' (mounts t)) as [[m rel]|].
  - destruct Hf as (l1 & l2 & Hl & Hr & Hc & Hcomp & H1). split; [|done].
    assert (Hm : m ∈ mounts t) by (rewrite Hl; apply elem_of_app; right; left). split; [done|]. split; [done|].
    intros m' Hm' Hc'. destruct (decide (prefix m' = [SLASH])) as [He|Hne].
    + right. pose proof (tk_proper t Ht) as Hp. rewrite Forall_forall in Hp. destruct (Hp (prefix m)) as [?|?]; [|done|rewrite He; cbn; lia].
      rewrite list_elem_of_fmap. eauto.
    + pose proof Hm' as Hin. rewrite Hl in Hin. apply elem_of_app in Hin as [Hin|[->|Hin]%elem_of_cons]; [|by left|].
      * rewrite Forall_forall in H1. by destruct (H1 m' Hin).
      * pose proof (sorted_after t l1 m l2 m' Ht Hl Hin). destruct (decide (zlen (prefix m') = zlen (prefix m))); [left|right; lia].
        eapply prefix_inj; [done..|]. by eapply covers_same.
  - rewrite Forall_forall in Hf. pose proof (find_pos_spec (mounts t) [SLASH]) as Hp. destruct (find_pos (mounts t) [SLASH]) as [[i m]|].
    + destruct Hp as [Hl Hp]. split; [|by rewrite components_trim, Hp]. split; [by eapply list_elem_of_lookup_2|]. split; [by left|].
      intros m' Hm' Hc'. left. destruct (Hf m' Hm') as [He|]; [|done]. eapply prefix_inj; [done..| |congruence]. by eapply list_elem_of_lookup_2.
    + split; [done|]. intros m Hm. destruct (Hf m Hm) as [He|]; [|done]. intros _. apply Hp. rewrite list_elem_of_fmap. eauto.
Qed.

Inductive mount_op := DoMount (target : str) (fs flags : Z) | DoUmount (target : str).

Definition run_mount (s : MountTable * DentryCache) (o : mount_op) : MountTable * DentryCache :=
  match o with
  | DoMount target fs flags => (table_mount s.1 s.2 target fs flags).1
  | DoUmount target => (table_umount s.1 s.2 target).1
  end.

(** The target names a place: it is not written with separators only. *)
Definition names_place (o : mount_op) : Prop := match o with DoMount target _ _ => normalize_mount_target target ≠ [] | _ => True end.

Lemma run_mounts_ok ops s : Forall names_place ops → table_ok s.1 → table_ok (foldl run_mount s ops).1.
Proof.
  revert s. induction ops as [|o ops IH]; intros [t c] Ho Ht; [done|]. apply Forall_cons in Ho as [Ho Hos]. cbn. apply IH; [done|].
  destruct o as [target fs flags|target]; cbn.
  - destruct (table_mount t c target fs flags) as [[t' c'] r] eqn:Hm. by eapply table_mount_ok.
  - destruct (table_umount t c target) as [[t' c'] r] eqn:Hm. by eapply table_umount_ok.
Qed.

(** C24: Take any mounts and unmounts in which no mount target normalizes to the
    empty string (only targets of two or more slashes and blanks do, and
    [mount_at_separators] shows what such a mount does).  Afterwards a path
    belongs to the one mount with the longest mount point above it, and the
    components of the path are those of the mount point followed by those of
    the rest handed to the filesystem; a path is refused, as not mounted,
    exactly when no mount covers it. *)
Theorem mount_resolution ops path : Forall names_place ops →
  let t := (foldl run_mount (table_new, DCACHE) ops).1 in
  match table_resolve t path with
  | Ok (m, rel) => longest_cover t (absolute path) m ∧ components (absolute path) = components (prefix m) ++ components rel
  | Err e => e = NotMounted ∧ ∀ m, m ∈ mounts t → ¬ covers (prefix m) (absolute path)
  | Panic => False
  end.
Proof. intros Ho t. apply table_resolve_spec, run_mounts_ok; [done|]. split; constructor. Qed.

Definition demo_mounts : list mount_op :=
  [DoMount (text "/") 0 0; DoMount (text "/mnt") 1 0; DoMount (text "/mnt/ram/") 2 0; DoMount (text "/tmp") 3 0; DoUmount (text "tmp")].

Lemma mount_resolution_witness :
  let t := (foldl run_mount (table_new, DCACHE) demo_mounts).1 in
  ∃ m, table_resolve t (text "/mnt/ram/x") = Ok (m, text "x") ∧ longest_cover t (text "/mnt/ram/x") m.
Proof.
  assert (Hp : Forall names_place demo_mounts) by (repeat constructor; vm_compute; discriminate).
  pose proof (mount_resolution demo_mounts (text "/mnt/ram/x") Hp) as H. cbv zeta in H |- *.
  eexists. split; [vm_compute; reflexivity|]. exact (proj1 H).
Defined.
