(* ===== verification/DentrySpec.v ===== *)
(** * The dentry cache is invisible

    Against any filesystem whose operations change only the names they are
    called for ([NamedFs]), a path resolved through the dentry cache leads
    where the filesystems say, and every path operation of the kernel keeps
    the cache in step with them. *)

From stdpp Require Import gmap sorting strings.
From S2P Require Import Prelude Words Abi Vfs Paths Storage VantaFs VantaFsDisk Mounts MountsSpec.

(** ** Walking without a cache *)

Section plain.
Context {S C : Type} `{FS : !Filesystem S}.
Abbreviation vfs := (@vfs S C).

Fixpoint seek (s : S) (curr : Z) (comps : list str) : res VfsError Z :=
  match comps with
  | [] => Ok curr
  | comp :: comps' => child ← fs_lookup s curr comp; _ ← fs_read_inode s child; seek s child comps'
  end.

Definition plain_step (w : vfs) (follow : bool) (dir comp : str) (is_last : bool) : walk :=
  if bool_decide (comp = [DOT; DOT]) then Into (parent_dir dir) else
  let candidate := join dir comp in
  match find_mount (table w) candidate with
  | Some m => let s := wfs w (mfs m) in into_res (fs_read_inode s (fs_root_inode s)) (λ _, Into candidate)
  | None =>
    if existsb (λ m, starts_with (prefix m) (candidate ++ [SLASH])) (mounts (table w)) then Into candidate else
    into_res (table_resolve (table w) candidate) (λ '(m, rel),
      let s := wfs w (mfs m) in
      into_res (ino ← seek s (fs_root_inode s) (components rel); meta ← fs_read_inode s ino; Ok (ino, meta))
        (λ '(ino, meta), arrive follow is_last m candidate ino meta))
  end.

Definition plain_end (w : vfs) (dir : str) : res VfsError found :=
  '(m, rel) ← table_resolve (table w) dir;
  let s := wfs w (mfs m) in
  ino ← seek s (fs_root_inode s) (components rel);
  meta ← fs_read_inode s ino;
  returning m ino meta dir.

Fixpoint plain_path (hops : nat) (w : vfs) (follow : bool) : str → list str → res VfsError found :=
  fix go (dir : str) (remaining : list str) : res VfsError found :=
    match remaining with
    | [] => plain_end w dir
    | comp :: rest =>
      match plain_step w follow dir comp (bool_decide (rest = [])) with
      | Return r => r
      | Into dir => go dir rest
      | AtLink m ino =>
        match hops with
        | O => Err Loop
        | Datatypes.S hops' =>
          target ← fs_readlink (wfs w (mfs m)) ino;
          plain_path hops' w follow (if starts_with target [SLASH] then [SLASH] else dir) (components target ++ rest)
        end
      end
    end.

Definition plain_resolve (w : vfs) (path : str) (follow : bool) : res VfsError found :=
  plain_path MAX_HOPS w follow [SLASH] (components path).

(** ** Agreement of a cache with the filesystems *)

Definition entry (s : S) (dir : Z) (n : str) (i : Z) : Prop :=
  fs_lookup s dir n = Ok i ∧ ∃ m, fs_read_inode s i = Ok m.

(** Every cached name of a mounted filesystem is an entry of it, and no mount
    that is still to come has a name in the cache. *)
Record agrees (w : vfs) (c : DentryCache) : Prop := {
  ag_entry m dir n v : m ∈ mounts (table w) → ordinary n →
    dentries c !! (id m, dir, n) = Some v → entry (wfs w (mfs m)) dir n (d_ino v);
  ag_old key v : dentries c !! key = Some v → key.1.1 < next_id (table w) }.

Lemma dcache_lookup_same c k : dcache_lookup c k = ((dcache_lookup c k).1, dentries c !! k) ∧ dentries (dcache_lookup c k).1 = dentries c.
Proof. unfold dcache_lookup. by destruct (dentries c !! k). Qed.

Lemma dcache_evict_sub max ks e : (dcache_evict max e ks).1 ⊆ e.
Proof.
  revert e. induction ks as [|k ks IH]; intros e; cbn; case_match; cbn; try done. etrans; [apply IH|]. apply delete_subseteq.
Qed.

Lemma dcache_insert_lookup c k v k' v' : dentries (dcache_insert c k v) !! k' = Some v' →
  (k' = k ∧ v' = v) ∨ dentries c !! k' = Some v'.
Proof.
  unfold dcache_insert. case_bool_decide; cbn.
  - intros [[-> ->]|[_ ?]]%lookup_insert_Some; auto.
  - pose proof (dcache_evict_sub (max_entries c) (dkeys c) (dentries c)) as Hs.
    destruct (dcache_evict _ _ _) as [e ks]. cbn in *. intros [[-> ->]|[_ He]]%lookup_insert_Some; [by left|].
    right. by eapply lookup_weaken.
Qed.

Record unique_ids (w : vfs) : Prop := {
  ui_distinct : NoDup (id <$> mounts (table w));
  ui_old m : m ∈ mounts (table w) → id m < next_id (table w) }.

Lemma id_inj w m m' : unique_ids w → m ∈ mounts (table w) → m' ∈ mounts (table w) → id m = id m' → m = m'.
Proof.
  intros Hu [i Hi]%list_elem_of_lookup [j Hj]%list_elem_of_lookup He.
  assert (i = j) as ->; [|congruence]. eapply NoDup_lookup; [apply Hu| |]; rewrite list_lookup_fmap; [by rewrite Hi|by rewrite Hj, He].
Qed.

Lemma agrees_same w c c' : agrees w c → dentries c' = dentries c → agrees w c'.
Proof. intros [Ha Ho] He. split; intros; rewrite He in *; eauto. Qed.

Lemma agrees_insert w c m dir n v : unique_ids w → agrees w c → m ∈ mounts (table w) →
  (ordinary n → entry (wfs w (mfs m)) dir n (d_ino v)) → agrees w (dcache_insert c (id m, dir, n) v).
Proof.
  intros Hu Ha Hm He. split.
  - intros m' dir' n' v' Hm' Hn [[[= Hid -> ->] ->]|Hold]%dcache_insert_lookup; [|by eapply Ha].
    apply (id_inj w) in Hid as ->; auto.
  - intros key v' [[-> ->]|Hold]%dcache_insert_lookup; [by apply Hu|by eapply Ha].
Qed.

(** The walk through one filesystem. *)
Lemma walk_components_plain w m comps : unique_ids w → m ∈ mounts (table w) → Forall ordinary comps →
  ∀ c curr, agrees w c →
  ∃ c', walk_components c (id m) (wfs w (mfs m)) curr comps = (c', seek (wfs w (mfs m)) curr comps) ∧ agrees w c'.
Proof.
  intros Hu Hm. induction 1 as [|comp comps Hc _ IH]; intros c curr Ha; [by exists c|]. cbn.
  destruct (dcache_lookup_same c (id m, curr, comp)) as [-> Hd]. set (c1 := (dcache_lookup c (id m, curr, comp)).1) in *.
  assert (Ha1 : agrees w c1) by by eapply agrees_same. destruct (dentries c !! (id m, curr, comp)) as [v|] eqn:Hv.
  - destruct (ag_entry w c Ha m curr comp v) as [-> [meta Hmeta]]; [done..|]. cbn. rewrite Hmeta. cbn. by apply IH.
  - destruct (fs_lookup _ curr comp) as [child|e|] eqn:Hl; cbn; [|by exists c1..].
    destruct (fs_read_inode _ child) as [meta|e|] eqn:Hr; cbn; [|by exists c1..]. apply IH. apply agrees_insert; [done..|].
    intros _. cbn. split; [done|]. eauto.
Qed.

Lemma lookup_in_fs_plain w m c path rel : unique_ids w → agrees w c → plain_dir path → table_resolve (table w) path = Ok (m, rel) →
  ∃ c', lookup_in_fs c (id m) (wfs w (mfs m)) rel = (c', seek (wfs w (mfs m)) (fs_root_inode (wfs w (mfs m))) (components rel)) ∧ agrees w c'.
Proof.
  intros Hu Ha Hp Hr. apply walk_components_plain; [done|by eapply resolve_in| |done]. exact (resolve_plain _ _ _ _ Hr Hp).
Qed.

(** A step of the walk, and that it stays on plain directories. *)
Definition step_plain (x : walk) : Prop := match x with Into dir => plain_dir dir | _ => True end.

Lemma plain_step_plain w follow dir comp last : component comp → plain_dir dir → step_plain (plain_step w follow dir comp last).
Proof.
  intros Hc Hd. unfold plain_step. case_bool_decide as Hdd; [by apply parent_dir_plain|].
  assert (Hj : plain_dir (join dir comp)) by (apply join_plain; [done|by split]).
  destruct (find_mount _ _) as [m|]; [by destruct (fs_read_inode _ _)|]. case_match; [done|].
  destruct (table_resolve _ _) as [[m rel]|e|]; cbn; [|done..]. destruct (_ ← _; _) as [[ino meta]|e|]; cbn; [|done..].
  unfold arrive. by repeat case_match.
Qed.

Lemma walk_step_plain w follow c dir comp last : unique_ids w → agrees w c → component comp → plain_dir dir →
  ∃ c', walk_step w follow c dir comp last = (c', plain_step w follow dir comp last) ∧ agrees w c'.
Proof.
  intros Hu Ha Hc Hd. unfold walk_step, plain_step. case_bool_decide as Hdd; [by exists c|].
  assert (Hj : plain_dir (join dir comp)) by (apply join_plain; [done|by split]).
  destruct (find_mount _ _) as [m|]; [by exists c|]. case_match; [by exists c|].
  destruct (table_resolve _ _) as [[m rel]|e|] eqn:Hr; cbn; [|by exists c..].
  destruct (lookup_in_fs_plain w m c _ rel Hu Ha Hj Hr) as (c' & -> & Ha'). by exists c'.
Qed.

Lemma walk_end_plain w c dir : unique_ids w → agrees w c → plain_dir dir →
  ∃ c', walk_end w c dir = (c', plain_end w dir) ∧ agrees w c'.
Proof.
  intros Hu Ha Hd. unfold walk_end, plain_end. destruct (table_resolve _ _) as [[m rel]|e|] eqn:Hr; cbn; [|by exists c..].
  case_bool_decide as Hrel; [subst rel; by exists c|].
  destruct (lookup_in_fs_plain w m c _ rel Hu Ha Hd Hr) as (c' & -> & Ha'). by exists c'.
Qed.

Lemma components_all s : Forall component (components s).
Proof. apply Forall_forall. intros x. apply components_component. Qed.

Lemma walk_path_plain w follow : unique_ids w → ∀ hops remaining c dir, agrees w c → plain_dir dir → Forall component remaining →
  ∃ c', walk_path hops w follow c dir remaining = (c', plain_path hops w follow dir remaining) ∧ agrees w c'.
Proof.
  intros Hu. induction hops as [|hops IHh]; induction remaining as [|comp rest IHr]; intros c dir Ha Hd Hf;
    cbn [walk_path plain_path]; try by apply walk_end_plain.
  all: apply Forall_cons in Hf as [Hc Hf]; pose proof (plain_step_plain w follow dir comp (bool_decide (rest = [])) Hc Hd) as Hp;
    destruct (walk_step_plain w follow c dir comp (bool_decide (rest = [])) Hu Ha Hc Hd) as (c1 & -> & Ha1);
    destruct (plain_step w follow dir comp (bool_decide (rest = []))) as [r|dir'|m ino]; try by exists c1.
  1,2: by apply IHr.
  destruct (fs_readlink _ ino) as [target|e|]; cbn; [|by exists c1..]. apply IHh; [done| |].
  - case_match; [constructor|done].
  - apply Forall_app. split; [apply components_all|done].
Qed.
End plain.
