(* ===== verification/DentryOps.v ===== *)
(** * The path operations keep the dentry cache in step

    What a filesystem must promise about names ([NamedFs]), the invariant of
    mount table, dentry cache and filesystems, and that every path operation
    of the kernel preserves it. *)

From stdpp Require Import gmap sorting strings.
From S2P Require Import Prelude Words Abi Vfs Paths Storage VantaFs VantaFsDisk Mounts MountsSpec DentrySpec.

Section laws.
Context {S C : Type} `{FS : !Filesystem S} `{PC : !PageCaching C S}.

(** The names of [s] other than [ks] mean the same in [s']. *)
Definition kept_but (ks : list (Z * str)) (s s' : S) : Prop := ∀ dir n i, ordinary n → (dir, n) ∉ ks → entry s dir n i → entry s' dir n i.
Definition kept (s s' : S) : Prop := kept_but [] s s'.

(** A call that adds the name [n] to [dir], and one that may remove [ks]. *)
Definition adds (dir : Z) (n : str) (s : S) (x : S * res VfsError Z) : Prop :=
  kept s x.1 ∧ ∀ i, x.2 = Ok i → ordinary n → entry x.1 dir n i.
Definition drops (ks : list (Z * str)) (s : S) (x : S * res VfsError unit) : Prop :=
  match x.2 with Ok _ => kept_but ks s x.1 | _ => kept s x.1 end.
End laws.

(** [fs_ok k] leaves room for [k] more inodes. *)
Class NamedFs (S : Type) `{FS : !Filesystem S} := {
  fs_ok : nat → S → Prop;
  fs_ok_less k s : fs_ok (Datatypes.S k) s → fs_ok k s;
  create_names k s dir n mode : fs_ok (Datatypes.S k) s → fs_ok k (fs_create s dir n mode).1 ∧ adds dir n s (fs_create s dir n mode);
  mkdir_names k s dir n mode : fs_ok (Datatypes.S k) s → fs_ok k (fs_mkdir s dir n mode).1 ∧ adds dir n s (fs_mkdir s dir n mode);
  symlink_names k s dir n target : fs_ok (Datatypes.S k) s → fs_ok k (fs_symlink s dir n target).1 ∧ adds dir n s (fs_symlink s dir n target);
  unlink_names k s dir n : fs_ok k s → fs_ok k (fs_unlink s dir n).1 ∧ drops [(dir, n)] s (fs_unlink s dir n);
  rmdir_names k s dir n : fs_ok k s → fs_ok k (fs_rmdir s dir n).1 ∧ drops [(dir, n)] s (fs_rmdir s dir n);
  rename_names k s d1 n1 d2 n2 m : fs_ok k s → fs_ok k (fs_rename s d1 n1 d2 n2).1 ∧
    (fs_read_inode s d2 = Ok m → is_dir m = true → drops [(d1, n1); (d2, n2)] s (fs_rename s d1 n1 d2 n2));
  write_names k s i off b : fs_ok k s → fs_ok k (fs_write s i off b).1 ∧ kept s (fs_write s i off b).1;
  truncate_names k s i size : fs_ok k s → fs_ok k (fs_truncate s i size).1 ∧ kept s (fs_truncate s i size).1;
  open_names k s i : fs_ok k s → fs_ok k (fs_open_inode s i) ∧ kept s (fs_open_inode s i);
  create_dir_names k s path : fs_ok (length (components path) + k) s →
    fs_ok k (fs_create_dir_path s path).1 ∧ kept s (fs_create_dir_path s path).1 }.

Lemma components_trim_matches s : components (trim_matches SLASH s) = components s.
Proof.
  unfold trim_matches, trim_end. assert (Hk : ∀ k, components (rev (trim_start SLASH k)) = components (rev k)).
  { induction k as [|x k IH]; [done|]. cbn [trim_start rev]. destruct (Z.eqb_spec x SLASH) as [->|]; [|done]. rewrite IH, components_cut. by rewrite app_nil_r. }
  by rewrite Hk, rev_involutive, components_trim.
Qed.

(** The default [create_dir_path] keeps its promise where [mkdir] does. *)
Section default_dirs.
Context {S : Type} `{FS : !Filesystem S} (ok : nat → S → Prop) (ok_less : ∀ k s, ok (Datatypes.S k) s → ok k s)
  (mkdir_ok : ∀ k s dir n mode, ok (Datatypes.S k) s → ok k (fs_mkdir s dir n mode).1 ∧ adds dir n s (fs_mkdir s dir n mode)).
Abbreviation mkdirs := (make_dirs fs_lookup fs_mkdir).

Lemma make_dirs_ok k comps : ∀ s curr, ok (length comps + k) s → ok k (mkdirs s curr comps).1 ∧ kept s (mkdirs s curr comps).1.
Proof.
  assert (Hle : ∀ n s, ok (n + k) s → ok k s) by (induction n; cbn; auto).
  induction comps as [|comp comps IH]; intros s curr Hs; cbn [make_dirs length] in *; [split; [done|by intros ???]|].
  pose proof (Hle (Datatypes.S (length comps)) s Hs) as Hk. cbn in Hs.
  destruct (fs_lookup s curr comp) as [i|[]|]; try (split; [done|by intros ???]); [by apply IH, ok_less|].
  destruct (mkdir_ok _ s curr comp 493 Hs) as (Ho & Hkept & _). destruct (fs_mkdir s curr comp 493) as [s1 [i|e|]]; cbn in *.
  - destruct (IH s1 i Ho) as [Ho2 Hk2]. split; [done|]. intros d n j Hn Hnk He. by apply Hk2; [..|apply Hkept].
  - split; [by eapply Hle|done].
  - split; [by eapply Hle|done].
Qed.

Lemma default_create_dir_names k s path : ok (length (components path) + k) s →
  ok k (create_dir_path fs_root_inode fs_lookup fs_mkdir s path).1 ∧
  kept s (create_dir_path fs_root_inode fs_lookup fs_mkdir s path).1.
Proof. intros Hs. apply make_dirs_ok. by rewrite components_trim_matches. Qed.
End default_dirs.

(** Cached reads and writes reach the data of a filesystem only. *)
Class NamedCache (C S : Type) `{FS : !Filesystem S} `{PC : !PageCaching C S} `{NF : !NamedFs S} := {
  pc_read_names k c s m i off len : fs_ok k s → fs_ok k (pc_read c s m i off len).1.2 ∧ kept s (pc_read c s m i off len).1.2;
  pc_write_names k c s m i off b : fs_ok k s → fs_ok k (pc_write c s m i off b).1.2 ∧ kept s (pc_write c s m i off b).1.2 }.

Section ops.
Context {S C : Type} `{FS : !Filesystem S} `{PC : !PageCaching C S} `{NF : !NamedFs S} `{NC : !NamedCache C S}.
Abbreviation vfs := (@vfs S C).
Abbreviation O := (M vfs VfsError).

(** ** The invariant *)

Record vfs_ok (k : nat) (w : vfs) : Prop := {
  vk_agrees : agrees w (dcache w);
  vk_ids : unique_ids w;
  vk_handles : NoDup (mfs <$> mounts (table w));
  vk_room : 0 ≤ next_id (table w) ∧ next_id (table w) + Z.of_nat k < 2 ^ 64;
  vk_fs h : fs_ok k (wfs w h) }.

Lemma fs_ok_le k k' s : (k' ≤ k)%nat → fs_ok k s → fs_ok k' s.
Proof. induction 1 as [|k _ IH]; [done|]. intros Hs%fs_ok_less. auto. Qed.

Lemma vfs_ok_le k k' w : (k' ≤ k)%nat → vfs_ok k w → vfs_ok k' w.
Proof. intros Hk [Ha Hi Hh Hr Hf]. split; [done..|lia|]. intros h. by eapply fs_ok_le. Qed.

Lemma kept_refl s : kept s s.
Proof. by intros ?. Qed.
Lemma kept_trans ks s1 s2 s3 : kept s1 s2 → kept_but ks s2 s3 → kept_but ks s1 s3.
Proof. intros H1 H2 dir n i Hn Hk He. apply H2, H1; [done..| |done]. apply not_elem_of_nil. Qed.

(** A mounted filesystem is at one place. *)
Lemma handle_inj (w : vfs) m m' : NoDup (mfs <$> mounts (table w)) → m ∈ mounts (table w) → m' ∈ mounts (table w) → mfs m = mfs m' → m = m'.
Proof.
  intros Hu [i Hi]%list_elem_of_lookup [j Hj]%list_elem_of_lookup He.
  assert (i = j) as ->; [|congruence]. eapply NoDup_lookup; [exact Hu| |]; rewrite list_lookup_fmap; [by rewrite Hi|by rewrite Hj, He].
Qed.

(** A change of one filesystem and of the cache that forgets what changed. *)
Lemma vfs_ok_step k k' (w : vfs) m s' c' p ks : vfs_ok k w → (k' ≤ k)%nat → m ∈ mounts (table w) → fs_ok k' s' →
  kept_but ks (wfs w (mfs m)) s' →
  (∀ key v, dentries c' !! key = Some v → dentries (dcache w) !! key = Some v ∧
     (key.1.1 = id m → (key.1.2, key.2) ∉ ks)) →
  vfs_ok k' (set_pages (set_dcache (set_fs w (mfs m) s') c') p).
Proof.
  intros [Ha Hi Hh Hr Hf] Hk Hm Hs Hkept Hsub. split; cbn; [split; cbn| | |lia|].
  - intros m' dir n v Hm' Hn [Hv Hnot]%Hsub. cbn in *. case_decide as Heq; [|by apply Ha].
    apply (handle_inj w) in Heq as ->; [|done..]. apply Hkept; [done| |by apply Ha]. by apply Hnot.
  - intros key v [Hv _]%Hsub. by eapply Ha.
  - by destruct Hi.
  - done.
  - intros h. case_decide; [done|]. by eapply fs_ok_le.
Qed.

Lemma agrees_set_dcache (w : vfs) c c' : agrees w c → agrees (set_dcache w c') c.
Proof. by intros []. Qed.

Lemma vfs_ok_dcache k (w : vfs) c : vfs_ok k w → agrees w c → vfs_ok k (set_dcache w c).
Proof. intros [Ha [Hi Ho] Hh Hr Hf] Hc. split; try done. by apply agrees_set_dcache. Qed.

Lemma vfs_ok_pages k (w : vfs) p : vfs_ok k w → vfs_ok k (set_pages w p).
Proof. intros [[Ha Ho] [Hi Hj] Hh Hr Hf]. by split. Qed.

(** ** Where a path leads *)

Definition found_in (w : vfs) (f : found) : Prop := ∃ m, m ∈ mounts (table w) ∧ f_mount f = id m ∧ f_fs f = mfs m ∧
  fs_read_inode (wfs w (mfs m)) (f_ino f) = Ok (f_meta f).

Definition mounted (w : vfs) (f : found) : Prop := ∃ m, m ∈ mounts (table w) ∧ f_mount f = id m ∧ f_fs f = mfs m.

Lemma found_mounted w f : found_in w f → mounted w f.
Proof. intros (m & ? & ? & ? & _). by exists m. Qed.
Lemma mounted_same w w' f : table w' = table w → mounted w f → mounted w' f.
Proof. unfold mounted. by intros ->. Qed.

Lemma plain_end_found w dir f : plain_end w dir = Ok f → found_in w f.
Proof.
  unfold plain_end. destruct (table_resolve _ _) as [[m rel]|e|] eqn:Hr; cbn; [|done..]. destruct (seek _ _ _) as [ino|e|]; cbn; [|done..].
  destruct (fs_read_inode _ ino) as [meta|e|] eqn:Hi; cbn; [|done..]. intros [= <-]. exists m. cbn. split; [by eapply resolve_in|done].
Qed.

Lemma plain_step_found w follow dir comp last f : plain_step w follow dir comp last = Return (Ok f) → found_in w f.
Proof.
  unfold plain_step. case_bool_decide; [done|]. destruct (find_mount _ _) as [m|]; [by destruct (fs_read_inode _ _)|]. case_match; [done|].
  destruct (table_resolve _ _) as [[m rel]|e|] eqn:Hr; cbn; [|done..]. destruct (seek _ _ _) as [ino|e|]; cbn; [|done..].
  destruct (fs_read_inode _ ino) as [meta|e|] eqn:Hi; cbn; [|done..]. unfold arrive. apply resolve_in in Hr.
  repeat case_match; try done; intros [= <-]; by exists m.
Qed.

Lemma plain_path_found w follow f : ∀ hops remaining dir, plain_path hops w follow dir remaining = Ok f → found_in w f.
Proof.
  induction hops as [|hops IHh]; induction remaining as [|comp rest IHr]; intros dir; cbn [plain_path]; try apply plain_end_found.
  all: destruct (plain_step _ _ _ _ _) as [r|dir'|m ino] eqn:Hs; [intros ->; by eapply plain_step_found|apply IHr|].
  { done. }
  destruct (fs_readlink _ ino) as [target|e|]; cbn; [apply IHh|done..].
Qed.

Lemma resolve_ok k w path follow : vfs_ok k w →
  ∃ c, resolve path follow w = (set_dcache w c, plain_resolve w path follow) ∧ vfs_ok k (set_dcache w c).
Proof.
  intros Hw. unfold resolve, resolve_path_vfs.
  destruct (walk_path_plain w follow (vk_ids k w Hw) MAX_HOPS (components path) (dcache w) [SLASH]) as (c & -> & Ha);
    [apply Hw|constructor|apply components_all|].
  exists c. split; [done|]. by apply vfs_ok_dcache.
Qed.

(** ** Running an operation *)

(** After [op] the condition [I] holds if it has failed, and [Q] does if it
    has returned a value. *)
Definition wp {A} (I : vfs → Prop) (op : O A) (Q : A → vfs → Prop) (w : vfs) : Prop :=
  match op w with (w', Ok a) => Q a w' | (w', _) => I w' end.

Section rules.
Context (I : vfs → Prop).

Lemma wp_bind {A B} (op : O A) (f : A → O B) Q w : wp I op (λ a, wp I (f a) Q) w → wp I (op ≫= f) Q w.
Proof. unfold wp. destruct (op w) as [w' [a|e|]] eqn:Ho; unfold mbind, M_bind; by rewrite Ho. Qed.

Lemma wp_ret {A} (a : A) (Q : A → vfs → Prop) w : Q a w → wp I (mret a) Q w.
Proof. done. Qed.

Lemma wp_mono {A} (op : O A) (Q Q' : A → vfs → Prop) w : wp I op Q w → (∀ a w', Q a w' → Q' a w') → wp I op Q' w.
Proof. unfold wp. destruct (op w) as [w' [a|e|]]; auto. Qed.

Lemma wp_reject b e (Q : unit → vfs → Prop) w : I w → (b = false → Q () w) → wp I (reject b e) Q w.
Proof. unfold wp, reject. intros Hw HQ. destruct b; [done|]. by apply HQ. Qed.

Lemma wp_check i (Q : unit → vfs → Prop) w : I w → Q () w → wp I (check_writable i) Q w.
Proof. unfold wp, check_writable. intros Hw HQ. by repeat case_match; simplify_eq. Qed.

Lemma wp_ask {A} h (op : S → res VfsError A) (Q : A → vfs → Prop) w : I w → (∀ a, op (wfs w h) = Ok a → Q a w) → wp I (ask_fs h op) Q w.
Proof. unfold wp, ask_fs. intros Hw HQ. destruct (op (wfs w h)) eqn:Ho; auto. Qed.
End rules.

Lemma wp_resolve k k' path follow (Q : found → vfs → Prop) w : vfs_ok k' w → (k ≤ k')%nat →
  (∀ f w', plain_resolve w path follow = Ok f → table w' = table w → wfs w' = wfs w → vfs_ok k' w' → found_in w' f → Q f w') →
  wp (vfs_ok k) (resolve path follow) Q w.
Proof.
  intros Hw Hk HQ. destruct (resolve_ok k' w path follow Hw) as (c & Hr & Hc). unfold wp. rewrite Hr.
  destruct (plain_resolve w path follow) as [f|e|] eqn:Hp; [|by eapply vfs_ok_le..]. apply HQ; [done..|].
  exact (plain_path_found _ _ _ _ _ _ Hp).
Qed.

(** A call that keeps the names. *)
Lemma wp_on_fs {A} k k' k1 f (op : S → S * res VfsError A) (Q : A → vfs → Prop) w : vfs_ok k' w → mounted w f → (k ≤ k1 ≤ k')%nat →
  fs_ok k1 (op (wfs w (f_fs f))).1 ∧ kept (wfs w (f_fs f)) (op (wfs w (f_fs f))).1 →
  (∀ a w', (op (wfs w (f_fs f))).2 = Ok a → w' = set_fs w (f_fs f) (op (wfs w (f_fs f))).1 → vfs_ok k1 w' → Q a w') →
  wp (vfs_ok k) (on_fs (f_fs f) op) Q w.
Proof.
  intros Hw (m & Hm & Hid & Hfs) Hk [Ho Hkept] HQ. unfold wp, on_fs. destruct (op (wfs w (f_fs f))) as [s' r] eqn:He. cbn in *.
  assert (Hw' : vfs_ok k1 (set_fs w (f_fs f) s')).
  { rewrite Hfs in *. destruct w as [t c wf p]. apply (vfs_ok_step k' k1 _ m s' c p [] Hw); [lia|done..|].
    intros key v Hv. split; [done|]. intros _. apply not_elem_of_nil. }
  destruct r; [by apply HQ|by eapply vfs_ok_le; [|exact Hw']; lia..].
Qed.

(** The state function of a cached read or write. *)
Lemma wp_cached {A} k f (g : C → S → C * S * res VfsError A) (Q : A → vfs → Prop) w : vfs_ok k w → mounted w f →
  (∀ c, fs_ok k (g c (wfs w (f_fs f))).1.2 ∧ kept (wfs w (f_fs f)) (g c (wfs w (f_fs f))).1.2) →
  (∀ a w', vfs_ok k w' → Q a w') →
  wp (vfs_ok k) (state (λ w, let '(c, s, r) := g (pages w) (wfs w (f_fs f)) in (set_pages (set_fs w (f_fs f) s) c, r))) Q w.
Proof.
  intros Hw (m & Hm & Hid & Hfs) Hg HQ. specialize (Hg (pages w)) as [Ho Hkept]. unfold wp, state.
  destruct (g (pages w) (wfs w (f_fs f))) as [[c s'] r] eqn:He. cbn in *.
  assert (Hw' : vfs_ok k (set_pages (set_fs w (f_fs f) s') c)).
  { rewrite Hfs in *. destruct w as [t d wf p]. apply (vfs_ok_step k k _ m s' d c [] Hw); [lia|done..|].
    intros key v Hv. split; [done|]. intros _. apply not_elem_of_nil. }
  destruct r; auto.
Qed.

(** A name that has been added is cached. *)
Lemma wp_add k dir n v f (Q : unit → vfs → Prop) w : vfs_ok k w → mounted w f → (ordinary n → entry (wfs w (f_fs f)) dir n (d_ino v)) →
  (∀ w', vfs_ok k w' → table w' = table w → Q () w') → wp (vfs_ok k) (on_dcache (λ c, dcache_insert c (f_mount f, dir, n) v)) Q w.
Proof.
  intros Hw (m & Hm & Hid & Hfs) He HQ. unfold wp, on_dcache. apply HQ; [|done]. apply vfs_ok_dcache; [done|].
  rewrite Hid, Hfs in *. apply agrees_insert; [apply Hw..|done|done].
Qed.

(** Names that are dropped from a filesystem are dropped from the cache. *)
Lemma vfs_ok_drop k (w : vfs) m ks s' p : vfs_ok k w → m ∈ mounts (table w) → fs_ok k s' → kept_but ks (wfs w (mfs m)) s' →
  vfs_ok k (set_pages (set_dcache (set_fs w (mfs m) s')
    (foldl (λ c '(dir, n), dcache_invalidate c (id m, dir, n)) (dcache w) ks)) p).
Proof.
  intros Hw Hm Hs Hk. eapply vfs_ok_step; [done..|]. generalize (dcache w) as c. clear. induction ks as [|[dir n] ks IH]; intros c key v Hv; cbn in Hv.
  - split; [done|]. intros _. apply not_elem_of_nil.
  - apply IH in Hv as [Hv Hks]. cbn [dcache_invalidate set_dentries dentries] in Hv. apply lookup_delete_Some in Hv as [Hne Hv]. split; [done|]. intros Hid.
    apply not_elem_of_cons. split; [|auto]. intros [= <- <-]. destruct key as [[i d] x]. cbn in *. by subst.
Qed.

(** ** The operations *)

Abbreviation ends k := (λ _ w', vfs_ok k w').

Lemma replace_contents_ok k f i data w : vfs_ok k w → mounted w f → wp (vfs_ok k) (replace_contents i (f_fs f) data) (ends k) w.
Proof.
  intros Hw Hf. unfold replace_contents. eapply wp_bind, (wp_on_fs k k k f); [done..|apply truncate_names, Hw|].
  intros _ w1 _ -> Hw1. eapply wp_bind, (wp_on_fs k k k f); [done..|apply write_names, Hw1|]. intros n w2 _ -> Hw2. by apply wp_ret.
Qed.

Lemma read_root_ok k path w : vfs_ok k w → wp (vfs_ok k) (read_root_as path) (ends k) w.
Proof.
  intros Hw. unfold read_root_as. eapply wp_bind, wp_resolve; [done|lia|]. intros f w1 _ _ _ Hw1 _. eapply wp_bind. case_match; [done|]. apply wp_ret.
  eapply wp_bind, wp_ask; [done|]. intros a _. by apply wp_ret.
Qed.

Lemma write_root_ok k path data w : vfs_ok (Datatypes.S k) w → wp (vfs_ok k) (write_root_as path data) (ends k) w.
Proof.
  intros Hw. unfold wp at 1, write_root_as. destruct (resolve_ok _ w path true Hw) as (c & -> & Hc). set (w1 := set_dcache w c) in *.
  assert (Hk : vfs_ok k w1) by (eapply vfs_ok_le; [|done]; lia).
  destruct (plain_resolve w path true) as [f|[]|] eqn:Hp; try done.
  - pose proof (found_mounted w1 f (plain_path_found _ _ _ _ _ _ Hp)) as Hf. change (wp (vfs_ok k) (_ ← reject (is_dir (f_meta f)) IsDirectory;
      _ ← check_writable (f_mount f); replace_contents (f_ino f) (f_fs f) data) (ends k) w1).
    apply wp_bind, wp_reject; [done|intros _]. apply wp_bind, wp_check; [done|]. by apply replace_contents_ok.
  - destruct (split_parent _) as [parent n]. match goal with |- match ?op w1 with _ => _ end => change (wp (vfs_ok k) op (ends k) w1) end.
    eapply wp_bind, wp_resolve; [exact Hc|lia|]. intros p w2 _ Ht Hs Hw2 Hp2%found_mounted.
    apply wp_bind, wp_check; [eapply vfs_ok_le; [|done]; lia|].
    destruct (create_names k _ (f_ino p) n 420 (vk_fs _ _ Hw2 (f_fs p))) as (Ho & Hkept & Hadd).
    eapply wp_bind, (wp_on_fs k _ k p); [done..|lia|done|]. intros ino w3 Hino -> Hw3.
    eapply wp_bind, wp_add; [done..| |].
    { intros Hn. cbn. rewrite decide_True by done. by apply Hadd. }
    intros w4 Hw4 Ht4. apply replace_contents_ok; [done|]. by eapply mounted_same.
Qed.

Lemma read_root_at_ok k path offset len w : vfs_ok k w → wp (vfs_ok k) (read_root_at_as path offset len) (ends k) w.
Proof.
  intros Hw. unfold read_root_at_as. eapply wp_bind, wp_resolve; [done|lia|]. intros f w1 _ _ _ Hw1 Hf%found_mounted. unfold wp, state.
  destruct (fs_is_page_cached (wfs w1 (f_fs f))).
  - apply (wp_cached k f (λ c s, pc_read c s (f_mount f) (f_ino f) offset len) (ends k) w1); [done..| |done].
    intros c. apply pc_read_names, Hw1.
  - by destruct (fs_read _ _ _ _).
Qed.

Lemma write_root_at_ok k path offset buf w : vfs_ok k w → wp (vfs_ok k) (write_root_at_as path offset buf) (ends k) w.
Proof.
  intros Hw. unfold write_root_at_as. eapply wp_bind, wp_resolve; [done|lia|]. intros f w1 _ _ _ Hw1 Hf%found_mounted.
  apply wp_bind, wp_reject; [done|intros _]. apply wp_bind, wp_check; [done|]. unfold wp, state.
  destruct (fs_is_page_cached (wfs w1 (f_fs f))).
  - apply (wp_cached k f (λ c s, pc_write c s (f_mount f) (f_ino f) offset buf) (ends k) w1); [done..| |done].
    intros c. apply pc_write_names, Hw1.
  - apply (wp_on_fs k k k f (λ s, fs_write s (f_ino f) offset buf) (ends k) w1); [done..|apply write_names, Hw1|done].
Qed.

Lemma truncate_root_ok k path size w : vfs_ok k w → wp (vfs_ok k) (truncate_root_as path size) (ends k) w.
Proof.
  intros Hw. unfold truncate_root_as. eapply wp_bind, wp_resolve; [done|lia|]. intros f w1 _ _ _ Hw1 Hf%found_mounted.
  apply wp_bind, wp_reject; [done|intros _]. apply wp_bind, wp_check; [done|]. apply wp_bind. unfold wp at 1, state.
  set (w2 := if fs_is_page_cached _ then _ else _). assert (vfs_ok k w2 ∧ mounted w2 f) as [Hw2 Hf2].
  { unfold w2. case_match; [|done]. split; [by apply vfs_ok_pages|done]. }
  eapply (wp_on_fs k k k f); [done..|apply truncate_names, Hw2|done].
Qed.

Lemma open_path_ok k path writable append w : vfs_ok k w → wp (vfs_ok k) (open_path path writable append) (ends k) w.
Proof.
  intros Hw. unfold open_path. eapply wp_bind, wp_resolve; [done|lia|]. intros f w1 _ _ _ Hw1 Hf%found_mounted.
  apply wp_bind, wp_reject; [done|intros _]. apply wp_bind. apply (wp_mono _ _ (λ _ w', w' = w1)).
  { destruct writable; [by apply wp_check|done]. }
  intros _ w' ->. eapply wp_bind, (wp_on_fs k k k f); [done..|apply open_names, Hw1|]. by intros _ w2 _ -> Hw2.
Qed.

Lemma list_dir_root_ok k path w : vfs_ok k w → wp (vfs_ok k) (list_dir_root_as path) (ends k) w.
Proof.
  intros Hw. unfold list_dir_root_as. eapply wp_bind, wp_resolve; [done|lia|]. intros f w1 _ _ _ Hw1 _.
  apply wp_bind, wp_reject; [done|intros _]. by eapply wp_bind, wp_ask.
Qed.

(** A call that drops names, followed by the invalidation of those names. *)
Lemma wp_drop k f ks (op : S → S * res VfsError unit) (Q : unit → vfs → Prop) w : vfs_ok k w → mounted w f →
  fs_ok k (op (wfs w (f_fs f))).1 ∧ drops ks (wfs w (f_fs f)) (op (wfs w (f_fs f))) →
  (∀ w', (∀ p, vfs_ok k (set_pages (set_dcache w' (foldl (λ c '(dir, n), dcache_invalidate c (f_mount f, dir, n)) (dcache w') ks)) p)) →
     Q () w') →
  wp (vfs_ok k) (on_fs (f_fs f) op) Q w.
Proof.
  intros Hw (m & Hm & Hid & Hfs) [Ho Hd] HQ. unfold wp, on_fs, drops in *. rewrite Hid, Hfs in *.
  destruct (op (wfs w (mfs m))) as [s' r]. cbn in *. assert (Hbad : kept (wfs w (mfs m)) s' → vfs_ok k (set_fs w (mfs m) s')).
  { intros Hk. by apply (vfs_ok_drop k w m [] s' (pages w)). }
  destruct r as [[]|e|]; [|by apply Hbad..]. apply HQ. intros p. by apply (vfs_ok_drop k w m ks s' p).
Qed.

Lemma vfs_ok_set_pages_inv k (w : vfs) c : (∀ p, vfs_ok k (set_pages (set_dcache w c) p)) → vfs_ok k (set_dcache w c).
Proof. intros H. destruct w as [t d wf p]. exact (H p). Qed.

Lemma remove_root_ok k path w : vfs_ok k w → wp (vfs_ok k) (remove_root_as path) (ends k) w.
Proof.
  intros Hw. unfold remove_root_as. apply wp_bind, wp_reject; [done|intros _]. apply wp_bind. unfold wp at 1, state. case_bool_decide; [done|].
  destruct (split_parent _) as [parent n]. eapply wp_bind, wp_resolve; [done|lia|]. intros p w1 _ _ _ Hw1 Hp%found_mounted.
  apply wp_bind, wp_check; [done|]. apply wp_bind, wp_ask; [done|]. intros child _. apply wp_bind, wp_ask; [done|]. intros meta _.
  apply wp_bind. case_match.
  - eapply wp_drop; [done..|by apply rmdir_names, Hw1|]. intros w2 Hw2. unfold wp, on_dcache. by apply vfs_ok_set_pages_inv.
  - eapply wp_bind, wp_drop; [done..|by apply unlink_names, Hw1|]. intros w2 Hw2. unfold wp, state, on_dcache. apply Hw2.
Qed.

(** Where the new name of a rename goes: into a directory. *)
Definition into_directory (w : vfs) (new_path : str) : Prop := ∀ f,
  plain_resolve w (split_parent (normalize_mount_target new_path)).1 true = Ok f → is_dir (f_meta f) = true.

Lemma plain_path_same (w w' : vfs) follow : table w' = table w → wfs w' = wfs w → ∀ hops remaining dir,
  plain_path hops w' follow dir remaining = plain_path hops w follow dir remaining.
Proof.
  intros Ht Hs. assert (Hstep : ∀ dir comp last, plain_step w' follow dir comp last = plain_step w follow dir comp last)
    by (intros; unfold plain_step; by rewrite Ht, Hs).
  induction hops as [|hops IHh]; induction remaining as [|comp rest IHr]; intros dir; cbn [plain_path];
    try (unfold plain_end; by rewrite Ht, Hs); rewrite Hstep; destruct (plain_step _ _ _ _ _); auto.
  rewrite Hs. destruct (fs_readlink _ _); cbn; auto.
Qed.

Lemma rename_root_ok k old_path new_path w : vfs_ok k w → into_directory w new_path → wp (vfs_ok k) (rename_root_as old_path new_path) (ends k) w.
Proof.
  intros Hw Hdir. unfold rename_root_as, into_directory in *. destruct (split_parent (normalize_mount_target old_path)) as [old_parent old].
  destruct (split_parent (normalize_mount_target new_path)) as [new_parent new].
  eapply wp_bind, wp_resolve; [done|lia|]. intros p w1 _ Ht1 Hs1 Hw1 Hp%found_mounted.
  eapply wp_bind, wp_resolve; [done|lia|]. intros q w2 Hq Ht2 Hs2 Hw2 (m & Hm & Hid & Hfs & Hmeta).
  apply wp_bind, wp_reject; [done|]. intros Hsame%negb_false_iff%Z.eqb_eq. apply wp_bind, wp_check; [done|].
  apply (mounted_same w1 w2) in Hp; [|done]. eapply wp_bind, (wp_drop k p [(f_ino p, old); (f_ino q, new)]); [done..| |].
  { destruct (rename_names k (wfs w2 (f_fs p)) (f_ino p) old (f_ino q) new (f_meta q)) as [Ho Hd]; [apply Hw2|]. split; [done|].
    apply Hd; [by rewrite Hsame, Hfs|]. apply Hdir. unfold plain_resolve in *. by rewrite <- (plain_path_same w w1). }
  intros w3 Hw3. assert (f_mount q = f_mount p) as ->.
  { destruct Hp as (m' & Hm' & Hid' & Hfs'). assert (m = m') as ->; [|congruence]. eapply (handle_inj w2); [apply Hw2|done..|congruence]. }
  by apply vfs_ok_set_pages_inv.
Qed.

Lemma symlink_root_ok k linkpath target w : vfs_ok (Datatypes.S k) w → wp (vfs_ok k) (symlink_root linkpath target) (ends k) w.
Proof.
  intros Hw. assert (Hle : ∀ w, vfs_ok (Datatypes.S k) w → vfs_ok k w) by (intros ?; apply vfs_ok_le; lia).
  unfold symlink_root. destruct (split_parent _) as [parent n]. apply wp_bind, wp_reject; [auto|intros _].
  eapply wp_bind, wp_resolve; [done|lia|]. intros p w1 _ _ _ Hw1 Hp%found_mounted.
  apply wp_bind, wp_reject; [auto|intros _]. apply wp_bind, wp_check; [auto|].
  destruct (symlink_names k _ (f_ino p) n target (vk_fs _ _ Hw1 (f_fs p))) as (Ho & Hkept & Hadd).
  eapply wp_bind, (wp_on_fs k _ k p); [done..|lia|done|]. intros ino w2 Hino -> Hw2.
  eapply wp_add; [done..| |done]. intros Hn. cbn. rewrite decide_True by done. by apply Hadd.
Qed.

Lemma readlink_root_ok k path w : vfs_ok k w → wp (vfs_ok k) (readlink_root path) (ends k) w.
Proof.
  intros Hw. unfold readlink_root. eapply wp_bind, wp_resolve; [done|lia|]. intros f w1 _ _ _ Hw1 _.
  apply wp_bind, wp_reject; [done|intros _]. by apply wp_ask.
Qed.

Lemma file_info_root_ok k path w : vfs_ok k w →
  wp (vfs_ok k) (file_info_root_as path) (ends k) w ∧ wp (vfs_ok k) (file_info_root_nofollow_as path) (ends k) w.
Proof.
  intros Hw. split; unfold file_info_root_as, file_info_root_nofollow_as; (eapply wp_bind, wp_resolve; [done|lia|]);
    intros f w1 _ _ _ Hw1 _; by apply wp_ret.
Qed.

Lemma create_dir_root_ok k path w : vfs_ok (length (components path) + k) w → wp (vfs_ok k) (create_dir_root_as path) (ends k) w.
Proof.
  intros Hw. assert (Hk : vfs_ok k w) by (eapply vfs_ok_le; [|done]; lia). unfold wp, create_dir_root_as. case_bool_decide; [done|].
  destruct (table_resolve _ _) as [[m rel]|e|] eqn:Hr; [|done..]. destruct (negb _); [done|]. destruct (bool_decide (rel = [])); [done|].
  destruct (resolve_components _ _ _ _ Hr) as [l Hl].
  apply (wp_on_fs k (length (components path) + k) k {| f_mount := id m; f_fs := mfs m; f_ino := 0; f_meta := Build_InodeMetadata 0 0 0 0 0 0 0 0; f_path := [] |}
    (λ s, fs_create_dir_path s rel) (ends k) w); [exact Hw|exists m; split; [by eapply resolve_in|done]|lia| |done].
  apply create_dir_names. eapply fs_ok_le; [|apply Hw]. rewrite Hl, length_app. lia.
Qed.

(** ** Mounting and unmounting *)

Lemma agrees_table (w : vfs) t c : agrees w (dcache w) → (∀ m, m ∈ mounts t → m ∈ mounts (table w) ∨ id m = next_id (table w)) →
  next_id (table w) ≤ next_id t → dentries c ⊆ dentries (dcache w) → agrees (set_table w t c) c.
Proof.
  intros Ha Hm Ht Hc. split; cbn.
  - intros m dir n v [Hin|Hnew]%Hm Hn Hv; eapply lookup_weaken in Hv; try exact Hc; [by eapply ag_entry|].
    apply ag_old with (w := w) in Hv; [|done]. cbn in Hv. lia.
  - intros key v Hv. eapply lookup_weaken in Hv; [|exact Hc]. apply ag_old with (w := w) in Hv; [lia|done].
Qed.

Lemma invalidate_fs_sub c i : dentries (dcache_invalidate_fs c i) ⊆ dentries c.
Proof. apply map_filter_subseteq. Qed.

(** The mounts of [l1 ++ l2] stay, and [m] is new. *)
Lemma vfs_ok_mount k (w : vfs) t c m l : vfs_ok (Datatypes.S k) w → l `sublist_of` mounts (table w) → mounts t ≡ₚ m :: l → id m = next_id (table w) →
  mfs m ∉ mfs <$> mounts (table w) → next_id t = u64 (next_id (table w) + 1) → dentries c ⊆ dentries (dcache w) →
  vfs_ok k (set_table w t c).
Proof.
  intros [Ha [Hi Ho] Hh Hr Hf] Hl Ht Hid Hm Hn Hc. assert (Hnext : next_id t = next_id (table w) + 1).
  { rewrite Hn. apply wrap_small. unfold is_u. lia. }
  assert (Hin : ∀ x, x ∈ mounts t → x = m ∨ x ∈ mounts (table w)).
  { intros x. rewrite Ht, elem_of_cons. intros [|Hx]; [by left|right]. by eapply elem_of_sublist. }
  split; cbn; [| | |lia|].
  - apply agrees_table; [done| |lia|done]. intros x [->|]%Hin; auto.
  - split; cbn.
    + rewrite Ht. cbn. constructor; [|eapply sublist_NoDup; [exact Hi|by apply fmap_sublist]].
      intros (x & He & Hx)%list_elem_of_fmap. eapply elem_of_sublist, Ho in Hx; [|done]. lia.
    + intros x [->|Hx%Ho]%Hin; lia.
  - rewrite Ht. cbn. constructor; [|eapply sublist_NoDup; [exact Hh|by apply fmap_sublist]].
    intros Hx. apply Hm. eapply elem_of_sublist; [exact Hx|by apply fmap_sublist].
  - intros h. by apply fs_ok_less.
Qed.

Lemma mount_filesystem_ok k target fs flags w : vfs_ok (Datatypes.S k) w → fs ∉ mfs <$> mounts (table w) →
  wp (vfs_ok k) (mount_filesystem target fs flags) (ends k) w.
Proof.
  intros Hw Hfs. assert (Hk : vfs_ok k w) by (eapply vfs_ok_le; [|done]; lia). unfold wp, mount_filesystem, table_mount.
  set (p := normalize_mount_target target). set (m := {| id := _; prefix := p; mfs := fs; mflags := flags |}).
  pose proof (find_pos_spec (mounts (table w)) p) as Hf. destruct (find_pos _ p) as [[pos old]|].
  - destruct Hf as [Hl _]. destruct (negb _ || _); [|by destruct w]. 
    apply (vfs_ok_mount k w _ _ m (delete pos (mounts (table w)))); try done; [apply sublist_delete| |apply invalidate_fs_sub].
    cbn. rewrite insert_take_drop by (by eapply lookup_lt_Some). rewrite delete_take_drop. by rewrite Permutation_middle.
  - apply (vfs_ok_mount k w _ _ m (mounts (table w))); try done. cbn. rewrite sort_desc_perm. by rewrite Permutation_app_comm.
Qed.

Lemma unmount_filesystem_ok k target w : vfs_ok k w → wp (vfs_ok k) (unmount_filesystem target) (ends k) w.
Proof.
  intros Hw. unfold wp, unmount_filesystem, table_umount. case_bool_decide; [by destruct w|].
  pose proof (find_pos_spec (mounts (table w)) (normalize_mount_target target)) as Hf. destruct (find_pos _ _) as [[pos m]|]; [|by destruct w].
  destruct Hw as [Ha [Hi Ho] Hh Hr Hs]. assert (Hsub : delete pos (mounts (table w)) `sublist_of` mounts (table w)) by apply sublist_delete.
  split; cbn; [|split; cbn| |done..].
  - apply agrees_table; [done| |cbn; lia|apply invalidate_fs_sub]. intros x Hx. left. by eapply elem_of_sublist.
  - rewrite list_fmap_delete. eapply sublist_NoDup; [exact Hi|apply sublist_delete].
  - intros x Hx. apply Ho. by eapply elem_of_sublist.
  - rewrite list_fmap_delete. eapply sublist_NoDup; [exact Hh|apply sublist_delete].
Qed.

(** ** Sequences of operations *)

Inductive path_op :=
| ReadRoot (path : str) | WriteRoot (path data : list Z) | ReadAt (path : str) (offset len : Z) | WriteAt (path : str) (offset : Z) (buf : list Z)
| TruncateAt (path : str) (size : Z) | OpenAt (path : str) (writable append : bool) | ListDir (path : str) | RemoveAt (path : str)
| RenameAt (old_path new_path : str) | SymlinkAt (linkpath target : str) | ReadlinkAt (path : str) | Stat (path : str) | Lstat (path : str)
| MkdirAt (path : str) | MountAt (target : str) (fs flags : Z) | Unmount (target : str).

Definition run_path (w : vfs) (o : path_op) : vfs :=
  match o with
  | ReadRoot path => (read_root_as path w).1
  | WriteRoot path data => (write_root_as path data w).1
  | ReadAt path offset len => (read_root_at_as path offset len w).1
  | WriteAt path offset buf => (write_root_at_as path offset buf w).1
  | TruncateAt path size => (truncate_root_as path size w).1
  | OpenAt path writable append => (open_path path writable append w).1
  | ListDir path => (list_dir_root_as path w).1
  | RemoveAt path => (remove_root_as path w).1
  | RenameAt old_path new_path => (rename_root_as old_path new_path w).1
  | SymlinkAt linkpath target => (symlink_root linkpath target w).1
  | ReadlinkAt path => (readlink_root path w).1
  | Stat path => (file_info_root_as path w).1
  | Lstat path => (file_info_root_nofollow_as path w).1
  | MkdirAt path => (create_dir_root_as path w).1
  | MountAt target fs flags => (mount_filesystem target fs flags w).1
  | Unmount target => (unmount_filesystem target w).1
  end.

(** New inodes and mount ids an operation may take. *)
Definition cost (o : path_op) : nat :=
  match o with WriteRoot _ _ | SymlinkAt _ _ | MountAt _ _ _ => 1 | MkdirAt path => length (components path) | _ => 0 end.

(** A rename goes into a directory; a filesystem is mounted once. *)
Definition sensible (w : vfs) (o : path_op) : Prop :=
  match o with
  | RenameAt _ new_path => into_directory w new_path
  | MountAt _ fs _ => fs ∉ mfs <$> mounts (table w)
  | _ => True
  end.

Fixpoint sensible_run (w : vfs) (ops : list path_op) : Prop :=
  match ops with [] => True | o :: ops' => sensible w o ∧ sensible_run (run_path w o) ops' end.

Lemma wp_ends {A} k (op : O A) w : wp (vfs_ok k) op (ends k) w → vfs_ok k (op w).1.
Proof. unfold wp. by destruct (op w) as [w' []]. Qed.

Lemma run_path_ok k w o : vfs_ok (cost o + k) w → sensible w o → vfs_ok k (run_path w o).
Proof.
  destruct o; intros Hw Hs; cbn [run_path cost Nat.add] in *; apply wp_ends.
  - by apply read_root_ok.
  - by apply write_root_ok.
  - by apply read_root_at_ok.
  - by apply write_root_at_ok.
  - by apply truncate_root_ok.
  - by apply open_path_ok.
  - by apply list_dir_root_ok.
  - by apply remove_root_ok.
  - by apply rename_root_ok.
  - by apply symlink_root_ok.
  - by apply readlink_root_ok.
  - exact (proj1 (file_info_root_ok k path w Hw)).
  - exact (proj2 (file_info_root_ok k path w Hw)).
  - by apply create_dir_root_ok.
  - by apply mount_filesystem_ok.
  - by apply unmount_filesystem_ok.
Qed.

(** C6: The dentry cache is invisible as long as renames go into directories
    and no filesystem is mounted twice.  Take a consistent state (the cache
    agrees with the filesystems, mount identifiers and mounted filesystems are
    distinct, and there is room for the inodes and mounts the run may take)
    and any sequence of the path operations of the kernel in which
    ([sensible_run]) the parent of every rename's new path resolves to a
    directory and every mount is of a filesystem not mounted at that moment.
    Then every path resolves through the cache exactly as it does by asking
    the filesystems for each component, and the state stays consistent.  Both
    conditions are about what a caller may do: a rename into something else
    fails and leaves a stale name ([failed_rename_stale_name]), and a
    filesystem mounted at two places has its names cached under each. *)
Theorem dcache_invisible ops : ∀ k w path follow, vfs_ok (sum_list (cost <$> ops) + k) w → sensible_run w ops →
  let w' := foldl run_path w ops in
  vfs_ok k w' ∧ (resolve_path_vfs w' path follow).2 = plain_resolve w' path follow.
Proof.
  intros k w path follow. revert w. induction ops as [|o ops IH]; intros w Hw Hs; cbn [foldl sensible_run] in *.
  - split; [done|]. destruct (resolve_ok k w path follow Hw) as (c & Hr & _). unfold resolve in Hr.
    destruct (resolve_path_vfs w path follow) as [c' r]. exact (f_equal snd Hr).
  - change (sum_list (cost <$> o :: ops)) with (cost o + sum_list (cost <$> ops))%nat in Hw. destruct Hs as [Ho Hs]. apply IH; [|done]. apply run_path_ok; [|done]. eapply vfs_ok_le; [|exact Hw]; lia.
Qed.

(** ** Read-only mounts *)

Lemma walk_step_found (w : vfs) follow c c' dir comp last f : walk_step w follow c dir comp last = (c', Return (Ok f)) → mounted w f.
Proof.
  unfold walk_step. case_bool_decide; [done|]. destruct (find_mount _ _) as [m|]; [by destruct (fs_read_inode _ _)|].
  destruct (existsb _ _); [done|]. destruct (table_resolve _ _) as [[m rel]|e|] eqn:Hr; [|done..].
  destruct (lookup_in_fs _ _ _ _) as [c1 [ino|e|]]; cbn; [|done..]. destruct (fs_read_inode _ ino) as [meta|e|]; cbn; [|done..].
  unfold arrive. apply resolve_in in Hr. repeat case_match; try done; intros [= _ <-]; by exists m.
Qed.

Lemma walk_end_found (w : vfs) c c' dir f : walk_end w c dir = (c', Ok f) → mounted w f.
Proof.
  unfold walk_end. destruct (table_resolve _ _) as [[m rel]|e|] eqn:Hr; [|done..]. apply resolve_in in Hr.
  destruct (if bool_decide (rel = []) then _ else _) as [c1 [ino|e|]]; cbn; [|done..].
  destruct (fs_read_inode _ ino) as [meta|e|]; cbn; [|done..]. intros [= _ <-]. by exists m.
Qed.

Lemma walk_path_found (w : vfs) follow c' f : ∀ hops remaining c dir, walk_path hops w follow c dir remaining = (c', Ok f) → mounted w f.
Proof.
  induction hops as [|hops IHh]; induction remaining as [|comp rest IHr]; intros c dir; cbn [walk_path]; try apply walk_end_found.
  all: destruct (walk_step _ _ _ _ _ _) as [c1 [r|dir'|m ino]] eqn:Hs; [intros [= -> ->]; by eapply walk_step_found|apply IHr|].
  { done. }
  destruct (fs_readlink _ ino) as [target|e|]; [apply IHh|done..].
Qed.

Section read_only.
Context (h : Z) (w0 : vfs) (Hids : NoDup (id <$> mounts (table w0)))
  (Hro : ∀ m, m ∈ mounts (table w0) → mfs m = h → Z.land (mflags m) MS_RDONLY ≠ 0).

Definition untouched (w : vfs) : Prop := table w = table w0 ∧ wfs w h = wfs w0 h.
Abbreviation still := (λ _ w, untouched w).

Lemma ro_resolve path follow (Q : found → vfs → Prop) w : untouched w → (∀ f w', untouched w' → mounted w' f → Q f w') →
  wp untouched (resolve path follow) Q w.
Proof.
  intros Hw HQ. unfold wp, resolve. destruct (resolve_path_vfs w path follow) as [c r] eqn:Hr. destruct r as [f|e|]; [|done..].
  apply HQ; [done|]. exact (walk_path_found _ _ _ _ _ _ _ _ Hr).
Qed.

Lemma ro_check f (Q : unit → vfs → Prop) w : untouched w → mounted w f → (f_fs f ≠ h → Q () w) → wp untouched (check_writable (f_mount f)) Q w.
Proof.
  intros Hw (m & Hm & Hid & Hfs) HQ. pose proof (proj1 Hw) as Ht. rewrite Ht in Hm. unfold wp, check_writable. rewrite Ht.
  destruct (list_find _ _) as [[i m']|] eqn:Hf.
  - apply list_find_Some in Hf as (Hi & He & _). assert (m' = m) as ->.
    { apply list_elem_of_lookup in Hm as [j Hj]. assert (i = j) as ->; [|congruence].
      eapply NoDup_lookup; [exact Hids| |]; rewrite list_lookup_fmap; [by rewrite Hi|rewrite Hj; cbn; congruence]. }
    destruct (Z.eqb_spec (Z.land (mflags m) MS_RDONLY) 0) as [He0|]; cbn; [|done]. apply HQ. intros Hh. apply (Hro m); [done|congruence|done].
  - apply list_find_None in Hf. rewrite Forall_forall in Hf. exfalso. eapply (Hf m); [done|]. congruence.
Qed.

Lemma ro_on_fs {A} h' (op : S → S * res VfsError A) (Q : A → vfs → Prop) w : untouched w → h' ≠ h → (∀ a w', untouched w' → Q a w') →
  wp untouched (on_fs h' op) Q w.
Proof.
  intros [Ht Hs] Hne HQ. unfold wp, on_fs. destruct (op (wfs w h')) as [s' r].
  assert (untouched (set_fs w h' s')) by (split; cbn; [done|]; by rewrite decide_False). destruct r; auto.
Qed.

Lemma ro_replace i h' data w : untouched w → h' ≠ h → wp untouched (replace_contents i h' data) still w.
Proof. intros Hw Hne. apply wp_bind, ro_on_fs; [done..|]. intros _ w1 Hw1. by apply wp_bind, ro_on_fs. Qed.

Lemma ro_write path data : wp untouched (write_root_as path data) still w0.
Proof.
  pose proof (ro_resolve path true (λ f w', untouched w' ∧ mounted w' f) w0 ltac:(by split) ltac:(done)) as Hr. unfold wp at 1 in Hr.
  unfold wp at 1, write_root_as. destruct (resolve path true w0) as [w1 [f|[]|]]; try done.
  - destruct Hr as [Hw Hf]. match goal with |- match ?op w1 with _ => _ end => change (wp untouched op still w1) end.
    apply wp_bind, wp_reject; [done|intros _]. apply wp_bind, ro_check; [done..|]. intros Hne. by apply ro_replace.
  - destruct (split_parent _) as [parent n]. match goal with |- match ?op w1 with _ => _ end => change (wp untouched op still w1) end.
    apply wp_bind, ro_resolve; [done|]. intros p w2 Hw2 Hp. apply wp_bind, ro_check; [done..|]. intros Hne.
    apply wp_bind, ro_on_fs; [done..|]. intros ino w3 Hw3. apply wp_bind. by apply ro_replace.
Qed.

Lemma ro_write_at path offset buf : wp untouched (write_root_at_as path offset buf) still w0.
Proof.
  apply wp_bind, ro_resolve; [done|]. intros f w1 Hw1 Hf. apply wp_bind, wp_reject; [done|intros _].
  apply wp_bind, ro_check; [done..|]. intros Hne. unfold wp, state. destruct (fs_is_page_cached _).
  - destruct (pc_write _ _ _ _ _ _) as [[c s'] r]. assert (untouched (set_pages (set_fs w1 (f_fs f) s') c)); [|by destruct r].
    split; cbn; [apply Hw1|]. rewrite decide_False by done. apply Hw1.
  - by apply (ro_on_fs (f_fs f) (λ s, fs_write s (f_ino f) offset buf) still).
Qed.

Lemma ro_truncate path size : wp untouched (truncate_root_as path size) still w0.
Proof.
  apply wp_bind, ro_resolve; [done|]. intros f w1 Hw1 Hf. apply wp_bind, wp_reject; [done|intros _].
  apply wp_bind, ro_check; [done..|]. intros Hne. apply wp_bind. unfold wp at 1, state.
  apply ro_on_fs; [|done..]. by destruct (fs_is_page_cached _).
Qed.

Lemma ro_remove path : wp untouched (remove_root_as path) still w0.
Proof.
  apply wp_bind, wp_reject; [done|intros _]. apply wp_bind. unfold wp at 1, state. case_bool_decide; [done|].
  destruct (split_parent _) as [parent n]. apply wp_bind, ro_resolve; [done|]. intros p w1 Hw1 Hp.
  apply wp_bind, ro_check; [done..|]. intros Hne. apply wp_bind, wp_ask; [done|]. intros child _. apply wp_bind, wp_ask; [done|]. intros meta _.
  apply wp_bind. destruct (is_dir meta); [by apply ro_on_fs|]. by apply wp_bind, ro_on_fs.
Qed.

Lemma ro_rename old_path new_path : wp untouched (rename_root_as old_path new_path) still w0.
Proof.
  unfold rename_root_as. destruct (split_parent _) as [old_parent old]. destruct (split_parent _) as [new_parent new].
  apply wp_bind, ro_resolve; [done|]. intros p w1 Hw1 Hp. apply wp_bind, ro_resolve; [done|]. intros q w2 Hw2 Hq.
  apply wp_bind, wp_reject; [done|]. intros Hsame%negb_false_iff%Z.eqb_eq. apply wp_bind, ro_check; [done..|]. rewrite <- Hsame. intros Hne.
  by apply wp_bind, ro_on_fs.
Qed.

Lemma ro_symlink linkpath target : wp untouched (symlink_root linkpath target) still w0.
Proof.
  unfold symlink_root. destruct (split_parent _) as [parent n]. apply wp_bind, wp_reject; [done|intros _].
  apply wp_bind, ro_resolve; [done|]. intros p w1 Hw1 Hp. apply wp_bind, wp_reject; [done|intros _].
  apply wp_bind, ro_check; [done..|]. intros Hne. by apply wp_bind, ro_on_fs.
Qed.

Lemma ro_mkdir path : wp untouched (create_dir_root_as path) still w0.
Proof.
  unfold wp, create_dir_root_as. case_bool_decide; [done|]. destruct (table_resolve _ _) as [[m rel]|e|] eqn:Hr; [|done..].
  destruct (Z.eqb_spec (Z.land (mflags m) MS_RDONLY) 0) as [He0|]; cbn [negb]; [|done]. destruct (bool_decide (rel = [])); [done|].
  apply (ro_on_fs (mfs m) (λ s, fs_create_dir_path s rel) still); [done| |done]. intros Hh. by apply (Hro m); [eapply resolve_in|..].
Qed.

Lemma ro_query {A} path follow (g : found → O A) : (∀ f w, (g f w).1 = w) → wp untouched (f ← resolve path follow; g f) still w0.
Proof.
  intros Hg. apply wp_bind, ro_resolve; [done|]. intros f w1 Hw1 _. unfold wp. specialize (Hg f w1).
  destruct (g f w1) as [w' r]. cbn in Hg. subst w'. by destruct r.
Qed.
End read_only.

(** An operation other than an open, which counts its descriptors in the
    inode, and a read through the page cache, which may write back old pages. *)
Definition quiet (o : path_op) : Prop := match o with OpenAt _ _ _ | ReadAt _ _ _ => False | _ => True end.

Lemma wp_still {A} h w (op : O A) : wp (untouched h w) op (λ _ w', untouched h w w') w → wfs (op w).1 h = wfs w h.
Proof. unfold wp. by destruct (op w) as [w' [a|e|]]; intros [_ ?]. Qed.

(** C28: A filesystem mounted read-only is not changed.  If every mount of it
    has the read-only flag, none of writing, truncating, creating, removing,
    renaming, linking, making directories, mounting, unmounting and the
    queries changes its state, whatever the paths and the links on the way. *)
Theorem readonly_unchanged h w o : NoDup (id <$> mounts (table w)) →
  (∀ m, m ∈ mounts (table w) → mfs m = h → Z.land (mflags m) MS_RDONLY ≠ 0) → quiet o →
  wfs (run_path w o) h = wfs w h.
Proof.
  intros Hi Hro Hq. destruct o; try done; cbn [run_path].
  - apply wp_still, ro_query. intros f w1. unfold mbind, M_bind, ask_fs. destruct (ISIZE_MAX <? _); [done|]. cbn. by destruct (fs_read _ _ _ _).
  - by apply wp_still, ro_write.
  - by apply wp_still, ro_write_at.
  - by apply wp_still, ro_truncate.
  - apply wp_still, ro_query. intros f w1. unfold reject, mbind, M_bind, ask_fs, state. destruct (negb _); [done|]. cbn. by destruct (fs_read_dir _ _).
  - by apply wp_still, ro_remove.
  - by apply wp_still, ro_rename.
  - by apply wp_still, ro_symlink.
  - apply wp_still, ro_query. intros f w1. unfold reject, mbind, M_bind, ask_fs. by destruct (negb _).
  - by apply wp_still, ro_query.
  - by apply wp_still, ro_query.
  - by apply wp_still, ro_mkdir.
  - unfold mount_filesystem. by destruct (table_mount _ _ _ _ _) as [[t c] r].
  - unfold unmount_filesystem. by destruct (table_umount _ _ _) as [[t c] r].
Qed.
End ops.
