(* ===== verification/TmpfsNames.v ===== *)
(** * The in-memory filesystem under the VFS

    [tmpfs.rs] as an instance of the [Filesystem] trait, and that it keeps
    the promises of [NamedFs]: an operation changes only the names it is
    called for.  With it the theorems on paths hold for a machine whose
    mounts are in-memory filesystems.  Each mounted instance is modelled with
    its own allocator. *)

From stdpp Require Import gmap sorting strings.
From S2P Require Import Prelude Words BTree Abi Vfs Buddy BuddyLinks BuddyBlocks BuddySpec Frames Pages.
From S2P Require Import Paths Storage VantaFs VantaFsDisk Mounts MountsSpec DentrySpec DentryOps Tmpfs TmpfsSpec.

Section instance.
Context {A : Type} `{FA : !FrameAllocator A} (hhdm : option Z).
Abbreviation world := (@Tmpfs.world A).

Definition tmpfs_filesystem : Filesystem world := {|
  fs_root_inode := λ _, root_inode;
  fs_lookup := λ w, lookup (fs w);
  fs_read_inode := λ w, read_inode (fs w);
  fs_create := create; fs_mkdir := mkdir; fs_unlink := unlink; fs_rmdir := rmdir; fs_symlink := symlink;
  fs_readlink := λ w, readlink (fs w);
  fs_rename := rename;
  fs_read := read hhdm; fs_write := write hhdm; fs_truncate := truncate;
  fs_read_dir := λ w, read_dir (fs w);
  fs_is_page_cached := λ _, false;
  fs_open_inode := open_inode;
  fs_create_dir_path := create_dir_path (λ _, root_inode) (λ w, lookup (fs w)) mkdir;
  fs_file_info_path := file_info_path (λ _, root_inode) (λ w, lookup (fs w)) (λ w, read_inode (fs w)) |}.
#[local] Existing Instance tmpfs_filesystem.

(** ** Names in the tree *)

Definition dir_of (n : TmpNode) : option (gmap name Z) := match kind n with Directory e => Some e | _ => None end.
Definition ents (t : gmap Z TmpNode) (d : Z) : option (gmap name Z) := t !! d ≫= dir_of.
Definition bound (t : gmap Z TmpNode) (d : Z) (n : name) (i : Z) : Prop := ∃ e, ents t d = Some e ∧ e !! n = Some i.

Lemma ents_insert t i node d : ents (<[i := node]> t) d = if decide (i = d) then dir_of node else ents t d.
Proof. unfold ents. case_decide; [subst; by rewrite lookup_insert_eq|by rewrite lookup_insert_ne]. Qed.
Lemma ents_delete t i d : ents (delete i t) d = if decide (i = d) then None else ents t d.
Proof. unfold ents. case_decide; [subst; by rewrite lookup_delete_eq|by rewrite lookup_delete_ne]. Qed.

Lemma entry_bound (w : world) d n i : ordinary n → entry w d n i ↔ bound (nodes (fs w)) d n i ∧ is_Some (nodes (fs w) !! i).
Proof.
  intros [(Hne & Hdot & _) Hdd]. unfold entry, bound, ents. cbn. unfold lookup, read_inode, get.
  rewrite bool_decide_false by (intros [?|?]; done). rewrite (bool_decide_false (n = DOTDOT)) by done.
  destruct (nodes (fs w) !! d) as [node|] eqn:Hd; cbn; [|naive_solver]. unfold dir_entries, dir_of.
  destruct (kind node) as [| e |]; cbn; [naive_solver| |naive_solver].
  destruct (e !! n) as [x|] eqn:Hx; cbn; [|naive_solver].
  split.
  - intros [[= ->] [m Hm]]. split; [eauto|]. destruct (nodes (fs w) !! i); [eauto|done].
  - intros [(e' & [= <-] & Hi) [node' Hn]]. rewrite Hx in Hi. injection Hi as ->. split; [done|]. rewrite Hn. cbn. eauto.
Qed.

Record names_ok (k : nat) (f : TmpFs) : Prop := {
  nk_room : 0 ≤ next_ino f ∧ next_ino f + Z.of_nat k < 2 ^ 64;
  nk_nodes i : is_Some (nodes f !! i) → i < next_ino f;
  nk_bound d n i : bound (nodes f) d n i → i < next_ino f;
  nk_once d n d' n' i : bound (nodes f) d n i → bound (nodes f) d' n' i → d = d' ∧ n = n';
  nk_mode i node : nodes f !! i = Some node → Z.land (mode node) S_IFMT = S_IFDIR → is_Some (dir_of node) }.

(** A tree with no more names and nodes. *)
Lemma names_ok_shrink k f t : names_ok k f → (∀ i node, t !! i = Some node → ∃ old, nodes f !! i = Some old ∧
    (Z.land (mode node) S_IFMT = S_IFDIR → Z.land (mode old) S_IFMT = S_IFDIR) ∧ (is_Some (dir_of old) → is_Some (dir_of node))) →
  (∀ d n i, bound t d n i → bound (nodes f) d n i) → names_ok k {| next_ino := next_ino f; nodes := t |}.
Proof.
  intros [Hr Hn Hb Ho Hm] Ht Hbt. split; cbn; [done|..].
  - intros i [node Hi]. destruct (Ht i node Hi) as (old & ? & _). eauto.
  - eauto.
  - eauto.
  - intros i node Hi Hmode. destruct (Ht i node Hi) as (old & Hold & H1 & H2). eauto.
Qed.

(** A node changed in everything but its mode and its names. *)
Lemma update_names k (w w' : world) i node node' : names_ok k (fs w) → nodes (fs w) !! i = Some node →
  fs w' = {| next_ino := next_ino (fs w); nodes := <[i := node']> (nodes (fs w)) |} → mode node' = mode node → dir_of node' = dir_of node →
  names_ok k (fs w') ∧ kept w w'.
Proof.
  intros Hw Hi He Hm Hd. assert (Hents : ∀ d, ents (<[i := node']> (nodes (fs w))) d = ents (nodes (fs w)) d).
  { intros d. rewrite ents_insert. case_decide; [|done]. subst. unfold ents. by rewrite Hi. }
  split.
  - rewrite He. apply names_ok_shrink; [done| |].
    + intros j x [[-> <-]|[_ Hx]]%lookup_insert_Some; [|eauto]. exists node. by rewrite Hm, Hd.
    + intros d n x. unfold bound. by rewrite Hents.
  - intros d n x Hn _. rewrite !entry_bound by done. unfold bound. rewrite He. cbn. rewrite Hents. intros [Hb Hs]. split; [done|].
    apply lookup_insert_is_Some'. auto.
Qed.

Lemma same_names k (w w' : world) : names_ok k (fs w) → fs w' = fs w → names_ok k (fs w') ∧ kept w w'.
Proof.
  intros Hw He. rewrite He. split; [done|]. intros d n x Hn _. rewrite !entry_bound by done. by rewrite He.
Qed.

(** ** Adding a name *)

Lemma add_name_names k (w : world) parent nm mk : names_ok (Datatypes.S k) (fs w) →
  (∀ i, dir_of (mk i) = None ∨ dir_of (mk i) = Some ∅) →
  (∀ i, Z.land (mode (mk i)) S_IFMT = S_IFDIR → is_Some (dir_of (mk i))) →
  names_ok k (fs (add_name w parent nm mk).1) ∧ adds parent nm w (add_name w parent nm mk).
Proof.
  intros Hw Hmk Hmode. assert (Hk : names_ok k (fs w)) by (destruct Hw as [?????]; split; [lia|done..]).
  assert (Hsame : ∀ e : VfsError, names_ok k (fs w) ∧ adds parent nm w (w, Err e : res VfsError Z)) by (intros e; split; [done|]; split; [apply kept_refl|done]).
  unfold add_name, get. destruct (nodes (fs w) !! parent) as [node|] eqn:Hp; cbn; [|apply Hsame].
  destruct (kind node) as [|e|] eqn:Hkind; [apply Hsame| |apply Hsame]. case_bool_decide as Hnm; [apply Hsame|].
  destruct Hw as [Hr Hn Hb Ho Hm]. set (i := next_ino (fs w)) in *. set (t := nodes (fs w)) in *.
  set (t' := <[i := mk i]> (<[parent := set_kind node (Directory (<[nm := i]> e))]> t)).
  assert (Hnew : t !! i = None) by (apply eq_None_not_Some; intros ?%Hn; lia).
  assert (Hpi : parent ≠ i) by congruence.
  assert (Hpe : ents t parent = Some e) by (unfold ents; rewrite Hp; cbn; unfold dir_of; by rewrite Hkind).
  assert (Hents : ∀ d, ents t' d = if decide (d = i) then dir_of (mk i) else if decide (d = parent) then Some (<[nm := i]> e) else ents t d).
  { intros d. unfold t'. rewrite !ents_insert. repeat case_decide; subst; try done; congruence. }
  set (w' := insert_node _ _ _). assert (Hfs : fs w' = {| next_ino := u64 (i + 1); nodes := t' |}).
  { unfold w', insert_node. cbn. rewrite lookup_insert_ne, Hnew by done. done. }
  assert (Hu : u64 (i + 1) = i + 1) by (apply wrap_small; unfold is_u; lia).
  assert (Hold : ∀ d n x, bound t d n x → bound t' d n x).
  { intros d n x (e' & He & Hx). assert (d ≠ i) by (intros ->; unfold ents in He; by rewrite Hnew in He).
    exists (if decide (d = parent) then <[nm := i]> e else e'). rewrite Hents, decide_False by done. case_decide as Hdp; [|done]. subst d.
    rewrite Hpe in He. injection He as ->. split; [done|]. rewrite lookup_insert_ne; [done|]. intros ->. apply Hnm. eauto. }
  assert (Hinv : ∀ d n x, bound t' d n x → (d = parent ∧ n = nm ∧ x = i) ∨ bound t d n x).
  { intros d n x (e' & He & Hx). rewrite Hents in He. case_decide as Hd.
    - destruct (Hmk i) as [Hz|Hz]; rewrite Hz in He; [done|]. injection He as <-. by rewrite lookup_empty in Hx.
    - case_decide as Hdp; [|right; by exists e']. subst d. injection He as <-. apply lookup_insert_Some in Hx as [[-> ->]|[_ Hx]]; [by left|].
      right. by exists e. }
  assert (Hdom : ∀ x, is_Some (t !! x) → is_Some (t' !! x)) by (intros x Hx; unfold t'; rewrite !lookup_insert_is_Some'; auto).
  cbn [fst snd]. rewrite Hfs. split; [split; cbn; rewrite ?Hu; [lia|..]|split; cbn].
  - intros x Hx. unfold t' in Hx. rewrite !lookup_insert_is_Some' in Hx. destruct Hx as [->|[->|Hx%Hn]]; [lia| |lia].
    assert (is_Some (t !! x)) as ?%Hn by eauto. lia.
  - intros d n x [(_ & _ & ->)|Hx%Hb]%Hinv; lia.
  - intros d n d' n' x [(-> & -> & ->)|H1]%Hinv [(-> & -> & ?)|H2]%Hinv; [done| | |by eapply Ho].
    + apply Hb in H2. lia.
    + subst x. apply Hb in H1. lia.
  - intros x y. unfold t'. intros [[<- <-]|[_ [[<- <-]|[_ Hy]]%lookup_insert_Some]]%lookup_insert_Some; [apply Hmode|done|by eapply Hm].
  - intros d n x Hn' _. rewrite !entry_bound by done. rewrite Hfs. cbn. intros [H1 H2]. auto.
  - intros x [= <-] Hn'. rewrite entry_bound by done. rewrite Hfs. cbn. split.
    + exists (<[nm := i]> e). rewrite Hents, decide_False, decide_True by done. by rewrite lookup_insert_eq.
    + apply lookup_insert_is_Some'. by left.
Qed.

(** ** Removing a name *)

(** The entry [nm] of [parent] goes. *)
Lemma unbind t parent node e nm : t !! parent = Some node → kind node = Directory e →
  let t' := <[parent := set_kind node (Directory (delete nm e))]> t in
  ∀ d n x, bound t' d n x ↔ bound t d n x ∧ (d ≠ parent ∨ n ≠ nm).
Proof.
  intros Hp Hk t' d n x. assert (Hpe : ents t parent = Some e) by (unfold ents; rewrite Hp; cbn; unfold dir_of; by rewrite Hk).
  unfold bound, t'. rewrite ents_insert. case_decide as Hd; [subst d|naive_solver]. rewrite Hpe. cbn. split.
  - intros (e' & [= <-] & [Hne Hx]%lookup_delete_Some). eauto.
  - intros [(e' & [= <-] & Hx) [?|Hne]]; [done|]. exists (delete nm e). split; [done|]. by rewrite lookup_delete_ne.
Qed.

(** A tree in which only that entry is gone. *)
Lemma shrink_drops k (w w' : world) parent nm t2 : names_ok k (fs w) → fs w' = {| next_ino := next_ino (fs w); nodes := t2 |} →
  (∀ x y, t2 !! x = Some y → ∃ old, nodes (fs w) !! x = Some old ∧ mode y = mode old ∧ (is_Some (dir_of old) → is_Some (dir_of y))) →
  (∀ d n x, bound t2 d n x → bound (nodes (fs w)) d n x) →
  (∀ d n x, bound (nodes (fs w)) d n x → d ≠ parent ∨ n ≠ nm → is_Some (nodes (fs w) !! x) → bound t2 d n x ∧ is_Some (t2 !! x)) →
  names_ok k (fs w') ∧ drops [(parent, nm)] w (w', Ok ()).
Proof.
  intros Hw Hw' H1 H2 H3. rewrite Hw'. split.
  - apply names_ok_shrink; [done| |done]. intros x y (old & Hold & Hm & Hd)%H1. exists old. by rewrite Hm.
  - unfold drops. cbn [fst snd]. intros d n x Hn Hnot. rewrite !entry_bound by done. rewrite Hw'. cbn. intros [Hbx Hx]. apply H3; [done| |done].
    destruct (decide (d = parent)) as [->|]; [right|by left]. intros ->. apply Hnot. left.
Qed.

(** The node of a removed name, updated or removed: nothing else leads to it. *)
Lemma drop_link_names k (w : world) parent nm target : names_ok k (fs w) → bound (nodes (fs w)) parent nm target →
  (∀ n x, ¬ bound (nodes (fs w)) target n x) →
  names_ok k (fs (drop_link w parent nm target).1) ∧ drops [(parent, nm)] w (drop_link w parent nm target).
Proof.
  intros Hw Hb Hempty. pose proof Hb as (e & He & Hnm). unfold drop_link, ents in *. set (t := nodes (fs w)) in *.
  destruct (t !! parent) as [node|] eqn:Hp; [|done]. cbn in He. unfold dir_of in He. destruct (kind node) as [|e'|] eqn:Hk; try done.
  injection He as ->. pose proof (unbind t parent node e nm Hp Hk) as Hun. cbn in Hun. set (t1 := <[parent := _]> t) in *.
  assert (Hne : parent ≠ target) by (intros ->; by eapply Hempty).
  assert (Hdir : ∀ x y, t1 !! x = Some y → ∃ old, t !! x = Some old ∧ mode y = mode old ∧ (is_Some (dir_of old) → is_Some (dir_of y))).
  { intros x y [[<- <-]|[_ Hy]]%lookup_insert_Some; [|eauto]. exists node. split; [done|]. split; [done|]. by unfold dir_of. }
  assert (Hin : ∀ x, is_Some (t !! x) → is_Some (t1 !! x)) by (intros x Hx; apply lookup_insert_is_Some'; by right).
  cbn [nodes fs set_nodes]. assert (Ht : t1 !! target = t !! target) by (by apply lookup_insert_ne). rewrite Ht.
  assert (Htgt : ∀ d n x, bound t d n x → d ≠ parent ∨ n ≠ nm → d ≠ target ∧ x ≠ target).
  { intros d n x Hx Hor. split; [intros ->; by eapply Hempty|]. intros ->. destruct (nk_once _ _ Hw _ _ _ _ _ Hx Hb) as [-> ->]. by destruct Hor. }
  destruct (t !! target) as [tn|] eqn:Htn; [case_match|].
  - cbn [fst]. apply (shrink_drops k w _ _ _ (delete target (<[target := set_counts tn (saturating_sub (nlink tn) 1) (open_count tn)]> t1)));
      [done|unfold remove_node; cbn; rewrite lookup_insert_eq; unfold drop_node; cbn; by destruct (kind tn)|..].
    + intros x y. rewrite lookup_delete_Some. intros [Hxt Hy]. rewrite lookup_insert_ne in Hy by done. eauto.
    + intros d n x. unfold bound. rewrite ents_delete. case_decide; [naive_solver|]. rewrite ents_insert, decide_False by done. intros Hx. by apply (Hun d n x).
    + intros d n x Hx Hor Hs. destruct (Htgt _ _ _ Hx Hor) as [Hd Hxt]. unfold bound. rewrite ents_delete, ents_insert, !decide_False by done.
      split; [by apply (Hun d n x)|]. rewrite lookup_delete_ne, lookup_insert_ne by done. auto.
  - apply (shrink_drops k w _ _ _ (<[target := set_counts tn (saturating_sub (nlink tn) 1) (open_count tn)]> t1)); [done..| | |].
    + intros x y [[<- <-]|[_ Hy]]%lookup_insert_Some; [|eauto]. exists tn. by split.
    + intros d n x Hx. apply (Hun d n x). unfold bound in *. rewrite ents_insert in Hx. case_decide; [|done]. subst d. unfold ents. by rewrite Ht.
    + intros d n x Hx Hor Hs. destruct (Htgt _ _ _ Hx Hor) as [Hd Hxt]. unfold bound. rewrite ents_insert, decide_False by done.
      split; [by apply (Hun d n x)|]. rewrite lookup_insert_ne by done. auto.
  - apply (shrink_drops k w _ _ _ t1); [done..| |].
    + intros d n x Hx. by apply (Hun d n x).
    + intros d n x Hx Hor Hs. split; [by apply Hun|auto].
Qed.

Lemma find_entry_bound (f : TmpFs) parent nm target : find_entry f parent nm = Ok target → bound (nodes f) parent nm target.
Proof.
  unfold find_entry, get, bound, ents. destruct (nodes f !! parent) as [node|]; cbn; [|done]. unfold dir_entries, dir_of.
  destruct (kind node) as [|e|]; cbn; [done| |done]. destruct (e !! nm) as [x|] eqn:Hx; cbn; [|done]. intros [= ->]. eauto.
Qed.

Lemma unlink_tmpfs k (w : world) parent nm : names_ok k (fs w) →
  names_ok k (fs (unlink w parent nm).1) ∧ drops [(parent, nm)] w (unlink w parent nm).
Proof.
  intros Hw. pose proof (conj Hw (kept_refl w)) as Hsame.
  unfold unlink. destruct (find_entry (fs w) parent nm) as [target|e|] eqn:Hf; cbn; [|exact Hsame..]. unfold get.
  destruct (nodes (fs w) !! target) as [n|] eqn:Hn; cbn; [|exact Hsame]. apply find_entry_bound in Hf.
  destruct (kind n) eqn:Hk; [|exact Hsame|]; (apply drop_link_names; [done..|]; intros x y (e & He & _); unfold ents, dir_of in He;
    rewrite Hn in He; cbn in He; by rewrite Hk in He).
Qed.

Lemma rmdir_tmpfs k (w : world) parent nm : names_ok k (fs w) →
  names_ok k (fs (rmdir w parent nm).1) ∧ drops [(parent, nm)] w (rmdir w parent nm).
Proof.
  intros Hw. pose proof (conj Hw (kept_refl w)) as Hsame.
  unfold rmdir. destruct (find_entry (fs w) parent nm) as [target|e|] eqn:Hf; cbn; [|exact Hsame..]. unfold get.
  destruct (nodes (fs w) !! target) as [n|] eqn:Hn; cbn; [|exact Hsame]. apply find_entry_bound in Hf. unfold dir_entries.
  destruct (kind n) as [|e|] eqn:Hk; cbn; [exact Hsame| |exact Hsame]. case_bool_decide as He; cbn; [|exact Hsame].
  apply drop_link_names; [done..|]. intros x y (e' & He' & Hx). unfold ents, dir_of in He'. rewrite Hn in He'. cbn in He'. rewrite Hk in He'.
  injection He' as <-. by rewrite He, lookup_empty in Hx.
Qed.

(** ** Moving a name *)

Lemma rename_moved k f t1 t2 d1 n1 d2 n2 target : names_ok k f → names_ok k {| next_ino := next_ino f; nodes := t1 |} →
  bound (nodes f) d1 n1 target → (∀ d n x, bound t1 d n x → bound (nodes f) d n x ∧ (d ≠ d1 ∨ n ≠ n1)) →
  (∀ d n x, bound t2 d n x → (d = d2 ∧ n = n2 ∧ x = target) ∨ bound t1 d n x) →
  (∀ x y, t2 !! x = Some y → ∃ old, t1 !! x = Some old ∧ mode y = mode old ∧ (is_Some (dir_of old) → is_Some (dir_of y))) →
  names_ok k {| next_ino := next_ino f; nodes := t2 |}.
Proof.
  intros Hf [Hr Hn Hb Ho Hm] Ht Hun Hinv Hdir. assert (Hno : ∀ d n, ¬ bound t1 d n target).
  { intros d n [Hx Hor]%Hun. destruct (nk_once _ _ Hf _ _ _ _ _ Hx Ht) as [-> ->]. by destruct Hor. }
  split; cbn in *; [done|..].
  - intros i [y (old & ? & _)%Hdir]. eauto.
  - intros d n x [(_ & _ & ->)|Hx]%Hinv; [by eapply nk_bound|eauto].
  - intros d n d' n' x [(-> & -> & ->)|H1]%Hinv [(-> & -> & ?)|H2]%Hinv; subst; [done|by apply Hno in H2|by apply Hno in H1|eauto].
  - intros i y (old & Hold & Hmo & Hd)%Hdir Hmode. rewrite Hmo in Hmode. eauto.
Qed.

Lemma rename_tmpfs k (w : world) d1 n1 d2 n2 m : names_ok k (fs w) → names_ok k (fs (rename w d1 n1 d2 n2).1) ∧
  (read_inode (fs w) d2 = Ok m → is_dir m = true → drops [(d1, n1); (d2, n2)] w (rename w d1 n1 d2 n2)).
Proof.
  intros Hw. assert (Hsame : ∀ e, names_ok k (fs w) ∧ (read_inode (fs w) d2 = Ok m → is_dir m = true → drops [(d1, n1); (d2, n2)] w (w, Err e)))
    by (intros e; split; [done|]; intros _ _; apply kept_refl).
  unfold rename. destruct (nodes (fs w) !! d1) as [node|] eqn:Hd1; [|apply Hsame]. destruct (kind node) as [|e|] eqn:Hk; [apply Hsame| |apply Hsame].
  destruct (e !! n1) as [target|] eqn:Hn1; [|apply Hsame]. set (t := nodes (fs w)) in *.
  pose proof (unbind t d1 node e n1 Hd1 Hk) as Hun. cbn in Hun. set (t1 := <[d1 := _]> t) in *. cbn [nodes fs set_nodes].
  assert (Hb : bound t d1 n1 target) by (exists e; split; [unfold ents, dir_of; rewrite Hd1; cbn; by rewrite Hk|done]).
  assert (Hdir : ∀ x y, t1 !! x = Some y → ∃ old, t !! x = Some old ∧ mode y = mode old ∧ (is_Some (dir_of old) → is_Some (dir_of y))).
  { intros x y [[<- <-]|[_ Hy]]%lookup_insert_Some; [|eauto]. exists node. split; [done|]. split; [done|]. by unfold dir_of. }
  assert (Hlost : names_ok k {| next_ino := next_ino (fs w); nodes := t1 |}).
  { apply names_ok_shrink; [done| |by intros d n x [? _]%Hun]. intros x y (old & Hold & Hm & Hd)%Hdir. exists old. by rewrite Hm. }
  assert (Hmust : read_inode (fs w) d2 = Ok m → is_dir m = true → ∃ y, t1 !! d2 = Some y ∧ is_Some (dir_of y)).
  { unfold read_inode, get. fold t. destruct (t !! d2) as [y|] eqn:Hy; cbn; [|done]. intros [= <-]. unfold is_dir. cbn. intros Hm%Z.eqb_eq.
    pose proof (nk_mode _ _ Hw d2 y Hy Hm) as Hs. destruct (decide (d1 = d2)) as [->|Hne].
    - rewrite Hy in Hd1. injection Hd1 as ->. eexists. split; [apply lookup_insert_eq|]. unfold dir_of. by cbn.
    - exists y. split; [unfold t1; by rewrite lookup_insert_ne|done]. }
  destruct (t1 !! d2) as [node2|] eqn:Hd2; [|split; [done|]; intros Hr Hi; by destruct (Hmust Hr Hi) as (y & ? & _)].
  destruct (kind node2) as [|e2|] eqn:Hk2;
    [split; [done|]; intros Hr Hi; destruct (Hmust Hr Hi) as (y & [= <-] & [? Hx]); unfold dir_of in Hx; by rewrite Hk2 in Hx| |
     split; [done|]; intros Hr Hi; destruct (Hmust Hr Hi) as (y & [= <-] & [? Hx]); unfold dir_of in Hx; by rewrite Hk2 in Hx].
  set (t2 := <[d2 := _]> t1). assert (Hp2 : ents t1 d2 = Some e2) by (unfold ents, dir_of; rewrite Hd2; cbn; by rewrite Hk2).
  assert (Hinv : ∀ d n x, bound t2 d n x → (d = d2 ∧ n = n2 ∧ x = target) ∨ bound t1 d n x).
  { intros d n x (e' & He & Hx). unfold t2 in He. rewrite ents_insert in He. case_decide as Hd; [|right; by exists e']. subst d. injection He as <-.
    apply lookup_insert_Some in Hx as [[<- <-]|[_ Hx]]; [by left|right; by exists e2]. }
  cbn [fst]. split.
  - apply (rename_moved k (fs w) t1 t2 d1 n1 d2 n2 target Hw Hlost Hb (λ d n x, proj1 (Hun d n x)) Hinv).
    intros x y [[<- <-]|[_ Hy]]%lookup_insert_Some; [|eauto]. exists node2. by unfold dir_of.
  - intros _ _ d n x Hn Hnot. cbn in Hnot. rewrite !entry_bound by done. cbn. intros [Hx Hs].
    apply not_elem_of_cons in Hnot as [Hnot1 Hnot2%not_elem_of_cons]. assert (Hx1 : bound t1 d n x).
    { apply Hun. split; [done|]. destruct (decide (d = d1)) as [->|]; [right|by left]. by intros ->. }
    split; [|unfold t2, t1; rewrite !lookup_insert_is_Some'; auto].
    destruct Hx1 as (e' & He & Hx1). unfold bound, t2. rewrite ents_insert. case_decide as Hd; [|by exists e']. subst d.
    rewrite Hp2 in He. injection He as <-. exists (<[n2 := target]> e2). split; [done|]. rewrite lookup_insert_ne; [done|]. intros ->. by destruct Hnot2.
Qed.

(** ** Data, and the promise as a whole *)

Lemma write_tmpfs k (w : world) i off b : names_ok k (fs w) → names_ok k (fs (write hhdm w i off b).1) ∧ kept w (write hhdm w i off b).1.
Proof.
  intros Hw. pose proof (conj Hw (kept_refl w)) as Hsame. unfold write. destruct (nodes (fs w) !! i) as [node|] eqn:Hi; [|exact Hsame].
  destruct (kind node) as [pages size| |] eqn:Hk; [|exact Hsame..].
  repeat case_match; cbn [fst]; try exact Hsame; try (by apply same_names);
    (eapply update_names; [exact Hw|exact Hi|reflexivity|done|unfold dir_of; cbn; by rewrite Hk]).
Qed.

Lemma truncate_tmpfs k (w : world) i size : names_ok k (fs w) → names_ok k (fs (truncate w i size).1) ∧ kept w (truncate w i size).1.
Proof.
  intros Hw. pose proof (conj Hw (kept_refl w)) as Hsame. unfold truncate. destruct (nodes (fs w) !! i) as [node|] eqn:Hi; [|exact Hsame].
  destruct (kind node) as [pages cur| |] eqn:Hk; [|exact Hsame..]. destruct (if _ <? _ then _ else _) as [a pages']. cbn [fst].
  eapply update_names; [exact Hw|exact Hi|reflexivity|done|unfold dir_of; cbn; by rewrite Hk].
Qed.

Lemma open_tmpfs k (w : world) i : names_ok k (fs w) → names_ok k (fs (open_inode w i)) ∧ kept w (open_inode w i).
Proof.
  intros Hw. unfold open_inode. destruct (nodes (fs w) !! i) as [node|] eqn:Hi; [|exact (conj Hw (kept_refl w))].
  by eapply update_names.
Qed.

Lemma file_mode b m : Z.land b 0xFFF = 0 → Z.land (Z.lor b (Z.land m 0xFFF)) S_IFMT = Z.land b S_IFMT.
Proof.
  intros Hb. rewrite Z.land_lor_distr_l, <- Z.land_assoc. change (Z.land 0xFFF S_IFMT) with 0. by rewrite Z.land_0_r, Z.lor_0_r.
Qed.

#[local] Instance tmpfs_named : NamedFs world.
Proof.
  refine {| fs_ok := λ k w, names_ok k (fs w) |}.
  - intros k w [?????]. split; [lia|done..].
  - intros k w dir n m Hw. apply add_name_names; [done|by left|]. intros i. cbn. rewrite file_mode by done. done.
  - intros k w dir n m Hw. apply add_name_names; [done|by right|]. intros i _. by eexists.
  - intros k w dir n target Hw. apply add_name_names; [done|by left|]. done.
  - intros k w dir n. apply unlink_tmpfs.
  - intros k w dir n. apply rmdir_tmpfs.
  - intros k w d1 n1 d2 n2 m. apply rename_tmpfs.
  - intros k w i off b. apply write_tmpfs.
  - intros k w i size. apply truncate_tmpfs.
  - intros k w i. apply open_tmpfs.
  - refine (default_create_dir_names (λ k w, names_ok k (fs w)) _ _).
    + intros k w [?????]. split; [lia|done..].
    + intros k w dir n m Hw. apply add_name_names; [done|by right|]. intros i _. by eexists.
Defined.
End instance.

(** ** A machine with in-memory filesystems only *)

Section demo.
#[local] Existing Instance machine_frames.

(** None of them uses the page cache, so it has nothing to do. *)
Definition no_page_cache : PageCaching unit (@Tmpfs.world BuddyAllocator) := {|
  pc_read := λ c w _ i off len, (c, w, read machine_hhdm w i off len);
  pc_write := λ c w _ i off b, let '(w, r) := write machine_hhdm w i off b in (c, w, r);
  pc_truncate := λ c _ _ _, c; pc_invalidate := λ c _ _, c; pc_size := λ _ _ _, None |}.

#[local] Instance demo_fs : Filesystem (@Tmpfs.world BuddyAllocator) := tmpfs_filesystem machine_hhdm.
#[local] Existing Instance no_page_cache.
#[local] Instance demo_named : NamedFs (@Tmpfs.world BuddyAllocator) := tmpfs_named machine_hhdm.

#[local] Instance demo_cache : NamedCache unit (@Tmpfs.world BuddyAllocator).
Proof.
  split.
  - intros k c s m i off len Hs. exact (conj Hs (kept_refl s)).
  - intros k c s m i off b Hs. cbn. pose proof (write_tmpfs machine_hhdm k s i off b Hs) as Hw. by destruct (write machine_hhdm s i off b).
Qed.

Definition boot_vfs : vfs := {| table := table_new; dcache := DCACHE; wfs := λ _, machine; pages := () |}.

Lemma machine_names k : Z.of_nat k < 2 ^ 63 → names_ok k (fs machine).
Proof.
  intros Hk. assert (Hno : ∀ d n i, ¬ bound (nodes (fs machine)) d n i).
  { intros d n i (e & He & Hi). unfold ents in He. cbn in He. destruct (_ !! d) as [node|] eqn:Hd; [|done]. apply lookup_singleton_Some in Hd as [_ <-].
    injection He as <-. by rewrite lookup_empty in Hi. }
  split; cbn.
  - lia.
  - intros i [node [<- _]%lookup_singleton_Some]. lia.
  - intros d n i ?%Hno. done.
  - intros d n d' n' i ?%Hno. done.
  - intros i node [_ <-]%lookup_singleton_Some _. by eexists.
Qed.

Lemma boot_vfs_ok k : Z.of_nat k < 2 ^ 63 → vfs_ok k boot_vfs.
Proof.
  intros Hk. split; cbn; [split; cbn|split; cbn| | |].
  - by intros m dir n v ?%not_elem_of_nil.
  - intros key v Hv. by rewrite lookup_empty in Hv.
  - constructor.
  - by intros m ?%not_elem_of_nil.
  - constructor.
  - lia.
  - intros h. by apply machine_names.
Qed.

Definition demo_ops : list path_op :=
  [MountAt (text "/") 0 0; MountAt (text "/tmp") 1 0; WriteRoot (text "/tmp/a") [1; 2; 3]; SymlinkAt (text "/l") (text "/tmp");
   ReadRoot (text "/l/a"); RenameAt (text "/l/a") (text "/b"); RenameAt (text "/l/a") (text "/tmp/b"); RemoveAt (text "/tmp/b")].

Lemma dcache_invisible_witness :
  let w := foldl run_path boot_vfs demo_ops in
  (resolve_path_vfs w (text "/l/a") true).2 = plain_resolve w (text "/l/a") true ∧ plain_resolve w (text "/l/a") true = Err NotFound.
Proof.
  assert (Hs : sensible_run boot_vfs demo_ops).
  { unfold demo_ops. cbn [sensible_run sensible]. unfold into_directory. repeat split; try (vm_compute; by intros ?%not_elem_of_nil).
    - vm_compute. by intros [?|?%not_elem_of_nil]%elem_of_cons.
    - intros f Hf. vm_compute in Hf. by injection Hf as <-.
    - intros f Hf. vm_compute in Hf. by injection Hf as <-. }
  destruct (dcache_invisible demo_ops 0 boot_vfs (text "/l/a") true) as [_ Hr]; [apply boot_vfs_ok; vm_compute; reflexivity|exact Hs|].
  split; [exact Hr|]. vm_compute. reflexivity.
Defined.

Definition read_only_root : vfs := foldl run_path boot_vfs
  [MountAt (text "/") 0 0; WriteRoot (text "/a") [1; 2]; MountAt (text "/") 1 MS_RDONLY; MountAt (text "/tmp") 2 0].

Lemma readonly_unchanged_witness :
  wfs (run_path read_only_root (WriteRoot (text "/b") [3])) 1 = wfs read_only_root 1 ∧
  (write_root_as (text "/b") [3] read_only_root).2 = Err ReadOnlyFilesystem.
Proof.
  split; [|vm_compute; reflexivity]. apply (readonly_unchanged 1 read_only_root (WriteRoot (text "/b") [3])); [| |exact I].
  - apply (bool_decide_unpack _). vm_compute. exact I.
  - intros m Hm Hfs. assert (Hall : Forall (λ m, mfs m = 1 → Z.land (mflags m) MS_RDONLY ≠ 0) (mounts (table read_only_root))).
    { apply (bool_decide_unpack _). vm_compute. exact I. }
    rewrite Forall_forall in Hall. by apply (Hall m).
Defined.

(** ** What the operations do besides *)

(** A rename that fails leaves a stale name: moving a file into a file is
    refused, but the in-memory filesystem has dropped the old name by then
    and the cache, which is only invalidated on success, still leads to it. *)
Theorem failed_rename_stale_name :
  let w := foldl run_path boot_vfs [MountAt (text "/") 0 0; WriteRoot (text "/a") []; WriteRoot (text "/f") []] in
  let '(w, r) := rename_root_as (text "/a") (text "/f/b") w in
  r = Err NotDirectory ∧ plain_resolve w (text "/a") true = Err NotFound ∧
  match (resolve_path_vfs w (text "/a") true).2 with Ok f => f_ino f = 2 | _ => False end.
Proof. vm_compute. by split. Qed.

(** Paths to create and remove are trimmed like mount targets: removing
    the name with a blank at its end removes the name without it. *)
Theorem remove_trims_blanks :
  let w := foldl run_path boot_vfs [MountAt (text "/") 0 0; WriteRoot (text "/a") []] in
  plain_resolve w (text "/a ") true = Err NotFound ∧
  let '(w, r) := remove_root_as (text "/a ") w in r = Ok () ∧ plain_resolve w (text "/a") true = Err NotFound.
Proof. vm_compute. by split. Qed.

(** A target of separators only becomes the empty mount point, which takes
    every absolute path from the root. *)
Theorem mount_at_separators :
  let t := (foldl run_mount (table_new, DCACHE) [DoMount (text "/") 0 0; DoMount (text "//") 1 0]).1 in
  match table_resolve t (text "/etc") with Ok (m, _) => mfs m = 1 | _ => False end.
Proof. vm_compute. reflexivity. Qed.

(** Invalidating a name leaves its key in the queue, so creating and removing
    one name over and over makes the queue longer every time. *)
Theorem dcache_queue_grows n key v :
  length (dkeys (Nat.iter n (λ c, dcache_invalidate (dcache_insert c key v) key) DCACHE)) = n.
Proof.
  set (round := λ c, dcache_invalidate (dcache_insert c key v) key).
  assert (Hround : ∀ c, dentries c = ∅ → max_entries c = 4096 →
    dentries (round c) = ∅ ∧ max_entries (round c) = 4096 ∧ length (dkeys (round c)) = Datatypes.S (length (dkeys c))).
  { intros c He Hm. unfold round, dcache_insert. rewrite He, Hm, bool_decide_false by (rewrite lookup_empty; by intros [? ?]).
    assert (dcache_evict 4096 ∅ (dkeys c) = (∅, dkeys c)) as -> by (by destruct (dkeys c)).
    cbn. split; [|split; [done|]]; [rewrite delete_insert_eq; apply delete_empty|rewrite length_app; cbn; lia]. }
  enough (dentries (Nat.iter n round DCACHE) = ∅ ∧ max_entries (Nat.iter n round DCACHE) = 4096 ∧ length (dkeys (Nat.iter n round DCACHE)) = n) by tauto.
  induction n as [|n (He & Hm & Hl)]; [done|]. destruct (Hround _ He Hm) as (He' & Hm' & Hl'). rewrite Hl in Hl'. by split.
Qed.
End demo.
