(* ===== verification/Net.v ===== *)
(** * Network packets ([rust/kernel/src/net.rs])

    Ethernet, ARP, IPv4, ICMP, UDP and TCP frames as byte strings, their
    parsers and builders, and the Internet checksum.  Addresses are lists of
    4 or 6 bytes.  An [Option] result is a [res unit]: [Err ()] is [None],
    and [Panic] an index out of range.  The builders write fields at constant
    offsets inside their buffers, so [write_u16] is [splice] there. *)

From stdpp Require Import list.
From S2P Require Import Prelude Words Dns.

Abbreviation opt := (res unit).

Definition ETHERNET_HEADER_SIZE : Z := 14.
Definition ARP_PACKET_SIZE : Z := 28.
Definition IPV4_HEADER_SIZE : Z := 20.
Definition ICMP_HEADER_SIZE : Z := 8.
Definition UDP_HEADER_SIZE : Z := 8.
Definition TCP_HEADER_SIZE : Z := 20.
Definition ETHERTYPE_ARP : Z := 0x0806.
Definition ETHERTYPE_IPV4 : Z := 0x0800.
Definition ARP_REQUEST : Z := 1.
Definition ARP_REPLY : Z := 2.
Definition IP_PROTOCOL_ICMP : Z := 1.
Definition IP_PROTOCOL_TCP : Z := 6.
Definition IP_PROTOCOL_UDP : Z := 17.
Definition ICMP_ECHO_REPLY : Z := 0.
Definition ICMP_ECHO_REQUEST : Z := 8.
Definition TCP_FIN : Z := 0x01.
Definition TCP_SYN : Z := 0x02.
Definition TCP_RST : Z := 0x04.
Definition TCP_PSH : Z := 0x08.
Definition TCP_ACK : Z := 0x10.
Definition MAX_TCP_PAYLOAD : Z := 1460.
Definition TCP_FRAME_CAPACITY : Z := ETHERNET_HEADER_SIZE + IPV4_HEADER_SIZE + TCP_HEADER_SIZE + MAX_TCP_PAYLOAD.

Record EthernetHeader := { dest_mac : list Z; src_mac : list Z; ethertype : Z }.
Record ArpPacket := { opcode : Z; sender_mac : list Z; sender_ip : list Z; target_mac : list Z; target_ip : list Z }.
Record Ipv4Header := {
  version : Z; ihl : Z; tos : Z; total_length : Z; ip_id : Z; flags_fragment : Z; ttl : Z; protocol : Z;
  ip_checksum : Z; src_ip : list Z; dest_ip : list Z }.
Record IcmpHeader := { msg_type : Z; code : Z; icmp_checksum : Z; identifier : Z; icmp_sequence : Z }.
Record UdpHeader := { udp_src_port : Z; udp_dest_port : Z; udp_length : Z; udp_check : Z }.
Record TcpHeader := {
  src_port : Z; dest_port : Z; sequence : Z; acknowledgement : Z; data_offset : Z; flags : Z; window_size : Z;
  tcp_check : Z; urgent_pointer : Z }.
Record TcpFrame := { frame_bytes : list Z; frame_length : Z }.
Record TcpSegment := { seg_sequence : Z; seg_acknowledgement : Z; seg_flags : Z; seg_payload : list Z }.

Definition as_bytes (f : TcpFrame) : opt (list Z) := expect (slice (frame_bytes f) 0 (frame_length f)).

(** ** Big-endian fields *)

Definition from_be (bs : list Z) : Z := from_le (reverse bs).
Definition read_u16 (bytes : list Z) (offset : Z) : opt Z := ok_or () (from_be <$> slice bytes offset (offset + 2)).
Definition read_u32 (bytes : list Z) (offset : Z) : opt Z := ok_or () (from_be <$> slice bytes offset (offset + 4)).
Definition write_u16 (bytes : list Z) (offset value : Z) : list Z := splice bytes offset (to_be 2 value).
Definition write_u32 (bytes : list Z) (offset value : Z) : list Z := splice bytes offset (to_be 4 value).

(** [bytes[i]] and [bytes[a..b]]. *)
Definition at_ (bytes : list Z) (i : Z) : opt Z := expect (index bytes i).
Definition range (bytes : list Z) (a b : Z) : opt (list Z) := expect (slice bytes a b).
(** [if b { return None }] *)
Definition none_if (b : bool) : opt unit := guard_err b ().

(** ** The Internet checksum *)

Fixpoint add_ones_complement_sum (sum : Z) (bytes : list Z) : Z :=
  match bytes with
  | a :: b :: rest => add_ones_complement_sum (u32 (sum + from_be [a; b])) rest
  | [a] => u32 (sum + Z.shiftl a 8)
  | [] => sum
  end.

(** Two rounds bring any 32-bit sum below [2^16]. *)
Fixpoint fold_rounds (fuel : nat) (sum : Z) : Z :=
  match fuel with
  | O => u16 sum
  | S fuel' => if Z.shiftr sum 16 =? 0 then u16 sum else fold_rounds fuel' (u32 (Z.land sum 0xffff + Z.shiftr sum 16))
  end.
Definition fold_ones_complement_sum (sum : Z) : Z := fold_rounds 3 sum.

Definition ones_complement_sum (bytes : list Z) : Z := fold_ones_complement_sum (add_ones_complement_sum 0 bytes).
Definition checksum (bytes : list Z) : Z := bnot 16 (ones_complement_sum bytes).
Definition valid_checksum (bytes : list Z) : bool := ones_complement_sum bytes =? 0xffff.

(** [udp_sum] and [tcp_sum]: the same with their protocol numbers. *)
Definition pseudo_sum (protocol : Z) (source destination datagram : list Z) : Z :=
  let sum := add_ones_complement_sum 0 source in
  let sum := add_ones_complement_sum sum destination in
  let sum := add_ones_complement_sum sum [0; protocol] in
  let sum := add_ones_complement_sum sum (to_be 2 (u16 (zlen datagram))) in
  add_ones_complement_sum sum datagram.
Definition udp_sum := pseudo_sum IP_PROTOCOL_UDP.
Definition tcp_sum := pseudo_sum IP_PROTOCOL_TCP.
Definition udp_checksum (source destination datagram : list Z) : Z := bnot 16 (fold_ones_complement_sum (udp_sum source destination datagram)).
Definition valid_udp_checksum (source destination datagram : list Z) : bool :=
  fold_ones_complement_sum (udp_sum source destination datagram) =? 0xffff.
Definition tcp_checksum (source destination segment : list Z) : Z := bnot 16 (fold_ones_complement_sum (tcp_sum source destination segment)).
Definition valid_tcp_checksum (source destination segment : list Z) : bool :=
  fold_ones_complement_sum (tcp_sum source destination segment) =? 0xffff.

(** ** Ethernet and ARP *)

Definition parse_ethernet (frame : list Z) : opt (EthernetHeader * list Z) :=
  _ ← none_if (zlen frame <? ETHERNET_HEADER_SIZE);
  d ← range frame 0 6; s ← range frame 6 12; e ← read_u16 frame 12;
  payload ← range frame ETHERNET_HEADER_SIZE (zlen frame);
  Ok ({| dest_mac := d; src_mac := s; ethertype := e |}, payload).

Definition build_ethernet (dest src : list Z) (etype : Z) (payload : list Z) : list Z := dest ++ src ++ to_be 2 etype ++ payload.

Definition parse_arp (payload : list Z) : opt ArpPacket :=
  _ ← none_if (zlen payload <? ARP_PACKET_SIZE);
  htype ← read_u16 payload 0; ptype ← read_u16 payload 2; hlen ← at_ payload 4; plen ← at_ payload 5; op ← read_u16 payload 6;
  _ ← none_if (negb (htype =? 1) || negb (ptype =? ETHERTYPE_IPV4) || negb (hlen =? 6) || negb (plen =? 4));
  sm ← range payload 8 14; si ← range payload 14 18; tm ← range payload 18 24; ti ← range payload 24 28;
  Ok {| opcode := op; sender_mac := sm; sender_ip := si; target_mac := tm; target_ip := ti |}.

(** The common fields of [arp_request] and [arp_reply]. *)
Definition arp_frame (dest local_mac local_ip : list Z) (op : Z) : list Z :=
  let f := replicate 42 0 in
  let f := splice f 0 dest in
  let f := splice f 6 local_mac in
  let f := write_u16 f 12 ETHERTYPE_ARP in
  let f := write_u16 f 14 1 in
  let f := write_u16 f 16 0x0800 in
  let f := splice f 18 [6] in
  let f := splice f 19 [4] in
  let f := write_u16 f 20 op in
  let f := splice f 22 local_mac in
  splice f 28 local_ip.
Definition arp_request (local_mac local_ip target : list Z) : list Z :=
  splice (arp_frame (replicate 6 0xff) local_mac local_ip ARP_REQUEST) 38 target.
Definition arp_reply (local_mac local_ip tmac tip : list Z) : list Z :=
  splice (splice (arp_frame tmac local_mac local_ip ARP_REPLY) 32 tmac) 38 tip.

Definition arp_reply_mac (frame local_ip expected_sender : list Z) : opt (list Z) :=
  _ ← none_if (zlen frame <? ETHERNET_HEADER_SIZE + ARP_PACKET_SIZE);
  e ← read_u16 frame 12; _ ← none_if (negb (e =? ETHERTYPE_ARP));
  h ← read_u16 frame 14; _ ← none_if (negb (h =? 1));
  p ← read_u16 frame 16; _ ← none_if (negb (p =? 0x0800));
  hl ← at_ frame 18; _ ← none_if (negb (hl =? 6));
  pl ← at_ frame 19; _ ← none_if (negb (pl =? 4));
  op ← read_u16 frame 20; _ ← none_if (negb (op =? ARP_REPLY));
  si ← range frame 28 32; _ ← none_if (negb (bool_decide (si = expected_sender)));
  ti ← range frame 38 42; _ ← none_if (negb (bool_decide (ti = local_ip)));
  range frame 22 28.

(** ** IPv4 and ICMP *)

Definition parse_ipv4 (payload : list Z) : opt (Ipv4Header * list Z) :=
  _ ← none_if (zlen payload <? IPV4_HEADER_SIZE);
  version_ihl ← at_ payload 0;
  let v := Z.shiftr version_ihl 4 in
  let i := Z.land version_ihl 0x0f in
  let header_length := i * 4 in
  _ ← none_if (negb (v =? 4) || (header_length <? IPV4_HEADER_SIZE) || (zlen payload <? header_length));
  header ← range payload 0 header_length;
  _ ← none_if (negb (valid_checksum header));
  t ← at_ payload 1; total ← read_u16 payload 2; id ← read_u16 payload 4; ff ← read_u16 payload 6;
  tt_ ← at_ payload 8; proto ← at_ payload 9; c ← read_u16 payload 10;
  s ← range payload 12 16; d ← range payload 16 20;
  let packet_total := Z.min total (zlen payload) in
  _ ← none_if (packet_total <? header_length);
  rest ← range payload header_length packet_total;
  Ok ({| version := v; ihl := i; tos := t; total_length := total; ip_id := id; flags_fragment := ff; ttl := tt_;
         protocol := proto; ip_checksum := c; src_ip := s; dest_ip := d |}, rest).

Definition ipv4_header (total id frag ttl_ proto : Z) (s d : list Z) : list Z :=
  let h := replicate 20 0 in
  let h := splice h 0 [0x45] in
  let h := write_u16 h 2 (u16 total) in
  let h := write_u16 h 4 id in
  let h := write_u16 h 6 frag in
  let h := splice h 8 [ttl_] in
  let h := splice h 9 [proto] in
  let h := splice h 12 s in
  let h := splice h 16 d in
  write_u16 h 10 (checksum h).

Definition build_ipv4_packet (smac dmac s d : list Z) (proto id ttl_ : Z) (payload : list Z) : list Z :=
  dmac ++ smac ++ to_be 2 ETHERTYPE_IPV4 ++ ipv4_header (IPV4_HEADER_SIZE + zlen payload) id 0x4000 ttl_ proto s d ++ payload.

Definition parse_icmp (payload : list Z) : opt (IcmpHeader * list Z) :=
  _ ← none_if (zlen payload <? ICMP_HEADER_SIZE);
  _ ← none_if (negb (valid_checksum payload));
  t ← at_ payload 0; c ← at_ payload 1; k ← read_u16 payload 2; i ← read_u16 payload 4; s ← read_u16 payload 6;
  rest ← range payload ICMP_HEADER_SIZE (zlen payload);
  Ok ({| msg_type := t; code := c; icmp_checksum := k; identifier := i; icmp_sequence := s |}, rest).

Definition icmp_message (kind id seq : Z) (data : list Z) : list Z :=
  let m := [kind; 0; 0; 0] ++ to_be 2 id ++ to_be 2 seq ++ data in
  write_u16 m 2 (checksum m).

(** The request leaves the fragment field zero. *)
Definition icmp_echo_request (local_mac gateway_mac local_ip target : list Z) (id : Z) : list Z :=
  gateway_mac ++ local_mac ++ to_be 2 ETHERTYPE_IPV4 ++ ipv4_header 28 id 0 64 IP_PROTOCOL_ICMP local_ip target ++
  icmp_message ICMP_ECHO_REQUEST id 1 [].
Definition build_icmp_echo_reply (local_mac tmac local_ip tip : list Z) (id seq : Z) (data : list Z) : list Z :=
  build_ipv4_packet local_mac tmac local_ip tip IP_PROTOCOL_ICMP id 64 (icmp_message ICMP_ECHO_REPLY id seq data).

Definition is_icmp_echo_reply (frame local_ip expected_sender : list Z) (id : Z) : res unit bool :=
  if (zlen frame <? 42) || negb (bool_decide (read_u16 frame 12 = Ok ETHERTYPE_IPV4)) then Ok false else
  v ← at_ frame 14;
  let header_length := Z.land v 0x0f * 4 in
  let total := match read_u16 frame 16 with Ok t => t | _ => 0 end in
  if negb (Z.shiftr v 4 =? 4) || (header_length <? 20) || (total <? header_length + 8) || (zlen frame <? 14 + total) then Ok false else
  p ← at_ frame 23; if negb (p =? IP_PROTOCOL_ICMP) then Ok false else
  s ← range frame 26 30; if negb (bool_decide (s = expected_sender)) then Ok false else
  d ← range frame 30 34; if negb (bool_decide (d = local_ip)) then Ok false else
  h ← range frame 14 (14 + header_length); if negb (valid_checksum h) then Ok false else
  let icmp := 14 + header_length in
  t ← at_ frame icmp; if negb (t =? 0) then Ok false else
  c ← at_ frame (icmp + 1); if negb (c =? 0) then Ok false else
  if negb (bool_decide (read_u16 frame (icmp + 4) = Ok id)) then Ok false else
  m ← range frame icmp (14 + total); Ok (valid_checksum m).

(** ** UDP *)

Definition parse_udp (payload s d : list Z) : opt (UdpHeader * list Z) :=
  _ ← none_if (zlen payload <? UDP_HEADER_SIZE);
  sp ← read_u16 payload 0; dp ← read_u16 payload 2; length ← read_u16 payload 4; c ← read_u16 payload 6;
  let len := Z.min length (zlen payload) in
  _ ← none_if (len <? UDP_HEADER_SIZE);
  whole ← range payload 0 len;
  _ ← none_if (negb (c =? 0) && negb (valid_udp_checksum s d whole));
  rest ← range payload UDP_HEADER_SIZE len;
  Ok ({| udp_src_port := sp; udp_dest_port := dp; udp_length := length; udp_check := c |}, rest).

(** [if csum == 0 { 0xffff } else { csum }] *)
Definition nonzero_checksum (c : Z) : Z := if c =? 0 then 0xffff else c.

Definition udp_datagram (s d : list Z) (local_port remote_port : Z) (payload : list Z) : list Z :=
  let b := to_be 2 local_port ++ to_be 2 remote_port ++ to_be 2 (u16 (UDP_HEADER_SIZE + zlen payload)) ++ [0; 0] ++ payload in
  write_u16 b 6 (nonzero_checksum (udp_checksum s d b)).
Definition build_udp_frame (local_mac remote_mac local_ip remote_ip : list Z) (local_port remote_port : Z) (payload : list Z) : list Z :=
  build_ipv4_packet local_mac remote_mac local_ip remote_ip IP_PROTOCOL_UDP local_port 64
    (udp_datagram local_ip remote_ip local_port remote_port payload).

(** The probe sent at start-up: a query for example.com without checksum. *)
Definition dns_probe : list Z :=
  let m := replicate 29 0 in
  let m := write_u16 m 0 0x564e in
  let m := write_u16 m 2 0x0100 in
  let m := write_u16 m 4 1 in
  let m := splice m 12 [7; 101; 120; 97; 109; 112; 108; 101; 3; 99; 111; 109; 0] in
  let m := write_u16 m 25 1 in
  write_u16 m 27 1.
Definition udp_dns_query (local_mac gateway_mac local_ip dns_ip : list Z) : list Z :=
  gateway_mac ++ local_mac ++ to_be 2 ETHERTYPE_IPV4 ++ ipv4_header 57 0x5650 0 64 IP_PROTOCOL_UDP local_ip dns_ip ++
  to_be 2 49152 ++ to_be 2 53 ++ to_be 2 37 ++ to_be 2 0 ++ dns_probe.

Definition is_udp_dns_reply (frame local_ip dns_ip : list Z) : res unit bool :=
  if (zlen frame <? 14 + 20 + 8 + 12) || negb (bool_decide (read_u16 frame 12 = Ok ETHERTYPE_IPV4)) then Ok false else
  v ← at_ frame 14; if negb (Z.shiftr v 4 =? 4) then Ok false else
  p ← at_ frame 23; if negb (p =? IP_PROTOCOL_UDP) then Ok false else
  s ← range frame 26 30; if negb (bool_decide (s = dns_ip)) then Ok false else
  d ← range frame 30 34; if negb (bool_decide (d = local_ip)) then Ok false else
  h ← range frame 14 34; if negb (valid_checksum h) then Ok false else
  let length := match read_u16 frame 38 with Ok t => t | _ => 0 end in
  if (length <? 20) || (zlen frame <? 34 + length) then Ok false else
  Ok (bool_decide (read_u16 frame 34 = Ok 53) && bool_decide (read_u16 frame 36 = Ok 49152) &&
      bool_decide (read_u16 frame 42 = Ok 0x564e) &&
      match read_u16 frame 44 with Ok f => negb (Z.land f 0x8000 =? 0) | _ => false end).

(** ** TCP *)

Definition parse_tcp (payload s d : list Z) : opt (TcpHeader * list Z) :=
  _ ← none_if (zlen payload <? TCP_HEADER_SIZE);
  sp ← read_u16 payload 0; dp ← read_u16 payload 2; sq ← read_u32 payload 4; ak ← read_u32 payload 8;
  o ← at_ payload 12; let offset := Z.shiftr o 4 * 4 in
  f ← at_ payload 13; w ← read_u16 payload 14; c ← read_u16 payload 16; u ← read_u16 payload 18;
  _ ← none_if ((offset <? TCP_HEADER_SIZE) || (zlen payload <? offset));
  _ ← none_if (negb (valid_tcp_checksum s d payload));
  rest ← range payload offset (zlen payload);
  Ok ({| src_port := sp; dest_port := dp; sequence := sq; acknowledgement := ak; data_offset := offset; flags := f;
         window_size := w; tcp_check := c; urgent_pointer := u |}, rest).

Definition tcp_buf (s d : list Z) (local_port remote_port seq ack fl window : Z) (payload : list Z) : list Z :=
  let b := to_be 2 local_port ++ to_be 2 remote_port ++ to_be 4 seq ++ to_be 4 ack ++ [0x50; fl] ++ to_be 2 window ++
           [0; 0] ++ [0; 0] ++ payload in
  write_u16 b 16 (nonzero_checksum (tcp_checksum s d b)).
Definition build_tcp_frame (local_mac remote_mac local_ip remote_ip : list Z) (local_port remote_port seq ack fl window : Z)
    (payload : list Z) : list Z :=
  build_ipv4_packet local_mac remote_mac local_ip remote_ip IP_PROTOCOL_TCP (u16 seq) 64
    (tcp_buf local_ip remote_ip local_port remote_port seq ack fl window payload).

(** The same segment in a buffer of fixed capacity. *)
Definition tcp_segment (local_mac remote_mac local_ip remote_ip : list Z) (local_port remote_port seq ack fl : Z)
    (payload : list Z) : opt TcpFrame :=
  _ ← none_if (MAX_TCP_PAYLOAD <? zlen payload);
  let length := ETHERNET_HEADER_SIZE + IPV4_HEADER_SIZE + TCP_HEADER_SIZE + zlen payload in
  let b := replicate (Z.to_nat TCP_FRAME_CAPACITY) 0 in
  let b := splice b 0 remote_mac in
  let b := splice b 6 local_mac in
  let b := write_u16 b 12 ETHERTYPE_IPV4 in
  let b := splice b 14 [0x45] in
  let b := write_u16 b 16 (u16 (IPV4_HEADER_SIZE + TCP_HEADER_SIZE + zlen payload)) in
  let b := write_u16 b 18 (u16 seq) in
  let b := splice b 20 [0x40] in
  let b := splice b 22 [64] in
  let b := splice b 23 [IP_PROTOCOL_TCP] in
  let b := splice b 26 local_ip in
  let b := splice b 30 remote_ip in
  h ← range b 14 34;
  let b := write_u16 b 24 (checksum h) in
  let b := write_u16 b 34 local_port in
  let b := write_u16 b 36 remote_port in
  let b := write_u32 b 38 seq in
  let b := write_u32 b 42 ack in
  let b := splice b 46 [0x50] in
  let b := splice b 47 [fl] in
  let b := write_u16 b 48 0xffff in
  let b := splice b 54 payload in
  t ← range b 34 length;
  Ok {| frame_bytes := write_u16 b 50 (nonzero_checksum (tcp_checksum local_ip remote_ip t)); frame_length := length |}.

Definition tcp_reply (frame local_mac remote_mac local_ip remote_ip : list Z) (local_port remote_port : Z) : opt TcpSegment :=
  _ ← none_if (zlen frame <? ETHERNET_HEADER_SIZE + IPV4_HEADER_SIZE + TCP_HEADER_SIZE);
  m ← range frame 0 6; _ ← none_if (negb (bool_decide (m = local_mac)));
  m ← range frame 6 12; _ ← none_if (negb (bool_decide (m = remote_mac)));
  _ ← none_if (negb (bool_decide (read_u16 frame 12 = Ok ETHERTYPE_IPV4)));
  v ← at_ frame 14; _ ← none_if (negb (Z.shiftr v 4 =? 4));
  p ← at_ frame 23; _ ← none_if (negb (p =? IP_PROTOCOL_TCP));
  s ← range frame 26 30; _ ← none_if (negb (bool_decide (s = remote_ip)));
  d ← range frame 30 34; _ ← none_if (negb (bool_decide (d = local_ip)));
  let header_length := Z.land v 0x0f * 4 in
  total ← read_u16 frame 16;
  _ ← none_if ((header_length <? IPV4_HEADER_SIZE) || (total <? header_length + TCP_HEADER_SIZE) || (zlen frame <? 14 + total));
  h ← range frame 14 (14 + header_length); _ ← none_if (negb (valid_checksum h));
  let tcp := 14 + header_length in
  let tcp_length := total - header_length in
  o ← at_ frame (tcp + 12);
  let tcp_header_length := Z.shiftr o 4 * 4 in
  _ ← none_if ((tcp_header_length <? TCP_HEADER_SIZE) || (tcp_length <? tcp_header_length) ||
       negb (bool_decide (read_u16 frame tcp = Ok remote_port)) || negb (bool_decide (read_u16 frame (tcp + 2) = Ok local_port)));
  t ← range frame tcp (14 + total); _ ← none_if (negb (valid_tcp_checksum remote_ip local_ip t));
  sq ← read_u32 frame (tcp + 4); ak ← read_u32 frame (tcp + 8); f ← at_ frame (tcp + 13);
  payload ← range frame (tcp + tcp_header_length) (14 + total);
  Ok {| seg_sequence := sq; seg_acknowledgement := ak; seg_flags := f; seg_payload := payload |}.
