(* ===== verification/NetSpec.v ===== *)
(** * Frames arrive as they were built

    The checksums that the builders write are the ones the parsers accept,
    every field of a built frame is read back, and no input makes a parser
    index out of range. *)

From stdpp Require Import list.
From S2P Require Import Prelude Words Dns Net.

(** ** The Internet checksum *)

(** The sum of the 16-bit words of a byte string. *)
Fixpoint wsum (bytes : list Z) : Z :=
  match bytes with a :: b :: rest => a * 256 + b + wsum rest | [a] => a * 256 | [] => 0 end.

Lemma pair_ind {A} (P : list A → Prop) : P [] → (∀ a, P [a]) → (∀ a b l, P l → P (a :: b :: l)) → ∀ l, P l.
Proof.
  intros H0 H1 H2. assert (∀ n l, (length l ≤ n)%nat → P l) as H; [|intros l; by apply (H (length l))].
  induction n as [|n IH]; intros [|a [|b l]] Hl; cbn in *; auto with lia; try lia.
Qed.

Lemma wsum_range l : bytes l → 0 ≤ wsum l ∧ 2 * wsum l ≤ 65535 * (zlen l + 1).
Proof.
  induction l as [|a|a b l IH] using pair_ind; intros Hb; cbn [wsum length].
  - lia.
  - apply Forall_cons in Hb as [Ha _]. unfold is_u in Ha. cbn. lia.
  - apply Forall_cons in Hb as [Ha Hb]. apply Forall_cons in Hb as [Hb Hl]. destruct (IH Hl). unfold is_u in *. lia.
Qed.

Lemma wsum_app x y : (length x `mod` 2 = 0)%nat → wsum (x ++ y) = wsum x + wsum y.
Proof.
  induction x as [|a|a b x IH] using pair_ind; intros Hx; [done|done|]. cbn [wsum app].
  rewrite IH; [lia|]. cbn [length] in Hx. replace (S (S (length x))) with (length x + 1 * 2)%nat in Hx by lia. by rewrite Nat.Div0.mod_add in Hx.
Qed.

Lemma from_be2 a b : from_be [a; b] = a * 256 + b.
Proof. unfold from_be. cbn. lia. Qed.

Lemma add_sum l : ∀ sum, 0 ≤ sum → bytes l → sum + wsum l < 2 ^ 32 → add_ones_complement_sum sum l = sum + wsum l.
Proof.
  induction l as [|a|a b l IH] using pair_ind; intros sum Hs Hb Hm; cbn [add_ones_complement_sum wsum] in *.
  - lia.
  - apply Forall_cons in Hb as [Ha _]. rewrite Z.shiftl_mul_pow2 by done. unfold is_u in Ha. apply wrap_small. unfold is_u. lia.
  - apply Forall_cons in Hb as [Ha Hb]. apply Forall_cons in Hb as [Hb Hl]. pose proof (wsum_range l Hl). rewrite from_be2.
    unfold is_u in Ha, Hb. rewrite wrap_small by (unfold is_u; lia). rewrite IH; [lia|lia|done|lia].
Qed.

(** Folding is reduction modulo [2^16 - 1] with residues from 1. *)
Definition residue (s : Z) : Z := if s =? 0 then 0 else (s - 1) mod 65535 + 1.

Lemma fold_round s : 65536 ≤ s < 2 ^ 32 →
  let x := Z.land s 0xffff + Z.shiftr s 16 in u32 x = x ∧ 1 ≤ x < 2 ^ 17 - 1 ∧ residue x = residue s ∧ (s < 2 ^ 17 - 1 → x < 65536).
Proof.
  intros Hs x. assert (Hx : x = s mod 65536 + s / 65536).
  { unfold x. change 0xffff with (2 ^ 16 - 1). rewrite land_mask by done. by rewrite Z.shiftr_div_pow2. }
  pose proof (Z.mod_pos_bound s 65536 ltac:(lia)). pose proof (Z.div_mod s 65536 ltac:(lia)) as Hd.
  assert (1 ≤ s / 65536 < 65536) by (split; [apply Z.div_le_lower_bound; lia|apply Z.div_lt_upper_bound; lia]).
  split; [apply wrap_small; unfold is_u; lia|]. split; [lia|]. split; [|lia]. unfold residue.
  rewrite (proj2 (Z.eqb_neq x 0)), (proj2 (Z.eqb_neq s 0)) by lia. f_equal.
  replace (s - 1) with (x - 1 + (s / 65536) * 65535) by lia. by rewrite Z.mod_add.
Qed.

Lemma fold_rounds_small n s : 0 ≤ s < 65536 → fold_rounds (S n) s = residue s.
Proof.
  intros Hs. cbn. rewrite Z.shiftr_div_pow2, Z.div_small by lia. rewrite wrap_small by (unfold is_u; lia).
  unfold residue. destruct (Z.eqb_spec s 0); [done|]. rewrite Z.mod_small by lia. cbn. lia.
Qed.

Lemma fold_spec s : 0 ≤ s < 2 ^ 32 → fold_ones_complement_sum s = residue s.
Proof.
  intros Hs. unfold fold_ones_complement_sum. destruct (decide (s < 65536)); [apply fold_rounds_small; lia|].
  assert (Hstep : ∀ k s, 65536 ≤ s < 2 ^ 32 → fold_rounds (S k) s = fold_rounds k (Z.land s 0xffff + Z.shiftr s 16)).
  { intros k t Ht. cbn. rewrite (proj2 (Z.eqb_neq _ 0)); [by rewrite (proj1 (fold_round t Ht))|].
    rewrite Z.shiftr_div_pow2 by done. change (2 ^ 16) with 65536. assert (1 ≤ t / 65536) by (apply Z.div_le_lower_bound; lia). lia. }
  destruct (fold_round s) as (_ & H1 & <- & _); [lia|]. rewrite Hstep by lia. set (x := Z.land s 0xffff + Z.shiftr s 16) in *.
  destruct (decide (x < 65536)); [apply fold_rounds_small; lia|].
  destruct (fold_round x) as (_ & H2 & <- & H3); [lia|]. rewrite Hstep by lia. apply fold_rounds_small. lia.
Qed.

Lemma bnot16 f : is_u 16 f → bnot 16 f = 65535 - f.
Proof.
  intros [H0 H1]. unfold bnot. rewrite <- Z.sub_nocarry_ldiff; [done|]. destruct (decide (f = 0)) as [->|]; [done|].
  apply Z.ldiff_ones_r_low; [done|]. apply Z.log2_lt_pow2; lia.
Qed.

Lemma residue_range s : 0 ≤ s → is_u 16 (residue s).
Proof. intros Hs. unfold residue, is_u. destruct (Z.eqb_spec s 0); [lia|]. pose proof (Z.mod_pos_bound (s - 1) 65535 ltac:(lia)). lia. Qed.

(** The complement added to the sum gives all ones, and zero may be replaced
    by its other representation. *)
Lemma residue_complement s c : 0 ≤ s → c = bnot 16 (residue s) ∨ c = nonzero_checksum (bnot 16 (residue s)) → residue (s + c) = 0xffff.
Proof.
  intros Hs Hc. rewrite bnot16 in Hc by (by apply residue_range). unfold nonzero_checksum in Hc. assert (Hk : ∃ k, 1 ≤ s + c ∧ s + c = k * 65535).
  { unfold residue in Hc. destruct (Z.eqb_spec s 0) as [->|]; [exists 1; destruct Hc as [->| ->]; vm_compute; split; congruence|].
    pose proof (Z.div_mod (s - 1) 65535 ltac:(lia)). pose proof (Z.mod_pos_bound (s - 1) 65535 ltac:(lia)).
    destruct (Z.eqb_spec (65535 - ((s - 1) mod 65535 + 1)) 0).
    - destruct Hc as [->| ->]; [exists ((s - 1) / 65535 + 1)|exists ((s - 1) / 65535 + 2)]; lia.
    - exists ((s - 1) / 65535 + 1). lia. }
  destruct Hk as (k & H1 & Hk). unfold residue. rewrite (proj2 (Z.eqb_neq _ 0)) by lia.
  replace (s + c - 1) with (65534 + (k - 1) * 65535) by lia. by rewrite Z.mod_add.
Qed.

(** ** Fields *)

Lemma to_be_length n z : length (to_be n z) = n.
Proof. unfold to_be. by rewrite length_reverse, length_to_le. Qed.
Lemma to_be_bytes n z : bytes (to_be n z).
Proof. unfold to_be. apply Forall_reverse, to_le_bytes. Qed.
Lemma from_to_be n z : is_u (8 * Z.of_nat n) z → from_be (to_be n z) = z.
Proof. intros Hz. unfold from_be, to_be. rewrite reverse_involutive. by apply from_to_le_small. Qed.
Lemma wsum_to_be v : is_u 16 v → wsum (to_be 2 v) = v.
Proof.
  intros Hv. rewrite <- (from_to_be 2 v) at 2 by done. pose proof (to_be_length 2 v). destruct (to_be 2 v) as [|a [|b [|]]]; try done.
  rewrite from_be2. cbn. lia.
Qed.

Lemma slice_app_left {A} (x y : list A) a b : b ≤ zlen x → slice (x ++ y) a b = slice x a b.
Proof.
  intros Hb. unfold slice. case_bool_decide as H1; case_bool_decide as H2; try done.
  - f_equal. rewrite !drop_app, !take_app, length_drop. replace (Z.to_nat (b - a) - (length x - Z.to_nat a))%nat with 0%nat by lia.
    cbn. by rewrite app_nil_r.
  - exfalso. lia.
  - exfalso. rewrite length_app in H1. lia.
Qed.

Lemma slice_rest {A} (x y : list A) a b : a = zlen x → b = zlen x + zlen y → slice (x ++ y) a b = Some y.
Proof. intros -> ->. rewrite slice_skip by lia. replace (zlen x - zlen x) with 0 by lia. apply slice_all. lia. Qed.

(** Fields of a packet [p] that has them at the given place. *)
Lemma get16 p o x v y : p = x ++ to_be 2 v ++ y → o = zlen x → is_u 16 v → read_u16 p o = Ok v.
Proof.
  intros -> -> Hv. unfold read_u16. rewrite slice_skip, Z.sub_diag by lia. rewrite (slice_head _ y) by (rewrite to_be_length; lia).
  cbn [fmap option_fmap option_map ok_or]. by rewrite from_to_be.
Qed.
Lemma get32 p o x v y : p = x ++ to_be 4 v ++ y → o = zlen x → is_u 32 v → read_u32 p o = Ok v.
Proof.
  intros -> -> Hv. unfold read_u32. rewrite slice_skip, Z.sub_diag by lia. rewrite (slice_head _ y) by (rewrite to_be_length; lia).
  cbn [fmap option_fmap option_map ok_or]. by rewrite from_to_be.
Qed.
Lemma get_range p a b x y z : p = x ++ y ++ z → a = zlen x → b = zlen x + zlen y → range p a b = Ok y.
Proof. intros -> -> ->. unfold range. rewrite slice_skip, Z.sub_diag, slice_head by lia. done. Qed.
Lemma get_rest p a b x y : p = x ++ y → a = zlen x → b = zlen p → range p a b = Ok y.
Proof. intros -> -> ->. unfold range. rewrite slice_rest; [done|done|]. rewrite length_app. lia. Qed.
Lemma get8 p i x v y : p = x ++ [v] ++ y → i = zlen x → at_ p i = Ok v.
Proof.
  intros Hp Hi. pose proof (get_range p i (i + 1) x [v] y Hp Hi ltac:(subst; done)) as Hr. unfold at_, range in *. rewrite index_slice.
  destruct (slice p i (i + 1)) as [[|? [|]]|]; simplify_eq/=; done.
Qed.

Lemma write_field x y z o v : o = zlen x → length z = 2%nat → write_u16 (x ++ z ++ y) o v = x ++ to_be 2 v ++ y.
Proof.
  intros -> Hz. unfold write_u16, splice. rewrite Nat2Z.id, to_be_length. rewrite take_app_length. do 2 f_equal.
  rewrite <- drop_drop, drop_app_length. rewrite <- Hz. apply drop_app_length.
Qed.

(** One step of a parser whose test passes. *)
Ltac next := cbn [guard_err mbind res_bind].

(** ** The checksum that is written is accepted *)

Lemma checksum_written x y c : (length x `mod` 2 = 0)%nat → bytes x → bytes y → zlen x + zlen y ≤ 65535 →
  c = checksum (x ++ [0; 0] ++ y) → valid_checksum (x ++ to_be 2 c ++ y) = true.
Proof.
  intros Hx Hbx Hby Hl Hc. pose proof (wsum_range x Hbx). pose proof (wsum_range y Hby). unfold checksum, ones_complement_sum in Hc.
  assert (Hz : bytes (x ++ [0; 0] ++ y)) by (rewrite !Forall_app; unfold is_u; repeat split; try done; repeat constructor; lia).
  assert (Hs : wsum (x ++ [0; 0] ++ y) = wsum x + wsum y) by (rewrite wsum_app by done; cbn; lia).
  rewrite (add_sum _ 0), Hs, Z.add_0_l, fold_spec in Hc by (done || lia).
  assert (Hu : is_u 16 c) by (rewrite Hc; pose proof (residue_range (wsum x + wsum y) ltac:(lia)) as Hr; rewrite bnot16 by done; unfold is_u in *; lia).
  unfold valid_checksum, ones_complement_sum. apply Z.eqb_eq.
  assert (Hs' : wsum (x ++ to_be 2 c ++ y) = wsum x + wsum y + c).
  { rewrite wsum_app, wsum_app, wsum_to_be by (done || by rewrite to_be_length). lia. }
  unfold is_u in Hu. rewrite (add_sum _ 0), Hs', Z.add_0_l, fold_spec; [|lia|lia| |lia].
  - apply residue_complement; [lia|by left].
  - rewrite !Forall_app. repeat split; try done. apply to_be_bytes.
Qed.

(** The same with a pseudo header, for UDP and TCP. *)
Lemma pseudo_sum_eq proto s d b : bytes s → bytes d → bytes b → is_u 8 proto → length s = 4%nat → length d = 4%nat → zlen b < 65536 →
  pseudo_sum proto s d b = wsum s + wsum d + proto + zlen b + wsum b.
Proof.
  intros Hs Hd Hb Hp Hls Hld Hl. pose proof (wsum_range s Hs). pose proof (wsum_range d Hd). pose proof (wsum_range b Hb).
  unfold pseudo_sum. assert (Hlen : u16 (zlen b) = zlen b) by (apply wrap_small; unfold is_u; lia). rewrite Hlen.
  assert (wsum (to_be 2 (zlen b)) = zlen b) as Hw by (apply wsum_to_be; unfold is_u; lia). unfold is_u in Hp.
  assert (wsum [0; proto] = proto) as Hpr by (cbn; lia).
  rewrite (add_sum s), (add_sum d), (add_sum [0; proto]), (add_sum (to_be 2 _)), (add_sum b);
    rewrite ?Hw, ?Hpr; try done; try lia; try apply to_be_bytes. repeat constructor; unfold is_u; lia.
Qed.

Lemma pseudo_written proto s d x y c : bytes s → bytes d → is_u 8 proto → length s = 4%nat → length d = 4%nat →
  (length x `mod` 2 = 0)%nat → bytes x → bytes y → zlen x + 2 + zlen y < 65536 →
  c = nonzero_checksum (bnot 16 (fold_ones_complement_sum (pseudo_sum proto s d (x ++ [0; 0] ++ y)))) →
  is_u 16 c ∧ fold_ones_complement_sum (pseudo_sum proto s d (x ++ to_be 2 c ++ y)) = 0xffff.
Proof.
  intros Hs Hd Hp Hls Hld Hx Hbx Hby Hl Hc.
  pose proof (wsum_range s Hs). pose proof (wsum_range d Hd). pose proof (wsum_range x Hbx). pose proof (wsum_range y Hby).
  assert (Hz : bytes (x ++ [0; 0] ++ y)) by (rewrite !Forall_app; unfold is_u; repeat split; try done; repeat constructor; lia).
  assert (Hw : wsum (x ++ [0; 0] ++ y) = wsum x + wsum y) by (rewrite wsum_app by done; cbn; lia).
  assert (Hlz : zlen (x ++ [0; 0] ++ y) = zlen x + 2 + zlen y) by (rewrite !length_app; cbn; lia).
  rewrite pseudo_sum_eq, Hw, Hlz, fold_spec in Hc by (done || (unfold is_u in *; lia)). set (t := wsum s + wsum d + proto + _ + _) in *.
  assert (Ht : 0 ≤ t) by (unfold t, is_u in *; lia).
  assert (Hu : is_u 16 c).
  { pose proof (residue_range t Ht) as Hr. rewrite bnot16 in Hc by done. unfold nonzero_checksum in Hc. unfold is_u in *. case_match; lia. }
  split; [done|]. assert (Hbc : bytes (x ++ to_be 2 c ++ y)) by (rewrite !Forall_app; repeat split; try done; apply to_be_bytes).
  assert (Hlc : zlen (x ++ to_be 2 c ++ y) = zlen x + 2 + zlen y) by (rewrite !length_app, to_be_length; lia).
  assert (Hwc : wsum (x ++ to_be 2 c ++ y) = wsum x + wsum y + c).
  { rewrite wsum_app, wsum_app, wsum_to_be by (done || by rewrite to_be_length). lia. }
  rewrite pseudo_sum_eq, Hwc, Hlc by (done || lia). replace (wsum s + wsum d + proto + _ + _) with (t + c) by (unfold t; lia).
  rewrite fold_spec by (unfold t, is_u in *; lia). apply residue_complement; [done|by right].
Qed.

(** ** IPv4 *)

Definition mac (m : list Z) : Prop := length m = 6%nat ∧ bytes m.
Definition ip (a : list Z) : Prop := length a = 4%nat ∧ bytes a.

(** The first ten bytes of the header. *)
Definition ipv4_front (total id frag ttl_ proto : Z) : list Z :=
  [0x45; 0] ++ to_be 2 (u16 total) ++ to_be 2 id ++ to_be 2 frag ++ [ttl_; proto].

Lemma ipv4_header_shape total id frag ttl_ proto s d : length s = 4%nat → length d = 4%nat →
  ipv4_header total id frag ttl_ proto s d =
  ipv4_front total id frag ttl_ proto ++ to_be 2 (checksum (ipv4_front total id frag ttl_ proto ++ [0; 0] ++ s ++ d)) ++ s ++ d.
Proof.
  intros Hs Hd. do 5 (destruct s as [|? s]; [try done|]; try done). do 5 (destruct d as [|? d]; [try done|]; try done).
Qed.

Lemma ipv4_front_bytes total id frag ttl_ proto : is_u 8 ttl_ → is_u 8 proto →
  bytes (ipv4_front total id frag ttl_ proto) ∧ length (ipv4_front total id frag ttl_ proto) = 10%nat.
Proof.
  intros Ht Hp. unfold ipv4_front. split; [|reflexivity]. rewrite !Forall_app. repeat split; try apply to_be_bytes; repeat constructor; unfold is_u in *; lia.
Qed.

Record ipv4_args (id frag ttl_ proto : Z) (s d : list Z) : Prop := {
  ia_id : is_u 16 id; ia_frag : is_u 16 frag; ia_ttl : is_u 8 ttl_; ia_proto : is_u 8 proto; ia_s : ip s; ia_d : ip d }.

(** The header of a packet is read back, the checksum is right, and bytes
    behind the packet (the padding of a short frame) are cut off. *)
Lemma parse_ipv4_header id frag ttl_ proto s d payload pad : ipv4_args id frag ttl_ proto s d → 20 + zlen payload < 65536 →
  ∃ c, parse_ipv4 (ipv4_header (20 + zlen payload) id frag ttl_ proto s d ++ payload ++ pad) =
    Ok ({| version := 4; ihl := 5; tos := 0; total_length := 20 + zlen payload; ip_id := id; flags_fragment := frag; ttl := ttl_;
           protocol := proto; ip_checksum := c; src_ip := s; dest_ip := d |}, payload).
Proof.
  intros [Hid Hfr Htt Hpr [Hls Hbs] [Hld Hbd]] Hl. set (total := 20 + zlen payload) in *.
  assert (Htot : u16 total = total) by (apply wrap_small; unfold is_u, total; lia).
  destruct (ipv4_front_bytes total id frag ttl_ proto Htt Hpr) as [Hbf Hlf].
  rewrite ipv4_header_shape by done. set (c := checksum _). exists c.
  assert (Hv : valid_checksum (ipv4_front total id frag ttl_ proto ++ to_be 2 c ++ s ++ d) = true).
  { apply checksum_written; [by rewrite Hlf|done|by apply Forall_app|rewrite length_app; lia|done]. }
  assert (Hc : is_u 16 c).
  { unfold c, checksum, ones_complement_sum. set (z := _ ++ _). assert (bytes z ∧ zlen z = 20) as [Hz Hlz].
    { unfold z. split; [rewrite !Forall_app; repeat split; try done; repeat constructor; unfold is_u; lia|rewrite !length_app, Hlf, Hls, Hld; done]. }
    pose proof (wsum_range z Hz). rewrite add_sum, Z.add_0_l, fold_spec by (done || lia). pose proof (residue_range (wsum z) ltac:(lia)).
    rewrite bnot16 by done. unfold is_u in *. lia. }
  set (h := ipv4_front total id frag ttl_ proto ++ to_be 2 c ++ s ++ d) in *.
  assert (Hh : zlen h = 20) by (unfold h; rewrite !length_app, Hlf, to_be_length, Hls, Hld; done).
  set (P := h ++ payload ++ pad). assert (HP : zlen P = 20 + zlen payload + zlen pad) by (unfold P; rewrite !length_app; lia).
  unfold parse_ipv4, none_if. rewrite HP, (proj2 (Z.ltb_ge _ IPV4_HEADER_SIZE)) by (unfold IPV4_HEADER_SIZE; lia). next.
  rewrite (get8 P 0 [] 0x45 (drop 1 P)) by reflexivity. next. change (Z.shiftr 69 4) with 4. change (Z.land 69 15 * 4) with 20.
  rewrite (proj2 (Z.ltb_ge (_ + _ + _) 20)) by lia. cbn [guard_err mbind res_bind Z.eqb negb orb Z.ltb Z.compare Pos.compare Pos.compare_cont].
  rewrite (get_range P 0 20 [] h (payload ++ pad)) by done. next. rewrite Hv. cbn [negb guard_err mbind res_bind].
  rewrite (get8 P 1 [0x45] 0 (drop 2 P)) by reflexivity. next.
  rewrite (get16 P 2 [0x45; 0] total (drop 4 P)) by (done || (unfold P, h, ipv4_front; by rewrite Htot) || (unfold is_u, total; lia)). next.
  rewrite (get16 P 4 (take 4 P) id (drop 6 P)) by done. next. rewrite (get16 P 6 (take 6 P) frag (drop 8 P)) by done. next.
  rewrite (get8 P 8 (take 8 P) ttl_ (drop 9 P)) by done. next. rewrite (get8 P 9 (take 9 P) proto (drop 10 P)) by done. next.
  rewrite (get16 P 10 (ipv4_front total id frag ttl_ proto) c (s ++ d ++ payload ++ pad)) by (done || (unfold P, h; rewrite <- !app_assoc; done)). next.
  rewrite (get_range P 12 16 (take 12 P) s (d ++ payload ++ pad)) by (done || (unfold P, h; rewrite <- !app_assoc; done) || (rewrite Hls; done)). next.
  rewrite (get_range P 16 20 (take 12 P ++ s) d (payload ++ pad)) by (rewrite ?length_app, ?Hls, ?Hld, <- ?app_assoc; unfold P, h; rewrite <- ?app_assoc; done). next.
  replace (Z.min total (20 + zlen payload + zlen pad)) with total by lia. rewrite (proj2 (Z.ltb_ge total 20)) by lia. next.
  unfold range, P. rewrite slice_skip, Hh, slice_head by lia. reflexivity.
Qed.

(** ** UDP, TCP and ICMP *)

Definition udp_front (lp rp len : Z) : list Z := to_be 2 lp ++ to_be 2 rp ++ to_be 2 len.

Lemma parse_udp_datagram s d lp rp payload : ip s → ip d → is_u 16 lp → is_u 16 rp → bytes payload → 8 + zlen payload < 65536 →
  ∃ c, parse_udp (udp_datagram s d lp rp payload) s d =
    Ok ({| udp_src_port := lp; udp_dest_port := rp; udp_length := 8 + zlen payload; udp_check := c |}, payload).
Proof.
  intros [Hls Hbs] [Hld Hbd] Hlp Hrp Hb Hl. unfold udp_datagram, UDP_HEADER_SIZE. set (len := 8 + zlen payload) in *.
  assert (Hlen : u16 len = len) by (apply wrap_small; unfold is_u, len; lia). rewrite Hlen. set (X := udp_front lp rp len).
  replace (to_be 2 lp ++ to_be 2 rp ++ to_be 2 len ++ [0; 0] ++ payload) with (X ++ [0; 0] ++ payload) by (unfold X, udp_front; by rewrite <- !app_assoc).
  rewrite write_field by done. set (c := nonzero_checksum _). exists c.
  assert (HbX : bytes X) by (unfold X, udp_front; rewrite !Forall_app; repeat split; apply to_be_bytes).
  destruct (pseudo_written IP_PROTOCOL_UDP s d X payload c) as [Hc Hv]; try (done || (unfold is_u, IP_PROTOCOL_UDP; lia)).
  set (P := X ++ to_be 2 c ++ payload) in *. assert (HP : zlen P = len) by (unfold P; rewrite !length_app; cbn [length]; unfold len; change (length X) with 6%nat; rewrite to_be_length; lia).
  unfold parse_udp, none_if, UDP_HEADER_SIZE. rewrite HP, (proj2 (Z.ltb_ge len 8)) by lia. next.
  rewrite (get16 P 0 [] lp (drop 2 P)) by done. next. rewrite (get16 P 2 (take 2 P) rp (drop 4 P)) by done. next.
  rewrite (get16 P 4 (take 4 P) len (drop 6 P)) by (done || (unfold is_u; lia)). next. rewrite (get16 P 6 X c payload) by done. next.
  rewrite Z.min_id, (proj2 (Z.ltb_ge len 8)) by lia. next. rewrite (get_rest P 0 len [] P) by done. next.
  assert (valid_udp_checksum s d P = true) as -> by (by apply Z.eqb_eq). rewrite andb_false_r. next.
  rewrite (get_rest P 8 len (take 8 P) payload) by done. done.
Qed.

Definition tcp_front (lp rp seq ack fl window : Z) : list Z :=
  to_be 2 lp ++ to_be 2 rp ++ to_be 4 seq ++ to_be 4 ack ++ [0x50; fl] ++ to_be 2 window.

Record tcp_args (lp rp seq ack fl window : Z) (payload : list Z) : Prop := {
  ta_lp : is_u 16 lp; ta_rp : is_u 16 rp; ta_seq : is_u 32 seq; ta_ack : is_u 32 ack; ta_fl : is_u 8 fl; ta_window : is_u 16 window;
  ta_payload : bytes payload; ta_length : 20 + (20 + zlen payload) < 65536 }.

Lemma tcp_buf_shape s d lp rp seq ack fl window payload : tcp_buf s d lp rp seq ack fl window payload =
  let X := tcp_front lp rp seq ack fl window in
  X ++ to_be 2 (nonzero_checksum (tcp_checksum s d (X ++ [0; 0] ++ [0; 0] ++ payload))) ++ [0; 0] ++ payload.
Proof. exact (write_field (tcp_front lp rp seq ack fl window) ([0; 0] ++ payload) [0; 0] 16 _ eq_refl eq_refl). Qed.

Lemma tcp_front_bytes lp rp seq ack fl window : is_u 8 fl → bytes (tcp_front lp rp seq ack fl window).
Proof. intros Hf. unfold tcp_front. rewrite !Forall_app. repeat split; try apply to_be_bytes. repeat constructor; unfold is_u in *; lia. Qed.

Lemma tcp_buf_valid s d lp rp seq ack fl window payload : ip s → ip d → tcp_args lp rp seq ack fl window payload →
  ∃ c, is_u 16 c ∧ tcp_buf s d lp rp seq ack fl window payload = tcp_front lp rp seq ack fl window ++ to_be 2 c ++ [0; 0] ++ payload ∧
    valid_tcp_checksum s d (tcp_buf s d lp rp seq ack fl window payload) = true.
Proof.
  intros [Hls Hbs] [Hld Hbd] [Hlp Hrp Hsq Hak Hfl Hw Hb Hl]. rewrite tcp_buf_shape. cbv zeta. set (X := tcp_front _ _ _ _ _ _). set (c := nonzero_checksum _).
  exists c. destruct (pseudo_written IP_PROTOCOL_TCP s d X ([0; 0] ++ payload) c) as [Hc Hv]; try (done || (unfold is_u, IP_PROTOCOL_TCP; lia)).
  - by apply tcp_front_bytes.
  - apply Forall_app. split; [|done]. repeat constructor; unfold is_u; lia.
  - change (zlen X) with 16. rewrite length_app. cbn [length]. lia.
  - split; [done|]. split; [done|]. by apply Z.eqb_eq.
Qed.

Definition header_of (lp rp seq ack fl window c : Z) : TcpHeader :=
  {| src_port := lp; dest_port := rp; sequence := seq; acknowledgement := ack; data_offset := 20; flags := fl; window_size := window;
     tcp_check := c; urgent_pointer := 0 |}.

Lemma parse_tcp_segment s d lp rp seq ack fl window payload : ip s → ip d → tcp_args lp rp seq ack fl window payload →
  ∃ c, parse_tcp (tcp_buf s d lp rp seq ack fl window payload) s d = Ok (header_of lp rp seq ack fl window c, payload).
Proof.
  intros Hs Hd Ha. destruct (tcp_buf_valid s d _ _ _ _ _ _ _ Hs Hd Ha) as (c & Hc & Hsh & Hv). exists c.
  destruct Ha as [Hlp Hrp Hsq Hak Hfl Hw Hb Hl]. set (P := tcp_buf _ _ _ _ _ _ _ _ _) in *.
  assert (HP : zlen P = 20 + zlen payload) by (rewrite Hsh, !length_app, to_be_length; change (length (tcp_front _ _ _ _ _ _)) with 16%nat; cbn [length]; lia).
  unfold parse_tcp, none_if, TCP_HEADER_SIZE. rewrite HP, (proj2 (Z.ltb_ge _ 20)) by lia. next. rewrite Hv, <- HP. clearbody P. rewrite Hsh in *. clear P Hsh.
  set (P := tcp_front _ _ _ _ _ _ ++ _) in *.
  rewrite (get16 P 0 [] lp (drop 2 P)) by done. next. rewrite (get16 P 2 (take 2 P) rp (drop 4 P)) by done. next.
  rewrite (get32 P 4 (take 4 P) seq (drop 8 P)) by done. next. rewrite (get32 P 8 (take 8 P) ack (drop 12 P)) by done. next.
  rewrite (get8 P 12 (take 12 P) 0x50 (drop 13 P)) by done. next. change (Z.shiftr 80 4 * 4) with 20.
  rewrite (get8 P 13 (take 13 P) fl (drop 14 P)) by done. next. rewrite (get16 P 14 (take 14 P) window (drop 16 P)) by done. next.
  rewrite (get16 P 16 (take 16 P) c ([0; 0] ++ payload)) by done. next. rewrite (get16 P 18 (take 18 P) 0 payload) by (done || (unfold is_u; lia)). next.
  rewrite HP, (proj2 (Z.ltb_ge (20 + zlen payload) 20)) by lia. rewrite (get_rest P 20 _ (take 20 P) payload) by (done || by rewrite HP). done.
Qed.

Lemma parse_icmp_message kind id seq data : is_u 8 kind → is_u 16 id → is_u 16 seq → bytes data → zlen data ≤ 65000 →
  ∃ c, parse_icmp (icmp_message kind id seq data) =
    Ok ({| msg_type := kind; code := 0; icmp_checksum := c; identifier := id; icmp_sequence := seq |}, data).
Proof.
  intros Hk Hi Hs Hb Hl. unfold icmp_message. set (Y := to_be 2 id ++ to_be 2 seq ++ data).
  change ([kind; 0; 0; 0] ++ Y) with ([kind; 0] ++ [0; 0] ++ Y). rewrite write_field by done. set (c := checksum _).
  assert (HbY : bytes Y) by (unfold Y; rewrite !Forall_app; repeat split; try done; apply to_be_bytes).
  assert (HlY : zlen Y = 4 + zlen data) by (unfold Y; rewrite !length_app, !to_be_length; lia).
  assert (Hb0 : bytes [kind; 0]) by (repeat constructor; unfold is_u in *; lia).
  assert (Hv : valid_checksum ([kind; 0] ++ to_be 2 c ++ Y) = true) by (apply checksum_written; [done..|cbn [length]; lia|done]).
  set (P := [kind; 0] ++ to_be 2 c ++ Y) in *. assert (HP : zlen P = 8 + zlen data) by (unfold P; rewrite !length_app, to_be_length; cbn [length]; lia).
  exists (match read_u16 P 2 with Ok v => v | _ => 0 end).
  unfold parse_icmp, none_if, ICMP_HEADER_SIZE. rewrite (proj2 (Z.ltb_ge _ 8)) by lia. next. rewrite Hv. cbn [negb]. next.
  rewrite (get8 P 0 [] kind (drop 1 P)) by done. next. rewrite (get8 P 1 [kind] 0 (drop 2 P)) by done. next.
  assert (∃ v, read_u16 P 2 = Ok v) as [v Hv2].
  { unfold read_u16. rewrite slice_in by lia. cbn [fmap option_fmap option_map ok_or]. eauto. }
  rewrite Hv2. next. rewrite (get16 P 4 (take 4 P) id (drop 6 P)) by done. next. rewrite (get16 P 6 (take 6 P) seq data) by done. next.
  rewrite (get_rest P 8 _ (take 8 P) data) by done. done.
Qed.

(** ** Whole frames *)

(** What [process_incoming_frame] takes from a frame before it looks at the
    protocol. *)
Definition deliver (frame : list Z) : opt (EthernetHeader * Ipv4Header * list Z) :=
  '(eth, p) ← parse_ethernet frame; '(h, body) ← parse_ipv4 p; Ok (eth, h, body).

Lemma parse_built_ethernet d s e payload : mac d → mac s → is_u 16 e →
  parse_ethernet (build_ethernet d s e payload) = Ok ({| dest_mac := d; src_mac := s; ethertype := e |}, payload).
Proof.
  intros [Hd _] [Hs _] He. unfold build_ethernet, parse_ethernet, none_if, ETHERNET_HEADER_SIZE. set (P := d ++ s ++ to_be 2 e ++ payload).
  assert (HP : zlen P = 14 + zlen payload) by (unfold P; rewrite !length_app, to_be_length, Hd, Hs; lia).
  rewrite (proj2 (Z.ltb_ge _ 14)) by lia. next. rewrite (get_range P 0 6 [] d (s ++ to_be 2 e ++ payload)) by (done || by rewrite Hd). next.
  rewrite (get_range P 6 12 d s (to_be 2 e ++ payload)) by (done || by rewrite ?Hd, ?Hs). next.
  rewrite (get16 P 12 (d ++ s) e payload) by (done || (unfold P; by rewrite <- app_assoc) || (by rewrite length_app, Hd, Hs)). next.
  rewrite (get_rest P 14 _ (d ++ s ++ to_be 2 e) payload); [done|unfold P; by rewrite <- !app_assoc|by rewrite !length_app, to_be_length, Hd, Hs|done].
Qed.

Lemma deliver_built smac dmac s d proto id ttl_ payload pad : mac smac → mac dmac → ipv4_args id 0x4000 ttl_ proto s d → 20 + zlen payload < 65536 →
  ∃ h, deliver (build_ipv4_packet smac dmac s d proto id ttl_ payload ++ pad) =
    Ok ({| dest_mac := dmac; src_mac := smac; ethertype := ETHERTYPE_IPV4 |}, h, payload) ∧
    src_ip h = s ∧ dest_ip h = d ∧ protocol h = proto ∧ ttl h = ttl_ ∧ ip_id h = id.
Proof.
  intros Hsm Hdm Ha Hl. destruct (parse_ipv4_header id 0x4000 ttl_ proto s d payload pad Ha Hl) as [c Hp]. eexists. unfold deliver, build_ipv4_packet.
  pose proof (parse_built_ethernet dmac smac ETHERTYPE_IPV4) as He. unfold build_ethernet in He.
  rewrite <- !app_assoc, He by (done || (unfold is_u, ETHERTYPE_IPV4; lia)). next. unfold IPV4_HEADER_SIZE. rewrite Hp. next. split; [done|]. done.
Qed.

(** A TCP frame is received as it was built. *)
Lemma deliver_tcp lmac rmac lip rip lp rp pad seq ack fl window payload : mac lmac → mac rmac → ip lip → ip rip →
  tcp_args lp rp seq ack fl window payload →
  ∃ h b c, deliver (build_tcp_frame lmac rmac lip rip lp rp seq ack fl window payload ++ pad) =
      Ok ({| dest_mac := rmac; src_mac := lmac; ethertype := ETHERTYPE_IPV4 |}, h, b) ∧
    src_ip h = lip ∧ dest_ip h = rip ∧ protocol h = IP_PROTOCOL_TCP ∧
    parse_tcp b lip rip = Ok (header_of lp rp seq ack fl window c, payload).
Proof.
  intros Hlm Hrm Hli Hri Ha. destruct (parse_tcp_segment lip rip _ _ _ _ _ _ _ Hli Hri Ha) as [c Hc].
  destruct (tcp_buf_valid lip rip _ _ _ _ _ _ _ Hli Hri Ha) as (c' & _ & Hsh & _).
  destruct (deliver_built lmac rmac lip rip IP_PROTOCOL_TCP (u16 seq) 64 (tcp_buf lip rip lp rp seq ack fl window payload) pad) as (h & Hd & H1 & H2 & H3 & _); try done.
  - split; try done; try (unfold is_u, IP_PROTOCOL_TCP; lia). apply wrap_range. done.
  - rewrite Hsh, !length_app, to_be_length. change (length (tcp_front _ _ _ _ _ _)) with 16%nat. destruct Ha. cbn [length]. lia.
  - eauto 10.
Qed.

(** C26: A segment or datagram built by the kernel is received as it was sent,
    if the packet with its headers is shorter than 65536 bytes (at most 65495
    bytes of TCP payload or 65507 of UDP payload, and header fields in the
    range of their types): the frame passes both checksums, whatever padding
    follows it on the wire, and gives back the addresses, the ports, every
    header field and exactly the payload.  A longer UDP datagram, which
    [sendto] accepts up to 65536 bytes, does not survive: its lengths wrap
    ([long_datagram_arrives_empty]). *)
Theorem frames_roundtrip lmac rmac lip rip lp rp pad : mac lmac → mac rmac → ip lip → ip rip → is_u 16 lp → is_u 16 rp →
  (∀ seq ack fl window payload, tcp_args lp rp seq ack fl window payload →
     ∃ h b c, deliver (build_tcp_frame lmac rmac lip rip lp rp seq ack fl window payload ++ pad) =
         Ok ({| dest_mac := rmac; src_mac := lmac; ethertype := ETHERTYPE_IPV4 |}, h, b) ∧
       src_ip h = lip ∧ dest_ip h = rip ∧ protocol h = IP_PROTOCOL_TCP ∧
       parse_tcp b lip rip = Ok (header_of lp rp seq ack fl window c, payload)) ∧
  (∀ payload, bytes payload → 20 + (8 + zlen payload) < 65536 →
     ∃ h b c, deliver (build_udp_frame lmac rmac lip rip lp rp payload ++ pad) =
         Ok ({| dest_mac := rmac; src_mac := lmac; ethertype := ETHERTYPE_IPV4 |}, h, b) ∧
       src_ip h = lip ∧ dest_ip h = rip ∧ protocol h = IP_PROTOCOL_UDP ∧
       parse_udp b lip rip = Ok ({| udp_src_port := lp; udp_dest_port := rp; udp_length := 8 + zlen payload; udp_check := c |}, payload)).
Proof.
  intros Hlm Hrm Hli Hri Hlp Hrp. split; [intros; by apply deliver_tcp|].
  intros payload Hb Hl. destruct (parse_udp_datagram lip rip lp rp payload Hli Hri Hlp Hrp Hb) as [c Hc]; [lia|].
  destruct (deliver_built lmac rmac lip rip IP_PROTOCOL_UDP lp 64 (udp_datagram lip rip lp rp payload) pad) as (h & Hd & H1 & H2 & H3 & _); try done.
  - unfold udp_datagram, write_u16. rewrite length_splice by (rewrite ?length_app, ?to_be_length; cbn [length]; lia).
    rewrite !length_app, !to_be_length. cbn [length]. lia.
  - eauto 10.
Qed.

(** ** No frame makes a parser panic *)

Lemma bind_no_panic {A B} (m : opt A) (f : A → opt B) : m ≠ Panic → (∀ a, m = Ok a → f a ≠ Panic) → m ≫= f ≠ Panic.
Proof. destruct m; cbn; auto. Qed.
Lemma none_if_no_panic {B} b (f : unit → opt B) : (b = false → f () ≠ Panic) → none_if b ≫= f ≠ Panic.
Proof. intros H. destruct b; cbn; auto. Qed.
Lemma read_u16_no_panic {B} p o (f : Z → opt B) : (∀ v, f v ≠ Panic) → read_u16 p o ≫= f ≠ Panic.
Proof. intros H. unfold read_u16. destruct (from_be <$> _); cbn; auto. Qed.
Lemma read_u32_total {B} p o (f : Z → opt B) : (∀ v, f v ≠ Panic) → read_u32 p o ≫= f ≠ Panic.
Proof. intros H. unfold read_u32. destruct (from_be <$> _); cbn; auto. Qed.
Lemma at_no_panic {B} p i (f : Z → opt B) : 0 ≤ i < zlen p → (∀ v, f v ≠ Panic) → at_ p i ≫= f ≠ Panic.
Proof.
  intros Hi H. unfold at_. destruct (index p i) as [v|] eqn:Hx; cbn; [auto|]. exfalso. rewrite index_slice, slice_in in Hx by lia.
  replace (i + 1 - i) with 1 in Hx by lia. change (Z.to_nat 1) with 1%nat in Hx. pose proof (length_drop p (Z.to_nat i)).
  destruct (drop (Z.to_nat i) p) as [|x l]; [cbn in *; lia|]. done.
Qed.
Lemma range_no_panic {B} p a b (f : list Z → opt B) : 0 ≤ a ≤ b → b ≤ zlen p → (∀ v, f v ≠ Panic) → range p a b ≫= f ≠ Panic.
Proof. intros Ha Hb H. unfold range. rewrite slice_in by lia. cbn. auto. Qed.

(** The comparisons behind the guards, for [lia]. *)
Lemma if_false_no_panic (b : bool) (x : opt bool) : (b = false → x ≠ Panic) → (if b then Ok false else x) ≠ Panic.
Proof. destruct b; auto. Qed.

Ltac sizes := unfold ETHERNET_HEADER_SIZE, ARP_PACKET_SIZE, IPV4_HEADER_SIZE, ICMP_HEADER_SIZE, UDP_HEADER_SIZE, TCP_HEADER_SIZE in *.
Ltac guards := repeat match goal with
  | H : _ || _ = false |- _ => apply orb_false_iff in H as [? ?]
  | H : (_ <? _) = false |- _ => apply Z.ltb_ge in H
  end.
Ltac safe_step := first
  [ apply none_if_no_panic; intros ?; guards | apply read_u16_no_panic; intros ? | apply read_u32_total; intros ?
  | apply at_no_panic; [guards; lia|intros ?] | apply range_no_panic; [guards; lia|guards; lia|intros ?]
  | apply if_false_no_panic; intros ?; guards | done ].

Lemma nibble v : 0 ≤ Z.land v 15 ≤ 15.
Proof. pose proof (land_mask 4 v ltac:(lia)) as H. change (2 ^ 4 - 1) with 15 in H. rewrite H. pose proof (Z.mod_pos_bound v 16 ltac:(lia)). change (2 ^ 4) with 16. lia. Qed.

(** C27: No received frame, however short or malformed, makes the packet
    parsers index out of range: each returns its result or rejects the frame. *)
Theorem parsers_total frame a b c d p q :
  parse_ethernet frame ≠ Panic ∧ parse_arp frame ≠ Panic ∧ parse_ipv4 frame ≠ Panic ∧ parse_icmp frame ≠ Panic ∧
  parse_udp frame a b ≠ Panic ∧ parse_tcp frame a b ≠ Panic ∧ arp_reply_mac frame a b ≠ Panic ∧
  is_icmp_echo_reply frame a b p ≠ Panic ∧ is_udp_dns_reply frame a b ≠ Panic ∧ tcp_reply frame a b c d p q ≠ Panic.
Proof.
  split; [unfold parse_ethernet; sizes; repeat safe_step|]. split; [unfold parse_arp; sizes; repeat safe_step|].
  split.
  { unfold parse_ipv4. sizes. do 2 safe_step. pose proof (nibble v). cbv zeta. repeat safe_step. }
  split; [unfold parse_icmp; sizes; repeat safe_step|]. split; [unfold parse_udp; sizes; repeat safe_step|].
  split; [unfold parse_tcp; sizes; repeat safe_step|]. split.
  { unfold arp_reply_mac. sizes. repeat safe_step. unfold range. by rewrite slice_in by lia. }
  split.
  { unfold is_icmp_echo_reply. safe_step. safe_step. pose proof (nibble v). cbv zeta. repeat safe_step. }
  split; [unfold is_udp_dns_reply; repeat safe_step|].
  unfold tcp_reply. sizes. do 7 safe_step. match goal with |- context [Z.land ?v 15] => pose proof (nibble v) end. cbv zeta. repeat safe_step.
Qed.

(** ** A frame *)

Definition LMAC : list Z := [0x52; 0x54; 0; 0x12; 0x34; 0x56].
Definition RMAC : list Z := [0x52; 0x55; 0x0a; 0; 2; 2].
Definition LIP : list Z := [10; 0; 2; 15].
Definition RIP : list Z := [10; 0; 2; 2].

Lemma demo_addresses : mac LMAC ∧ mac RMAC ∧ ip LIP ∧ ip RIP.
Proof. repeat split; try done; repeat constructor; unfold is_u; lia. Qed.

Lemma frames_roundtrip_witness :
  ∃ h b c, deliver (build_tcp_frame LMAC RMAC LIP RIP 49152 80 7 0 TCP_SYN 0xffff [1; 2; 3] ++ [0; 0; 0]) =
    Ok ({| dest_mac := RMAC; src_mac := LMAC; ethertype := ETHERTYPE_IPV4 |}, h, b) ∧
    parse_tcp b LIP RIP = Ok (header_of 49152 80 7 0 TCP_SYN 0xffff c, [1; 2; 3]).
Proof.
  destruct demo_addresses as (H1 & H2 & H3 & H4).
  destruct (proj1 (frames_roundtrip LMAC RMAC LIP RIP 49152 80 [0; 0; 0] H1 H2 H3 H4 ltac:(unfold is_u; lia) ltac:(unfold is_u; lia))
    7 0 TCP_SYN 0xffff [1; 2; 3]) as (h & b & c & Hd & _ & _ & _ & Hp).
  - split; unfold is_u, TCP_SYN; try lia; [repeat constructor; lia|cbn; lia].
  - exists h, b, c. exact (conj Hd Hp).
Defined.

(** The lengths in the headers are 16 bits wide and wrap: a datagram of 65536
    zeros is received, with a correct checksum, as an empty one. *)
Theorem long_datagram_arrives_empty :
  match deliver (build_udp_frame LMAC RMAC LIP RIP 1000 2000 (replicate (Z.to_nat 65536) 0)) with
  | Ok (_, _, b) =>
    match parse_udp b LIP RIP with
    | Ok (h, payload) => udp_src_port h = 1000 ∧ udp_dest_port h = 2000 ∧ udp_length h = 8 ∧ payload = []
    | _ => False
    end
  | _ => False
  end.
Proof. vm_compute. by split_and!. Qed.
