(* ===== verification/Sockets.v ===== *)
(** * Sockets and the TCP state machine

    The socket structures and SYN cookies of [rust/kernel/src/socket.rs], and
    what [handle_incoming_tcp] of [network.rs] does to one socket: a connected
    socket that receives a segment, and a listener that receives a SYN or the
    ACK that completes a handshake.  Sending is left to the caller: an
    operation returns the sequence and acknowledgement numbers of the ACKs it
    sends. *)

From stdpp Require Import gmap list.
From S2P Require Import Prelude Words Net.

Definition SOMAXCONN : Z := 128.
Definition TCP_MSL_TICKS : Z := 1000.

Inductive TcpState :=
| Closed | Listen | SynSent | SynReceived | Established | FinWait1 | FinWait2 | CloseWait | Closing | LastAck | TimeWait | Reset.
#[export] Instance TcpState_eq_dec : EqDecision TcpState.
Proof. solve_decision. Defined.

Definition is_active (s : TcpState) : bool := match s with Closed | Reset => false | _ => true end.
Definition can_send (s : TcpState) : bool := match s with Established | CloseWait => true | _ => false end.
Definition can_recv (s : TcpState) : bool := match s with Established | FinWait1 | FinWait2 => true | _ => false end.

Record SocketOptions := {
  reuse_addr : bool; reuse_port : bool; rcvbuf : Z; sndbuf : Z; nonblocking : bool; tcp_nodelay : bool }.
Definition default_options : SocketOptions :=
  {| reuse_addr := false; reuse_port := false; rcvbuf := 65536; sndbuf := 65536; nonblocking := false; tcp_nodelay := true |}.

Record UdpDatagram := { dg_ip : list Z; dg_port : Z; dg_data : list Z }.
Record PendingSyn := { ps_ip : list Z; ps_port : Z; ps_mac : list Z; our_isn : Z; peer_seq : Z; created_tick : Z }.

Record TcpSocket := {
  state : TcpState; local_ip : list Z; local_port : Z; remote_ip : list Z; remote_port : Z; remote_mac : option (list Z);
  seq_num : Z; ack_num : Z; snd_una : Z; snd_wnd : Z; rx_buffer : list Z; rx_closed : bool; tx_closed : bool; backlog : Z;
  accept_queue : list Z; pending_syns : list PendingSyn; time_wait_entered : option Z; options : SocketOptions }.
Record UdpSocket := {
  udp_ip : list Z; udp_port : Z; bound : bool; connected_peer : option (list Z * Z); rx_queue : list UdpDatagram;
  udp_options : SocketOptions }.
Inductive Socket := Tcp (s : TcpSocket) | Udp (u : UdpSocket) | Raw.

(** ** Field updates *)

Definition set_state (s : TcpSocket) (x : TcpState) : TcpSocket :=
  {| state := x; local_ip := local_ip s; local_port := local_port s; remote_ip := remote_ip s; remote_port := remote_port s;
     remote_mac := remote_mac s; seq_num := seq_num s; ack_num := ack_num s; snd_una := snd_una s; snd_wnd := snd_wnd s;
     rx_buffer := rx_buffer s; rx_closed := rx_closed s; tx_closed := tx_closed s; backlog := backlog s;
     accept_queue := accept_queue s; pending_syns := pending_syns s; time_wait_entered := time_wait_entered s; options := options s |}.
Definition set_seq (s : TcpSocket) (x : Z) : TcpSocket :=
  {| state := state s; local_ip := local_ip s; local_port := local_port s; remote_ip := remote_ip s; remote_port := remote_port s;
     remote_mac := remote_mac s; seq_num := x; ack_num := ack_num s; snd_una := snd_una s; snd_wnd := snd_wnd s;
     rx_buffer := rx_buffer s; rx_closed := rx_closed s; tx_closed := tx_closed s; backlog := backlog s;
     accept_queue := accept_queue s; pending_syns := pending_syns s; time_wait_entered := time_wait_entered s; options := options s |}.
Definition set_rx (s : TcpSocket) (ack : Z) (buf : list Z) (closed : bool) : TcpSocket :=
  {| state := state s; local_ip := local_ip s; local_port := local_port s; remote_ip := remote_ip s; remote_port := remote_port s;
     remote_mac := remote_mac s; seq_num := seq_num s; ack_num := ack; snd_una := snd_una s; snd_wnd := snd_wnd s;
     rx_buffer := buf; rx_closed := closed; tx_closed := tx_closed s; backlog := backlog s;
     accept_queue := accept_queue s; pending_syns := pending_syns s; time_wait_entered := time_wait_entered s; options := options s |}.
Definition set_peer (s : TcpSocket) (mac : option (list Z)) (una wnd : Z) : TcpSocket :=
  {| state := state s; local_ip := local_ip s; local_port := local_port s; remote_ip := remote_ip s; remote_port := remote_port s;
     remote_mac := mac; seq_num := seq_num s; ack_num := ack_num s; snd_una := una; snd_wnd := wnd;
     rx_buffer := rx_buffer s; rx_closed := rx_closed s; tx_closed := tx_closed s; backlog := backlog s;
     accept_queue := accept_queue s; pending_syns := pending_syns s; time_wait_entered := time_wait_entered s; options := options s |}.
Definition set_entered (s : TcpSocket) (t : option Z) : TcpSocket :=
  {| state := state s; local_ip := local_ip s; local_port := local_port s; remote_ip := remote_ip s; remote_port := remote_port s;
     remote_mac := remote_mac s; seq_num := seq_num s; ack_num := ack_num s; snd_una := snd_una s; snd_wnd := snd_wnd s;
     rx_buffer := rx_buffer s; rx_closed := rx_closed s; tx_closed := tx_closed s; backlog := backlog s;
     accept_queue := accept_queue s; pending_syns := pending_syns s; time_wait_entered := t; options := options s |}.
Definition set_queues (s : TcpSocket) (b : Z) (acc : list Z) (pend : list PendingSyn) : TcpSocket :=
  {| state := state s; local_ip := local_ip s; local_port := local_port s; remote_ip := remote_ip s; remote_port := remote_port s;
     remote_mac := remote_mac s; seq_num := seq_num s; ack_num := ack_num s; snd_una := snd_una s; snd_wnd := snd_wnd s;
     rx_buffer := rx_buffer s; rx_closed := rx_closed s; tx_closed := tx_closed s; backlog := b;
     accept_queue := acc; pending_syns := pend; time_wait_entered := time_wait_entered s; options := options s |}.
Definition set_addresses (s : TcpSocket) (lip : list Z) (lp : Z) (rip : list Z) (rp : Z) (o : SocketOptions) : TcpSocket :=
  {| state := state s; local_ip := lip; local_port := lp; remote_ip := rip; remote_port := rp;
     remote_mac := remote_mac s; seq_num := seq_num s; ack_num := ack_num s; snd_una := snd_una s; snd_wnd := snd_wnd s;
     rx_buffer := rx_buffer s; rx_closed := rx_closed s; tx_closed := tx_closed s; backlog := backlog s;
     accept_queue := accept_queue s; pending_syns := pending_syns s; time_wait_entered := time_wait_entered s; options := o |}.

(** ** SYN cookies *)

Definition SYN_COOKIE_SECRET : Z := 0x5a17c001.
(** [h.wrapping_mul(1664525).wrapping_add(1013904223)] *)
Definition lcg (h : Z) : Z := u32 (u32 (h * 1664525) + 1013904223).
(** [u32::from_ne_bytes]; the target is little-endian. *)
Definition ip_word (a : list Z) : Z := from_le a.

Definition syn_hash (lip rip : list Z) (lp rp t : Z) : Z :=
  let h := Z.lxor SYN_COOKIE_SECRET t in
  let h := Z.lxor (lcg h) (ip_word lip) in
  let h := Z.lxor (lcg h) (ip_word rip) in
  let h := Z.lxor (lcg h) (Z.lor (u32 (Z.shiftl lp 16)) rp) in
  lcg h.

Definition generate_syn_cookie (lip rip : list Z) (lp rp peer_seq time_min : Z) : Z :=
  let t_bits := u32 (Z.shiftl (Z.land time_min 0x1f) 27) in
  let mss_bits := u32 (Z.shiftl (Z.land 1 0x07) 24) in
  let hash := Z.lxor (syn_hash lip rip lp rp time_min) peer_seq in
  Z.lor (Z.lor t_bits mss_bits) (Z.land hash 0x00ffffff).

Definition validate_syn_cookie (cookie : Z) (lip rip : list Z) (lp rp peer_seq time_min : Z) : bool :=
  let cookie_t := Z.land (Z.shiftr cookie 27) 0x1f in
  let current_t := Z.land time_min 0x1f in
  let diff := u32 (current_t + 32 - cookie_t) mod 32 in
  if 2 <? diff then false else
  let orig_t := u32 (time_min - diff) in
  Z.land cookie 0x00ffffff =? Z.land (Z.lxor (syn_hash lip rip lp rp orig_t) peer_seq) 0x00ffffff.

(** ** A segment for a connected socket *)

Definition has (fl bit : Z) : bool := negb (Z.land fl bit =? 0).

(** The socket, the ACKs it sends as pairs of sequence and acknowledgement
    number, and whether its waiters are woken. *)
Abbreviation outcome := (TcpSocket * list (Z * Z) * bool)%type.
Definition acks (s : TcpSocket) : list (Z * Z) := [(seq_num s, ack_num s)].

Definition input_syn_sent (s : TcpSocket) (mac : list Z) (t : TcpHeader) : outcome :=
  if (Z.land (flags t) (Z.lor TCP_SYN TCP_ACK) =? Z.lor TCP_SYN TCP_ACK) && (acknowledgement t =? u32 (seq_num s + 1)) then
    let s := set_rx (set_seq s (u32 (seq_num s + 1))) (u32 (sequence t + 1)) (rx_buffer s) (rx_closed s) in
    let s := set_state (set_peer s (Some mac) (snd_una s) (window_size t)) Established in
    (s, acks s, false)
  else (s, [], false).

(** Data of an open connection: in order it is taken and acknowledged, below
    the next expected byte it is acknowledged again. *)
Definition input_data (s : TcpSocket) (t : TcpHeader) (payload : list Z) : outcome :=
  if bool_decide (payload = []) then (s, [], false) else
  if sequence t =? ack_num s then
    let s := set_rx s (u32 (ack_num s + u32 (zlen payload))) (rx_buffer s ++ payload) (rx_closed s) in (s, acks s, true)
  else if sequence t <? ack_num s then (s, acks s, false)
  else (s, [], false).

Definition input_open (s : TcpSocket) (t : TcpHeader) (payload : list Z) : outcome :=
  let '(s, out, woken) := input_data s t payload in
  let s := if has (flags t) TCP_ACK then set_peer s (remote_mac s) (acknowledgement t) (snd_wnd s) else s in
  if has (flags t) TCP_FIN && bool_decide (state s = Established) then
    let s := set_state (set_rx s (u32 (ack_num s + 1)) (rx_buffer s) true) CloseWait in
    (s, out ++ acks s, true)
  else (s, out, woken).

Definition input_fin_wait1 (s : TcpSocket) (now : Z) (t : TcpHeader) : outcome :=
  let fin_acked := has (flags t) TCP_ACK && (acknowledgement t =? seq_num s) in
  if has (flags t) TCP_FIN then
    let s := set_rx s (u32 (sequence t + 1)) (rx_buffer s) (rx_closed s) in
    let s := set_entered (set_state s (if fin_acked then TimeWait else Closing)) (Some now) in
    (s, acks s, false)
  else if fin_acked then (set_state s FinWait2, [], false) else (s, [], false).

Definition input_fin_wait2 (s : TcpSocket) (now : Z) (t : TcpHeader) : outcome :=
  if has (flags t) TCP_FIN then
    let s := set_rx s (u32 (sequence t + 1)) (rx_buffer s) (rx_closed s) in
    let s := set_entered (set_state s TimeWait) (Some now) in
    (s, acks s, false)
  else (s, [], false).

Definition tcp_input (now : Z) (s : TcpSocket) (mac : list Z) (t : TcpHeader) (payload : list Z) : outcome :=
  if has (flags t) TCP_RST then (set_state s Reset, [], false) else
  match state s with
  | SynSent => input_syn_sent s mac t
  | Established | CloseWait => input_open s t payload
  | FinWait1 => input_fin_wait1 s now t
  | FinWait2 => input_fin_wait2 s now t
  | Closing =>
    if has (flags t) TCP_ACK && (acknowledgement t =? seq_num s) then (set_entered (set_state s TimeWait) (Some now), [], false)
    else (s, [], false)
  | LastAck => if has (flags t) TCP_ACK then (set_state s Closed, [], false) else (s, [], false)
  | _ => (s, [], false)
  end.

(** ** A segment for a listener *)

(** [listener.pending_syns] at a SYN: the sequence number of the answer, from
    a cookie if the queue is full, else [isn], which is then remembered. *)
Definition listen_syn (l : TcpSocket) (our_ip src mac : list Z) (t : TcpHeader) (isn now : Z) : TcpSocket * Z :=
  if backlog l <=? zlen (pending_syns l) then
    (l, generate_syn_cookie our_ip src (dest_port t) (src_port t) (sequence t) (u32 (now / 60000)))
  else
    let others := filter (λ p, ¬ (ps_ip p = src ∧ ps_port p = src_port t)) (pending_syns l) in
    (set_queues l (backlog l) (accept_queue l)
       (others ++ [{| ps_ip := src; ps_port := src_port t; ps_mac := mac; our_isn := isn; peer_seq := sequence t; created_tick := now |}]), isn).

(** The ACK of a handshake: the initial sequence number it answers, if any. *)
Definition listen_ack (l : TcpSocket) (our_ip src : list Z) (t : TcpHeader) (now : Z) : TcpSocket * option Z :=
  match list_find (λ p, ps_ip p = src ∧ ps_port p = src_port t) (pending_syns l) with
  | Some (pos, p) =>
    (set_queues l (backlog l) (accept_queue l) (delete pos (pending_syns l)),
     if acknowledgement t =? u32 (our_isn p + 1) then Some (our_isn p) else None)
  | None =>
    let cookie := u32 (acknowledgement t - 1) in
    (l, if validate_syn_cookie cookie our_ip src (dest_port t) (src_port t) (u32 (sequence t - 1)) (u32 (now / 60000)) then Some cookie else None)
  end.

(** The socket of the accepted connection, with the data of the ACK. *)
Definition accepted (lip src mac : list Z) (t : TcpHeader) (isn : Z) (payload : list Z) : TcpSocket :=
  {| state := Established; local_ip := lip; local_port := dest_port t; remote_ip := src; remote_port := src_port t;
     remote_mac := Some mac; seq_num := u32 (isn + 1);
     ack_num := if bool_decide (payload = []) then sequence t else u32 (sequence t + u32 (zlen payload)); snd_una := u32 (isn + 1);
     snd_wnd := window_size t; rx_buffer := payload; rx_closed := false; tx_closed := false; backlog := 0; accept_queue := [];
     pending_syns := []; time_wait_entered := None; options := default_options |}.
