(* ===== verification/Network.v ===== *)
(** * The network stack ([rust/kernel/src/network.rs])

    The stack's state with its sockets, the dispatch of received frames, the
    timers and the socket operations.  The network card is reached through
    [NetDevice]; a socket handle is a key of an ordered map.  The state also
    holds the counters the stack keeps in statics, the DNS resolver, the tick
    of the call, the credentials of the caller, and the handles whose waiters
    were woken. *)

From stdpp Require Import gmap list.
From S2P Require Import Prelude Words BTree Abi Dns Net Sockets.

(** What the stack uses of [virtio_net.rs]; [nd_pending] bounds the frames
    that wait to be received. *)
Inductive VirtioNetError :=
| DeviceNotFound | UnsupportedDevice | QueueUnavailable | AllocationFailed | DeviceFailed | FrameTooLarge | TransmitTimeout.
Class NetDevice (D : Type) := {
  nd_mac : D → list Z;
  nd_transmit : D → list Z → D * res VirtioNetError unit;
  nd_receive : D → D * res VirtioNetError (option (list Z));
  nd_pending : D → nat }.

Inductive NetworkError :=
| Device (e : VirtioNetError) | GatewayUnreachable | GatewayNoEcho | DnsUnreachable | Configuration | Unavailable | InvalidTcpPort
| TcpHandshakeTimeout | TcpReceiveTimeout | TcpPayloadTooLarge | SocketNotFound | InvalidSocketType | AlreadyBound | PortInUse
| NotListening | NotConnected | AlreadyConnected | ConnectionReset | ConnectionClosed | WouldBlock | BrokenPipe | InvalidArgument.

Record NetworkConfig := { address : list Z; gateway : list Z; dns_server : list Z; tcp_host : list Z; tcp_port : Z }.

Definition DEFAULT_WINDOW_SIZE : Z := 65535.
Definition MAX_TCP_CHUNK_SIZE : Z := 1400.
Definition TCP_POLL_ATTEMPTS : Z := 2000000.
Definition LOOPBACK : list Z := [127; 0; 0; 1].
Definition BROADCAST : list Z := [255; 255; 255; 255].

Section network.
Context {D : Type} `{ND : !NetDevice D}.

Record NetworkState := {
  device : D; configuration : NetworkConfig; arp_table : gmap (list Z) (list Z); gateway_mac : option (list Z);
  tcp_connected : bool; sockets : gmap Z Socket; loopback_queue : list (list Z) }.

Record kernel := {
  network : option NetworkState; next_tcp_port : Z; next_socket_handle : Z; isn_counter : Z;
  resolver_state : resolver; tick : Z; caller : Credentials.t; woken : list Z }.

Abbreviation N := (M kernel NetworkError).

(** ** State access *)

Definition with_network (k : kernel) (n : NetworkState) : kernel :=
  {| network := Some n; next_tcp_port := next_tcp_port k; next_socket_handle := next_socket_handle k; isn_counter := isn_counter k;
     resolver_state := resolver_state k; tick := tick k; caller := caller k; woken := woken k |}.
(** [NETWORK.lock().as_mut().ok_or(Unavailable)?] *)
Definition net_state : N NetworkState := λ k, (k, ok_or Unavailable (network k)).
Definition put_net (n : NetworkState) : N unit := λ k, (with_network k n, Ok ()).

Definition set_sockets (n : NetworkState) (s : gmap Z Socket) : NetworkState :=
  {| device := device n; configuration := configuration n; arp_table := arp_table n; gateway_mac := gateway_mac n;
     tcp_connected := tcp_connected n; sockets := s; loopback_queue := loopback_queue n |}.
Definition set_device (n : NetworkState) (d : D) : NetworkState :=
  {| device := d; configuration := configuration n; arp_table := arp_table n; gateway_mac := gateway_mac n;
     tcp_connected := tcp_connected n; sockets := sockets n; loopback_queue := loopback_queue n |}.
Definition set_arp (n : NetworkState) (a : gmap (list Z) (list Z)) : NetworkState :=
  {| device := device n; configuration := configuration n; arp_table := a; gateway_mac := gateway_mac n;
     tcp_connected := tcp_connected n; sockets := sockets n; loopback_queue := loopback_queue n |}.
Definition set_loopback (n : NetworkState) (q : list (list Z)) : NetworkState :=
  {| device := device n; configuration := configuration n; arp_table := arp_table n; gateway_mac := gateway_mac n;
     tcp_connected := tcp_connected n; sockets := sockets n; loopback_queue := q |}.
Definition set_connected (n : NetworkState) : NetworkState :=
  {| device := device n; configuration := configuration n; arp_table := arp_table n; gateway_mac := gateway_mac n;
     tcp_connected := true; sockets := sockets n; loopback_queue := loopback_queue n |}.

Definition our_ip (n : NetworkState) : list Z := address (configuration n).
Definition our_mac (n : NetworkState) : list Z := nd_mac (device n).
Definition put_socket (n : NetworkState) (h : Z) (s : Socket) : NetworkState := set_sockets n (<[h := s]> (sockets n)).

(** [state.device.transmit(&frame)?] and [let _ = state.device.transmit(&frame)]. *)
Definition transmit (frame : list Z) : N unit :=
  n ← net_state;
  let '(d, r) := nd_transmit (device n) frame in
  _ ← put_net (set_device n d);
  match r with Ok _ => mret () | Err e => fail (Device e) | Panic => lift Panic end.
Definition ignore {A} (op : N A) : N unit := λ k, match op k with (k, Panic) => (k, Panic) | (k, _) => (k, Ok ()) end.

(** [wake_pipe_waiters(0x5000_0000 | handle)] *)
Definition wake (h : Z) : N unit := λ k,
  ({| network := network k; next_tcp_port := next_tcp_port k; next_socket_handle := next_socket_handle k; isn_counter := isn_counter k;
      resolver_state := resolver_state k; tick := tick k; caller := caller k; woken := woken k ++ [h] |}, Ok ()).
Definition now : N Z := λ k, (k, Ok (tick k)).

(** [fetch_add] on the counters. *)
Definition take_port : N Z := λ k,
  ({| network := network k; next_tcp_port := u16 (next_tcp_port k + 1); next_socket_handle := next_socket_handle k;
      isn_counter := isn_counter k; resolver_state := resolver_state k; tick := tick k; caller := caller k; woken := woken k |}, Ok (next_tcp_port k)).
Definition take_handle : N Z := λ k,
  ({| network := network k; next_tcp_port := next_tcp_port k; next_socket_handle := u32 (next_socket_handle k + 1);
      isn_counter := isn_counter k; resolver_state := resolver_state k; tick := tick k; caller := caller k; woken := woken k |}, Ok (next_socket_handle k)).
Definition generate_isn (lp rp : Z) : N Z := λ k,
  ({| network := network k; next_tcp_port := next_tcp_port k; next_socket_handle := next_socket_handle k;
      isn_counter := u32 (isn_counter k + 0x1000); resolver_state := resolver_state k; tick := tick k; caller := caller k; woken := woken k |},
   Ok (Z.lxor (isn_counter k) (Z.lor (u32 (Z.shiftl lp 16)) rp))).
Definition on_resolver {A} (f : resolver → resolver * res unit A) : N A := λ k,
  let '(r, a) := f (resolver_state k) in
  ({| network := network k; next_tcp_port := next_tcp_port k; next_socket_handle := next_socket_handle k; isn_counter := isn_counter k;
      resolver_state := r; tick := tick k; caller := caller k; woken := woken k |},
   match a with Ok a => Ok a | _ => Panic end).

Definition get_socket (h : Z) : N Socket := n ← net_state; lift (ok_or SocketNotFound (sockets n !! h)).

(** ** Received segments *)

Definition is_local (our src : list Z) : bool := bool_decide (src = LOOPBACK) || bool_decide (src = our).

(** A reply goes to the loopback queue if the peer is this machine. *)
Definition reply (src : list Z) (frame : list Z) : N unit :=
  n ← net_state;
  if is_local (our_ip n) src then put_net (set_loopback n (loopback_queue n ++ [frame])) else ignore (transmit frame).

Definition ack_frame (n : NetworkState) (mac dest src : list Z) (lp rp : Z) (a : Z * Z) : list Z :=
  build_tcp_frame (our_mac n) mac dest src lp rp a.1 a.2 TCP_ACK DEFAULT_WINDOW_SIZE [].

Fixpoint send_acks (mac dest src : list Z) (lp rp : Z) (l : list (Z * Z)) : N unit :=
  match l with
  | [] => mret ()
  | a :: l' => n ← net_state; _ ← reply src (ack_frame n mac dest src lp rp a); send_acks mac dest src lp rp l'
  end.

Definition remote_match (our src : list Z) (s : TcpSocket) : bool :=
  bool_decide (remote_ip s = src) ||
  (bool_decide (remote_ip s = LOOPBACK) && (bool_decide (src = LOOPBACK) || bool_decide (src = our))) ||
  (bool_decide (src = LOOPBACK) && (bool_decide (remote_ip s = LOOPBACK) || bool_decide (remote_ip s = our))).

(** The socket with the lowest handle that the segment is for. *)
Definition matches_segment (our src : list Z) (t : TcpHeader) (e : Z * Socket) : bool :=
  match e.2 with
  | Tcp s => (local_port s =? dest_port t) && remote_match our src s && (remote_port s =? src_port t)
  | _ => false
  end.
Definition matches_listener (t : TcpHeader) (e : Z * Socket) : bool :=
  match e.2 with Tcp s => (local_port s =? dest_port t) && bool_decide (state s = Listen) | _ => false end.
Definition find_socket (n : NetworkState) (f : Z * Socket → bool) : option (Z * TcpSocket) :=
  match list_find (λ e, f e = true) (entries (sockets n)) with Some (_, (h, Tcp s)) => Some (h, s) | _ => None end.

Definition input_listener (h : Z) (l : TcpSocket) (mac src dest : list Z) (t : TcpHeader) (payload : list Z) : N unit :=
  n ← net_state; tk ← now;
  let answer := if bool_decide (dest = LOOPBACK) then LOOPBACK else our_ip n in
  if has (flags t) TCP_SYN && negb (has (flags t) TCP_ACK) then
    isn ← (if backlog l <=? zlen (pending_syns l) then mret 0 else generate_isn (dest_port t) (src_port t));
    let '(l, s) := listen_syn l (our_ip n) src mac t isn tk in
    _ ← put_net (put_socket n h (Tcp l));
    reply src (build_tcp_frame (our_mac n) mac answer src (dest_port t) (src_port t) s (u32 (sequence t + 1))
                 (Z.lor TCP_SYN TCP_ACK) DEFAULT_WINDOW_SIZE [])
  else if has (flags t) TCP_ACK then
    let '(l, m) := listen_ack l (our_ip n) src t tk in
    _ ← put_net (put_socket n h (Tcp l));
    match m with
    | None => mret ()
    | Some isn =>
      new ← take_handle;
      let s := accepted answer src mac t isn payload in
      _ ← (if bool_decide (payload = []) then mret () else send_acks mac answer src (local_port s) (remote_port s) (acks s));
      n ← net_state;
      let n := put_socket n new (Tcp s) in
      let n := match sockets n !! h with
               | Some (Tcp l) => put_socket n h (Tcp (set_queues l (backlog l) (accept_queue l ++ [new]) (pending_syns l)))
               | _ => n
               end in
      _ ← put_net n;
      wake h
    end
  else mret ().

Definition handle_incoming_tcp (mac src dest : list Z) (t : TcpHeader) (payload : list Z) : N unit :=
  n ← net_state; tk ← now;
  match find_socket n (matches_segment (our_ip n) src t) with
  | Some (h, s) =>
    let '(s, out, w) := tcp_input tk s mac t payload in
    _ ← put_net (put_socket n h (Tcp s));
    _ ← send_acks mac dest src (local_port s) (remote_port s) out;
    if w then wake h else mret ()
  | None =>
    match find_socket n (matches_listener t) with
    | Some (h, l) => input_listener h l mac src dest t payload
    | None => mret ()
    end
  end.

(** ** Received frames *)

Definition wants_datagram (u : UdpSocket) (port : Z) : bool := bound u && ((udp_port u =? port) || (udp_port u =? 0)).

(** Every bound socket of the port gets the datagram. *)
Fixpoint deliver_datagram (l : list (Z * Socket)) (port : Z) (d : UdpDatagram) : N unit :=
  match l with
  | [] => mret ()
  | (h, Udp u) :: l' =>
    _ ← (if wants_datagram u port then
           n ← net_state;
           _ ← put_net (put_socket n h (Udp {| udp_ip := udp_ip u; udp_port := udp_port u; bound := bound u;
                 connected_peer := connected_peer u; rx_queue := rx_queue u ++ [d]; udp_options := udp_options u |}));
           wake h
         else mret ());
    deliver_datagram l' port d
  | _ :: l' => deliver_datagram l' port d
  end.

(** A parser's answer: absent or a panic. *)
Definition parsed {A} (r : opt A) (f : A → N unit) : N unit :=
  match r with Ok a => f a | Err _ => mret () | Panic => lift Panic end.

Definition input_arp (p : list Z) : N unit :=
  parsed (parse_arp p) (λ arp,
    n ← net_state;
    _ ← put_net (set_arp n (<[sender_ip arp := sender_mac arp]> (arp_table n)));
    if (opcode arp =? ARP_REQUEST) && bool_decide (target_ip arp = our_ip n) then
      ignore (transmit (arp_reply (our_mac n) (our_ip n) (sender_mac arp) (sender_ip arp)))
    else mret ()).

Definition input_icmp (eth : EthernetHeader) (h : Ipv4Header) (b : list Z) : N unit :=
  parsed (parse_icmp b) (λ '(icmp, data),
    n ← net_state;
    if msg_type icmp =? ICMP_ECHO_REQUEST then
      ignore (transmit (build_icmp_echo_reply (our_mac n) (src_mac eth) (our_ip n) (src_ip h) (identifier icmp) (icmp_sequence icmp) data))
    else mret ()).

Definition input_udp (h : Ipv4Header) (b : list Z) : N unit :=
  parsed (parse_udp b (src_ip h) (dest_ip h)) (λ '(u, data),
    n ← net_state; tk ← now;
    _ ← (if (bool_decide (src_ip h = dns_server (configuration n)) || bool_decide (src_ip h = [10; 0; 2; 3])) && (udp_src_port u =? 53)
         then on_resolver (λ r, record_dns_response r data tk) else mret ());
    deliver_datagram (entries (sockets n)) (udp_dest_port u) {| dg_ip := src_ip h; dg_port := udp_src_port u; dg_data := data |}).

Definition process_incoming_frame (frame : list Z) : N unit :=
  parsed (parse_ethernet frame) (λ '(eth, p),
    n ← net_state;
    if ethertype eth =? ETHERTYPE_ARP then input_arp p
    else if ethertype eth =? ETHERTYPE_IPV4 then
      parsed (parse_ipv4 p) (λ '(h, b),
        if negb (bool_decide (dest_ip h = our_ip n)) && negb (bool_decide (dest_ip h = LOOPBACK)) && negb (bool_decide (dest_ip h = BROADCAST))
        then mret () else
        if protocol h =? IP_PROTOCOL_ICMP then input_icmp eth h b
        else if protocol h =? IP_PROTOCOL_UDP then input_udp h b
        else if protocol h =? IP_PROTOCOL_TCP then
          parsed (parse_tcp b (src_ip h) (dest_ip h)) (λ '(t, payload), handle_incoming_tcp (src_mac eth) (src_ip h) (dest_ip h) t payload)
        else mret ())
    else mret ()).

(** ** Timers and polling *)

Definition expired (tk : Z) (s : TcpSocket) (after : Z) : bool :=
  match time_wait_entered s with Some t => after <=? saturating_sub tk t | None => false end.

(** A socket after the timer check; [None] if it is removed. *)
Definition check_socket (tk : Z) (x : Socket) : option Socket :=
  match x with
  | Tcp s =>
    match state s with
    | TimeWait => if expired tk s (2 * TCP_MSL_TICKS) then None else Some x
    | FinWait1 | LastAck | Closing => if expired tk s 5000 then None else Some x
    | Listen => Some (Tcp (set_queues s (backlog s) (accept_queue s)
                            (filter (λ p, saturating_sub tk (created_tick p) < 3000) (pending_syns s))))
    | _ => Some x
    end
  | _ => Some x
  end.
Definition check_tcp_timers : N unit := n ← net_state; tk ← now; put_net (set_sockets n (omap (check_socket tk) (sockets n))).

Fixpoint receive_all (fuel : nat) : N unit :=
  match fuel with
  | O => mret ()
  | S fuel' =>
    n ← net_state;
    let '(d, r) := nd_receive (device n) in
    _ ← put_net (set_device n d);
    match r with
    | Ok (Some frame) => _ ← process_incoming_frame frame; receive_all fuel'
    | Ok None => mret ()
    | Err e => fail (Device e)
    | Panic => lift Panic
    end
  end.

Fixpoint process_frames (l : list (list Z)) : N unit :=
  match l with [] => mret () | f :: l' => _ ← ignore (process_incoming_frame f); process_frames l' end.
Fixpoint loop_frames (iterations : nat) : N unit :=
  match iterations with
  | O => mret ()
  | S i =>
    n ← net_state;
    if bool_decide (loopback_queue n = []) then mret () else
    _ ← put_net (set_loopback n []);
    _ ← process_frames (loopback_queue n);
    loop_frames i
  end.

Definition poll_network_locked : N unit :=
  n ← net_state;
  _ ← receive_all (S (nd_pending (device n)));
  _ ← loop_frames 100;
  check_tcp_timers.

(** ** Socket operations *)

Definition new_tcp (ip : list Z) : TcpSocket :=
  {| state := Closed; local_ip := ip; local_port := 0; remote_ip := [0; 0; 0; 0]; remote_port := 0; remote_mac := None; seq_num := 0;
     ack_num := 0; snd_una := 0; snd_wnd := DEFAULT_WINDOW_SIZE; rx_buffer := []; rx_closed := false; tx_closed := false; backlog := 0;
     accept_queue := []; pending_syns := []; time_wait_entered := None; options := default_options |}.
Definition new_udp (ip : list Z) : UdpSocket :=
  {| udp_ip := ip; udp_port := 0; bound := false; connected_peer := None; rx_queue := []; udp_options := default_options |}.

Definition socket_create (domain socket_type : Z) : N Z :=
  if negb (domain =? 2) then fail InvalidArgument else
  h ← take_handle;
  n ← net_state;
  if socket_type =? 1 then _ ← put_net (put_socket n h (Tcp (new_tcp (our_ip n)))); mret h
  else if socket_type =? 2 then _ ← put_net (put_socket n h (Udp (new_udp (our_ip n)))); mret h
  else if socket_type =? 3 then _ ← put_net (put_socket n h Raw); mret h
  else fail InvalidSocketType.

(** The port collision check of [socket_bind] for one other socket. *)
Definition collides (port : Z) (reuse : bool) (x : Socket) : bool :=
  match x with
  | Tcp o =>
    (local_port o =? port) && is_active (state o) &&
    (if bool_decide (state o = TimeWait) then negb reuse
     else negb (reuse && (reuse_addr (options o) || reuse_port (options o))))
  | Udp u => bound u && (udp_port u =? port)
  | Raw => false
  end.

Definition bind_udp (u : UdpSocket) (ip : list Z) (port : Z) : UdpSocket :=
  {| udp_ip := ip; udp_port := port; bound := true; connected_peer := connected_peer u; rx_queue := rx_queue u; udp_options := udp_options u |}.

Definition socket_bind (h : Z) (ip : list Z) (port : Z) : N unit :=
  _ ← net_state;
  _ ← ignore poll_network_locked;
  p ← (if port =? 0 then take_port else mret port);
  n ← net_state;
  let bind_ip := if bool_decide (ip = [0; 0; 0; 0]) then our_ip n else ip in
  _ ← (λ k, (k, guard_err ((p <? 1024) && negb (p =? 0) && negb (Credentials.uid (caller k) =? 0)) InvalidArgument));
  let reuse := match sockets n !! h with Some (Tcp s) => reuse_addr (options s) || reuse_port (options s) | _ => false end in
  _ ← lift (guard_err (existsb (λ '(oh, x), negb (oh =? h) && collides p reuse x) (entries (sockets n))) PortInUse);
  x ← get_socket h;
  match x with
  | Tcp s => if negb (local_port s =? 0) then fail AlreadyBound else
             put_net (put_socket n h (Tcp (set_addresses s bind_ip p (remote_ip s) (remote_port s) (options s))))
  | Udp u => if bound u then fail AlreadyBound else put_net (put_socket n h (Udp (bind_udp u bind_ip p)))
  | Raw => mret ()
  end.

Definition socket_listen (h backlog_ : Z) : N unit :=
  x ← get_socket h;
  match x with
  | Tcp s =>
    p ← (if local_port s =? 0 then take_port else mret (local_port s));
    n ← net_state;
    let s := set_addresses s (local_ip s) p (remote_ip s) (remote_port s) (options s) in
    put_net (put_socket n h (Tcp (set_queues (set_state s Listen) (if backlog_ =? 0 then SOMAXCONN else Z.min backlog_ SOMAXCONN) [] [])))
  | _ => fail InvalidSocketType
  end.

Definition socket_accept (h : Z) : N (Z * list Z * Z) :=
  x ← get_socket h;
  match x with
  | Tcp l =>
    if negb (bool_decide (state l = Listen)) then fail NotListening else
    match accept_queue l with
    | [] => fail WouldBlock
    | a :: rest =>
      n ← net_state;
      _ ← put_net (put_socket n h (Tcp (set_queues l (backlog l) rest (pending_syns l))));
      n ← net_state;
      match sockets n !! a with Some (Tcp s) => mret (a, remote_ip s, remote_port s) | _ => fail WouldBlock end
    end
  | _ => fail InvalidSocketType
  end.

(** The gateway's address, or the peer's from the ARP table or an exchange of
    at most [10000] rounds. *)
Fixpoint await_arp (rounds : nat) (target : list Z) : N (option (list Z)) :=
  match rounds with
  | O => mret None
  | S r =>
    n ← net_state;
    let '(d, x) := nd_receive (device n) in
    _ ← put_net (set_device n d);
    match x with
    | Ok (Some frame) =>
      match arp_reply_mac frame (our_ip n) target with
      | Ok mac => n ← net_state; _ ← put_net (set_arp n (<[target := mac]> (arp_table n))); mret (Some mac)
      | Err _ => await_arp r target
      | Panic => lift Panic
      end
    | Ok None => await_arp r target
    | Err e => fail (Device e)
    | Panic => lift Panic
    end
  end.

Definition resolve_destination_mac (target : list Z) : N (list Z) :=
  n ← net_state;
  if is_local (our_ip n) target then mret (our_mac n) else
  if bool_decide (target = dns_server (configuration n)) || negb (bool_decide (take 3 target = take 3 (our_ip n))) then
    lift (ok_or GatewayUnreachable (gateway_mac n))
  else match arp_table n !! target with
  | Some mac => mret mac
  | None =>
    _ ← transmit (arp_request (our_mac n) (our_ip n) target);
    m ← await_arp (Z.to_nat 10000) target;
    n ← net_state;
    match m with Some mac => mret mac | None => lift (ok_or GatewayUnreachable (gateway_mac n)) end
  end.

(** The polling loop of a blocking connect. *)
Fixpoint await_connect (attempts : nat) (h : Z) : N unit :=
  match attempts with
  | O => fail TcpHandshakeTimeout
  | S a =>
    _ ← poll_network_locked;
    x ← get_socket h;
    match x with
    | Tcp s =>
      if bool_decide (state s = Established) then n ← net_state; put_net (set_connected n)
      else if bool_decide (state s = Reset) || bool_decide (state s = Closed) then fail ConnectionReset
      else await_connect a h
    | _ => await_connect a h
    end
  end.

Definition local_source (n : NetworkState) (remote : list Z) : list Z := if bool_decide (remote = LOOPBACK) then LOOPBACK else our_ip n.

(** The socket's local port, taken from the counter if it has none. *)
Definition own_port (p : Z) : N Z := if p =? 0 then take_port else mret p.

Definition socket_connect (h : Z) (rip : list Z) (rp : Z) (nonblock : bool) : N unit :=
  if rp =? 0 then fail InvalidTcpPort else
  mac ← resolve_destination_mac rip;
  x ← get_socket h;
  match x with
  | Tcp s =>
    if bool_decide (state s = Established) then fail AlreadyConnected else
    lp ← own_port (local_port s);
    isn ← generate_isn lp rp;
    n ← net_state;
    let src := local_source n rip in
    let s := set_peer (set_addresses s src lp rip rp (options s)) (Some mac) (snd_una s) (snd_wnd s) in
    _ ← put_net (put_socket n h (Tcp (set_state (set_seq s isn) SynSent)));
    let syn := build_tcp_frame (our_mac n) mac src rip lp rp isn 0 TCP_SYN DEFAULT_WINDOW_SIZE [] in
    _ ← (if is_local (our_ip n) rip then ignore (process_incoming_frame syn) else transmit syn);
    if nonblock then mret () else await_connect (Z.to_nat TCP_POLL_ATTEMPTS) h
  | Udp u =>
    p ← own_port (udp_port u);
    n ← net_state;
    put_net (put_socket n h (Udp {| udp_ip := udp_ip u; udp_port := p; bound := bound u || (udp_port u =? 0);
      connected_peer := Some (rip, rp); rx_queue := rx_queue u; udp_options := udp_options u |}))
  | Raw => mret ()
  end.

(** The frames of a send: chunks of at most [MAX_TCP_CHUNK_SIZE] bytes, each
    with the sequence number of its first byte, and the number after them. *)
Fixpoint chunks (fuel : nat) (seq : Z) (bytes : list Z) : list (Z * list Z) * Z :=
  match fuel, bytes with
  | S f, _ :: _ =>
    let c := take (Z.to_nat MAX_TCP_CHUNK_SIZE) bytes in
    let '(l, seq') := chunks f (u32 (seq + u32 (zlen c))) (drop (Z.to_nat MAX_TCP_CHUNK_SIZE) bytes) in ((seq, c) :: l, seq')
  | _, _ => ([], seq)
  end.
Fixpoint transmit_all (l : list (list Z)) : N unit := match l with [] => mret () | f :: l' => _ ← transmit f; transmit_all l' end.

Definition stream_frames (n : NetworkState) (s : TcpSocket) (mac bytes : list Z) : list (list Z) :=
  (λ '(q, c), build_tcp_frame (our_mac n) mac (local_source n (remote_ip s)) (remote_ip s) (local_port s) (remote_port s) q
                (ack_num s) (Z.lor TCP_ACK TCP_PSH) DEFAULT_WINDOW_SIZE c) <$> (chunks (length bytes) (seq_num s) bytes).1.

(** The TCP case of [socket_send] and [socket_sendto], up to the final poll. *)
Definition send_stream (h : Z) (s : TcpSocket) (mac bytes : list Z) : N unit :=
  n ← net_state;
  let seq' := (chunks (length bytes) (seq_num s) bytes).2 in
  let frames := stream_frames n s mac bytes in
  let loop := is_local (our_ip n) (remote_ip s) in
  _ ← (if loop then mret () else transmit_all frames);
  n ← net_state;
  _ ← (match sockets n !! h with Some (Tcp s) => put_net (put_socket n h (Tcp (set_seq s seq'))) | _ => mret () end);
  if loop then process_frames frames else mret ().

Definition bind_port (h : Z) (u : UdpSocket) : N Z :=
  p ← own_port (udp_port u);
  n ← net_state;
  _ ← put_net (put_socket n h (Udp {| udp_ip := udp_ip u; udp_port := p; bound := bound u || (udp_port u =? 0);
        connected_peer := connected_peer u; rx_queue := rx_queue u; udp_options := udp_options u |}));
  mret p.

Definition socket_send (h : Z) (bytes : list Z) : N Z :=
  if bool_decide (bytes = []) then mret 0 else
  _ ← poll_network_locked;
  x ← get_socket h;
  match x with
  | Tcp s =>
    if bool_decide (state s = CloseWait) || bool_decide (state s = Closed) || bool_decide (state s = Reset) || tx_closed s then fail BrokenPipe else
    if negb (bool_decide (state s = Established)) then fail NotConnected else
    mac ← lift (ok_or GatewayUnreachable (remote_mac s));
    _ ← send_stream h s mac bytes;
    _ ← ignore poll_network_locked;
    mret (zlen bytes)
  | Udp u =>
    '(dip, dp) ← lift (ok_or NotConnected (connected_peer u));
    p ← bind_port h u;
    mac ← resolve_destination_mac dip;
    n ← net_state;
    _ ← transmit (build_udp_frame (our_mac n) mac (our_ip n) dip p dp bytes);
    mret (zlen bytes)
  | Raw =>
    n ← net_state;
    _ ← (if (34 <=? zlen bytes) && is_local (our_ip n) (take 4 (drop 30 bytes)) then _ ← ignore (process_incoming_frame bytes); ignore poll_network_locked
         else transmit bytes);
    mret (zlen bytes)
  end.

Definition push_datagram (h : Z) (d : UdpDatagram) : N bool :=
  n ← net_state;
  match sockets n !! h with
  | Some (Udp u) =>
    _ ← put_net (put_socket n h (Udp {| udp_ip := udp_ip u; udp_port := udp_port u; bound := bound u; connected_peer := connected_peer u;
          rx_queue := rx_queue u ++ [d]; udp_options := udp_options u |}));
    _ ← wake h; mret true
  | _ => mret false
  end.

(** A query to the configured server is answered by the resolver. *)
Definition answer_query (h : Z) (bytes dip : list Z) (dp : Z) : N bool :=
  n ← net_state; tk ← now;
  if bool_decide (dip = dns_server (configuration n)) && (dp =? 53) then
    a ← on_resolver (λ r, handle_dns_datagram r bytes (our_ip n) tk);
    match a with Some data => push_datagram h {| dg_ip := dip; dg_port := dp; dg_data := data |} | None => mret false end
  else mret false.

Definition send_datagram (bytes dip : list Z) (dp p : Z) : N unit :=
  n ← net_state;
  let loop := is_local (our_ip n) dip in
  mac ← (if loop then mret (our_mac n) else resolve_destination_mac dip);
  let frame := build_udp_frame (our_mac n) mac (our_ip n) dip p dp bytes in
  if loop then ignore (process_incoming_frame frame) else transmit frame.

Definition socket_sendto (h : Z) (bytes dip : list Z) (dp : Z) : N Z :=
  _ ← poll_network_locked;
  x ← get_socket h;
  match x with
  | Udp u =>
    p ← bind_port h u;
    done ← answer_query h bytes dip dp;
    _ ← (if done : bool then mret () else send_datagram bytes dip dp p);
    mret (zlen bytes)
  | Tcp s =>
    if negb (bool_decide (state s = Established)) && negb (bool_decide (state s = CloseWait)) then fail NotConnected else
    mac ← lift (ok_or GatewayUnreachable (remote_mac s));
    _ ← send_stream h s mac bytes;
    mret (zlen bytes)
  | Raw =>
    n ← net_state;
    _ ← (if is_local (our_ip n) dip then _ ← ignore (process_incoming_frame bytes); ignore poll_network_locked else transmit bytes);
    mret (zlen bytes)
  end.

(** What one attempt of a receive finds: data with the peer, or [None]. *)
Definition try_recv (h limit : Z) (raw : list Z * list Z * Z) : N (option (list Z * list Z * Z)) :=
  _ ← poll_network_locked;
  x ← get_socket h;
  n ← net_state;
  let len (l : list Z) := Z.to_nat (Z.min (zlen l) limit) in
  match x with
  | Tcp s =>
    if negb (bool_decide (rx_buffer s = [])) then
      _ ← put_net (put_socket n h (Tcp (set_rx s (ack_num s) (drop (len (rx_buffer s)) (rx_buffer s)) (rx_closed s))));
      mret (Some (take (len (rx_buffer s)) (rx_buffer s), remote_ip s, remote_port s))
    else if rx_closed s then mret (Some ([], remote_ip s, remote_port s))
    else if bool_decide (state s = Reset) || bool_decide (state s = Closed) then fail ConnectionReset
    else mret None
  | Udp u =>
    match rx_queue u with
    | [] => mret None
    | d :: rest =>
      _ ← put_net (put_socket n h (Udp {| udp_ip := udp_ip u; udp_port := udp_port u; bound := bound u; connected_peer := connected_peer u;
            rx_queue := rest; udp_options := udp_options u |}));
      mret (Some (take (len (dg_data d)) (dg_data d), dg_ip d, dg_port d))
    end
  | Raw => mret (Some raw)
  end.

Fixpoint recv_loop (attempts : nat) (h limit : Z) (nonblock : bool) : N (list Z * list Z * Z) :=
  match attempts with
  | O => fail WouldBlock
  | S a =>
    r ← try_recv h limit ([], [0; 0; 0; 0], 0);
    match r with
    | Some d => mret d
    | None => if nonblock then fail WouldBlock else recv_loop a h limit nonblock
    end
  end.

Definition socket_recv (h limit : Z) (nonblock : bool) : N (list Z) :=
  if limit =? 0 then mret [] else '(d, _, _) ← recv_loop 100 h limit nonblock; mret d.
Definition socket_recvfrom (h limit : Z) (nonblock : bool) : N (list Z * list Z * Z) := recv_loop 100 h limit nonblock.

Definition fin_frame (n : NetworkState) (s : TcpSocket) (mac : list Z) : list Z :=
  build_tcp_frame (our_mac n) mac (local_source n (remote_ip s)) (remote_ip s) (local_port s) (remote_port s) (seq_num s) (ack_num s)
    (Z.lor TCP_ACK TCP_FIN) DEFAULT_WINDOW_SIZE [].

(** Sending a FIN and waiting for its acknowledgement in state [next]. *)
Definition start_close (h : Z) (s : TcpSocket) (next : TcpState) (mac : list Z) : N unit :=
  n ← net_state; tk ← now;
  _ ← reply (remote_ip s) (fin_frame n s mac);
  n ← net_state;
  put_net (put_socket n h (Tcp (set_entered (set_state (set_seq s (u32 (seq_num s + 1))) next) (Some tk)))).

Definition socket_close (h : Z) : N unit :=
  n ← net_state;
  let remove := put_net (set_sockets n (delete h (sockets n))) in
  match sockets n !! h with
  | Some (Tcp s) =>
    match state s, remote_mac s with
    | Established, Some mac => start_close h s FinWait1 mac
    | CloseWait, Some mac => start_close h s LastAck mac
    | (TimeWait | FinWait1 | FinWait2 | Closing), _ => mret ()
    | _, _ => remove
    end
  | _ => remove
  end.

(** ** Queries and options *)

Definition socket_getsockname (h : Z) : N (list Z * Z) :=
  x ← get_socket h; n ← net_state;
  mret (match x with Tcp s => (local_ip s, local_port s) | Udp u => (udp_ip u, udp_port u) | Raw => (our_ip n, 0) end).
Definition socket_getpeername (h : Z) : N (list Z * Z) :=
  x ← get_socket h;
  match x with
  | Tcp s => if bool_decide (state s = Closed) || bool_decide (state s = Listen) then fail NotConnected else mret (remote_ip s, remote_port s)
  | Udp u => lift (ok_or NotConnected (connected_peer u))
  | Raw => fail NotConnected
  end.

Definition with_option (o : SocketOptions) (level name value : Z) : SocketOptions :=
  let on := negb (value =? 0) in
  let make ra rp rb sb nd := {| reuse_addr := ra; reuse_port := rp; rcvbuf := rb; sndbuf := sb; nonblocking := nonblocking o; tcp_nodelay := nd |} in
  if level =? 6 then if name =? 1 then make (reuse_addr o) (reuse_port o) (rcvbuf o) (sndbuf o) on else o
  else if name =? 2 then make on (reuse_port o) (rcvbuf o) (sndbuf o) (tcp_nodelay o)
  else if name =? 15 then make (reuse_addr o) on (rcvbuf o) (sndbuf o) (tcp_nodelay o)
  else if name =? 8 then make (reuse_addr o) (reuse_port o) value (sndbuf o) (tcp_nodelay o)
  else if name =? 7 then make (reuse_addr o) (reuse_port o) (rcvbuf o) value (tcp_nodelay o)
  else o.

Definition socket_setsockopt (h level name value : Z) : N unit :=
  x ← get_socket h; n ← net_state;
  match x with
  | Tcp s => put_net (put_socket n h (Tcp (set_addresses s (local_ip s) (local_port s) (remote_ip s) (remote_port s) (with_option (options s) level name value))))
  | Udp u => put_net (put_socket n h (Udp {| udp_ip := udp_ip u; udp_port := udp_port u; bound := bound u; connected_peer := connected_peer u;
               rx_queue := rx_queue u; udp_options := with_option (udp_options u) level name value |}))
  | Raw => mret ()
  end.

Definition bit (b : bool) : Z := if b then 1 else 0.
Definition socket_getsockopt (h level name : Z) : N Z :=
  x ← get_socket h;
  let '(t, o) := match x with Tcp s => (1, options s) | Udp u => (2, udp_options u) | Raw => (3, default_options) end in
  mret (if (level =? 6) && (name =? 1) then bit (tcp_nodelay o)
        else if name =? 2 then bit (reuse_addr o) else if name =? 15 then bit (reuse_port o)
        else if name =? 3 then t else if name =? 4 then 0
        else if name =? 8 then u32 (rcvbuf o) else if name =? 7 then u32 (sndbuf o) else 0).

(** [socket_has_pending_data] and [socket_can_write], on the stack's state. *)
Definition has_pending_data (n : NetworkState) (h : Z) : bool :=
  match sockets n !! h with
  | Some (Udp u) => negb (bool_decide (rx_queue u = []))
  | Some (Tcp s) => negb (bool_decide (rx_buffer s = [])) || negb (bool_decide (accept_queue s = [])) || rx_closed s ||
                    bool_decide (state s = Reset) || bool_decide (state s = Closed)
  | _ => false
  end.
Definition can_write (n : NetworkState) (h : Z) : bool :=
  match sockets n !! h with Some (Tcp s) => can_send (state s) && negb (tx_closed s) | Some _ => true | None => false end.
Definition socket_has_data (h : Z) : N bool := λ k,
  match network k with
  | None => (k, Ok false)
  | Some _ =>
    (_ ← ignore poll_network_locked;
     n ← net_state;
     mret (match sockets n !! h with
           | Some (Tcp s) => negb (bool_decide (rx_buffer s = [])) || negb (bool_decide (accept_queue s = [])) || rx_closed s
           | Some (Udp u) => negb (bool_decide (rx_queue u = []))
           | _ => false
           end)) k
  end.
End network.
