(* ===== verification/TcpSpec.v ===== *)
(** * What TCP promises here

    The receiver delivers the peer's bytes in order and once, whatever the
    network loses, repeats or reorders; a handshake makes both ends agree on
    the next bytes, also when the queue of the listener is full and a cookie
    stands for its entry. *)

From stdpp Require Import gmap list.
From S2P Require Import Prelude Words BTree Abi Dns Net NetSpec Sockets Network.

(** ** The receiver *)

(** A segment as the handler sees it, or a read of at most [n] bytes. *)
Inductive rx_event := Segment (t : TcpHeader) (payload : list Z) | Take (n : nat).

(** The socket and what has been read from it. *)
Definition rx_step (now : Z) (mac : list Z) (x : TcpSocket * list Z) (e : rx_event) : TcpSocket * list Z :=
  match e with
  | Segment t payload => ((tcp_input now x.1 mac t payload).1.1, x.2)
  | Take n => (set_rx x.1 (ack_num x.1) (drop n (rx_buffer x.1)) (rx_closed x.1), x.2 ++ take n (rx_buffer x.1))
  end.

Section stream.
(** The peer sends [stream], whose first byte has sequence number [base]. *)
Context (stream : list Z) (base : Z) (Hlen : zlen stream + 1 < 2 ^ 32) (now : Z) (mac : list Z).

Definition seq_at (o : Z) : Z := u32 (base + o).

Lemma seq_at_inj a b : 0 ≤ a ≤ zlen stream → 0 ≤ b ≤ zlen stream → seq_at a = seq_at b → a = b.
Proof.
  intros Ha Hb. unfold seq_at, wrap. intros He. pose proof (Z.div_mod (base + a) (2 ^ 32) ltac:(lia)). pose proof (Z.div_mod (base + b) (2 ^ 32) ltac:(lia)). nia.
Qed.
Lemma seq_at_next o n : u32 (seq_at o + u32 n) = seq_at (o + n).
Proof. unfold seq_at. rewrite wrap_add_l, wrap_add_r. f_equal. lia. Qed.

(** A segment the peer sends, in any order and any number of times: some
    bytes of the stream under their number, and a FIN only behind the last. *)
Definition genuine (t : TcpHeader) (payload : list Z) : Prop :=
  has (flags t) TCP_RST = false ∧
  ∃ o, 0 ≤ o ∧ o + zlen payload ≤ zlen stream ∧ sequence t = seq_at o ∧ payload = take (length payload) (drop (Z.to_nat o) stream) ∧
    (has (flags t) TCP_FIN = true → o + zlen payload = zlen stream).

(** So much has arrived. *)
Definition arrived (x : TcpSocket * list Z) : list Z := x.2 ++ rx_buffer x.1.

Record receiving (x : TcpSocket * list Z) : Prop := {
  rc_state : state x.1 = if rx_closed x.1 then CloseWait else Established;
  rc_prefix : arrived x = take (length (arrived x)) stream;
  rc_ack : ack_num x.1 = seq_at (zlen (arrived x) + (if rx_closed x.1 then 1 else 0));
  rc_closed : rx_closed x.1 = true → arrived x = stream }.

Definition genuine_event (e : rx_event) : Prop := match e with Segment t payload => genuine t payload | Take _ => True end.

(** A FIN that ends the stream is in order: its sequence number is the next
    expected one, or all bytes have arrived.  The code does not check this. *)
Definition fin_due (x : TcpSocket * list Z) (e : rx_event) : Prop :=
  match e with
  | Segment t _ => has (flags t) TCP_FIN = true → rx_closed x.1 = false → sequence t = ack_num x.1 ∨ arrived x = stream
  | Take _ => True
  end.
Fixpoint fins_due (x : TcpSocket * list Z) (es : list rx_event) : Prop :=
  match es with [] => True | e :: es => fin_due x e ∧ fins_due (rx_step now mac x e) es end.

Lemma take_drop_prefix (l p : list Z) : l = take (length l) stream → p = take (length p) (drop (length l) stream) →
  l ++ p = take (length (l ++ p)) stream.
Proof.
  intros Hl Hp. rewrite length_app. rewrite <- take_take_drop. by rewrite <- Hl, <- Hp.
Qed.

Lemma prefix_length (l : list Z) : l = take (length l) stream → zlen l ≤ zlen stream.
Proof. intros Hl. rewrite Hl, length_take. lia. Qed.

(** Data of a genuine segment: it extends the prefix or changes nothing. *)
Lemma input_data_receiving s got t payload : receiving (s, got) → genuine t payload → rx_closed s = false →
  let s' := (input_data s t payload).1.1 in
  state s' = Established ∧ rx_closed s' = false ∧ arrived (s', got) = take (length (arrived (s', got))) stream ∧
  ack_num s' = seq_at (zlen (arrived (s', got))) ∧
  ∃ more, arrived (s', got) = arrived (s, got) ++ more ∧ (sequence t = ack_num s → more = payload).
Proof.
  intros [Hst Hpre Hack _] (_ & o & Ho & Hob & Hseq & Hpay & _) Hc. cbn [fst] in *. rewrite Hc in *. rewrite Z.add_0_r in Hack.
  unfold input_data. case_bool_decide as Hne.
  { subst payload. split_and!; try done. exists []. by rewrite app_nil_r. }
  destruct (Z.eqb_spec (sequence t) (ack_num s)) as [He|Hn]; last first.
  { case_match; cbn [fst]; split_and!; try done; exists []; by rewrite app_nil_r. }
  pose proof (prefix_length _ Hpre). rewrite Hseq, Hack in He. apply seq_at_inj in He; [|lia..]. subst o.
  unfold arrived in *. cbn [fst snd set_rx rx_buffer ack_num state rx_closed] in *. rewrite app_assoc. split_and!; [done..| | |].
  - apply take_drop_prefix; [done|]. by rewrite Nat2Z.id in Hpay.
  - rewrite Hack, seq_at_next. f_equal. rewrite !length_app. lia.
  - by exists payload.
Qed.

(** After the FIN the stream is complete, so nothing is in order any more. *)
Lemma input_data_closed s got t payload : receiving (s, got) → genuine t payload → rx_closed s = true →
  (input_data s t payload).1.1 = s.
Proof.
  intros [Hst Hpre Hack Hcl] (_ & o & Ho & Hob & Hseq & Hpay & _) Hc. cbn [fst] in *. rewrite Hc in *. specialize (Hcl eq_refl).
  unfold input_data. case_bool_decide as Hne; [done|]. destruct (Z.eqb_spec (sequence t) (ack_num s)) as [He|_]; [|by case_match].
  exfalso. rewrite Hseq, Hack, Hcl in He. assert (payload ≠ [] → 1 ≤ zlen payload) by (destruct payload; [done|cbn; lia]).
  assert (o < zlen stream) by (specialize (H Hne); lia). unfold seq_at, wrap in He.
  pose proof (Z.div_mod (base + o) (2 ^ 32) ltac:(lia)). pose proof (Z.div_mod (base + (zlen stream + 1)) (2 ^ 32) ltac:(lia)). nia.
Qed.
Lemma prefix_complete (l : list Z) : l = take (length l) stream → zlen stream ≤ zlen l → l = stream.
Proof. intros Hl Hn. rewrite Hl. apply take_ge. lia. Qed.

Lemma input_open_receiving s got t payload : receiving (s, got) → genuine t payload → fin_due (s, got) (Segment t payload) →
  receiving ((input_open s t payload).1.1, got).
Proof.
  intros Hr Hg Hfin. unfold input_open. destruct (rx_closed s) eqn:Hc.
  - pose proof (input_data_closed _ _ _ _ Hr Hg Hc) as Hd. destruct (input_data s t payload) as [[s1 out] w]. cbn [fst] in Hd. subst s1.
    destruct Hr as [Hst Hpre Hack Hcl]. cbn [fst] in *. rewrite Hc in Hst, Hack.
    destruct (has (flags t) TCP_ACK); rewrite (bool_decide_false (_ = Established)) by (cbn; congruence); rewrite andb_false_r; cbn [fst];
      (split; cbn [fst set_peer state rx_closed ack_num]; [by rewrite Hc|exact Hpre|by rewrite Hc|exact Hcl]).
  - destruct (input_data_receiving _ _ _ _ Hr Hg Hc) as (Hst & Hc' & Hpre & Hack & more & Hm & Hin).
    destruct (input_data s t payload) as [[s1 out] w]. cbn [fst] in *.
    set (s2 := if has (flags t) TCP_ACK then _ else _). 
    assert (state s2 = Established ∧ rx_closed s2 = false ∧ arrived (s2, got) = arrived (s1, got) ∧ ack_num s2 = ack_num s1) as (Hst2 & Hc2 & Ha2 & Hk2)
      by (subst s2; by destruct (has (flags t) TCP_ACK)).
    clearbody s2. rewrite bool_decide_true, andb_true_r by done. destruct (has (flags t) TCP_FIN) eqn:Hf; cbn [fst].
    + assert (arrived (s1, got) = stream) as Hall.
      { destruct (Hfin Hf Hc) as [Hs|Hs]; cbn [fst] in Hs; apply prefix_complete; try done; rewrite Hm, length_app, Nat2Z.inj_add; [|rewrite Hs; lia].
        destruct Hg as (_ & o & Ho & Hob & Hseq & Hpay & Hlast). rewrite (Hin Hs). specialize (Hlast Hf). rewrite Hs in Hseq.
        destruct Hr as [_ Hpre0 Hack0 _]. cbn [fst] in *. rewrite Hc, Z.add_0_r in Hack0. rewrite Hseq in Hack0.
        apply seq_at_inj in Hack0; [lia..|]. pose proof (prefix_length _ Hpre0). lia. }
      assert (arrived (set_state (set_rx s2 (u32 (ack_num s2 + 1)) (rx_buffer s2) true) CloseWait, got) = arrived (s2, got)) as Hsame by done.
      split; cbn [fst]; rewrite ?Hsame; [done|by rewrite Ha2| |by rewrite Ha2]. cbn [set_state set_rx ack_num rx_closed].
      rewrite Hk2, Hack, Ha2. unfold seq_at. rewrite wrap_add_l. f_equal. lia.
    + split; cbn [fst]; rewrite ?Hc2, ?Ha2; [done..|by rewrite Hk2, Z.add_0_r|done].
Qed.

Lemma rx_step_receiving x e : receiving x → genuine_event e → fin_due x e → receiving (rx_step now mac x e).
Proof.
  destruct x as [s got], e as [t payload|n]; intros Hr Hg Hfin; cbn [rx_step fst snd genuine_event] in *.
  - unfold tcp_input. rewrite (proj1 Hg). pose proof (rc_state _ Hr) as Hst. cbn [fst] in Hst.
    assert (receiving ((input_open s t payload).1.1, got)) by (by apply input_open_receiving).
    destruct (rx_closed s); by rewrite Hst.
  - destruct Hr as [Hst Hpre Hack Hcl]. assert (arrived (set_rx s (ack_num s) (drop n (rx_buffer s)) (rx_closed s), got ++ take n (rx_buffer s)) = arrived (s, got)) as Ha.
    { unfold arrived. cbn. by rewrite <- app_assoc, take_drop. }
    split; cbn [fst]; rewrite ?Ha; done.
Qed.

Lemma rx_run_receiving es : ∀ x, receiving x → Forall genuine_event es → fins_due x es → receiving (foldl (rx_step now mac) x es).
Proof. induction es as [|e es IH]; intros x Hx; [done|]. intros [Hg Hgs]%Forall_cons [He Hes]. apply IH; [by apply rx_step_receiving|done..]. Qed.

(** Once a FIN has been taken, the socket stays closed for the peer. *)
Definition shut (x : TcpSocket * list Z) : Prop := state x.1 = CloseWait ∧ rx_closed x.1 = true.
Lemma rx_step_shut x e : genuine_event e → shut x → shut (rx_step now mac x e).
Proof.
  destruct x as [s got], e as [t payload|n]; intros Hg [Hst Hc]; cbn [rx_step fst snd genuine_event] in *; [|done].
  unfold shut, tcp_input. rewrite (proj1 Hg). cbn [fst]. rewrite Hst. unfold input_open.
  assert (state (input_data s t payload).1.1 = CloseWait ∧ rx_closed (input_data s t payload).1.1 = true) as [Hs Hr] by (unfold input_data; repeat case_match; done).
  destruct (input_data s t payload) as [[s1 out] w]. cbn [fst] in *.
  destruct (has (flags t) TCP_ACK); rewrite (bool_decide_false (_ = Established)) by (cbn; congruence); by rewrite andb_false_r.
Qed.

(** A FIN out of order shuts the socket. *)
Lemma rx_step_open x e : receiving x → rx_closed x.1 = false → genuine_event e → receiving (rx_step now mac x e) ∨ shut (rx_step now mac x e).
Proof.
  intros Hx Hc Hg. destruct e as [t payload|n]; [|by left; apply rx_step_receiving].
  destruct (has (flags t) TCP_FIN) eqn:Hf; [right|left; apply rx_step_receiving; [done..|]; cbn; congruence].
  destruct x as [s got]. cbn [rx_step fst snd genuine_event] in *. pose proof (rc_state _ Hx) as Hst. cbn [fst] in Hst. rewrite Hc in Hst.
  destruct (input_data_receiving _ _ _ _ Hx Hg Hc) as (Hst1 & _). unfold shut, tcp_input. rewrite (proj1 Hg). rewrite Hst. unfold input_open.
  destruct (input_data s t payload) as [[s1 out] w]. cbn [fst] in *. rewrite Hf, bool_decide_true; [done|]. by destruct (has (flags t) TCP_ACK).
Qed.
Lemma rx_run_open es : ∀ x, receiving x ∧ rx_closed x.1 = false ∨ shut x → Forall genuine_event es →
  let y := foldl (rx_step now mac) x es in rx_closed y.1 = false → receiving y.
Proof.
  induction es as [|e es IH]; intros x Hx Hes; cbn [foldl]; [intros Hc; destruct Hx as [[? _]|[_ ?]]; [done|congruence]|].
  apply Forall_cons in Hes as [He Hes]. apply IH; [|done]. destruct Hx as [[Hx Hc]|Hx]; [|right; by apply rx_step_shut].
  destruct (rx_step_open x e Hx Hc He) as [Hr|Hs]; [|by right]. destruct (rx_closed (rx_step now mac x e).1) eqn:Hc'; [right|by left].
  split; [|done]. rewrite (rc_state _ Hr). by rewrite Hc'.
Qed.

(** The next segment in order, at any point. *)
Lemma in_order_advances x t payload : receiving x → genuine t payload → rx_closed x.1 = false → sequence t = ack_num x.1 →
  arrived (rx_step now mac x (Segment t payload)) = arrived x ++ payload.
Proof.
  destruct x as [s got]. intros Hr Hg Hc Hs. cbn [fst] in Hc, Hs. cbn [rx_step fst snd]. unfold tcp_input. rewrite (proj1 Hg).
  pose proof (rc_state _ Hr) as Hst. cbn [fst] in Hst. rewrite Hc in Hst. rewrite Hst.
  destruct (input_data_receiving _ _ _ _ Hr Hg Hc) as (_ & _ & _ & _ & more & Hm & Hin). rewrite (Hin Hs) in Hm. rewrite <- Hm.
  unfold input_open. destruct (input_data s t payload) as [[s1 out] w]. cbn [fst]. destruct (has (flags t) TCP_ACK), (_ && _); done.
Qed.

(** C13: A connected socket that is not closed locally and gets no reset
    receives the peer's stream in order and once.  Take any sequence of reads
    and of segments of the peer's stream, in any order, repeated and lost at
    will, with a FIN only behind the last byte.  As long as no FIN has been
    taken, the bytes read and waiting are a prefix of what the peer sent, the
    acknowledgement number is that of the first byte that is missing, and the
    next segment in order is taken.  The end of the stream is reported with
    all of it there if the FINs arrive in order ([fins_due]: the next expected
    sequence number, or everything has arrived).  That condition is needed,
    since the code takes any FIN: see [early_fin_truncates] and
    [early_fin_skips_a_byte].  The stream is shorter than 4 GiB. *)
Theorem tcp_stream_in_order x es : receiving x → rx_closed x.1 = false → Forall genuine_event es →
  let y := foldl (rx_step now mac) x es in
  (rx_closed y.1 = false →
    y.2 `prefix_of` stream ∧ arrived y `prefix_of` stream ∧ state y.1 = Established ∧ ack_num y.1 = seq_at (zlen (arrived y)) ∧
    ∀ t payload, genuine t payload → sequence t = ack_num y.1 → arrived (rx_step now mac y (Segment t payload)) = arrived y ++ payload) ∧
  (rx_closed y.1 = true → fins_due x es →
    y.2 `prefix_of` stream ∧ arrived y = stream ∧ state y.1 = CloseWait ∧ ack_num y.1 = seq_at (zlen stream + 1)).
Proof.
  intros Hx Hc0 Hes y.
  assert (Hread : receiving y → y.2 `prefix_of` stream).
  { intros Hy. exists (rx_buffer y.1 ++ drop (length (arrived y)) stream). rewrite app_assoc. change (y.2 ++ rx_buffer y.1) with (arrived y).
    rewrite (rc_prefix _ Hy) at 1. by rewrite take_drop. }
  split; intros Hc.
  - assert (receiving y) as Hy by (apply rx_run_open; [by left|done..]). split_and!; [auto|rewrite (rc_prefix _ Hy); apply prefix_take| | |].
    + rewrite (rc_state _ Hy). by rewrite Hc.
    + rewrite (rc_ack _ Hy), Hc. by rewrite Z.add_0_r.
    + intros t payload Hg Hs. by apply in_order_advances.
  - intros Hdue. assert (receiving y) as Hy by (by apply rx_run_receiving). split_and!; [auto|by apply (rc_closed _ Hy)| |].
    + rewrite (rc_state _ Hy). by rewrite Hc.
    + rewrite (rc_ack _ Hy), Hc. by rewrite (rc_closed _ Hy Hc).
Qed.
End stream.

(** *** A stream of five bytes across the wrap of the sequence number *)

Definition segment_of (seq fl : Z) : TcpHeader := header_of 80 49152 seq 1 fl 0xffff 0.
Definition open_socket (seq ack : Z) : TcpSocket :=
  set_state (set_rx (set_seq (set_addresses (new_tcp [10; 0; 2; 15]) [10; 0; 2; 15] 49152 [10; 0; 2; 2] 80 default_options) seq) ack [] false) Established.

(** The second segment comes first, the first twice, a read in between, and
    the FIN with the last bytes. *)
Definition shuffled : list rx_event :=
  [Segment (segment_of (2 ^ 32 - 1) TCP_ACK) [3; 4]; Segment (segment_of (2 ^ 32 - 3) TCP_ACK) [1; 2]; Take 1;
   Segment (segment_of (2 ^ 32 - 3) TCP_ACK) [1; 2]; Segment (segment_of (2 ^ 32 - 1) TCP_ACK) [3; 4];
   Segment (segment_of 1 (Z.lor TCP_ACK TCP_FIN)) [5]; Segment (segment_of 1 (Z.lor TCP_ACK TCP_FIN)) [5]].

Lemma genuine_at o payload fl : 0 ≤ o → o + zlen payload ≤ 5 → payload = take (length payload) (drop (Z.to_nat o) [1; 2; 3; 4; 5]) →
  has fl TCP_RST = false → (has fl TCP_FIN = true → o + zlen payload = 5) →
  genuine [1; 2; 3; 4; 5] (2 ^ 32 - 3) (segment_of (u32 (2 ^ 32 - 3 + o)) fl) payload.
Proof. intros. split; [done|]. by exists o. Qed.

Lemma shuffled_genuine : Forall (genuine_event [1; 2; 3; 4; 5] (2 ^ 32 - 3)) shuffled.
Proof.
  repeat constructor; cbn [genuine_event];
    [apply (genuine_at 2)|apply (genuine_at 0)|apply (genuine_at 0)|apply (genuine_at 2)|apply (genuine_at 4)|apply (genuine_at 4)]; done.
Qed.

Lemma tcp_stream_in_order_witness :
  let y := foldl (rx_step 0 []) (open_socket 1 (2 ^ 32 - 3), []) shuffled in
  arrived y = [1; 2; 3; 4; 5] ∧ y.2 `prefix_of` [1; 2; 3; 4; 5] ∧
  (foldl (rx_step 0 []) (open_socket 1 (2 ^ 32 - 3), []) (take 4 shuffled)).2 `prefix_of` [1; 2; 3; 4; 5].
Proof.
  assert (zlen [1; 2; 3; 4; 5] + 1 < 2 ^ 32) as Hl by (cbn; lia).
  assert (receiving [1; 2; 3; 4; 5] (2 ^ 32 - 3) (open_socket 1 (2 ^ 32 - 3), [])) as Hr by (split; vm_compute; done).
  assert (fins_due [1; 2; 3; 4; 5] 0 [] (open_socket 1 (2 ^ 32 - 3), []) shuffled) as Hd.
  { repeat split; try (vm_compute; discriminate). intros _ _. left. vm_compute. reflexivity. }
  split; [vm_compute; reflexivity|]. split.
  - exact (proj1 (proj2 (tcp_stream_in_order [1; 2; 3; 4; 5] (2 ^ 32 - 3) Hl 0 [] _ shuffled Hr eq_refl shuffled_genuine) eq_refl Hd)).
  - exact (proj1 (proj1 (tcp_stream_in_order [1; 2; 3; 4; 5] (2 ^ 32 - 3) Hl 0 [] _ (take 4 shuffled) Hr eq_refl (Forall_take _ 4 _ shuffled_genuine)) eq_refl)).
Defined.

(** ** Where the stream breaks *)

(** A FIN is accepted whatever its sequence number: if the last data segment is
    lost, the socket reports the end of the stream, and the data that is sent
    again is then acknowledged without being taken. *)
Theorem early_fin_truncates :
  let x := rx_step 0 [] (open_socket 1 100, []) (Segment (segment_of 105 (Z.lor TCP_ACK TCP_FIN)) []) in
  let y := rx_step 0 [] x (Segment (segment_of 100 TCP_ACK) [1; 2; 3; 4; 5]) in
  state x.1 = CloseWait ∧ rx_closed x.1 = true ∧ arrived x = [] ∧ arrived y = [] ∧
  (tcp_input 0 x.1 [] (segment_of 100 TCP_ACK) [1; 2; 3; 4; 5]).1.2 = [(1, 101)].
Proof. by vm_compute. Qed.

(** A FIN that comes early takes the sequence number of the first missing
    byte, so that the data behind that byte is then taken as if in order: of
    the stream 1 2 3 4 5 the reader gets 1 2 4 5. *)
Theorem early_fin_skips_a_byte :
  arrived (foldl (rx_step 0 []) (open_socket 1 100, [])
    [Segment (segment_of 100 TCP_ACK) [1; 2]; Segment (segment_of 105 (Z.lor TCP_ACK TCP_FIN)) [];
     Segment (segment_of 103 TCP_ACK) [4; 5]]) = [1; 2; 4; 5].
Proof. by vm_compute. Qed.

(** A repeated segment is acknowledged again only if its number is below the
    expected one as an integer: across the wrap it is not. *)
Theorem repeat_across_wrap_unanswered :
  (tcp_input 0 (open_socket 1 12) [] (segment_of 7 TCP_ACK) [1; 2; 3; 4; 5]).1.2 = [(1, 12)] ∧
  (tcp_input 0 (open_socket 1 2) [] (segment_of (2 ^ 32 - 3) TCP_ACK) [1; 2; 3; 4; 5]).1.2 = [].
Proof. by vm_compute. Qed.
