(* ===== verification/TcpHandshake.v ===== *)
(** * The TCP handshake

    Both ends of a completed handshake agree on the next bytes in both
    directions, whatever other peers do to the listener in between.  When the
    listener's queue is full nothing is stored: a SYN cookie carries the entry
    in the sequence number, and the ACK is checked against the cookie. *)

From stdpp Require Import gmap list.
From S2P Require Import Prelude Words BTree Abi Dns Net NetSpec Sockets Network.

(** ** SYN cookies *)

Lemma low5 t : Z.land t 0x1f = t mod 32.
Proof. exact (Z.land_ones t 5 ltac:(lia)). Qed.
Lemma low24 t : Z.land t 0xffffff = t mod 2 ^ 24.
Proof. exact (Z.land_ones t 24 ltac:(lia)). Qed.

(** The fields of a cookie do not overlap. *)
Lemma cookie_fields x h : 0 ≤ x < 32 → is_u 24 h →
  let c := Z.lor (Z.lor (u32 (Z.shiftl x 27)) (u32 (Z.shiftl (Z.land 1 7) 24))) h in
  Z.shiftr c 27 = x ∧ Z.land c 0xffffff = h ∧ is_u 32 c.
Proof.
  intros Hx Hh c. assert (c = Z.lor (x * 2 ^ 27 + 2 ^ 24) h) as ->.
  { unfold c. f_equal. assert (∀ i, (i < 32)%nat → Z.lor (u32 (Z.shiftl (Z.of_nat i) 27)) (u32 (Z.shiftl (Z.land 1 7) 24)) = Z.of_nat i * 2 ^ 27 + 2 ^ 24) as H.
    { intros i Hi. do 32 (destruct i as [|i]; [reflexivity|]). lia. }
    rewrite <- (Z2Nat.id x) by lia. apply H. lia. }
  assert (Z.shiftr h 27 = 0) as Hs by (rewrite Z.shiftr_div_pow2 by lia; apply Z.div_small; unfold is_u in Hh; lia).
  assert (Z.land (x * 2 ^ 27 + 2 ^ 24) 0xffffff = 0) as Hz.
  { rewrite low24. replace (x * 2 ^ 27 + 2 ^ 24) with ((x * 8 + 1) * 2 ^ 24) by lia. by apply Z.mod_mul. }
  split_and!.
  - rewrite Z.shiftr_lor, Hs, Z.lor_0_r, Z.shiftr_div_pow2 by lia. symmetry. apply (Z.div_unique _ _ _ (2 ^ 24)); lia.
  - rewrite Z.land_lor_distr_l, Hz, Z.lor_0_l, low24. apply Z.mod_small. exact Hh.
  - apply is_u_lor; [lia| |]; unfold is_u in *; lia.
Qed.

(** A cookie is accepted by the connection it was made for, in its minute and
    the two that follow. *)
Lemma syn_cookie_valid lip rip lp rp seq t d : 0 ≤ t → t + d < 2 ^ 32 → 0 ≤ d ≤ 2 →
  validate_syn_cookie (generate_syn_cookie lip rip lp rp seq t) lip rip lp rp seq (t + d) = true ∧
  is_u 32 (generate_syn_cookie lip rip lp rp seq t).
Proof.
  intros Ht Htd Hd. unfold generate_syn_cookie, validate_syn_cookie. set (h := Z.land (Z.lxor _ seq) _).
  assert (is_u 24 h) as Hh by (unfold h; rewrite low24; apply Z.mod_pos_bound; lia).
  assert (0 ≤ Z.land t 31 < 32) as H5 by (rewrite low5; apply Z.mod_pos_bound; lia).
  destruct (cookie_fields (Z.land t 31) h H5 Hh) as (Hf & Hg & Hc). rewrite Hf, Hg. split; [|exact Hc].
  assert (u32 (Z.land (t + d) 31 + 32 - Z.land (Z.land t 31) 31) mod 32 = d) as ->.
  { rewrite <- Z.land_assoc, Z.land_diag. rewrite wrap_small; rewrite !low5; [|unfold is_u; Z.div_mod_to_equations; lia].
    Z.div_mod_to_equations. lia. }
  rewrite (proj2 (Z.ltb_ge 2 d)) by lia. replace (t + d - d) with t by lia. rewrite wrap_small by (unfold is_u; lia). apply Z.eqb_refl.
Qed.

(** ** What a listener remembers of a peer *)

Definition of_peer (src : list Z) (port : Z) (p : PendingSyn) : Prop := ps_ip p = src ∧ ps_port p = port.
#[export] Instance of_peer_dec src port p : Decision (of_peer src port p).
Proof. apply _. Defined.
Definition pending (l : TcpSocket) (src : list Z) (port : Z) : option PendingSyn := head (filter (of_peer src port) (pending_syns l)).

Lemma list_find_head {A} (P : A → Prop) `{∀ x, Decision (P x)} l : snd <$> list_find P l = head (filter P l).
Proof.
  induction l as [|x l IH]; [done|]. rewrite filter_cons. cbn [list_find]. case_decide; [done|]. rewrite <- IH.
  by destruct (list_find P l) as [[i y]|].
Qed.
Lemma list_find_none {A} (P : A → Prop) `{∀ x, Decision (P x)} l : head (filter P l) = None → list_find P l = None.
Proof. rewrite <- list_find_head. by destruct (list_find P l). Qed.
Lemma list_find_some {A} (P : A → Prop) `{∀ x, Decision (P x)} l x : head (filter P l) = Some x → ∃ i, list_find P l = Some (i, x).
Proof. rewrite <- list_find_head. destruct (list_find P l) as [[i y]|]; cbn; [|done]. intros [= ->]. by exists i. Qed.

Lemma filter_none {A} (P : A → Prop) `{∀ x, Decision (P x)} l : (∀ x, ¬ P x) → filter P l = [].
Proof. intros HP. induction l as [|x l IH]; [done|]. by rewrite filter_cons_False. Qed.

(** Removing entries that are not the peer's. *)
Lemma head_filter_keep {A} (P Q : A → Prop) `{∀ x, Decision (P x), ∀ x, Decision (Q x)} (l : list A) :
  (∀ x, P x → Q x) → filter P (filter Q l) = filter P l.
Proof. intros HPQ. rewrite list_filter_filter. apply list_filter_iff. naive_solver. Qed.
Lemma filter_delete_other {A} (P : A → Prop) `{∀ x, Decision (P x)} (l : list A) i x : l !! i = Some x → ¬ P x → filter P (delete i l) = filter P l.
Proof.
  intros Hi Hx. rewrite delete_take_drop. rewrite <- (take_drop_middle l i x Hi) at 3. by rewrite !filter_app, filter_cons_False.
Qed.
(** An entry that survives a sweep is still the first. *)
Lemma head_filter_first {A} (P Q : A → Prop) `{∀ x, Decision (P x), ∀ x, Decision (Q x)} (l : list A) :
  (∀ x, head (filter P l) = Some x → Q x) → head (filter P (filter Q l)) = head (filter P l).
Proof.
  induction l as [|x l IH]; intros HQ; [done|]. rewrite (filter_cons P x l) in *. case_decide as HP.
  - specialize (HQ x eq_refl). by rewrite (filter_cons_True Q), (filter_cons_True P).
  - rewrite (filter_cons Q). case_decide; [rewrite filter_cons_False by done|]; by apply IH.
Qed.

(** ** What other peers and the timer do to a listener *)

Inductive listener_event := OtherSyn (src mac : list Z) (t : TcpHeader) (isn : Z) | OtherAck (src : list Z) (t : TcpHeader) | Sweep.

Definition listener_step (our : list Z) (l : TcpSocket) (e : Z * listener_event) : TcpSocket :=
  match e.2 with
  | OtherSyn src mac t isn => (listen_syn l our src mac t isn e.1).1
  | OtherAck src t => (listen_ack l our src t e.1).1
  | Sweep => match check_socket e.1 (Tcp l) with Some (Tcp l') => l' | _ => l end
  end.

(** Segments of other peers, and sweeps within three seconds of [since]. *)
Definition unrelated (src : list Z) (port since : Z) (e : Z * listener_event) : Prop :=
  match e.2 with
  | OtherSyn src' _ t _ | OtherAck src' t => ¬ (src' = src ∧ src_port t = port)
  | Sweep => saturating_sub e.1 since < 3000
  end.

Lemma listener_step_pending our l src port since e : unrelated src port since e →
  (∀ p, pending l src port = Some p → created_tick p = since) → pending (listener_step our l e) src port = pending l src port.
Proof.
  destruct e as [now [src' mac t isn|src' t|]]; unfold unrelated, listener_step; cbn [fst snd]; intros Hu Hs.
  - unfold listen_syn. case_match; [done|]. unfold pending. cbn [fst set_queues pending_syns]. rewrite filter_app.
    rewrite filter_cons_False by (unfold of_peer; cbn; naive_solver). rewrite app_nil_r. f_equal. apply head_filter_keep. unfold of_peer. naive_solver.
  - unfold listen_ack. destruct (list_find _ (pending_syns l)) as [[pos p]|] eqn:Hf; [|done]. apply list_find_Some in Hf as (Hp & Hpp & _).
    unfold pending. cbn [fst set_queues pending_syns]. f_equal. apply (filter_delete_other _ _ _ p); [done|]. unfold of_peer. naive_solver.
  - unfold check_socket. destruct (state l); try done; try (destruct (expired _ _ _); done). unfold pending. cbn [set_queues pending_syns].
    apply head_filter_first. intros p Hp. by rewrite (Hs p Hp).
Qed.

Lemma listener_run_pending our src port since es : ∀ l, Forall (unrelated src port since) es →
  (∀ p, pending l src port = Some p → created_tick p = since) → pending (foldl (listener_step our) l es) src port = pending l src port.
Proof.
  induction es as [|e es IH]; intros l Hes Hs; [done|]. apply Forall_cons in Hes as [He Hes]. cbn.
  pose proof (listener_step_pending our l src port since e He Hs) as Hp. rewrite IH, Hp; [done|done|]. by rewrite Hp.
Qed.

(** ** The handshake *)

Lemma listen_syn_queued l our src mac t isn now : zlen (pending_syns l) < backlog l →
  let '(l', q) := listen_syn l our src mac t isn now in
  q = isn ∧ ∃ p, pending l' src (src_port t) = Some p ∧ our_isn p = isn ∧ created_tick p = now.
Proof.
  intros Hb. unfold listen_syn. rewrite (proj2 (Z.leb_gt _ _)) by done. split; [done|]. unfold pending. cbn [set_queues pending_syns].
  rewrite filter_app, list_filter_filter. rewrite (filter_none _ (pending_syns l)) by (unfold of_peer; naive_solver).
  rewrite filter_cons_True by done. cbn. eauto.
Qed.

Lemma listen_ack_find l our src t now : (listen_ack l our src t now).2 =
  match list_find (of_peer src (src_port t)) (pending_syns l) with
  | Some (_, p) => if acknowledgement t =? u32 (our_isn p + 1) then Some (our_isn p) else None
  | None => let cookie := u32 (acknowledgement t - 1) in
    if validate_syn_cookie cookie our src (dest_port t) (src_port t) (u32 (sequence t - 1)) (u32 (now / 60000)) then Some cookie else None
  end.
Proof. unfold listen_ack. change (list_find (λ p, ps_ip p = src ∧ _) _) with (list_find (of_peer src (src_port t)) (pending_syns l)). by destruct (list_find _ _) as [[??]|]. Qed.

Lemma listen_ack_queued l our src t now p : pending l src (src_port t) = Some p → acknowledgement t = u32 (our_isn p + 1) →
  (listen_ack l our src t now).2 = Some (our_isn p).
Proof.
  intros [i Hf]%list_find_some Ha. rewrite listen_ack_find, Hf. cbn. by rewrite Ha, Z.eqb_refl.
Qed.

Lemma wrap_pred_succ x : is_u 32 x → u32 (u32 (x + 1) - 1) = x.
Proof. intros Hx. unfold Z.sub. rewrite wrap_add_l, <- Z.add_assoc. change (1 + - (1)) with 0. rewrite Z.add_0_r. by apply wrap_small. Qed.

Lemma listen_ack_cookie l our src t now t0 seq : pending l src (src_port t) = None → is_u 32 seq → sequence t = u32 (seq + 1) →
  let q := generate_syn_cookie our src (dest_port t) (src_port t) seq (u32 (t0 / 60000)) in
  acknowledgement t = u32 (q + 1) → 0 ≤ t0 ≤ now → now / 60000 ≤ t0 / 60000 + 2 → now / 60000 < 2 ^ 32 →
  (listen_ack l our src t now).2 = Some q.
Proof.
  intros Hf%list_find_none Hseq Hs q Ha Ht Hd Hm. rewrite listen_ack_find, Hf. cbn [snd].
  assert (t0 / 60000 ≤ now / 60000) by (apply Z.div_le_mono; lia). assert (0 ≤ t0 / 60000) by (apply Z.div_pos; lia).
  destruct (syn_cookie_valid our src (dest_port t) (src_port t) seq (t0 / 60000) (now / 60000 - t0 / 60000)) as [Hv Hq]; [lia..|].
  replace (t0 / 60000 + (now / 60000 - t0 / 60000)) with (now / 60000) in Hv by lia. subst q.
  rewrite (wrap_small 32 (t0 / 60000)) in * by (unfold is_u; lia). rewrite Ha, Hs, !wrap_pred_succ, (wrap_small 32 (now / 60000)) by (done || (unfold is_u; lia)).
  by rewrite Hv.
Qed.

(** C25: A handshake that is not overtaken makes both ends agree.  A client in
    SYN-SENT sends its SYN to a listener at tick [t0], gets the answer and
    acknowledges it at tick [t1], with any SYNs and ACKs of other peers and any
    timer sweeps in between.  Conditions: the sweeps come within 3000 ticks of
    [t0], after which the listener drops its entry; and if the listener's queue
    is full at [t0], so that it answers with a cookie, this peer is not in the
    queue already ([repeated_syn_at_full_queue] shows why) and [t1] is at most
    two minutes-by-the-clock after [t0].  Then the client that receives the
    answer is established and acknowledges it, and that acknowledgement (with
    any data on it) makes the listener accept a connection whose next bytes in
    each direction are the client's. *)
Theorem handshake_agrees l c our src cmac smac cport sport isn t0 t1 es w1 w2 w3 k1 k2 k3 payload :
  state c = SynSent → is_u 32 (seq_num c) → is_u 32 isn → Forall (unrelated src cport t0) es →
  (backlog l ≤ zlen (pending_syns l) → pending l src cport = None ∧ 0 ≤ t0 ≤ t1 ∧ t1 / 60000 ≤ t0 / 60000 + 2 ∧ t1 / 60000 < 2 ^ 32) →
  let '(l1, q) := listen_syn l our src cmac (header_of cport sport (seq_num c) 0 TCP_SYN w1 k1) isn t0 in
  let '(c', out, _) := tcp_input t1 c smac (header_of sport cport q (u32 (seq_num c + 1)) (Z.lor TCP_SYN TCP_ACK) w2 k2) [] in
  let ack := header_of cport sport (seq_num c') (ack_num c') TCP_ACK w3 k3 in
  let s := accepted our src cmac ack q payload in
  out = [(seq_num c', ack_num c')] ∧ state c' = Established ∧
  (listen_ack (foldl (listener_step our) l1 es) our src ack t1).2 = Some q ∧
  state s = Established ∧ rx_buffer s = payload ∧ ack_num s = u32 (seq_num c' + zlen payload) ∧ seq_num s = ack_num c'.
Proof.
  intros Hc Hseq Hisn Hes Hfull. destruct (listen_syn _ _ _ _ _ _ _) as [l1 q] eqn:Hl. unfold tcp_input. rewrite Hc. cbn [header_of flags].
  change (has (Z.lor TCP_SYN TCP_ACK) TCP_RST) with false. unfold input_syn_sent. cbn [header_of flags acknowledgement sequence].
  rewrite !Z.eqb_refl. cbn [andb]. split; [done|]. split; [done|]. split; last first.
  { split; [done|]. split; [done|]. split; [|done]. unfold accepted. cbn [ack_num header_of sequence set_state set_peer set_rx set_seq seq_num].
    case_bool_decide; [|by rewrite wrap_add_r]. subst payload. by rewrite wrap_add_l, Z.add_0_r. }
  destruct (Z.le_gt_cases (backlog l) (zlen (pending_syns l))) as [Hf|Hf].
  - destruct (Hfull Hf) as (Hnone & Ht & Hd & Hm). unfold listen_syn in Hl. rewrite (proj2 (Z.leb_le _ _)) in Hl by done. injection Hl as <- <-.
    apply (listen_ack_cookie _ _ _ (header_of cport sport _ _ _ _ _) _ t0 (seq_num c)); try done.
    change (pending (foldl (listener_step our) l es) src cport = None). rewrite (listener_run_pending _ _ _ t0); [done..|]. by rewrite Hnone.
  - pose proof (listen_syn_queued l our src cmac (header_of cport sport (seq_num c) 0 TCP_SYN w1 k1) isn t0 Hf) as Hq. rewrite Hl in Hq.
    destruct Hq as (-> & p & Hp & Hi & Ht). rewrite <- Hi. apply listen_ack_queued; [|by rewrite Hi].
    change (src_port (header_of cport _ _ _ _ _ _)) with cport in *. rewrite (listener_run_pending _ _ _ t0); [done..|]. rewrite Hp. by intros ? [= <-].
Qed.

(** *** A listener with room, and one whose queue is full *)

Definition listener (b : Z) (q : list PendingSyn) : TcpSocket := set_queues (set_state (new_tcp [10; 0; 2; 15]) Listen) b [] q.
Definition dialing (isn : Z) : TcpSocket := set_state (set_seq (new_tcp [10; 0; 2; 2]) isn) SynSent.
(** The entry of another peer. *)
Definition stranger : PendingSyn := {| ps_ip := [10; 0; 2; 9]; ps_port := 999; ps_mac := []; our_isn := 0; peer_seq := 0; created_tick := 5 |}.
Definition strangers : list (Z * listener_event) :=
  [(100, OtherSyn [10; 0; 2; 9] [] (header_of 999 80 7 0 TCP_SYN 0 0) 11); (200, Sweep);
   (300, OtherAck [10; 0; 2; 9] (header_of 999 80 8 12 TCP_ACK 0 0))].

Lemma strangers_unrelated t0 : 0 ≤ t0 → Forall (unrelated [10; 0; 2; 2] 49152 t0) strangers.
Proof.
  intros Ht. repeat constructor; cbn; try (intros [[=] _]; fail). unfold saturating_sub. lia.
Qed.

Lemma handshake_agrees_witness :
  (let r := listen_syn (listener 2 []) [10; 0; 2; 15] [10; 0; 2; 2] [] (header_of 49152 80 (2 ^ 32 - 1) 0 TCP_SYN 0 0) 4096 50 in
   r.2 = 4096 ∧
   (listen_ack (foldl (listener_step [10; 0; 2; 15]) r.1 strangers) [10; 0; 2; 15] [10; 0; 2; 2] (header_of 49152 80 0 (u32 (r.2 + 1)) TCP_ACK 0 0) 400).2 = Some r.2) ∧
  (let r := listen_syn (listener 1 [stranger]) [10; 0; 2; 15] [10; 0; 2; 2] [] (header_of 49152 80 (2 ^ 32 - 1) 0 TCP_SYN 0 0) 4096 50 in
   r.2 ≠ 4096 ∧ r.1 = listener 1 [stranger] ∧
   (listen_ack (foldl (listener_step [10; 0; 2; 15]) r.1 strangers) [10; 0; 2; 15] [10; 0; 2; 2] (header_of 49152 80 0 (u32 (r.2 + 1)) TCP_ACK 0 0) 125000).2 = Some r.2).
Proof.
  assert (is_u 32 (2 ^ 32 - 1) ∧ is_u 32 4096) as [H1 H2] by (unfold is_u; lia). split.
  - split; [vm_compute; reflexivity|]. assert (backlog (listener 2 []) ≤ zlen (pending_syns (listener 2 [])) → False) as Hn by (cbn; lia).
    exact (proj1 (proj2 (proj2 (handshake_agrees (listener 2 []) (dialing (2 ^ 32 - 1)) [10; 0; 2; 15] [10; 0; 2; 2] [] [] 49152 80 4096 50 400 strangers
      0 0 0 0 0 0 [] eq_refl H1 H2 (strangers_unrelated 50 ltac:(lia)) (λ H, match Hn H with end))))).
  - split; [vm_compute; discriminate|]. split; [vm_compute; reflexivity|].
    refine (proj1 (proj2 (proj2 (handshake_agrees (listener 1 [stranger]) (dialing (2 ^ 32 - 1)) [10; 0; 2; 15] [10; 0; 2; 2] [] [] 49152 80 4096 50 125000 strangers
      0 0 0 0 0 0 [] eq_refl H1 H2 (strangers_unrelated 50 ltac:(lia)) (λ _, _))))).
    split_and!; [reflexivity|vm_compute; discriminate..|vm_compute; reflexivity].
Defined.

(** ** Where the handshake fails *)

(** A peer whose SYN is queued repeats it when the queue has filled up: it is
    answered with a cookie, but its acknowledgement is compared with the queued
    entry, which is dropped, and the connection is not made. *)
Theorem repeated_syn_at_full_queue :
  let first := listen_syn (listener 1 []) [10; 0; 2; 15] [10; 0; 2; 2] [] (header_of 49152 80 1000 0 TCP_SYN 0 0) 4096 0 in
  let again := listen_syn first.1 [10; 0; 2; 15] [10; 0; 2; 2] [] (header_of 49152 80 1000 0 TCP_SYN 0 0) 8192 1000 in
  let final := listen_ack again.1 [10; 0; 2; 15] [10; 0; 2; 2] (header_of 49152 80 1001 (u32 (again.2 + 1)) TCP_ACK 0 0) 1001 in
  first.2 = 4096 ∧ again.2 ≠ 4096 ∧ final.2 = None ∧ pending_syns final.1 = [].
Proof. vm_compute. split_and!; congruence. Qed.
