(* ===== verification/TcpDelivery.v ===== *)
(** * From one machine to another

    What [socket_send] cuts into frames arrives: the frames, processed by the
    receiving machine in any order and any number of times, extend its socket's
    buffer by a prefix of the bytes, by all of them once they have come in
    order, and change no other socket. *)

From stdpp Require Import gmap list.
From S2P Require Import Prelude Words BTree Abi Dns Net NetSpec Sockets Network.

(** ** The chunks of a send *)

(** The position of the [i]-th chunk. *)
Definition position (l : list (Z * list Z)) (i : nat) : Z := zlen (concat (take i l).*2).

Record cut (seq : Z) (data : list Z) (l : list (Z * list Z)) : Prop := {
  cut_concat : concat l.*2 = data;
  cut_seq : ∀ i q c, l !! i = Some (q, c) → q = u32 (seq + position l i) ∧ c ≠ [] ∧ zlen c ≤ MAX_TCP_CHUNK_SIZE }.

Lemma position_S l i q c : l !! i = Some (q, c) → position l (S i) = position l i + zlen c.
Proof. intros Hi. unfold position. rewrite (take_S_r _ _ _ Hi), fmap_app, concat_app, length_app. cbn. rewrite app_nil_r. lia. Qed.

Lemma chunks_cut fuel : ∀ seq data, is_u 32 seq → (length data ≤ fuel)%nat →
  cut seq data (chunks fuel seq data).1 ∧ (chunks fuel seq data).2 = u32 (seq + zlen data).
Proof.
  induction fuel as [|fuel IH]; intros seq [|b data] Hs Hf; try (cbn in Hf; lia).
  1, 2: split; [split; [done|intros [|i] q c Hi; discriminate Hi]|cbn; by rewrite Z.add_0_r, wrap_small].
  cbn [chunks]. set (c := take _ (b :: data)). set (rest := drop _ (b :: data)).
  assert (b :: data = c ++ rest) as He by (subst c rest; by rewrite take_drop).
  assert (c ≠ []) as Hc by done. assert (zlen c ≤ MAX_TCP_CHUNK_SIZE) as Hm by (subst c; rewrite length_take; unfold MAX_TCP_CHUNK_SIZE; lia).
  assert (length rest ≤ fuel)%nat as Hr. { apply (f_equal length) in He. rewrite length_app in He. cbn in He, Hf. destruct c; [done|]. cbn in He. lia. }
  destruct (IH (u32 (seq + u32 (zlen c))) rest) as [[Hcat Hseq] Hend]; [apply wrap_range; lia|done|].
  rewrite He. clearbody c rest. clear He. destruct (chunks fuel _ rest) as [l seq'] eqn:Hl. cbn [fst snd] in *. split; [split|].
  - cbn. by rewrite Hcat.
  - intros [|i] q d Hi; cbn in Hi.
    + injection Hi as <- <-. split; [|done]. cbn. by rewrite Z.add_0_r, wrap_small.
    + apply Hseq in Hi as [-> Hd]. split; [|done]. unfold position. cbn. rewrite length_app, wrap_add_r, wrap_add_l. f_equal. lia.
  - rewrite Hend, length_app, wrap_add_r, wrap_add_l. f_equal. lia.
Qed.

(** ** The next chunk expected *)

(** The receiver as a counter of the chunks it has taken. *)
Definition next (i j : nat) : nat := if decide (j = i) then S i else i.

Lemma next_ge i js : (i ≤ foldl next i js)%nat.
Proof. revert i. induction js as [|j js IH]; intros i; [done|]. cbn. specialize (IH (next i j)). unfold next in *. case_decide; lia. Qed.

(** In order among anything else, all chunks are taken. *)
Lemma next_all n js : ∀ m i, (m ≤ i ≤ n)%nat → Forall (λ j, j < n)%nat js → sublist (seq m (n - m)) js → foldl next i js = n.
Proof.
  induction js as [|j js IH]; intros m i Hmi Hjs Hsub.
  - apply sublist_nil_r in Hsub. apply (f_equal length) in Hsub. rewrite length_seq in Hsub. cbn in *. lia.
  - apply Forall_cons in Hjs as [Hj Hjs]. assert (next i j ≤ n)%nat by (unfold next; case_decide; lia). assert (i ≤ next i j)%nat by (unfold next; case_decide; lia).
    cbn. destruct (decide (m = n)) as [->|Hne].
    + apply (IH n); [lia|done|]. rewrite Nat.sub_diag. apply sublist_nil_l.
    + apply sublist_cons_r in Hsub as [Hsub|(l & Hl & Hsub)]; [apply (IH m); [lia|done..]|].
      replace (n - m)%nat with (S (n - S m)) in Hl by lia. cbn in Hl. injection Hl as -> <-.
      apply (IH (S j)); [unfold next in *; case_decide; lia|done..].
Qed.

(** ** A chunk at the socket *)

Section delivery.
Context (data : list Z) (base : Z) (L : list (Z * list Z)) (Hcut : cut base data L) (Hlen : zlen data < 2 ^ 32).

Lemma position_bound i : 0 ≤ position L i ≤ zlen data.
Proof. unfold position. rewrite <- (cut_concat _ _ _ Hcut). rewrite <- (take_drop i L) at 3. rewrite fmap_app, concat_app, length_app. lia. Qed.

Lemma position_lt i j : (i < j ≤ length L)%nat → position L i < position L j.
Proof.
  intros [Hij Hj]. induction Hij as [|j Hij IH].
  - destruct (lookup_lt_is_Some_2 L i) as [[q c] Hi]; [lia|]. rewrite (position_S _ _ _ _ Hi). destruct (cut_seq _ _ _ Hcut _ _ _ Hi) as (_ & Hc & _).
    destruct c; [done|cbn; lia].
  - destruct (lookup_lt_is_Some_2 L j) as [[q c] Hi]; [lia|]. rewrite (position_S _ _ _ _ Hi). specialize (IH ltac:(lia)). lia.
Qed.

(** The socket after [i] chunks, with [old] before them. *)
Record took (old : list Z) (i : nat) (s : TcpSocket) : Prop := {
  tk_state : state s = Established;
  tk_buffer : rx_buffer s = old ++ concat (take i L).*2;
  tk_ack : ack_num s = u32 (base + position L i);
  tk_index : (i ≤ length L)%nat }.

Lemma chunk_number i j q c : (i ≤ length L)%nat → L !! j = Some (q, c) → q = u32 (base + position L i) ↔ j = i.
Proof.
  intros Hi Hj. pose proof (lookup_lt_Some _ _ _ Hj). rewrite (proj1 (cut_seq _ _ _ Hcut _ _ _ Hj)). split; [|by intros ->].
  intros He. pose proof (position_bound i). pose proof (position_bound j). assert (position L i = position L j) as Hp.
  { unfold wrap in He. pose proof (Z.div_mod (base + position L i) (2 ^ 32) ltac:(lia)). pose proof (Z.div_mod (base + position L j) (2 ^ 32) ltac:(lia)). nia. }
  destruct (Nat.lt_trichotomy i j) as [Hl|[->|Hl]]; [|done|]; pose proof (position_lt _ _ ltac:(split; [exact Hl|lia])); lia.
Qed.

Lemma chunk_input old i j q c s now mac t : took old i s → L !! j = Some (q, c) → sequence t = q → flags t = Z.lor TCP_ACK TCP_PSH →
  took old (next i j) (tcp_input now s mac t c).1.1.
Proof.
  intros [Hst Hb Ha Hi] Hj Hq Hf. pose proof (chunk_number i j q c Hi Hj) as Hn. destruct (cut_seq _ _ _ Hcut _ _ _ Hj) as (_ & Hc & _).
  pose proof (lookup_lt_Some _ _ _ Hj). unfold tcp_input. rewrite Hf. change (has (Z.lor TCP_ACK TCP_PSH) TCP_RST) with false. rewrite Hst.
  unfold input_open, input_data. rewrite Hf. change (has (Z.lor TCP_ACK TCP_PSH) TCP_FIN) with false. change (has (Z.lor TCP_ACK TCP_PSH) TCP_ACK) with true.
  rewrite bool_decide_false by done. rewrite Ha, Hq. unfold next. case_decide as Hd.
  - rewrite (proj2 (Z.eqb_eq _ _)) by (by apply Hn). cbn [andb fst]. subst j. split; cbn.
    + done.
    + rewrite (take_S_r _ _ _ Hj), fmap_app, concat_app, Hb. cbn. by rewrite app_nil_r, app_assoc.
    + rewrite wrap_add_r, wrap_add_l. f_equal. rewrite (position_S _ _ _ _ Hj). lia.
    + lia.
  - rewrite (proj2 (Z.eqb_neq _ _)) by naive_solver. destruct (_ <? _); cbn [andb fst]; split; cbn; assumption.
Qed.
End delivery.

(** ** A frame at the machine *)

(** A segment changes no address of its socket. *)
Lemma tcp_input_addresses now s mac t payload : let s' := (tcp_input now s mac t payload).1.1 in
  local_port s' = local_port s ∧ remote_ip s' = remote_ip s ∧ remote_port s' = remote_port s.
Proof.
  unfold tcp_input, input_syn_sent, input_open, input_data, input_fin_wait1, input_fin_wait2.
  destruct (has (flags t) TCP_RST); [done|]. destruct (state s); repeat case_match; simplify_eq/=; done.
Qed.

Section machine.
Context {D : Type} `{ND : !NetDevice D} (Hcard : ∀ d f, (nd_transmit d f).2 ≠ Panic).

(** The machine has address [our] and sockets [m]. *)
Definition stack (k : kernel (D := D)) (our : list Z) (m : gmap Z Socket) : Prop := ∃ n, network k = Some n ∧ our_ip n = our ∧ sockets n = m.

Lemma find_socket_unique (n : NetworkState (D := D)) f h s : sockets n !! h = Some (Tcp s) → f (h, Tcp s) = true →
  (∀ h' x, sockets n !! h' = Some x → f (h', x) = true → h' = h) → find_socket n f = Some (h, s).
Proof.
  intros Hh Hf Hu. unfold find_socket. destruct (list_find _ (entries (sockets n))) as [[i [h' x]]|] eqn:He.
  - apply list_find_Some in He as (Hi & Hx & _). apply list_elem_of_lookup_2, elem_of_entries in Hi.
    assert (h' = h) as -> by eauto. rewrite Hi in Hh. by injection Hh as ->.
  - exfalso. apply list_find_None in He. rewrite Forall_forall in He. apply (He (h, Tcp s)); [by apply elem_of_entries|done].
Qed.

Lemma reply_stack src frame k our m : stack k our m → ∃ k', reply src frame k = (k', Ok ()) ∧ stack k' our m.
Proof.
  intros (n & Hn & Ho & Hm). unfold reply, net_state, mbind, M_bind. rewrite Hn. cbn. case_match; [eexists; split; [done|]; by eexists|].
  unfold ignore, transmit, net_state, put_net, mbind, M_bind. rewrite Hn. cbn. pose proof (Hcard (device n) frame) as Hp.
  destruct (nd_transmit (device n) frame) as [d r]. destruct r as [[]|e|]; [| |done]; (eexists; split; [done|]; by eexists).
Qed.

Lemma send_acks_stack mac dest src lp rp l : ∀ k our m, stack k our m → ∃ k', send_acks mac dest src lp rp l k = (k', Ok ()) ∧ stack k' our m.
Proof.
  induction l as [|a l IH]; intros k our m Hk; [by exists k|]. cbn [send_acks]. destruct (id Hk) as (n & Hn & _).
  unfold net_state at 1, mbind, M_bind. rewrite Hn. cbn.
  destruct (reply_stack src (ack_frame n mac dest src lp rp a) k our m Hk) as (k1 & -> & Hk1). by apply IH.
Qed.

(** The segment of a connection reaches its socket, and no other. *)
Lemma handle_connected mac src t payload k our m h s :
  stack k our m → m !! h = Some (Tcp s) → local_port s = dest_port t → remote_ip s = src → remote_port s = src_port t →
  (∀ h' x, m !! h' = Some x → matches_segment our src t (h', x) = true → h' = h) →
  ∃ k', handle_incoming_tcp mac src our t payload k = (k', Ok ()) ∧
    stack k' our (<[h := Tcp (tcp_input (tick k) s mac t payload).1.1]> m).
Proof.
  intros (n & Hn & <- & <-) Hh Hlp Hrip Hrp Hu. unfold handle_incoming_tcp, net_state at 1, now, mbind, M_bind. rewrite Hn. cbn.
  rewrite (find_socket_unique n _ h s Hh); [|cbn; unfold remote_match; rewrite Hlp, Hrp, !Z.eqb_refl, bool_decide_true by done; done|done].
  destruct (tcp_input (tick k) s mac t payload) as [[s' out] w]. cbn [fst]. unfold put_net. cbn.
  destruct (send_acks_stack mac (our_ip n) src (local_port s') (remote_port s') out (with_network k (put_socket n h (Tcp s'))) (our_ip n) (<[h := Tcp s']> (sockets n)))
    as (k1 & -> & (n1 & Hn1 & Ho & Hm)); [by eexists|]. destruct w; [|eexists; split; [done|]; by exists n1]. eexists. split; [done|]. by exists n1.
Qed.

Lemma process_tcp_frame lmac rmac lip lp rp seq ack fl window payload k our m :
  mac lmac → mac rmac → ip lip → ip our → tcp_args lp rp seq ack fl window payload → stack k our m →
  ∃ c, process_incoming_frame (build_tcp_frame lmac rmac lip our lp rp seq ack fl window payload) k =
    handle_incoming_tcp lmac lip our (header_of lp rp seq ack fl window c) payload k.
Proof.
  intros Hlm Hrm Hl Hr Ha (n & Hn & Ho & _). destruct (deliver_tcp lmac rmac lip our lp rp [] seq ack fl window payload Hlm Hrm Hl Hr Ha) as (h & b & c & Hd & H1 & H2 & H3 & Hp).
  rewrite app_nil_r in Hd. exists c. unfold deliver in Hd. unfold process_incoming_frame.
  destruct (parse_ethernet _) as [[eth p]|e|]; cbn in Hd; try done. destruct (parse_ipv4 p) as [[h' b']|e|] eqn:Hp4; cbn in Hd; try done.
  injection Hd as -> -> ->. cbn [parsed]. unfold net_state at 1, mbind, M_bind. rewrite Hn. cbn -[handle_incoming_tcp].
  rewrite Hp4. cbn -[handle_incoming_tcp]. rewrite H2, H3, H1, bool_decide_true by done. cbn -[handle_incoming_tcp]. by rewrite Hp.
Qed.

(** Socket [s] of a machine [na] and socket [h] of this one are the two ends
    of a connection: the addresses match, no other socket claims them, and the
    next byte [s] sends is the next byte [h] expects. *)
Record facing (na : NetworkState (D := D)) (s : TcpSocket) (rmac our : list Z) (m : gmap Z Socket) (h : Z) (r : TcpSocket) : Prop := {
  fc_mac : mac (our_mac na); fc_rmac : mac rmac; fc_ip : ip (local_source na (remote_ip s)); fc_our : ip our; fc_to : remote_ip s = our;
  fc_lp : is_u 16 (local_port s); fc_rp : is_u 16 (remote_port s); fc_seq : is_u 32 (seq_num s); fc_ack : is_u 32 (ack_num s);
  fc_socket : m !! h = Some (Tcp r); fc_port : local_port r = remote_port s; fc_from : remote_ip r = local_source na (remote_ip s);
  fc_peer : remote_port r = local_port s;
  fc_only : ∀ h' x t, m !! h' = Some x → src_port t = local_port s → dest_port t = remote_port s →
    matches_segment our (local_source na (remote_ip s)) t (h', x) = true → h' = h }.

Lemma chunk_frame na s rmac our m h r k data old i j f : facing na s rmac our m h r → bytes data → zlen data < 2 ^ 32 → stack k our m →
  took (seq_num s) (chunks (length data) (seq_num s) data).1 old i r → stream_frames na s rmac data !! j = Some f →
  ∃ k' r', process_incoming_frame f k = (k', Ok ()) ∧ stack k' our (<[h := Tcp r']> m) ∧
    took (seq_num s) (chunks (length data) (seq_num s) data).1 old (next i j) r' ∧
    facing na s rmac our (<[h := Tcp r']> m) h r'.
Proof.
  intros Hf Hb Hl Hk Ht Hj. destruct (chunks_cut (length data) (seq_num s) data (fc_seq _ _ _ _ _ _ _ Hf) ltac:(lia)) as [Hcut _].
  unfold stream_frames in Hj. set (L := (chunks _ _ _).1) in *. clearbody L. rewrite list_lookup_fmap in Hj.
  destruct (L !! j) as [[q c]|] eqn:Hc; [|done]. injection Hj as <-. destruct (cut_seq _ _ _ Hcut _ _ _ Hc) as (Hq & Hne & Hmax).
  destruct Hf. rewrite fc_to0 in *.
  assert (bytes c) as Hbc.
  { rewrite <- (cut_concat _ _ _ Hcut), Forall_concat in Hb. eapply (Forall_lookup_1 _ _ j) in Hb; [done|]. by rewrite list_lookup_fmap, Hc. }
  destruct (process_tcp_frame (our_mac na) rmac (local_source na our) (local_port s) (remote_port s) q (ack_num s) (Z.lor TCP_ACK TCP_PSH)
    DEFAULT_WINDOW_SIZE c k our m) as [cs ->]; try done.
  { split; try done; [rewrite Hq; apply wrap_range; lia|unfold MAX_TCP_CHUNK_SIZE in Hmax; lia]. }
  set (t := header_of _ _ _ _ _ _ _). destruct (handle_connected (our_mac na) (local_source na our) t c k our m h r) as (k' & -> & Hk'); try done.
  { intros h' x Hx. by apply fc_only0. }
  eexists _, _. split; [done|]. split; [exact Hk'|]. split; [by apply (chunk_input data (seq_num s) L Hcut Hl old i j q)|].
  destruct (tcp_input_addresses (tick k) r (our_mac na) t c) as (H1 & H2 & H3).
  split; rewrite ?fc_to0; try done; rewrite ?lookup_insert_eq, ?H1, ?H2, ?H3; try done.
  intros h' x t' Hx. destruct (decide (h' = h)) as [->|Hn]; [done|]. rewrite lookup_insert_ne in Hx by done. by apply fc_only0.
Qed.

Lemma frames_arrive na s rmac our h data old js : ∀ m r k i, bytes data → zlen data < 2 ^ 32 → facing na s rmac our m h r → stack k our m →
  took (seq_num s) (chunks (length data) (seq_num s) data).1 old i r → Forall (λ j, j < length (stream_frames na s rmac data))%nat js →
  ∃ k' r', process_frames (omap (λ j, stream_frames na s rmac data !! j) js) k = (k', Ok ()) ∧ stack k' our (<[h := Tcp r']> m) ∧
    took (seq_num s) (chunks (length data) (seq_num s) data).1 old (foldl next i js) r'.
Proof.
  induction js as [|j js IH]; intros m r k i Hb Hl Hf Hk Ht Hjs.
  - exists k, r. split; [done|]. split; [|done]. by rewrite insert_id by apply Hf.
  - apply Forall_cons in Hjs as [Hj Hjs]. destruct (lookup_lt_is_Some_2 _ _ Hj) as [f Hfr]. cbn [omap list_omap]. rewrite Hfr. cbn [process_frames].
    destruct (chunk_frame na s rmac our m h r k data old i j f) as (k1 & r1 & Hp & Hk1 & Ht1 & Hf1); try done.
    unfold ignore at 1, mbind, M_bind. rewrite Hp. destruct (IH _ r1 k1 (next i j) Hb Hl Hf1 Hk1 Ht1 Hjs) as (k' & r' & H1 & H2 & H3).
    exists k', r'. split; [exact H1|]. split; [by rewrite insert_insert_eq in H2|done].
Qed.

(** C12: What a socket sends arrives at the other end: the frames of a send,
    processed by the receiving machine in any order and any number of times,
    extend the buffer of the connected socket by a prefix of the bytes and its
    acknowledgement number by as much, leave every other socket as it was, and
    deliver all the bytes, up to the sender's new sequence number, when the
    frames come in order among whatever repetitions. *)
Theorem send_delivers na s rmac our m h r k data js : facing na s rmac our m h r → stack k our m →
  state r = Established → ack_num r = seq_num s → bytes data → zlen data < 2 ^ 32 →
  let frames := stream_frames na s rmac data in
  Forall (λ j, j < length frames)%nat js →
  ∃ k' r' i, process_frames (omap (λ j, frames !! j) js) k = (k', Ok ()) ∧ stack k' our (<[h := Tcp r']> m) ∧ state r' = Established ∧
    rx_buffer r' = rx_buffer r ++ take i data ∧ ack_num r' = u32 (seq_num s + Z.of_nat i) ∧
    (sublist (seq 0 (length frames)) js → i = length data ∧ ack_num r' = (chunks (length data) (seq_num s) data).2).
Proof.
  intros Hf Hk Hst Hack Hb Hl frames Hjs. pose proof (fc_seq _ _ _ _ _ _ _ Hf) as Hu.
  destruct (chunks_cut (length data) (seq_num s) data Hu ltac:(lia)) as [Hcut Hend].
  destruct (frames_arrive na s rmac our h data (rx_buffer r) js m r k 0 Hb Hl Hf Hk) as (k' & r' & Hp & Hk' & [H1 H2 H3 H4]); [|done|].
  { split; [done|cbn; by rewrite app_nil_r| |lia]. cbn. by rewrite Z.add_0_r, wrap_small. }
  assert (length frames = length (chunks (length data) (seq_num s) data).1) as Hlf by (unfold frames, stream_frames; by rewrite length_fmap).
  set (L := (chunks _ _ _).1) in *. set (g := foldl next 0%nat js) in *.
  assert (concat (take g L).*2 = take (length (concat (take g L).*2)) data) as Hpre.
  { rewrite <- (cut_concat _ _ _ Hcut). rewrite <- (take_drop g L) at 3. by rewrite fmap_app, concat_app, take_app_length. }
  exists k', r', (length (concat (take g L).*2)). rewrite <- Hpre. split_and!; try done.
  intros Hsub. assert (g = length L) as Hg.
  { apply (next_all (length L) js 0 0); [lia|by rewrite <- Hlf|]. by rewrite Nat.sub_0_r, <- Hlf. }
  rewrite H3, Hend. unfold position. rewrite Hg, firstn_all, (cut_concat _ _ _ Hcut). done.
Qed.
End machine.

(** ** A card that records what it sends *)

Definition Card : Type := list Z * list (list Z).
#[export] Instance card_device : NetDevice Card := {|
  nd_mac := fst;
  nd_transmit := λ d f, ((d.1, d.2 ++ [f]), Ok ());
  nd_receive := λ d, (d, Ok None);
  nd_pending := λ _, 0%nat |}.

Lemma card_total (d : Card) f : (nd_transmit d f).2 ≠ Panic.
Proof. done. Qed.

Definition machine (address_ card : list Z) (m : gmap Z Socket) : NetworkState (D := Card) :=
  {| device := (card, []); configuration := {| address := address_; gateway := RIP; dns_server := RIP; tcp_host := RIP; tcp_port := 0 |};
     arp_table := ∅; gateway_mac := Some RMAC; tcp_connected := false; sockets := m; loopback_queue := [] |}.
Definition boot (n : NetworkState (D := Card)) (tk : Z) : kernel :=
  {| network := Some n; next_tcp_port := 49152; next_socket_handle := 10; isn_counter := 0;
     resolver_state := {| dns_cache := ∅; outbound_queries := 0; cache_hits := 0; tx_id_counter := 0 |}; tick := tk;
     caller := Credentials.root; woken := [] |}.

Definition end_of (lip : list Z) (lp : Z) (rip : list Z) (rp seq ack : Z) (st : TcpState) : TcpSocket :=
  set_state (set_rx (set_seq (set_addresses (new_tcp lip) lip lp rip rp default_options) seq) ack [] false) st.
Definition sender : TcpSocket := end_of LIP 49152 RIP 80 (2 ^ 32 - 100) 7 Established.
Definition receiver : TcpSocket := end_of RIP 80 LIP 49152 7 (2 ^ 32 - 100) Established.

Lemma sender_faces_receiver : facing (machine LIP LMAC ∅) sender RMAC RIP {[5 := Tcp receiver]} 5 receiver.
Proof.
  destruct demo_addresses as (H1 & H2 & H3 & H4). split; try done; try (unfold is_u; cbn; lia).
  intros h' x t Hx _ _ _. by apply lookup_singleton_Some in Hx as [-> _].
Qed.

(** 1500 bytes go in two frames, which arrive in the order 1 0 0 1. *)
Lemma send_delivers_witness : ∃ k' r',
  process_frames (omap (λ j, stream_frames (machine LIP LMAC ∅) sender RMAC (replicate 1500 65) !! j) [1; 0; 0; 1]%nat) (boot (machine RIP RMAC {[5 := Tcp receiver]}) 0) = (k', Ok ()) ∧
  stack k' RIP {[5 := Tcp r']} ∧ rx_buffer r' = replicate 1500 65 ∧ ack_num r' = 1400.
Proof.
  destruct (send_delivers card_total
    (machine LIP LMAC ∅) sender RMAC RIP {[5 := Tcp receiver]} 5 receiver (boot (machine RIP RMAC {[5 := Tcp receiver]}) 0) (replicate 1500 65) [1; 0; 0; 1]%nat
    sender_faces_receiver) as (k' & r' & i & Hp & Hk & _ & Hb & Ha & Hall).
  - by eexists.
  - reflexivity.
  - reflexivity.
  - apply Forall_replicate. unfold is_u. lia.
  - rewrite length_replicate. lia.
  - repeat constructor; vm_compute; lia.
  - destruct Hall as [-> Hend].
    { change (length (stream_frames _ _ _ _)) with 2%nat. apply sublist_cons, sublist_skip, sublist_cons, sublist_skip, sublist_nil. }
    exists k', r'. split; [exact Hp|]. split; [by rewrite insert_singleton in Hk|]. split; [by rewrite Hb, firstn_all|]. rewrite Hend. reflexivity.
Defined.

(** ** Where connections go wrong *)

(** A connection closed by the peer can be written to, says the state and
    [socket_can_write], but [socket_send] answers that the pipe is broken. *)
Theorem close_wait_not_writable :
  let s := end_of LIP 49152 RIP 80 100 7 CloseWait in
  let n := machine LIP LMAC {[5 := Tcp s]} in
  can_send CloseWait = true ∧ can_write n 5 = true ∧ (socket_send 5 [65] (boot n 0)).2 = Err BrokenPipe.
Proof. vm_compute. done. Qed.

(** After the last acknowledgement of a close the socket stays in the table as
    [Closed]; the timer does not remove it, and a SYN of the same peer port is
    taken by it, so that the listener neither queues nor answers it. *)
Theorem closed_socket_swallows_syn :
  let l := set_queues (end_of LIP 80 [0; 0; 0; 0] 0 0 0 Listen) 8 [] [] in
  let n := machine LIP LMAC (<[5 := Tcp l]> {[6 := Tcp (end_of LIP 80 RIP 49152 100 7 LastAck)]}) in
  let ack := build_tcp_frame RMAC LMAC RIP LIP 49152 80 7 100 TCP_ACK 0xffff [] in
  let syn := build_tcp_frame RMAC LMAC RIP LIP 49152 80 9000 0 TCP_SYN 0xffff [] in
  let k1 := (process_incoming_frame ack (boot n 0)).1 in
  let k2 := (check_tcp_timers k1).1 in
  let k3 := (process_incoming_frame syn k2).1 in
  ((λ m, match m !! 6 with Some (Tcp s) => Some (state s) | _ => None end) ∘ sockets <$> network k2) = Some (Some Closed) ∧
  ((λ m, match m !! 5 with Some (Tcp s) => Some (pending_syns s) | _ => None end) ∘ sockets <$> network k3) = Some (Some []) ∧
  (snd ∘ device <$> network k3) = Some [].
Proof. vm_compute. done. Qed.

(** A bound socket is still [Closed], so the collision check does not see it:
    two sockets bind and listen on one port, and the second never gets a
    connection. *)
Theorem port_bound_twice :
  let n := machine LIP LMAC (<[5 := Tcp (new_tcp LIP)]> {[6 := Tcp (new_tcp LIP)]}) in
  let k1 := (socket_bind 5 LIP 8080 (boot n 0)).1 in
  let k2 := (socket_bind 6 LIP 8080 k1).1 in
  (socket_bind 5 LIP 8080 (boot n 0)).2 = Ok () ∧ (socket_bind 6 LIP 8080 k1).2 = Ok () ∧
  (socket_listen 5 8 k2).2 = Ok () ∧ (socket_listen 6 8 (socket_listen 5 8 k2).1).2 = Ok ().
Proof. vm_compute. done. Qed.
