(* ===== verification/Tasks.v ===== *)
(** * Tasks and their selection ([rust/kernel/src/scheduler.rs])

    The task structure with its saved registers, priorities and time slices,
    the choice of the next task, and what futex operations and wake-ups do to
    the tasks of one processor.

    An [Arc] is a number that names the shared object; the objects are in the
    stores of the kernel state of [Sched].  A process is what the scheduler
    uses of it: its address space, its personality, its entry and its stack. *)

From stdpp Require Import gmap list.
From S2P Require Import Prelude Words Abi.

(** ** Saved registers *)

Record UserContext := {
  return_value : Z; rbx : Z; rbp : Z; r12 : Z; r13 : Z; r14 : Z; r15 : Z; rdi : Z; rsi : Z; rdx : Z; r8 : Z; r9 : Z;
  r10 : Z; instruction_pointer : Z; flags : Z; stack_pointer : Z; rcx : Z; r11 : Z }.
(** The registers of an [InterruptContext] are those of a [UserContext], with
    [rax] for its [return_value], and the two selectors. *)
Record InterruptContext := { registers : UserContext; code_segment : Z; stack_segment : Z }.

Definition with_return_value (c : UserContext) (return_value_ : Z) : UserContext :=
  {| return_value := return_value_; rbx := rbx c; rbp := rbp c; r12 := r12 c; r13 := r13 c; r14 := r14 c; r15 := r15 c;
     rdi := rdi c; rsi := rsi c; rdx := rdx c; r8 := r8 c; r9 := r9 c; r10 := r10 c; instruction_pointer := instruction_pointer c;
     flags := flags c; stack_pointer := stack_pointer c; rcx := rcx c; r11 := r11 c |}.
Definition with_flags (c : UserContext) (flags_ : Z) : UserContext :=
  {| return_value := return_value c; rbx := rbx c; rbp := rbp c; r12 := r12 c; r13 := r13 c; r14 := r14 c; r15 := r15 c;
     rdi := rdi c; rsi := rsi c; rdx := rdx c; r8 := r8 c; r9 := r9 c; r10 := r10 c; instruction_pointer := instruction_pointer c;
     flags := flags_; stack_pointer := stack_pointer c; rcx := rcx c; r11 := r11 c |}.
Definition with_resume (c : UserContext) (return_value_ : Z) (instruction_pointer_ : Z) (flags_ : Z) (stack_pointer_ : Z) : UserContext :=
  {| return_value := return_value_; rbx := rbx c; rbp := rbp c; r12 := r12 c; r13 := r13 c; r14 := r14 c; r15 := r15 c;
     rdi := rdi c; rsi := rsi c; rdx := rdx c; r8 := r8 c; r9 := r9 c; r10 := r10 c; instruction_pointer := instruction_pointer_;
     flags := flags_; stack_pointer := stack_pointer_; rcx := rcx c; r11 := r11 c |}.
Definition with_instruction_pointer (c : UserContext) (instruction_pointer_ : Z) : UserContext :=
  {| return_value := return_value c; rbx := rbx c; rbp := rbp c; r12 := r12 c; r13 := r13 c; r14 := r14 c; r15 := r15 c;
     rdi := rdi c; rsi := rsi c; rdx := rdx c; r8 := r8 c; r9 := r9 c; r10 := r10 c; instruction_pointer := instruction_pointer_;
     flags := flags c; stack_pointer := stack_pointer c; rcx := rcx c; r11 := r11 c |}.

Definition interrupted_user_mode (c : InterruptContext) : bool := Z.land (code_segment c) 3 =? 3.

(** ** Tasks *)

Inductive ProcessPersonality := NativeVanta | LinuxX86_64Static.
#[export] Instance ProcessPersonality_eq_dec : EqDecision ProcessPersonality.
Proof. solve_decision. Defined.
Record Process := { address_space : Z; personality : ProcessPersonality; entry : Z; user_stack_top : Z }.
Record SigAltStack := { ss_sp : Z; ss_flags : Z; ss_size : Z }.
Record LinuxSigAction := { sa_handler : Z; sa_flags : Z; sa_restorer : Z; sa_mask : Z }.
Definition default_action : LinuxSigAction := {| sa_handler := 0; sa_flags := 0; sa_restorer := 0; sa_mask := 0 |}.

Inductive TaskState :=
| Runnable
| Waiting (child_pid status_ptr : Z)
| PipeWaiting (pipe_id : Z)
| FutexWait (uaddr bitset : Z)
| Sleeping (target_tick rem_ptr : Z)
| Zombie (exit_code : Z)
| Reaped.
#[export] Instance TaskState_eq_dec : EqDecision TaskState.
Proof. solve_decision. Defined.

Record Task := {
  tid : Z; tgid : Z; parent_pid : option Z; state : TaskState; priority : Z; base_priority : Z; time_slice_remaining : Z;
  process : option Process; context : UserContext; interrupt_context : InterruptContext; descriptors : Z; credentials :
  Credentials.t; signal_actions : Z; fs_base : Z; blocked_mask : Z; pending_signals : Z; clear_child_tid : Z; pgid : Z; sid :
  Z; cwd : Z; sigaltstack : SigAltStack; comm : list Z; pdeath_signal : Z; rlimits : list Z; cpu_ticks : Z }.

Definition set_state (t : Task) (state_ : TaskState) : Task :=
  {| tid := tid t; tgid := tgid t; parent_pid := parent_pid t; state := state_; priority := priority t;
     base_priority := base_priority t; time_slice_remaining := time_slice_remaining t; process := process t;
     context := context t; interrupt_context := interrupt_context t; descriptors := descriptors t;
     credentials := credentials t; signal_actions := signal_actions t; fs_base := fs_base t; blocked_mask := blocked_mask t;
     pending_signals := pending_signals t; clear_child_tid := clear_child_tid t; pgid := pgid t; sid := sid t; cwd := cwd t;
     sigaltstack := sigaltstack t; comm := comm t; pdeath_signal := pdeath_signal t; rlimits := rlimits t;
     cpu_ticks := cpu_ticks t |}.
Definition set_priority_slice (t : Task) (priority_ : Z) (time_slice_remaining_ : Z) : Task :=
  {| tid := tid t; tgid := tgid t; parent_pid := parent_pid t; state := state t; priority := priority_;
     base_priority := base_priority t; time_slice_remaining := time_slice_remaining_; process := process t;
     context := context t; interrupt_context := interrupt_context t; descriptors := descriptors t;
     credentials := credentials t; signal_actions := signal_actions t; fs_base := fs_base t; blocked_mask := blocked_mask t;
     pending_signals := pending_signals t; clear_child_tid := clear_child_tid t; pgid := pgid t; sid := sid t; cwd := cwd t;
     sigaltstack := sigaltstack t; comm := comm t; pdeath_signal := pdeath_signal t; rlimits := rlimits t;
     cpu_ticks := cpu_ticks t |}.
Definition set_both_priorities (t : Task) (priority_ : Z) (base_priority_ : Z) (time_slice_remaining_ : Z) : Task :=
  {| tid := tid t; tgid := tgid t; parent_pid := parent_pid t; state := state t; priority := priority_;
     base_priority := base_priority_; time_slice_remaining := time_slice_remaining_; process := process t;
     context := context t; interrupt_context := interrupt_context t; descriptors := descriptors t;
     credentials := credentials t; signal_actions := signal_actions t; fs_base := fs_base t; blocked_mask := blocked_mask t;
     pending_signals := pending_signals t; clear_child_tid := clear_child_tid t; pgid := pgid t; sid := sid t; cwd := cwd t;
     sigaltstack := sigaltstack t; comm := comm t; pdeath_signal := pdeath_signal t; rlimits := rlimits t;
     cpu_ticks := cpu_ticks t |}.
Definition set_contexts (t : Task) (context_ : UserContext) (interrupt_context_ : InterruptContext) : Task :=
  {| tid := tid t; tgid := tgid t; parent_pid := parent_pid t; state := state t; priority := priority t;
     base_priority := base_priority t; time_slice_remaining := time_slice_remaining t; process := process t;
     context := context_; interrupt_context := interrupt_context_; descriptors := descriptors t; credentials := credentials t;
     signal_actions := signal_actions t; fs_base := fs_base t; blocked_mask := blocked_mask t;
     pending_signals := pending_signals t; clear_child_tid := clear_child_tid t; pgid := pgid t; sid := sid t; cwd := cwd t;
     sigaltstack := sigaltstack t; comm := comm t; pdeath_signal := pdeath_signal t; rlimits := rlimits t;
     cpu_ticks := cpu_ticks t |}.
Definition set_process (t : Task) (process_ : option Process) : Task :=
  {| tid := tid t; tgid := tgid t; parent_pid := parent_pid t; state := state t; priority := priority t;
     base_priority := base_priority t; time_slice_remaining := time_slice_remaining t; process := process_;
     context := context t; interrupt_context := interrupt_context t; descriptors := descriptors t;
     credentials := credentials t; signal_actions := signal_actions t; fs_base := fs_base t; blocked_mask := blocked_mask t;
     pending_signals := pending_signals t; clear_child_tid := clear_child_tid t; pgid := pgid t; sid := sid t; cwd := cwd t;
     sigaltstack := sigaltstack t; comm := comm t; pdeath_signal := pdeath_signal t; rlimits := rlimits t;
     cpu_ticks := cpu_ticks t |}.
Definition set_clear_child_tid (t : Task) (clear_child_tid_ : Z) : Task :=
  {| tid := tid t; tgid := tgid t; parent_pid := parent_pid t; state := state t; priority := priority t;
     base_priority := base_priority t; time_slice_remaining := time_slice_remaining t; process := process t;
     context := context t; interrupt_context := interrupt_context t; descriptors := descriptors t;
     credentials := credentials t; signal_actions := signal_actions t; fs_base := fs_base t; blocked_mask := blocked_mask t;
     pending_signals := pending_signals t; clear_child_tid := clear_child_tid_; pgid := pgid t; sid := sid t; cwd := cwd t;
     sigaltstack := sigaltstack t; comm := comm t; pdeath_signal := pdeath_signal t; rlimits := rlimits t;
     cpu_ticks := cpu_ticks t |}.
Definition set_pending_signals (t : Task) (pending_signals_ : Z) : Task :=
  {| tid := tid t; tgid := tgid t; parent_pid := parent_pid t; state := state t; priority := priority t;
     base_priority := base_priority t; time_slice_remaining := time_slice_remaining t; process := process t;
     context := context t; interrupt_context := interrupt_context t; descriptors := descriptors t;
     credentials := credentials t; signal_actions := signal_actions t; fs_base := fs_base t; blocked_mask := blocked_mask t;
     pending_signals := pending_signals_; clear_child_tid := clear_child_tid t; pgid := pgid t; sid := sid t; cwd := cwd t;
     sigaltstack := sigaltstack t; comm := comm t; pdeath_signal := pdeath_signal t; rlimits := rlimits t;
     cpu_ticks := cpu_ticks t |}.
Definition set_blocked_mask (t : Task) (blocked_mask_ : Z) : Task :=
  {| tid := tid t; tgid := tgid t; parent_pid := parent_pid t; state := state t; priority := priority t;
     base_priority := base_priority t; time_slice_remaining := time_slice_remaining t; process := process t;
     context := context t; interrupt_context := interrupt_context t; descriptors := descriptors t;
     credentials := credentials t; signal_actions := signal_actions t; fs_base := fs_base t; blocked_mask := blocked_mask_;
     pending_signals := pending_signals t; clear_child_tid := clear_child_tid t; pgid := pgid t; sid := sid t; cwd := cwd t;
     sigaltstack := sigaltstack t; comm := comm t; pdeath_signal := pdeath_signal t; rlimits := rlimits t;
     cpu_ticks := cpu_ticks t |}.
Definition set_groups (t : Task) (pgid_ : Z) (sid_ : Z) : Task :=
  {| tid := tid t; tgid := tgid t; parent_pid := parent_pid t; state := state t; priority := priority t;
     base_priority := base_priority t; time_slice_remaining := time_slice_remaining t; process := process t;
     context := context t; interrupt_context := interrupt_context t; descriptors := descriptors t;
     credentials := credentials t; signal_actions := signal_actions t; fs_base := fs_base t; blocked_mask := blocked_mask t;
     pending_signals := pending_signals t; clear_child_tid := clear_child_tid t; pgid := pgid_; sid := sid_; cwd := cwd t;
     sigaltstack := sigaltstack t; comm := comm t; pdeath_signal := pdeath_signal t; rlimits := rlimits t;
     cpu_ticks := cpu_ticks t |}.
Definition set_fs_base (t : Task) (fs_base_ : Z) : Task :=
  {| tid := tid t; tgid := tgid t; parent_pid := parent_pid t; state := state t; priority := priority t;
     base_priority := base_priority t; time_slice_remaining := time_slice_remaining t; process := process t;
     context := context t; interrupt_context := interrupt_context t; descriptors := descriptors t;
     credentials := credentials t; signal_actions := signal_actions t; fs_base := fs_base_; blocked_mask := blocked_mask t;
     pending_signals := pending_signals t; clear_child_tid := clear_child_tid t; pgid := pgid t; sid := sid t; cwd := cwd t;
     sigaltstack := sigaltstack t; comm := comm t; pdeath_signal := pdeath_signal t; rlimits := rlimits t;
     cpu_ticks := cpu_ticks t |}.
Definition set_cpu_ticks (t : Task) (cpu_ticks_ : Z) : Task :=
  {| tid := tid t; tgid := tgid t; parent_pid := parent_pid t; state := state t; priority := priority t;
     base_priority := base_priority t; time_slice_remaining := time_slice_remaining t; process := process t;
     context := context t; interrupt_context := interrupt_context t; descriptors := descriptors t;
     credentials := credentials t; signal_actions := signal_actions t; fs_base := fs_base t; blocked_mask := blocked_mask t;
     pending_signals := pending_signals t; clear_child_tid := clear_child_tid t; pgid := pgid t; sid := sid t; cwd := cwd t;
     sigaltstack := sigaltstack t; comm := comm t; pdeath_signal := pdeath_signal t; rlimits := rlimits t;
     cpu_ticks := cpu_ticks_ |}.

(** ** Priorities *)

Definition PRIO_RT_MAX : Z := 3.
Definition PRIO_INTERACTIVE_MIN : Z := 4.
Definition PRIO_INTERACTIVE_MAX : Z := 7.
Definition PRIO_NORMAL_MIN : Z := 8.
Definition PRIO_NORMAL_MAX : Z := 15.
Definition PRIO_BATCH_MAX : Z := 19.
Definition MAX_TASKS : Z := 4096.

Definition slice_for_priority (p : Z) : Z :=
  if p <=? 3 then 1 else if p <=? 7 then 2 else if p <=? 15 then 4 else 8.
Definition priority_tier (p : Z) : Z :=
  if p <=? PRIO_RT_MAX then 0 else if p <=? PRIO_INTERACTIVE_MAX then 1 else if p <=? PRIO_NORMAL_MAX then 2 else 3.

(** A task that is woken gains two levels, up to the interactive ones. *)
Definition wake_task (t : Task) : Task :=
  let p := Z.max (saturating_sub (priority t) 2) PRIO_INTERACTIVE_MIN in
  set_state (set_priority_slice t p (slice_for_priority p)) Runnable.
(** A task that used its slice or gave it up loses one. *)
Definition demote (t : Task) : Task :=
  let p := if priority t <? PRIO_BATCH_MAX then priority t + 1 else priority t in
  set_priority_slice t p (slice_for_priority p).

(** ** The tasks of one processor *)

Record Scheduler := { tasks : list Task; current : nat; kernel_space : Z; ticks : Z; slice_ticks : Z }.
Definition set_tasks (s : Scheduler) (ts : list Task) : Scheduler :=
  {| tasks := ts; current := current s; kernel_space := kernel_space s; ticks := ticks s; slice_ticks := slice_ticks s |}.
Definition set_current (s : Scheduler) (i : nat) : Scheduler :=
  {| tasks := tasks s; current := i; kernel_space := kernel_space s; ticks := ticks s; slice_ticks := slice_ticks s |}.
Definition set_ticks (s : Scheduler) (t sl : Z) : Scheduler :=
  {| tasks := tasks s; current := current s; kernel_space := kernel_space s; ticks := t; slice_ticks := sl |}.

Definition is_runnable (t : Task) : bool := bool_decide (state t = Runnable).
Definition is_alive (t : Task) : bool := bool_decide (is_Some (process t)).

(** The round from the task after [current]; [strict] keeps the first task of
    the best tier, otherwise the last one is kept. *)
Fixpoint scan (strict : bool) (ts : list Task) (best : option nat) (tier : Z) (indices : list nat) : option nat :=
  match indices with
  | [] => best
  | i :: rest =>
    match ts !! i with
    | Some t =>
      let p := priority_tier (priority t) in
      if is_runnable t && (if strict then p <? tier else p <=? tier)
      then if p =? 0 then Some i else scan strict ts (Some i) p rest
      else scan strict ts best tier rest
    | None => scan strict ts best tier rest
    end
  end.
Definition round_from (n cur k : nat) : list nat := (λ o, (cur + o) mod n)%nat <$> seq 1 k.
Definition next_alive (s : Scheduler) (cur : nat) : option nat :=
  let n := length (tasks s) in scan true (tasks s) None 255 (round_from n cur n).
Definition next_runnable_yield (s : Scheduler) (cur : nat) : nat :=
  let n := length (tasks s) in default cur (scan false (tasks s) None 255 (round_from n cur (n - 1))).

(** ** Futexes *)

Definition futex_matches (uaddr bitset : Z) (t : Task) : bool :=
  match state t with FutexWait a b => (a =? uaddr) && negb (Z.land b bitset =? 0) | _ => false end.

Fixpoint futex_wake_tasks (ts : list Task) (woken count uaddr bitset : Z) : list Task * Z :=
  match ts with
  | [] => ([], woken)
  | t :: ts' =>
    if count <=? woken then (ts, woken) else
    if futex_matches uaddr bitset t
    then let '(r, w) := futex_wake_tasks ts' (woken + 1) count uaddr bitset in (wake_task t :: r, w)
    else let '(r, w) := futex_wake_tasks ts' woken count uaddr bitset in (t :: r, w)
  end.
Definition futex_wake_unlocked (s : Scheduler) (uaddr count bitset : Z) : Scheduler * Z :=
  let '(ts, w) := futex_wake_tasks (tasks s) 0 count uaddr bitset in (set_tasks s ts, w).

Definition requeue_task (uaddr2 : Z) (t : Task) : Task :=
  match state t with FutexWait _ b => set_state t (FutexWait uaddr2 b) | _ => t end.
Fixpoint futex_requeue_tasks (ts : list Task) (woken requeued wake_max requeue_max uaddr bitset uaddr2 : Z) : list Task * (Z * Z) :=
  match ts with
  | [] => ([], (woken, requeued))
  | t :: ts' =>
    if (wake_max <=? woken) && (requeue_max <=? requeued) then (ts, (woken, requeued)) else
    if futex_matches uaddr bitset t && (woken <? wake_max)
    then let '(r, w) := futex_requeue_tasks ts' (woken + 1) requeued wake_max requeue_max uaddr bitset uaddr2 in (wake_task t :: r, w)
    else if futex_matches uaddr bitset t && (requeued <? requeue_max)
    then let '(r, w) := futex_requeue_tasks ts' woken (requeued + 1) wake_max requeue_max uaddr bitset uaddr2 in (requeue_task uaddr2 t :: r, w)
    else let '(r, w) := futex_requeue_tasks ts' woken requeued wake_max requeue_max uaddr bitset uaddr2 in (t :: r, w)
  end.
Definition futex_requeue_unlocked (s : Scheduler) (uaddr wake_max bitset uaddr2 requeue_max : Z) : Scheduler * (Z * Z) :=
  let '(ts, w) := futex_requeue_tasks (tasks s) 0 0 wake_max requeue_max uaddr bitset uaddr2 in (set_tasks s ts, w).

(** ** Wake-ups *)

Definition wake_pipe_task (pipe_id : Z) (t : Task) : Task :=
  if bool_decide (state t = PipeWaiting pipe_id) then wake_task t else t.
Definition wake_sleeper (t : Task) : Task := match state t with Sleeping _ _ => wake_task t | _ => t end.
