(* ===== verification/Sched.v ===== *)
(** * The scheduler ([rust/kernel/src/scheduler.rs])

    One run queue per processor, and the operations that create, block, wake,
    signal, end and reap tasks, and that switch between them.

    A switch ends in [Resume]: the registers and the address space the
    processor continues with.  An operation that blocks ends in [Block]: the
    processor then repeats [wait_step], one round of the loop of
    [wait_for_next_runnable], until it finds a task; what interrupts do in
    between are operations of their own.  Writes to user memory, whose result
    the code ignores, are kept as requests in [user_writes].  The release of
    an address space with its last reference, the network bottom half and the
    flusher that [timer_tick] also runs are left out. *)

From stdpp Require Import gmap list.
From S2P Require Import Prelude Words Abi Timer Tasks.

(** ** Descriptors *)

Inductive DescriptorResource :=
| File (r : Z) | Directory (r : Z) | Serial | Tty | PipeRead (r : Z) | PipeWrite (r : Z) | Socket (r : Z) | AfUnix (r : Z)
| Ipc (r : Z) | Epoll (r : Z) | EventFd (r : Z) | SignalFd (r : Z) | PtyMaster (r : Z) | PtySlave (r : Z).
Record FileDescriptor := { capability : CapabilityId.t; rights : Rights.t; resource : DescriptorResource }.

(** ** State *)

Definition MAX_CPUS : nat := 8.

Record kernel := {
  cpus : list (option Scheduler); this_cpu : nat; next_pid : Z; next_capability_slot : Z; foreground_pid : Z;
  next_ref : Z; tables : gmap Z (list (option FileDescriptor)); actions : gmap Z (list LinuxSigAction); cwds : gmap Z (list Z);
  wheel : TimerWheel; user_writes : list (Z * Z * list Z) }.

Abbreviation K := (M kernel unit).
Inductive switch := Resume (c : UserContext) (space : Z) | Block (previous : nat) | Shell.

Definition set_cpus (k : kernel) (c : list (option Scheduler)) : kernel :=
  {| cpus := c; this_cpu := this_cpu k; next_pid := next_pid k; next_capability_slot := next_capability_slot k; foreground_pid := foreground_pid k;
     next_ref := next_ref k; tables := tables k; actions := actions k; cwds := cwds k; wheel := wheel k; user_writes := user_writes k |}.
Definition set_counters (k : kernel) (pid cap fg : Z) : kernel :=
  {| cpus := cpus k; this_cpu := this_cpu k; next_pid := pid; next_capability_slot := cap; foreground_pid := fg;
     next_ref := next_ref k; tables := tables k; actions := actions k; cwds := cwds k; wheel := wheel k; user_writes := user_writes k |}.
Definition set_stores (k : kernel) (r : Z) (t : gmap Z (list (option FileDescriptor))) (a : gmap Z (list LinuxSigAction)) (c : gmap Z (list Z)) : kernel :=
  {| cpus := cpus k; this_cpu := this_cpu k; next_pid := next_pid k; next_capability_slot := next_capability_slot k; foreground_pid := foreground_pid k;
     next_ref := r; tables := t; actions := a; cwds := c; wheel := wheel k; user_writes := user_writes k |}.
Definition set_wheel (k : kernel) (w : TimerWheel) : kernel :=
  {| cpus := cpus k; this_cpu := this_cpu k; next_pid := next_pid k; next_capability_slot := next_capability_slot k; foreground_pid := foreground_pid k;
     next_ref := next_ref k; tables := tables k; actions := actions k; cwds := cwds k; wheel := w; user_writes := user_writes k |}.
Definition log_write (k : kernel) (w : Z * Z * list Z) : kernel :=
  {| cpus := cpus k; this_cpu := this_cpu k; next_pid := next_pid k; next_capability_slot := next_capability_slot k; foreground_pid := foreground_pid k;
     next_ref := next_ref k; tables := tables k; actions := actions k; cwds := cwds k; wheel := wheel k; user_writes := user_writes k ++ [w] |}.

(** ** Access *)

Definition cpu_at (k : kernel) (i : nat) : option Scheduler := mjoin (cpus k !! i).
Definition put_cpu (i : nat) (s : Scheduler) : K unit := λ k, (set_cpus k (<[i := Some s]> (cpus k)), Ok ()).
Definition here : K (option Scheduler) := λ k, (k, Ok (cpu_at k (this_cpu k))).
(** [.expect("... without scheduler")] and [.ok_or(())?] *)
Definition expect_here : K Scheduler := λ k, (k, expect (cpu_at k (this_cpu k))).
Definition try_here : K Scheduler := λ k, (k, ok_or () (cpu_at k (this_cpu k))).
Definition put_here (s : Scheduler) : K unit := λ k, put_cpu (this_cpu k) s k.

Definition task_at (s : Scheduler) (i : nat) : K Task := lift (expect (tasks s !! i)).
Definition alter_task (s : Scheduler) (i : nat) (f : Task → Task) : Scheduler := set_tasks s (alter f i (tasks s)).

Definition allocate_pid : K Z := λ k, (set_counters k (u64 (next_pid k + 1)) (next_capability_slot k) (foreground_pid k), Ok (next_pid k)).
Definition allocate_capability : K CapabilityId.t := λ k,
  (set_counters k (next_pid k) (u64 (next_capability_slot k + 1)) (foreground_pid k), Ok (CapabilityId.from_parts (u32 (next_capability_slot k)) 1)).
Definition set_foreground (p : Z) : K unit := λ k, (set_counters k (next_pid k) (next_capability_slot k) p, Ok ()).
(** A foreground process that ends gives the terminal back. *)
Definition clear_foreground (ids : list Z) : K unit := λ k,
  (if bool_decide (foreground_pid k ∈ ids) then set_counters k (next_pid k) (next_capability_slot k) 0 else k, Ok ()).

(** [write_user_u32_in] and [write_user_bytes_in] *)
Definition write_user (p : option Process) (address : Z) (bytes : list Z) : K unit := λ k,
  (match p with Some p => log_write k (address_space p, address, bytes) | None => k end, Ok ()).

(** [Arc::new] *)
Definition new_table (t : list (option FileDescriptor)) : K Z := λ k,
  (set_stores k (next_ref k + 1) (<[next_ref k := t]> (tables k)) (actions k) (cwds k), Ok (next_ref k)).
Definition new_actions (a : list LinuxSigAction) : K Z := λ k,
  (set_stores k (next_ref k + 1) (tables k) (<[next_ref k := a]> (actions k)) (cwds k), Ok (next_ref k)).
Definition new_cwd (c : list Z) : K Z := λ k,
  (set_stores k (next_ref k + 1) (tables k) (actions k) (<[next_ref k := c]> (cwds k)), Ok (next_ref k)).
Definition get_table (r : Z) : K (list (option FileDescriptor)) := λ k, (k, expect (tables k !! r)).
Definition get_actions (r : Z) : K (list LinuxSigAction) := λ k, (k, expect (actions k !! r)).
Definition get_cwd (r : Z) : K (list Z) := λ k, (k, expect (cwds k !! r)).

(** ** Switching *)

Section scheduler.
(** [gdt::user_interrupt_selectors()] *)
Context (selectors : Z * Z).

Definition enter_task (s : Scheduler) (i : nat) : K switch :=
  let s := set_ticks (set_current s i) (ticks s) 0 in
  t ← task_at s i;
  p ← lift (expect (process t));
  _ ← put_here s;
  mret (Resume (context t) (address_space p)).

(** A yield saves the registers in both contexts and keeps the selectors. *)
Definition save_yield (c : UserContext) (t : Task) : Task :=
  let ic := interrupt_context t in
  set_contexts t c {| registers := c; code_segment := code_segment ic; stack_segment := stack_segment ic |}.
(** A task that blocks is set up to return to user mode by either way. *)
Definition save_block (c : UserContext) (t : Task) : Task :=
  set_contexts t c {| registers := with_flags c (Z.lor (flags c) 0x202); code_segment := selectors.1; stack_segment := selectors.2 |}.

Definition yield_current (c : UserContext) : K switch :=
  s ← expect_here;
  let previous := current s in
  _ ← task_at s previous;
  let s := alter_task s previous (λ t, demote (save_yield c t)) in
  enter_task s (next_runnable_yield s previous).

Definition block_current (c : UserContext) (st : TaskState) : K switch :=
  s ← expect_here;
  let previous := current s in
  _ ← task_at s previous;
  _ ← put_here (alter_task s previous (λ t, set_state (save_block c t) st));
  mret (Block previous).

(** [block_pipe_current] after its descriptor gave a key: the system call is
    executed again. *)
Definition block_pipe_current (key : Z) (c : UserContext) : K switch :=
  block_current (with_instruction_pointer c (u64 (instruction_pointer c - 2))) (PipeWaiting key).
Definition futex_wait_current (uaddr bitset : Z) (c : UserContext) : K switch :=
  block_current (with_return_value c 0) (FutexWait uaddr bitset).
Definition block_sleep_current (target rem_ptr : Z) (c : UserContext) : K switch :=
  block_current (with_return_value c 0) (Sleeping target rem_ptr).
Definition wait_current (pid status_ptr : Z) (c : UserContext) : K switch := block_current c (Waiting pid status_ptr).

(** ** Waiting for a task *)

Definition last_runnable (ts : list Task) : option (nat * Task) :=
  match list_find (λ t, is_runnable t = true) (reverse ts) with
  | Some (i, t) => Some ((length ts - 1 - i)%nat, t)
  | None => None
  end.
Definition steal_from (p : Scheduler) : option (Scheduler * Task) :=
  if (length (filter (λ t, is_runnable t = true) (tasks p)) <? 3)%nat then None else
  match last_runnable (tasks p) with
  | Some (pos, t) => if (pos =? current p)%nat then None else Some (set_tasks p (delete pos (tasks p)), t)
  | None => None
  end.
(** [try_lock] finds the peers unlocked. *)
Fixpoint steal (k : kernel) (peers : list nat) : option (nat * Scheduler * Task) :=
  match peers with
  | [] => None
  | i :: rest =>
    if (i =? this_cpu k)%nat then steal k rest else
    match cpu_at k i with
    | Some p => match steal_from p with Some (p, t) => Some (i, p, t) | None => steal k rest end
    | None => steal k rest
    end
  end.

(** [None] if the processor halts until the next interrupt. *)
Definition wait_step (previous : nat) : K (option switch) :=
  s ← expect_here;
  match next_alive s previous with
  | Some i => r ← enter_task s i; mret (Some r)
  | None =>
    k ← get;
    match steal k (seq 0 MAX_CPUS) with
    | Some (i, p, t) =>
      _ ← put_cpu i p;
      r ← enter_task (set_tasks s (tasks s ++ [t])) (length (tasks s));
      mret (Some r)
    | None => mret None
    end
  end.

(** ** Wake-ups on all processors *)

Definition on_all (f : Scheduler → Scheduler) : K unit := λ k, (set_cpus k (option_map f <$> cpus k), Ok ()).
Definition wake_pipe_waiters (pipe_id : Z) : K unit := on_all (λ s, set_tasks s (wake_pipe_task pipe_id <$> tasks s)).

(** The first task with the thread number, on the first processor that has one. *)
Fixpoint wake_in (tid_ : Z) (ts : list Task) : option (list Task) :=
  match ts with
  | [] => None
  | t :: ts' => if tid t =? tid_ then Some (wake_sleeper t :: ts') else cons t <$> wake_in tid_ ts'
  end.
Fixpoint wake_on (tid_ : Z) (l : list (option Scheduler)) : list (option Scheduler) :=
  match l with
  | [] => []
  | Some s :: l' => match wake_in tid_ (tasks s) with Some ts => Some (set_tasks s ts) :: l' | None => Some s :: wake_on tid_ l' end
  | None :: l' => None :: wake_on tid_ l'
  end.
Definition wake_sleeping_task (tid_ : Z) : K unit := λ k, (set_cpus k (wake_on tid_ (cpus k)), Ok ()).

Fixpoint futex_wake_cpus (l : list (option Scheduler)) (total count uaddr bitset : Z) : list (option Scheduler) * Z :=
  match l with
  | [] => ([], total)
  | x :: l' =>
    if count <=? total then (l, total) else
    match x with
    | Some s =>
      let '(s, w) := futex_wake_unlocked s uaddr (u32 (count - total)) bitset in
      let '(r, n) := futex_wake_cpus l' (total + w) count uaddr bitset in (Some s :: r, n)
    | None => let '(r, n) := futex_wake_cpus l' total count uaddr bitset in (None :: r, n)
    end
  end.
Definition futex_wake (uaddr count bitset : Z) : K Z := λ k,
  let '(c, n) := futex_wake_cpus (cpus k) 0 count uaddr bitset in (set_cpus k c, Ok n).

Fixpoint futex_requeue_cpus (l : list (option Scheduler)) (woken requeued wake_count requeue_count uaddr bitset uaddr2 : Z)
    : list (option Scheduler) * (Z * Z) :=
  match l with
  | [] => ([], (woken, requeued))
  | x :: l' =>
    if (wake_count <=? woken) && (requeue_count <=? requeued) then (l, (woken, requeued)) else
    match x with
    | Some s =>
      let '(s, (w, q)) := futex_requeue_unlocked s uaddr (u32 (wake_count - woken)) bitset uaddr2 (u32 (requeue_count - requeued)) in
      let '(r, n) := futex_requeue_cpus l' (woken + w) (requeued + q) wake_count requeue_count uaddr bitset uaddr2 in (Some s :: r, n)
    | None => let '(r, n) := futex_requeue_cpus l' woken requeued wake_count requeue_count uaddr bitset uaddr2 in (None :: r, n)
    end
  end.
Definition futex_requeue (uaddr wake_count bitset uaddr2 requeue_count : Z) : K (Z * Z) := λ k,
  let '(c, n) := futex_requeue_cpus (cpus k) 0 0 wake_count requeue_count uaddr bitset uaddr2 in (set_cpus k c, Ok n).

(** ** The end of a task *)

Definition FUTEX_BITSET_MATCH_ANY : Z := 0xffffffff.
Definition U64_MAX : Z := 0xffffffffffffffff.

(** A task is marked as ended: its process is given up and the word that names
    it is cleared; the address of the word is returned for a futex wake. *)
Definition end_task (s : Scheduler) (i : nat) (code : Z) : K (Scheduler * list Z) :=
  t ← task_at s i;
  _ ← (if clear_child_tid t =? 0 then mret () else write_user (process t) (clear_child_tid t) (to_le 4 0));
  mret (alter_task s i (λ t, set_state (set_process (set_clear_child_tid t 0) None) (Zombie code)),
        if clear_child_tid t =? 0 then [] else [clear_child_tid t]).
Fixpoint end_tasks (s : Scheduler) (l : list nat) (code : Z) : K (Scheduler * list Z) :=
  match l with
  | [] => mret (s, [])
  | i :: l' => '(s, a) ← end_task s i code; '(s, b) ← end_tasks s l' code; mret (s, a ++ b)
  end.
(** The positions of the tasks that satisfy [f]. *)
Definition indices (f : Task → bool) (s : Scheduler) : list nat :=
  omap (λ '(i, t), if f t then Some i else None) (imap pair (tasks s)).
Definition wake_cleared (s : Scheduler) (addrs : list Z) : Scheduler :=
  foldl (λ s a, (futex_wake_unlocked s a 1 FUTEX_BITSET_MATCH_ANY).1) s addrs.

(** A task of process [parent] that waits for [child]. *)
Definition waits_for (parent child : Z) (t : Task) : bool :=
  (tgid t =? parent) &&
  match state t with Waiting c _ => (c =? child) || (c =? U64_MAX) || (c =? 0) | _ => false end.
Definition is_linux (t : Task) : bool := match process t with Some p => bool_decide (personality p ≠ NativeVanta) | None => false end.

Definition return_value_to (v : Z) (t : Task) : Task :=
  let ic := interrupt_context t in
  set_contexts t (with_return_value (context t) v)
    {| registers := with_return_value (registers ic) v; code_segment := code_segment ic; stack_segment := stack_segment ic |}.

(** The first such task is given the status and runs again. *)
Definition release_parent (s : Scheduler) (parent child native_value status : Z) : K (option Scheduler) :=
  match list_find (λ t, waits_for parent child t = true) (tasks s) with
  | Some (i, t) =>
    _ ← (match state t with
         | Waiting _ ptr => if ptr =? 0 then mret () else write_user (process t) ptr (to_le 4 status)
         | _ => mret ()
         end);
    mret (Some (alter_task s i (λ t, set_state (return_value_to (if is_linux t then child else native_value) t) Runnable)))
  | None => mret None
  end.

Definition group_alive (tg : Z) (s : Scheduler) : bool := existsb (λ t, (tgid t =? tg) && is_alive t) (tasks s).

(** The parent on another processor; the task marked as reaped is the current
    one of this processor at that time. *)
Fixpoint release_remote (l : list nat) (parent child code status : Z) : K unit :=
  match l with
  | [] => mret ()
  | i :: l' =>
    k ← get;
    if (i =? this_cpu k)%nat then release_remote l' parent child code status else
    match cpu_at k i with
    | Some s =>
      r ← release_parent s parent child code status;
      match r with
      | Some s =>
        _ ← put_cpu i s;
        c ← here;
        match c with
        | Some c => _ ← task_at c (current c); put_here (alter_task c (current c) (λ t, set_state t Reaped))
        | None => mret ()
        end
      | None => release_remote l' parent child code status
      end
    | None => release_remote l' parent child code status
    end
  end.

(** [((code as i32) & 0xff) << 8] *)
Definition exit_status (code : Z) : Z := Z.shiftl (Z.land code 0xff) 8.

(** The task is ended and a waiting parent on this processor released. *)
Definition exit_task (s : Scheduler) (t : Task) (code : Z) : K Scheduler :=
  let cur := current s in
  _ ← (if clear_child_tid t =? 0 then mret () : K unit else write_user (process t) (clear_child_tid t) (to_le 4 0));
  let s := alter_task s cur (λ t, set_clear_child_tid t 0) in
  let s := if clear_child_tid t =? 0 then s else (futex_wake_unlocked s (clear_child_tid t) 1 FUTEX_BITSET_MATCH_ANY).1 in
  let s := alter_task s cur (λ t, set_state (set_process t None) (Zombie code)) in
  _ ← clear_foreground [tgid t; tid t];
  if group_alive (tgid t) s then mret s else
  r ← release_parent s (default 0 (parent_pid t)) (tgid t) code (exit_status code);
  mret (match r with Some s => alter_task s cur (λ t, set_state t Reaped) | None => s end).

(** The next task becomes the current one. *)
Definition exit_next (s : Scheduler) (cur : nat) : K (option switch) :=
  match next_alive s cur with
  | Some i =>
    let s := set_current s i in
    n ← task_at s i;
    p ← lift (expect (process n));
    _ ← put_here s;
    mret (Some (Resume (context n) (address_space p)))
  | None => _ ← put_here s; mret None
  end.

Definition exit_remote (t : Task) (code : Z) : K unit := λ k,
  match parent_pid t with
  | Some parent =>
    if existsb (λ c, match c with Some s => group_alive (tgid t) s | None => false end) (cpus k) then (k, Ok ())
    else release_remote (seq 0 MAX_CPUS) parent (tgid t) code (exit_status code) k
  | None => (k, Ok ())
  end.

(** The processor goes back to the kernel shell. *)
Definition stop_here : K switch := λ k, (set_cpus k (<[this_cpu k := None]> (cpus k)), Ok Shell).

Definition exit_current (code : Z) : K switch :=
  s ← expect_here;
  t ← task_at s (current s);
  s ← exit_task s t code;
  target ← exit_next s (current s);
  _ ← exit_remote t code;
  match target with
  | Some r => mret r
  | None => if existsb is_alive (tasks s) then mret (Block 0) else stop_here
  end.

Definition exit_group_current (code : Z) : K switch :=
  o ← here;
  _ ← (match o with
       | Some s =>
         t ← task_at s (current s);
         let others := indices (λ u, (tgid u =? tgid t) && is_alive u && negb (tid u =? tid t)) s in
         '(s, addrs) ← end_tasks s others code;
         put_here (wake_cleared s addrs)
       | None => mret ()
       end);
  exit_current code.

(** ** Waiting for a child *)

Definition child_of (parent target : Z) (t : Task) : bool :=
  bool_decide (parent_pid t = Some parent) && ((target =? U64_MAX) || (target =? 0) || (tgid t =? target)).
Definition zombie_code (t : Task) : option Z := match state t with Zombie c => Some c | _ => None end.
Definition is_zombie_child (parent target : Z) (t : Task) : bool := child_of parent target t && bool_decide (is_Some (zombie_code t)).
Definition has_child (parent target : Z) (s : Scheduler) : bool :=
  existsb (λ t, child_of parent target t && negb (bool_decide (state t = Reaped))) (tasks s).

Definition reap (s : Scheduler) (parent target : Z) : option (Scheduler * (Z * Z)) :=
  match list_find (λ t, is_zombie_child parent target t = true) (tasks s) with
  | Some (i, t) => Some (alter_task s i (λ t, set_state t Reaped), (tgid t, default 0 (zombie_code t)))
  | None => None
  end.
Fixpoint reap_remote (l : list nat) (parent target : Z) : K (option (Z * Z)) :=
  match l with
  | [] => mret None
  | i :: l' =>
    k ← get;
    if (i =? this_cpu k)%nat then reap_remote l' parent target else
    match cpu_at k i with
    | Some s => match reap s parent target with
                | Some (s, r) => _ ← put_cpu i s; mret (Some r)
                | None => reap_remote l' parent target
                end
    | None => reap_remote l' parent target
    end
  end.

(** [Ok None]: there are children, but none has ended. *)
Definition wait_child_current (target : Z) : K (option (Z * Z)) :=
  s ← try_here;
  t ← task_at s (current s);
  let parent := tgid t in
  match reap s parent target with
  | Some (s, r) => _ ← put_here s; mret (Some r)
  | None =>
    z ← reap_remote (seq 0 MAX_CPUS) parent target;
    match z with
    | Some r => mret (Some r)
    | None =>
      k ← get;
      if has_child parent target s ||
         existsb (λ i, negb (i =? this_cpu k)%nat && match cpu_at k i with Some s => has_child parent target s | None => false end) (seq 0 MAX_CPUS)
      then mret None else fail ()
    end
  end.

(** ** Signals *)

Inductive SignalDefaultAction := Terminate | CoreDump | Ignore | Stop | Continue.
#[export] Instance SignalDefaultAction_eq_dec : EqDecision SignalDefaultAction.
Proof. solve_decision. Defined.

Definition default_signal_action (signo : Z) : SignalDefaultAction :=
  if bool_decide (signo ∈ [17; 23; 28]) then Ignore
  else if bool_decide (signo ∈ [19; 20; 21; 22]) then Stop
  else if signo =? 18 then Continue
  else if bool_decide (signo ∈ [3; 4; 5; 6; 7; 8; 11; 31]) then CoreDump
  else Terminate.
Definition UNBLOCKABLE_SIGNALS_MASK : Z := Z.lor (Z.shiftl 1 8) (Z.shiftl 1 18).
Definition ends_by_default (signal : Z) : bool :=
  bool_decide (default_signal_action signal = Terminate) || bool_decide (default_signal_action signal = CoreDump).
Definition sig_bit (signal : Z) : Z := Z.shiftl 1 (signal - 1).

(** [actions.lock()[signal as usize]] *)
Definition action_of (t : Task) (signal : Z) : K LinuxSigAction :=
  l ← get_actions (signal_actions t); lift (expect (l !! Z.to_nat signal)).

(** The time left of an interrupted sleep, as seconds and nanoseconds. *)
Definition remaining_time (target now : Z) : list Z :=
  let r := saturating_sub target now in to_le 8 (r / 1000) ++ to_le 8 (r mod 1000 * 1000000).
Definition EINTR_RETURN : Z := u64 (- 4).

(** A blocked task runs again because of a signal; a sleep is cut short. *)
Definition interrupt_sleep (t : Task) (target rem_ptr : Z) : K unit := λ k,
  let k := set_wheel k (wheel_cancel_sleep (wheel k) (tid t)).1 in
  if rem_ptr =? 0 then (k, Ok ()) else write_user (process t) rem_ptr (remaining_time target (current_tick (wheel k))) k.
Definition interrupted (t : Task) : Task :=
  match state t with
  | Sleeping _ _ => set_state (return_value_to EINTR_RETURN t) Runnable
  | PipeWaiting _ | FutexWait _ _ => set_state t Runnable
  | _ => t
  end.

(** The signal becomes pending for the task. *)
Definition post_signal (s : Scheduler) (i : nat) (signal : Z) (wakes : bool) : K Scheduler :=
  t ← task_at s i;
  let s := alter_task s i (λ t, set_pending_signals t (Z.lor (pending_signals t) (sig_bit signal))) in
  if wakes then
    _ ← (match state t with Sleeping target ptr => interrupt_sleep t target ptr | _ => mret () end : K unit);
    mret (alter_task s i interrupted)
  else mret s.
Fixpoint post_signals (s : Scheduler) (l : list nat) (signal : Z) (wakes : bool) : K Scheduler :=
  match l with
  | [] => mret s
  | i :: l' => s ← post_signal s i signal wakes; post_signals s l' signal wakes
  end.

(** The tasks a [kill] is for. *)
Definition signal_target (is_group : bool) (pgid_ tgid_ : Z) (t : Task) : bool :=
  is_alive t && (if is_group then pgid t =? pgid_ else tgid t =? tgid_).

(** What a signal does to the tasks [l], the first of which is [t0]: the
    parent of a task that ended, if any. *)
Definition signal_tasks (s : Scheduler) (t0 : Task) (l : list nat) (signal target_tgid : Z) : K (Scheduler * option Z) :=
  a ← action_of t0 signal;
  let is_blocked := negb (Z.land (blocked_mask t0) (sig_bit signal) =? 0) && negb (signal =? 9) && negb (signal =? 19) in
  if ((signal =? 9) || ((sa_handler a =? 0) && ends_by_default signal)) && negb is_blocked then
    '(s, addrs) ← end_tasks s l (128 + signal);
    _ ← clear_foreground [target_tgid];
    mret (wake_cleared s addrs, parent_pid t0)
  else if ((sa_handler a =? 1) || ((sa_handler a =? 0) && bool_decide (default_signal_action signal = Ignore))) && negb is_blocked then
    mret (s, None)
  else s ← post_signals s l signal (negb is_blocked); mret (s, None).

(** On one processor after the other: whether a task was found, and the parent
    to wake. *)
Definition kill_cpu (i : nat) (is_group : bool) (pgid_ tgid_ signal : Z) : K (bool * option Z) :=
  k ← get;
  match cpu_at k i with
  | Some s =>
    let l := indices (signal_target is_group pgid_ tgid_) s in
    match l with
    | [] => mret (false, None)
    | first :: _ =>
      if signal =? 0 then mret (true, None) else
      t0 ← task_at s first;
      '(s, parent) ← signal_tasks s t0 l signal tgid_;
      _ ← put_cpu i s;
      mret (true, parent)
    end
  | None => mret (false, None)
  end.
Fixpoint kill_cpus (l : list nat) (is_group : bool) (pgid_ tgid_ signal : Z) (found : bool) (parent : option Z) : K (bool * option Z) :=
  match l with
  | [] => mret (found, parent)
  | i :: l' =>
    '(f, p) ← kill_cpu i is_group pgid_ tgid_ signal;
    kill_cpus l' is_group pgid_ tgid_ signal (found || f) (match parent with Some _ => parent | None => p end)
  end.

(** The parent on the first processor that has one waiting. *)
Fixpoint wake_parent (l : list nat) (parent child native_value status : Z) : K unit :=
  match l with
  | [] => mret ()
  | i :: l' =>
    k ← get;
    match cpu_at k i with
    | Some s =>
      r ← release_parent s parent child native_value status;
      match r with Some s => put_cpu i s | None => wake_parent l' parent child native_value status end
    | None => wake_parent l' parent child native_value status
    end
  end.

Definition kill_process (pid signal : Z) : K unit :=
  if 64 <? signal then fail () else
  s ← try_here;
  t ← task_at s (current s);
  let p := signed 64 pid in
  let target_tgid := if pid =? 0 then tgid t else pid in
  '(found, parent) ← kill_cpus (seq 0 MAX_CPUS) (p <=? 0) (if p <? 0 then u64 (- p) else pgid t) target_tgid signal false None;
  if negb found then fail () else
  match parent with
  | Some parent => wake_parent (seq 0 MAX_CPUS) parent target_tgid (128 + signal) (Z.land (128 + signal) 0x7f)
  | None => mret ()
  end.

Definition signal_pgrp (pgid_ signal : Z) : K unit := if pgid_ =? 0 then mret () else kill_process (u64 (- pgid_)) signal.

Definition kill_on (i : nat) (s : Scheduler) (idx : nat) (signal : Z) : K unit :=
  t ← task_at s idx;
  a ← action_of t signal;
  if (signal =? 9) || ((sa_handler a =? 0) && ends_by_default signal) then
    '(s, addrs) ← end_task s idx (128 + signal); put_cpu i (wake_cleared s addrs)
  else if (sa_handler a =? 1) || ((sa_handler a =? 0) && bool_decide (default_signal_action signal = Ignore)) then mret ()
  else s ← post_signal s idx signal true; put_cpu i s.
Fixpoint kill_thread_on (l : list nat) (tid_ signal : Z) : K unit :=
  match l with
  | [] => fail ()
  | i :: l' =>
    k ← get;
    match cpu_at k i with
    | Some s =>
      match indices (λ t, (tid t =? tid_) && is_alive t) s with
      | idx :: _ => if signal =? 0 then mret () else kill_on i s idx signal
      | [] => kill_thread_on l' tid_ signal
      end
    | None => kill_thread_on l' tid_ signal
    end
  end.
Definition kill_thread (tid_ signal : Z) : K unit := if 64 <? signal then fail () else kill_thread_on (seq 0 MAX_CPUS) tid_ signal.

(** The signal a task that returns to user mode has to handle. *)
Definition trailing_zeros (z : Z) : option nat := list_find (λ i, Z.testbit z (Z.of_nat i) = true) (seq 0 64) ≫= λ '(i, _), Some i.
Definition check_pending_signal_to_deliver : K (option (Z * LinuxSigAction)) :=
  o ← here;
  match o with
  | None => mret None
  | Some s =>
    t ← task_at s (current s);
    if negb (is_alive t) then mret None else
    match trailing_zeros (Z.land (pending_signals t) (bnot 64 (blocked_mask t))) with
    | None => mret None
    | Some bit =>
      let b := Z.of_nat bit in
      _ ← put_here (alter_task s (current s) (λ t, set_pending_signals t (Z.land (pending_signals t) (bnot 64 (Z.shiftl 1 b)))));
      a ← action_of t (b + 1);
      mret (Some (b + 1, a))
    end
  end.

Definition set_current_blocked_mask (mask : Z) : K unit :=
  o ← here;
  match o with
  | Some s => put_here (alter_task s (current s) (λ t, set_blocked_mask t (Z.land mask (bnot 64 UNBLOCKABLE_SIGNALS_MASK))))
  | None => mret ()
  end.
Definition put_action (r signal : Z) (a : LinuxSigAction) : K unit := λ k,
  (set_stores k (next_ref k) (tables k) (alter (λ l, <[Z.to_nat signal := a]> l) r (actions k)) (cwds k), Ok ()).
Definition set_signal_action (signal : Z) (a : LinuxSigAction) : K LinuxSigAction :=
  s ← try_here;
  if (signal =? 0) || (64 <? signal) || (signal =? 9) || (signal =? 19) then fail () else
  t ← task_at s (current s);
  old ← action_of t signal;
  _ ← put_action (signal_actions t) signal a;
  mret old.
Definition reset_signal_action (signal : Z) : K unit :=
  o ← here;
  match o with
  | Some s => if (1 <=? signal) && (signal <=? 64) then t ← task_at s (current s); put_action (signal_actions t) signal default_action else mret ()
  | None => mret ()
  end.

(** ** New tasks *)

Definition user_context (entry_ stack : Z) : UserContext :=
  {| return_value := 0; rbx := 0; rbp := 0; r12 := stack; r13 := 0; r14 := 0; r15 := 0; rdi := 0; rsi := 0; rdx := 0; r8 := 0; r9 := 0;
     r10 := 0; instruction_pointer := entry_; flags := 0x202; stack_pointer := stack; rcx := 0; r11 := 0x202 |}.
(** [InterruptContext::initial] *)
Definition initial (entry_ stack : Z) : InterruptContext :=
  {| registers :=
       {| return_value := 0; rbx := 0; rbp := 0; r12 := 0; r13 := 0; r14 := 0; r15 := 0; rdi := 0; rsi := 0; rdx := 0; r8 := 0; r9 := 0;
          r10 := 0; instruction_pointer := entry_; flags := 0x202; stack_pointer := stack; rcx := 0; r11 := 0 |};
     code_segment := selectors.1; stack_segment := selectors.2 |}.

Definition default_rlimits : list Z :=
  <[6%nat := 8 * 1024 * 1024]> (<[7%nat := 8 * 1024 * 1024]> (<[14%nat := 1024]> (<[15%nat := 4096]> (replicate 32 U64_MAX)))).
(** "/home/vanta" and "vanta-app" with seven NULs *)
Definition HOME : list Z := [47; 104; 111; 109; 101; 47; 118; 97; 110; 116; 97].
Definition APP_NAME : list Z := [118; 97; 110; 116; 97; 45; 97; 112; 112; 0; 0; 0; 0; 0; 0; 0].

Definition new_task (tid_ tgid_ : Z) (parent : option Z) (cred : Credentials.t) (p : Process) (fds : list (option FileDescriptor)) : K Task :=
  let prio := if tgid_ <=? 2 then PRIO_INTERACTIVE_MIN else PRIO_NORMAL_MIN in
  d ← new_table fds;
  a ← new_actions (replicate 65 default_action);
  c ← new_cwd HOME;
  mret {| tid := tid_; tgid := tgid_; parent_pid := parent; state := Runnable; priority := prio; base_priority := prio;
          time_slice_remaining := slice_for_priority prio; process := Some p; context := user_context (entry p) (user_stack_top p);
          interrupt_context := initial (entry p) (user_stack_top p); descriptors := d; credentials := cred; signal_actions := a;
          fs_base := 0; blocked_mask := 0; pending_signals := 0; clear_child_tid := 0; pgid := tgid_; sid := tgid_; cwd := c;
          sigaltstack := {| ss_sp := 0; ss_flags := 2; ss_size := 0 |}; comm := APP_NAME; pdeath_signal := 0;
          rlimits := default_rlimits; cpu_ticks := 0 |}.

Definition standard_descriptors (native_tty : bool) : K (list (option FileDescriptor)) :=
  let r := if native_tty then Tty else Serial in
  a ← allocate_capability; b ← allocate_capability; c ← allocate_capability;
  mret [Some {| capability := a; rights := Rights.bitor Rights.READ Rights.TRANSFER; resource := r |};
        Some {| capability := b; rights := Rights.bitor Rights.WRITE Rights.TRANSFER; resource := r |};
        Some {| capability := c; rights := Rights.bitor Rights.WRITE Rights.TRANSFER; resource := r |}].

(** A task takes the first slot of a reaped one. *)
Definition place_task (s : Scheduler) (t : Task) : K Scheduler :=
  match list_find (λ u, state u = Reaped) (tasks s) with
  | Some (i, _) => mret (set_tasks s (<[i := t]> (tasks s)))
  | None => if zlen (tasks s) <? MAX_TASKS then mret (set_tasks s (tasks s ++ [t])) else fail ()
  end.

Fixpoint new_tasks (l : list Process) (native_tty : bool) : K (list Task) :=
  match l with
  | [] => mret []
  | p :: l' =>
    pid ← allocate_pid;
    fds ← standard_descriptors native_tty;
    t ← new_task pid pid None Credentials.root p fds;
    ts ← new_tasks l' native_tty;
    mret (t :: ts)
  end.
(** [start_on_current_cpu] with at least one process. *)
Definition start_on_current_cpu (l : list Process) (kspace : Z) (native_tty : bool) : K switch :=
  ts ← new_tasks l native_tty;
  let s := {| tasks := ts; current := 0; kernel_space := kspace; ticks := 0; slice_ticks := 0 |} in
  _ ← put_here s;
  t ← task_at s 0;
  p ← lift (expect (process t));
  mret (Resume (context t) (address_space p)).

Definition spawn_task (s : Scheduler) (t : Task) (p : Process) (fds : list (option FileDescriptor)) : K Z :=
  let cred := if Credentials.is_root (credentials t) then Credentials.vanta else credentials t in
  pid ← allocate_pid;
  child ← new_task pid pid (Some (tgid t)) cred p fds;
  s ← place_task s child;
  _ ← put_here s;
  _ ← set_foreground pid;
  mret pid.
Definition spawn_current (p : Process) : K Z :=
  s ← try_here;
  t ← task_at s (current s);
  fds ← get_table (descriptors t);
  spawn_task s t p fds.

(** [descriptors[target] = Some(descriptor)], extending the table. *)
Definition redirect (fds : list (option FileDescriptor)) (target : nat) (source : Z) : option (list (option FileDescriptor)) :=
  if source =? U64_MAX then Some fds else
  match fds !! Z.to_nat source with
  | Some (Some d) =>
    let fds := if (target <? length fds)%nat then fds else fds ++ replicate (target + 1 - length fds) None in
    Some (<[target := Some d]> fds)
  | _ => None
  end.
Definition spawn_with_stdio_current (p : Process) (stdin stdout stderr : Z) : K Z :=
  s ← try_here;
  t ← task_at s (current s);
  fds ← get_table (descriptors t);
  fds ← lift (ok_or () (redirect fds 0 stdin));
  fds ← lift (ok_or () (redirect fds 1 stdout));
  fds ← lift (ok_or () (redirect fds 2 stderr));
  spawn_task s t p fds.

Definition CLONE_VM : Z := 0x100.
Definition CLONE_FS : Z := 0x200.
Definition CLONE_FILES : Z := 0x400.
Definition CLONE_SIGHAND : Z := 0x800.
Definition CLONE_THREAD : Z := 0x10000.
Definition CLONE_SETTLS : Z := 0x80000.
Definition CLONE_PARENT_SETTID : Z := 0x100000.
Definition CLONE_CHILD_CLEARTID : Z := 0x200000.
Definition CLONE_CHILD_SETTID : Z := 0x1000000.
Definition flag (flags_ bits : Z) : bool := negb (Z.land flags_ bits =? 0).

(** [cloned] is the result of copying the address space. *)
Definition clone_task_current (fl child_stack parent_tidptr child_tidptr tls : Z) (c : UserContext) (ic : InterruptContext) (cloned : option Process) : K Z :=
  s ← try_here;
  t ← task_at s (current s);
  p ← lift (ok_or () (process t));
  child ← allocate_pid;
  q ← (if flag fl CLONE_VM then mret p : K Process else lift (ok_or () cloned));
  d ← (if flag fl CLONE_FILES then mret (descriptors t) : K Z else fds ← get_table (descriptors t); new_table fds);
  a ← (if flag fl (Z.lor CLONE_SIGHAND CLONE_THREAD) then mret (signal_actions t) : K Z else l ← get_actions (signal_actions t); new_actions l);
  dir ← (if flag fl CLONE_FS then mret (cwd t) : K Z else w ← get_cwd (cwd t); new_cwd w);
  let sp := if child_stack =? 0 then stack_pointer c else child_stack in
  let rip := instruction_pointer (registers ic) in
  let fl' := Z.lor (flags c) 0x202 in
  let u := {| tid := child; tgid := if flag fl CLONE_THREAD then tgid t else child;
              parent_pid := if flag fl CLONE_THREAD then parent_pid t else Some (tgid t); state := Runnable; priority := priority t;
              base_priority := base_priority t; time_slice_remaining := slice_for_priority (priority t); process := Some q;
              context := with_resume c 0 rip fl' sp;
              interrupt_context := {| registers := with_resume (registers ic) 0 rip fl' sp; code_segment := code_segment ic; stack_segment := stack_segment ic |};
              descriptors := d; credentials := credentials t; signal_actions := a; fs_base := if flag fl CLONE_SETTLS then tls else fs_base t;
              blocked_mask := blocked_mask t; pending_signals := 0;
              clear_child_tid := if flag fl CLONE_CHILD_CLEARTID then if child_tidptr =? 0 then parent_tidptr else child_tidptr else 0;
              pgid := pgid t; sid := sid t; cwd := dir; sigaltstack := sigaltstack t; comm := comm t; pdeath_signal := 0; rlimits := rlimits t;
              cpu_ticks := 0 |} in
  _ ← (if flag fl CLONE_PARENT_SETTID && negb (parent_tidptr =? 0) then write_user (Some p) parent_tidptr (to_le 4 child) else mret () : K unit);
  _ ← (if flag fl CLONE_CHILD_SETTID && negb (child_tidptr =? 0) then write_user (Some p) child_tidptr (to_le 4 child) else mret () : K unit);
  s ← place_task s u;
  _ ← put_here s;
  mret child.

(** The task continues in a new program. *)
Definition exec_task (p : Process) (d a : Z) (t : Task) : Task :=
  {| tid := tid t; tgid := tgid t; parent_pid := parent_pid t; state := state t; priority := priority t; base_priority := base_priority t;
     time_slice_remaining := time_slice_remaining t; process := Some p; context := user_context (entry p) (user_stack_top p);
     interrupt_context := initial (entry p) (user_stack_top p); descriptors := d; credentials := credentials t; signal_actions := a;
     fs_base := 0; blocked_mask := 0; pending_signals := 0; clear_child_tid := 0; pgid := pgid t; sid := sid t; cwd := cwd t;
     sigaltstack := sigaltstack t; comm := comm t; pdeath_signal := pdeath_signal t; rlimits := rlimits t; cpu_ticks := cpu_ticks t |}.
Definition exec_current (p : Process) : K switch :=
  s ← expect_here;
  _ ← task_at s (current s);
  fds ← standard_descriptors false;
  d ← new_table fds;
  a ← new_actions (replicate 65 default_action);
  _ ← put_here (alter_task s (current s) (exec_task p d a));
  mret (Resume (user_context (entry p) (user_stack_top p)) (address_space p)).

(** ** The timer interrupt *)

Definition expire (e : TimerEntry) : K unit :=
  match timer_kind e with
  | Sleep tid_ => wake_sleeping_task tid_
  | ITimerReal pid interval => λ k,
    match kill_process pid 14 k with
    | (k, Panic) => (k, Panic)
    | (k, _) => (if 0 <? interval then set_wheel k (rearm_itimer (wheel k) (timer_id e) interval) else k, Ok ())
    end
  end.
Fixpoint expire_all (l : list TimerEntry) : K unit := match l with [] => mret () | e :: l' => _ ← expire e; expire_all l' end.
(** The boot processor advances the timers. *)
Definition advance_timers : K unit := λ k, let '(w, l) := advance_tick (wheel k) in expire_all l (set_wheel k w).

(** The registers of a preempted task; its flags enable interrupts. *)
Definition save_preempted (ic : InterruptContext) (t : Task) : Task :=
  let r := with_flags (registers ic) (Z.lor (flags (registers ic)) 0x202) in
  set_contexts t r {| registers := r; code_segment := code_segment ic; stack_segment := stack_segment ic |}.

Definition slice_left (t : Task) : Z := if 0 <? time_slice_remaining t then time_slice_remaining t - 1 else time_slice_remaining t.
Definition tick_task (t : Task) : Task := set_priority_slice (set_cpu_ticks t (wrapping_add 64 (cpu_ticks t) 1)) (priority t) (slice_left t).

(** [None]: the interrupted task goes on. *)
Definition preempt (ic : InterruptContext) : K (option (InterruptContext * Z)) :=
  o ← here;
  match o with
  | None => mret None
  | Some s =>
    let s := set_ticks s (wrapping_add 64 (ticks s) 1) (slice_ticks s) in
    let cur := current s in
    t ← task_at s cur;
    let s := alter_task s cur tick_task in
    if 0 <? slice_left t then _ ← put_here s; mret None else
    let s := alter_task s cur demote in
    let next := default cur (next_alive s cur) in
    let s := set_ticks s (ticks s) 0 in
    if (next =? cur)%nat then _ ← put_here s; mret None else
    let s := set_current (alter_task s cur (save_preempted ic)) next in
    n ← task_at s next;
    p ← lift (expect (process n));
    _ ← put_here s;
    mret (Some (interrupt_context n, address_space p))
  end.

(** [is_bsp] is [!smp::is_application_processor()]. *)
Definition timer_tick (is_bsp : bool) (ic : InterruptContext) : K (option (InterruptContext * Z)) :=
  _ ← (if is_bsp then advance_timers else mret () : K unit);
  if interrupted_user_mode ic then preempt ic else mret None.

(** The keyboard's interrupt key: the foreground process or the current one. *)
Definition current_pid : K Z := o ← here; match o with Some s => t ← task_at s (current s); mret (tgid t) | None => mret 0 end.
Definition foreground_target : K Z := λ k, if foreground_pid k =? 0 then current_pid k else (k, Ok (foreground_pid k)).
(** [let _ = ...] *)
Definition ignored {A} (op : K A) : K unit := λ k, match op k with (k, Panic) => (k, Panic) | (k, _) => (k, Ok ()) end.
Definition interrupt_current (signal : Z) : K unit :=
  if (signal =? 0) || (64 <? signal) then mret () else
  target ← foreground_target;
  ignored (kill_process target signal).

(** ** Priorities, sessions and groups *)

Definition set_priority_of (p : Z) (t : Task) : Task := set_both_priorities t p p (slice_for_priority p).
Fixpoint change_first (f : Task → bool) (g : Task → Task) (ts : list Task) : option (list Task) :=
  match ts with [] => None | t :: ts' => if f t then Some (g t :: ts') else cons t <$> change_first f g ts' end.
Fixpoint change_cpus (f : Task → bool) (g : Task → Task) (l : list (option Scheduler)) : option (list (option Scheduler)) :=
  match l with
  | [] => None
  | Some s :: l' => match change_first f g (tasks s) with Some ts => Some (Some (set_tasks s ts) :: l') | None => cons (Some s) <$> change_cpus f g l' end
  | None :: l' => cons None <$> change_cpus f g l'
  end.
Definition set_priority (pid p : Z) : K unit :=
  let p := Z.min p PRIO_BATCH_MAX in
  if pid =? 0 then s ← try_here; _ ← task_at s (current s); put_here (alter_task s (current s) (set_priority_of p))
  else λ k, match change_cpus (λ t, tgid t =? pid) (set_priority_of p) (cpus k) with Some c => (set_cpus k c, Ok ()) | None => (k, Err ()) end.
Definition setsid_current : K Z :=
  o ← here;
  match o with
  | Some s => t ← task_at s (current s); _ ← put_here (alter_task s (current s) (λ t, set_groups t (tgid t) (tgid t))); mret (tgid t)
  | None => mret 1
  end.
Definition setpgid_task (pid pgid_ : Z) : K unit :=
  s ← try_here;
  t ← task_at s (current s);
  let target := if pid =? 0 then tgid t else pid in
  let g := if pgid_ =? 0 then target else pgid_ in
  match change_first (λ t, tgid t =? target) (λ t, set_groups t g (sid t)) (tasks s) with
  | Some ts => put_here (set_tasks s ts)
  | None => fail ()
  end.
Definition find_task (s : Scheduler) (pid : Z) : K (option Task) :=
  t ← task_at s (current s);
  let target := if pid =? 0 then tgid t else pid in
  mret (list_find (λ t, tgid t = target) (tasks s) ≫= λ '(_, t), Some t).
Definition getpgid_task (pid : Z) : K (option Z) :=
  o ← here; match o with Some s => t ← find_task s pid; mret (pgid <$> t) | None => mret None end.
Definition getsid_task (pid : Z) : K (option Z) :=
  o ← here; match o with Some s => t ← find_task s pid; mret (sid <$> t) | None => mret None end.
End scheduler.
