(* ===== verification/SchedFair.v ===== *)
(** * The choice of the next task

    What [next_alive] chooses, what a preemption does to the run queue, and a
    measure of how far a runnable task is from its turn, which every
    preemption decreases: a task that keeps computing sinks to the lowest
    tier, where the tasks take turns. *)

From stdpp Require Import gmap list.
From S2P Require Import Prelude Words Abi Timer Tasks Sched.

(** ** The round *)

Lemma round_index n cur o : (cur < n)%nat → (o ≤ n)%nat → ((cur + o) mod n = if decide (cur + o < n) then cur + o else cur + o - n)%nat.
Proof.
  intros Hc Ho. case_decide; [by apply Nat.mod_small|]. rewrite <- (Nat.mod_small (cur + o - n) n) by lia.
  replace (cur + o)%nat with (cur + o - n + 1 * n)%nat at 1 by lia. apply Nat.Div0.mod_add.
Qed.

(** Steps from [cur] to [i] around the table. *)
Definition dist (n cur i : nat) : nat := if decide (cur ≤ i)%nat then (i - cur)%nat else (i + n - cur)%nat.

Lemma round_lookup n cur k x j : round_from n cur k !! x = Some j → j = ((cur + S x) mod n)%nat ∧ (x < k)%nat.
Proof. unfold round_from. rewrite list_lookup_fmap. intros (o & Ho & ->)%fmap_Some. apply lookup_seq in Ho as [-> ?]. done. Qed.
Lemma round_dist n cur i : (cur < n)%nat → (i < n)%nat → i ≠ cur → round_from n cur n !! (dist n cur i - 1)%nat = Some i.
Proof.
  intros Hc Hi Hne. assert (1 ≤ dist n cur i < n)%nat as Hd by (unfold dist; case_decide; lia).
  unfold round_from. rewrite list_lookup_fmap, lookup_seq_lt by lia. cbn [fmap option_fmap option_map]. f_equal.
  rewrite round_index by lia. unfold dist in *. repeat case_decide; lia.
Qed.
Lemma dist_step n cur i x j : (cur < n)%nat → (i < n)%nat → i ≠ cur → round_from n cur n !! x = Some j → (x < dist n cur i)%nat →
  (dist n j i < dist n cur i)%nat.
Proof.
  intros Hc Hi Hne [-> Hx]%round_lookup Hd. rewrite round_index by lia. unfold dist in *. repeat case_decide; lia.
Qed.

(** ** The choice *)

Definition tier_of (t : Task) : Z := priority_tier (priority t).
Lemma tier_range t : 0 ≤ tier_of t ≤ 3.
Proof. unfold tier_of, priority_tier. repeat case_match; lia. Qed.

Definition candidate (ts : list Task) (i : nat) (p : Z) : Prop := ∃ t, ts !! i = Some t ∧ state t = Runnable ∧ tier_of t = p.

(** The outcome of a scan of [idx] from [best] of tier [tier]: nothing better,
    or the first task of the best tier. *)
Definition scanned (ts : list Task) (idx : list nat) (best : option nat) (tier : Z) (r : option nat) : Prop :=
  (r = best ∧ ∀ i p, i ∈ idx → candidate ts i p → tier ≤ p) ∨
  ∃ x j p, idx !! x = Some j ∧ r = Some j ∧ candidate ts j p ∧ p < tier ∧
    (∀ i q, i ∈ idx → candidate ts i q → p ≤ q) ∧ (∀ y i, idx !! y = Some i → candidate ts i p → (x ≤ y)%nat).

Lemma scanned_skip ts i idx best tier r : (∀ q, candidate ts i q → tier ≤ q) → scanned ts idx best tier r → scanned ts (i :: idx) best tier r.
Proof.
  intros Hi [[Hs Hm]|(x & j & p & Hx & Hs & Hc & Hp & Hm & Hf)].
  - left. split; [done|]. intros a q [->|Ha]%elem_of_cons Hq; [by apply Hi|by eapply Hm].
  - right. exists (S x), j, p. split_and!; try done.
    + intros a q [->|Ha]%elem_of_cons Hq; [apply Hi in Hq; lia|by eapply Hm].
    + intros [|y] a Ha Hq; [cbn in Ha; injection Ha as ->; apply Hi in Hq; lia|]. apply le_n_S. by eapply Hf.
Qed.

Lemma scan_first ts idx : ∀ best tier, scanned ts idx best tier (scan true ts best tier idx).
Proof.
  induction idx as [|i idx IH]; intros best tier; [left; split; [done|]; intros ? ? []%not_elem_of_nil|]. cbn [scan].
  destruct (ts !! i) as [t|] eqn:Hi; [|apply scanned_skip, IH; intros q (u & Hu & _); congruence].
  unfold is_runnable. fold (tier_of t). case_bool_decide as Hr; cbn [andb]; [|apply scanned_skip, IH; intros q (u & Hu & ? & _); congruence].
  assert (∀ q, candidate ts i q → q = tier_of t) as Hu by (intros q (u & Hu & _ & <-); congruence).
  destruct (Z.ltb_spec (tier_of t) tier) as [Hlt|Hge]; [|apply scanned_skip, IH; intros q ->%Hu; done].
  assert (candidate ts i (tier_of t)) as Hci by (by exists t). destruct (Z.eqb_spec (tier_of t) 0) as [H0|_].
  { right. exists 0%nat, i, (tier_of t). split_and!; try done; [|intros; lia]. intros a q _ (u & _ & _ & <-). pose proof (tier_range u). lia. }
  destruct (IH (Some i) (tier_of t)) as [[-> Hm]|(x & j & p & Hx & -> & Hc & Hp & Hm & Hf)]; right.
  - exists 0%nat, i, (tier_of t). split_and!; try done; [|intros; lia]. intros a q [->|Ha]%elem_of_cons Hq; [by rewrite (Hu _ Hq)|by eapply Hm].
  - exists (S x), j, p. split_and!; try done; [lia|..].
    + intros a q [->|Ha]%elem_of_cons Hq; [rewrite (Hu _ Hq); lia|by eapply Hm].
    + intros [|y] a Ha Hq; [cbn in Ha; injection Ha as ->; apply Hu in Hq; lia|]. apply le_n_S. by eapply Hf.
Qed.

(** With a runnable task there is a choice: a runnable task of the best tier,
    the first of that tier after the current task. *)
Lemma next_alive_choice s i p : (current s < length (tasks s))%nat → candidate (tasks s) i p →
  ∃ x j q, next_alive s (current s) = Some j ∧ round_from (length (tasks s)) (current s) (length (tasks s)) !! x = Some j ∧
    candidate (tasks s) j q ∧ (∀ i p, candidate (tasks s) i p → q ≤ p) ∧
    (∀ i, candidate (tasks s) i q → i ≠ current s → (x < dist (length (tasks s)) (current s) i)%nat).
Proof.
  intros Hcur Hi. set (n := length (tasks s)) in *.
  assert (∀ i q, candidate (tasks s) i q → i ∈ round_from n (current s) n) as Hin.
  { intros j q (t & Hj%lookup_lt_Some & _). destruct (decide (j = current s)) as [->|Hne]; [|by eapply list_elem_of_lookup_2, round_dist].
    apply (list_elem_of_lookup_2 _ (n - 1)). unfold round_from. rewrite list_lookup_fmap, lookup_seq_lt by lia. cbn [fmap option_fmap option_map]. f_equal.
    rewrite round_index by lia. case_decide; lia. }
  destruct (scan_first (tasks s) (round_from n (current s) n) None 255) as [[_ Hm]|(x & j & q & Hx & Hr & Hc & _ & Hm & Hf)].
  { specialize (Hm i p (Hin _ _ Hi) Hi). destruct Hi as (t & _ & _ & <-). pose proof (tier_range t). lia. }
  exists x, j, q. split_and!; try done; [intros a r Ha; by eapply Hm; [eapply Hin|]|].
  intros a Ha Hne. assert (a < n)%nat as Hlt by (destruct Ha as (u & Hu%lookup_lt_Some & _); done).
  specialize (Hf _ _ (round_dist n (current s) a Hcur Hlt Hne) Ha). assert (1 ≤ dist n (current s) a)%nat by (unfold dist; case_decide; lia). lia.
Qed.

(** ** A timer interrupt *)

(** [preempt] on the scheduler of the processor. *)
Definition preempt_sched (ic : InterruptContext) (s : Scheduler) : Scheduler :=
  match tasks s !! current s with
  | None => s
  | Some t =>
    let cur := current s in
    let s := alter_task (set_ticks s (wrapping_add 64 (ticks s) 1) (slice_ticks s)) cur tick_task in
    if 0 <? slice_left t then s else
    let s := alter_task s cur demote in
    let next := default cur (next_alive s cur) in
    let s := set_ticks s (ticks s) 0 in
    if (next =? cur)%nat then s else set_current (alter_task s cur (save_preempted ic)) next
  end.

(** Every runnable task has its process. *)
Definition live (s : Scheduler) : Prop := ∀ i t, tasks s !! i = Some t → state t = Runnable → is_Some (process t).

Lemma lookup_alter_task s i f j : tasks (alter_task s i f) !! j = if decide (i = j) then f <$> tasks s !! j else tasks s !! j.
Proof. cbn. case_decide as H; [subst; apply list_lookup_alter_eq|by apply list_lookup_alter_ne]. Qed.
Lemma length_alter_task s i f : length (tasks (alter_task s i f)) = length (tasks s).
Proof. apply length_alter. Qed.

(** Changes that keep state and process keep [live]. *)
Lemma live_alter s i f : (∀ t, state (f t) = state t ∧ process (f t) = process t) → live s → live (alter_task s i f).
Proof.
  intros Hf Hs j t. rewrite lookup_alter_task. case_decide as Hij; [subst j|apply Hs]. intros (u & Hu & ->)%fmap_Some. destruct (Hf u) as [-> ->].
  by apply Hs with i.
Qed.
Lemma candidate_alter s i f j p : i ≠ j → candidate (tasks s) j p → candidate (tasks (alter_task s i f)) j p.
Proof. intros Hij (t & Ht & H). exists t. split; [|done]. by rewrite lookup_alter_task, decide_False. Qed.

Lemma scan_elem b ts idx : ∀ best tier j, scan b ts best tier idx = Some j → best = Some j ∨ ∃ p, candidate ts j p.
Proof.
  induction idx as [|i idx IH]; intros best tier j; cbn [scan]; [by left|]. destruct (ts !! i) as [t|] eqn:Hi; [|by apply IH].
  destruct (is_runnable t) eqn:Hr; cbn [andb]; [|by apply IH]. apply bool_decide_eq_true in Hr. destruct (if b then _ else _); [|by apply IH].
  destruct (_ =? 0); [intros [= <-]; right; eexists; by exists t|]. intros [[= ->]|H]%IH; right; [eexists; by exists t|done].
Qed.
Lemma next_alive_candidate s c j : next_alive s c = Some j → ∃ p, candidate (tasks s) j p.
Proof. intros [H|H]%scan_elem; done. Qed.

Lemma preempt_run ic k s : cpu_at k (this_cpu k) = Some s → live s → (current s < length (tasks s))%nat →
  ∃ r, preempt ic k = (set_cpus k (<[this_cpu k := Some (preempt_sched ic s)]> (cpus k)), Ok r).
Proof.
  intros Hk Hl Hc. destruct (lookup_lt_is_Some_2 _ _ Hc) as [t Ht]. unfold preempt, here, preempt_sched, mbind, M_bind. rewrite Hk, Ht.
  unfold task_at, lift. cbn [set_ticks tasks current]. rewrite Ht. cbn [expect]. set (s1 := alter_task _ _ tick_task).
  assert (live s1) as Hl1 by (by apply live_alter). destruct (0 <? slice_left t); [by eexists|]. set (s2 := alter_task s1 _ demote).
  assert (live s2) as Hl2 by (by apply live_alter). clearbody s2. destruct (next_alive s2 (current s)) as [j|] eqn:Hj; cbn [default from_option id]; last first.
  { rewrite Nat.eqb_refl. by eexists. }
  destruct (Nat.eqb_spec j (current s)) as [_|Hne]; [by eexists|]. destruct (next_alive_candidate _ _ _ Hj) as (p & u & Hu & Hr & _).
  cbn [set_current set_ticks tasks]. rewrite lookup_alter_task, decide_False by done. cbn [set_ticks tasks]. rewrite Hu. cbn [expect].
  destruct (Hl2 _ _ Hu Hr) as [pr ->]. by eexists.
Qed.

Lemma preempt_length ic s : length (tasks (preempt_sched ic s)) = length (tasks s).
Proof.
  unfold preempt_sched. repeat case_match; cbn [set_current set_ticks tasks]; rewrite ?length_alter_task; cbn [set_ticks tasks]; by rewrite ?length_alter_task.
Qed.

(** ** The measure *)

Definition levels (s : Scheduler) : Prop :=
  ∀ i t, tasks s !! i = Some t → 0 ≤ priority t ≤ PRIO_BATCH_MAX ∧ 0 ≤ time_slice_remaining t ≤ 8.

(** What the tasks can still sink, and whether the current one has. *)
Definition weight (t : Task) : nat := Z.to_nat (PRIO_BATCH_MAX - priority t).
Definition potential (s : Scheduler) : nat := sum_list (weight <$> tasks s).
Definition prio_at (s : Scheduler) (i : nat) : Z := default 0 (priority <$> tasks s !! i).
Definition slice_at (s : Scheduler) (i : nat) : nat := Z.to_nat (default 0 (time_slice_remaining <$> tasks s !! i)).
Definition sunk (s : Scheduler) : nat := if prio_at s (current s) =? PRIO_BATCH_MAX then 1 else 0.
Definition turns (s : Scheduler) (i : nat) : nat :=
  let n := length (tasks s) in (potential s * (2 * n) + sunk s * n + dist n (current s) i)%nat.
Definition measure (s : Scheduler) (i : nat) : nat := (turns s i * 9 + slice_at s (current s))%nat.

Lemma sum_alter (w : Task → nat) f ts i t : ts !! i = Some t → (sum_list (w <$> alter f i ts) + w t = sum_list (w <$> ts) + w (f t))%nat.
Proof.
  revert i. induction ts as [|u ts IH]; intros [|i] Hi; [done..| |].
  - injection Hi as ->. cbn. lia.
  - cbn in *. specialize (IH i Hi). lia.
Qed.
Lemma potential_alter s i f t : tasks s !! i = Some t → (potential (alter_task s i f) + weight t = potential s + weight (f t))%nat.
Proof. apply sum_alter. Qed.

Lemma slice_bound p : 0 ≤ slice_for_priority p ≤ 8.
Proof. unfold slice_for_priority. repeat case_match; lia. Qed.

Lemma levels_alter s i f : (∀ t, 0 ≤ priority t ≤ PRIO_BATCH_MAX ∧ 0 ≤ time_slice_remaining t ≤ 8 →
    0 ≤ priority (f t) ≤ PRIO_BATCH_MAX ∧ 0 ≤ time_slice_remaining (f t) ≤ 8) → levels s → levels (alter_task s i f).
Proof.
  intros Hf Hs j t. rewrite lookup_alter_task. case_decide; [|apply Hs]. intros (u & Hu & ->)%fmap_Some. apply Hf. by apply Hs with j.
Qed.
Lemma levels_demote t : 0 ≤ priority t ≤ PRIO_BATCH_MAX ∧ 0 ≤ time_slice_remaining t ≤ 8 →
  0 ≤ priority (demote t) ≤ PRIO_BATCH_MAX ∧ 0 ≤ time_slice_remaining (demote t) ≤ 8.
Proof. intros [Hp _]. unfold demote. cbn. split; [|apply slice_bound]. unfold PRIO_BATCH_MAX in *. case_match; lia. Qed.

(** The invariant of a processor that is only interrupted by the timer. *)
Record ready (s : Scheduler) : Prop := { rd_live : live s; rd_levels : levels s; rd_current : (current s < length (tasks s))%nat }.

Lemma dist_lt n c i : (c < n)%nat → (i < n)%nat → (dist n c i < n)%nat.
Proof. intros. unfold dist. case_decide; lia. Qed.
Lemma slice_at_le s i : levels s → (slice_at s i ≤ 8)%nat.
Proof. intros Hs. unfold slice_at. destruct (tasks s !! i) as [t|] eqn:Ht; cbn; [|lia]. destruct (Hs _ _ Ht). lia. Qed.

(** The end of a slice: the current task sinks, or another one is chosen. *)
Lemma choice_turns s i p t : ready s → candidate (tasks s) i p → i ≠ current s → tasks s !! current s = Some t →
  let s2 := alter_task s (current s) demote in
  let j := default (current s) (next_alive s2 (current s)) in
  (j < length (tasks s))%nat ∧ (j = i ∨ (turns (set_current s2 j) i < turns s i)%nat).
Proof.
  intros [Hl Hv Hc] Hi Hne Ht s2 j. set (n := length (tasks s)) in *. assert (length (tasks s2) = n) as Hn2 by apply length_alter_task.
  destruct (next_alive_choice s2 i p) as (x & j' & q & Hj & Hx & Hcj & Hbest & Hfirst); [by rewrite Hn2|by apply candidate_alter|].
  change (current s2) with (current s) in *. rewrite Hn2 in *. unfold j. rewrite Hj. cbn [default from_option id]. clear j.
  assert (j' < n)%nat as Hjn by (destruct Hcj as (u & Hu%lookup_lt_Some & _); lia). assert (i < n)%nat as Hin by (destruct Hi as (u & Hu%lookup_lt_Some & _); done).
  split; [done|]. destruct (decide (j' = i)) as [->|Hji]; [by left|right].
  unfold turns. cbn [set_current tasks current]. rewrite Hn2. fold n.
  pose proof (dist_lt n j' i Hjn Hin) as Hd'. pose proof (potential_alter s (current s) demote t Ht) as Hpot.
  change (potential (set_current s2 j')) with (potential s2). fold s2 in Hpot. destruct (Hv _ _ Ht) as [Hpr _].
  assert (sunk (set_current s2 j') ≤ 1)%nat by (unfold sunk; case_match; lia). destruct (Z.ltb_spec (priority t) PRIO_BATCH_MAX) as [Hlow|Hhigh].
  - assert (weight t = S (weight (demote t))) as Hw by (unfold weight, demote; cbn; rewrite (proj2 (Z.ltb_lt _ _)) by done; lia).
    assert (potential s = S (potential s2)) as -> by lia. nia.
  - assert (weight (demote t) = weight t) as Hw by (unfold weight, demote; cbn; rewrite (proj2 (Z.ltb_ge _ _)) by done; done).
    assert (potential s = potential s2) as -> by lia.
    assert (sunk s = 1%nat) as -> by (unfold sunk, prio_at; rewrite Ht; cbn; rewrite (proj2 (Z.eqb_eq _ _)) by lia; done).
    unfold sunk, prio_at. cbn [set_current tasks current]. destruct Hcj as (u & Hu & Hru & Hq). rewrite Hu. cbn [fmap option_fmap option_map default from_option id].
    destruct (Z.eqb_spec (priority u) PRIO_BATCH_MAX) as [Hu19|_]; [|lia].
    assert (q = 3) as -> by (subst q; unfold tier_of; by rewrite Hu19).
    assert (candidate (tasks s2) i 3) as Hi3.
    { assert (candidate (tasks s2) i p) as Hi2 by (by apply candidate_alter). assert (3 ≤ p) by (by eapply Hbest).
      destruct (id Hi2) as (v & _ & _ & Hvt). pose proof (tier_range v). by replace 3 with p by lia. }
    specialize (Hfirst i Hi3 Hne). pose proof (dist_step n (current s) i x j' Hc Hin Hne Hx Hfirst). lia.
Qed.

Lemma ready_alter s i f : (∀ t, state (f t) = state t ∧ process (f t) = process t) →
  (∀ t, 0 ≤ priority t ≤ PRIO_BATCH_MAX ∧ 0 ≤ time_slice_remaining t ≤ 8 →
    0 ≤ priority (f t) ≤ PRIO_BATCH_MAX ∧ 0 ≤ time_slice_remaining (f t) ≤ 8) → ready s → ready (alter_task s i f).
Proof. intros H1 H2 [Hl Hv Hc]. split; [by apply live_alter|by apply levels_alter|by rewrite length_alter_task]. Qed.
Lemma ready_ticks s a b : ready s → ready (set_ticks s a b).
Proof. by intros [Hl Hv Hc]. Qed.
Lemma ready_current s j : ready s → (j < length (tasks s))%nat → ready (set_current s j).
Proof. by intros [Hl Hv Hc]. Qed.
Lemma ready_tick s i : ready s → ready (alter_task s i tick_task).
Proof. apply ready_alter; [done|]. intros t [? ?]. unfold tick_task, slice_left. cbn. case_match eqn:Hz; split; try done; lia. Qed.
Lemma ready_demote s i : ready s → ready (alter_task s i demote).
Proof. apply ready_alter; [done|]. apply levels_demote. Qed.

(** A task other than the current one is as it was. *)
Definition waiting_at (s : Scheduler) (i : nat) : Prop := ∃ p, candidate (tasks s) i p.

Lemma slice_at_alter s i f t : tasks s !! i = Some t → slice_at (alter_task s i f) i = Z.to_nat (time_slice_remaining (f t)).
Proof. intros Ht. unfold slice_at. rewrite lookup_alter_task, decide_True, Ht by done. done. Qed.

Lemma turns_tick s i c a b : tasks s !! c = Some a → turns (alter_task (set_ticks s b (slice_ticks s)) c tick_task) i = turns s i.
Proof.
  intros Ha. unfold turns. rewrite length_alter_task. change (length (tasks (set_ticks s b (slice_ticks s)))) with (length (tasks s)).
  pose proof (potential_alter (set_ticks s b (slice_ticks s)) c tick_task a Ha) as Hp. change (weight (tick_task a)) with (weight a) in Hp.
  change (potential (set_ticks s b (slice_ticks s))) with (potential s) in Hp. assert (potential (alter_task (set_ticks s b (slice_ticks s)) c tick_task) = potential s) as -> by lia.
  do 2 f_equal. unfold sunk, prio_at. rewrite lookup_alter_task. change (current (alter_task _ _ _)) with (current s). cbn [set_ticks tasks].
  case_decide as Hd; [|done]. rewrite <- Hd, Ha. done.
Qed.

(** Each interrupt brings the turn of task [i] nearer. *)
Lemma preempt_nearer ic s i : ready s → waiting_at s i → i ≠ current s →
  let s' := preempt_sched ic s in
  ready s' ∧ waiting_at s' i ∧ length (tasks s') = length (tasks s) ∧ (current s' = i ∨ (measure s' i < measure s i)%nat).
Proof.
  intros Hs [p Hi] Hne. pose proof (rd_current _ Hs) as Hc. destruct (lookup_lt_is_Some_2 _ _ Hc) as [t Ht]. unfold preempt_sched. rewrite Ht.
  set (s1 := alter_task _ (current s) tick_task). assert (ready s1) as Hs1 by (apply ready_tick, ready_ticks, Hs).
  assert (candidate (tasks s1) i p) as Hi1 by (apply candidate_alter; [done|exact Hi]).
  assert (length (tasks s1) = length (tasks s)) as Hn1 by (unfold s1; by rewrite length_alter_task).
  assert (tasks s1 !! current s = Some (tick_task t)) as Ht1 by (unfold s1; rewrite lookup_alter_task, decide_True by done; cbn [set_ticks tasks]; by rewrite Ht).
  assert (turns s1 i = turns s i) as Htu by (by apply turns_tick with t).
  destruct (Z.ltb_spec 0 (slice_left t)) as [Hl|Hl]; cbv iota zeta.
  { split; [done|]. split; [by eexists|]. split; [done|]. right. unfold measure. rewrite Htu. change (current s1) with (current s).
    assert (slice_at s1 (current s) = Z.to_nat (slice_left t)) as -> by (unfold slice_at; by rewrite Ht1).
    assert (slice_at s (current s) = Z.to_nat (time_slice_remaining t)) as -> by (unfold slice_at; by rewrite Ht).
    unfold slice_left in *. case_match; lia. }
  destruct (choice_turns s1 i p (tick_task t) Hs1 Hi1 Hne Ht1) as [Hj Hor]. change (current s1) with (current s) in *. rewrite Hn1 in Hj.
  set (s2 := alter_task s1 (current s) demote) in *. assert (ready s2) as Hs2 by apply ready_demote, Hs1.
  assert (candidate (tasks s2) i p) as Hi2 by (by apply candidate_alter). assert (length (tasks s2) = length (tasks s)) as Hn2 by (unfold s2; by rewrite length_alter_task).
  set (j := default (current s) (next_alive s2 (current s))) in *.
  assert (∀ s3, ready s3 → candidate (tasks s3) i p → length (tasks s3) = length (tasks s) → current s3 = j → turns s3 i = turns (set_current s2 j) i →
    ready s3 ∧ waiting_at s3 i ∧ length (tasks s3) = length (tasks s) ∧ (current s3 = i ∨ (measure s3 i < measure s i)%nat)) as Hfin.
  { intros s3 Hs3 Hi3 Hn3 Hcur Hsame. split; [done|]. split; [by eexists|]. split; [done|]. destruct Hor as [->|Hlt]; [by left|right]. unfold measure.
    pose proof (slice_at_le s3 (current s3) (rd_levels _ Hs3)). rewrite Hsame. rewrite Htu in Hlt. lia. }
  destruct (Nat.eqb_spec j (current s)) as [Hje|Hje]; apply Hfin; try done.
  - by apply ready_ticks.
  - unfold turns. cbn [set_ticks set_current tasks current]. rewrite Hje. done.
  - apply ready_current; [apply ready_alter, ready_ticks, Hs2; done|]. rewrite length_alter_task. cbn [set_ticks tasks]. by rewrite Hn2.
  - apply candidate_alter; [done|exact Hi2].
  - cbn [set_current tasks]. rewrite length_alter_task. done.
  - unfold turns. cbn [set_current tasks current]. rewrite length_alter_task. cbn [set_ticks tasks].
    do 2 f_equal; [f_equal|]; [|unfold sunk, prio_at; cbn [set_current tasks current]; rewrite lookup_alter_task, decide_False by done; done].
    destruct (lookup_lt_is_Some_2 (tasks s2) (current s)) as [u Hu]; [by rewrite Hn2|].
    pose proof (potential_alter (set_ticks s2 (ticks s2) 0) (current s) (save_preempted ic) u Hu) as Hp. change (weight (save_preempted ic u)) with (weight u) in Hp.
    change (potential (set_current ?x j)) with (potential x). change (potential (set_ticks s2 (ticks s2) 0)) with (potential s2) in Hp. lia.
Qed.

(** ** The bound *)

Lemma potential_le s : levels s → (potential s ≤ 19 * length (tasks s))%nat.
Proof.
  unfold potential, levels. induction (tasks s) as [|t ts IH]; intros Hs; [done|]. change (weight t + sum_list (weight <$> ts) ≤ 19 * S (length ts))%nat.
  destruct (Hs 0%nat t eq_refl) as [Hp _]. assert (weight t ≤ 19)%nat by (unfold weight, PRIO_BATCH_MAX in *; lia).
  specialize (IH (λ i u Hu, Hs (S i) u Hu)). lia.
Qed.
Lemma measure_le s i : ready s → (i < length (tasks s))%nat → (measure s i < 18 * length (tasks s) * (19 * length (tasks s) + 1))%nat.
Proof.
  intros [_ Hv Hc] Hi. unfold measure, turns. pose proof (potential_le s Hv). pose proof (slice_at_le s (current s) Hv).
  pose proof (dist_lt _ _ _ Hc Hi). assert (sunk s ≤ 1)%nat by (unfold sunk; case_match; lia). nia.
Qed.

(** ** Sample tasks *)

Definition no_context : UserContext :=
  {| return_value := 0; rbx := 0; rbp := 0; r12 := 0; r13 := 0; r14 := 0; r15 := 0; rdi := 0; rsi := 0; rdx := 0; r8 := 0; r9 := 0; r10 := 0;
     instruction_pointer := 0; flags := 0; stack_pointer := 0; rcx := 0; r11 := 0 |}.
Definition user_interrupt : InterruptContext := {| registers := no_context; code_segment := 0x23; stack_segment := 0x1b |}.
Definition sample_process : Process := {| address_space := 7; personality := LinuxX86_64Static; entry := 0x400000; user_stack_top := 0x7fff0000 |}.
Definition sample_task (tid_ tgid_ : Z) (parent : option Z) (st : TaskState) (prio : Z) : Task :=
  {| tid := tid_; tgid := tgid_; parent_pid := parent; state := st; priority := prio; base_priority := prio;
     time_slice_remaining := slice_for_priority prio; process := match st with Zombie _ | Reaped => None | _ => Some sample_process end;
     context := no_context; interrupt_context := user_interrupt; descriptors := 0; credentials := Credentials.vanta; signal_actions := 1;
     fs_base := 0; blocked_mask := 0; pending_signals := 0; clear_child_tid := 0; pgid := tgid_; sid := tgid_; cwd := 2;
     sigaltstack := {| ss_sp := 0; ss_flags := 2; ss_size := 0 |}; comm := APP_NAME; pdeath_signal := 0; rlimits := default_rlimits; cpu_ticks := 0 |}.
Definition queue (ts : list Task) : Scheduler := {| tasks := ts; current := 0; kernel_space := 0; ticks := 0; slice_ticks := 0 |}.
Definition on_cpus (l : list (option Scheduler)) : kernel :=
  {| cpus := l; this_cpu := 0; next_pid := 100; next_capability_slot := 1; foreground_pid := 0; next_ref := 3; tables := {[0 := []]};
     actions := {[1 := replicate 65 default_action]}; cwds := {[2 := HOME]}; wheel := wheel_new; user_writes := [] |}.
Definition on_one (ts : list Task) : kernel := on_cpus (Some (queue ts) :: replicate 7 None).
