(* ===== verification/SchedSafe.v ===== *)
(** * The scheduler never runs an ended task

    On one processor, in any run of the operations of the scheduler, no
    operation panics and every task that is given the processor is runnable
    and has its process.  The two ways this fails in the code (a task that
    ends itself by a signal and yields, and a parent that waits on another
    processor) are shown at the end. *)

From stdpp Require Import gmap list.
From S2P Require Import Prelude Words Abi Timer Tasks Sched SchedFair.

(** ** The invariant *)

Definition ended (st : TaskState) : bool := match st with Zombie _ | Reaped => true | _ => false end.

(** A task has its process exactly until it ends; what it refers to exists. *)
Record task_ok (k : kernel) (t : Task) : Prop := {
  to_process : is_Some (process t) ↔ ended (state t) = false;
  to_levels : 0 ≤ priority t ≤ PRIO_BATCH_MAX ∧ 0 ≤ time_slice_remaining t ≤ 8;
  to_table : is_Some (tables k !! descriptors t);
  to_actions : ∃ l, actions k !! signal_actions t = Some l ∧ length l = 65%nat;
  to_cwd : is_Some (cwds k !! cwd t) }.
Record sched_ok (k : kernel) (s : Scheduler) : Prop := {
  so_tasks : Forall (task_ok k) (tasks s);
  so_current : (current s < length (tasks s))%nat }.
(** The processors other than this one have no scheduler. *)
Record kernel_ok (k : kernel) : Prop := {
  ko_this : (this_cpu k < length (cpus k))%nat;
  ko_alone : ∀ i s, cpus k !! i = Some (Some s) → i = this_cpu k;
  ko_sched : ∀ i s, cpus k !! i = Some (Some s) → sched_ok k s }.

(** Changes outside the run queues. *)
Record extends (k k' : kernel) : Prop := {
  ex_cpus : cpus k' = cpus k;
  ex_this : this_cpu k' = this_cpu k;
  ex_tables : ∀ r, is_Some (tables k !! r) → is_Some (tables k' !! r);
  ex_actions : ∀ r, (∃ l, actions k !! r = Some l ∧ length l = 65%nat) → ∃ l, actions k' !! r = Some l ∧ length l = 65%nat;
  ex_cwds : ∀ r, is_Some (cwds k !! r) → is_Some (cwds k' !! r) }.
#[export] Instance extends_preorder : PreOrder extends.
Proof.
  split; [by intros k; split|]. intros a b c [H1 H2 H3 H4 H5] [I1 I2 I3 I4 I5]. split; [by rewrite I1|by rewrite I2|auto..].
Qed.
Lemma task_ok_extends k k' t : extends k k' → task_ok k t → task_ok k' t.
Proof. intros [] []. split; auto. Qed.
Lemma sched_ok_extends k k' s : extends k k' → sched_ok k s → sched_ok k' s.
Proof. intros He [Ht Hc]. split; [|done]. eapply Forall_impl; [exact Ht|]. intros t. by apply task_ok_extends. Qed.
Lemma kernel_ok_extends k k' : extends k k' → kernel_ok k → kernel_ok k'.
Proof.
  intros He [H1 H2 H3]. split; rewrite ?(ex_cpus _ _ He), ?(ex_this _ _ He); [done..|]. intros i s Hi. eapply sched_ok_extends, H3; done.
Qed.

(** ** Weakest preconditions: no panic, and the invariant also after an error *)

Definition wp {A} (m : K A) (Q : A → kernel → Prop) (k : kernel) : Prop :=
  match m k with (k', Ok a) => Q a k' | (k', Err _) => kernel_ok k' | (_, Panic) => False end.

Lemma kwp_mono {A} (m : K A) (Q R : A → kernel → Prop) k : (∀ a k', Q a k' → R a k') → wp m Q k → wp m R k.
Proof. intros H. unfold wp. destruct (m k) as [k' [a|e|]]; auto. Qed.
Lemma kwp_ret {A} (a : A) (Q : A → kernel → Prop) k : Q a k → wp (mret a) Q k.
Proof. done. Qed.
Lemma wp_fail {A} (Q : A → kernel → Prop) k : kernel_ok k → wp (fail ()) Q k.
Proof. done. Qed.
Lemma kwp_bind {A B} (m : K A) (f : A → K B) Q k : wp m (λ a k', wp (f a) Q k') k → wp (m ≫= f) Q k.
Proof. unfold wp, mbind, M_bind. destruct (m k) as [k' [a|e|]]; done. Qed.
Lemma wp_get (Q : kernel → kernel → Prop) k : Q k k → wp get Q k.
Proof. done. Qed.
Lemma wp_here (Q : option Scheduler → kernel → Prop) k : Q (cpu_at k (this_cpu k)) k → wp here Q k.
Proof. done. Qed.
Lemma wp_task_at (Q : Task → kernel → Prop) s i t k : tasks s !! i = Some t → Q t k → wp (task_at s i) Q k.
Proof. intros Ht HQ. unfold wp, task_at, lift. by rewrite Ht. Qed.
Lemma wp_lift {A} (Q : A → kernel → Prop) o a k : o = Some a → Q a k → wp (lift (expect o)) Q k.
Proof. intros -> HQ. done. Qed.
Lemma wp_try {A} (Q : A → kernel → Prop) (o : option A) k : kernel_ok k → (∀ a, o = Some a → Q a k) → wp (lift (ok_or () o)) Q k.
Proof. intros Hk HQ. unfold wp, lift. destruct o; cbn; auto. Qed.

(** Operations that only touch the other parts of the state. *)
Definition quiet {A} (m : K A) : Prop := ∀ k, ∃ k' a, m k = (k', Ok a) ∧ extends k k'.
Lemma wp_quiet {A} (m : K A) Q k : quiet m → (∀ a k', extends k k' → Q a k') → wp m Q k.
Proof. intros Hm HQ. unfold wp. destruct (Hm k) as (k' & a & -> & He). by apply HQ. Qed.

Lemma quiet_ret {A} (a : A) : quiet (mret a).
Proof. intros k. by exists k, a. Qed.
Lemma quiet_bind {A B} (m : K A) (f : A → K B) : quiet m → (∀ a, quiet (f a)) → quiet (m ≫= f).
Proof.
  intros Hm Hf k. destruct (Hm k) as (k1 & a & H1 & He1). destruct (Hf a k1) as (k2 & b & H2 & He2). exists k2, b.
  unfold mbind, M_bind. rewrite H1. split; [done|by etransitivity].
Qed.
Lemma quiet_if {A} (b : bool) (m n : K A) : quiet m → quiet n → quiet (if b then m else n).
Proof. by destruct b. Qed.
Lemma quiet_write p a l : quiet (write_user p a l).
Proof. intros k. unfold write_user. destruct p; eexists _, _; (split; [done|]); by split. Qed.
Lemma quiet_foreground l : quiet (clear_foreground l).
Proof. intros k. unfold clear_foreground. case_bool_decide; eexists _, _; (split; [done|]); by split. Qed.
Lemma quiet_set_foreground p : quiet (set_foreground p).
Proof. intros k. eexists _, _. split; [done|]. by split. Qed.
Lemma quiet_pid : quiet allocate_pid.
Proof. intros k. eexists _, _. split; [done|]. by split. Qed.
Lemma quiet_capability : quiet allocate_capability.
Proof. intros k. eexists _, _. split; [done|]. by split. Qed.
Lemma quiet_sleep t a b : quiet (interrupt_sleep t a b).
Proof. intros k. unfold interrupt_sleep, write_user. case_match; [|destruct (process t)]; eexists _, _; (split; [done|]); by split. Qed.

Create HintDb sched.
#[export] Hint Resolve quiet_ret quiet_if quiet_write quiet_foreground quiet_set_foreground quiet_pid quiet_capability quiet_sleep : sched.

(** New shared objects. *)
Lemma wp_new_table t (Q : Z → kernel → Prop) k : (∀ r k', extends k k' → is_Some (tables k' !! r) → Q r k') → wp (new_table t) Q k.
Proof.
  intros HQ. unfold wp, new_table. apply HQ; [split; try done|]; cbn; [|by rewrite lookup_insert_eq].
  intros r Hr. destruct (decide (r = next_ref k)) as [->|]; [by rewrite lookup_insert_eq|by rewrite lookup_insert_ne].
Qed.
Lemma wp_new_actions l (Q : Z → kernel → Prop) k : length l = 65%nat →
  (∀ r k', extends k k' → (∃ l, actions k' !! r = Some l ∧ length l = 65%nat) → Q r k') → wp (new_actions l) Q k.
Proof.
  intros Hl HQ. unfold wp, new_actions. apply HQ; [split; try done|]; cbn; [|exists l; by rewrite lookup_insert_eq].
  intros r Hr. destruct (decide (r = next_ref k)) as [->|]; [exists l; by rewrite lookup_insert_eq|by rewrite lookup_insert_ne].
Qed.
Lemma wp_new_cwd c (Q : Z → kernel → Prop) k : (∀ r k', extends k k' → is_Some (cwds k' !! r) → Q r k') → wp (new_cwd c) Q k.
Proof.
  intros HQ. unfold wp, new_cwd. apply HQ; [split; try done|]; cbn; [|by rewrite lookup_insert_eq].
  intros r Hr. destruct (decide (r = next_ref k)) as [->|]; [by rewrite lookup_insert_eq|by rewrite lookup_insert_ne].
Qed.

(** ** Run queues *)

Lemma task_of k s i t : sched_ok k s → tasks s !! i = Some t → task_ok k t.
Proof. intros [Hs _] Ht. by eapply Forall_lookup_1. Qed.
Lemma current_task k s : sched_ok k s → ∃ t, tasks s !! current s = Some t ∧ task_ok k t.
Proof. intros Hs. destruct (lookup_lt_is_Some_2 _ _ (so_current _ _ Hs)) as [t Ht]. exists t. split; [done|]. by eapply task_of. Qed.
Lemma candidate_live k s i p : sched_ok k s → candidate (tasks s) i p → ∃ t q, tasks s !! i = Some t ∧ state t = Runnable ∧ process t = Some q.
Proof.
  intros Hs (t & Ht & Hr & _). destruct (proj2 (to_process _ _ (task_of _ _ _ _ Hs Ht))) as [q Hq]; [by rewrite Hr|]. by exists t, q.
Qed.

Lemma sched_ok_tasks k s ts : sched_ok k s → Forall (task_ok k) ts → length ts = length (tasks s) → sched_ok k (set_tasks s ts).
Proof. intros [_ Hc] Hts Hl. split; cbn; [done|by rewrite Hl]. Qed.
Lemma sched_ok_alter k s i f : sched_ok k s → (∀ t, tasks s !! i = Some t → task_ok k t → task_ok k (f t)) → sched_ok k (alter_task s i f).
Proof.
  intros Hs Hf. apply sched_ok_tasks; [done| |apply length_alter]. apply Forall_lookup_2. intros j t.
  destruct (decide (i = j)) as [->|]; [rewrite list_lookup_alter_eq|rewrite list_lookup_alter_ne by done; by apply task_of].
  intros (u & Hu & ->)%fmap_Some. apply Hf; [done|]. by eapply task_of.
Qed.
Lemma sched_ok_current k s i : sched_ok k s → (i < length (tasks s))%nat → sched_ok k (set_current s i).
Proof. by intros [Hs _] Hi. Qed.
Lemma sched_ok_ticks k s a b : sched_ok k s → sched_ok k (set_ticks s a b).
Proof. by intros []. Qed.

(** The changes of a task. *)
Lemma ok_state k t st : ended st = ended (state t) → task_ok k t → task_ok k (set_state t st).
Proof. intros Hst []. split; cbn; try done. by rewrite Hst. Qed.
Lemma ok_end k t code : task_ok k t → task_ok k (set_state (set_process (set_clear_child_tid t 0) None) (Zombie code)).
Proof. intros []. split; cbn; try done. Qed.
Lemma ok_slice k t p : 0 ≤ p ≤ PRIO_BATCH_MAX → task_ok k t → task_ok k (set_priority_slice t p (slice_for_priority p)).
Proof. intros Hp []. split; cbn; try done. split; [done|apply slice_bound]. Qed.
Lemma ok_contexts k t c ic : task_ok k t → task_ok k (set_contexts t c ic).
Proof. by intros []. Qed.
Lemma ok_wake k t : ended (state t) = false → task_ok k t → task_ok k (wake_task t).
Proof.
  intros He Ht. unfold wake_task. apply ok_state; [done|]. apply ok_slice; [|done]. destruct (to_levels _ _ Ht). unfold PRIO_BATCH_MAX, PRIO_INTERACTIVE_MIN, saturating_sub in *. lia.
Qed.
Lemma ok_demote k t : task_ok k t → task_ok k (demote t).
Proof. intros Ht. apply ok_slice; [|done]. destruct (to_levels _ _ Ht). unfold PRIO_BATCH_MAX in *. case_match; lia. Qed.
Lemma ok_pending k t x : task_ok k t → task_ok k (set_pending_signals t x).
Proof. by intros []. Qed.
Lemma ok_blocked k t x : task_ok k t → task_ok k (set_blocked_mask t x).
Proof. by intros []. Qed.
Lemma ok_groups k t a b : task_ok k t → task_ok k (set_groups t a b).
Proof. by intros []. Qed.
Lemma ok_clear k t x : task_ok k t → task_ok k (set_clear_child_tid t x).
Proof. by intros []. Qed.
Lemma ok_priority_of k t p : 0 ≤ p ≤ PRIO_BATCH_MAX → task_ok k t → task_ok k (set_priority_of p t).
Proof. intros Hp []. split; cbn; try done. split; [done|apply slice_bound]. Qed.
Lemma ok_tick k t : task_ok k t → task_ok k (tick_task t).
Proof. intros []. split; cbn; try done. unfold slice_left. case_match eqn:Hz; lia. Qed.
Lemma ok_interrupted k t : task_ok k t → task_ok k (interrupted t).
Proof. intros Ht. unfold interrupted, return_value_to. destruct (state t) eqn:Hst; try done; (apply ok_state; [cbn; by rewrite Hst|]); try done. by apply ok_contexts. Qed.
Lemma ok_sleeper k t : task_ok k t → task_ok k (wake_sleeper t).
Proof. intros Ht. unfold wake_sleeper. destruct (state t) eqn:Hst; try done. apply ok_wake; [by rewrite Hst|done]. Qed.
Lemma ok_pipe k p t : task_ok k t → task_ok k (wake_pipe_task p t).
Proof. intros Ht. unfold wake_pipe_task. case_bool_decide as Hst; [|done]. apply ok_wake; [by rewrite Hst|done]. Qed.
Lemma ok_save_yield k c t : task_ok k t → task_ok k (save_yield c t).
Proof. apply ok_contexts. Qed.
Lemma ok_save_preempted k ic t : task_ok k t → task_ok k (save_preempted ic t).
Proof. apply ok_contexts. Qed.
#[export] Hint Resolve ok_save_yield ok_save_preempted ok_end ok_contexts ok_demote ok_pending ok_blocked ok_groups ok_clear ok_tick ok_interrupted ok_sleeper ok_pipe : sched.

Lemma futex_matches_live uaddr bitset t : futex_matches uaddr bitset t = true → ended (state t) = false.
Proof. unfold futex_matches. by destruct (state t). Qed.
Lemma ok_futex_wake k count uaddr bitset ts : ∀ w, Forall (task_ok k) ts →
  Forall (task_ok k) (futex_wake_tasks ts w count uaddr bitset).1 ∧ length (futex_wake_tasks ts w count uaddr bitset).1 = length ts.
Proof.
  induction ts as [|t ts IH]; intros w Hts; [done|]. apply Forall_cons in Hts as [Ht Hts]. cbn [futex_wake_tasks]. case_match; [by split; [constructor|]|].
  destruct (futex_matches uaddr bitset t) eqn:Hm.
  - destruct (IH (w + 1) Hts) as [H1 H2]. destruct (futex_wake_tasks ts _ _ _ _). cbn in *. split; [|lia]. constructor; [|done]. apply ok_wake; [|done]. by eapply futex_matches_live.
  - destruct (IH w Hts) as [H1 H2]. destruct (futex_wake_tasks ts _ _ _ _). cbn in *. split; [by constructor|lia].
Qed.
Lemma sched_ok_futex k s uaddr count bitset : sched_ok k s → sched_ok k (futex_wake_unlocked s uaddr count bitset).1.
Proof.
  intros Hs. unfold futex_wake_unlocked. destruct (ok_futex_wake k count uaddr bitset (tasks s) 0 (so_tasks _ _ Hs)) as [H1 H2].
  destruct (futex_wake_tasks _ _ _ _ _). by apply sched_ok_tasks.
Qed.
Lemma ok_requeue k a t : task_ok k t → task_ok k (requeue_task a t).
Proof. intros Ht. unfold requeue_task. destruct (state t) eqn:Hst; try done. apply ok_state; [by rewrite Hst|done]. Qed.
Lemma ok_futex_requeue k wm rm uaddr bitset uaddr2 ts : ∀ w r, Forall (task_ok k) ts →
  Forall (task_ok k) (futex_requeue_tasks ts w r wm rm uaddr bitset uaddr2).1 ∧ length (futex_requeue_tasks ts w r wm rm uaddr bitset uaddr2).1 = length ts.
Proof.
  induction ts as [|t ts IH]; intros w r Hts; [done|]. apply Forall_cons in Hts as [Ht Hts]. cbn [futex_requeue_tasks]. case_match; [by split; [constructor|]|].
  destruct (futex_matches uaddr bitset t) eqn:Hm; cbn [andb].
  - destruct (w <? wm).
    + destruct (IH (w + 1) r Hts) as [H1 H2]. destruct (futex_requeue_tasks ts _ _ _ _ _ _ _). cbn in *. split; [|lia]. constructor; [|done]. apply ok_wake; [|done]. by eapply futex_matches_live.
    + destruct (r <? rm).
      * destruct (IH w (r + 1) Hts) as [H1 H2]. destruct (futex_requeue_tasks ts _ _ _ _ _ _ _). cbn in *. split; [|lia]. constructor; [by apply ok_requeue|done].
      * destruct (IH w r Hts) as [H1 H2]. destruct (futex_requeue_tasks ts _ _ _ _ _ _ _). cbn in *. split; [by constructor|lia].
  - destruct (IH w r Hts) as [H1 H2]. destruct (futex_requeue_tasks ts _ _ _ _ _ _ _). cbn in *. split; [by constructor|lia].
Qed.

(** ** Access to the run queue of this processor *)

Lemma cpu_at_ok k s : kernel_ok k → cpu_at k (this_cpu k) = Some s → sched_ok k s.
Proof. intros Hk Hs. unfold cpu_at in Hs. destruct (cpus k !! this_cpu k) as [[s'|]|] eqn:H; cbn in Hs; try done. injection Hs as ->. by eapply ko_sched. Qed.
Lemma sched_ok_cpus k c s : sched_ok k s → sched_ok (set_cpus k c) s.
Proof. intros [Hs Hc]. split; [|done]. eapply Forall_impl; [exact Hs|]. by intros t []. Qed.
Lemma kernel_ok_put k s : kernel_ok k → sched_ok k s → kernel_ok (set_cpus k (<[this_cpu k := Some s]> (cpus k))).
Proof.
  intros [H1 H2 H3] Hs. split; cbn; [by rewrite length_insert|..]; intros i s'; destruct (decide (i = this_cpu k)) as [->|Hne]; try done;
    rewrite ?list_lookup_insert_eq, ?list_lookup_insert_ne by done; [by apply H2|intros [= <-]; by apply sched_ok_cpus|intros Hi; eapply sched_ok_cpus, H3, Hi].
Qed.
Lemma wp_expect_here (Q : Scheduler → kernel → Prop) k s : cpu_at k (this_cpu k) = Some s → Q s k → wp expect_here Q k.
Proof. intros Hs HQ. unfold wp, expect_here. by rewrite Hs. Qed.
Lemma wp_try_here (Q : Scheduler → kernel → Prop) k : kernel_ok k → (∀ s, cpu_at k (this_cpu k) = Some s → sched_ok k s → Q s k) → wp try_here Q k.
Proof. intros Hk HQ. unfold wp, try_here. destruct (cpu_at k (this_cpu k)) eqn:Hs; cbn; [|done]. apply HQ; [done|]. by apply cpu_at_ok. Qed.
Lemma wp_put_here (Q : () → kernel → Prop) k s : kernel_ok k → sched_ok k s →
  (∀ k', kernel_ok k' → cpu_at k' (this_cpu k') = Some s → this_cpu k' = this_cpu k → Q () k') → wp (put_here s) Q k.
Proof.
  intros Hk Hs HQ. unfold wp, put_here, put_cpu. apply HQ; [by apply kernel_ok_put| |done]. unfold cpu_at. cbn. by rewrite list_lookup_insert_eq by apply Hk.
Qed.

(** ** Switches *)

(** The processor continues with the registers and the address space of the
    current task, which is runnable and has its process. *)
Definition resumed (r : switch) (k : kernel) : Prop :=
  match r with
  | Resume c sp => ∃ s t p, cpu_at k (this_cpu k) = Some s ∧ tasks s !! current s = Some t ∧ state t = Runnable ∧ process t = Some p ∧
                     c = context t ∧ sp = address_space p
  | _ => True
  end.
Definition switched (r : switch) (k : kernel) : Prop := kernel_ok k ∧ resumed r k.
(** The current task may run. *)
Definition running (k : kernel) : Prop := ∃ s t, cpu_at k (this_cpu k) = Some s ∧ tasks s !! current s = Some t ∧ state t = Runnable.

Lemma wp_enter k s i t p : kernel_ok k → sched_ok k s → tasks s !! i = Some t → state t = Runnable → process t = Some p → wp (enter_task s i) switched k.
Proof.
  intros Hk Hs Ht Hr Hp. unfold enter_task. apply kwp_bind, (wp_task_at _ _ _ t); [done|]. apply kwp_bind, (wp_lift _ _ p); [done|].
  apply kwp_bind, wp_put_here; [done|apply sched_ok_ticks, sched_ok_current; [done|by eapply lookup_lt_Some]|]. intros k' Hk' Hc Hthis. apply kwp_ret.
  split; [done|]. by eexists _, t, p.
Qed.
Lemma wp_enter_candidate k s i p : kernel_ok k → sched_ok k s → candidate (tasks s) i p → wp (enter_task s i) switched k.
Proof. intros Hk Hs Hc. destruct (candidate_live k s i p Hs Hc) as (t & q & Ht & Hr & Hq). by eapply wp_enter. Qed.

Lemma yield_safe c k : kernel_ok k → running k → wp (yield_current c) switched k.
Proof.
  intros Hk (s & t & Hs & Ht & Hr). pose proof (cpu_at_ok _ _ Hk Hs) as Hok. unfold yield_current. apply kwp_bind, (wp_expect_here _ _ s); [done|].
  apply kwp_bind, (wp_task_at _ _ _ t); [done|]. set (s' := alter_task s _ _). assert (sched_ok k s') as Hs' by (apply sched_ok_alter; auto with sched).
  unfold next_runnable_yield. destruct (scan _ _ _ _ _) as [j|] eqn:Hj; cbn [default from_option id].
  - destruct (scan_elem _ _ _ _ _ _ Hj) as [?|[p Hp]]; [done|]. by eapply wp_enter_candidate.
  - eapply wp_enter_candidate; [done..|]. exists (demote (save_yield c t)). split; [|done]. unfold s'. by rewrite lookup_alter_task, decide_True, Ht.
Qed.

Lemma block_safe sel c st k : kernel_ok k → running k → ended st = false → wp (block_current sel c st) switched k.
Proof.
  intros Hk (s & t & Hs & Ht & Hr) Hst. pose proof (cpu_at_ok _ _ Hk Hs) as Hok. unfold block_current. apply kwp_bind, (wp_expect_here _ _ s); [done|].
  apply kwp_bind, (wp_task_at _ _ _ t); [done|]. apply kwp_bind, wp_put_here; [done| |by intros].
  apply sched_ok_alter; [done|]. intros u Hu Hou. assert (u = t) as -> by congruence. apply ok_state; [cbn; by rewrite Hst, Hr|by apply ok_contexts].
Qed.

Lemma steal_alone k l : kernel_ok k → steal k l = None.
Proof.
  intros Hk. induction l as [|i l IH]; [done|]. cbn. destruct (Nat.eqb_spec i (this_cpu k)) as [|Hne]; [done|]. unfold cpu_at.
  destruct (cpus k !! i) as [[p|]|] eqn:Hi; [|done..]. by apply ko_alone in Hi.
Qed.
Lemma wait_safe prev k : kernel_ok k → is_Some (cpu_at k (this_cpu k)) → wp (wait_step prev) (λ o k', kernel_ok k' ∧ match o with Some r => resumed r k' | None => True end) k.
Proof.
  intros Hk [s Hs]. pose proof (cpu_at_ok _ _ Hk Hs) as Hok. unfold wait_step. apply kwp_bind, (wp_expect_here _ _ s); [done|].
  destruct (next_alive s prev) as [i|] eqn:Hi.
  - destruct (next_alive_candidate _ _ _ Hi) as [p Hp]. apply kwp_bind. eapply kwp_mono; [|by eapply wp_enter_candidate]. intros r k' [H1 H2]. by apply kwp_ret.
  - apply kwp_bind, wp_get. rewrite steal_alone by done. by apply kwp_ret.
Qed.

Lemma exec_safe sel p k : kernel_ok k → running k → wp (exec_current sel p) switched k.
Proof.
  intros Hk (s & t & Hs & Ht & Hr). unfold exec_current. apply kwp_bind, (wp_expect_here _ _ s); [done|]. apply kwp_bind, (wp_task_at _ _ _ t); [done|].
  apply kwp_bind, wp_quiet; [repeat (apply quiet_bind; [auto with sched|intros]); auto with sched|]. intros fds k1 He1.
  apply kwp_bind, wp_new_table. intros d k2 He2 Hd. apply kwp_bind, wp_new_actions; [done|]. intros a k3 He3 Ha.
  assert (extends k k3) as He by (by do 2 (etransitivity; [done|])). pose proof (kernel_ok_extends _ _ He Hk) as Hk3.
  assert (sched_ok k3 s) as Hok by (eapply sched_ok_extends, cpu_at_ok; done).
  apply kwp_bind, wp_put_here; [done| |].
  - apply sched_ok_alter; [done|]. intros u Hu [H1 H2 H3 H4 H5]. assert (u = t) as -> by congruence. split; cbn; try done; [by rewrite Hr|by apply (ex_tables _ _ He3)].
  - intros k' Hk' Hc Hthis. apply kwp_ret. split; [done|]. eexists _, (exec_task sel p d a t), p. split; [exact Hc|]. cbn [alter_task set_tasks tasks current].
    rewrite list_lookup_alter_eq, Ht. by split_and!.
Qed.

(** ** Wake-ups on every processor *)

Definition keeps (k : kernel) (o o' : option Scheduler) : Prop :=
  match o, o' with Some s, Some s' => sched_ok k s → sched_ok k s' | None, None => True | _, _ => False end.
Lemma keeps_refl k o : keeps k o o.
Proof. destruct o; cbn; auto. Qed.
Lemma keeps_same k l : Forall2 (keeps k) l l.
Proof. induction l; constructor; [apply keeps_refl|done]. Qed.
#[export] Hint Resolve keeps_refl keeps_same : sched.

Lemma kernel_ok_keeps k c : Forall2 (keeps k) (cpus k) c → kernel_ok k → kernel_ok (set_cpus k c).
Proof.
  intros Hf [H1 H2 H3].
  assert (∀ i s, c !! i = Some (Some s) → ∃ s0, cpus k !! i = Some (Some s0) ∧ (sched_ok k s0 → sched_ok k s)) as Hl.
  { intros i s Hi. destruct (Forall2_lookup_r _ _ _ _ _ Hf Hi) as ([s0|] & H0 & Hk); [by exists s0|done]. }
  split; cbn; [by rewrite <- (Forall2_length _ _ _ Hf)|..]; intros i s (s0 & H0 & Hs)%Hl; [by eapply H2|]. by eapply sched_ok_cpus, Hs, H3.
Qed.

Lemma wake_in_ok k x ts : ∀ ts', wake_in x ts = Some ts' → Forall (task_ok k) ts → Forall (task_ok k) ts' ∧ length ts' = length ts.
Proof.
  induction ts as [|t ts IH]; intros ts'; [done|]. cbn. intros Hw Hts. apply Forall_cons in Hts as [Ht Hts]. case_match.
  - injection Hw as <-. split; [constructor; auto with sched|done].
  - apply fmap_Some in Hw as (r & Hr & ->). destruct (IH r Hr Hts) as [H1 H2]. split; [by constructor|cbn; lia].
Qed.
Lemma wake_on_keeps k x l : Forall2 (keeps k) l (wake_on x l).
Proof.
  induction l as [|[s|] l IH]; cbn; [constructor| |by constructor]. destruct (wake_in x (tasks s)) as [ts|] eqn:Hw; constructor; auto with sched.
  intros Hs. destruct (wake_in_ok k _ _ _ Hw (so_tasks _ _ Hs)). by apply sched_ok_tasks.
Qed.
Lemma futex_wake_keeps k count uaddr bitset l : ∀ total, Forall2 (keeps k) l (futex_wake_cpus l total count uaddr bitset).1.
Proof.
  induction l as [|[s|] l IH]; intros total; cbn [futex_wake_cpus]; [constructor|..]; (case_match; [auto with sched|]).
  - pose proof (sched_ok_futex k s uaddr (u32 (count - total)) bitset) as Hs. destruct (futex_wake_unlocked _ _ _ _) as [s' w]. cbn in Hs.
    specialize (IH (total + w)). destruct (futex_wake_cpus l _ _ _ _). cbn in *. by constructor.
  - specialize (IH total). destruct (futex_wake_cpus l _ _ _ _). cbn in *. by constructor.
Qed.
Lemma futex_requeue_keeps k wc rc uaddr bitset uaddr2 l : ∀ w r, Forall2 (keeps k) l (futex_requeue_cpus l w r wc rc uaddr bitset uaddr2).1.
Proof.
  induction l as [|[s|] l IH]; intros w r; cbn [futex_requeue_cpus]; [constructor|..]; (case_match; [auto with sched|]).
  - unfold futex_requeue_unlocked. assert (sched_ok k s → sched_ok k (set_tasks s (futex_requeue_tasks (tasks s) 0 0 (u32 (wc - w)) (u32 (rc - r)) uaddr bitset uaddr2).1)) as Hs.
    { intros Hs. destruct (ok_futex_requeue k (u32 (wc - w)) (u32 (rc - r)) uaddr bitset uaddr2 (tasks s) 0 0 (so_tasks _ _ Hs)). by apply sched_ok_tasks. }
    destruct (futex_requeue_tasks _ _ _ _ _ _ _ _) as [ts [a b]]. cbn in Hs. specialize (IH (w + a) (r + b)). destruct (futex_requeue_cpus l _ _ _ _ _ _ _). cbn in *. by constructor.
  - specialize (IH w r). destruct (futex_requeue_cpus l _ _ _ _ _ _ _). cbn in *. by constructor.
Qed.
Lemma change_first_ok k f g ts : (∀ t, task_ok k t → task_ok k (g t)) → ∀ ts', change_first f g ts = Some ts' → Forall (task_ok k) ts →
  Forall (task_ok k) ts' ∧ length ts' = length ts.
Proof.
  intros Hg. induction ts as [|t ts IH]; intros ts'; [done|]. cbn. intros Hw Hts. apply Forall_cons in Hts as [Ht Hts]. case_match.
  - injection Hw as <-. split; [constructor; auto|done].
  - apply fmap_Some in Hw as (r & Hr & ->). destruct (IH r Hr Hts) as [H1 H2]. split; [by constructor|cbn; lia].
Qed.
Lemma change_keeps k f g l : (∀ t, task_ok k t → task_ok k (g t)) → ∀ l', change_cpus f g l = Some l' → Forall2 (keeps k) l l'.
Proof.
  intros Hg. pose proof (λ ts, change_first_ok k f g ts Hg) as Hc. induction l as [|[s|] l IH]; intros l'; cbn; [done|..].
  - destruct (change_first f g (tasks s)) as [ts|] eqn:Hw.
    + intros [= <-]. constructor; [|auto with sched]. intros Hs. destruct (Hc _ _ Hw (so_tasks _ _ Hs)). by apply sched_ok_tasks.
    + intros (r & Hr & ->)%fmap_Some. constructor; [auto with sched|by apply IH].
  - intros (r & Hr & ->)%fmap_Some. constructor; [done|by apply IH].
Qed.

Lemma wake_pipe_safe p k : kernel_ok k → wp (wake_pipe_waiters p) (λ _ k', kernel_ok k') k.
Proof.
  intros Hk. unfold wp, wake_pipe_waiters, on_all. apply kernel_ok_keeps; [|done]. apply Forall2_fmap_r, Forall_Forall2_diag, Forall_true. intros [s|]; [|done].
  intros Hs. cbn. apply sched_ok_tasks; [done| |by rewrite length_fmap]. apply Forall_fmap. eapply Forall_impl; [apply Hs|]. intros t. apply ok_pipe.
Qed.
Lemma wake_sleep_safe x k : kernel_ok k → wp (wake_sleeping_task x) (λ _ k', kernel_ok k') k.
Proof. intros Hk. apply kernel_ok_keeps; [apply wake_on_keeps|done]. Qed.
Lemma futex_wake_safe a c b k : kernel_ok k → wp (futex_wake a c b) (λ _ k', kernel_ok k') k.
Proof.
  intros Hk. unfold wp, futex_wake. pose proof (futex_wake_keeps k c a b (cpus k) 0) as Hf. destruct (futex_wake_cpus _ _ _ _ _). by apply kernel_ok_keeps.
Qed.
Lemma futex_requeue_safe a c b d e k : kernel_ok k → wp (futex_requeue a c b d e) (λ _ k', kernel_ok k') k.
Proof.
  intros Hk. unfold wp, futex_requeue. pose proof (futex_requeue_keeps k c e a b d (cpus k) 0 0) as Hf. destruct (futex_requeue_cpus _ _ _ _ _ _ _ _). by apply kernel_ok_keeps.
Qed.

(** ** The end of tasks *)

(** Local work on a run queue [s]: the rest of the state only grows. *)
Definition local (k : kernel) (s s' : Scheduler) (k' : kernel) : Prop :=
  extends k k' ∧ sched_ok k' s' ∧ length (tasks s') = length (tasks s) ∧ current s' = current s.
Lemma local_trans k s k1 s1 k2 s2 : local k s s1 k1 → local k1 s1 s2 k2 → local k s s2 k2.
Proof. intros (H1 & H2 & H3 & H4) (I1 & I2 & I3 & I4). split_and!; [by etransitivity|done|by rewrite I3|by rewrite I4]. Qed.
Lemma local_alter k s i f : sched_ok k s → (∀ t, tasks s !! i = Some t → task_ok k t → task_ok k (f t)) → local k s (alter_task s i f) k.
Proof. intros Hs Hf. split_and!; [done|by apply sched_ok_alter|apply length_alter_task|done]. Qed.
Lemma local_extends k s k' : extends k k' → sched_ok k s → local k s s k'.
Proof. intros He Hs. split_and!; [done|by eapply sched_ok_extends|done..]. Qed.

Lemma end_task_wp k s i code : sched_ok k s → (i < length (tasks s))%nat → wp (end_task s i code) (λ r k', local k s r.1 k') k.
Proof.
  intros Hs Hi. destruct (lookup_lt_is_Some_2 _ _ Hi) as [t Ht]. unfold end_task. apply kwp_bind, (wp_task_at _ _ _ t); [done|].
  apply kwp_bind, wp_quiet; [auto with sched|]. intros _ k1 He. apply kwp_ret. cbn. eapply local_trans; [by apply local_extends|].
  apply local_alter; [by eapply sched_ok_extends|]. intros u _ Hu. by apply ok_end.
Qed.
Lemma end_tasks_wp l code : ∀ k s, sched_ok k s → Forall (λ i, i < length (tasks s))%nat l → wp (end_tasks s l code) (λ r k', local k s r.1 k') k.
Proof.
  induction l as [|i l IH]; intros k s Hs Hl; [apply kwp_ret; by apply local_extends|]. apply Forall_cons in Hl as [Hi Hl]. cbn [end_tasks].
  apply kwp_bind. eapply kwp_mono; [|by apply end_task_wp]. intros [s1 a] k1 H1. cbn in H1. apply kwp_bind.
  eapply kwp_mono; [|apply IH; [apply H1|]]; [|destruct H1 as (_ & _ & -> & _); done]. intros [s2 b] k2 H2. apply kwp_ret. by eapply local_trans.
Qed.
Lemma wake_cleared_local k addrs : ∀ s, sched_ok k s → local k s (wake_cleared s addrs) k.
Proof.
  induction addrs as [|a addrs IH]; intros s Hs; [by apply local_extends|]. cbn. eapply local_trans; [|apply IH; by apply sched_ok_futex].
  split_and!; [done|by apply sched_ok_futex| |]; unfold futex_wake_unlocked; destruct (ok_futex_wake k 1 a FUTEX_BITSET_MATCH_ANY (tasks s) 0 (so_tasks _ _ Hs)) as [_ Hlen];
    by destruct (futex_wake_tasks _ _ _ _ _).
Qed.

Lemma waits_for_live p c t : waits_for p c t = true → ended (state t) = false.
Proof. unfold waits_for. rewrite andb_true_iff. intros [_ H]. by destruct (state t). Qed.
(** A parent is released; ended tasks stay as they are. *)
Lemma release_parent_wp k s p c v st : sched_ok k s →
  wp (release_parent s p c v st) (λ r k', extends k k' ∧ match r with
    | Some s' => local k s s' k' ∧ (∀ j t, tasks s !! j = Some t → ended (state t) = true → tasks s' !! j = Some t)
    | None => True end) k.
Proof.
  intros Hs. unfold release_parent. destruct (list_find _ (tasks s)) as [[i t]|] eqn:Hf; [|by apply kwp_ret]. apply list_find_Some in Hf as (Hi & Hw & _).
  apply kwp_bind, wp_quiet; [destruct (state t); auto with sched|]. intros _ k1 He. apply kwp_ret. split; [done|]. split.
  - eapply local_trans; [by apply local_extends|]. apply local_alter; [by eapply sched_ok_extends|]. intros u Hu Hok. assert (u = t) as -> by congruence.
    apply ok_state; [change (false = ended (state t)); by rewrite (waits_for_live _ _ _ Hw)|by apply ok_contexts].
  - intros j u Hj Hu. rewrite lookup_alter_task. case_decide as Hij; [|done]. subst j. assert (u = t) as -> by congruence. by rewrite (waits_for_live _ _ _ Hw) in Hu.
Qed.

Lemma exit_task_wp k s t code : sched_ok k s → tasks s !! current s = Some t → wp (exit_task s t code) (λ s' k', local k s s' k') k.
Proof.
  intros Hs Ht. unfold exit_task. apply kwp_bind, wp_quiet; [auto with sched|]. intros _ k1 He1.
  assert (sched_ok k1 s) as Hs1 by (by eapply sched_ok_extends). set (sa := alter_task s _ _).
  assert (local k1 s sa k1) as Ha by (apply local_alter; [done|intros; by apply ok_clear]).
  set (sb := if _ : bool then sa else _). assert (local k1 sa sb k1) as Hb.
  { unfold sb. case_match; [by apply local_extends; [done|apply Ha]|]. apply (wake_cleared_local k1 [clear_child_tid t] sa). apply Ha. }
  assert (local k1 s sb k1) as Hsb by (by eapply local_trans). clearbody sb. clear sa Ha Hb.
  set (sc := alter_task sb _ _). assert (local k1 sb sc k1) as Hc.
  { apply local_alter; [apply Hsb|]. intros u _ []. split; cbn; try done. }
  assert (local k1 s sc k1) as Hsc by (by eapply local_trans).
  apply kwp_bind, wp_quiet; [auto with sched|]. intros _ k2 He2. assert (local k s sc k2) as Hk2.
  { eapply local_trans; [by apply local_extends|]. eapply local_trans; [exact Hsc|]. apply local_extends; [done|apply Hsc]. }
  case_match; [by apply kwp_ret|]. apply kwp_bind. eapply kwp_mono; [|apply release_parent_wp, Hk2]. intros [s'|] k3 [He3 H3]; apply kwp_ret.
  - destruct H3 as [H3 Hkeep]. eapply local_trans; [exact Hk2|]. eapply local_trans; [exact H3|].
    destruct Hsc as (_ & _ & Hlen & Hcur). apply local_alter; [apply H3|]. intros u Hu Hok. apply ok_state; [|done].
    destruct (lookup_lt_is_Some_2 (tasks sb) (current s)) as [v Hv].
    { destruct Hsb as (_ & _ & Hl & _). rewrite Hl. by eapply lookup_lt_Some. }
    assert (tasks sc !! current s = Some (set_state (set_process v None) (Zombie code))) as Hv'.
    { unfold sc. rewrite lookup_alter_task. rewrite decide_True by done. by rewrite Hv. }
    specialize (Hkeep _ _ Hv' eq_refl). rewrite Hu in Hkeep. by injection Hkeep as ->.
  - eapply local_trans; [exact Hk2|]. apply local_extends; [done|apply Hk2].
Qed.

Lemma release_remote_alone l p c v st : ∀ k, kernel_ok k → release_remote l p c v st k = (k, Ok ()).
Proof.
  induction l as [|i l IH]; intros k Hk; [done|]. cbn [release_remote]. unfold mbind, M_bind, get. destruct (Nat.eqb_spec i (this_cpu k)); [by apply IH|].
  unfold cpu_at. destruct (cpus k !! i) as [[s|]|] eqn:Hi; cbn; [by apply ko_alone in Hi|by apply IH..].
Qed.

Lemma exit_safe code k : kernel_ok k → is_Some (cpu_at k (this_cpu k)) → wp (exit_current code) switched k.
Proof.
  intros Hk [s Hs]. pose proof (cpu_at_ok _ _ Hk Hs) as Hok. destruct (current_task _ _ Hok) as (t & Ht & _).
  unfold exit_current. apply kwp_bind, (wp_expect_here _ _ s); [done|]. apply kwp_bind, (wp_task_at _ _ _ t); [done|].
  apply kwp_bind. eapply kwp_mono; [|by apply exit_task_wp]. intros s' k1 (He & Hs' & Hlen & Hcur). pose proof (kernel_ok_extends _ _ He Hk) as Hk1.
  apply kwp_bind. eapply (kwp_mono _ (λ o k', kernel_ok k' ∧ match o with Some r => resumed r k' | None => True end)).
  - intros o k2 [Hk2 Hr]. apply kwp_bind. unfold wp at 1, exit_remote.
    assert (∀ f, (match parent_pid t with
      | Some parent => if existsb f (cpus k2) then (k2, Ok ()) else release_remote (seq 0 MAX_CPUS) parent (tgid t) code (exit_status code) k2
      | None => (k2, Ok ()) end) = (k2, Ok () : res () ())) as ->.
    { intros f. destruct (parent_pid t); [|done]. destruct (existsb f (cpus k2)); [done|]. by apply release_remote_alone. }
    destruct o as [r|]; [by apply kwp_ret|]. case_match; [by apply kwp_ret|]. unfold wp, stop_here. split; [|done].
    destruct Hk2 as [H1 H2 H3]. split; cbn; [by rewrite length_insert|..]; intros i x; (destruct (decide (i = this_cpu k2)) as [->|];
      [by rewrite list_lookup_insert_eq by done|rewrite list_lookup_insert_ne by done; intros Hx]); [by apply H2 in Hx|by eapply sched_ok_cpus, H3].
  - unfold exit_next. destruct (next_alive s' (current s')) as [i|] eqn:Hi.
    + destruct (next_alive_candidate _ _ _ Hi) as [p Hp]. destruct (candidate_live _ _ _ _ Hs' Hp) as (n & q & Hn & Hr & Hq).
      apply kwp_bind, (wp_task_at _ _ _ n); [done|]. apply kwp_bind, (wp_lift _ _ q); [done|].
      apply kwp_bind, wp_put_here; [done|apply sched_ok_current; [done|by eapply lookup_lt_Some]|]. intros k2 Hk2 Hc _. apply kwp_ret. split; [done|]. by eexists _, n, q.
    + apply kwp_bind, wp_put_here; [done..|]. intros. by apply kwp_ret.
Qed.

Lemma indices_lt f s : Forall (λ i, i < length (tasks s))%nat (indices f s).
Proof.
  apply Forall_forall. intros i (p & Hp & Hi)%list_elem_of_omap. destruct p as [j t]. destruct (f t); [|done]. injection Hi as ->.
  apply list_elem_of_lookup in Hp as [x Hx]. rewrite list_lookup_imap in Hx. destruct (tasks s !! x) eqn:He; [|done]. cbn in Hx. injection Hx as -> ->. by eapply lookup_lt_Some.
Qed.

Lemma exit_group_safe code k : kernel_ok k → is_Some (cpu_at k (this_cpu k)) → wp (exit_group_current code) switched k.
Proof.
  intros Hk [s Hs]. pose proof (cpu_at_ok _ _ Hk Hs) as Hok. destruct (current_task _ _ Hok) as (t & Ht & _). unfold exit_group_current.
  apply kwp_bind, wp_here. rewrite Hs. apply kwp_bind. apply (kwp_mono _ (λ _ k', kernel_ok k' ∧ is_Some (cpu_at k' (this_cpu k')))); [intros _ k' [H1 H2]; by apply exit_safe|].
  apply kwp_bind, (wp_task_at _ _ _ t); [done|]. apply kwp_bind. eapply kwp_mono; [|apply end_tasks_wp; [done|apply indices_lt]]. intros [s1 a] k1 (He & Hs1 & _). cbn in Hs1.
  apply wp_put_here; [by eapply kernel_ok_extends|apply wake_cleared_local, Hs1|]. intros k2 Hk2 Hc _. split; [done|]. by rewrite Hc.
Qed.

(** ** Children *)

Lemma reap_ok k s p c s' r : sched_ok k s → reap s p c = Some (s', r) → sched_ok k s'.
Proof.
  intros Hs. unfold reap. destruct (list_find _ (tasks s)) as [[i t]|] eqn:Hf; [|done]. intros [= <- _]. apply list_find_Some in Hf as (Hi & Hz & _).
  apply sched_ok_alter; [done|]. intros u Hu Hok. assert (u = t) as -> by congruence. apply ok_state; [|done].
  unfold is_zombie_child, zombie_code in Hz. apply andb_prop in Hz as [_ Hz]. apply bool_decide_eq_true in Hz. destruct (state t); try done; by destruct Hz.
Qed.
Lemma reap_remote_alone l p c : ∀ k, kernel_ok k → reap_remote l p c k = (k, Ok None).
Proof.
  induction l as [|i l IH]; intros k Hk; [done|]. cbn [reap_remote]. unfold mbind, M_bind, get. destruct (Nat.eqb_spec i (this_cpu k)); [by apply IH|].
  unfold cpu_at. destruct (cpus k !! i) as [[s|]|] eqn:Hi; cbn; [by apply ko_alone in Hi|by apply IH..].
Qed.
Lemma wait_child_safe c k : kernel_ok k → wp (wait_child_current c) (λ _ k', kernel_ok k') k.
Proof.
  intros Hk. unfold wait_child_current. apply kwp_bind, wp_try_here; [done|]. intros s Hs Hok. destruct (current_task _ _ Hok) as (t & Ht & _).
  apply kwp_bind, (wp_task_at _ _ _ t); [done|]. destruct (reap s (tgid t) c) as [[s' r]|] eqn:Hr.
  - apply kwp_bind, wp_put_here; [done|by eapply reap_ok|]. intros. by apply kwp_ret.
  - apply kwp_bind. unfold wp at 1. rewrite reap_remote_alone by done. apply kwp_bind, wp_get. case_match; [by apply kwp_ret|by apply wp_fail].
Qed.

(** ** Signals *)

Lemma wp_action_of k t signal (Q : LinuxSigAction → kernel → Prop) : task_ok k t → signal ≤ 64 → (∀ a, Q a k) → wp (action_of t signal) Q k.
Proof.
  intros Ht Hsig HQ. destruct (to_actions _ _ Ht) as (l & Hl & Hlen). unfold action_of. apply kwp_bind. unfold wp at 1, get_actions. rewrite Hl. cbn.
  destruct (lookup_lt_is_Some_2 l (Z.to_nat signal)) as [a Ha]; [lia|]. eapply wp_lift; [exact Ha|apply HQ].
Qed.
Lemma post_signal_wp k s i signal w : sched_ok k s → (i < length (tasks s))%nat → wp (post_signal s i signal w) (λ s' k', local k s s' k') k.
Proof.
  intros Hs Hi. destruct (lookup_lt_is_Some_2 _ _ Hi) as [t Ht]. unfold post_signal. apply kwp_bind, (wp_task_at _ _ _ t); [done|]. set (s1 := alter_task s _ _).
  assert (local k s s1 k) as H1 by (apply local_alter; [done|intros; by apply ok_pending]). destruct w; [|by apply kwp_ret].
  apply kwp_bind, wp_quiet; [destruct (state t); auto with sched|]. intros _ k1 He. apply kwp_ret. eapply local_trans; [exact H1|].
  eapply local_trans; [apply local_extends; [exact He|apply H1]|]. apply local_alter; [eapply sched_ok_extends; [done|apply H1]|]. intros; by apply ok_interrupted.
Qed.
Lemma post_signals_wp l signal w : ∀ k s, sched_ok k s → Forall (λ i, i < length (tasks s))%nat l → wp (post_signals s l signal w) (λ s' k', local k s s' k') k.
Proof.
  induction l as [|i l IH]; intros k s Hs Hl; [apply kwp_ret; by apply local_extends|]. apply Forall_cons in Hl as [Hi Hl]. cbn [post_signals].
  apply kwp_bind. eapply kwp_mono; [|by apply post_signal_wp]. intros s1 k1 H1. eapply kwp_mono; [|apply IH; [apply H1|]]; [intros s2 k2 H2; by eapply local_trans|].
  destruct H1 as (_ & _ & -> & _). done.
Qed.
Lemma signal_tasks_wp k s t0 l signal tg : sched_ok k s → task_ok k t0 → Forall (λ i, i < length (tasks s))%nat l → signal ≤ 64 →
  wp (signal_tasks s t0 l signal tg) (λ r k', local k s r.1 k') k.
Proof.
  intros Hs Ht Hl Hsig. unfold signal_tasks. apply kwp_bind, wp_action_of; [done..|]. intros a. case_match; [|case_match].
  - apply kwp_bind. eapply kwp_mono; [|by apply end_tasks_wp]. intros [s1 ad] k1 H1. cbn in H1. apply kwp_bind, wp_quiet; [auto with sched|]. intros _ k2 He. apply kwp_ret. cbn.
    eapply local_trans; [exact H1|]. eapply local_trans; [apply local_extends; [exact He|apply H1]|]. apply wake_cleared_local. eapply sched_ok_extends; [done|apply H1].
  - apply kwp_ret. by apply local_extends.
  - apply kwp_bind. eapply kwp_mono; [|by apply post_signals_wp]. intros s1 k1 H1. by apply kwp_ret.
Qed.

Lemma cpu_at_this k i s : kernel_ok k → cpu_at k i = Some s → i = this_cpu k ∧ sched_ok k s.
Proof.
  intros Hk Hs. assert (cpus k !! i = Some (Some s)) as Hi by (unfold cpu_at in Hs; destruct (cpus k !! i) as [[]|]; cbn in Hs; congruence).
  split; [by eapply ko_alone|by eapply ko_sched].
Qed.
Lemma wp_put_cpu k i s s0 : kernel_ok k → cpu_at k i = Some s0 → ∀ k', local k s0 s k' → wp (put_cpu i s) (λ _ k'', kernel_ok k'') k'.
Proof.
  intros Hk Hi k' (He & Hs & _). destruct (cpu_at_this _ _ _ Hk Hi) as [-> _]. unfold wp, put_cpu. rewrite <- (ex_this _ _ He). apply kernel_ok_put; [by eapply kernel_ok_extends|done].
Qed.

Lemma kill_cpu_wp k i g a b signal : kernel_ok k → signal ≤ 64 → wp (kill_cpu i g a b signal) (λ _ k', kernel_ok k') k.
Proof.
  intros Hk Hsig. unfold kill_cpu. apply kwp_bind, wp_get. destruct (cpu_at k i) as [s|] eqn:Hi; [|by apply kwp_ret]. destruct (cpu_at_this _ _ _ Hk Hi) as [_ Hs].
  pose proof (indices_lt (signal_target g a b) s) as Hl. destruct (indices _ s) as [|x l] eqn:Hx; [by apply kwp_ret|]. case_match; [by apply kwp_ret|].
  destruct (lookup_lt_is_Some_2 (tasks s) x) as [t Ht]; [by apply Forall_cons in Hl as [? _]|]. apply kwp_bind, (wp_task_at _ _ _ t); [done|].
  apply kwp_bind. eapply kwp_mono; [|apply signal_tasks_wp; [done|by eapply task_of|done..]]. intros [s1 p] k1 H1. apply kwp_bind.
  apply (kwp_mono _ (λ _ k2, kernel_ok k2)); [intros; by apply kwp_ret|by eapply wp_put_cpu].
Qed.
Lemma kill_cpus_wp l g a b signal : ∀ k f p, kernel_ok k → signal ≤ 64 → wp (kill_cpus l g a b signal f p) (λ _ k', kernel_ok k') k.
Proof.
  induction l as [|i l IH]; intros k f p Hk Hsig; [by apply kwp_ret|]. cbn [kill_cpus]. apply kwp_bind. eapply kwp_mono; [|by apply kill_cpu_wp].
  intros [f' p'] k1 Hk1. by apply IH.
Qed.
Lemma wake_parent_wp l p c v st : ∀ k, kernel_ok k → wp (wake_parent l p c v st) (λ _ k', kernel_ok k') k.
Proof.
  induction l as [|i l IH]; intros k Hk; [by apply kwp_ret|]. cbn [wake_parent]. apply kwp_bind, wp_get. destruct (cpu_at k i) as [s|] eqn:Hi; [|by apply IH].
  destruct (cpu_at_this _ _ _ Hk Hi) as [_ Hs]. apply kwp_bind. eapply kwp_mono; [|by apply release_parent_wp]. intros [s'|] k1 [He H1]; [|by apply IH; eapply kernel_ok_extends].
  eapply wp_put_cpu; [done..|apply H1].
Qed.
Lemma kill_safe pid signal k : kernel_ok k → wp (kill_process pid signal) (λ _ k', kernel_ok k') k.
Proof.
  intros Hk. unfold kill_process. destruct (Z.ltb_spec 64 signal); [by apply wp_fail|]. apply kwp_bind, wp_try_here; [done|]. intros s Hs Hok.
  destruct (current_task _ _ Hok) as (t & Ht & _). apply kwp_bind, (wp_task_at _ _ _ t); [done|]. apply kwp_bind. eapply kwp_mono; [|by apply kill_cpus_wp].
  intros [f p] k1 Hk1. case_match; [by apply wp_fail|]. destruct p; [by apply wake_parent_wp|by apply kwp_ret].
Qed.
Lemma kill_thread_safe x signal k : kernel_ok k → wp (kill_thread x signal) (λ _ k', kernel_ok k') k.
Proof.
  intros Hk. unfold kill_thread. destruct (Z.ltb_spec 64 signal); [by apply wp_fail|]. induction (seq 0 MAX_CPUS) as [|i l IH]; [by apply wp_fail|]. cbn [kill_thread_on].
  apply kwp_bind, wp_get. destruct (cpu_at k i) as [s|] eqn:Hi; [|done]. destruct (cpu_at_this _ _ _ Hk Hi) as [_ Hs].
  pose proof (indices_lt (λ t, (tid t =? x) && is_alive t) s) as Hl. destruct (indices _ s) as [|j js]; [done|]. apply Forall_cons in Hl as [Hj _]. case_match; [by apply kwp_ret|].
  destruct (lookup_lt_is_Some_2 _ _ Hj) as [t Ht]. unfold kill_on. apply kwp_bind, (wp_task_at _ _ _ t); [done|]. apply kwp_bind, wp_action_of; [by eapply task_of|done|]. intros a.
  case_match; [|case_match]; [|by apply kwp_ret|].
  - apply kwp_bind. eapply kwp_mono; [|by apply end_task_wp]. intros [s1 ad] k1 Hloc. eapply wp_put_cpu; [done..|]. eapply local_trans; [exact Hloc|]. apply wake_cleared_local, Hloc.
  - apply kwp_bind. eapply kwp_mono; [|by apply post_signal_wp]. intros s1 k1 Hloc. by eapply wp_put_cpu.
Qed.

Lemma trailing_zeros_lt z b : trailing_zeros z = Some b → (b < 64)%nat.
Proof.
  unfold trailing_zeros. intros ([i x] & Hf & Hx)%bind_Some. injection Hx as <-. apply list_find_Some in Hf as (Hi & _). by apply lookup_seq in Hi as [-> ?].
Qed.
Lemma pending_safe k : kernel_ok k → wp check_pending_signal_to_deliver (λ _ k', kernel_ok k') k.
Proof.
  intros Hk. unfold check_pending_signal_to_deliver. apply kwp_bind, wp_here. destruct (cpu_at k (this_cpu k)) as [s|] eqn:Hs; [|by apply kwp_ret].
  pose proof (cpu_at_ok _ _ Hk Hs) as Hok. destruct (current_task _ _ Hok) as (t & Ht & Hot). apply kwp_bind, (wp_task_at _ _ _ t); [done|]. case_match; [by apply kwp_ret|].
  destruct (trailing_zeros _) as [b|] eqn:Hb; [|by apply kwp_ret]. apply trailing_zeros_lt in Hb. unfold wp. cbn -[action_of].
  change (wp (action_of t (Z.of_nat b + 1) ≫= λ a, mret (Some (Z.of_nat b + 1, a))) (λ _ k', kernel_ok k')
    (set_cpus k (<[this_cpu k := Some (alter_task s (current s) (λ t, set_pending_signals t (Z.land (pending_signals t) (bnot 64 (Z.shiftl 1 (Z.of_nat b))))))]> (cpus k)))).
  apply kwp_bind, wp_action_of; [by destruct Hot|lia|]. intros a. apply kwp_ret. apply kernel_ok_put; [done|]. apply sched_ok_alter; [done|]. intros; by apply ok_pending.
Qed.

Lemma alter_current_safe f k : (∀ t, task_ok k t → task_ok k (f t)) → kernel_ok k →
  ∀ s, cpu_at k (this_cpu k) = Some s → wp (put_here (alter_task s (current s) f)) (λ _ k', kernel_ok k') k.
Proof. intros Hf Hk s Hs. apply wp_put_here; [done| |by intros]. apply sched_ok_alter; [by apply cpu_at_ok|auto]. Qed.
Lemma mask_safe m k : kernel_ok k → wp (set_current_blocked_mask m) (λ _ k', kernel_ok k') k.
Proof.
  intros Hk. unfold set_current_blocked_mask. apply kwp_bind, wp_here. destruct (cpu_at k (this_cpu k)) as [s|] eqn:Hs; [|by apply kwp_ret].
  apply alter_current_safe; [intros; by apply ok_blocked|done..].
Qed.
Lemma put_action_wp r x a k : kernel_ok k → wp (put_action r x a) (λ _ k', kernel_ok k') k.
Proof.
  intros Hk. unfold wp, put_action. eapply kernel_ok_extends; [|exact Hk]. split; try done. cbn. intros r' (l & Hl & Hlen).
  destruct (decide (r = r')) as [->|]; [|exists l; by rewrite lookup_alter_ne]. rewrite lookup_alter_eq, Hl. eexists. split; [done|]. by rewrite length_insert.
Qed.
Lemma set_action_safe x a k : kernel_ok k → wp (set_signal_action x a) (λ _ k', kernel_ok k') k.
Proof.
  intros Hk. unfold set_signal_action. apply kwp_bind, wp_try_here; [done|]. intros s Hs Hok. destruct (_ || _ || _ || _) eqn:Hb; [by apply wp_fail|].
  apply orb_false_iff in Hb as [Hb _]. apply orb_false_iff in Hb as [Hb _]. apply orb_false_iff in Hb as [_ Hb]. apply Z.ltb_ge in Hb.
  destruct (current_task _ _ Hok) as (t & Ht & Hot). apply kwp_bind, (wp_task_at _ _ _ t); [done|]. apply kwp_bind, wp_action_of; [done..|]. intros old.
  apply kwp_bind. apply (kwp_mono _ (λ _ k2, kernel_ok k2)); [intros; by apply kwp_ret|by apply put_action_wp].
Qed.
Lemma reset_action_safe x k : kernel_ok k → wp (reset_signal_action x) (λ _ k', kernel_ok k') k.
Proof.
  intros Hk. unfold reset_signal_action. apply kwp_bind, wp_here. destruct (cpu_at k (this_cpu k)) as [s|] eqn:Hs; [|by apply kwp_ret]. case_match; [|by apply kwp_ret].
  destruct (current_task _ _ (cpu_at_ok _ _ Hk Hs)) as (t & Ht & _). apply kwp_bind, (wp_task_at _ _ _ t); [done|]. by apply put_action_wp.
Qed.

(** ** New tasks *)

Lemma wp_new_task sel a b p c q fds k (Q : Task → kernel → Prop) :
  (∀ t k', extends k k' → task_ok k' t → state t = Runnable → Q t k') → wp (new_task sel a b p c q fds) Q k.
Proof.
  intros HQ. unfold new_task. apply kwp_bind, wp_new_table. intros d k1 He1 Hd. apply kwp_bind, wp_new_actions; [done|]. intros x k2 He2 Hx.
  apply kwp_bind, wp_new_cwd. intros y k3 He3 Hy. apply kwp_ret, HQ; [by do 2 (etransitivity; [done|])| |done]. split; cbn; try done.
  - split; [case_match; unfold PRIO_INTERACTIVE_MIN, PRIO_NORMAL_MIN, PRIO_BATCH_MAX; lia|apply slice_bound].
  - by apply (ex_tables _ _ He3), (ex_tables _ _ He2).
  - by apply (ex_actions _ _ He3).
Qed.
Lemma place_task_wp k s t (Q : Scheduler → kernel → Prop) : kernel_ok k → sched_ok k s → task_ok k t → (∀ s', sched_ok k s' → Q s' k) → wp (place_task s t) Q k.
Proof.
  intros Hk Hs Ht HQ. unfold place_task. destruct (list_find _ (tasks s)) as [[i u]|].
  - apply kwp_ret, HQ, sched_ok_tasks; [done| |by rewrite length_insert]. apply Forall_insert; [apply Hs|done].
  - case_match; [|by apply wp_fail]. apply kwp_ret, HQ. destruct Hs as [H1 H2]. split; cbn; [apply Forall_app; by split; [|apply Forall_singleton]|rewrite length_app; cbn; lia].
Qed.
Lemma spawn_task_wp sel k s t p fds : kernel_ok k → sched_ok k s → wp (spawn_task sel s t p fds) (λ _ k', kernel_ok k') k.
Proof.
  intros Hk Hs. unfold spawn_task. apply kwp_bind, wp_quiet; [auto with sched|]. intros pid k1 He1. apply kwp_bind, wp_new_task. intros u k2 He2 Hu _.
  assert (extends k k2) as He by (by etransitivity). assert (kernel_ok k2) as Hk2 by (by eapply kernel_ok_extends).
  apply kwp_bind, place_task_wp; [done|by eapply sched_ok_extends|done|]. intros s' Hs'. apply kwp_bind, wp_put_here; [done..|]. intros k3 Hk3 _ _.
  apply kwp_bind, wp_quiet; [auto with sched|]. intros _ k4 He4. apply kwp_ret. by eapply kernel_ok_extends.
Qed.
Lemma wp_get_table k r (Q : list (option FileDescriptor) → kernel → Prop) : is_Some (tables k !! r) → (∀ l, Q l k) → wp (get_table r) Q k.
Proof. intros [l Hl] HQ. unfold wp, get_table. rewrite Hl. apply HQ. Qed.
Lemma spawn_safe sel p k : kernel_ok k → wp (spawn_current sel p) (λ _ k', kernel_ok k') k.
Proof.
  intros Hk. unfold spawn_current. apply kwp_bind, wp_try_here; [done|]. intros s Hs Hok. destruct (current_task _ _ Hok) as (t & Ht & Hot).
  apply kwp_bind, (wp_task_at _ _ _ t); [done|]. apply kwp_bind, wp_get_table; [apply Hot|]. intros l. by apply spawn_task_wp.
Qed.
Lemma spawn_stdio_safe sel p a b c k : kernel_ok k → wp (spawn_with_stdio_current sel p a b c) (λ _ k', kernel_ok k') k.
Proof.
  intros Hk. unfold spawn_with_stdio_current. apply kwp_bind, wp_try_here; [done|]. intros s Hs Hok. destruct (current_task _ _ Hok) as (t & Ht & Hot).
  apply kwp_bind, (wp_task_at _ _ _ t); [done|]. apply kwp_bind, wp_get_table; [apply Hot|]. intros l.
  do 3 (apply kwp_bind, wp_try; [done|]; intros ? _). by apply spawn_task_wp.
Qed.

Lemma quiet_when {A} (b : bool) (m : K A) (a : A) : quiet m → quiet (if b then m else mret a).
Proof. destruct b; [done|]. intros _. apply quiet_ret. Qed.
Lemma clone_safe fl a b c d x ic q k : kernel_ok k → wp (clone_task_current fl a b c d x ic q) (λ _ k', kernel_ok k') k.
Proof.
  intros Hk. unfold clone_task_current. apply kwp_bind, wp_try_here; [done|]. intros s Hs Hok. destruct (current_task _ _ Hok) as (t & Ht & Hot).
  apply kwp_bind, (wp_task_at _ _ _ t); [done|]. apply kwp_bind, wp_try; [done|]. intros p Hp. apply kwp_bind, wp_quiet; [auto with sched|]. intros child k1 He1.
  pose proof (kernel_ok_extends _ _ He1 Hk) as Hk1. pose proof (task_ok_extends _ _ _ He1 Hot) as Hot1.
  apply kwp_bind. apply (kwp_mono _ (λ _ k2, k2 = k1)); [|by case_match; [apply kwp_ret|apply wp_try]]. intros q' ? ->.
  apply kwp_bind. apply (kwp_mono _ (λ r k2, extends k1 k2 ∧ is_Some (tables k2 !! r))); last first.
  { case_match; [apply kwp_ret; split; [done|apply Hot1]|]. apply kwp_bind, wp_get_table; [apply Hot1|]. intros l. apply wp_new_table. by intros. }
  intros rd k2 [He2 Hd]. apply kwp_bind. apply (kwp_mono _ (λ r k3, extends k2 k3 ∧ ∃ l, actions k3 !! r = Some l ∧ length l = 65%nat)); last first.
  { assert (∃ l, actions k2 !! signal_actions t = Some l ∧ length l = 65%nat) as Ha by (apply (ex_actions _ _ He2), Hot1). case_match; [by apply kwp_ret|].
    destruct Ha as (l & Hl & Hlen). apply kwp_bind. unfold wp at 1, get_actions. rewrite Hl. cbn [expect]. apply wp_new_actions; [done|by intros]. }
  intros ra k3 [He3 Ha]. apply kwp_bind. apply (kwp_mono _ (λ r k4, extends k3 k4 ∧ is_Some (cwds k4 !! r))); last first.
  { assert (is_Some (cwds k3 !! cwd t)) as Hw by (apply (ex_cwds _ _ He3), (ex_cwds _ _ He2), Hot1). case_match; [by apply kwp_ret|].
    destruct Hw as [w Hw]. apply kwp_bind. unfold wp at 1, get_cwd. rewrite Hw. cbn [expect]. apply wp_new_cwd. by intros. }
  intros rc k4 [He4 Hc]. set (u := Build_Task _ _ _ _ _ _ _ _ _ _ _ _ _ _ _ _ _ _ _ _ _ _ _ _ _).
  apply kwp_bind, wp_quiet; [apply quiet_when, quiet_write|]. intros _ k5 He5. apply kwp_bind, wp_quiet; [apply quiet_when, quiet_write|]. intros _ k6 He6.
  assert (extends k k6) as He by exact (transitivity He1 (transitivity He2 (transitivity He3 (transitivity He4 (transitivity He5 He6))))).
  assert (extends k4 k6) as He46 by exact (transitivity He5 He6).
  pose proof (kernel_ok_extends _ _ He Hk) as Hk6.
  apply kwp_bind, place_task_wp; [done|exact (sched_ok_extends _ _ _ He Hok)| |].
  - destruct (task_ok_extends _ _ _ He Hot) as [H1 H2 _ _ _]. split; cbn; try done; [|by apply (ex_tables _ _ He46), (ex_tables _ _ He4), (ex_tables _ _ He3)|by apply (ex_actions _ _ He46), (ex_actions _ _ He4)|by apply (ex_cwds _ _ He46)].
    destruct H2 as [H2 _]. split; [done|apply slice_bound].
  - intros s' Hs'. apply kwp_bind, wp_put_here; [done..|]. intros. by apply kwp_ret.
Qed.

Lemma new_tasks_wp sel tty l : ∀ k (Q : list Task → kernel → Prop),
  (∀ ts k', extends k k' → Forall (task_ok k') ts → length ts = length l → Forall (λ t, state t = Runnable) ts → Q ts k') → wp (new_tasks sel l tty) Q k.
Proof.
  induction l as [|p l IH]; intros k Q HQ; [by apply kwp_ret, HQ|]. cbn [new_tasks]. apply kwp_bind, wp_quiet; [auto with sched|]. intros pid k1 He1.
  apply kwp_bind, wp_quiet; [repeat (apply quiet_bind; [auto with sched|intros]); auto with sched|]. intros fds k2 He2.
  apply kwp_bind, wp_new_task. intros t k3 He3 Ht Hr. apply kwp_bind, IH. intros ts k4 He4 Hts Hlen Hrs.
  apply kwp_ret, HQ; [exact (transitivity He1 (transitivity He2 (transitivity He3 He4)))| |cbn; lia|by constructor].
  constructor; [by eapply task_ok_extends|done].
Qed.

Lemma start_safe sel l ks tty k : kernel_ok k → cpu_at k (this_cpu k) = None → l ≠ [] → wp (start_on_current_cpu sel l ks tty) switched k.
Proof.
  intros Hk Hno Hl. unfold start_on_current_cpu. apply kwp_bind, new_tasks_wp. intros ts k1 He Hts Hlen Hrun. pose proof (kernel_ok_extends _ _ He Hk) as Hk1.
  destruct ts as [|t ts]; [by destruct l|]. set (s := Build_Scheduler _ _ _ _ _). assert (sched_ok k1 s) as Hs by (split; [done|cbn; lia]).
  apply Forall_cons in Hts as [Ht _]. apply Forall_cons in Hrun as [Hr _].
  destruct (proj2 (to_process _ _ Ht)) as [p Hp]; [by rewrite Hr|].
  apply kwp_bind, wp_put_here; [done..|]. intros k2 Hk2 Hc _. apply kwp_bind, (wp_task_at _ _ _ t); [done|]. apply kwp_bind, (wp_lift _ _ p); [done|].
  apply kwp_ret. split; [done|]. by exists s, t, p.
Qed.

(** ** Timer interrupts *)

(** The interrupted processor continues with the saved registers and the
    address space of the current task. *)
Definition preempted (r : option (InterruptContext * Z)) (k : kernel) : Prop :=
  match r with
  | Some (ic, sp) => ∃ s t p, cpu_at k (this_cpu k) = Some s ∧ tasks s !! current s = Some t ∧ state t = Runnable ∧ process t = Some p ∧
                       ic = interrupt_context t ∧ sp = address_space p
  | None => True
  end.

Lemma kernel_ok_wheel k w : kernel_ok k → kernel_ok (set_wheel k w).
Proof. apply kernel_ok_extends. by split. Qed.
Lemma expire_safe e k : kernel_ok k → wp (expire e) (λ _ k', kernel_ok k') k.
Proof.
  intros Hk. unfold expire. destruct (timer_kind e) as [x|pid interval]; [by apply wake_sleep_safe|]. pose proof (kill_safe pid 14 k Hk) as Hs. unfold wp in *.
  destruct (kill_process pid 14 k) as [k' [a|a|]]; [..|done]; case_match; auto using kernel_ok_wheel.
Qed.
Lemma expire_all_safe l : ∀ k, kernel_ok k → wp (expire_all l) (λ _ k', kernel_ok k') k.
Proof.
  induction l as [|e l IH]; intros k Hk; [by apply kwp_ret|]. cbn [expire_all]. apply kwp_bind.
  apply (kwp_mono _ (λ _ k', kernel_ok k')); [intros _ k' Hk'; by apply IH|by apply expire_safe].
Qed.
Lemma advance_safe k : kernel_ok k → wp advance_timers (λ _ k', kernel_ok k') k.
Proof. intros Hk. unfold wp, advance_timers. destruct (advance_tick (wheel k)) as [w l]. by apply expire_all_safe, kernel_ok_wheel. Qed.

Lemma preempt_safe ic k : kernel_ok k → wp (preempt ic) (λ r k', kernel_ok k' ∧ preempted r k') k.
Proof.
  intros Hk. unfold preempt. apply kwp_bind, wp_here. destruct (cpu_at k (this_cpu k)) as [s|] eqn:Hs; [|by apply kwp_ret].
  pose proof (cpu_at_ok _ _ Hk Hs) as Hok. destruct (current_task _ _ Hok) as (t & Ht & _). apply kwp_bind, (wp_task_at _ _ _ t); [done|].
  set (s1 := alter_task _ _ tick_task). assert (sched_ok k s1) as H1 by (apply sched_ok_alter; [by apply sched_ok_ticks|auto with sched]).
  case_match; [apply kwp_bind, wp_put_here; [done..|]; intros; by apply kwp_ret|]. set (s2 := alter_task s1 _ demote).
  assert (sched_ok k s2) as H2 by (apply sched_ok_alter; [done|auto with sched]). cbn [set_ticks tasks current] in *. clearbody s2.
  destruct (next_alive s2 (current s)) as [j|] eqn:Hj; cbn [default from_option id]; last first.
  { rewrite Nat.eqb_refl. apply kwp_bind, wp_put_here; [done|by apply sched_ok_ticks|]. intros. by apply kwp_ret. }
  destruct (Nat.eqb_spec j (current s)) as [_|Hne]; [apply kwp_bind, wp_put_here; [done|by apply sched_ok_ticks|]; intros; by apply kwp_ret|].
  destruct (next_alive_candidate _ _ _ Hj) as [q Hq]. destruct (candidate_live _ _ _ _ H2 Hq) as (n & p & Hn & Hr & Hp). set (s3 := set_current _ j).
  assert (tasks s3 !! j = Some n) as Hn3 by (unfold s3; cbn [set_current tasks]; rewrite lookup_alter_task; by rewrite decide_False).
  apply kwp_bind, (wp_task_at _ _ _ n); [done|]. apply kwp_bind, (wp_lift _ _ p); [done|]. apply kwp_bind, wp_put_here; [done| |].
  - apply sched_ok_current; [apply sched_ok_alter; [by apply sched_ok_ticks|auto with sched]|]. rewrite length_alter_task. by eapply lookup_lt_Some.
  - intros k' Hk' Hc _. apply kwp_ret. split; [done|]. by exists s3, n, p.
Qed.
Lemma tick_safe b ic k : kernel_ok k → wp (timer_tick b ic) (λ r k', kernel_ok k' ∧ preempted r k') k.
Proof.
  intros Hk. unfold timer_tick. apply kwp_bind. apply (kwp_mono _ (λ _ k', kernel_ok k')); [|destruct b; [by apply advance_safe|by apply kwp_ret]].
  intros _ k' Hk'. case_match; [by apply preempt_safe|by apply kwp_ret].
Qed.

(** ** The keyboard, priorities, sessions and groups *)

Lemma pid_safe k : kernel_ok k → wp current_pid (λ _ k', kernel_ok k') k.
Proof.
  intros Hk. unfold current_pid. apply kwp_bind, wp_here. destruct (cpu_at k (this_cpu k)) as [s|] eqn:Hs; [|by apply kwp_ret].
  destruct (current_task _ _ (cpu_at_ok _ _ Hk Hs)) as (t & Ht & _). apply kwp_bind, (wp_task_at _ _ _ t); [done|]. by apply kwp_ret.
Qed.
Lemma interrupt_safe x k : kernel_ok k → wp (interrupt_current x) (λ _ k', kernel_ok k') k.
Proof.
  intros Hk. unfold interrupt_current. case_match; [by apply kwp_ret|]. apply kwp_bind. apply (kwp_mono _ (λ _ k', kernel_ok k')).
  - intros p k' Hk'. pose proof (kill_safe p x k' Hk') as Hs. unfold wp, ignored in *. by destruct (kill_process p x k') as [? []].
  - unfold wp, foreground_target. destruct (foreground_pid k =? 0); [by apply pid_safe|done].
Qed.
Lemma priority_safe pid p k : 0 ≤ p → kernel_ok k → wp (set_priority pid p) (λ _ k', kernel_ok k') k.
Proof.
  intros Hp Hk. assert (0 ≤ Z.min p PRIO_BATCH_MAX ≤ PRIO_BATCH_MAX) as Hm by (unfold PRIO_BATCH_MAX; lia). unfold set_priority. case_match.
  - apply kwp_bind, wp_try_here; [done|]. intros s Hs Hok. destruct (current_task _ _ Hok) as (t & Ht & _). apply kwp_bind, (wp_task_at _ _ _ t); [done|].
    apply alter_current_safe; [intros; by apply ok_priority_of|done..].
  - unfold wp. destruct (change_cpus _ _ _) as [c|] eqn:Hc; [|done]. apply kernel_ok_keeps; [|done]. eapply change_keeps; [|exact Hc]. intros; by apply ok_priority_of.
Qed.
Lemma setsid_safe k : kernel_ok k → wp setsid_current (λ _ k', kernel_ok k') k.
Proof.
  intros Hk. unfold setsid_current. apply kwp_bind, wp_here. destruct (cpu_at k (this_cpu k)) as [s|] eqn:Hs; [|by apply kwp_ret].
  destruct (current_task _ _ (cpu_at_ok _ _ Hk Hs)) as (t & Ht & _). apply kwp_bind, (wp_task_at _ _ _ t); [done|]. apply kwp_bind.
  apply (kwp_mono _ (λ _ k', kernel_ok k')); [intros; by apply kwp_ret|]. apply alter_current_safe; [intros; by apply ok_groups|done..].
Qed.
Lemma setpgid_safe a b k : kernel_ok k → wp (setpgid_task a b) (λ _ k', kernel_ok k') k.
Proof.
  intros Hk. unfold setpgid_task. apply kwp_bind, wp_try_here; [done|]. intros s Hs Hok. destruct (current_task _ _ Hok) as (t & Ht & _).
  apply kwp_bind, (wp_task_at _ _ _ t); [done|]. destruct (change_first _ _ _) as [ts|] eqn:Hc; [|by apply wp_fail].
  apply wp_put_here; [done| |by intros]. eapply change_first_ok in Hc as [H1 H2]; [by apply sched_ok_tasks|intros; by apply ok_groups|apply Hok].
Qed.

(** ** Runs *)

Inductive call :=
| Start (l : list Process) (kspace : Z) (tty : bool)
| Yield (c : UserContext) | BlockPipe (key : Z) (c : UserContext) | FutexSleep (uaddr bitset : Z) (c : UserContext)
| SleepUntil (target rem_ptr : Z) (c : UserContext) | WaitFor (pid status_ptr : Z) (c : UserContext) | Exec (p : Process)
| WaitRound (previous : nat) | Exit (code : Z) | ExitGroup (code : Z)
| Preempted (boot : bool) (ic : InterruptContext)
| WakePipe (id : Z) | WakeSleeper (x : Z) | FutexWake (uaddr count bitset : Z) | FutexRequeue (uaddr wake_count bitset uaddr2 requeue_count : Z)
| WaitChild (target : Z) | Kill (pid signal : Z) | KillThread (x signal : Z) | Deliver | SetMask (m : Z) | SetAction (signal : Z) (a : LinuxSigAction)
| ResetAction (signal : Z) | Interrupt (signal : Z)
| Spawn (p : Process) | SpawnStdio (p : Process) (stdin stdout stderr : Z)
| Clone (fl child_stack parent_tidptr child_tidptr tls : Z) (c : UserContext) (ic : InterruptContext) (cloned : option Process)
| SetPriority (pid p : Z) | SetSid | SetPgid (pid pgid_ : Z).

(** What the processor does after a call. *)
Inductive outcome := Switched (r : switch) | Returned (ic : option (InterruptContext * Z)).
Definition landed (o : outcome) (k : kernel) : Prop := match o with Switched r => resumed r k | Returned r => preempted r k end.

Section runs.
Context (sel : Z * Z).

Definition switching (m : K switch) : K outcome := r ← m; mret (Switched r).
Definition returning {A} (m : K A) : K outcome := _ ← m; mret (Returned None).

Definition perform (c : call) : K outcome :=
  match c with
  | Start l ks tty => switching (start_on_current_cpu sel l ks tty)
  | Yield c => switching (yield_current c)
  | BlockPipe key c => switching (block_pipe_current sel key c)
  | FutexSleep a b c => switching (futex_wait_current sel a b c)
  | SleepUntil a b c => switching (block_sleep_current sel a b c)
  | WaitFor a b c => switching (wait_current sel a b c)
  | Exec p => switching (exec_current sel p)
  | WaitRound prev => o ← wait_step prev; mret (match o with Some r => Switched r | None => Switched (Block prev) end)
  | Exit code => switching (exit_current code)
  | ExitGroup code => switching (exit_group_current code)
  | Preempted b ic => r ← timer_tick b ic; mret (Returned r)
  | WakePipe id => returning (wake_pipe_waiters id)
  | WakeSleeper x => returning (wake_sleeping_task x)
  | FutexWake a b c => returning (futex_wake a b c)
  | FutexRequeue a b c d e => returning (futex_requeue a b c d e)
  | WaitChild x => returning (wait_child_current x)
  | Kill a b => returning (kill_process a b)
  | KillThread a b => returning (kill_thread a b)
  | Deliver => returning check_pending_signal_to_deliver
  | SetMask m => returning (set_current_blocked_mask m)
  | SetAction x a => returning (set_signal_action x a)
  | ResetAction x => returning (reset_signal_action x)
  | Interrupt x => returning (interrupt_current x)
  | Spawn p => returning (spawn_current sel p)
  | SpawnStdio p a b c => returning (spawn_with_stdio_current sel p a b c)
  | Clone fl a b c d x ic q => returning (clone_task_current fl a b c d x ic q)
  | SetPriority a b => returning (set_priority a b)
  | SetSid => returning setsid_current
  | SetPgid a b => returning (setpgid_task a b)
  end.

(** A processor is started once; the system calls that give the processor away
    are made by a task that has not been ended since it got the processor; a
    priority is an unsigned byte. *)
Definition allowed (k : kernel) (c : call) : Prop :=
  match c with
  | Start l _ _ => cpu_at k (this_cpu k) = None ∧ l ≠ []
  | Yield _ | BlockPipe _ _ | FutexSleep _ _ _ | SleepUntil _ _ _ | WaitFor _ _ _ | Exec _ => running k
  | WaitRound _ | Exit _ | ExitGroup _ => is_Some (cpu_at k (this_cpu k))
  | SetPriority _ p => 0 ≤ p
  | _ => True
  end.

Inductive reaches (k : kernel) : kernel → Prop :=
| reaches_here : reaches k k
| reaches_step k' c k'' r : reaches k k' → allowed k' c → perform c k' = (k'', r) → reaches k k''.

Lemma switching_safe m k : wp m switched k → wp (switching m) (λ o k', kernel_ok k' ∧ landed o k') k.
Proof. intros H. apply kwp_bind. eapply kwp_mono; [|exact H]. intros r k' [H1 H2]. by apply kwp_ret. Qed.
Lemma returning_safe {A} (m : K A) k : wp m (λ _ k', kernel_ok k') k → wp (returning m) (λ o k', kernel_ok k' ∧ landed o k') k.
Proof. intros H. apply kwp_bind. eapply kwp_mono; [|exact H]. intros r k' H1. by apply kwp_ret. Qed.

Lemma perform_safe c k : kernel_ok k → allowed k c → wp (perform c) (λ o k', kernel_ok k' ∧ landed o k') k.
Proof.
  intros Hk Hc. destruct c; cbn [perform allowed] in *.
  - destruct Hc. by apply switching_safe, start_safe.
  - by apply switching_safe, yield_safe.
  - by apply switching_safe, block_safe.
  - by apply switching_safe, block_safe.
  - by apply switching_safe, block_safe.
  - by apply switching_safe, block_safe.
  - by apply switching_safe, exec_safe.
  - apply kwp_bind. eapply kwp_mono; [|by apply wait_safe]. intros [r|] k' [H1 H2]; by apply kwp_ret.
  - by apply switching_safe, exit_safe.
  - by apply switching_safe, exit_group_safe.
  - apply kwp_bind. eapply kwp_mono; [|by apply tick_safe]. intros r k' H1. by apply kwp_ret.
  - by apply returning_safe, wake_pipe_safe.
  - by apply returning_safe, wake_sleep_safe.
  - by apply returning_safe, futex_wake_safe.
  - by apply returning_safe, futex_requeue_safe.
  - by apply returning_safe, wait_child_safe.
  - by apply returning_safe, kill_safe.
  - by apply returning_safe, kill_thread_safe.
  - by apply returning_safe, pending_safe.
  - by apply returning_safe, mask_safe.
  - by apply returning_safe, set_action_safe.
  - by apply returning_safe, reset_action_safe.
  - by apply returning_safe, interrupt_safe.
  - by apply returning_safe, spawn_safe.
  - by apply returning_safe, spawn_stdio_safe.
  - by apply returning_safe, clone_safe.
  - by apply returning_safe, priority_safe.
  - by apply returning_safe, setsid_safe.
  - by apply returning_safe, setpgid_safe.
Qed.
Lemma reaches_ok k k' : kernel_ok k → reaches k k' → kernel_ok k'.
Proof.
  intros Hk. induction 1 as [|k' c k'' r _ IH Hc Hp]; [done|]. pose proof (perform_safe c k' IH Hc) as Hs. unfold wp in Hs. rewrite Hp in Hs. destruct r; [apply Hs|done..].
Qed.
End runs.

(** C7: The scheduler is safe on one processor while running tasks are not
    ended behind the back of the system calls they make.  Take a kernel in
    which only this processor schedules and any run of the scheduler's calls
    and interrupts in which ([allowed]) the scheduler is started once and with
    a process; [yield], the blocking calls and [exec] are made only while the
    current task is still runnable; the waiting round and the exits are made
    once the scheduler has been started; and priorities are not negative.
    Then the next such call does not panic; every task has its process exactly
    until it ends and what it refers to exists; and when the call gives the
    processor to a task, that task is the current one, is runnable, and it is
    its registers and its address space that are loaded.  Without the
    condition on the current task the claim fails: a task that kills itself
    and yields panics the kernel ([self_kill_panics]). *)
Theorem scheduler_safe sel k k' c : kernel_ok k → reaches sel k k' → allowed k' c →
  ∃ k'' r, perform sel c k' = (k'', r) ∧ r ≠ Panic ∧ kernel_ok k'' ∧ ∀ o, r = Ok o → landed o k''.
Proof.
  intros Hk Hr Hc. pose proof (perform_safe sel c k' (reaches_ok _ _ _ Hk Hr) Hc) as Hs. unfold wp in Hs. destruct (perform sel c k') as [k'' r].
  exists k'', r. split; [done|]. destruct r as [o|e|]; [|by split_and!..]. destruct Hs as [H1 H2]. split_and!; [done..|]. by intros ? [= <-].
Qed.

(** ** From the boot: two processes, of which the first yields to the second *)

Definition boot : kernel := on_cpus (replicate 8 None).
Definition selectors_ : Z * Z := (0x23, 0x1b).
Definition after (sel : Z * Z) (k : kernel) (cs : list call) : kernel := foldl (λ k c, (perform sel c k).1) k cs.

Lemma reaches_snoc sel k cs c : reaches sel k (after sel k cs) → allowed (after sel k cs) c → reaches sel k (after sel k (cs ++ [c])).
Proof. intros Hr Hc. unfold after at 1. rewrite foldl_app. eapply reaches_step; [exact Hr|exact Hc|apply surjective_pairing]. Qed.
Definition is_running (k : kernel) : bool :=
  match cpu_at k (this_cpu k) with Some s => match tasks s !! current s with Some t => is_runnable t | None => false end | None => false end.
Lemma is_running_true k : is_running k = true → running k.
Proof.
  unfold is_running. destruct (cpu_at k (this_cpu k)) as [s|] eqn:Hs; [|done]. destruct (tasks s !! current s) as [t|] eqn:Ht; [|done].
  intros Hr%bool_decide_eq_true. by exists s, t.
Qed.
Lemma is_running_true_some k : is_running k = true → is_Some (cpu_at k (this_cpu k)).
Proof. intros (s & t & Hs & _)%is_running_true. by eexists. Qed.

Lemma scheduler_safe_witness :
  ∃ k'' r, perform selectors_ (Exit 3) (after selectors_ boot [Start [sample_process; sample_process] 0 false; Yield no_context]) = (k'', r) ∧
    r ≠ Panic ∧ kernel_ok k'' ∧ ∀ o, r = Ok o → landed o k''.
Proof.
  apply (scheduler_safe selectors_ boot).
  - split; [cbn; lia|..]; intros i s Hi; by apply lookup_replicate in Hi as [? _].
  - apply (reaches_snoc selectors_ boot [Start [sample_process; sample_process] 0 false] (Yield no_context)).
    + apply (reaches_snoc selectors_ boot [] (Start [sample_process; sample_process] 0 false)); [apply reaches_here|by split].
    + apply is_running_true. vm_compute. reflexivity.
  - apply is_running_true_some. vm_compute. reflexivity.
Defined.

(** A task that ends itself with a signal and yields when no other can run:
    the code asserts that the task it selects has not ended. *)
Lemma self_kill_panics :
  let k := after selectors_ boot [Start [sample_process] 0 false; Kill 100 15] in (perform selectors_ (Yield no_context) k).2 = Panic.
Proof. vm_compute. reflexivity. Qed.

(** ** What the processors do to each other's tasks *)

Definition states (k : kernel) (i : nat) : list (Z * TaskState) :=
  match cpu_at k i with Some s => (λ t, (tid t, state t)) <$> tasks s | None => [] end.
Definition current_state (k : kernel) : option (Z * TaskState * bool) :=
  s ← cpu_at k (this_cpu k); t ← tasks s !! current s; Some (tid t, state t, bool_decide (is_Some (process t))).

(** A child ends whose parent waits on another processor: not the child but
    the task that runs next is marked as reaped; it runs, but is never
    selected again. *)
Lemma remote_parent_reaps_next :
  let k := on_cpus (Some (queue [sample_task 10 10 (Some 1) Runnable 5; sample_task 11 11 None Runnable 5]) ::
                    Some (queue [sample_task 1 1 None (Waiting 10 0) 5]) :: replicate 6 None) in
  let k' := after selectors_ k [Exit 0] in
  states k' 0 = [(10, Zombie 0); (11, Reaped)] ∧ current_state k' = Some (11, Reaped, true) ∧ states k' 1 = [(1, Runnable)].
Proof. vm_compute. repeat split. Qed.

(** A child that a signal ends stays a zombie after the waiting parent was
    given its status, so that the next wait returns it again. *)
Lemma killed_child_reported_twice :
  let k := on_one [sample_task 5 5 None Runnable 5; sample_task 1 1 None (Waiting 10 0) 5; sample_task 10 10 (Some 1) Runnable 5] in
  let k' := after selectors_ k [Kill 10 15; Exit 0] in
  states k' 0 = [(5, Zombie 0); (1, Runnable); (10, Zombie 143)] ∧ current_state k' = Some (1, Runnable, true) ∧
  (wait_child_current 10 k').2 = Ok (Some (10, 143)).
Proof. vm_compute. repeat split. Qed.

(** A signal to a process group ends its tasks, but a parent that waits for
    one of them goes on waiting. *)
Lemma group_kill_leaves_parent_waiting :
  let k := on_one [sample_task 5 5 None Runnable 5; sample_task 1 1 None (Waiting 10 0) 5; sample_task 10 10 (Some 1) Runnable 5] in
  states (after selectors_ k [Kill (u64 (- 10)) 15]) 0 = [(5, Runnable); (1, Waiting 10 0); (10, Zombie 143)].
Proof. vm_compute. reflexivity. Qed.

(** A thread that ends is a zombie of its process: a wait of the parent
    reports the end of the process while another thread of it runs. *)
Lemma thread_end_reported :
  let k := on_one [sample_task 1 1 None Runnable 5; sample_task 10 10 (Some 1) Runnable 5; sample_task 11 10 (Some 1) (Zombie 0) 5] in
  (wait_child_current 10 k).2 = Ok (Some (10, 0)) ∧ states (wait_child_current 10 k).1 0 = [(1, Runnable); (10, Runnable); (11, Reaped)].
Proof. vm_compute. repeat split. Qed.
