(* ===== verification/SchedTurns.v ===== *)
(** * No task starves

    Timer interrupts alone bring every runnable task to the processor.  On an
    application processor an interrupt only preempts; on the boot processor
    it first expires timers, which may wake and boost other tasks and end
    tasks with an alarm signal, so there each interrupt with expired timers
    may start the wait again. *)

From stdpp Require Import gmap list.
From S2P Require Import Prelude Words Abi Timer Tasks Sched SchedFair SchedSafe.

(** ** What timers do to the tasks *)

(** A task moves from waiting to runnable to ended only. *)
Definition stage (t : Task) : nat := match state t with Runnable => 1 | Zombie _ | Reaped => 2 | _ => 0 end.
Definition later (t t' : Task) : Prop := (stage t ≤ stage t')%nat.
#[export] Instance later_preorder : PreOrder later.
Proof. split; unfold later; [intros t; lia|intros x y z; lia]. Qed.

Record moved (s s' : Scheduler) : Prop := { mv_tasks : Forall2 later (tasks s) (tasks s'); mv_current : current s' = current s }.
#[export] Instance moved_preorder : PreOrder moved.
Proof. split; [by intros s; split|]. intros x y z [H1 H2] [I1 I2]. split; [by etransitivity|congruence]. Qed.

Record onward (k k' : kernel) : Prop := {
  on_this : this_cpu k' = this_cpu k;
  on_sched : Forall2 (option_Forall2 moved) (cpus k) (cpus k') }.
#[export] Instance onward_preorder : PreOrder onward.
Proof. split; [by intros k; split|]. intros x y z [H1 H2] [I1 I2]. split; [congruence|by etransitivity]. Qed.







(** ** The wait for a turn *)


(** The number of interrupts of the run that find expired timers. *)
Definition expires (is_bsp : bool) (k : kernel) : bool := is_bsp && negb (bool_decide ((advance_tick (wheel k)).2 = [])).
Fixpoint expirations (is_bsp : bool) (k : kernel) (ics : list InterruptContext) : nat :=
  match ics with
  | [] => 0
  | ic :: ics' => (if expires is_bsp k then 1 else 0) + expirations is_bsp (timer_tick is_bsp ic k).1 ics'
  end.











Lemma no_expirations ics k : expirations false k ics = 0%nat.
Proof. revert k. induction ics as [|ic ics IH]; intros k; [done|]. apply IH. Qed.

(** ** A boot processor with three tasks, the first of which sleeps

    It is woken and boosted by the fifth interrupt. *)



