(* ===== verification/SchedFutex.v ===== *)
(** * Futexes

    A wake-up and a requeue go over the processors and over the tasks of each
    with counters of what is left.  They are compared with what they promise
    for the tasks of all processors in one queue: the waiters of the address,
    numbered in the order of the queue. *)

From stdpp Require Import gmap list.
From S2P Require Import Prelude Words Abi Timer Tasks Sched SchedFair.

Section futex.
Context (uaddr bitset uaddr2 : Z).

(** What becomes of a task: the waiter number [n] is woken if it is among the
    first [w], moved to the other address if it is among the next [r]. *)
Definition verdict (w r n : Z) (t : Task) : Task :=
  if negb (futex_matches uaddr bitset t) then t else if n <? w then wake_task t else if n <? w + r then requeue_task uaddr2 t else t.
Definition waiters (ts : list Task) : Z := zlen (filter (λ t, futex_matches uaddr bitset t = true) ts).
Fixpoint served (w r n : Z) (ts : list Task) : list Task :=
  match ts with [] => [] | t :: ts' => verdict w r n t :: served w r (if futex_matches uaddr bitset t then n + 1 else n) ts' end.

Lemma waiters_cons t ts : waiters (t :: ts) = (if futex_matches uaddr bitset t then 1 else 0) + waiters ts.
Proof. unfold waiters. rewrite filter_cons. destruct (futex_matches uaddr bitset t); case_decide; try done; cbn [length]; lia. Qed.
Lemma waiters_app l l' : waiters (l ++ l') = waiters l + waiters l'.
Proof. unfold waiters. rewrite filter_app, length_app. lia. Qed.
Lemma waiters_nonneg l : 0 ≤ waiters l.
Proof. unfold waiters. lia. Qed.
Hint Resolve waiters_nonneg : core.

Lemma length_served w r ts : ∀ n, length (served w r n ts) = length ts.
Proof. induction ts; intros; cbn; auto. Qed.
Lemma served_app w r l l' : ∀ n, served w r n (l ++ l') = served w r n l ++ served w r (n + waiters l) l'.
Proof.
  induction l as [|t l IH]; intros n; cbn [served app]; [unfold waiters; cbn; by rewrite Z.add_0_r|]. rewrite IH, waiters_cons. do 3 f_equal. case_match; lia.
Qed.
(** The number of a waiter is the number of waiters before it. *)
Lemma served_lookup w r ts : ∀ n i t, ts !! i = Some t → served w r n ts !! i = Some (verdict w r (n + waiters (take i ts)) t).
Proof.
  induction ts as [|u ts IH]; intros n [|i] t Hi; cbn in Hi |- *; try done.
  - injection Hi as ->. unfold waiters. cbn. by rewrite Z.add_0_r.
  - rewrite IH with (t := t) by done. do 2 f_equal. rewrite waiters_cons. case_match; lia.
Qed.
Lemma served_ext w r n w' r' n' ts : (∀ j, 0 ≤ j → (n + j <? w) = (n' + j <? w')) → (∀ j, 0 ≤ j → (n + j <? w + r) = (n' + j <? w' + r')) →
  served w r n ts = served w' r' n' ts.
Proof.
  revert n n'. induction ts as [|t ts IH]; intros n n' H1 H2; cbn [served]; [done|]. f_equal.
  - unfold verdict. pose proof (H1 0) as H10. pose proof (H2 0) as H20. rewrite !Z.add_0_r in H10, H20. by rewrite H10, H20.
  - apply IH; intros j Hj; case_match; rewrite <-?Z.add_assoc; auto with lia.
Qed.
Lemma served_none w r n ts : w + r ≤ n → 0 ≤ r → served w r n ts = ts.
Proof.
  revert n. induction ts as [|t ts IH]; intros n Hn Hr; cbn [served]; [done|]. rewrite IH; [|case_match; lia|lia]. f_equal. unfold verdict.
  destruct (Z.ltb_spec n w), (Z.ltb_spec n (w + r)); try lia. by destruct (negb _).
Qed.

(** ** One queue *)

(** The counters: waiters are requeued only when enough have been woken. *)
Definition counters (w r wm rm : Z) : Prop := 0 ≤ w ≤ wm ∧ 0 ≤ r ≤ rm ∧ (r = 0 ∨ w = wm).
Definition totals (w r wm rm m : Z) : Z * Z := (w + Z.min m (wm - w), r + Z.min (m - Z.min m (wm - w)) (rm - r)).

Lemma requeue_tasks_served wm rm ts : ∀ w r, counters w r wm rm →
  futex_requeue_tasks ts w r wm rm uaddr bitset uaddr2 = (served wm rm (w + r) ts, totals w r wm rm (waiters ts)).
Proof.
  induction ts as [|t ts IH]; intros w r (Hw & Hr & Hc); cbn [futex_requeue_tasks].
  { unfold totals, waiters. cbn. do 2 f_equal; lia. }
  pose proof (waiters_nonneg ts). destruct (Z.leb_spec wm w), (Z.leb_spec rm r); cbn [andb].
  { rewrite served_none by lia. unfold totals. pose proof (waiters_nonneg (t :: ts)). do 2 f_equal; lia. }
  all: cbn [served]; rewrite waiters_cons; unfold verdict; destruct (futex_matches uaddr bitset t) eqn:Hm; cbn [andb negb].
  all: try (rewrite IH by (split_and!; lia); by rewrite Z.add_0_l).
  all: destruct (Z.ltb_spec w wm), (Z.ltb_spec r rm), (Z.ltb_spec (w + r) wm), (Z.ltb_spec (w + r) (wm + rm)); try lia.
  all: rewrite IH by (split_and!; lia); unfold totals; f_equal; [|f_equal; lia]; f_equal; f_equal; lia.
Qed.
Lemma wake_tasks_served c ts : ∀ w, 0 ≤ w ≤ c →
  futex_wake_tasks ts w c uaddr bitset = (served c 0 w ts, w + Z.min (waiters ts) (c - w)).
Proof.
  induction ts as [|t ts IH]; intros w Hw; cbn [futex_wake_tasks].
  { unfold waiters. cbn. f_equal. lia. }
  pose proof (waiters_nonneg ts). destruct (Z.leb_spec c w).
  { rewrite served_none by lia. pose proof (waiters_nonneg (t :: ts)). f_equal. lia. }
  cbn [served]. rewrite waiters_cons. unfold verdict. destruct (futex_matches uaddr bitset t); cbn [negb].
  - destruct (Z.ltb_spec w c); [|lia]. rewrite IH by lia. f_equal. lia.
  - rewrite IH by lia. by rewrite Z.add_0_l.
Qed.

(** ** All processors *)

Definition queued (o : option Scheduler) : list Task := match o with Some s => tasks s | None => [] end.
Definition all_queued (l : list (option Scheduler)) : list Task := l ≫= queued.
(** The queues are the same but for the tasks. *)
Definition same_queue (o o' : option Scheduler) : Prop := ∃ f, o' = (λ s, set_tasks s (f (tasks s))) <$> o ∧ ∀ ts, length (f ts) = length ts.
Lemma same_queue_refl o : same_queue o o.
Proof. exists id. split; [by destruct o as [[]|]|done]. Qed.
Lemma same_queues_refl l : Forall2 same_queue l l.
Proof. induction l; constructor; [apply same_queue_refl|done]. Qed.

Lemma served_shift w r wc rc ts : counters w r wc rc → served (wc - w) (rc - r) 0 ts = served wc rc (w + r) ts.
Proof.
  intros (Hw & Hr & Hc). apply served_ext; intros j Hj; rewrite Z.add_0_l.
  - destruct (Z.ltb_spec j (wc - w)), (Z.ltb_spec (w + r + j) wc); lia.
  - destruct (Z.ltb_spec j (wc - w + (rc - r))), (Z.ltb_spec (w + r + j) (wc + rc)); lia.
Qed.

Lemma requeue_cpus_served wc rc l : wc < 2 ^ 32 → rc < 2 ^ 32 → ∀ w r, counters w r wc rc →
  ∃ l', futex_requeue_cpus l w r wc rc uaddr bitset uaddr2 = (l', totals w r wc rc (waiters (all_queued l))) ∧
    all_queued l' = served wc rc (w + r) (all_queued l) ∧ Forall2 same_queue l l'.
Proof.
  intros Hwc Hrc. induction l as [|o l IH]; intros w r Hc; cbn [futex_requeue_cpus].
  { exists []. split_and!; [|done|constructor]. unfold totals, waiters. cbn. destruct Hc as (? & ? & _). do 2 f_equal; lia. }
  pose proof (waiters_nonneg (all_queued (o :: l))) as Hn. destruct Hc as (Hw & Hr & Hc). destruct (Z.leb_spec wc w), (Z.leb_spec rc r); cbn [andb].
  { exists (o :: l). rewrite served_none by lia. split_and!; [|done|apply same_queues_refl]. unfold totals. do 2 f_equal; lia. }
  all: destruct o as [s|]; [|destruct (IH w r) as (l' & -> & Hl' & Hf); [split_and!; lia|]; exists (None :: l'); split_and!; [done|done|constructor; [apply same_queue_refl|done]]].
  all: unfold futex_requeue_unlocked; rewrite !(wrap_small 32) by (unfold is_u; lia); rewrite requeue_tasks_served by (split_and!; lia); unfold totals at 1; cbn [fst snd].
  all: pose proof (waiters_nonneg (tasks s)); pose proof (waiters_nonneg (all_queued l));
    change (0 + 0) with 0; rewrite (served_shift w r wc rc) by (split_and!; lia).
  all: match goal with |- context [futex_requeue_cpus _ ?a ?b] => destruct (IH a b) as (l' & -> & Hl' & Hf); [split_and!; lia|] end.
  all: exists (Some (set_tasks s (served wc rc (w + r) (tasks s))) :: l'); cbn [all_queued mbind list_bind queued set_tasks tasks]; rewrite waiters_app; fold (all_queued l); fold (all_queued l').
  all: split_and!; [unfold totals; do 2 f_equal; lia| |constructor; [exists (served wc rc (w + r)); split; [done|intros; apply length_served]|done]].
  all: rewrite served_app, Hl'; f_equal; apply served_ext; intros j Hj;
    match goal with |- (?a <? ?b) = (?c <? ?d) => destruct (Z.ltb_spec a b), (Z.ltb_spec c d); lia end.
Qed.

Lemma wake_cpus_served c l : c < 2 ^ 32 → ∀ w, 0 ≤ w ≤ c →
  ∃ l', futex_wake_cpus l w c uaddr bitset = (l', w + Z.min (waiters (all_queued l)) (c - w)) ∧
    all_queued l' = served c 0 w (all_queued l) ∧ Forall2 same_queue l l'.
Proof.
  intros Hc. induction l as [|o l IH]; intros w Hw; cbn [futex_wake_cpus].
  { exists []. split_and!; [|done|constructor]. unfold waiters. cbn. f_equal. lia. }
  pose proof (waiters_nonneg (all_queued (o :: l))) as Hn. destruct (Z.leb_spec c w).
  { exists (o :: l). rewrite served_none by lia. split_and!; [|done|apply same_queues_refl]. f_equal. lia. }
  destruct o as [s|]; [|destruct (IH w Hw) as (l' & -> & Hl' & Hf); exists (None :: l'); split_and!; [done..|constructor; [apply same_queue_refl|done]]].
  unfold futex_wake_unlocked. rewrite (wrap_small 32) by (unfold is_u; lia). rewrite wake_tasks_served by lia.
  pose proof (waiters_nonneg (tasks s)). pose proof (waiters_nonneg (all_queued l)).
  destruct (IH (w + (0 + Z.min (waiters (tasks s)) (c - w - 0)))) as (l' & -> & Hl' & Hf); [lia|].
  assert (served (c - w) 0 0 (tasks s) = served c 0 w (tasks s)) as ->.
  { apply served_ext; intros j Hj; match goal with |- (?a <? ?b) = (?c <? ?d) => destruct (Z.ltb_spec a b), (Z.ltb_spec c d); lia end. }
  exists (Some (set_tasks s (served c 0 w (tasks s))) :: l'). cbn [all_queued mbind list_bind queued set_tasks tasks]. rewrite waiters_app. fold (all_queued l). fold (all_queued l').
  split_and!; [f_equal; lia| |constructor; [exists (served c 0 w); split; [done|intros; apply length_served]|done]].
  rewrite served_app, Hl'. f_equal. apply served_ext; intros j Hj; match goal with |- (?a <? ?b) = (?c <? ?d) => destruct (Z.ltb_spec a b), (Z.ltb_spec c d); lia end.
Qed.
End futex.

(** ** What a caller is promised *)

Definition in_space (space : Z) (t : Task) : Prop := address_space <$> process t = Some space.
#[global] Instance in_space_dec space t : Decision (in_space space t).
Proof. unfold in_space. apply _. Defined.

(** A thread of the address space that waits on the address with a common bit. *)
Definition waits (space uaddr bitset : Z) (t : Task) : bool :=
  match state t with
  | FutexWait a b => bool_decide (a = uaddr ∧ Z.land b bitset ≠ 0 ∧ in_space space t)
  | _ => false
  end.
Definition waiting (space uaddr bitset : Z) (ts : list Task) : Z :=
  zlen (filter (λ t, waits space uaddr bitset t = true) ts).

(** What becomes of the waiter number [n] of the address space: the first [w]
    run again, two levels of priority up to the interactive ones and with a
    fresh slice; the next [r] wait on the other address; all other tasks stay. *)
Definition outcome (space uaddr bitset uaddr2 w r n : Z) (t : Task) : Task :=
  if negb (waits space uaddr bitset t) then t
  else if n <? w then
    let p := Z.max PRIO_INTERACTIVE_MIN (priority t - 2) in
    set_state (set_priority_slice t p (slice_for_priority p)) Runnable
  else if n <? w + r then
    match state t with FutexWait _ b => set_state t (FutexWait uaddr2 b) | _ => t end
  else t.

(** All waiters of the address are threads of one address space. *)
Definition private_futex (space uaddr : Z) (k : kernel) : Prop :=
  ∀ t b, t ∈ all_queued (cpus k) → state t = FutexWait uaddr b → in_space space t.

(** The tasks at the same places, each as [f] makes it from its number among
    the waiters of the address space. *)
Definition each_task (space uaddr bitset : Z) (k k' : kernel) (f : Z → Task → Task) : Prop :=
  k' = set_cpus k (cpus k') ∧ Forall2 same_queue (cpus k) (cpus k') ∧
  ∀ i t, all_queued (cpus k) !! i = Some t →
    all_queued (cpus k') !! i = Some (f (waiting space uaddr bitset (take i (all_queued (cpus k)))) t).

Lemma wake_task_eq t :
  wake_task t = let p := Z.max PRIO_INTERACTIVE_MIN (priority t - 2) in
                set_state (set_priority_slice t p (slice_for_priority p)) Runnable.
Proof.
  unfold wake_task, saturating_sub. cbv zeta. replace (Z.max _ PRIO_INTERACTIVE_MIN) with
    (Z.max PRIO_INTERACTIVE_MIN (priority t - 2)); [done|]. unfold PRIO_INTERACTIVE_MIN. lia.
Qed.

Section private.
Context (space uaddr bitset : Z) (k : kernel) (Hk : private_futex space uaddr k).

Lemma waits_matches t :
  t ∈ all_queued (cpus k) → waits space uaddr bitset t = futex_matches uaddr bitset t.
Proof.
  intros Ht. unfold waits, futex_matches. destruct (state t) eqn:Es; try done.
  case_bool_decide as H.
  - destruct H as (-> & Hb & _). rewrite Z.eqb_refl. by apply Z.eqb_neq in Hb as ->.
  - destruct (Z.eqb_spec uaddr0 uaddr) as [->|]; [|done].
    destruct (Z.eqb_spec (Z.land bitset0 bitset) 0); [done|]. exfalso. apply H. eauto.
Qed.

Lemma waiting_waiters ts :
  (∀ t, t ∈ ts → t ∈ all_queued (cpus k)) → waiting space uaddr bitset ts = waiters uaddr bitset ts.
Proof.
  induction ts as [|t ts IH]; intros Hts; [done|]. unfold waiting, waiters in *.
  rewrite !filter_cons, waits_matches by (apply Hts; left).
  specialize (IH (λ u Hu, Hts u (list_elem_of_further _ _ _ Hu))). case_decide; cbn; lia.
Qed.

Lemma outcome_verdict uaddr2 w r n t :
  t ∈ all_queued (cpus k) →
  outcome space uaddr bitset uaddr2 w r n t = verdict uaddr bitset uaddr2 w r n t.
Proof. intros Ht. unfold outcome, verdict. by rewrite waits_matches, wake_task_eq by done. Qed.

Lemma each_served uaddr2 w r l :
  Forall2 same_queue (cpus k) l →
  all_queued l = served uaddr bitset uaddr2 w r 0 (all_queued (cpus k)) →
  each_task space uaddr bitset k (set_cpus k l) (outcome space uaddr bitset uaddr2 w r).
Proof.
  intros Hf Hs. split_and!; [done|done|]. intros i t Hi. cbn [cpus set_cpus].
  rewrite Hs, (served_lookup _ _ _ _ _ _ _ i t) by done.
  rewrite outcome_verdict, waiting_waiters; [done| |by eapply list_elem_of_lookup_2].
  intros u Hu. by eapply elem_of_take in Hu as (j & Hj & _); eapply list_elem_of_lookup_2.
Qed.
End private.

(** C40: When the threads waiting on an address all belong to the address space
    of the caller, a requeue wakes exactly the first [wake_count] of them over
    all processors, in the order of the processors and their queues, moves
    exactly the next [requeue_count] to the other address and returns both
    numbers; every other task stays as it is, and no task changes its place.
    A wake-up is the case that moves none.  (Without the condition threads of
    other processes are woken, [futex_wakes_other_process].) *)
Theorem futex_exact k space uaddr wake_count bitset uaddr2 requeue_count :
  private_futex space uaddr k → 0 ≤ wake_count < 2 ^ 32 → 0 ≤ requeue_count < 2 ^ 32 →
  let m := waiting space uaddr bitset (all_queued (cpus k)) in
  let w := Z.min m wake_count in
  let becomes := outcome space uaddr bitset uaddr2 wake_count in
  (∃ k', futex_requeue uaddr wake_count bitset uaddr2 requeue_count k = (k', Ok (w, Z.min (m - w) requeue_count)) ∧
     each_task space uaddr bitset k k' (becomes requeue_count)) ∧
  (∃ k', futex_wake uaddr wake_count bitset k = (k', Ok w) ∧
     each_task space uaddr bitset k k' (becomes 0)).
Proof.
  intros Hk Hw Hr m w becomes.
  assert (Hm : m = waiters uaddr bitset (all_queued (cpus k))) by by apply (waiting_waiters _ _ _ k).
  split.
  - destruct (requeue_cpus_served uaddr bitset uaddr2 wake_count requeue_count (cpus k)) with (w := 0) (r := 0)
      as (l' & Hl' & Hs & Hf); [lia..|split_and!; lia|].
    exists (set_cpus k l'). unfold futex_requeue. rewrite Hl'. split; [|by apply each_served].
    unfold totals. rewrite <- Hm. do 3 f_equal; unfold w; lia.
  - destruct (wake_cpus_served uaddr bitset uaddr2 wake_count (cpus k)) with (w := 0) as (l' & Hl' & Hs & Hf); [lia..|].
    exists (set_cpus k l'). unfold futex_wake. rewrite Hl'. split; [|by apply each_served].
    rewrite <- Hm. do 2 f_equal. unfold w. lia.
Qed.

(** Three waiters on two processors: one is woken and one moved. *)
Definition waiting_cpus : kernel :=
  on_cpus (Some (queue [sample_task 1 1 None Runnable 5; sample_task 2 2 None (FutexWait 0x1000 0xffffffff) 5]) ::
           Some (queue [sample_task 3 3 None (FutexWait 0x1000 0xffffffff) 5; sample_task 4 4 None (FutexWait 0x1000 0xffffffff) 5]) :: replicate 6 None).
Lemma waiting_cpus_private : private_futex 7 0x1000 waiting_cpus.
Proof.
  intros t b Ht Hs. assert (Forall (in_space 7) (all_queued (cpus waiting_cpus))) as Hall
    by (repeat constructor). by eapply Forall_forall in Ht.
Qed.
Lemma futex_exact_witness :
  ∃ k', futex_requeue 0x1000 1 0xffffffff 0x2000 1 waiting_cpus = (k', Ok (1, 1)) ∧
    (state <$> all_queued (cpus k')) = [Runnable; Runnable; FutexWait 0x2000 0xffffffff; FutexWait 0x1000 0xffffffff].
Proof.
  destruct (futex_exact waiting_cpus 7 0x1000 1 0xffffffff 0x2000 1 waiting_cpus_private) as [(k' & He & _) _]; [lia..|].
  exists k'. split; [exact He|].
  assert (all_queued (cpus k') = all_queued (cpus (futex_requeue 0x1000 1 0xffffffff 0x2000 1 waiting_cpus).1)) as -> by (by rewrite He). by vm_compute.
Defined.

(** The address is the only key: a waiter of another process with the same
    virtual address takes the wake-up, which TEST_INFRA.md (4.3, case 3)
    excludes. *)
Definition other_process : Process := {| address_space := 8; personality := LinuxX86_64Static; entry := 0x400000; user_stack_top := 0x7fff0000 |}.
Lemma futex_wakes_other_process :
  let k := on_one [sample_task 1 1 None Runnable 5; set_process (sample_task 9 9 None (FutexWait 0x1000 0xffffffff) 5) (Some other_process);
                   sample_task 2 1 None (FutexWait 0x1000 0xffffffff) 5] in
  (λ t, (tid t, address_space <$> process t, state t)) <$> all_queued (cpus (futex_wake 0x1000 1 0xffffffff k).1) =
    [(1, Some 7, Runnable); (9, Some 8, Runnable); (2, Some 7, FutexWait 0x1000 0xffffffff)].
Proof. vm_compute. reflexivity. Qed.
