(* ===== verification/PageTable.v ===== *)
(** * Page tables ([rust/kernel/src/paging.rs])

    The four-level tables in physical memory: the walk, mapping and unmapping,
    protection, new address spaces, copies that share their pages until they
    are written, and the release of a space.  Memory is a function from
    physical addresses to bytes, reached through the direct map.  The caches
    of translations that [flush_if_active] keeps coherent are not represented.
    Each operation is one step; the locks of single frames are held within. *)

From stdpp Require Import gmap gmultiset.
From S2P Require Import Prelude Words Vfs Frames SharedFrames Swap.

Definition PAGE_SIZE : Z := 4096.
Definition HUGE_PAGE : Z := Z.shiftl 1 7.
Definition ADDRESS_MASK_2M : Z := 0x000fffffffe00000.
Definition ADDRESS_MASK_1G : Z := 0x000fffc000000000.

Record Translation := { physical_address : Z; page_size : Z }.
Record PteLocation := { table_phys : Z; pte_index : Z }.

(** ** Memory *)

Definition store (m : Z → Z) (a : Z) (bs : list Z) : Z → Z :=
  λ x, if (a <=? x) && (x <? a + zlen bs) then default 0 (bs !! Z.to_nat (x - a)) else m x.
Definition read_u64 (m : Z → Z) (a : Z) : Z := from_le (m <$> seqZ a 8).
Definition write_u64 (m : Z → Z) (a v : Z) : Z → Z := store m a (to_le 8 v).
(** [ptr::write_bytes(page, 0, PAGE_SIZE)] and [ptr::copy_nonoverlapping]. *)
Definition zero_page (m : Z → Z) (f : Z) : Z → Z := λ x, if (f <=? x) && (x <? f + PAGE_SIZE) then 0 else m x.
Definition copy_page (m : Z → Z) (src dst : Z) : Z → Z := λ x, if (dst <=? x) && (x <? dst + PAGE_SIZE) then m (src + (x - dst)) else m x.

Definition index_pml4 (address : Z) : Z := Z.land (Z.shiftr address 39) 0x1ff.
Definition index_pdpt (address : Z) : Z := Z.land (Z.shiftr address 30) 0x1ff.
Definition index_pd (address : Z) : Z := Z.land (Z.shiftr address 21) 0x1ff.
Definition index_pt (address : Z) : Z := Z.land (Z.shiftr address 12) 0x1ff.

Section paging.
Context {A : Type} {FA : FrameAllocator A} {SF : SharedFrames A}.
(** [HHDM_OFFSET] and the register that holds the active space. *)
Context (hhdm : option Z) (cr3 : Z).

Record machine := { ram : Z → Z; pool : A; swap_slots : SwapManager }.
Definition set_ram (s : machine) (m : Z → Z) : machine := {| ram := m; pool := pool s; swap_slots := swap_slots s |}.
Definition set_pool (s : machine) (a : A) : machine := {| ram := ram s; pool := a; swap_slots := swap_slots s |}.
Definition set_swap_slots (s : machine) (w : SwapManager) : machine := {| ram := ram s; pool := pool s; swap_slots := w |}.

Abbreviation P := (M machine MapError).

Definition read_entry (s : machine) (table index : Z) : option Z :=
  v ← phys_to_virt hhdm table;
  _ ← checked_add 64 v (index * 8);
  Some (read_u64 (ram s) (table + index * 8)).
Definition write_entry (s : machine) (table index value : Z) : option machine :=
  v ← phys_to_virt hhdm table;
  _ ← checked_add 64 v (index * 8);
  Some (set_ram s (write_u64 (ram s) (table + index * 8) value)).

(** [read_entry(..).ok_or(MapError::NoHhdm)?] and
    [if !write_entry(..) { return Err(MapError::NoHhdm) }] *)
Definition entry_at (table index : Z) : P Z := λ s, (s, ok_or NoHhdm (read_entry s table index)).
Definition set_entry (table index value : Z) : P unit := λ s,
  match write_entry s table index value with Some s => (s, Ok ()) | None => (s, Err NoHhdm) end.
Definition take_frame : P Z := λ s,
  match alloc_frame (pool s) with (a, Some f) => (set_pool s a, Ok f) | (a, None) => (set_pool s a, Err OutOfMemory) end.
(** [memory::free_frame]: whether the frame was released. *)
Definition give_frame (f : Z) : P bool := λ s, let '(a, b) := free_frame (pool s) f in (set_pool s a, Ok b).
Definition direct_map (f : Z) : P Z := λ s, (s, ok_or NoHhdm (phys_to_virt hhdm f)).

Definition allocate_table : P Z :=
  f ← take_frame;
  _ ← direct_map f;
  _ ← modify (λ s, set_ram s (zero_page (ram s) f));
  mret f.

(** ** Walks *)

Definition translate_in (s : machine) (space address : Z) : option Translation :=
  e4 ← read_entry s space (index_pml4 address);
  if Z.land e4 PRESENT =? 0 then None else
  e3 ← read_entry s (Z.land e4 ADDRESS_MASK) (index_pdpt address);
  if Z.land e3 PRESENT =? 0 then None else
  if negb (Z.land e3 HUGE_PAGE =? 0) then
    Some {| physical_address := Z.lor (Z.land e3 ADDRESS_MASK_1G) (Z.land address (2 ^ 30 - 1)); page_size := 2 ^ 30 |} else
  e2 ← read_entry s (Z.land e3 ADDRESS_MASK) (index_pd address);
  if Z.land e2 PRESENT =? 0 then None else
  if negb (Z.land e2 HUGE_PAGE =? 0) then
    Some {| physical_address := Z.lor (Z.land e2 ADDRESS_MASK_2M) (Z.land address (2 ^ 21 - 1)); page_size := 2 ^ 21 |} else
  e1 ← read_entry s (Z.land e2 ADDRESS_MASK) (index_pt address);
  if Z.land e1 PRESENT =? 0 then None else
  Some {| physical_address := Z.lor (Z.land e1 ADDRESS_MASK) (Z.land address (PAGE_SIZE - 1)); page_size := PAGE_SIZE |}.

(** The table below an entry; a missing one is made if [create] is set. *)
Definition next_table (create user : bool) (table index : Z) : P (option Z) :=
  e ← entry_at table index;
  if Z.land e PRESENT =? 0 then
    if negb create then mret None else
    new ← allocate_table;
    _ ← set_entry table index (Z.lor new (Z.lor (Z.lor PRESENT MAP_WRITABLE) (if user then MAP_USER else 0)));
    mret (Some new)
  else if negb (Z.land e HUGE_PAGE =? 0) then fail HugePageConflict
  else mret (Some (Z.land e ADDRESS_MASK)).
Fixpoint walk (create user : bool) (table : Z) (levels : list Z) : P (option Z) :=
  match levels with
  | [] => mret (Some table)
  | i :: levels =>
    o ← next_table create user table i;
    match o with Some t => walk create user t levels | None => mret None end
  end.
Definition pte_location (space address : Z) (create user : bool) : P (option PteLocation) :=
  o ← walk create user space [index_pml4 address; index_pdpt address; index_pd address];
  mret (match o with Some t => Some {| table_phys := t; pte_index := index_pt address |} | None => None end).

Definition flags_in (s : machine) (space address : Z) : option Z :=
  match pte_location space address false false s with
  | (_, Ok (Some l)) =>
    e ← read_entry s (table_phys l) (pte_index l);
    if Z.land e PRESENT =? 0 then None else Some (Z.land e (bnot 64 ADDRESS_MASK))
  | _ => None
  end.

(** ** Mappings *)

Definition unaligned (a : Z) : bool := negb (Z.land a (PAGE_SIZE - 1) =? 0).

Definition map (space virtual physical flags : Z) : P unit :=
  if unaligned virtual || unaligned physical then fail UnalignedAddress else
  o ← pte_location space virtual true (negb (Z.land flags MAP_USER =? 0));
  l ← lift (ok_or NoHhdm o);
  e ← entry_at (table_phys l) (pte_index l);
  if negb (Z.land e PRESENT =? 0) then fail AlreadyMapped else
  set_entry (table_phys l) (pte_index l) (Z.lor (Z.lor (Z.land physical ADDRESS_MASK) flags) PRESENT).

Definition unmap (space virtual : Z) : P (option Z) :=
  if unaligned virtual then fail UnalignedAddress else
  o ← pte_location space virtual false false;
  match o with
  | None => mret None
  | Some l =>
    e ← entry_at (table_phys l) (pte_index l);
    if Z.land e PRESENT =? 0 then
      _ ← (if negb (Z.land e MAP_SWAPPED =? 0) then
             _ ← modify (λ s, set_swap_slots s (free_slot (swap_slots s) (u32 (Z.land (Z.shiftr e 12) 0xfffff))));
             modify (λ s, default s (write_entry s (table_phys l) (pte_index l) 0))
           else mret () : P unit);
      mret None
    else
      _ ← set_entry (table_phys l) (pte_index l) 0;
      mret (Some (Z.land e ADDRESS_MASK))
  end.

(** One page of [protect]; pages that are not mapped are passed over. *)
Definition protect_page (space flags page : Z) : P unit :=
  o ← pte_location space page false false;
  match o with
  | None => mret ()
  | Some l =>
    s ← get;
    match read_entry s (table_phys l) (pte_index l) with
    | None => mret ()
    | Some e =>
      if Z.land e PRESENT =? 0 then mret ()
      else set_entry (table_phys l) (pte_index l) (Z.lor (Z.lor (Z.land e ADDRESS_MASK) flags) PRESENT)
    end
  end.
Fixpoint protect_from (space virtual flags index : Z) (pages : nat) : P unit :=
  match pages with
  | O => mret ()
  | S n =>
    page ← lift (ok_or UnalignedAddress (checked_add 64 virtual (u64 (index * PAGE_SIZE))));
    _ ← protect_page space flags page;
    protect_from space virtual flags (index + 1) n
  end.
Definition protect (space virtual : Z) (pages : nat) (flags : Z) : P unit :=
  if unaligned virtual then fail UnalignedAddress else protect_from space virtual flags 0 pages.

(** ** Address spaces *)

Fixpoint copy_entries (from to : Z) (l : list Z) : P unit :=
  match l with
  | [] => mret ()
  | i :: l => e ← entry_at from i; _ ← set_entry to i e; copy_entries from to l
  end.
Definition create_address_space : P Z :=
  pml4 ← allocate_table;
  _ ← copy_entries cr3 pml4 (seqZ 256 256);
  mret pml4.

(** Whether an entry at or below a table maps a page. *)
Fixpoint any_entry (f : Z → P bool) (table : Z) (l : list Z) : P bool :=
  match l with
  | [] => mret false
  | i :: l =>
    e ← entry_at table i;
    if Z.land e PRESENT =? 0 then any_entry f table l else
    b ← f e;
    if (b : bool) then mret true else any_entry f table l
  end.
Fixpoint contains_leaf_mapping (level : nat) (table : Z) : P bool :=
  any_entry (λ e,
    match level with
    | S (S _ as level') => if negb (Z.land e HUGE_PAGE =? 0) then mret true else contains_leaf_mapping level' (Z.land e ADDRESS_MASK)
    | _ => mret true
    end) table (seqZ 0 512).

(** Each present entry is cleared and given to [f], which counts what it frees. *)
Fixpoint clear_entries (f : Z → P Z) (table : Z) (l : list Z) (freed : Z) : P Z :=
  match l with
  | [] => mret freed
  | i :: l =>
    e ← entry_at table i;
    if Z.land e PRESENT =? 0 then clear_entries f table l freed else
    _ ← set_entry table i 0;
    n ← f e;
    clear_entries f table l (freed + n)
  end.
Definition release_table (n : Z) (f : Z) : P Z :=
  b ← give_frame f;
  if negb b then fail FrameReleaseFailed else mret (n + 1).
Fixpoint destroy_table (level : nat) (table : Z) : P Z :=
  clear_entries (λ e,
    match level with
    | S (S _ as level') =>
      if negb (Z.land e HUGE_PAGE =? 0) then _ ← give_frame (Z.land e ADDRESS_MASK); mret 1
      else n ← destroy_table level' (Z.land e ADDRESS_MASK); release_table n (Z.land e ADDRESS_MASK)
    | _ => _ ← give_frame (Z.land e ADDRESS_MASK); mret 1
    end) table (seqZ 0 512) 0.

Definition destroy_address_space (space : Z) : P Z :=
  if space =? cr3 then fail ActiveAddressSpace else
  b ← any_entry (λ e, if negb (Z.land e HUGE_PAGE =? 0) then mret true else contains_leaf_mapping 3 (Z.land e ADDRESS_MASK)) space (seqZ 0 256);
  if (b : bool) then fail MappingsRemain else
  freed ← clear_entries (λ e, n ← destroy_table 3 (Z.land e ADDRESS_MASK); release_table n (Z.land e ADDRESS_MASK)) space (seqZ 0 256) 0;
  b ← give_frame space;
  if negb b then fail FrameReleaseFailed else mret (freed + 1).

(** ** Copies that share their pages *)

(** A writable page becomes read-only and copied on write in both spaces. *)
Definition cow_flags (flags : Z) : Z :=
  if negb (Z.land flags MAP_WRITABLE =? 0) then Z.lor (Z.land flags (bnot 64 MAP_WRITABLE)) MAP_COW else flags.

(** [if let Err(e) = ..] *)
Definition catch {B} (m : P B) : P (B + MapError) := λ s,
  match m s with (s, Ok b) => (s, Ok (inl b)) | (s, Err e) => (s, Ok (inr e)) | (s, Panic) => (s, Panic) end.
Definition ignore {B} (m : P B) : P unit := _ ← catch m; mret ().

Fixpoint undo_clone (space : Z) (pages : list (Z * Z)) : P unit :=
  match pages with
  | [] => mret ()
  | (va, _) :: pages =>
    o ← catch (unmap space va);
    _ ← (match o with inl (Some f) => _ ← give_frame f; mret () | _ => mret () end : P unit);
    undo_clone space pages
  end.

Definition clone_page (new table index address : Z) (pages : list (Z * Z)) : P (list (Z * Z)) :=
  e ← entry_at table index;
  if Z.land e PRESENT =? 0 then mret pages else
  let phys := Z.land e ADDRESS_MASK in
  let flags := Z.land e (bnot 64 ADDRESS_MASK) in
  _ ← modify (λ s, set_pool s (frame_ref_inc (pool s) phys));
  r ← catch (map new address phys (cow_flags flags));
  match r with
  | inr err =>
    _ ← give_frame phys;
    _ ← undo_clone new pages;
    _ ← ignore (destroy_address_space new);
    fail err
  | inl _ =>
    _ ← (if negb (Z.land flags MAP_WRITABLE =? 0) then
           modify (λ s, default s (write_entry s table index (Z.lor (Z.lor phys (cow_flags flags)) PRESENT)))
         else mret () : P unit);
    mret (pages ++ [(address, phys)])
  end.

Fixpoint clone_entries (f : Z → Z → list (Z * Z) → P (list (Z * Z))) (l : list Z) (table : Z) (pages : list (Z * Z)) : P (list (Z * Z)) :=
  match l with
  | [] => mret pages
  | i :: l => pages ← f table i pages; clone_entries f l table pages
  end.
(** The entries of an inner table; absent and huge ones are passed over. *)
Definition clone_below (huge : bool) (f : Z → list (Z * Z) → P (list (Z * Z))) (table index : Z) (pages : list (Z * Z)) : P (list (Z * Z)) :=
  e ← entry_at table index;
  if (Z.land e PRESENT =? 0) || (huge && negb (Z.land e HUGE_PAGE =? 0)) then mret pages
  else f (Z.land e ADDRESS_MASK) pages.
Definition sign_extend (a : Z) : Z := if negb (Z.land a (2 ^ 47) =? 0) then Z.lor a 0xffff000000000000 else a.
Definition address_of (i4 i3 i2 i1 : Z) : Z :=
  Z.lor (Z.lor (Z.lor (Z.shiftl i4 39) (Z.shiftl i3 30)) (Z.shiftl i2 21)) (Z.shiftl i1 12).

Definition clone_user_address_space (src : Z) : P (Z * list (Z * Z)) :=
  new ← create_address_space;
  pages ← clone_entries (λ t4 i4, clone_below false (λ t3, clone_entries (λ t3 i3, clone_below true (λ t2, clone_entries (λ t2 i2, clone_below true (λ t1,
      clone_entries (λ t1 i1 pages, clone_page new t1 i1 (sign_extend (address_of i4 i3 i2 i1)) pages) (seqZ 0 512) t1) t2 i2)
      (seqZ 0 512) t2) t3 i3) (seqZ 0 512) t3) t4 i4) (seqZ 0 256) src [];
  mret (new, pages).

Definition resolve_cow_page (space address : Z) : P bool :=
  let page := page_of address in
  o ← pte_location space page false false;
  match o with
  | None => mret false
  | Some l =>
    e ← entry_at (table_phys l) (pte_index l);
    if (Z.land e PRESENT =? 0) || (Z.land e MAP_COW =? 0) then mret false else
    let old := Z.land e ADDRESS_MASK in
    (* the lock of the frame is taken here *)
    e ← entry_at (table_phys l) (pte_index l);
    if (Z.land e PRESENT =? 0) || (Z.land e MAP_COW =? 0) then mret true else
    let flags := Z.lor (Z.land (Z.land e (bnot 64 ADDRESS_MASK)) (bnot 64 MAP_COW)) MAP_WRITABLE in
    s ← get;
    if frame_refcount (pool s) old <=? 1 then
      _ ← set_entry (table_phys l) (pte_index l) (Z.lor old flags);
      mret true
    else
      new ← take_frame;
      _ ← direct_map old;
      _ ← direct_map new;
      _ ← modify (λ s, set_ram s (copy_page (ram s) old new));
      _ ← give_frame old;
      _ ← set_entry (table_phys l) (pte_index l) (Z.lor (Z.land new ADDRESS_MASK) flags);
      mret true
  end.
End paging.
