(* ===== verification/PageTableTree.v ===== *)
(** * The tree of page tables

    Entries of tables in memory, the tables of an address space as a map from
    the indices that lead to them, and the walk through them. *)

From stdpp Require Import gmap gmultiset.
From S2P Require Import Prelude Words Vfs Frames SharedFrames Swap SwapSlots SwapSpec PageTable.

(** ** Bytes and entries *)

Definition ram_ok (m : Z → Z) : Prop := ∀ x, 0 ≤ m x < 256.
Definition is_frame (f : Z) : Prop := 0 ≤ f < 2 ^ 36 ∧ f mod 4096 = 0.
(** The frames [f] and [g] are the same or do not overlap. *)
Lemma frames_apart f g : is_frame f → is_frame g → f ≠ g → f + 4096 ≤ g ∨ g + 4096 ≤ f.
Proof. intros [? Hf] [? Hg] Hne. apply Z.mod_divide in Hf as [a ->]; [|done]. apply Z.mod_divide in Hg as [b ->]; [|done]. lia. Qed.

(** Two memories hold the same in a frame. *)
Definition same_frame (f : Z) (m m' : Z → Z) : Prop := ∀ x, f ≤ x < f + 4096 → m' x = m x.
Lemma same_frame_refl f m : same_frame f m m.
Proof. done. Qed.
Lemma same_frame_trans f m m' m'' : same_frame f m m' → same_frame f m' m'' → same_frame f m m''.
Proof. intros H1 H2 x Hx. by rewrite H2, H1. Qed.

Definition entry (m : Z → Z) (t i : Z) : Z := read_u64 m (t + i * 8).

Lemma read_u64_ext m m' a : (∀ x, a ≤ x < a + 8 → m' x = m x) → read_u64 m' a = read_u64 m a.
Proof. intros H. unfold read_u64. f_equal. apply list_fmap_ext. intros i x Hx. apply lookup_seqZ in Hx as [-> ?]. apply H. lia. Qed.
Lemma entry_same t i m m' : same_frame t m m' → 0 ≤ i < 512 → entry m' t i = entry m t i.
Proof. intros H Hi. apply read_u64_ext. intros x Hx. apply H. lia. Qed.

Lemma store_out m a bs x : x < a ∨ a + zlen bs ≤ x → store m a bs x = m x.
Proof. intros H. unfold store. destruct (Z.leb_spec a x), (Z.ltb_spec x (a + zlen bs)); cbn; try done; lia. Qed.
Lemma store_in m a bs i : 0 ≤ i < zlen bs → store m a bs (a + i) = default 0 (bs !! Z.to_nat i).
Proof. intros H. unfold store. rewrite (proj2 (Z.leb_le _ _)), (proj2 (Z.ltb_lt _ _)) by lia. cbn. by replace (a + i - a) with i by lia. Qed.
Lemma read_write m a v : is_u 64 v → read_u64 (write_u64 m a v) a = v.
Proof.
  intros Hv. rewrite <-(from_to_le_small 8 v) at 2 by done. unfold read_u64, write_u64. f_equal. apply list_eq. intros i.
  rewrite list_lookup_fmap. destruct (decide (i < 8)%nat) as [Hi|Hi].
  - rewrite lookup_seqZ_lt by lia. cbn [fmap option_fmap option_map]. rewrite store_in by (rewrite length_to_le; lia).
    rewrite Nat2Z.id. destruct (lookup_lt_is_Some_2 (to_le 8 v) i) as [b ->]; [by rewrite length_to_le|done].
  - rewrite lookup_seqZ_ge by lia. symmetry. apply lookup_ge_None. rewrite length_to_le. lia.
Qed.
Lemma entry_write_eq m t i v : is_u 64 v → entry (write_u64 m (t + i * 8) v) t i = v.
Proof. apply read_write. Qed.
Lemma write_out m a v x : x < a ∨ a + 8 ≤ x → write_u64 m a v x = m x.
Proof. intros H. apply store_out. by rewrite length_to_le. Qed.
Lemma entry_write_ne m t i v t' j : is_frame t → is_frame t' → 0 ≤ i < 512 → 0 ≤ j < 512 → (t, i) ≠ (t', j) →
  entry (write_u64 m (t + i * 8) v) t' j = entry m t' j.
Proof.
  intros Ht Ht' Hi Hj Hne. apply read_u64_ext. intros x Hx. apply write_out. destruct (decide (t = t')) as [->|Htt].
  - assert (i ≠ j) by congruence. lia.
  - destruct (frames_apart t t') as [?|?]; [done..|lia|lia].
Qed.
Lemma write_same_frame m t i v f : is_frame t → is_frame f → 0 ≤ i < 512 → f ≠ t → same_frame f m (write_u64 m (t + i * 8) v).
Proof. intros Ht Hf Hi Hne x Hx. apply write_out. destruct (frames_apart f t) as [?|?]; [done..|lia|lia]. Qed.
Lemma zero_same_frame m f g : is_frame f → is_frame g → f ≠ g → same_frame g m (zero_page m f).
Proof.
  intros Hf Hg Hne x Hx. unfold zero_page, PAGE_SIZE. destruct (frames_apart f g) as [?|?]; [done..| |];
    destruct (Z.leb_spec f x), (Z.ltb_spec x (f + 4096)); cbn; try done; lia.
Qed.
Lemma entry_zero m f i : 0 ≤ i < 512 → entry (zero_page m f) f i = 0.
Proof.
  intros Hi. unfold entry. rewrite <-(read_write m (f + i * 8) 0) by done. apply read_u64_ext. intros x Hx. unfold zero_page, PAGE_SIZE.
  rewrite (proj2 (Z.leb_le _ _)), (proj2 (Z.ltb_lt _ _)) by lia. cbn [andb]. unfold write_u64. replace x with (f + i * 8 + (x - (f + i * 8))) by lia.
  rewrite store_in by (rewrite length_to_le; lia). change (to_le 8 0) with (replicate 8 0). rewrite lookup_replicate_2; [done|lia].
Qed.

Lemma ram_ok_store m a bs : ram_ok m → Forall (λ b, 0 ≤ b < 256) bs → ram_ok (store m a bs).
Proof.
  intros Hm Hbs x. unfold store. case_match; [|done]. destruct (bs !! Z.to_nat (x - a)) as [b|] eqn:Hb; cbn; [|lia]. exact (Forall_lookup_1 _ _ _ _ Hbs Hb).
Qed.
Lemma ram_ok_write m a v : ram_ok m → ram_ok (write_u64 m a v).
Proof. intros Hm. apply ram_ok_store; [done|]. exact (to_le_bytes 8 v). Qed.
Lemma ram_ok_zero m f : ram_ok m → ram_ok (zero_page m f).
Proof. intros Hm x. unfold zero_page. case_match; [lia|apply Hm]. Qed.
Lemma ram_ok_copy m f g : ram_ok m → ram_ok (copy_page m f g).
Proof. intros Hm x. unfold copy_page. case_match; apply Hm. Qed.
Lemma entry_u64 m t i : ram_ok m → is_u 64 (entry m t i).
Proof.
  intros Hm. unfold entry, read_u64. pose proof (from_le_range (m <$> seqZ (t + i * 8) 8)) as H. rewrite length_fmap, length_seqZ in H. apply H.
  apply Forall_fmap, Forall_true. intros x. apply Hm.
Qed.

(** Entries that point to a table. *)
Definition is_huge (e : Z) : bool := negb (Z.land e HUGE_PAGE =? 0).
Definition points_to (e t : Z) : Prop := is_present e = true ∧ is_huge e = false ∧ frame_of e = t.
Lemma frame_below t : is_frame t → 0 ≤ t < 2 ^ 52 ∧ t mod 4096 = 0.
Proof. intros [? ?]. split; [lia|done]. Qed.

(** Flags: a word without address bits. *)
Definition is_flags (fl : Z) : Prop := is_u 64 fl ∧ Z.land fl ADDRESS_MASK = 0.
Lemma flags_bit fl i : is_flags fl → 12 ≤ i < 52 → Z.testbit fl i = false.
Proof.
  intros [_ H] Hi. assert (Z.testbit (Z.land fl ADDRESS_MASK) i = false) as Hb by (rewrite H; apply Z.bits_0).
  rewrite Z.land_spec, address_mask_bits, bool_decide_true, andb_true_r in Hb by lia. done.
Qed.
Lemma frame_bit f i : is_frame f → 0 ≤ i → ¬ 12 ≤ i < 52 → Z.testbit f i = false.
Proof. intros Hf. destruct (frame_below f Hf). by apply aligned_bits. Qed.
Lemma land_mask_frame f : is_frame f → Z.land f ADDRESS_MASK = f.
Proof.
  intros Hf. apply Z.bits_inj'. intros i Hi. rewrite Z.land_spec, address_mask_bits by lia. case_bool_decide; [by rewrite andb_true_r|].
  rewrite andb_false_r. symmetry. by apply frame_bit.
Qed.

(** The bits of an entry that combines a frame with flags. *)
Lemma combine_bits f fl i : is_frame f → is_flags fl → 0 ≤ i → Z.testbit (Z.lor f fl) i = if bool_decide (12 ≤ i < 52) then Z.testbit f i else Z.testbit fl i.
Proof.
  intros Hf Hfl Hi. rewrite Z.lor_spec. case_bool_decide; [by rewrite (flags_bit fl), orb_false_r|]. by rewrite (frame_bit f).
Qed.
Lemma frame_of_combine f fl : is_frame f → is_flags fl → frame_of (Z.lor f fl) = f.
Proof.
  intros Hf Hfl. unfold frame_of. apply Z.bits_inj'. intros i Hi. rewrite Z.land_spec, combine_bits, address_mask_bits by done.
  case_bool_decide; [by rewrite andb_true_r|]. rewrite andb_false_r. symmetry. by apply frame_bit.
Qed.
(** A flag bit of the entry is that of the flags. *)
Lemma flag_combine f fl k : is_frame f → is_flags fl → 0 ≤ k < 12 ∨ k = 63 → Z.testbit (Z.lor f fl) k = Z.testbit fl k.
Proof. intros Hf Hfl Hk. rewrite combine_bits by (done || lia). by rewrite bool_decide_false by lia. Qed.
Lemma combine_u64 f fl : is_frame f → is_flags fl → is_u 64 (Z.lor f fl).
Proof. intros [? _] [? _]. apply is_u_lor; [lia| |done]. unfold is_u. lia. Qed.
Lemma flags_lor a b : is_flags a → is_flags b → is_flags (Z.lor a b).
Proof. intros [Ha Ha'] [Hb Hb']. split; [by apply is_u_lor|]. by rewrite Z.land_lor_distr_l, Ha', Hb'. Qed.
Lemma flags_land a b : is_flags a → is_flags (Z.land a b).
Proof. intros [Ha Ha']. split; [by apply is_u_land|]. by rewrite <-Z.land_assoc, (Z.land_comm b), Z.land_assoc, Ha', Z.land_0_l. Qed.
Lemma bit_flags k : 0 ≤ k < 12 ∨ k = 63 → is_flags (Z.shiftl 1 k).
Proof.
  intros Hk. rewrite Z.shiftl_1_l. split.
  - split; [lia|]. apply Z.pow_lt_mono_r; lia.
  - apply Z.bits_inj'. intros i Hi. rewrite Z.land_spec, Z.bits_0, Z.pow2_bits_eqb, address_mask_bits by lia.
    case_bool_decide; [|apply andb_false_r]. destruct (Z.eqb_spec k i); [lia|done].
Qed.
Lemma flags_of_entry e : is_u 64 e → is_flags (Z.land e (bnot 64 ADDRESS_MASK)).
Proof.
  intros He. split; [by apply is_u_land|]. apply Z.bits_inj'. intros i Hi. rewrite !Z.land_spec, bnot_testbit, Z.bits_0 by lia.
  by destruct (Z.testbit ADDRESS_MASK i); rewrite ?andb_false_r.
Qed.

Create HintDb flags.
#[export] Hint Resolve flags_lor flags_land : flags.

(** ** Sums of frames over a map *)

Definition msum {K V} `{Countable K} (f : V → gmultiset Z) (m : gmap K V) : gmultiset Z := map_fold (λ _ v acc, f v ⊎ acc) ∅ m.
Section msum.
Context {K V : Type} `{Countable K} (f : V → gmultiset Z).
Implicit Types m : gmap K V.
Lemma msum_empty : msum f (∅ : gmap K V) = ∅.
Proof. apply map_fold_empty. Qed.
Lemma msum_insert m k v : m !! k = None → msum f (<[k := v]> m) = f v ⊎ msum f m.
Proof.
  intros Hk. unfold msum. apply (map_fold_insert_L (λ _ v acc, f v ⊎ acc)); [|done]. intros _ _ x y acc _ _ _. rewrite !(assoc_L (⊎)). f_equal. apply (comm_L (⊎)).
Qed.
Lemma msum_delete m k v : m !! k = Some v → msum f m = f v ⊎ msum f (delete k m).
Proof. intros Hk. rewrite <-(msum_insert _ k) by apply lookup_delete_eq. by rewrite insert_delete_id. Qed.
Lemma msum_replace m k v v' : m !! k = Some v → msum f (<[k := v']> m) = f v' ⊎ msum f (delete k m).
Proof. intros Hk. by rewrite <-insert_delete_eq, msum_insert by apply lookup_delete_eq. Qed.
Lemma elem_of_msum m x : x ∈ msum f m ↔ ∃ k v, m !! k = Some v ∧ x ∈ f v.
Proof.
  induction m as [|k v m Hk IH] using map_ind.
  - rewrite msum_empty. split; [by intros ?%gmultiset_elem_of_empty|]. intros (k & v & Hk & _). by rewrite lookup_empty in Hk.
  - rewrite msum_insert by done. rewrite gmultiset_elem_of_disj_union, IH. split.
    + intros [Hx|(k' & v' & Hk' & Hx)]; [exists k, v; by rewrite lookup_insert_eq|]. exists k', v'. rewrite lookup_insert_ne; [done|congruence].
    + intros (k' & v' & Hk' & Hx). destruct (decide (k = k')) as [->|]; [rewrite lookup_insert_eq in Hk'; injection Hk' as ->; by left|].
      rewrite lookup_insert_ne in Hk' by done. right. by exists k', v'.
Qed.
End msum.

(** ** The tree *)

Definition path_ok (p : list Z) : Prop := (length p ≤ 3)%nat ∧ Forall (λ i, 0 ≤ i < 512) p ∧ ∀ i, p !! 0%nat = Some i → i < 256.
Lemma path_ok_prefix p l : path_ok (p ++ l) → path_ok p.
Proof.
  intros (Hl & Hf & H0). rewrite length_app in Hl. apply Forall_app in Hf as [Hf _]. split_and!; [lia|done|].
  intros i Hi. apply H0. by apply lookup_app_l_Some.
Qed.
Lemma path_ok_last p i : path_ok (p ++ [i]) → 0 ≤ i < 512 ∧ (length p < 3)%nat.
Proof. intros (Hl & Hf & _). rewrite length_app in Hl. cbn in Hl. apply Forall_app in Hf as [_ Hf]. rewrite Forall_singleton in Hf. split; [done|lia]. Qed.

(** The tables of the user half: [T] gives the table the indices lead to. *)
Record tree (m : Z → Z) (root : Z) (T : gmap (list Z) Z) : Prop := {
  tr_root : T !! [] = Some root;
  tr_path p t : T !! p = Some t → path_ok p ∧ is_frame t;
  tr_inj p q t : T !! p = Some t → T !! q = Some t → p = q;
  tr_up p i : is_Some (T !! (p ++ [i])) → is_Some (T !! p);
  tr_entry p t i : T !! p = Some t → path_ok (p ++ [i]) →
    match T !! (p ++ [i]) with Some t' => points_to (entry m t i) t' | None => is_present (entry m t i) = false end }.

Definition tables (T : gmap (list Z) Z) : gmultiset Z := msum (λ t, {[+ t +]}) T.
Lemma elem_of_tables T t : t ∈ tables T ↔ ∃ p, T !! p = Some t.
Proof. unfold tables. rewrite elem_of_msum. split; [intros (p & t' & Hp & ->%gmultiset_elem_of_singleton); by exists p|]. intros [p Hp]. exists p, t. split; [done|]. by apply gmultiset_elem_of_singleton. Qed.

(** The entry of a page: the last index in the table of the first three. *)
Definition leaf (m : Z → Z) (T : gmap (list Z) Z) (p : list Z) (i : Z) : Z := match T !! p with Some t => entry m t i | None => 0 end.

Lemma tree_prefix m root T l : tree m root T → ∀ p, is_Some (T !! (p ++ l)) → is_Some (T !! p).
Proof.
  intros HT. induction l as [|i l IH] using rev_ind; intros p Hp; [by rewrite app_nil_r in Hp|]. rewrite app_assoc in Hp. by apply (tr_up _ _ _ HT) in Hp; apply IH.
Qed.
Lemma tree_same m m' root T : tree m root T → (∀ p t, T !! p = Some t → same_frame t m m') → tree m' root T.
Proof.
  intros HT Hs. split; [apply HT..|]. intros p t i Hp Hi. destruct (path_ok_last _ _ Hi) as [Hi' _]. rewrite (entry_same t i m m') by eauto. by eapply tr_entry.
Qed.
(** A change of a last-level table leaves the tree as it is. *)
Lemma tree_leaf m root T p t i v : tree m root T → T !! p = Some t → length p = 3%nat → 0 ≤ i < 512 → tree (write_u64 m (t + i * 8) v) root T.
Proof.
  intros HT Hp Hl Hi. split; [apply HT..|]. intros q u j Hq Hj. destruct (path_ok_last _ _ Hj) as [Hj' Hlt]. destruct (tr_path _ _ _ HT _ _ Hp), (tr_path _ _ _ HT _ _ Hq).
  rewrite entry_write_ne; [by eapply tr_entry|done..|]. intros [= <- ->]. rewrite (tr_inj _ _ _ HT _ _ _ Hq Hp) in Hlt. lia.
Qed.

(** ** Adding a table *)

Definition table_entry (f : Z) (user : bool) : Z := Z.lor f (Z.lor (Z.lor PRESENT MAP_WRITABLE) (if user then MAP_USER else 0)).
Lemma table_flags (user : bool) : is_flags (Z.lor (Z.lor PRESENT MAP_WRITABLE) (if user then MAP_USER else 0)).
Proof. apply flags_lor; [apply flags_lor; apply bit_flags; lia|]. destruct user; [apply bit_flags; lia|done]. Qed.
Lemma table_entry_points f user : is_frame f → points_to (table_entry f user) f ∧ is_u 64 (table_entry f user).
Proof.
  intros Hf. pose proof (table_flags user) as Hfl. split; [|by apply combine_u64]. split_and!.
  - unfold is_present, PRESENT. rewrite land_bit, negb_involutive by lia. unfold table_entry. rewrite flag_combine by (done || lia). by destruct user.
  - unfold is_huge, HUGE_PAGE. rewrite land_bit, negb_involutive by lia. unfold table_entry. rewrite flag_combine by (done || lia). by destruct user.
  - by apply frame_of_combine.
Qed.

Lemma app_last_ne (p : list Z) i : p ++ [i] ≠ p.
Proof. intros H. apply (f_equal length) in H. rewrite length_app in H. cbn [length] in H. lia. Qed.

Section grow.
Context (m : Z → Z) (root : Z) (T : gmap (list Z) Z) (p : list Z) (t i f : Z) (user : bool).
Context (HT : tree m root T) (Hp : T !! p = Some t) (Hi : path_ok (p ++ [i])) (Hnew : T !! (p ++ [i]) = None).
Context (Hf : is_frame f) (Hfresh : ∀ q, T !! q ≠ Some f).
Let m' := write_u64 (zero_page m f) (t + i * 8) (table_entry f user).
Let T' := <[p ++ [i] := f]> T.

Lemma grow_frame g : is_frame g → g ≠ f → g ≠ t → same_frame g m m'.
Proof.
  intros Hg Hgf Hgt. destruct (tr_path _ _ _ HT _ _ Hp) as [_ Ht]. destruct (path_ok_last _ _ Hi). unfold m'.
  eapply same_frame_trans; [by apply (zero_same_frame _ f g)|by apply write_same_frame].
Qed.
Lemma grow_entry q u j : T !! q = Some u → 0 ≤ j < 512 → entry m' u j = if decide (q = p ∧ j = i) then table_entry f user else entry m u j.
Proof.
  intros Hq Hj. destruct (tr_path _ _ _ HT _ _ Hp) as [_ Ht], (tr_path _ _ _ HT _ _ Hq) as [_ Hu]. destruct (path_ok_last _ _ Hi). unfold m'.
  case_decide as Hd.
  - destruct Hd as [-> ->]. assert (u = t) as -> by congruence. apply entry_write_eq, table_entry_points; done.
  - rewrite entry_write_ne; [|done..|].
    + apply entry_same; [|done]. apply zero_same_frame; [done..|]. intros ->. by eapply Hfresh.
    + intros [= -> ->]. apply Hd. split; [|done]. by eapply tr_inj.
Qed.
Lemma grow_new j : 0 ≤ j < 512 → entry m' f j = 0.
Proof.
  intros Hj. destruct (tr_path _ _ _ HT _ _ Hp) as [_ Ht]. destruct (path_ok_last _ _ Hi). unfold m'.
  rewrite entry_write_ne; [by apply entry_zero|done..|]. intros [= -> ->]. by eapply Hfresh.
Qed.
Lemma app_last_inj (q : list Z) j : q ++ [j] = p ++ [i] → q = p ∧ j = i.
Proof. intros [-> [= ->]]%app_inj_2; done. Qed.

Lemma grow_tree : tree m' root T'.
Proof.
  split.
  - unfold T'. rewrite lookup_insert_ne; [apply HT|by destruct p].
  - intros q u. unfold T'. destruct (decide (p ++ [i] = q)) as [<-|]; [rewrite lookup_insert_eq; by intros [= <-]|rewrite lookup_insert_ne by done; apply HT].
  - intros q r u. unfold T'. destruct (decide (p ++ [i] = q)) as [<-|], (decide (p ++ [i] = r)) as [<-|]; rewrite ?lookup_insert_eq, ?lookup_insert_ne by done; try done.
    + intros [= <-] Hr. by destruct (Hfresh r).
    + intros Hq [= <-]. by destruct (Hfresh q).
    + apply HT.
  - intros q j. unfold T'. destruct (decide (p ++ [i] = q ++ [j])) as [He|]; [|rewrite (lookup_insert_ne _ _ (q ++ [j])) by done; intros [u Hu]%(tr_up _ _ _ HT)].
    + symmetry in He. apply app_last_inj in He as [-> ->]. intros _. rewrite lookup_insert_ne; [by eexists|apply app_last_ne].
    + destruct (decide (p ++ [i] = q)) as [<-|]; [rewrite lookup_insert_eq|rewrite lookup_insert_ne by done]; by eexists.
  - intros q u j Hq Hj. destruct (path_ok_last _ _ Hj) as [Hj' Hlt]. unfold T' in Hq |- *. destruct (decide (p ++ [i] = q)) as [<-|Hne].
    + rewrite lookup_insert_eq in Hq. injection Hq as <-. rewrite grow_new by done. rewrite lookup_insert_ne; [|intros H; by apply (app_last_ne (p ++ [i]) j)].
      destruct (T !! ((p ++ [i]) ++ [j])) as [x|] eqn:Hx; [|done]. destruct (tr_up _ _ _ HT (p ++ [i]) j) as [y Hy]; [by eexists|]. congruence.
    + rewrite lookup_insert_ne in Hq by done. rewrite (grow_entry q) by done. case_decide as Hd.
      * destruct Hd as [-> ->]. rewrite lookup_insert_eq. by apply table_entry_points.
      * rewrite lookup_insert_ne; [by eapply tr_entry|]. intros He. symmetry in He. by apply app_last_inj in He.
Qed.

Lemma grow_leaf q j : length q = 3%nat → 0 ≤ j < 512 → leaf m' T' q j = leaf m T q j.
Proof.
  intros Hq Hj. unfold leaf, T'. destruct (decide (p ++ [i] = q)) as [<-|Hne].
  - rewrite lookup_insert_eq, Hnew. by apply grow_new.
  - rewrite lookup_insert_ne by done. destruct (T !! q) as [u|] eqn:Hu; [|done]. rewrite (grow_entry q) by done. rewrite decide_False; [done|]. intros [-> _].
    destruct (path_ok_last _ _ Hi). lia.
Qed.
End grow.

(** ** The walk *)

Section walk.
Context {A : Type} {FA : FrameAllocator A} {SF : SharedFrames A} (hhdm : option Z).
(** The direct map covers the frames. *)
Context (Hhhdm : ∃ h, hhdm = Some h ∧ 0 ≤ h ∧ h + 2 ^ 37 < 2 ^ 64).
Implicit Types s : machine (A := A).

Lemma direct_some f : is_frame f → is_Some (phys_to_virt hhdm f).
Proof. intros [Hf _]. destruct Hhhdm as (h & -> & ? & ?). eexists. apply checked_add_Some. split; [done|]. lia. Qed.
Lemma read_entry_some s t i : is_frame t → 0 ≤ i < 512 → read_entry hhdm s t i = Some (entry (ram s) t i).
Proof.
  intros [Ht _] Hi. destruct Hhhdm as (h & -> & ? & ?). unfold read_entry, phys_to_virt. cbn [mbind option_bind].
  unfold checked_add. rewrite (proj2 (Z.ltb_lt (h + t) _)) by lia. cbn [mbind option_bind]. by rewrite (proj2 (Z.ltb_lt _ _)) by lia.
Qed.
Lemma write_entry_some s t i v : is_frame t → 0 ≤ i < 512 → write_entry hhdm s t i v = Some (set_ram s (write_u64 (ram s) (t + i * 8) v)).
Proof.
  intros [Ht _] Hi. destruct Hhhdm as (h & -> & ? & ?). unfold write_entry, phys_to_virt. cbn [mbind option_bind].
  unfold checked_add. rewrite (proj2 (Z.ltb_lt (h + t) _)) by lia. cbn [mbind option_bind]. by rewrite (proj2 (Z.ltb_lt _ _)) by lia.
Qed.
Lemma entry_at_run s t i : is_frame t → 0 ≤ i < 512 → entry_at hhdm t i s = (s, Ok (entry (ram s) t i)).
Proof. intros. unfold entry_at. by rewrite read_entry_some. Qed.
Lemma set_entry_run s t i v : is_frame t → 0 ≤ i < 512 → set_entry hhdm t i v s = (set_ram s (write_u64 (ram s) (t + i * 8) v), Ok ()).
Proof. intros. unfold set_entry. by rewrite write_entry_some. Qed.

Lemma walk_tree s root T user : tree (ram s) root T → ∀ l p t, T !! p = Some t → path_ok (p ++ l) →
  walk hhdm false user t l s = (s, Ok (T !! (p ++ l))).
Proof.
  intros HT. induction l as [|i l IH]; intros p t Hp Hl; cbn [walk]; [by rewrite app_nil_r, Hp|].
  rewrite (cons_middle i p l), app_assoc in Hl |- *. pose proof (path_ok_prefix _ _ Hl) as Hpi. destruct (path_ok_last _ _ Hpi) as [Hi _]. destruct (tr_path _ _ _ HT _ _ Hp) as [_ Ht].
  unfold mbind, M_bind at 1, next_table, mbind, M_bind at 1. rewrite entry_at_run by done. pose proof (tr_entry _ _ _ HT p t i Hp Hpi) as He.
  destruct (T !! (p ++ [i])) as [t'|] eqn:Ht'.
  - destruct He as (He1 & He2 & He3). unfold is_present, is_huge in *. apply negb_true_iff in He1. rewrite He1, He2. cbn -[walk].
    fold (frame_of (entry (ram s) t i)). rewrite He3. by apply IH.
  - unfold is_present in He. apply negb_false_iff in He. rewrite He. cbn. destruct (T !! ((p ++ [i]) ++ l)) eqn:Hx; [|done].
    destruct (tree_prefix _ _ _ l HT (p ++ [i])) as [? Hy]; [by eexists|congruence].
Qed.

(** Tables that are there are not made again. *)
Lemma walk_there s root T create user : tree (ram s) root T → ∀ l p t, T !! p = Some t → path_ok (p ++ l) → is_Some (T !! (p ++ l)) →
  walk hhdm create user t l s = (s, Ok (T !! (p ++ l))).
Proof.
  intros HT. induction l as [|i l IH]; intros p t Hp Hl Hs; cbn [walk]; [by rewrite app_nil_r, Hp|].
  rewrite (cons_middle i p l), app_assoc in Hl, Hs |- *. pose proof (path_ok_prefix _ _ Hl) as Hpi. destruct (path_ok_last _ _ Hpi) as [Hi _]. destruct (tr_path _ _ _ HT _ _ Hp) as [_ Ht].
  destruct (tree_prefix _ _ _ l HT (p ++ [i]) Hs) as [t' Ht']. pose proof (tr_entry _ _ _ HT p t i Hp Hpi) as He. rewrite Ht' in He. destruct He as (He1 & He2 & He3).
  unfold mbind, M_bind at 1, next_table, mbind, M_bind at 1. rewrite entry_at_run by done. unfold is_present, is_huge in *. apply negb_true_iff in He1. rewrite He1, He2. cbn -[walk].
  fold (frame_of (entry (ram s) t i)). rewrite He3. by apply IH.
Qed.

(** What a space needs of the machine: its tables, owned once and apart from
    the frames [Y] of everything else. *)
Record hosts s (root : Z) (T : gmap (list Z) Z) (Y : gmultiset Z) : Prop := {
  ho_ram : ram_ok (ram s); ho_tree : tree (ram s) root T; ho_owned : owned (pool s) (tables T ⊎ Y);
  ho_apart p t : T !! p = Some t → t ∉ Y }.

(** Only new tables were added. *)
Record grown s (T : gmap (list Z) Z) s' (T' : gmap (list Z) Z) (Y : gmultiset Z) : Prop := {
  gn_sub : T ⊆ T'; gn_slots : swap_slots s' = swap_slots s;
  gn_frame f : f ∈ Y → same_frame f (ram s) (ram s');
  gn_leaf p i : length p = 3%nat → 0 ≤ i < 512 → leaf (ram s') T' p i = leaf (ram s) T p i }.
Lemma grown_refl s T a Y : grown s T (set_pool s a) T Y.
Proof. by split. Qed.
Lemma grown_trans s T s1 T1 s2 T2 Y : grown s T s1 T1 Y → grown s1 T1 s2 T2 Y → grown s T s2 T2 Y.
Proof.
  intros [H1 H2 H3 H4] [I1 I2 I3 I4]. split; [by etransitivity|congruence| |].
  - intros f Hf. eapply same_frame_trans; eauto.
  - intros. by rewrite I4, H4.
Qed.

Lemma hosts_frame s root T Y f : hosts s root T Y → f ∈ Y → is_frame f.
Proof. intros H Hf. apply (owned_address (pool s) (tables T ⊎ Y)); [apply H|]. apply gmultiset_elem_of_disj_union. by right. Qed.

Lemma next_table_grow s root T Y user p t i : hosts s root T Y → T !! p = Some t → path_ok (p ++ [i]) → T !! (p ++ [i]) = None →
  match next_table hhdm true user t i s with
  | (s', Ok o) => ∃ f, o = Some f ∧ hosts s' root (<[p ++ [i] := f]> T) Y ∧ grown s T s' (<[p ++ [i] := f]> T) Y
  | (s', Err e) => e = OutOfMemory ∧ hosts s' root T Y ∧ grown s T s' T Y
  | _ => False
  end.
Proof.
  intros [Hram HT Ho Hap] Hp Hi Hnew. destruct (path_ok_last _ _ Hi) as [Hi' _]. destruct (tr_path _ _ _ HT _ _ Hp) as [_ Ht].
  unfold next_table, mbind, M_bind at 1. rewrite entry_at_run by done. pose proof (tr_entry _ _ _ HT p t i Hp Hi) as He. rewrite Hnew in He.
  unfold is_present in He. apply negb_false_iff in He. rewrite He. cbn [negb]. unfold allocate_table, take_frame, mbind, M_bind.
  destruct (alloc_frame (pool s)) as [a [f|]] eqn:Ha; last first.
  { split; [done|]. split; [|apply grown_refl]. split; [done..|by eapply owned_alloc_none|done]. }
  destruct (owned_alloc_some _ _ _ _ Ho Ha) as [Hf Ho']. assert (is_frame f) as Hff by (apply (owned_address a _ f Ho'); multiset_solver).
  assert (∀ q, T !! q ≠ Some f) as Hfresh by (intros q Hq; apply Hf, gmultiset_elem_of_disj_union; left; apply elem_of_tables; by exists q).
  destruct (direct_some f Hff) as [v Hv]. unfold direct_map. rewrite Hv. cbn [ok_or]. unfold modify. cbn [mret M_ret]. rewrite set_entry_run by done. cbn [ram set_ram set_pool].
  exists f. split; [done|]. split; [split|split].
  - by apply ram_ok_write, ram_ok_zero.
  - by apply grow_tree.
  - cbn. unfold tables. rewrite msum_insert by done. by rewrite <-(assoc_L (⊎)).
  - intros q u. destruct (decide (p ++ [i] = q)) as [<-|]; [rewrite lookup_insert_eq; intros [= <-]; multiset_solver|rewrite lookup_insert_ne by done; apply Hap].
  - by apply insert_subseteq.
  - done.
  - intros g Hg. assert (is_frame g) by (apply (owned_address (pool s) (tables T ⊎ Y)); [done|multiset_solver]).
    eapply grow_frame; [done..| |]; [intros ->; multiset_solver|]. intros ->. by eapply Hap.
  - intros q j Hq Hj. by eapply grow_leaf.
Qed.

Lemma walk_grow root user Y : ∀ l s T p t, hosts s root T Y → T !! p = Some t → path_ok (p ++ l) →
  match walk hhdm true user t l s with
  | (s', Ok o) => ∃ f T', o = Some f ∧ T' !! (p ++ l) = Some f ∧ hosts s' root T' Y ∧ grown s T s' T' Y
  | (s', Err e) => e = OutOfMemory ∧ ∃ T', hosts s' root T' Y ∧ grown s T s' T' Y
  | _ => False
  end.
Proof.
  induction l as [|i l IH]; intros s T p t Hs Hp Hl; cbn [walk].
  { exists t, T. rewrite app_nil_r. by split_and!. }
  rewrite (cons_middle i p l), app_assoc in Hl |- *. pose proof (path_ok_prefix _ _ Hl) as Hpi. destruct (path_ok_last _ _ Hpi) as [Hi _].
  destruct (tr_path _ _ _ (ho_tree _ _ _ _ Hs) _ _ Hp) as [_ Ht]. destruct (T !! (p ++ [i])) as [t'|] eqn:Ht'.
  - pose proof (tr_entry _ _ _ (ho_tree _ _ _ _ Hs) p t i Hp Hpi) as He. rewrite Ht' in He. destruct He as (He1 & He2 & He3).
    unfold mbind, M_bind at 1, next_table, mbind, M_bind at 1. rewrite entry_at_run by done. unfold is_present, is_huge in *. apply negb_true_iff in He1. rewrite He1, He2. cbn -[walk].
    fold (frame_of (entry (ram s) t i)). rewrite He3. by apply IH.
  - pose proof (next_table_grow s root T Y user p t i Hs Hp Hpi Ht') as Hn. unfold mbind, M_bind at 1. destruct (next_table hhdm true user t i s) as [s1 [o|e|]]; [|by destruct Hn as (-> & ? & ?); split; [|exists T]|done].
    destruct Hn as (f & -> & Hs1 & Hg). specialize (IH s1 _ (p ++ [i]) f Hs1 (lookup_insert_eq _ _ _) Hl). destruct (walk hhdm true user f l s1) as [s2 [o|e|]]; [| |done].
    + destruct IH as (f' & T' & -> & HT' & Hs2 & Hg2). exists f', T'. split_and!; try done. by eapply grown_trans.
    + destruct IH as (-> & T' & Hs2 & Hg2). split; [done|]. exists T'. split; [done|]. by eapply grown_trans.
Qed.
End walk.

(** ** Pages *)

Definition user_page (va : Z) : Prop := 0 ≤ va < 2 ^ 47 ∧ va mod 4096 = 0.
Definition path (va : Z) : list Z := [index_pml4 va; index_pdpt va; index_pd va].

Lemma index_div va k : 0 ≤ va → 0 ≤ k → Z.land (Z.shiftr va k) 0x1ff = va / 2 ^ k mod 512.
Proof. intros. change 0x1ff with (2 ^ 9 - 1). by rewrite land_mask, Z.shiftr_div_pow2 by lia. Qed.
Lemma index_range va k : 0 ≤ va → 0 ≤ k → 0 ≤ Z.land (Z.shiftr va k) 0x1ff < 512.
Proof. intros. rewrite index_div by done. apply Z.mod_pos_bound. lia. Qed.
Lemma path_user va : 0 ≤ va < 2 ^ 47 → path_ok (path va) ∧ 0 ≤ index_pt va < 512.
Proof.
  intros Hva. split; [|apply index_range; lia]. split; [done|]. split; [repeat (apply Forall_cons; split; [apply index_range; lia|]); constructor|].
  intros i [= <-]. unfold index_pml4. rewrite index_div by lia. change 512 with (256 * 2). rewrite Z.mod_small; [apply Z.div_lt_upper_bound; lia|].
  split; [apply Z.div_pos; lia|apply Z.div_lt_upper_bound; lia].
Qed.
(** The indices determine the page. *)
Lemma path_inj a b : user_page a → user_page b → path a = path b → index_pt a = index_pt b → a = b.
Proof.
  intros [Ha Ha'] [Hb Hb'] [= H1 H2 H3] H4. unfold index_pml4, index_pdpt, index_pd, index_pt in *. rewrite !index_div in * by lia.
  Z.div_mod_to_equations. lia.
Qed.
