(* ===== verification/PageTableSpec.v ===== *)
(** * Page tables are maps

    An address space is a finite map from pages to entries.  Mapping,
    unmapping, protection and translation act on it as on a map, whatever the
    tables in memory look like, and touch no frame but the tables. *)

From stdpp Require Import gmap gmultiset.
From S2P Require Import Prelude Words Vfs BuddyBlocks Frames SharedFrames Swap SwapSlots SwapSpec PageTable PageTableTree.

(** ** The map of a space *)

Definition leaf_at (m : Z → Z) (T : gmap (list Z) Z) (va : Z) : Z := leaf m T (path va) (index_pt va).
Record rep (m : Z → Z) (T : gmap (list Z) Z) (L : gmap Z Z) : Prop := {
  rp_dom va e : L !! va = Some e → user_page va ∧ is_u 64 e ∧ e ≠ 0;
  rp_leaf va : user_page va → leaf_at m T va = default 0 (L !! va) }.

(** The frames the present entries refer to. *)
Definition mapped (e : Z) : gmultiset Z := if is_present e then {[+ frame_of e +]} else ∅.
Definition leaves (L : gmap Z Z) : gmultiset Z := msum mapped L.
Definition present_at (L : gmap Z Z) (va : Z) : bool := match L !! va with Some e => is_present e | None => false end.
(** [L[va] = e], where zero is no entry. *)
Definition set_leaf (L : gmap Z Z) (va e : Z) : gmap Z Z := if e =? 0 then delete va L else <[va := e]> L.

Lemma leaves_delete L va e : L !! va = Some e → leaves L = mapped e ⊎ leaves (delete va L).
Proof. apply msum_delete. Qed.
Lemma leaves_absent L va : present_at L va = false → leaves (delete va L) = leaves L.
Proof.
  unfold present_at. destruct (L !! va) as [e|] eqn:He; [|intros _; by rewrite delete_id]. intros Hp. rewrite (leaves_delete L va e He). unfold mapped. by rewrite Hp, (left_id_L ∅ (⊎)).
Qed.
Lemma leaves_insert L va e : leaves (<[va := e]> L) = mapped e ⊎ leaves (delete va L).
Proof. unfold leaves. by rewrite <-insert_delete_eq, msum_insert by apply lookup_delete_eq. Qed.
Lemma elem_of_leaves L f : f ∈ leaves L ↔ ∃ va e, L !! va = Some e ∧ is_present e = true ∧ frame_of e = f.
Proof.
  unfold leaves. rewrite elem_of_msum. unfold mapped. split; intros (va & e & He & Hf).
  - destruct (is_present e) eqn:Hp; [apply gmultiset_elem_of_singleton in Hf as ->; by exists va, e|by apply gmultiset_elem_of_empty in Hf].
  - destruct Hf as [Hp <-]. exists va, e. split; [done|]. rewrite Hp. by apply gmultiset_elem_of_singleton.
Qed.

Lemma rep_same m m' T L : rep m T L → (∀ p t, T !! p = Some t → same_frame t m m') → rep m' T L.
Proof.
  intros [H1 H2] Hs. split; [done|]. intros va Hva. rewrite <-H2 by done. unfold leaf_at, leaf. destruct (T !! path va) as [t|] eqn:Ht; [|done].
  apply entry_same; [by eapply Hs|]. apply path_user, Hva.
Qed.
Lemma rep_set m root T L va t v : tree m root T → rep m T L → user_page va → T !! path va = Some t → is_u 64 v →
  rep (write_u64 m (t + index_pt va * 8) v) T (set_leaf L va v).
Proof.
  intros HT [H1 H2] Hva Ht Hv. split.
  - intros w e. unfold set_leaf. destruct (Z.eqb_spec v 0) as [->|Hnz].
    + rewrite lookup_delete_Some. intros [_ He]. by eapply H1.
    + rewrite lookup_insert_Some. intros [[<- <-]|[_ He]]; [done|by eapply H1].
  - intros w Hw. destruct (path_user va) as [Hpa Hia]; [apply Hva|]. destruct (path_user w) as [Hpw Hiw]; [apply Hw|]. destruct (tr_path _ _ _ HT _ _ Ht) as [_ Hft].
    unfold leaf_at, leaf. destruct (decide (w = va)) as [->|Hne].
    + rewrite Ht, entry_write_eq by done. unfold set_leaf. destruct (Z.eqb_spec v 0) as [->|]; [by rewrite lookup_delete_eq|by rewrite lookup_insert_eq].
    + assert (set_leaf L va v !! w = L !! w) as ->. { unfold set_leaf. case_match; [by rewrite lookup_delete_ne|by rewrite lookup_insert_ne]. }
      rewrite <-H2 by done. unfold leaf_at, leaf. destruct (T !! path w) as [u|] eqn:Hu; [|done]. destruct (tr_path _ _ _ HT _ _ Hu) as [_ Hfu].
      apply entry_write_ne; [done..|]. intros [= <- Hi]. apply Hne. symmetry. apply path_inj; [done..| |done]. by eapply tr_inj.
Qed.

Section spaces.
Context {A : Type} {FA : FrameAllocator A} {SF : SharedFrames A} (hhdm : option Z).
Context (Hhhdm : ∃ h, hhdm = Some h ∧ 0 ≤ h ∧ h + 2 ^ 37 < 2 ^ 64).
Implicit Types s : machine (A := A).

(** A space in the machine, beside the frames [Y] of everything else. *)
Record lives s (root : Z) (T : gmap (list Z) Z) (L : gmap Z Z) (Y : gmultiset Z) : Prop := {
  lv_hosts : hosts s root T (leaves L ⊎ Y); lv_rep : rep (ram s) T L }.
(** Nothing but the tables of the space changed. *)
Definition frames_kept (X : gmultiset Z) s s' : Prop := ∀ f, f ∈ X → same_frame f (ram s) (ram s').
Lemma frames_kept_refl X s : frames_kept X s s.
Proof. intros f _. apply same_frame_refl. Qed.
Lemma frames_kept_trans X s s1 s2 : frames_kept X s s1 → frames_kept X s1 s2 → frames_kept X s s2.
Proof. intros H1 H2 f Hf. eapply same_frame_trans; eauto. Qed.
Lemma kept_sub X Y s s' : X ⊆ Y → frames_kept Y s s' → frames_kept X s s'.
Proof. intros Hs H f Hf. apply H. by eapply gmultiset_elem_of_subseteq. Qed.

Lemma lives_leaf s root T L Y va : lives s root T L Y → user_page va → leaf_at (ram s) T va = default 0 (L !! va).
Proof. intros H. apply H. Qed.
Lemma leaf_frame s root T L Y va e : lives s root T L Y → L !! va = Some e → is_present e = true → is_frame (frame_of e).
Proof. intros [Hh _] He Hp. eapply hosts_frame; [exact Hh|]. apply gmultiset_elem_of_disj_union. left. apply elem_of_leaves. by exists va, e. Qed.

(** ** Locating an entry *)

Lemma pte_location_run s root T L Y va user : lives s root T L Y → user_page va →
  pte_location hhdm root va false user s = (s, Ok ((λ t, {| table_phys := t; pte_index := index_pt va |}) <$> T !! path va)).
Proof.
  intros [Hh _] [Hva _]. unfold pte_location, mbind, M_bind. rewrite (walk_tree hhdm Hhhdm s root T user (ho_tree _ _ _ _ Hh) _ [] root (tr_root _ _ _ (ho_tree _ _ _ _ Hh))) by (by apply path_user).
  cbn [app]. fold (path va). by destruct (T !! path va).
Qed.
(** The entry found in the table of a page. *)
Lemma located s root T L Y va t : lives s root T L Y → user_page va → T !! path va = Some t →
  is_frame t ∧ 0 ≤ index_pt va < 512 ∧ length (path va) = 3%nat ∧ entry (ram s) t (index_pt va) = default 0 (L !! va).
Proof.
  intros H Hva Ht. destruct (tr_path _ _ _ (ho_tree _ _ _ _ (lv_hosts _ _ _ _ _ H)) _ _ Ht). split; [done|]. split; [by apply path_user, Hva|]. split; [done|].
  rewrite <-(lives_leaf _ _ _ _ _ _ H Hva). unfold leaf_at, leaf. by rewrite Ht.
Qed.
Lemma not_located s root T L Y va : lives s root T L Y → user_page va → T !! path va = None → L !! va = None.
Proof.
  intros H Hva Ht. pose proof (lives_leaf _ _ _ _ _ _ H Hva) as Hl. unfold leaf_at, leaf in Hl. rewrite Ht in Hl.
  destruct (L !! va) as [e|] eqn:He; [|done]. destruct (rp_dom _ _ _ (lv_rep _ _ _ _ _ H) _ _ He) as (_ & _ & Hnz). by cbn in Hl.
Qed.
Lemma absent_bit e : is_present e = false ↔ (Z.land e PRESENT =? 0) = true.
Proof. unfold is_present. by destruct (_ =? 0). Qed.
Lemma present_bit e : is_present e = true ↔ (Z.land e PRESENT =? 0) = false.
Proof. unfold is_present. by destruct (_ =? 0). Qed.

(** A change of one entry. *)
Lemma lives_write s root T L Y Y' va t v : lives s root T L Y → user_page va → T !! path va = Some t → is_u 64 v →
  leaves (set_leaf L va v) ⊎ Y' = leaves L ⊎ Y →
  let s' := set_ram s (write_u64 (ram s) (t + index_pt va * 8) v) in
  lives s' root T (set_leaf L va v) Y' ∧ frames_kept (leaves L ⊎ Y) s s'.
Proof.
  intros H Hva Ht Hv Heq. destruct (located _ _ _ _ _ _ _ H Hva Ht) as (Hft & Hi & Hlen & _). destruct H as [[Hram HT Ho Hap] Hrep]. split.
  - split; [split|].
    + by apply ram_ok_write.
    + by eapply tree_leaf.
    + by rewrite Heq.
    + intros p u Hp. rewrite Heq. by eapply Hap.
    + by eapply rep_set.
  - intros f Hf. apply write_same_frame; [done| |done|]; [|intros ->; by eapply Hap].
    apply (owned_address (pool s) (tables T ⊎ (leaves L ⊎ Y))); [done|]. apply gmultiset_elem_of_disj_union. by right.
Qed.

(** ** Mapping and unmapping *)

(** The new state, seen from the frames that are not tables. *)
Record moved s (root : Z) (T : gmap (list Z) Z) (L : gmap Z Z) (Y : gmultiset Z) s' (L' : gmap Z Z) (Y' : gmultiset Z) (T' : gmap (list Z) Z) : Prop := {
  mv_lives : lives s' root T' L' Y'; mv_sub : T ⊆ T'; mv_kept : frames_kept (leaves L ⊎ Y) s s'; mv_total : leaves L' ⊎ Y' = leaves L ⊎ Y }.
Lemma moved_refl s root T L Y : lives s root T L Y → moved s root T L Y s L Y T.
Proof. intros H. split; [done..|apply frames_kept_refl|done]. Qed.
Lemma moved_trans s root T L Y s1 L1 Y1 T1 s2 L2 Y2 T2 :
  moved s root T L Y s1 L1 Y1 T1 → moved s1 root T1 L1 Y1 s2 L2 Y2 T2 → moved s root T L Y s2 L2 Y2 T2.
Proof.
  intros [? ? ? He] [? ? Hk He']. split; [done|by etransitivity| |by rewrite He'].
  eapply frames_kept_trans; [done|]. by rewrite <-He.
Qed.
Lemma grown_moved s root T L Y s' T' : lives s root T L Y → hosts s' root T' (leaves L ⊎ Y) → grown s T s' T' (leaves L ⊎ Y) → moved s root T L Y s' L Y T'.
Proof.
  intros [Hh [H1 H2]] Hh' Hg. split; [split; [done|split; [done|]]|apply Hg|intros f Hf; by apply Hg|done].
  intros va Hva. rewrite <-H2 by done. unfold leaf_at. by apply Hg; [|apply path_user, Hva].
Qed.

Lemma unaligned_page va : va mod 4096 = 0 → unaligned va = false.
Proof. intros H. unfold unaligned, PAGE_SIZE. change (4096 - 1) with (2 ^ 12 - 1). rewrite land_mask by lia. change (2 ^ 12) with 4096. by rewrite H. Qed.

(** The entry [map] writes. *)
Definition map_entry (pa fl : Z) : Z := Z.lor (Z.lor pa fl) PRESENT.
Lemma present_flags : is_flags PRESENT.
Proof. apply (bit_flags 0). lia. Qed.
Lemma map_entry_ok pa fl : is_frame pa → is_flags fl →
  is_u 64 (map_entry pa fl) ∧ is_present (map_entry pa fl) = true ∧ frame_of (map_entry pa fl) = pa ∧ map_entry pa fl ≠ 0.
Proof.
  intros Hpa Hfl. unfold map_entry. rewrite <-Z.lor_assoc. pose proof (flags_lor _ _ Hfl present_flags) as Hfl'.
  assert (is_present (Z.lor pa (Z.lor fl PRESENT)) = true) as Hp.
  { unfold is_present. rewrite (land_bit _ 0), negb_involutive, flag_combine, Z.lor_spec by (done || lia). apply orb_true_r. }
  split_and!; [by apply combine_u64|done|by apply frame_of_combine|]. intros He. by rewrite He in Hp.
Qed.

Lemma map_spec s root T L Y va pa fl : lives s root T L ({[+ pa +]} ⊎ Y) → user_page va → is_flags fl →
  match map hhdm root va pa fl s with
  | (s', Ok _) => present_at L va = false ∧ ∃ T', moved s root T L ({[+ pa +]} ⊎ Y) s' (<[va := map_entry pa fl]> L) Y T'
  | (s', Err e) => (e = AlreadyMapped ∧ present_at L va = true ∨ e = OutOfMemory ∧ present_at L va = false) ∧ ∃ T', moved s root T L ({[+ pa +]} ⊎ Y) s' L ({[+ pa +]} ⊎ Y) T'
  | _ => False
  end.
Proof.
  intros H Hva Hfl. assert (is_frame pa) as Hpa by (eapply hosts_frame; [apply H|multiset_solver]).
  destruct (map_entry_ok pa fl Hpa Hfl) as (Hu & Hp & Hf & Hnz).
  unfold map. rewrite !unaligned_page by (apply Hva || apply Hpa). cbn [orb]. unfold pte_location, mbind, M_bind.
  pose proof (walk_grow hhdm Hhhdm root (negb (Z.land fl MAP_USER =? 0)) _ (path va) s T [] root (lv_hosts _ _ _ _ _ H) (tr_root _ _ _ (ho_tree _ _ _ _ (lv_hosts _ _ _ _ _ H))) (proj1 (path_user va (proj1 Hva)))) as Hw.
  cbn [app] in Hw. unfold path in Hw at 1. destruct (walk hhdm true _ root _ s) as [s1 [o|e|]] eqn:Hrun; [| |done].
  2: { destruct Hw as (-> & T' & Hh & Hg). split; [right; split; [done|]|].
    { unfold present_at. destruct (T !! path va) eqn:Ht; [|by rewrite (not_located _ _ _ _ _ _ H Hva Ht)]. pose proof (walk_there hhdm Hhhdm s root T true (negb (Z.land fl MAP_USER =? 0)) (ho_tree _ _ _ _ (lv_hosts _ _ _ _ _ H)) (path va) [] root) as Hx.
      unfold path in Hx at 3. rewrite Hrun in Hx. specialize (Hx (tr_root _ _ _ (ho_tree _ _ _ _ (lv_hosts _ _ _ _ _ H))) (proj1 (path_user va (proj1 Hva)))). cbn [app] in Hx. rewrite Ht in Hx. by discriminate Hx. } exists T'. by apply grown_moved. }
  destruct Hw as (t & T1 & -> & Ht & Hh & Hg). pose proof (grown_moved _ _ _ _ _ _ _ H Hh Hg) as Hm. cbn [mret M_ret ok_or lift table_phys pte_index].
  destruct (located _ _ _ _ _ _ _ (mv_lives _ _ _ _ _ _ _ _ _ Hm) Hva Ht) as (Hft & Hi & Hlen & He). rewrite entry_at_run by done. rewrite He.
  assert (is_present (default 0 (L !! va)) = present_at L va) as Hpr by (unfold present_at; by destruct (L !! va)).
  unfold is_present in Hpr. rewrite Hpr. destruct (present_at L va) eqn:Hat; [split; [by left|by exists T1]|].
  rewrite set_entry_run by done. rewrite land_mask_frame by done. split; [done|]. exists T1.
  pose proof (lives_write s1 root T1 L ({[+ pa +]} ⊎ Y) Y va t (map_entry pa fl) (mv_lives _ _ _ _ _ _ _ _ _ Hm) Hva Ht Hu) as Hw.
  unfold set_leaf in Hw. rewrite (proj2 (Z.eqb_neq _ _) Hnz) in Hw. rewrite leaves_insert, leaves_absent in Hw by done. unfold mapped in Hw at 1. rewrite Hp, Hf in Hw.
  destruct Hw as [Hl Hk]; [multiset_solver|]. eapply moved_trans; [done|]. split; [done|done|done|].
  rewrite leaves_insert, leaves_absent by done. unfold mapped. rewrite Hp, Hf. multiset_solver.
Qed.

Lemma lives_slots s root T L Y w : lives s root T L Y → lives (set_swap_slots s w) root T L Y.
Proof. by intros [[? ? ? ?] ?]. Qed.
Lemma slot_bits e : u32 (Z.land (Z.shiftr e 12) 0xfffff) = slot_of e.
Proof. unfold slot_of. change 0xfffff with (2 ^ 20 - 1). rewrite land_mask by lia. apply wrap_small. unfold is_u. pose proof (Z.mod_pos_bound (Z.shiftr e 12) (2 ^ 20)). lia. Qed.

(** An entry that goes: its frame, if it has one, is the caller's. *)
Lemma lives_clear s root T L Y va t e : lives s root T L Y → user_page va → T !! path va = Some t → L !! va = Some e →
  moved s root T L Y (set_ram s (write_u64 (ram s) (t + index_pt va * 8) 0)) (delete va L) (mapped e ⊎ Y) T.
Proof.
  intros H Hva Ht He. assert (leaves (delete va L) ⊎ (mapped e ⊎ Y) = leaves L ⊎ Y) as Heq by (rewrite (leaves_delete L va e He); multiset_solver).
  destruct (lives_write s root T L Y (mapped e ⊎ Y) va t 0 H Hva Ht) as [Hl Hk]; [done|exact Heq|]. by split.
Qed.

Lemma unmap_run s root T L Y va : lives s root T L Y → user_page va →
  unmap hhdm root va s =
  match T !! path va with
  | None => (s, Ok None)
  | Some t =>
    let e := default 0 (L !! va) in
    let s' := set_ram s (write_u64 (ram s) (t + index_pt va * 8) 0) in
    if is_present e then (s', Ok (Some (frame_of e)))
    else if is_swapped e then (set_swap_slots s' (free_slot (swap_slots s) (slot_of e)), Ok None) else (s, Ok None)
  end.
Proof.
  intros H Hva. unfold unmap. rewrite unaligned_page by apply Hva. unfold mbind, M_bind. rewrite (pte_location_run s root T L Y va false H Hva).
  destruct (T !! path va) as [t|] eqn:Ht; cbn [fmap option_fmap option_map]; [|done].
  destruct (located _ _ _ _ _ _ _ H Hva Ht) as (Hft & Hi & Hlen & He). cbn [table_phys pte_index]. rewrite entry_at_run, He by done. set (e := default 0 (L !! va)). clearbody e. cbv zeta.
  unfold is_swapped, is_present. destruct (Z.land e PRESENT =? 0); cbn [negb andb].
  - destruct (Z.land e MAP_SWAPPED =? 0); cbn [negb]; [done|]. unfold modify. by rewrite slot_bits, write_entry_some by done.
  - by rewrite set_entry_run by done.
Qed.
Lemma unmap_spec s root T L Y va : lives s root T L Y → user_page va →
  match L !! va with
  | None => unmap hhdm root va s = (s, Ok None)
  | Some e =>
    if is_present e then ∃ s', unmap hhdm root va s = (s', Ok (Some (frame_of e))) ∧ swap_slots s' = swap_slots s ∧ moved s root T L Y s' (delete va L) ({[+ frame_of e +]} ⊎ Y) T
    else if is_swapped e then ∃ s', unmap hhdm root va s = (s', Ok None) ∧ swap_slots s' = free_slot (swap_slots s) (slot_of e) ∧ moved s root T L Y s' (delete va L) Y T
    else unmap hhdm root va s = (s, Ok None)
  end.
Proof.
  intros H Hva. pose proof (unmap_run s root T L Y va H Hva) as Hrun. destruct (T !! path va) as [t|] eqn:Ht; [|by rewrite (not_located _ _ _ _ _ _ H Hva Ht)].
  destruct (L !! va) as [e|] eqn:Hl; [|done]. pose proof (lives_clear s root T L Y va t e H Hva Ht Hl) as Hc. unfold mapped in Hc. cbv zeta in Hrun. cbn [default from_option id] in Hrun. rewrite Hrun. clear Hrun. unfold is_swapped. destruct (is_present e); cbn [negb andb].
  - eexists. split; [reflexivity|]. by split.
  - destruct (Z.land e MAP_SWAPPED =? 0); cbn [negb]; [done|]. eexists. split; [done|]. split; [done|].
    rewrite (left_id_L ∅ (⊎)) in Hc. destruct Hc as [Hlv Hs Hk Htot]. split; [exact (lives_slots _ _ _ _ _ (free_slot (swap_slots s) (slot_of e)) Hlv)|done..].
Qed.

(** ** Reading *)

Lemma tree_read s root T p t i : tree (ram s) root T → T !! p = Some t → path_ok (p ++ [i]) →
  read_entry hhdm s t i = Some (entry (ram s) t i) ∧
  match T !! (p ++ [i]) with
  | Some t' => (Z.land (entry (ram s) t i) PRESENT =? 0) = false ∧ negb (Z.land (entry (ram s) t i) HUGE_PAGE =? 0) = false ∧ Z.land (entry (ram s) t i) ADDRESS_MASK = t'
  | None => (Z.land (entry (ram s) t i) PRESENT =? 0) = true
  end.
Proof.
  intros HT Hp Hi. destruct (tr_path _ _ _ HT _ _ Hp) as [_ Ht]. destruct (path_ok_last _ _ Hi) as [Hi' _]. split; [by apply read_entry_some|].
  pose proof (tr_entry _ _ _ HT p t i Hp Hi) as He. destruct (T !! (p ++ [i])).
  - destruct He as (He1 & He2 & He3). apply present_bit in He1. by split_and!.
  - by apply absent_bit.
Qed.
Lemma page_index a : 0 ≤ a < 2 ^ 47 → user_page (page_of a) ∧ page_of a = 4096 * (a / 4096) ∧ path (page_of a) = path a ∧ index_pt (page_of a) = index_pt a.
Proof.
  intros Ha. assert (page_of a = 4096 * (a / 4096)) as He by (apply page_floor_div; unfold is_u; lia).
  assert (∀ k, 12 ≤ k → Z.land (Z.shiftr (page_of a) k) 0x1ff = Z.land (Z.shiftr a k) 0x1ff) as Hk.
  { intros k Hk. assert (0 ≤ page_of a) by (rewrite He; Z.div_mod_to_equations; lia). rewrite !index_div by lia. f_equal.
    replace k with (12 + (k - 12)) by lia. rewrite Z.pow_add_r, <-!Z.div_div by lia. f_equal. rewrite He, (Z.mul_comm 4096). by rewrite Z.div_mul. }
  unfold path, index_pml4, index_pdpt, index_pd, index_pt. rewrite !Hk by lia. split; [|done]. rewrite He. split; Z.div_mod_to_equations; lia.
Qed.

Lemma page_offset e a : is_frame (frame_of e) → Z.lor (Z.land e ADDRESS_MASK) (Z.land a (PAGE_SIZE - 1)) = frame_of e + a mod 4096.
Proof.
  intros Hf. change (PAGE_SIZE - 1) with (2 ^ 12 - 1). rewrite land_mask by lia. change (2 ^ 12) with 4096. fold (frame_of e).
  assert (Z.land (frame_of e) (a mod 4096) = 0) as Hd.
  { apply Z.bits_inj'. intros i Hi. rewrite Z.land_spec, Z.bits_0. change 4096 with (2 ^ 12). destruct (decide (i < 12)).
    - rewrite (frame_bit (frame_of e)) by (done || lia). done.
    - rewrite Z.mod_pow2_bits_high by lia. apply andb_false_r. }
  by rewrite <-Z.lxor_lor, <-Z.add_nocarry_lxor.
Qed.

(** The translation of an address is that of its page's entry. *)
Lemma translate_in_spec s root T L Y a : lives s root T L Y → 0 ≤ a < 2 ^ 47 →
  translate_in hhdm s root a =
  match L !! page_of a with
  | Some e => if is_present e then Some {| physical_address := frame_of e + a mod 4096; page_size := PAGE_SIZE |} else None
  | None => None
  end.
Proof.
  intros H Ha. destruct (page_index a Ha) as (Hpg & _ & Hpath & Hpt). destruct (path_user a Ha) as [Hok Hi].
  pose proof (ho_tree _ _ _ _ (lv_hosts _ _ _ _ _ H)) as HT. assert (T !! path a = None → L !! page_of a = None) as Hno by (rewrite <-Hpath; by apply (not_located s root T L Y)).
  assert (∀ p l, path a = p ++ l → T !! p = None → T !! path a = None) as Hpre.
  { intros p l -> Hp. destruct (T !! (p ++ l)) eqn:Hx; [|done]. destruct (tree_prefix _ _ _ l HT p) as [? ?]; [by eexists|congruence]. }
  unfold translate_in. destruct (tree_read s root T [] root (index_pml4 a) HT (tr_root _ _ _ HT)) as [-> H4]; [by apply (path_ok_prefix _ [index_pdpt a; index_pd a])|]. cbn [app mbind option_bind] in *.
  destruct (T !! [index_pml4 a]) as [t3|] eqn:Ht3; [|by rewrite H4, Hno by exact (Hpre [_] [_; _] eq_refl Ht3)]. destruct H4 as (-> & _ & ->).
  destruct (tree_read s root T [index_pml4 a] t3 (index_pdpt a) HT Ht3) as [-> H3]; [by apply (path_ok_prefix _ [index_pd a])|]. cbn [app mbind option_bind] in *.
  destruct (T !! [index_pml4 a; index_pdpt a]) as [t2|] eqn:Ht2; [|by rewrite H3, Hno by exact (Hpre [_; _] [_] eq_refl Ht2)]. destruct H3 as (-> & -> & ->).
  destruct (tree_read s root T [index_pml4 a; index_pdpt a] t2 (index_pd a) HT Ht2) as [-> H2]; [done|]. cbn [app mbind option_bind] in *.
  fold (path a) in H2. destruct (T !! path a) as [t1|] eqn:Ht1; [|by rewrite H2, Hno]. destruct H2 as (-> & -> & ->).
  rewrite <-Hpath in Ht1. destruct (located _ _ _ _ _ _ _ H Hpg Ht1) as (Hft & _ & _ & He). rewrite read_entry_some by done. cbn [mbind option_bind].
  rewrite Hpt in He. rewrite He. destruct (L !! page_of a) as [e|] eqn:Hl; cbn [default from_option id]; [|done].
  unfold is_present. destruct (Z.land e PRESENT =? 0) eqn:Hp; [done|]. cbn [negb]. rewrite page_offset; [done|]. eapply leaf_frame; [done..|]. by apply present_bit.
Qed.
Lemma flags_in_spec s root T L Y va : lives s root T L Y → user_page va →
  flags_in hhdm s root va = match L !! va with Some e => if is_present e then Some (Z.land e (bnot 64 ADDRESS_MASK)) else None | None => None end.
Proof.
  intros H Hva. unfold flags_in. rewrite (pte_location_run s root T L Y va false H Hva). destruct (T !! path va) as [t|] eqn:Ht; cbn [fmap option_fmap option_map]; [|by rewrite (not_located _ _ _ _ _ _ H Hva Ht)].
  destruct (located _ _ _ _ _ _ _ H Hva Ht) as (Hft & Hi & Hlen & He). cbn [table_phys pte_index]. rewrite read_entry_some, He by done. cbn [mbind option_bind].
  destruct (L !! va) as [e|]; cbn [default from_option id]; [|done]. unfold is_present. by destruct (Z.land e PRESENT =? 0).
Qed.

(** ** Protection *)

(** The entries of the pages change their flags and keep their frames. *)
Definition reprotect (fl e : Z) : Z := if is_present e then map_entry (frame_of e) fl else e.
Lemma mapped_reprotect fl e : is_flags fl → (is_present e = true → is_frame (frame_of e)) → mapped (reprotect fl e) = mapped e.
Proof.
  intros Hfl Hf. unfold reprotect, mapped. destruct (is_present e) eqn:Hp; [|by rewrite Hp]. destruct (map_entry_ok (frame_of e) fl (Hf eq_refl) Hfl) as (_ & -> & -> & _). done.
Qed.
Lemma alter_none {V} (f : V → V) (L : gmap Z V) k : L !! k = None → alter f k L = L.
Proof. intros Hk. apply map_eq. intros j. destruct (decide (k = j)) as [<-|]; [by rewrite lookup_alter_eq, Hk|by rewrite lookup_alter_ne]. Qed.
Lemma alter_insert {V} (f : V → V) (L : gmap Z V) k v : L !! k = Some v → alter f k L = <[k := f v]> L.
Proof. intros Hk. apply map_eq. intros j. destruct (decide (k = j)) as [<-|]; [by rewrite lookup_alter_eq, Hk, lookup_insert_eq|by rewrite lookup_alter_ne, lookup_insert_ne]. Qed.

Lemma protect_page_spec s root T L Y va fl : lives s root T L Y → user_page va → is_flags fl →
  ∃ s', protect_page hhdm root fl va s = (s', Ok ()) ∧ swap_slots s' = swap_slots s ∧ moved s root T L Y s' (alter (reprotect fl) va L) Y T.
Proof.
  intros H Hva Hfl. unfold protect_page, mbind, M_bind. rewrite (pte_location_run s root T L Y va false H Hva).
  destruct (T !! path va) as [t|] eqn:Ht; cbn [fmap option_fmap option_map].
  2: { exists s. rewrite alter_none by by eapply not_located. split_and!; [done..|by apply moved_refl]. }
  destruct (located _ _ _ _ _ _ _ H Hva Ht) as (Hft & Hi & Hlen & He). cbn [table_phys pte_index get]. rewrite read_entry_some, He by done.
  destruct (L !! va) as [e|] eqn:Hl; cbn [default from_option id].
  2: { exists s. rewrite alter_none by done. split_and!; [done..|by apply moved_refl]. }
  rewrite (alter_insert _ _ _ _ Hl). unfold reprotect. destruct (is_present e) eqn:Hp.
  - rewrite (proj1 (present_bit e) Hp), set_entry_run by done. eexists. split; [done|]. split; [done|]. fold (frame_of e). fold (map_entry (frame_of e) fl).
    pose proof (leaf_frame _ _ _ _ _ _ _ H Hl Hp) as Hf. destruct (map_entry_ok _ _ Hf Hfl) as (Hu & Hp' & Hf' & Hnz).
    assert (leaves (<[va := map_entry (frame_of e) fl]> L) = leaves L) as Hsame. { rewrite leaves_insert, (leaves_delete L va e Hl). unfold mapped. by rewrite Hp, Hp', Hf'. }
    pose proof (lives_write s root T L Y Y va t _ H Hva Ht Hu) as Hw. unfold set_leaf in Hw. rewrite (proj2 (Z.eqb_neq _ _) Hnz), Hsame in Hw. destruct (Hw eq_refl). split; [done..|]. by rewrite Hsame.
  - rewrite (proj1 (absent_bit e) Hp). exists s. rewrite insert_id by done. split_and!; [done..|by apply moved_refl].
Qed.

Definition in_pages (va : Z) (n : nat) (k : Z) : Prop := va ≤ k < va + Z.of_nat n * 4096.
#[local] Instance in_pages_dec va n k : Decision (in_pages va n k).
Proof. unfold in_pages. apply _. Defined.
Definition protected (fl va : Z) (n : nat) (L : gmap Z Z) : gmap Z Z :=
  map_imap (λ k e, Some (if bool_decide (in_pages va n k) then reprotect fl e else e)) L.
Lemma lookup_protected fl va n L k : protected fl va n L !! k = if bool_decide (in_pages va n k) then reprotect fl <$> L !! k else L !! k.
Proof. unfold protected. rewrite map_lookup_imap. by destruct (L !! k), (bool_decide _). Qed.

Lemma protect_from_spec fl root T Y (Hfl : is_flags fl) va : user_page va → ∀ n s L i, lives s root T L Y → 0 ≤ i → va + (i + Z.of_nat n) * 4096 ≤ 2 ^ 47 →
  ∃ s', protect_from hhdm root va fl i n s = (s', Ok ()) ∧ swap_slots s' = swap_slots s ∧ moved s root T L Y s' (protected fl (va + i * 4096) n L) Y T.
Proof.
  intros Hva. induction n as [|n IH]; intros s L i H Hi Hend; cbn [protect_from].
  - exists s. assert (protected fl (va + i * 4096) 0 L = L) as ->; [|split_and!; [done..|by apply moved_refl]].
    apply map_eq. intros k. rewrite lookup_protected, bool_decide_false; [done|]. unfold in_pages. lia.
  - assert (user_page (va + i * 4096)) as Hp. { destruct Hva as [? Hm]. split; [lia|]. by rewrite Z.mod_add. }
    unfold mbind, M_bind, lift. unfold PAGE_SIZE. replace (u64 (i * 4096)) with (i * 4096) by (symmetry; apply wrap_small; unfold is_u; destruct Hva; lia). rewrite ?wrap_small by (unfold is_u; destruct Hva; lia). unfold checked_add. rewrite (proj2 (Z.ltb_lt _ _)) by (destruct Hp; lia). cbn [ok_or].
    destruct (protect_page_spec s root T L Y _ fl H Hp Hfl) as (s1 & -> & Hs1 & Hm1). destruct (IH s1 _ (i + 1) (mv_lives _ _ _ _ _ _ _ _ _ Hm1)) as (s2 & -> & Hs2 & Hm2); [lia|lia|].
    exists s2. split; [done|]. split; [congruence|]. pose proof (moved_trans _ _ _ _ _ _ _ _ _ _ _ _ _ Hm1 Hm2) as Hm.
    assert (protected fl (va + i * 4096) (S n) L = protected fl (va + (i + 1) * 4096) n (alter (reprotect fl) (va + i * 4096) L)) as ->; [|done].
    apply map_eq. intros k. rewrite !lookup_protected. destruct (decide (k = va + i * 4096)) as [->|Hne].
    + rewrite bool_decide_true, bool_decide_false, lookup_alter_eq by (unfold in_pages; lia). done.
    + rewrite lookup_alter_ne by done. destruct (L !! k) as [e|] eqn:Hk; [|by repeat case_bool_decide]. destruct (rp_dom _ _ _ (lv_rep _ _ _ _ _ H) _ _ Hk) as ([_ Hal] & _).
      destruct Hp as [_ Hp]. assert (in_pages (va + i * 4096) (S n) k ↔ in_pages (va + (i + 1) * 4096) n k) as Heq.
      { unfold in_pages. replace (va + (i + 1) * 4096) with (va + i * 4096 + 4096) by lia. revert Hp Hne Hal. generalize (va + i * 4096) as b. intros. split; intros ?; [|lia]. split; [|lia]. Z.div_mod_to_equations. lia. }
      by rewrite (bool_decide_ext _ _ Heq).
Qed.
Lemma protect_spec s root T L Y va n fl : lives s root T L Y → user_page va → va + Z.of_nat n * 4096 ≤ 2 ^ 47 → is_flags fl →
  ∃ s', protect hhdm root va n fl s = (s', Ok ()) ∧ swap_slots s' = swap_slots s ∧ moved s root T L Y s' (protected fl va n L) Y T.
Proof.
  intros H Hva Hend Hfl. unfold protect. rewrite unaligned_page by apply Hva. destruct (protect_from_spec fl root T Y Hfl va Hva n s L 0 H) as (s' & Hr); [done|lia|].
  exists s'. by rewrite Z.mul_0_l, Z.add_0_r in Hr.
Qed.
End spaces.
