(* ===== verification/PageTableSpaces.v ===== *)
(** * Address spaces from creation to release

    A new space has the kernel's half and no pages; a space is released only
    when no page is mapped in it, and then exactly its tables are freed. *)

From stdpp Require Import gmap gmultiset.
From S2P Require Import Prelude Words Vfs Frames SharedFrames Swap SwapSlots SwapSpec PageTable PageTableTree PageTableSpec.

(** ** Parts of a tree *)

Lemma msum_union {K V} `{Countable K} (f : V → gmultiset Z) (m1 m2 : gmap K V) : m1 ##ₘ m2 → msum f (m1 ∪ m2) = msum f m1 ⊎ msum f m2.
Proof.
  induction m1 as [|k v m1 Hk IH] using map_ind; intros Hd.
  - by rewrite (left_id_L ∅ (∪)), msum_empty, (left_id_L ∅ (⊎)).
  - apply map_disjoint_insert_l in Hd as [Hk2 Hd]. rewrite <-insert_union_l, !msum_insert, IH by (done || by apply lookup_union_None). by rewrite (assoc_L (⊎)).
Qed.

(** The tables at or below [q], and those below [p] by an index of [l]. *)
Definition under (T : gmap (list Z) Z) (q : list Z) : gmap (list Z) Z := filter (λ kv, q `prefix_of` kv.1) T.
Definition branches (T : gmap (list Z) Z) (p l : list Z) : gmap (list Z) Z := filter (λ kv, Exists (λ i, (p ++ [i]) `prefix_of` kv.1) l) T.
Lemma lookup_under T q r t : under T q !! r = Some t ↔ T !! r = Some t ∧ q `prefix_of` r.
Proof. unfold under. by rewrite map_lookup_filter_Some. Qed.
Lemma lookup_branches T p l r t : branches T p l !! r = Some t ↔ T !! r = Some t ∧ ∃ i, i ∈ l ∧ (p ++ [i]) `prefix_of` r.
Proof. unfold branches. rewrite map_lookup_filter_Some. cbn. by rewrite Exists_exists. Qed.
Lemma prefix_index (p r : list Z) i j : (p ++ [i]) `prefix_of` r → (p ++ [j]) `prefix_of` r → i = j.
Proof. intros [x ->] [y Hy]. rewrite <-!app_assoc in Hy. apply (app_inv_head p) in Hy. by injection Hy as ->. Qed.
Lemma map_ext (m1 m2 : gmap (list Z) Z) : (∀ r t, m1 !! r = Some t ↔ m2 !! r = Some t) → m1 = m2.
Proof. intros H. apply map_eq. intros r. apply option_eq. apply H. Qed.

Lemma branches_cons T p i l : i ∉ l → branches T p (i :: l) = under T (p ++ [i]) ∪ branches T p l ∧ under T (p ++ [i]) ##ₘ branches T p l.
Proof.
  intros Hi. assert (under T (p ++ [i]) ##ₘ branches T p l) as Hd.
  { apply map_disjoint_spec. intros r t u [_ H1]%lookup_under [_ (j & Hj & H2)]%lookup_branches. by rewrite (prefix_index _ _ _ _ H1 H2) in Hi. }
  split; [|done]. apply map_ext. intros r t. rewrite lookup_union_Some, lookup_under, !lookup_branches by done. setoid_rewrite elem_of_cons. naive_solver.
Qed.
Lemma branches_absent T p i l : i ∉ l → under T (p ++ [i]) = ∅ → branches T p (i :: l) = branches T p l.
Proof. intros Hi Hu. destruct (branches_cons T p i l Hi) as [-> _]. by rewrite Hu, (left_id_L ∅ (∪)). Qed.
Lemma under_branches T p t l : T !! p = Some t → (∀ r u i, T !! r = Some u → (p ++ [i]) `prefix_of` r → i ∈ l) →
  under T p = {[p := t]} ∪ branches T p l ∧ {[p := t]} ##ₘ branches T p l.
Proof.
  intros Hp Hl. assert ({[p := t]} ##ₘ branches T p l) as Hd.
  { apply map_disjoint_spec. intros r u v [<- <-]%lookup_singleton_Some [_ (j & _ & [x Hx])]%lookup_branches. apply (f_equal length) in Hx. rewrite !length_app in Hx. cbn [length] in Hx. lia. }
  split; [|done]. apply map_ext. intros r u. rewrite lookup_union_Some, lookup_under, lookup_branches, lookup_singleton_Some by done. split.
  - intros [Hr [[|i x] ->]]; [left; rewrite app_nil_r in *; by simplify_eq|]. right. split; [done|]. exists i. split; [eapply Hl; [exact Hr|]|]; exists x; by rewrite <-app_assoc.
  - intros [[<- <-]|(Hr & j & _ & [x ->])]; [split; [done|reflexivity]|]. split; [done|]. rewrite <-app_assoc. by eexists.
Qed.
Lemma tables_union (T1 T2 : gmap (list Z) Z) : T1 ##ₘ T2 → tables (T1 ∪ T2) = tables T1 ⊎ tables T2.
Proof. apply msum_union. Qed.
Lemma elem_head (x : Z) (Y : gmultiset Z) : x ∈ {[+ x +]} ⊎ Y.
Proof. multiset_solver. Qed.
Lemma elem_tail (x : Z) (Y W : gmultiset Z) : x ∈ Y → x ∈ W ⊎ Y.
Proof. multiset_solver. Qed.
Lemma head_minus (x : Z) (Y : gmultiset Z) : ({[+ x +]} ⊎ Y) ∖ {[+ x +]} = Y.
Proof. multiset_solver. Qed.
Lemma tables_singleton p t : tables {[p := t]} = {[+ t +]}.
Proof. unfold tables. rewrite <-insert_empty, msum_insert, msum_empty by apply lookup_empty. by rewrite (right_id_L ∅ (⊎)). Qed.

(** ** Release *)

Section release.
Context {A : Type} {FA : FrameAllocator A} {SF : SharedFrames A} (hhdm : option Z) (cr3 : Z).
Context (Hhhdm : ∃ h, hhdm = Some h ∧ 0 ≤ h ∧ h + 2 ^ 37 < 2 ^ 64).
Implicit Types s : machine (A := A).
Context (T : gmap (list Z) Z).
Context (Hpath : ∀ p t, T !! p = Some t → path_ok p ∧ is_frame t) (Hinj : ∀ p q t, T !! p = Some t → T !! q = Some t → p = q)
  (Hup : ∀ p i, is_Some (T !! (p ++ [i])) → is_Some (T !! p)).

(** No page is mapped by the entry, which leads to a table or nowhere. *)
Definition clean (m : Z → Z) (r : list Z) (u i : Z) : Prop :=
  match T !! (r ++ [i]) with Some t' => points_to (entry m u i) t' | None => is_present (entry m u i) = false end.
Definition clean_under (m : Z → Z) (q : list Z) : Prop := ∀ r u i, T !! r = Some u → q `prefix_of` r → 0 ≤ i < 512 → clean m r u i.
Lemma clean_under_same m m' q : clean_under m q → (∀ r u, T !! r = Some u → q `prefix_of` r → same_frame u m m') → clean_under m' q.
Proof. intros H Hs r u i Hr Hq Hi. unfold clean. rewrite (entry_same u i m m') by eauto. by apply H. Qed.

(** What is released: the tables of the part [B]. *)
Record released (B : gmap (list Z) Z) s s' (X : gmultiset Z) : Prop := {
  rl_owned : owned (pool s') X; rl_slots : swap_slots s' = swap_slots s; rl_ram : ram_ok (ram s) → ram_ok (ram s');
  rl_kept g : is_frame g → (∀ q, B !! q ≠ Some g) → same_frame g (ram s) (ram s') }.

Lemma no_branch p i : T !! (p ++ [i]) = None → under T (p ++ [i]) = ∅.
Proof.
  intros Hn. apply map_eq. intros r. rewrite lookup_empty. destruct (under T (p ++ [i]) !! r) as [u|] eqn:Hr; [|done]. exfalso. apply lookup_under in Hr as [Hr [x ->]].
  revert u Hr. induction x as [|j x IH] using rev_ind; intros u Hr; [rewrite app_nil_r in Hr; congruence|].
  rewrite app_assoc in Hr. destruct (Hup ((p ++ [i]) ++ x) j) as [v Hv]; [by eexists|]. by eapply IH.
Qed.

Section loop.
Context (p : list Z) (t : Z) (Hp : T !! p = Some t) (f : Z → M (machine (A := A)) MapError Z).
Definition frees_child (i : Z) : Prop := ∀ s X e t', T !! (p ++ [i]) = Some t' → points_to e t' → clean_under (ram s) (p ++ [i]) →
  owned (pool s) (tables (under T (p ++ [i])) ⊎ X) →
  ∃ s', f e s = (s', Ok (Z.of_nat (size (under T (p ++ [i]))))) ∧ released (under T (p ++ [i])) s s' X.

Lemma clear_entries_run : ∀ l, NoDup l → Forall (λ i, 0 ≤ i < 512) l → Forall frees_child l → ∀ s X n,
  (∀ i, i ∈ l → clean (ram s) p t i ∧ clean_under (ram s) (p ++ [i])) → owned (pool s) (tables (branches T p l) ⊎ X) →
  ∃ s', clear_entries hhdm f t l n s = (s', Ok (n + Z.of_nat (size (branches T p l)))) ∧ released ({[p := t]} ∪ branches T p l) s s' X.
Proof.
  intros l Hnd. induction Hnd as [|i l Hi Hnd IH]; intros Hr Hf s X n Hc Ho; cbn [clear_entries].
  { assert (branches T p [] = ∅) as He. { apply map_eq. intros r. rewrite lookup_empty. destruct (branches T p [] !! r) eqn:Hx; [|done]. apply lookup_branches in Hx as (_ & j & Hj & _). by apply not_elem_of_nil in Hj. }
    rewrite He in *. exists s. rewrite map_size_empty, Z.add_0_r. split; [done|]. split; [|done..]. unfold tables in Ho. by rewrite msum_empty, (left_id_L ∅ (⊎)) in Ho. }
  apply Forall_cons in Hr as [Hir Hr], Hf as [Hfi Hf]. destruct (Hpath _ _ Hp) as [_ Ht]. destruct (Hc i) as [Hci Hcu]; [by left|].
  unfold mbind, M_bind. rewrite entry_at_run by done. unfold clean in Hci. destruct (T !! (p ++ [i])) as [t'|] eqn:Ht'.
  - destruct Hci as (He1 & He2 & He3). rewrite (proj1 (present_bit _) He1). rewrite set_entry_run by done. set (s1 := set_ram s _).
    destruct (branches_cons T p i l Hi) as [Hb Hd]. rewrite Hb, tables_union, <-(assoc_L (⊎)) in Ho by done.
    assert (∀ r u, T !! r = Some u → r ≠ p → same_frame u (ram s) (ram s1)) as Hs1.
    { intros r u Hr' Hne. apply write_same_frame; [done|by eapply Hpath|done|]. intros ->. by apply Hne, (Hinj _ _ t). }
    assert (∀ j r, (p ++ [j]) `prefix_of` r → r ≠ p) as Hnp. { intros j r [x ->] Hx. apply (f_equal length) in Hx. rewrite !length_app in Hx. cbn [length] in Hx. lia. }
    destruct (Hfi s1 (tables (branches T p l) ⊎ X) (entry (ram s) t i) t') as (s2 & -> & Hr2); [done|done| |done|].
    { eapply clean_under_same; [done|]. eauto. }
    destruct (IH Hr Hf s2 X (n + Z.of_nat (size (under T (p ++ [i]))))) as (s3 & -> & Hr3); [|apply Hr2|].
    { intros j Hj. destruct (Hc j) as [Hcj Hcuj]; [by right|]. assert (∀ r, (p ++ [j]) `prefix_of` r → ¬ (p ++ [i]) `prefix_of` r) as Hji by (intros r H1 H2; by rewrite (prefix_index _ _ _ _ H1 H2) in Hj).
      assert (∀ r u, T !! r = Some u → ¬ (p ++ [i]) `prefix_of` r → same_frame u (ram s1) (ram s2)) as Hs2.
      { intros r u Hr' Hne. apply Hr2; [by eapply Hpath|]. intros q [Hq Hq']%lookup_under. by rewrite (Hinj _ _ _ Hq Hr') in Hq'. }
      split.
      - unfold clean. assert (entry (ram s2) t j = entry (ram s) t j) as ->; [|done]. rewrite Forall_forall in Hr. rewrite (entry_same t j (ram s1)); [|eapply Hs2; [done|intros Hx; by apply (Hnp i p)]|by apply Hr].
        apply entry_write_ne; [done..|by apply Hr|]. intros [= ->]. done.
      - eapply clean_under_same; [done|]. intros r u Hr' Hpre. eapply same_frame_trans; [by apply (Hs1 r); eauto|]. apply (Hs2 r); eauto. }
    exists s3. rewrite Hb, map_size_disj_union, Nat2Z.inj_add by done. split; [by rewrite Z.add_assoc|]. destruct Hr2 as [Ho2 Hw2 Hm2 Hk2], Hr3 as [Ho3 Hw3 Hm3 Hk3]. split; [done|by rewrite Hw3, Hw2|intros Hm; by apply Hm3, Hm2, ram_ok_write|].
    assert (∀ q u, ({[p := t]} ∪ branches T p l) !! q = Some u ∨ under T (p ++ [i]) !! q = Some u → ({[p := t]} ∪ (under T (p ++ [i]) ∪ branches T p l)) !! q = Some u) as Hall.
    { intros q u. rewrite <-Hb, !lookup_union_Some by (apply (map_disjoint_singleton_l_2); destruct (branches _ _ _ !! p) eqn:Hx; [|done]; apply lookup_branches in Hx as (_ & j & _ & Hx); by destruct (Hnp j p)).
      rewrite lookup_under, !lookup_branches. setoid_rewrite elem_of_cons. naive_solver. }
    intros g Hg Hng. eapply same_frame_trans; [|eapply same_frame_trans].
    + apply (write_same_frame _ t i 0); [done..|]. intros ->. apply (Hng p). apply Hall. left. apply lookup_union_Some_l, lookup_singleton_eq.
    + apply Hk2; [done|]. intros q Hq. apply (Hng q), Hall. by right.
    + apply Hk3; [done|]. intros q Hq. apply (Hng q), Hall. by left.
  - rewrite (proj1 (absent_bit _) Hci). rewrite branches_absent in * by (done || by apply no_branch). apply IH; [done..| |done]. intros j Hj. apply Hc. by right.
Qed.
End loop.

(** A table and what is below it. *)
Definition below (q : list Z) : gmap (list Z) Z := branches T q (seqZ 0 512).
Lemma under_below q t : T !! q = Some t → under T q = {[q := t]} ∪ below q ∧ {[q := t]} ##ₘ below q.
Proof.
  intros Hq. apply under_branches; [done|]. intros r u i Hr [x ->]. destruct (Hpath _ _ Hr) as [(_ & Hf & _) _]. apply Forall_app in Hf as [Hf _]. apply Forall_app in Hf as [_ Hf]. rewrite Forall_singleton in Hf. apply elem_of_seqZ. lia.
Qed.
Lemma release_child (g : Z → M (machine (A := A)) MapError Z) q t' s X : T !! q = Some t' → clean_under (ram s) q → owned (pool s) (tables (under T q) ⊎ X) →
  (∀ X', owned (pool s) (tables (below q) ⊎ X') → ∃ s', g t' s = (s', Ok (Z.of_nat (size (below q)))) ∧ released ({[q := t']} ∪ below q) s s' X') →
  ∃ s', (n ← g t'; release_table n t') s = (s', Ok (Z.of_nat (size (under T q)))) ∧ released (under T q) s s' X.
Proof.
  intros Hq Hc Ho Hg. destruct (under_below q t' Hq) as [Hu Hd]. rewrite Hu, tables_union, tables_singleton in Ho by done.
  destruct (Hg ({[+ t' +]} ⊎ X)) as (s1 & Hr1 & [Ho1 Hs1 Hm1 Hk1]); [by rewrite (assoc_L (⊎)), (comm_L (⊎) (tables (below q)))|].
  unfold mbind, M_bind. rewrite Hr1. destruct (owned_free (pool s1) ({[+ t' +]} ⊎ X) t' Ho1) as (a & Ha & Ho2); [apply elem_head|].
  unfold release_table, mbind, M_bind, give_frame. rewrite Ha. cbn [negb]. eexists. split.
  - rewrite Hu, map_size_disj_union, map_size_singleton by done. cbn [mret M_ret]. by rewrite Z.add_comm, Nat2Z.inj_add.
  - rewrite Hu. split; [|done..]. cbn. by rewrite head_minus in Ho2.
Qed.

Lemma destroy_table_run : ∀ level p t s X, (0 < level)%nat → (level + length p = 4)%nat → T !! p = Some t → clean_under (ram s) p → owned (pool s) (tables (below p) ⊎ X) →
  ∃ s', destroy_table hhdm level t s = (s', Ok (Z.of_nat (size (below p)))) ∧ released ({[p := t]} ∪ below p) s s' X.
Proof.
  induction level as [|level IH]; intros p t s X Hl Hlen Hp Hc Ho; [lia|]. cbn [destroy_table].
  match goal with |- context [clear_entries hhdm ?g t _ 0 s] => destruct (clear_entries_run p t Hp g (seqZ 0 512)) with (s := s) (X := X) (n := 0) as (s' & Hr & Hrel) end.
  - apply NoDup_seqZ.
  - apply Forall_forall. intros i Hi%elem_of_seqZ. lia.
  - apply Forall_forall. intros i Hi s1 X1 e t' Ht' (He1 & He2 & He3) Hc1 Ho1. destruct level as [|level'].
    { exfalso. destruct (Hpath _ _ Ht') as [(Hx & _) _]. rewrite length_app in Hx. cbn [length] in Hx. lia. }
    unfold is_huge in He2. rewrite He2. fold (frame_of e). rewrite He3. apply (release_child (destroy_table hhdm (S level')) (p ++ [i]) t' s1 X1); [done..|].
    intros X' HX'. apply IH; [lia|rewrite length_app; cbn [length]; lia|done..].
  - intros i Hi%elem_of_seqZ. split; [apply Hc; [done|done|lia]|]. intros r u j Hr' [x ->] Hj. apply Hc; [done| |done]. rewrite <-app_assoc. by eexists.
  - exact Ho.
  - exists s'. by rewrite Hr.
Qed.

(** ** Looking for pages *)

Lemma any_entry_run s t (Ht : is_frame t) (g : Z → bool) (f : Z → M (machine (A := A)) MapError bool) l : Forall (λ i, 0 ≤ i < 512) l →
  (∀ i, i ∈ l → is_present (entry (ram s) t i) = true → f (entry (ram s) t i) s = (s, Ok (g i))) →
  any_entry hhdm f t l s = (s, Ok (existsb (λ i, is_present (entry (ram s) t i) && g i) l)).
Proof.
  intros Hl Hf. induction Hl as [|i l Hi Hl IH]; cbn [any_entry existsb]; [done|]. unfold mbind, M_bind. rewrite entry_at_run by done. destruct (is_present (entry (ram s) t i)) eqn:Hp.
  - rewrite (proj1 (present_bit _) Hp), Hf by (done || by left). cbn [andb]. destruct (g i); [done|]. apply IH. intros j Hj. apply Hf. by right.
  - rewrite (proj1 (absent_bit _) Hp). cbn [andb orb]. apply IH. intros j Hj. apply Hf. by right.
Qed.

Context (s : machine (A := A)) (Hentry : ∀ p t i, T !! p = Some t → path_ok (p ++ [i]) →
    match T !! (p ++ [i]) with Some t' => points_to (entry (ram s) t i) t' | None => is_present (entry (ram s) t i) = false end).
(** A page is mapped at or below [p]. *)
Definition has_page (p : list Z) : Prop := ∃ r u i, T !! r = Some u ∧ p `prefix_of` r ∧ length r = 3%nat ∧ 0 ≤ i < 512 ∧ is_present (entry (ram s) u i) = true.

Lemma path_ok_user p i : path_ok p → p ≠ [] → (length p < 3)%nat → 0 ≤ i < 512 → path_ok (p ++ [i]).
Proof.
  intros (H1 & H2 & H3) Hne Hl Hi. split; [rewrite length_app; cbn; lia|]. split; [apply Forall_app; split; [done|by apply Forall_singleton]|]. intros j Hj. apply H3. by destruct p.
Qed.
Lemma has_page_index p : (length p < 3)%nat → has_page p → ∃ i t', T !! (p ++ [i]) = Some t' ∧ has_page (p ++ [i]).
Proof.
  intros Hl (r & u & j & Hr & [x ->] & Hlr & Hj & He). destruct x as [|i x]; [rewrite app_nil_r in Hlr; lia|]. rewrite cons_middle, app_assoc in Hr, Hlr. exists i.
  destruct (T !! (p ++ [i])) as [t'|] eqn:Ht'.
  - exists t'. split; [done|]. exists ((p ++ [i]) ++ x), u, j. split_and!; [done|by eexists|done|lia|lia|done].
  - exfalso. assert (under T (p ++ [i]) !! ((p ++ [i]) ++ x) = Some u) as Hx by (apply lookup_under; split; [done|by eexists]). by rewrite no_branch, lookup_empty in Hx.
Qed.
Lemma has_page_up p i : has_page (p ++ [i]) → has_page p.
Proof. intros (r & u & j & Hr & [x ->] & Hlr & Hj & He). eexists _, u, j. split_and!; [done|rewrite <-app_assoc; by eexists|done|lia|lia|done]. Qed.

(** One table: its entries lead to the tables below. *)
Lemma scan_run p t l (f : Z → M (machine (A := A)) MapError bool) : (length p < 3)%nat → T !! p = Some t → (∀ i, i ∈ l ↔ path_ok (p ++ [i])) →
  (∀ i t' e, T !! (p ++ [i]) = Some t' → points_to e t' → ∃ b, f e s = (s, Ok b) ∧ (b = true ↔ has_page (p ++ [i]))) →
  ∃ b, any_entry hhdm f t l s = (s, Ok b) ∧ (b = true ↔ has_page p).
Proof.
  intros Hl Hp Hpo Hf. destruct (Hpath _ _ Hp) as [_ Ht]. assert (∀ i, i ∈ l → 0 ≤ i < 512) as Hr. { intros i Hi%Hpo. by destruct (path_ok_last _ _ Hi). }
  set (g := λ i, match f (entry (ram s) t i) s with (_, Ok b) => b | _ => false end).
  assert (∀ i, i ∈ l → is_present (entry (ram s) t i) = true → f (entry (ram s) t i) s = (s, Ok (g i)) ∧ (g i = true → has_page (p ++ [i]))) as Hg.
  { intros i Hi He. pose proof (Hentry p t i Hp (proj1 (Hpo i) Hi)) as Hx. destruct (T !! (p ++ [i])) as [t'|] eqn:Ht'; [|by rewrite Hx in He].
    destruct (Hf i t' _ Ht' Hx) as (b & Hb & Hiff). unfold g. rewrite Hb. split; [done|]. apply Hiff. }
  eexists. split; [apply (any_entry_run s t Ht g); [by apply Forall_forall|intros i Hi He; by apply Hg]|]. rewrite existsb_exists. split.
  - intros (i & Hi%list_elem_of_In & [He Hgi]%andb_prop). apply (has_page_up p i). by apply Hg.
  - intros (i & t' & Ht' & Hpg)%has_page_index; [|done]. exists i. destruct (Hpath _ _ Ht') as [Hpi _]. pose proof (Hentry p t i Hp Hpi) as Hx. rewrite Ht' in Hx.
    split; [apply list_elem_of_In; by apply Hpo|]. rewrite (proj1 Hx). destruct (Hf i t' _ Ht' Hx) as (b & Hb & Hiff). unfold g. rewrite Hb. by apply Hiff.
Qed.
Lemma contains_leaf_run : ∀ level p t, (0 < level)%nat → (level + length p = 4)%nat → p ≠ [] → T !! p = Some t →
  ∃ b, contains_leaf_mapping hhdm level t s = (s, Ok b) ∧ (b = true ↔ has_page p).
Proof.
  induction level as [|level IH]; intros p t Hl Hlen Hne Hp; [lia|]. destruct (Hpath _ _ Hp) as [Hpo Ht]. cbn [contains_leaf_mapping]. destruct level as [|level'].
  - eexists. split; [apply (any_entry_run s t Ht (λ _, true)); [apply Forall_forall; intros i Hi%elem_of_seqZ; lia|done]|].
    rewrite existsb_exists. split.
    + intros (i & Hi & Hx). apply andb_prop in Hx as [Hx _]. apply list_elem_of_In, elem_of_seqZ in Hi. exists p, t, i. split_and!; [done|reflexivity|lia|lia|lia|done].
    + intros (r & u & i & Hr & [x ->] & Hlr & Hi & He). rewrite length_app in Hlr. assert (x = []) as -> by (destruct x; [done|cbn [length] in Hlr; lia]). rewrite app_nil_r in Hr. simplify_eq.
      exists i. rewrite He. split; [|done]. apply list_elem_of_In, elem_of_seqZ. lia.
  - apply scan_run; [lia|done| |].
    + intros i. rewrite elem_of_seqZ. split; [intros Hi; apply path_ok_user; [done..|lia|lia]|]. intros Hi%path_ok_last. lia.
    + intros i t' e Ht' (He1 & He2 & He3). unfold is_huge in He2. rewrite He2. fold (frame_of e). rewrite He3. apply IH; [lia|rewrite length_app; cbn [length]; lia|by destruct p|done].
Qed.
End release.

(** ** The pages of a table *)

Lemma lor_add a b k : 0 ≤ k → 0 ≤ b < 2 ^ k → Z.lor (Z.shiftl a k) b = a * 2 ^ k + b.
Proof.
  intros Hk Hb. rewrite Z.shiftl_mul_pow2 by done. assert (Z.land (a * 2 ^ k) b = 0) as Hd.
  { apply Z.bits_inj'. intros i Hi. rewrite Z.land_spec, Z.bits_0. destruct (decide (i < k)) as [|Hge]; [by rewrite Z.mul_pow2_bits_low|].
    rewrite <-(Z.mod_small b (2 ^ k)), Z.mod_pow2_bits_high by lia. apply andb_false_r. }
  by rewrite <-Z.lxor_lor, <-Z.add_nocarry_lxor.
Qed.
Lemma address_of_sum a b c d : 0 ≤ b < 512 → 0 ≤ c < 512 → 0 ≤ d < 512 → address_of a b c d = a * 2 ^ 39 + b * 2 ^ 30 + c * 2 ^ 21 + d * 2 ^ 12.
Proof.
  intros. unfold address_of. rewrite <-!Z.lor_assoc. assert (Z.shiftl d 12 = d * 2 ^ 12) as -> by (by rewrite Z.shiftl_mul_pow2). rewrite (lor_add c _ 21) by lia. rewrite (lor_add b _ 30) by lia. rewrite (lor_add a _ 39) by lia. lia.
Qed.
Lemma address_page a b c d : path_ok [a; b; c] → 0 ≤ d < 512 →
  user_page (address_of a b c d) ∧ sign_extend (address_of a b c d) = address_of a b c d ∧ path (address_of a b c d) = [a; b; c] ∧ index_pt (address_of a b c d) = d.
Proof.
  intros (_ & Hf & Ha) Hd. specialize (Ha a eq_refl). repeat (apply Forall_cons in Hf as [? Hf]). rewrite address_of_sum by done. set (va := _ + d * 2 ^ 12). assert (0 ≤ va < 2 ^ 47) as Hva by (unfold va; lia).
  split; [split; [done|unfold va; Z.div_mod_to_equations; lia]|]. split.
  - unfold sign_extend. assert (Z.land va (2 ^ 47) = 0) as ->; [|done]. rewrite <-(Z.mod_small va (2 ^ 47)) by done. apply Z.bits_inj'. intros i Hi. rewrite Z.land_spec, Z.bits_0, Z.pow2_bits_eqb by lia.
    destruct (Z.eqb_spec 47 i) as [<-|]; [by rewrite Z.mod_pow2_bits_high by lia|apply andb_false_r].
  - unfold path, index_pml4, index_pdpt, index_pd, index_pt. rewrite !index_div by lia.
    assert (va / 2 ^ 39 mod 512 = a ∧ va / 2 ^ 30 mod 512 = b ∧ va / 2 ^ 21 mod 512 = c ∧ va / 2 ^ 12 mod 512 = d) as (-> & -> & -> & ->); [|done].
    unfold va. split_and!; Z.div_mod_to_equations; lia.
Qed.
Lemma path_three (p : list Z) : length p = 3%nat → ∃ a b c, p = [a; b; c].
Proof. destruct p as [|a [|b [|c [|]]]]; try done. by exists a, b, c. Qed.

Section spaces.
Context {A : Type} {FA : FrameAllocator A} {SF : SharedFrames A} (hhdm : option Z) (cr3 : Z).
Context (Hhhdm : ∃ h, hhdm = Some h ∧ 0 ≤ h ∧ h + 2 ^ 37 < 2 ^ 64).
Implicit Types s : machine (A := A).

Lemma has_page_leaves s root T L Y : lives s root T L Y → has_page T s [] ↔ leaves L ≠ ∅.
Proof.
  intros H. pose proof (ho_tree _ _ _ _ (lv_hosts _ _ _ _ _ H)) as HT. split.
  - intros (r & u & i & Hr & _ & Hl & Hi & He) Hemp. destruct (path_three r Hl) as (a & b & c & ->). destruct (tr_path _ _ _ HT _ _ Hr) as [Hpo _].
    destruct (address_page a b c i Hpo Hi) as (Hva & _ & Hpath & Hidx). rewrite <-Hpath in Hr. destruct (located _ _ _ _ _ _ _ H Hva Hr) as (_ & _ & _ & Hen). rewrite Hidx in Hen.
    destruct (L !! address_of a b c i) as [e|] eqn:Hl'; [|by rewrite Hen in He]. cbn [default from_option id] in Hen. rewrite Hen in He.
    assert (frame_of e ∈ leaves L) as Hin by (apply elem_of_leaves; by eexists _, e). rewrite Hemp in Hin. by apply gmultiset_elem_of_empty in Hin.
  - intros [f (va & e & He & Hp & _)%elem_of_leaves]%gmultiset_choose. destruct (rp_dom _ _ _ (lv_rep _ _ _ _ _ H) _ _ He) as (Hva & _ & Hnz).
    destruct (T !! path va) as [t|] eqn:Ht; [|rewrite (not_located _ _ _ _ _ _ H Hva Ht) in He; done]. destruct (located _ _ _ _ _ _ _ H Hva Ht) as (_ & Hi & Hl & Hen).
    exists (path va), t, (index_pt va). split_and!; [done|apply prefix_nil|done|lia|lia|]. by rewrite Hen, He.
Qed.

Lemma root_path (p : list Z) i : p = [] → path_ok (p ++ [i]) ↔ 0 ≤ i < 256.
Proof.
  intros ->. cbn [app]. split; [intros (_ & Hf & Hi); rewrite Forall_singleton in Hf; specialize (Hi i eq_refl); lia|]. intros Hi. split; [cbn; lia|]. split; [apply Forall_singleton; lia|]. intros j [= <-]. lia.
Qed.
Lemma root_branches s root T : tree (ram s) root T → T = {[[] := root]} ∪ branches T [] (seqZ 0 256) ∧ {[[] := root]} ##ₘ branches T [] (seqZ 0 256).
Proof.
  intros HT. destruct (under_branches T [] root (seqZ 0 256) (tr_root _ _ _ HT)) as [He Hd].
  { intros r u i Hr [x ->]. destruct (tr_path _ _ _ HT _ _ Hr) as [Hpo _]. apply path_ok_prefix in Hpo. apply root_path in Hpo; [|done]. apply elem_of_seqZ. lia. }
  split; [|done]. rewrite <-He. symmetry. apply map_filter_id. intros r u _. apply prefix_nil.
Qed.

Lemma destroy_active s : destroy_address_space hhdm cr3 cr3 s = (s, Err ActiveAddressSpace).
Proof. unfold destroy_address_space. by rewrite Z.eqb_refl. Qed.
Lemma destroy_scan s root T L Y : lives s root T L Y →
  any_entry hhdm (λ e, if negb (Z.land e HUGE_PAGE =? 0) then mret true else contains_leaf_mapping hhdm 3 (Z.land e ADDRESS_MASK)) root (seqZ 0 256) s =
  (s, Ok (negb (bool_decide (leaves L = ∅)))).
Proof.
  intros H. pose proof (ho_tree _ _ _ _ (lv_hosts _ _ _ _ _ H)) as HT.
  destruct (scan_run hhdm Hhhdm T (tr_path _ _ _ HT) (tr_up _ _ _ HT) s (tr_entry _ _ _ HT) [] root (seqZ 0 256)
    (λ e, if negb (Z.land e HUGE_PAGE =? 0) then mret true else contains_leaf_mapping hhdm 3 (Z.land e ADDRESS_MASK))) as (b & Hr & Hb); [cbn; lia|apply HT| | |].
  - intros i. rewrite elem_of_seqZ, root_path by done. lia.
  - intros i t' e Ht' (He1 & He2 & He3). unfold is_huge in He2. rewrite He2. fold (frame_of e). rewrite He3.
    apply (contains_leaf_run hhdm Hhhdm T (tr_path _ _ _ HT) (tr_up _ _ _ HT) s (tr_entry _ _ _ HT)); [lia|done|done|done].
  - rewrite (has_page_leaves _ _ _ _ _ H) in Hb. rewrite Hr. repeat f_equal. case_bool_decide; destruct b; try done; [by destruct (proj1 Hb eq_refl)|]. by apply Hb.
Qed.
Lemma clean_space s root T L Y : lives s root T L Y → leaves L = ∅ → ∀ r, path_ok r → r ≠ [] → clean_under T (ram s) r.
Proof.
  intros H Hl. pose proof (ho_tree _ _ _ _ (lv_hosts _ _ _ _ _ H)) as HT.
  intros r Hr Hne q u i Hq [x ->] Hi. assert (r ++ x ≠ []) as Hne' by (by destruct r). destruct (tr_path _ _ _ HT _ _ Hq) as [Hpo _]. destruct (decide (length (r ++ x) = 3%nat)) as [Hlen|Hlen].
  - unfold clean. assert (T !! ((r ++ x) ++ [i]) = None) as ->. { destruct (T !! ((r ++ x) ++ [i])) eqn:Hx; [|done]. destruct (tr_path _ _ _ HT _ _ Hx) as [(Hx' & _) _]. rewrite length_app in Hx'. cbn [length] in Hx'. lia. }
    destruct (is_present (entry (ram s) u i)) eqn:He; [|done]. exfalso. apply (proj1 (has_page_leaves _ _ _ _ _ H)); [|done]. exists (r ++ x), u, i. split_and!; [done|apply prefix_nil|done|lia|lia|done].
  - apply (tr_entry _ _ _ HT); [done|]. apply path_ok_user; [done..| |done]. destruct Hpo as [? _]. lia.
Qed.
Lemma destroy_clear s root T L Y : lives s root T L Y → leaves L = ∅ →
  ∃ s', clear_entries hhdm (λ e, n ← destroy_table hhdm 3 (Z.land e ADDRESS_MASK); release_table n (Z.land e ADDRESS_MASK)) root (seqZ 0 256) 0 s =
    (s', Ok (Z.of_nat (size (branches T [] (seqZ 0 256))))) ∧ released T s s' ({[+ root +]} ⊎ Y).
Proof.
  intros H Hl. pose proof (lv_hosts _ _ _ _ _ H) as [Hram HT Ho Hap]. rewrite Hl, (left_id_L ∅ (⊎)) in Ho. destruct (root_branches s root T HT) as [HTb Hd].
  rewrite HTb, tables_union, tables_singleton in Ho by done.
  destruct (clear_entries_run hhdm Hhhdm T (tr_path _ _ _ HT) (tr_inj _ _ _ HT) (tr_up _ _ _ HT) [] root (tr_root _ _ _ HT)
    (λ e, n ← destroy_table hhdm 3 (Z.land e ADDRESS_MASK); release_table n (Z.land e ADDRESS_MASK)) (seqZ 0 256)) with (s := s) (X := {[+ root +]} ⊎ Y) (n := 0) as (s1 & Hr & Hrel).
  - apply NoDup_seqZ.
  - apply Forall_forall. intros i Hi%elem_of_seqZ. lia.
  - apply Forall_forall. intros i Hi s1 X1 e t' Ht' (He1 & He2 & He3) Hc1 Ho1. fold (frame_of e). rewrite He3.
    apply (release_child T (tr_path _ _ _ HT) (destroy_table hhdm 3) ([] ++ [i]) t' s1 X1); [done..|].
    intros X' HX'. apply (destroy_table_run hhdm Hhhdm T (tr_path _ _ _ HT) (tr_inj _ _ _ HT) (tr_up _ _ _ HT)); [lia|done|done|done|done].
  - intros i Hi%elem_of_seqZ. assert (path_ok ([] ++ [i])) as Hpi by (apply root_path; [done|lia]). split; [apply (tr_entry _ _ _ HT); [apply HT|done]|]. by eapply clean_space.
  - rewrite (assoc_L (⊎)), (comm_L (⊎) (tables (branches T [] _))). exact Ho.
  - exists s1. rewrite Hr, Z.add_0_l. split; [done|]. by rewrite <-HTb in Hrel.
Qed.
Abbreviation page_below := (λ e, if negb (Z.land e HUGE_PAGE =? 0) then mret true else contains_leaf_mapping hhdm 3 (Z.land e ADDRESS_MASK)).
Abbreviation release_below := (λ e, n ← destroy_table hhdm 3 (Z.land e ADDRESS_MASK); release_table n (Z.land e ADDRESS_MASK)).
Lemma destroy_remain s root : root ≠ cr3 → any_entry hhdm page_below root (seqZ 0 256) s = (s, Ok true) → destroy_address_space hhdm cr3 root s = (s, Err MappingsRemain).
Proof. intros Hcr H. unfold destroy_address_space. rewrite (proj2 (Z.eqb_neq _ _) Hcr). unfold mbind at 1, M_bind at 1. by rewrite H. Qed.
Lemma destroy_free s root s1 n a : root ≠ cr3 → any_entry hhdm page_below root (seqZ 0 256) s = (s, Ok false) →
  clear_entries hhdm release_below root (seqZ 0 256) 0 s = (s1, Ok n) → free_frame (pool s1) root = (a, true) →
  destroy_address_space hhdm cr3 root s = (set_pool s1 a, Ok (n + 1)).
Proof.
  intros Hcr H1 H2 H3. unfold destroy_address_space. rewrite (proj2 (Z.eqb_neq _ _) Hcr). unfold mbind at 1, M_bind at 1. rewrite H1.
  unfold mbind at 1, M_bind at 1. rewrite H2. unfold mbind, M_bind, give_frame. by rewrite H3.
Qed.
(** Pages that remain keep the space; otherwise its tables are freed. *)
Lemma destroy_spec s root T L Y : lives s root T L Y → root ≠ cr3 →
  if decide (leaves L = ∅) then
    ∃ s', destroy_address_space hhdm cr3 root s = (s', Ok (Z.of_nat (size T))) ∧ owned (pool s') Y ∧ ram_ok (ram s') ∧ swap_slots s' = swap_slots s ∧ frames_kept Y s s'
  else destroy_address_space hhdm cr3 root s = (s, Err MappingsRemain).
Proof.
  intros H Hcr. pose proof (destroy_scan _ _ _ _ _ H) as Hscan. case_decide as Hl; [rewrite bool_decide_true in Hscan by done|rewrite bool_decide_false in Hscan by done; by apply destroy_remain].
  pose proof (lv_hosts _ _ _ _ _ H) as [Hram HT Ho Hap]. destruct (destroy_clear _ _ _ _ _ H Hl) as (s1 & Hclr & [Ho1 Hs1 Hm1 Hk1]).
  destruct (owned_free (pool s1) ({[+ root +]} ⊎ Y) root Ho1) as (a & Ha & Ho2); [apply elem_head|]. destruct (root_branches s root T HT) as [HTb Hd].
  exists (set_pool s1 a). rewrite (destroy_free s root s1 _ a Hcr Hscan Hclr Ha). split; [|split_and!].
  - assert (size T = 1 + size (branches T [] (seqZ 0 256)))%nat as ->; [|by rewrite Z.add_comm, Nat2Z.inj_add]. rewrite <-(map_size_singleton (M := gmap (list Z)) [] root), <-map_size_disj_union by done. by rewrite <-HTb.
  - cbn. by rewrite head_minus in Ho2.
  - by apply Hm1.
  - done.
  - intros f Hf. apply Hk1; [eapply hosts_frame; [apply H|by apply elem_tail]|]. intros q Hq. eapply Hap; [done|]. by apply elem_tail.
Qed.

(** ** Creation *)

Lemma allocate_table_spec s Y : ram_ok (ram s) → owned (pool s) Y →
  match allocate_table hhdm s with
  | (s', Ok f) => is_frame f ∧ f ∉ Y ∧ owned (pool s') ({[+ f +]} ⊎ Y) ∧ ram s' = zero_page (ram s) f ∧ swap_slots s' = swap_slots s
  | (s', Err e) => e = OutOfMemory ∧ owned (pool s') Y ∧ ram s' = ram s ∧ swap_slots s' = swap_slots s
  | _ => False
  end.
Proof.
  intros Hram Ho. unfold allocate_table, mbind, M_bind, take_frame. destruct (alloc_frame (pool s)) as [a [f|]] eqn:Ha; [|by split_and!; [|eapply owned_alloc_none|..]].
  destruct (owned_alloc_some _ _ _ _ Ho Ha) as [Hf Ho']. assert (is_frame f) as Hff by (apply (owned_address a _ f Ho'), elem_head).
  destruct (direct_some hhdm Hhhdm f Hff) as [v Hv]. unfold direct_map. rewrite Hv. cbn [ok_or]. unfold modify. cbn [mret M_ret]. by split_and!.
Qed.

Lemma copy_entries_spec from to : is_frame from → is_frame to → from ≠ to → ∀ l s, ram_ok (ram s) → Forall (λ i, 0 ≤ i < 512) l →
  ∃ s', copy_entries hhdm from to l s = (s', Ok ()) ∧ ram_ok (ram s') ∧ pool s' = pool s ∧ swap_slots s' = swap_slots s ∧
    (∀ f, is_frame f → f ≠ to → same_frame f (ram s) (ram s')) ∧
    ∀ i, 0 ≤ i < 512 → entry (ram s') to i = if decide (i ∈ l) then entry (ram s) from i else entry (ram s) to i.
Proof.
  intros Hfrom Hto Hne. induction l as [|i l IH]; intros s Hram Hl; cbn [copy_entries]; [by exists s; split_and!|]. apply Forall_cons in Hl as [Hi Hl].
  unfold mbind, M_bind. rewrite entry_at_run, set_entry_run by done. set (s1 := set_ram s _).
  assert (∀ f, is_frame f → f ≠ to → same_frame f (ram s) (ram s1)) as Hs1 by (intros f Hf Hft; by apply write_same_frame).
  destruct (IH s1) as (s' & -> & Hram' & Hpool & Hsl & Hsame & Hent); [by apply ram_ok_write|done|]. exists s'. split_and!; try done.
  - intros f Hf Hft. eapply same_frame_trans; [by apply Hs1|by apply Hsame].
  - intros j Hj. rewrite Hent, (entry_same from j (ram s)) by (done || by apply Hs1). assert (entry (ram s1) to j = if decide (j = i) then entry (ram s) from i else entry (ram s) to j) as ->.
    { case_decide as Hji; [subst j; apply entry_write_eq; by apply entry_u64|]. apply entry_write_ne; [done..|congruence]. }
    destruct (decide (j ∈ l)) as [Hin|Hin]; [rewrite decide_True by (by right); done|]. case_decide as Hji; [subst j; rewrite decide_True by (by left); done|]. rewrite decide_False; [done|]. by rewrite not_elem_of_cons.
Qed.

(** The new space maps nothing of its own and shares the kernel's half. *)
Lemma create_spec s Y : ram_ok (ram s) → owned (pool s) Y → cr3 ∈ Y →
  match create_address_space hhdm cr3 s with
  | (s', Ok root) => lives s' root {[[] := root]} ∅ Y ∧ frames_kept Y s s' ∧ root ≠ cr3 ∧ swap_slots s' = swap_slots s ∧ ∀ i, 256 ≤ i < 512 → entry (ram s') root i = entry (ram s) cr3 i
  | (s', Err e) => e = OutOfMemory ∧ ram s' = ram s ∧ swap_slots s' = swap_slots s ∧ owned (pool s') Y
  | _ => False
  end.
Proof.
  intros Hram Ho Hcr. pose proof (allocate_table_spec s Y Hram Ho) as Ha. unfold create_address_space, mbind, M_bind. destruct (allocate_table hhdm s) as [s1 [f|e|]]; [|naive_solver|done].
  destruct Ha as (Hf & HfY & Ho1 & Hr1 & Hs1). assert (is_frame cr3) as Hc by (by apply (owned_address (pool s) Y)). assert (f ≠ cr3) as Hne by (intros ->; done).
  assert (∀ g, is_frame g → g ≠ f → same_frame g (ram s) (ram s1)) as Hz by (intros g Hg Hgf; rewrite Hr1; by apply zero_same_frame).
  destruct (copy_entries_spec cr3 f Hc Hf ltac:(done) (seqZ 256 256) s1) as (s2 & -> & Hram2 & Hp2 & Hs2 & Hsame & Hent); [rewrite Hr1; by apply ram_ok_zero|apply Forall_forall; intros i Hi%elem_of_seqZ; lia|].
  assert (∀ i, 0 ≤ i < 256 → entry (ram s2) f i = 0) as Hlow. { intros i Hi. rewrite Hent by lia. rewrite decide_False by (rewrite elem_of_seqZ; lia). rewrite Hr1. apply entry_zero. lia. }
  split_and!; [split; [split|]| |done|by rewrite Hs2|].
  - done.
  - split.
    + by rewrite lookup_singleton_eq.
    + intros p t [<- <-]%lookup_singleton_Some. split; [|done]. split; [cbn; lia|]. split; [constructor|done].
    + by intros p q t [<- <-]%lookup_singleton_Some [<- _]%lookup_singleton_Some.
    + intros p i [t [Hx _]%lookup_singleton_Some]. by destruct p.
    + intros p t i [<- <-]%lookup_singleton_Some Hi. rewrite lookup_singleton_ne by done. apply root_path in Hi; [|done]. cbn [app] in *. rewrite Hlow by done. done.
  - rewrite Hp2. unfold leaves. by rewrite tables_singleton, msum_empty, (left_id_L ∅ (⊎)).
  - intros p t [<- <-]%lookup_singleton_Some. unfold leaves. by rewrite msum_empty, (left_id_L ∅ (⊎)).
  - split; [done|]. intros va Hva. rewrite lookup_empty. unfold leaf_at, leaf. by rewrite lookup_singleton_ne.
  - intros g Hg. assert (is_frame g) by (by apply (owned_address (pool s) Y)). assert (g ≠ f) by (intros ->; done). eapply same_frame_trans; [by apply Hz|by apply Hsame].
  - intros i Hi. rewrite Hent by lia. rewrite decide_True by (apply elem_of_seqZ; lia). apply entry_same; [|lia]. by apply Hz.
Qed.
End spaces.
