(* ===== verification/PageTableFork.v ===== *)
(** * Address spaces that share pages

    All the spaces of a machine at once; what a process sees of memory; pages
    copied when they are written; and spaces copied by [fork]. *)

From stdpp Require Import gmap gmultiset.
From S2P Require Import Prelude Words Vfs Frames SharedFrames Swap SwapSlots SwapSpec PageTable PageTableTree PageTableSpec PageTableSpaces.

(** ** All the spaces *)

(** The tables and pages of the space at a root. *)
Abbreviation space := (gmap (list Z) Z * gmap Z Z)%type.
Definition frames_of (x : space) : gmultiset Z := tables x.1 ⊎ leaves x.2.
Definition total (W : gmap Z space) : gmultiset Z := msum frames_of W.
(** A frame that is a table of some space. *)
Definition table_in (W : gmap Z space) (u : Z) : Prop := ∃ root x p, W !! root = Some x ∧ x.1 !! p = Some u.

Lemma tables_once m root T p t : tree m root T → T !! p = Some t → multiplicity t (tables T) = 1%nat.
Proof.
  intros HT Hp. unfold tables. rewrite (msum_delete _ _ _ _ Hp), multiplicity_disj_union, multiplicity_singleton_eq. fold (tables (delete p T)).
  rewrite (proj1 (not_elem_of_multiplicity t _)); [done|]. intros [q [Hne Hq]%lookup_delete_Some]%elem_of_tables. apply Hne. by eapply tr_inj.
Qed.
Lemma elem_of_total W f : f ∈ total W ↔ ∃ root x, W !! root = Some x ∧ f ∈ frames_of x.
Proof. apply elem_of_msum. Qed.
Lemma table_in_total W u : table_in W u → u ∈ total W.
Proof. intros (root & x & p & Hx & Hp). apply elem_of_total. exists root, x. split; [done|]. apply gmultiset_elem_of_disj_union. left. apply elem_of_tables. by exists p. Qed.

Section worlds.
Context {A : Type} {FA : FrameAllocator A} {SF : SharedFrames A} (hhdm : option Z) (cr3 : Z).
Context (Hhhdm : ∃ h, hhdm = Some h ∧ 0 ≤ h ∧ h + 2 ^ 37 < 2 ^ 64).
Implicit Types s : machine (A := A).

(** The spaces [W], beside frames [R] in use for other things. *)
Record world s (W : gmap Z space) (R : gmultiset Z) : Prop := {
  wd_ram : ram_ok (ram s); wd_owned : owned (pool s) (total W ⊎ R);
  wd_space root x : W !! root = Some x → tree (ram s) root x.1 ∧ rep (ram s) x.1 x.2;
  wd_once u : table_in W u → multiplicity u (total W ⊎ R) = 1%nat }.

Lemma total_delete W root x : W !! root = Some x → total W = frames_of x ⊎ total (delete root W).
Proof. apply msum_delete. Qed.
Lemma total_insert V root x : V !! root = None → total (<[root := x]> V) = frames_of x ⊎ total V.
Proof. apply msum_insert. Qed.

Lemma world_rest s W R root x : world s W R → W !! root = Some x → world s (delete root W) (frames_of x ⊎ R).
Proof.
  intros H Hx. assert (total (delete root W) ⊎ (frames_of x ⊎ R) = total W ⊎ R) as Heq by (rewrite (total_delete W root x Hx), (assoc_L (⊎)); f_equal; apply (comm_L (⊎))).
  split.
  - apply H.
  - rewrite Heq. apply H.
  - intros r y [_ Hy]%lookup_delete_Some. by apply H.
  - rewrite Heq. intros u (r & y & p & [_ Hy]%lookup_delete_Some & Hp). apply H. by exists r, y, p.
Qed.
Lemma world_focus s W R root T L : world s W R → W !! root = Some (T, L) → lives s root T L (total (delete root W) ⊎ R).
Proof.
  intros H Hx. destruct (wd_space _ _ _ H _ _ Hx) as [HT Hrep]. cbn [fst snd] in *.
  assert (tables T ⊎ (leaves L ⊎ (total (delete root W) ⊎ R)) = total W ⊎ R) as Heq by (rewrite (total_delete W root _ Hx); unfold frames_of; cbn [fst snd]; by rewrite !(assoc_L (⊎))).
  split; [split|done]; [apply H|done|rewrite Heq; apply H|]. intros p t Hp. pose proof (wd_once _ _ _ H t) as Ho. rewrite <-Heq, multiplicity_disj_union, (tables_once _ _ _ _ _ HT Hp) in Ho.
  apply not_elem_of_multiplicity. assert (table_in W t) as Hin by (by exists root, (T, L), p). specialize (Ho Hin). lia.
Qed.
Lemma world_join s s' V R R' root T L : world s V R → V !! root = None → lives s' root T L (total V ⊎ R') → frames_kept (total V) s s' →
  (∀ u, table_in V u → u ∉ leaves L ⊎ R') → world s' (<[root := (T, L)]> V) R'.
Proof.
  intros H Hn [[Hram HT Ho Hap] Hrep] Hk Hnew.
  assert (total (<[root := (T, L)]> V) ⊎ R' = tables T ⊎ (leaves L ⊎ (total V ⊎ R'))) as Heq by (rewrite total_insert by done; unfold frames_of; cbn [fst snd]; by rewrite !(assoc_L (⊎))).
  split; [done|by rewrite Heq| |].
  - intros r y [[<- <-]|[Hne Hy]]%lookup_insert_Some; [done|]. destruct (wd_space _ _ _ H _ _ Hy) as [HTy Hry].
    assert (∀ p t, y.1 !! p = Some t → same_frame t (ram s) (ram s')) as Hs by (intros p t Hp; apply Hk, table_in_total; by exists r, y, p). split; [by eapply tree_same|by eapply rep_same].
  - intros u (r & y & p & [[<- <-]|[Hne Hy]]%lookup_insert_Some & Hp); rewrite Heq, multiplicity_disj_union.
    + rewrite (tables_once _ _ _ _ _ HT Hp), (proj1 (not_elem_of_multiplicity u _)); [done|by eapply Hap].
    + assert (table_in V u) as Hin by (by exists r, y, p). pose proof (wd_once _ _ _ H u Hin) as Hu. rewrite multiplicity_disj_union in Hu. pose proof (table_in_total _ _ Hin) as Hut. rewrite elem_of_multiplicity in Hut.
      assert (multiplicity u (tables T) = 0)%nat. { apply not_elem_of_multiplicity. intros [q Hq]%elem_of_tables. apply (Hap q u Hq). rewrite !gmultiset_elem_of_disj_union. right. left. by apply table_in_total. }
      pose proof (proj1 (not_elem_of_multiplicity u _) (Hnew u Hin)) as Hzero. rewrite multiplicity_disj_union in Hzero. rewrite !multiplicity_disj_union. lia.
Qed.
(** One space moves on; the frames it has or leaves to others were its own. *)
Lemma world_move s s' W R R' root T L T' L' : world s W R → W !! root = Some (T, L) →
  moved s root T L (total (delete root W) ⊎ R) s' L' (total (delete root W) ⊎ R') T' → world s' (<[root := (T', L')]> W) R'.
Proof.
  intros H Hx Hm. rewrite <-insert_delete_eq. pose proof (world_rest _ _ _ _ _ H Hx) as Hr. eapply world_join; [done|apply lookup_delete_eq|apply Hm| |].
  - intros f Hf. apply Hm. rewrite !gmultiset_elem_of_disj_union. tauto.
  - intros u Hu Hin. pose proof (wd_once _ _ _ Hr u Hu) as H1. pose proof (table_in_total _ _ Hu) as H2. rewrite elem_of_multiplicity in H2, Hin.
    assert (multiplicity u (leaves L' ⊎ (total (delete root W) ⊎ R')) = multiplicity u (leaves L ⊎ (total (delete root W) ⊎ R))) as H3 by (by rewrite (mv_total _ _ _ _ _ _ _ _ _ Hm)).
    unfold frames_of in H1. cbn [fst snd] in H1. rewrite !multiplicity_disj_union in H1. rewrite !multiplicity_disj_union in H3. rewrite !multiplicity_disj_union in Hin. lia.
Qed.

(** ** What a process sees *)

Definition user_byte s (root a : Z) : option Z := t ← translate_in hhdm s root a; Some (ram s (physical_address t)).
Definition page_frame (L : gmap Z Z) (va : Z) : option Z := e ← L !! va; if is_present e then Some (frame_of e) else None.
Lemma user_byte_page s W R root T L a : world s W R → W !! root = Some (T, L) → 0 ≤ a < 2 ^ 47 →
  user_byte s root a = (λ f, ram s (f + a mod 4096)) <$> page_frame L (page_of a).
Proof.
  intros H Hx Ha. unfold user_byte. rewrite (translate_in_spec hhdm Hhhdm s root T L _ a (world_focus _ _ _ _ _ _ H Hx) Ha). unfold page_frame.
  destruct (L !! page_of a) as [e|]; [|done]. cbn [mbind option_bind]. by destruct (is_present e).
Qed.
Lemma page_frame_in L va f : page_frame L va = Some f → f ∈ leaves L.
Proof. unfold page_frame. destruct (L !! va) as [e|] eqn:He; [|done]. cbn. destruct (is_present e) eqn:Hp; [|done]. intros [= <-]. apply elem_of_leaves. by exists va, e. Qed.

(** ** Copying a page that is written *)

Definition is_writable (e : Z) : bool := negb (Z.land e MAP_WRITABLE =? 0).
Definition flags_of (e : Z) : Z := Z.land e (bnot 64 ADDRESS_MASK).
(** The flags of the private page: writable, and no longer copied on write. *)
Definition own_flags (e : Z) : Z := Z.lor (Z.land (flags_of e) (bnot 64 MAP_COW)) MAP_WRITABLE.
Lemma flags_bits e i : is_u 64 e → 0 ≤ i → Z.testbit (flags_of e) i = negb (bool_decide (12 ≤ i < 52)) && Z.testbit e i.
Proof.
  intros He Hi. unfold flags_of. rewrite Z.land_spec, bnot_testbit, address_mask_bits by lia. destruct (decide (i < 64)) as [Hl|Hl].
  - rewrite (bool_decide_true (0 ≤ i < 64)) by lia. destruct (Z.testbit e i), (bool_decide (12 ≤ i < 52)); done.
  - replace (Z.testbit e i) with false; [by rewrite !andb_false_r|]. symmetry. apply is_u_bits in He as [_ He]; [|lia]. apply He. lia.
Qed.
Lemma own_flags_ok e : is_u 64 e → is_flags (own_flags e).
Proof. intros He. apply flags_lor; [|apply (bit_flags 1); lia]. apply flags_land. by apply flags_of_entry. Qed.
Lemma own_entry f e : is_frame f → is_u 64 e → is_present e = true →
  let e' := Z.lor f (own_flags e) in
  is_u 64 e' ∧ is_present e' = true ∧ is_writable e' = true ∧ is_cow e' = false ∧ frame_of e' = f ∧ e' ≠ 0 ∧
  ∀ k, 0 ≤ k < 12 ∨ k = 63 → k ≠ 1 → k ≠ 9 → Z.testbit e' k = Z.testbit e k.
Proof.
  intros Hf He Hp e'. pose proof (own_flags_ok e He) as Hfl.
  assert (∀ k, 0 ≤ k < 12 ∨ k = 63 → Z.testbit e' k = if decide (k = 1) then true else if decide (k = 9) then false else Z.testbit e k) as Hb.
  { intros k Hk. unfold e'. rewrite flag_combine by done. unfold own_flags, MAP_COW, MAP_WRITABLE. rewrite Z.lor_spec, Z.land_spec, bnot_testbit, flags_bits, !Z.shiftl_1_l, !Z.pow2_bits_eqb by (done || lia).
    rewrite (bool_decide_false (12 ≤ k < 52)), (bool_decide_true (0 ≤ k < 64)) by lia. cbn [negb andb].
    destruct (Z.eqb_spec 9 k), (Z.eqb_spec 1 k), (decide (k = 1)), (decide (k = 9)); try lia; cbn; by rewrite ?andb_true_r, ?andb_false_r, ?orb_true_r, ?orb_false_r. }
  assert (is_present e' = true) as Hp'. { unfold is_present, PRESENT in *. rewrite land_bit, negb_involutive in * by lia. by rewrite Hb by lia. }
  split_and!; [by apply combine_u64|done| | |by apply frame_of_combine|intros Hz; by rewrite Hz in Hp'|].
  - unfold is_writable, MAP_WRITABLE. by rewrite land_bit, negb_involutive, Hb by lia.
  - unfold is_cow, MAP_COW. by rewrite land_bit, negb_involutive, Hb by lia.
  - intros k Hk H1 H9. rewrite Hb by done. by rewrite !decide_False.
Qed.

Lemma lives_pool s root T L Y a Y' : lives s root T L Y → owned a (tables T ⊎ (leaves L ⊎ Y')) → (∀ p t, T !! p = Some t → t ∉ leaves L ⊎ Y') → lives (set_pool s a) root T L Y'.
Proof. intros [[? ? ? ?] ?] Ho Hap. by split; [split|]. Qed.
Lemma lives_ram s root T L Y m : lives s root T L Y → ram_ok m → (∀ p t, T !! p = Some t → same_frame t (ram s) m) → lives (set_ram s m) root T L Y.
Proof. intros [[? ? ? ?] ?] Hm Hs. split; [split; [done| |done..]|]; [by eapply tree_same|by eapply rep_same]. Qed.
Lemma copy_same_frame m f g h : is_frame g → is_frame h → h ≠ g → same_frame h m (copy_page m f g).
Proof.
  intros Hg Hh Hne x Hx. unfold copy_page, PAGE_SIZE. destruct (frames_apart g h) as [?|?]; [done..|congruence| |]; destruct (Z.leb_spec g x), (Z.ltb_spec x (g + 4096)); cbn; try done; lia.
Qed.
Lemma copied m f g off : 0 ≤ off < 4096 → copy_page m f g (g + off) = m (f + off).
Proof. intros. unfold copy_page, PAGE_SIZE. rewrite (proj2 (Z.leb_le _ _)), (proj2 (Z.ltb_lt _ _)) by lia. cbn. f_equal. lia. Qed.

(** The page is the space's alone afterwards, and holds what it held. *)
Record unshared s (root : Z) (T : gmap (list Z) Z) (L : gmap Z Z) (Y : gmultiset Z) (va e f : Z) s' : Prop := {
  us_lives : lives s' root T (<[va := Z.lor f (own_flags e)]> L) Y;
  us_once : multiplicity f (leaves (<[va := Z.lor f (own_flags e)]> L) ⊎ Y) = 1%nat;
  us_kept : frames_kept (leaves L ⊎ Y) s s';
  us_same off : 0 ≤ off < 4096 → ram s' (f + off) = ram s (frame_of e + off);
  us_frame : f = frame_of e ∨ f ∉ leaves L ⊎ Y }.

Lemma leaves_own L va e f : L !! va = Some e → is_u 64 e → is_present e = true → is_frame f → leaves (<[va := Z.lor f (own_flags e)]> L) = {[+ f +]} ⊎ leaves (delete va L).
Proof. intros He Hu Hp Hf. destruct (own_entry f e Hf Hu Hp) as (_ & Hp' & _ & _ & Hf' & _). rewrite leaves_insert. unfold mapped. by rewrite Hp', Hf'. Qed.

(** The only page of a frame is made writable in place. *)
Lemma unshare_alone s root T L Y va t e : lives s root T L Y → user_page va → T !! path va = Some t → L !! va = Some e → is_present e = true →
  frame_refcount (pool s) (frame_of e) ≤ 1 →
  unshared s root T L Y va e (frame_of e) (set_ram s (write_u64 (ram s) (t + index_pt va * 8) (Z.lor (frame_of e) (own_flags e)))).
Proof.
  intros H Hva Ht He Hp Hrc. pose proof (leaf_frame _ _ _ _ _ _ _ H He Hp) as Hf. destruct (rp_dom _ _ _ (lv_rep _ _ _ _ _ H) _ _ He) as (_ & Hu & _).
  destruct (own_entry _ e Hf Hu Hp) as (Hu' & Hp' & _ & _ & Hf' & Hnz & _). pose proof (leaves_own L va e _ He Hu Hp Hf) as Hlv.
  assert (leaves (<[va := Z.lor (frame_of e) (own_flags e)]> L) = leaves L) as Hsame by (rewrite Hlv, (leaves_delete L va e He); unfold mapped; by rewrite Hp).
  pose proof (lives_write s root T L Y Y va t _ H Hva Ht Hu') as Hw. unfold set_leaf in Hw. rewrite (proj2 (Z.eqb_neq _ _) Hnz), Hsame in Hw. destruct (Hw eq_refl) as [Hl Hk].
  assert (frame_of e ∈ leaves L ⊎ Y) as Hin by (apply gmultiset_elem_of_disj_union; left; apply elem_of_leaves; by exists va, e).
  split; [done| |done| |by left].
  - pose proof (owned_refcount (pool s) _ (frame_of e) (ho_owned _ _ _ _ (lv_hosts _ _ _ _ _ H)) (elem_tail _ _ (tables T) Hin)) as Hm.
    rewrite elem_of_multiplicity in Hin. rewrite Hsame. rewrite multiplicity_disj_union in Hm. lia.
  - intros off Hoff. apply (Hk _ Hin). lia.
Qed.

(** A frame with other users is copied to one of its own. *)
Lemma unshare_copy s root T L Y va t e a1 f : lives s root T L Y → user_page va → T !! path va = Some t → L !! va = Some e → is_present e = true →
  alloc_frame (pool s) = (a1, Some f) →
  ∃ a2, free_frame a1 (frame_of e) = (a2, true) ∧ is_frame f ∧
  unshared s root T L Y va e f (set_ram (set_pool s a2) (write_u64 (copy_page (ram s) (frame_of e) f) (t + index_pt va * 8) (Z.lor f (own_flags e)))).
Proof.
  intros H Hva Ht He Hp Ha. pose proof (leaf_frame _ _ _ _ _ _ _ H He Hp) as Hfe. destruct (rp_dom _ _ _ (lv_rep _ _ _ _ _ H) _ _ He) as (_ & Hu & _).
  pose proof (lv_hosts _ _ _ _ _ H) as [Hram HT Ho Hap]. destruct (owned_alloc_some _ _ _ _ Ho Ha) as [Hnew Ho1]. assert (is_frame f) as Hf by (apply (owned_address a1 _ f Ho1), elem_head).
  assert (f ∉ leaves L ⊎ Y) as HfL by (intros Hx; apply Hnew; by apply elem_tail). assert (∀ p u, T !! p = Some u → u ≠ f) as HfT by (intros p u Hpu ->; apply Hnew, gmultiset_elem_of_disj_union; left; apply elem_of_tables; by exists p).
  destruct (own_entry f e Hf Hu Hp) as (Hu' & Hp' & _ & _ & Hf' & Hnz & _). pose proof (leaves_own L va e f He Hu Hp Hf) as Hlv. pose proof (leaves_delete L va e He) as HLd. unfold mapped in HLd. rewrite Hp in HLd.
  assert (lives (set_pool s a1) root T L ({[+ f +]} ⊎ Y)) as H1.
  { eapply lives_pool; [done| |].
    - replace (tables T ⊎ (leaves L ⊎ ({[+ f +]} ⊎ Y))) with ({[+ f +]} ⊎ (tables T ⊎ (leaves L ⊎ Y))); [done|multiset_solver].
    - intros p u Hpu Hin. apply (Hap p u Hpu). pose proof (HfT p u Hpu). multiset_solver. }
  assert (lives (set_ram (set_pool s a1) (copy_page (ram s) (frame_of e) f)) root T L ({[+ f +]} ⊎ Y)) as H2.
  { apply lives_ram; [done|by apply ram_ok_copy|]. intros p u Hpu. apply copy_same_frame; [done|by eapply tr_path|by eapply HfT]. }
  pose proof (lives_write _ root T L ({[+ f +]} ⊎ Y) ({[+ frame_of e +]} ⊎ Y) va t _ H2 Hva Ht Hu') as Hw. unfold set_leaf in Hw. rewrite (proj2 (Z.eqb_neq _ _) Hnz), Hlv in Hw.
  destruct Hw as [H3 Hk3]; [rewrite HLd; multiset_solver|]. cbn [ram set_ram] in H3, Hk3.
  destruct (owned_free _ _ (frame_of e) (ho_owned _ _ _ _ (lv_hosts _ _ _ _ _ H3))) as (a2 & Ha2 & Ho2); [multiset_solver|]. cbn [pool set_ram set_pool] in Ha2.
  exists a2. split; [done|]. split; [done|]. rewrite Hlv in Ho2. pose proof (ho_apart _ _ _ _ (lv_hosts _ _ _ _ _ H3)) as Hap3. rewrite Hlv in Hap3.
  assert (lives (set_pool (set_ram (set_pool s a1) (write_u64 (copy_page (ram s) (frame_of e) f) (t + index_pt va * 8) (Z.lor f (own_flags e)))) a2) root T (<[va := Z.lor f (own_flags e)]> L) Y) as H4.
  { eapply lives_pool; [exact H3| |]; rewrite Hlv.
    - replace (tables T ⊎ ({[+ f +]} ⊎ leaves (delete va L) ⊎ Y)) with ((tables T ⊎ ({[+ f +]} ⊎ leaves (delete va L) ⊎ ({[+ frame_of e +]} ⊎ Y))) ∖ {[+ frame_of e +]}); [done|multiset_solver].
    - intros p u Hpu Hin. apply (Hap3 p u Hpu). multiset_solver. }
  split; [exact H4| | | |by right].
  - rewrite Hlv. assert (f ∉ leaves (delete va L) ⊎ Y) as Hn by (rewrite HLd in HfL; multiset_solver). apply not_elem_of_multiplicity in Hn. rewrite <-(assoc_L (⊎)), multiplicity_disj_union, multiplicity_singleton_eq, Hn. done.
  - intros g Hg. assert (is_frame g) as Hgf by (eapply hosts_frame; [apply H|done]). eapply same_frame_trans; [apply (copy_same_frame _ (frame_of e) f g Hf Hgf); intros ->; done|]. apply Hk3. multiset_solver.
  - intros off Hoff. rewrite <-(copied (ram s) (frame_of e) f off Hoff). apply (Hk3 f); [multiset_solver|lia].
Qed.

Definition shared_at (L : gmap Z Z) (va : Z) : bool := match L !! va with Some e => is_present e && is_cow e | None => false end.
Lemma cow_spec s root T L Y a : lives s root T L Y → 0 ≤ a < 2 ^ 47 →
  match resolve_cow_page hhdm root a s with
  | (s', Ok true) => ∃ e f, L !! page_of a = Some e ∧ is_present e = true ∧ is_cow e = true ∧ is_frame f ∧ unshared s root T L Y (page_of a) e f s' ∧ swap_slots s' = swap_slots s
  | (s', Ok false) => s' = s ∧ shared_at L (page_of a) = false
  | (s', Err err) => err = OutOfMemory ∧ shared_at L (page_of a) = true ∧ lives s' root T L Y ∧ ram s' = ram s ∧ swap_slots s' = swap_slots s
  | _ => False
  end.
Proof.
  intros H Ha. destruct (page_index a Ha) as (Hva & _ & _ & _). unfold resolve_cow_page, shared_at. set (va := page_of a) in *. clearbody va. clear a Ha.
  unfold mbind, M_bind. rewrite (pte_location_run hhdm Hhhdm s root T L Y va false H Hva). destruct (T !! path va) as [t|] eqn:Ht; cbn [fmap option_fmap option_map].
  2: { by rewrite (not_located _ _ _ _ _ _ H Hva Ht). }
  destruct (located _ _ _ _ _ _ _ H Hva Ht) as (Hft & Hi & Hlen & Hen). cbn [table_phys pte_index]. rewrite entry_at_run, Hen by done.
  destruct (L !! va) as [e|] eqn:He; cbn [default from_option id]; [|done].
  destruct (is_present e) eqn:Hp; [rewrite (proj1 (present_bit e) Hp)|by rewrite (proj1 (absent_bit e) Hp)]. cbn [orb andb].
  unfold is_cow. destruct (Z.land e MAP_COW =? 0) eqn:Hc; cbn [negb]; [done|]. cbn [default from_option id] in Hen. rewrite entry_at_run, Hen by done. rewrite (proj1 (present_bit e) Hp), Hc. cbn [orb]. unfold get. fold (frame_of e) (flags_of e). fold (own_flags e).
  pose proof (leaf_frame _ _ _ _ _ _ _ H He Hp) as Hf. destruct (Z.leb_spec (frame_refcount (pool s) (frame_of e)) 1) as [Hrc|Hrc].
  - rewrite set_entry_run by done. exists e, (frame_of e). split_and!; [done..|by rewrite Hc|done|by apply unshare_alone|done].
  - unfold take_frame. destruct (alloc_frame (pool s)) as [a1 [f|]] eqn:Ha.
    + destruct (unshare_copy s root T L Y va t e a1 f) as (a2 & Hfr & Hff & Hus); [done..|]. unfold direct_map. destruct (direct_some hhdm Hhhdm _ Hf) as [v1 ->], (direct_some hhdm Hhhdm _ Hff) as [v2 ->]. cbn [ok_or].
      unfold modify, give_frame. cbn [pool set_ram set_pool ram]. rewrite Hfr. rewrite set_entry_run by done. rewrite land_mask_frame by done. cbn [mret M_ret ram set_pool set_ram].
      exists e, f. split_and!; [done..|by rewrite Hc|done|exact Hus|done].
    + split_and!; [done..| |done|done]. pose proof (lv_hosts _ _ _ _ _ H) as [_ _ Ho Hap]. eapply lives_pool; [done|by eapply owned_alloc_none|done].
Qed.

(** ** Isolation *)

(** A writable page is the only user of its frame. *)
Definition exclusive (W : gmap Z space) (R : gmultiset Z) : Prop := ∀ root x va e, W !! root = Some x → x.2 !! va = Some e →
  is_present e = true → is_writable e = true → multiplicity (frame_of e) (total W ⊎ R) = 1%nat.

(** Two pages of a frame with one user are the same page. *)
Lemma leaves_two L va va' e e' : L !! va = Some e → L !! va' = Some e' → is_present e = true → is_present e' = true → frame_of e = frame_of e' → va ≠ va' →
  (2 ≤ multiplicity (frame_of e) (leaves L))%nat.
Proof.
  intros He He' Hp Hp' Hf Hne. rewrite (leaves_delete L va e He), multiplicity_disj_union. unfold mapped. rewrite Hp, multiplicity_singleton_eq.
  assert (frame_of e ∈ leaves (delete va L)) as Hin by (apply elem_of_leaves; exists va', e'; by rewrite lookup_delete_ne). rewrite elem_of_multiplicity in Hin. lia.
Qed.
Lemma once_unique W R root x va e root' x' va' e' : W !! root = Some x → x.2 !! va = Some e → is_present e = true → multiplicity (frame_of e) (total W ⊎ R) = 1%nat →
  W !! root' = Some x' → x'.2 !! va' = Some e' → is_present e' = true → frame_of e' = frame_of e → root' = root ∧ va' = va.
Proof.
  intros Hx He Hp Hone Hx' He' Hp' Hf. rewrite multiplicity_disj_union, (total_delete W root x Hx), multiplicity_disj_union in Hone. unfold frames_of in Hone at 1. rewrite multiplicity_disj_union in Hone.
  assert (frame_of e ∈ leaves x.2) as Hin by (apply elem_of_leaves; by exists va, e). rewrite elem_of_multiplicity in Hin. destruct (decide (root' = root)) as [->|Hne].
  - split; [done|]. destruct (decide (va' = va)) as [|Hv]; [done|]. assert (x' = x) as -> by congruence. pose proof (leaves_two x.2 va va' e e' He He' Hp Hp' (eq_sym Hf) (not_eq_sym Hv)). lia.
  - exfalso. assert (frame_of e ∈ total (delete root W)) as Hin'. { apply elem_of_total. exists root', x'. split; [by rewrite lookup_delete_ne|]. apply gmultiset_elem_of_disj_union. right. apply elem_of_leaves. by exists va', e'. }
    rewrite elem_of_multiplicity in Hin'. lia.
Qed.

(** Every process sees the same memory in both states. *)
Definition same_view (W : gmap Z space) s s' : Prop := ∀ root a, is_Some (W !! root) → 0 ≤ a < 2 ^ 47 → user_byte s' root a = user_byte s root a.

(** Frames that are not written, and pages that are not moved. *)
Lemma view_kept s s' W W' R R' root x x' a : world s W R → world s' W' R' → W !! root = Some x → W' !! root = Some x' → 0 ≤ a < 2 ^ 47 →
  page_frame x'.2 (page_of a) = page_frame x.2 (page_of a) → (∀ f, page_frame x.2 (page_of a) = Some f → same_frame f (ram s) (ram s')) → user_byte s' root a = user_byte s root a.
Proof.
  intros H H' Hx Hx' Ha Hpf Hs. destruct x as [T L], x' as [T' L']. rewrite (user_byte_page s W R root T L a), (user_byte_page s' W' R' root T' L' a) by done. cbn [snd] in *. rewrite Hpf.
  destruct (page_frame L (page_of a)) as [f|] eqn:Hf; cbn [fmap option_fmap option_map]; [|done]. f_equal. apply (Hs f eq_refl). pose proof (Z.mod_pos_bound a 4096). lia.
Qed.
Lemma page_frame_insert_ne L va e va' : va' ≠ va → page_frame (<[va := e]> L) va' = page_frame L va'.
Proof. intros. unfold page_frame. by rewrite lookup_insert_ne. Qed.
Lemma page_frame_insert L va e : is_present e = true → page_frame (<[va := e]> L) va = Some (frame_of e).
Proof. intros Hp. unfold page_frame. rewrite lookup_insert_eq. cbn. by rewrite Hp. Qed.

(** A space with a page of its own, in the world. *)
Section unshare.
Context s s' (W : gmap Z space) (R : gmultiset Z) (root : Z) (T : gmap (list Z) Z) (L : gmap Z Z) (va e f : Z).
Context (H : world s W R) (Hx : W !! root = Some (T, L)) (He : L !! va = Some e) (Hp : is_present e = true) (Hf : is_frame f).
Context (Hus : unshared s root T L (total (delete root W) ⊎ R) va e f s').
Let e' := Z.lor f (own_flags e).
Let L' := <[va := e']> L.
Let W' := <[root := (T, L')]> W.

Lemma unshare_entry : is_u 64 e ∧ is_present e' = true ∧ is_writable e' = true ∧ frame_of e' = f.
Proof.
  destruct (rp_dom _ _ _ (proj2 (wd_space _ _ _ H _ _ Hx)) _ _ He) as (_ & Hu & _). destruct (own_entry f e Hf Hu Hp) as (_ & ? & ? & _ & ? & _). by split_and!.
Qed.
Lemma unshare_leaves : leaves L' = {[+ f +]} ⊎ leaves (delete va L).
Proof. destruct unshare_entry as (Hu & _). exact (leaves_own L va e f He Hu Hp Hf). Qed.
Lemma unshare_total : total W' ⊎ R = tables T ⊎ (leaves L' ⊎ (total (delete root W) ⊎ R)).
Proof. unfold W'. rewrite <-insert_delete_eq, total_insert by apply lookup_delete_eq. unfold frames_of. cbn [fst snd]. by rewrite !(assoc_L (⊎)). Qed.
Lemma unshare_world : world s' W' R.
Proof.
  unfold W'. rewrite <-insert_delete_eq. pose proof (world_rest _ _ _ _ _ H Hx) as Hr. destruct unshare_entry as (Hu & _). eapply world_join; [done|apply lookup_delete_eq|apply Hus| |].
  - intros g Hg. apply Hus. rewrite !gmultiset_elem_of_disj_union. tauto.
  - intros u Hu' Hin. pose proof (wd_once _ _ _ Hr u Hu') as H1. pose proof (table_in_total _ _ Hu') as H2. rewrite elem_of_multiplicity in H2, Hin.
    rewrite unshare_leaves in Hin. unfold frames_of in H1. cbn [fst snd] in H1. rewrite (leaves_delete L va e He) in H1. rewrite !multiplicity_disj_union in H1. rewrite !multiplicity_disj_union in Hin.
    destruct (decide (u = f)) as [->|Hne]; [|rewrite multiplicity_singleton_ne in Hin by done; lia]. destruct (us_frame _ _ _ _ _ _ _ _ _ Hus) as [Hfe|Hfe].
    + unfold mapped in H1. rewrite Hp, <-Hfe, multiplicity_singleton_eq in H1. lia.
    + apply Hfe. rewrite !gmultiset_elem_of_disj_union. right. left. by apply elem_of_multiplicity.
Qed.
Lemma unshare_exclusive : exclusive W R → exclusive W' R.
Proof.
  intros Hex r y v ev Hy Hv Hpv Hwv. rewrite unshare_total. destruct unshare_entry as (Hu & Hp' & _ & Hf').
  assert (∀ w ew z, (<[root := (T, L')]> W) !! w = Some z → z.2 !! ew = Some ev → (w, ew) ≠ (root, va) → ∃ z0, W !! w = Some z0 ∧ z0.2 !! ew = Some ev) as Hold.
  { intros w ew z [[<- <-]|[Hne Hz]]%lookup_insert_Some Hew Hne'; [|by exists z]. exists (T, L). split; [done|]. cbn [snd] in *. unfold L' in Hew. rewrite lookup_insert_ne in Hew; [done|congruence]. }
  destruct (decide ((r, v) = (root, va))) as [[= -> ->]|Hne].
  - assert (y = (T, L')) as -> by (unfold W' in Hy; rewrite lookup_insert_eq in Hy; congruence). cbn [snd] in Hv. unfold L' in Hv. rewrite lookup_insert_eq in Hv. injection Hv as <-. rewrite Hf'.
    rewrite multiplicity_disj_union. pose proof (us_once _ _ _ _ _ _ _ _ _ Hus) as Honce. fold e' in Honce. fold L' in Honce. rewrite Honce. assert (f ∉ tables T) as Hnt; [|apply not_elem_of_multiplicity in Hnt; lia].
    intros [p Hpt]%elem_of_tables. eapply (ho_apart _ _ _ _ (lv_hosts _ _ _ _ _ (us_lives _ _ _ _ _ _ _ _ _ Hus))); [done|]. apply gmultiset_elem_of_disj_union. left. fold e' L'. rewrite unshare_leaves. apply elem_head.
  - destruct (Hold r v y Hy Hv Hne) as (z & Hz & Hzv). pose proof (Hex r z v ev Hz Hzv Hpv Hwv) as Hone. rewrite (total_delete W root _ Hx) in Hone. unfold frames_of in Hone. cbn [fst snd] in Hone. rewrite (leaves_delete L va e He) in Hone.
    rewrite !multiplicity_disj_union in Hone. rewrite unshare_leaves, !multiplicity_disj_union.
    assert (frame_of ev ≠ f) as Hnf.
    { intros Heq. destruct (us_frame _ _ _ _ _ _ _ _ _ Hus) as [Hfe|Hfe].
      - destruct (once_unique W R r z v ev root (T, L) va e Hz Hzv Hpv) as [-> ->]; try done; [by eapply Hex|congruence].
      - apply Hfe. rewrite <-Heq. rewrite !gmultiset_elem_of_disj_union. destruct (decide (r = root)) as [->|Hr].
        + left. assert (z = (T, L)) as -> by congruence. apply elem_of_leaves. by exists v, ev.
        + right. left. apply elem_of_total. exists r, z. rewrite lookup_delete_ne by done. split; [done|]. apply gmultiset_elem_of_disj_union. right. apply elem_of_leaves. by exists v, ev. }
    rewrite multiplicity_singleton_ne by done.
    assert (multiplicity (frame_of ev) (mapped e) = 0)%nat; [|lia]. unfold mapped. rewrite Hp. apply multiplicity_singleton_ne. intros Heq.
    destruct (once_unique W R r z v ev root (T, L) va e Hz Hzv Hpv) as [-> ->]; try done; by eapply Hex.
Qed.
Lemma unshare_view : same_view W s s'.
Proof.
  intros r a [[Tr Lr] Hr] Ha. destruct unshare_entry as (_ & Hp' & _ & Hf'). pose proof unshare_world as H'. destruct (decide (r = root)) as [->|Hne].
  - assert (Tr = T ∧ Lr = L) as [-> ->] by (split; congruence). destruct (decide (page_of a = va)) as [Hpa|Hpa].
    + rewrite (user_byte_page s W R root T L a) by done. rewrite (user_byte_page s' W' R root T L' a); [|done|unfold W'; by rewrite lookup_insert_eq|done]. rewrite Hpa. unfold L'. rewrite page_frame_insert, Hf' by done.
      unfold page_frame. rewrite He. cbn. rewrite Hp. cbn. f_equal. apply Hus. apply Z.mod_pos_bound. lia.
    + eapply (view_kept s s' W W' R R root (T, L) (T, L')); [done..|unfold W'; by rewrite lookup_insert_eq|done| |]; cbn [snd]; [unfold L'; by rewrite page_frame_insert_ne|]. intros g Hg. apply Hus.
      apply gmultiset_elem_of_disj_union. left. by eapply page_frame_in.
  - eapply (view_kept s s' W W' R R r (Tr, Lr) (Tr, Lr)); [done..|unfold W'; by rewrite lookup_insert_ne|done|done|]. intros g Hg. apply Hus. rewrite !gmultiset_elem_of_disj_union. right. left. apply elem_of_total.
    exists r, (Tr, Lr). rewrite lookup_delete_ne by done. split; [done|]. apply gmultiset_elem_of_disj_union. right. by eapply page_frame_in.
Qed.
End unshare.
End worlds.
