(* ===== verification/PageTableClone.v ===== *)
(** * Copying an address space

    [clone_user_address_space] gives the child the pages of the parent: both
    see the same memory, and no page is writable in both.  A copy that fails
    for lack of memory leaves no frame behind. *)

From stdpp Require Import gmap gmultiset.
From S2P Require Import Prelude Words Vfs Frames SharedFrames Swap SwapSlots SwapSpec PageTable PageTableTree PageTableSpec PageTableSpaces PageTableFork.

(** ** Entries that are shared *)

Lemma cow_flags_ok fl : is_flags fl → is_flags (cow_flags fl).
Proof. intros Hfl. unfold cow_flags. case_match; [|done]. apply flags_lor; [by apply flags_land|]. apply (bit_flags 9). lia. Qed.
Lemma frame_flags e : is_u 64 e → Z.lor (frame_of e) (flags_of e) = e.
Proof.
  intros He. apply Z.bits_inj'. intros i Hi. rewrite Z.lor_spec, flags_bits by done. unfold frame_of. rewrite Z.land_spec, address_mask_bits by done. case_bool_decide; destruct (Z.testbit e i); done.
Qed.
(** The entry of a page in both spaces after the copy. *)
Definition shared (e : Z) : Z := if is_present e then map_entry (frame_of e) (cow_flags (flags_of e)) else e.
Lemma shared_read_only e : is_u 64 e → is_present e = true → (Z.land (flags_of e) MAP_WRITABLE =? 0) = true → shared e = e.
Proof.
  intros He Hp Hw. unfold shared, cow_flags. rewrite Hp, Hw. cbn [negb]. unfold map_entry. rewrite frame_flags by done. apply Z.bits_inj'. intros i Hi. unfold PRESENT. rewrite Z.lor_spec, Z.shiftl_1_l, Z.pow2_bits_eqb by done.
  destruct (Z.eqb_spec 0 i) as [<-|]; [|by rewrite orb_false_r]. unfold is_present, PRESENT in Hp. rewrite land_bit, negb_involutive in Hp by lia. by rewrite Hp.
Qed.
Lemma shared_ok e : is_u 64 e → (is_present e = true → is_frame (frame_of e)) → e ≠ 0 →
  is_u 64 (shared e) ∧ shared e ≠ 0 ∧ is_present (shared e) = is_present e ∧ (is_present e = true → frame_of (shared e) = frame_of e) ∧
  (is_present e = true → is_writable (shared e) = false ∧ (is_writable e || is_cow e) = (is_writable (shared e) || is_cow (shared e))).
Proof.
  intros Hu Hf Hnz. unfold shared. destruct (is_present e) eqn:Hp; [|by rewrite Hp]. specialize (Hf eq_refl). assert (is_flags (cow_flags (flags_of e))) as Hfl by (by apply cow_flags_ok, flags_of_entry).
  destruct (map_entry_ok _ _ Hf Hfl) as (H1 & H2 & H3 & H4). split_and!; [done..|intros _]. unfold is_writable, is_cow, MAP_WRITABLE, MAP_COW, map_entry. rewrite !land_bit, !negb_involutive by lia.
  assert (∀ k, k = 1 ∨ k = 9 → Z.testbit (Z.lor (Z.lor (frame_of e) (cow_flags (flags_of e))) PRESENT) k = Z.testbit (cow_flags (flags_of e)) k) as Hk.
  { intros k Hk. unfold PRESENT. rewrite Z.lor_spec, Z.shiftl_1_l, Z.pow2_bits_eqb, flag_combine by (done || lia). destruct (Z.eqb_spec 0 k); [lia|]. apply orb_false_r. }
  rewrite !Hk by lia. unfold cow_flags, MAP_WRITABLE, MAP_COW. rewrite land_bit, negb_involutive, flags_bits by (done || lia). cbn [bool_decide negb]. change (bool_decide (12 ≤ 1 < 52)) with false. cbn [negb andb].
  destruct (Z.testbit e 1) eqn:H1b.
  - rewrite !Z.lor_spec, !Z.land_spec, !bnot_testbit, !Z.shiftl_1_l, !Z.pow2_bits_eqb by lia. rewrite !flags_bits by (done || lia). rewrite H1b. cbn. by rewrite !orb_true_r.
  - rewrite !flags_bits by (done || lia). rewrite H1b. done.
Qed.
Lemma mapped_shared e : is_u 64 e → (is_present e = true → is_frame (frame_of e)) → e ≠ 0 → mapped (shared e) = mapped e.
Proof. intros Hu Hf Hnz. destruct (shared_ok e Hu Hf Hnz) as (_ & _ & Hp & Hfr & _). unfold mapped. rewrite Hp. destruct (is_present e); [by rewrite Hfr|done]. Qed.

(** ** The spaces half way *)

Definition share_below (b : Z) (L : gmap Z Z) : gmap Z Z := map_imap (λ k e, Some (if k <? b then shared e else e)) L.
Definition copies_below (b : Z) (L : gmap Z Z) : gmap Z Z := map_imap (λ k e, if (k <? b) && is_present e then Some (shared e) else None) L.
Lemma lookup_share b L k : share_below b L !! k = (λ e, if k <? b then shared e else e) <$> L !! k.
Proof. unfold share_below. rewrite map_lookup_imap. by destruct (L !! k). Qed.
Lemma lookup_copies b L k : copies_below b L !! k = e ← L !! k; if (k <? b) && is_present e then Some (shared e) else None.
Proof. unfold copies_below. by rewrite map_lookup_imap. Qed.

Section steps.
Context (L : gmap Z Z) (b b' : Z).
(** No page is mapped between the two. *)
Lemma share_skip : (∀ k e, L !! k = Some e → b ≤ k < b' → is_present e = false) → b ≤ b' → share_below b' L = share_below b L.
Proof.
  intros Hn Hb. apply map_eq. intros k. rewrite !lookup_share. destruct (L !! k) as [e|] eqn:He; [|done]. cbn. f_equal. destruct (Z.ltb_spec k b), (Z.ltb_spec k b'); try done; [lia|].
  unfold shared. by rewrite (Hn k e He) by lia.
Qed.
Lemma copies_skip : (∀ k e, L !! k = Some e → b ≤ k < b' → is_present e = false) → b ≤ b' → copies_below b' L = copies_below b L.
Proof.
  intros Hn Hb. apply map_eq. intros k. rewrite !lookup_copies. destruct (L !! k) as [e|] eqn:He; [|done]. cbn. destruct (Z.ltb_spec k b), (Z.ltb_spec k b'); try done; [lia|]. cbn [andb]. by rewrite (Hn k e He) by lia.
Qed.
(** One page is. *)
Lemma share_step e : L !! b = Some e → (∀ k, is_Some (L !! k) → k mod 4096 = 0) → share_below (b + 4096) L = <[b := shared e]> (share_below b L).
Proof.
  intros He Hal. assert (b mod 4096 = 0) as Hb by (apply Hal; by exists e). apply map_eq. intros k. rewrite lookup_share. destruct (decide (k = b)) as [->|Hne]; [rewrite lookup_insert_eq, He; cbn; f_equal; by rewrite (proj2 (Z.ltb_lt _ _)) by lia|].
  rewrite lookup_insert_ne, lookup_share by done. destruct (L !! k) as [ek|] eqn:Hk; [|done]. cbn. f_equal. assert (k mod 4096 = 0) as Hkm by (apply Hal; by exists ek).
  assert ((k <? b + 4096) = (k <? b)) as ->; [|done]. destruct (Z.ltb_spec k (b + 4096)), (Z.ltb_spec k b); try done; Z.div_mod_to_equations; lia.
Qed.
Lemma copies_step e : L !! b = Some e → is_present e = true → (∀ k, is_Some (L !! k) → k mod 4096 = 0) → copies_below (b + 4096) L = <[b := shared e]> (copies_below b L).
Proof.
  intros He Hp Hal. assert (b mod 4096 = 0) as Hb by (apply Hal; by exists e). apply map_eq. intros k. rewrite lookup_copies. destruct (decide (k = b)) as [->|Hne]; [rewrite lookup_insert_eq, He; cbn; by rewrite Hp, (proj2 (Z.ltb_lt _ _)) by lia|].
  rewrite lookup_insert_ne, lookup_copies by done. destruct (L !! k) as [ek|] eqn:Hk; [|done]. cbn. assert (k mod 4096 = 0) as Hkm by (apply Hal; by exists ek).
  assert ((k <? b + 4096) = (k <? b)) as ->; [|done]. destruct (Z.ltb_spec k (b + 4096)), (Z.ltb_spec k b); try done; Z.div_mod_to_equations; lia.
Qed.
End steps.

(** The frames of the entries a function makes. *)
Lemma leaves_imap (g : Z → Z → option Z) (h : Z → Z → bool) L :
  (∀ k e, L !! k = Some e → match g k e with Some e' => mapped e' = if h k e then mapped e else ∅ | None => (if h k e then mapped e else ∅) = ∅ end) →
  leaves (map_imap g L) = leaves (filter (λ kv, h kv.1 kv.2 = true) L).
Proof.
  induction L as [|k e L Hk IH] using map_ind; intros Hg; [by rewrite map_imap_empty, map_filter_empty|].
  assert (leaves (map_imap g L) = leaves (filter (λ kv, h kv.1 kv.2 = true) L)) as HIH.
  { apply IH. intros k' e' He'. apply Hg. rewrite lookup_insert_ne; [done|congruence]. }
  specialize (Hg k e (lookup_insert_eq _ _ _)). assert (map_imap g L !! k = None) as Hn by (by rewrite map_lookup_imap, Hk). assert (filter (λ kv, h kv.1 kv.2 = true) L !! k = None) as Hn' by (by apply map_lookup_filter_None_2; left).
  rewrite map_imap_insert, map_filter_insert. cbn [fst snd]. rewrite (delete_id L) by done. 
  destruct (decide (h k e = true)) as [Hh|Hh]; [rewrite Hh in Hg|apply not_true_is_false in Hh; rewrite Hh in Hg]; destruct (g k e) as [e'|]; rewrite ?leaves_insert, ?delete_id, ?Hg, ?HIH by done; by rewrite ?(left_id_L ∅ (⊎)).
Qed.
Definition entries_ok (L : gmap Z Z) : Prop := ∀ k e, L !! k = Some e → user_page k ∧ is_u 64 e ∧ e ≠ 0 ∧ (is_present e = true → is_frame (frame_of e)).
Lemma leaves_share b L : entries_ok L → leaves (share_below b L) = leaves L.
Proof.
  intros HL. unfold share_below. rewrite (leaves_imap _ (λ _ _, true)); [f_equal; by apply map_filter_id|]. intros k e He. destruct (HL k e He) as (_ & ? & ? & ?). destruct (k <? b); [by apply mapped_shared|done].
Qed.
Lemma leaves_copies b L : entries_ok L → leaves (copies_below b L) ⊎ leaves (filter (λ kv, (b <=? kv.1) = true) L) = leaves L.
Proof.
  intros HL. unfold copies_below. rewrite (leaves_imap _ (λ k _, k <? b)).
  - unfold leaves at 1 2 3. cbn [fst snd]. rewrite <-msum_union.
    + f_equal. apply map_eq. intros k. apply option_eq. intros e. rewrite lookup_union_Some, !map_lookup_filter_Some; cbn.
      * rewrite Z.ltb_lt, Z.leb_le. split; [tauto|]. intros ?. destruct (decide (k < b)); [left|right]; (split; [done|lia]).
      * apply map_disjoint_spec. intros i x y [_ Hi]%map_lookup_filter_Some [_ Hj]%map_lookup_filter_Some. cbn in *. lia.
    + apply map_disjoint_spec. intros i x y [_ Hi]%map_lookup_filter_Some [_ Hj]%map_lookup_filter_Some. cbn in *. lia.
  - intros k e He. destruct (HL k e He) as (_ & Hu & Hnz & Hfr). destruct (k <? b); cbn [andb]; [|done]. destruct (is_present e) eqn:Hp; [exact (mapped_shared e Hu (λ _, Hfr eq_refl) Hnz)|]. unfold mapped. by rewrite Hp.
Qed.

(** The pages below an entry. *)
Lemma range_pml4 a k : 0 ≤ a < 256 → a * 2 ^ 39 ≤ k < (a + 1) * 2 ^ 39 → index_pml4 k = a.
Proof. intros. unfold index_pml4. rewrite index_div by lia. Z.div_mod_to_equations. lia. Qed.
Lemma range_pdpt a b k : 0 ≤ a < 256 → 0 ≤ b < 512 → a * 2 ^ 39 + b * 2 ^ 30 ≤ k < a * 2 ^ 39 + (b + 1) * 2 ^ 30 → index_pml4 k = a ∧ index_pdpt k = b.
Proof. intros. unfold index_pml4, index_pdpt. rewrite !index_div by lia. Z.div_mod_to_equations. lia. Qed.
Lemma range_pd a b c k : 0 ≤ a < 256 → 0 ≤ b < 512 → 0 ≤ c < 512 → a * 2 ^ 39 + b * 2 ^ 30 + c * 2 ^ 21 ≤ k < a * 2 ^ 39 + b * 2 ^ 30 + (c + 1) * 2 ^ 21 →
  index_pml4 k = a ∧ index_pdpt k = b ∧ index_pd k = c.
Proof. intros. unfold index_pml4, index_pdpt, index_pd. rewrite !index_div by lia. Z.div_mod_to_equations. lia. Qed.

(** Two spaces among others. *)
Abbreviation both src x new y V := (<[src := x]> (<[new := y]> V) : gmap Z space).

Section two.
Context {A : Type} {FA : FrameAllocator A} {SF : SharedFrames A} (hhdm : option Z) (cr3 : Z).
Context (Hhhdm : ∃ h, hhdm = Some h ∧ 0 ≤ h ∧ h + 2 ^ 37 < 2 ^ 64).
Implicit Types s : machine (A := A).

(** ** Frames given and taken *)

Lemma world_entries s W R root T L : world s W R → W !! root = Some (T, L) → entries_ok L.
Proof.
  intros H Hx k e He. pose proof (world_focus _ _ _ _ _ _ H Hx) as Hl. destruct (rp_dom _ _ _ (lv_rep _ _ _ _ _ Hl) _ _ He) as (? & ? & ?). split_and!; [done..|]. intros Hp. by eapply leaf_frame.
Qed.
(** One more user of a page. *)
Lemma world_ref s W R root T L f : world s W R → W !! root = Some (T, L) → f ∈ leaves L → Z.of_nat (multiplicity f (total W ⊎ R)) < 65535 →
  world (set_pool s (frame_ref_inc (pool s) f)) W ({[+ f +]} ⊎ R).
Proof.
  intros H Hx Hf Hm. assert (f ∈ total W) as Hft. { apply elem_of_total. exists root, (T, L). split; [done|]. apply gmultiset_elem_of_disj_union. by right. }
  assert (total W ⊎ ({[+ f +]} ⊎ R) = {[+ f +]} ⊎ (total W ⊎ R)) as Heq by (rewrite !(assoc_L (⊎)), (comm_L (⊎) (total W)); done).
  split; [apply H|rewrite Heq; apply owned_ref_inc; [apply H|by apply gmultiset_elem_of_disj_union; left|done]|apply H|].
  intros u Hu. pose proof (wd_once _ _ _ H u Hu) as Ho. rewrite Heq, multiplicity_disj_union, Ho. rewrite multiplicity_singleton_ne; [done|]. intros ->.
  pose proof (world_focus _ _ _ _ _ _ H Hx) as Hl. destruct Hu as (r & y & p & Hy & Hp). destruct (decide (r = root)) as [->|Hne].
  - eapply (ho_apart _ _ _ _ (lv_hosts _ _ _ _ _ Hl)); [replace y with (T, L) in Hp by congruence; exact Hp|]. apply gmultiset_elem_of_disj_union. by left.
  - assert (f ∈ total (delete root W)) as H2 by (apply table_in_total; exists r, y, p; by rewrite lookup_delete_ne). rewrite elem_of_multiplicity in H2, Hf.
    rewrite (total_delete W root _ Hx) in Ho. unfold frames_of in Ho. cbn [fst snd] in Ho. rewrite !multiplicity_disj_union in Ho. lia.
Qed.
Lemma world_free s W R f : world s W ({[+ f +]} ⊎ R) → ∃ a, free_frame (pool s) f = (a, true) ∧ world (set_pool s a) W R.
Proof.
  intros H. assert (total W ⊎ ({[+ f +]} ⊎ R) = {[+ f +]} ⊎ (total W ⊎ R)) as Heq by (rewrite !(assoc_L (⊎)), (comm_L (⊎) (total W)); done).
  destruct (owned_free (pool s) _ f (wd_owned _ _ _ H)) as (a & Ha & Ho); [rewrite Heq; apply elem_head|]. rewrite Heq, head_minus in Ho. exists a. split; [done|]. split; [apply H|done|apply H|].
  intros u Hu. pose proof (wd_once _ _ _ H u Hu) as Hone. rewrite Heq, multiplicity_disj_union in Hone. pose proof (table_in_total _ _ Hu) as Hut. rewrite elem_of_multiplicity in Hut. rewrite multiplicity_disj_union in Hone |- *. lia.
Qed.
(** A space that goes. *)
Lemma world_drop s s' W R root : world s W R → is_Some (W !! root) → owned (pool s') (total (delete root W) ⊎ R) → ram_ok (ram s') → frames_kept (total (delete root W)) s s' → world s' (delete root W) R.
Proof.
  intros H [x Hx] Ho Hram Hk. split; [done..| |].
  - intros r y Hy. pose proof Hy as [_ Hy']%lookup_delete_Some. destruct (wd_space _ _ _ H _ _ Hy') as [HT Hrep].
    split; [eapply tree_same|eapply rep_same]; try done; intros p t Hp; apply Hk, table_in_total; by exists r, y, p.
  - intros u Hu. pose proof (wd_once _ _ _ (world_rest _ _ _ _ _ H Hx) u Hu) as Hone. pose proof (table_in_total _ _ Hu) as Hut. rewrite elem_of_multiplicity in Hut. rewrite !multiplicity_disj_union in Hone. rewrite multiplicity_disj_union. lia.
Qed.

(** ** Two spaces among the others *)

Section pair.
Context (src new : Z) (V : gmap Z space) (R : gmultiset Z) (Hne : src ≠ new) (Hsrc : V !! src = None) (Hnew : V !! new = None).
Implicit Types x y : space.

Lemma both_src x y : both src x new y V !! src = Some x.
Proof. apply lookup_insert_eq. Qed.
Lemma both_new x y : both src x new y V !! new = Some y.
Proof. rewrite lookup_insert_ne by done. apply lookup_insert_eq. Qed.
Lemma both_set_src x x' y : <[src := x']> (both src x new y V) = both src x' new y V.
Proof. apply insert_insert_eq. Qed.
Lemma both_set_new x y y' : <[new := y']> (both src x new y V) = both src x new y' V.
Proof. rewrite insert_insert_ne by done. by rewrite insert_insert_eq. Qed.
Lemma both_drop_src x y : delete src (both src x new y V) = <[new := y]> V.
Proof. rewrite delete_insert_eq, delete_id; [done|]. by rewrite lookup_insert_ne. Qed.
Lemma both_drop_new x y : delete new (both src x new y V) = <[src := x]> V.
Proof. rewrite delete_insert_ne, delete_insert_eq, delete_id by done. done. Qed.
Lemma total_both x y : total (both src x new y V) = frames_of x ⊎ (frames_of y ⊎ total V).
Proof. rewrite total_insert by (by rewrite lookup_insert_ne). by rewrite total_insert. Qed.
Lemma total_src x : total (<[src := x]> V) = frames_of x ⊎ total V.
Proof. by apply total_insert. Qed.
Lemma total_new y : total (<[new := y]> V) = frames_of y ⊎ total V.
Proof. by apply total_insert. Qed.

(** The pages of the copy given back one by one. *)
Lemma undo_clone_spec x Tn : ∀ pages s Ln, world s (both src x new (Tn, Ln) V) R → NoDup pages.*1 → (∀ va, va ∈ pages.*1 → present_at Ln va = true) →
  ∃ s' Ln', undo_clone hhdm new pages s = (s', Ok ()) ∧ world s' (both src x new (Tn, Ln') V) R ∧ frames_kept (frames_of x ⊎ (total V ⊎ R)) s s' ∧
    ∀ va, Ln' !! va = if decide (va ∈ pages.*1) then None else Ln !! va.
Proof.
  induction pages as [|[va f0] pages IH]; intros s Ln H Hnd Hall; cbn [undo_clone fmap list_fmap fst] in *.
  { exists s, Ln. split_and!; [done..|apply frames_kept_refl|]. intros va. by rewrite decide_False by apply not_elem_of_nil. }
  apply NoDup_cons in Hnd as [Hni Hnd]. pose proof (Hall va ltac:(left)) as Hp. unfold present_at in Hp. destruct (Ln !! va) as [e|] eqn:He; [|done].
  pose proof (world_focus _ _ _ _ _ _ H (both_new _ _)) as Hl. rewrite both_drop_new in Hl. destruct (rp_dom _ _ _ (lv_rep _ _ _ _ _ Hl) _ _ He) as (Hva & _).
  pose proof (unmap_spec hhdm Hhhdm _ _ _ _ _ va Hl Hva) as Hu. rewrite He, Hp in Hu. destruct Hu as (s1 & Hr1 & _ & Hm).
  assert (world s1 (both src x new (Tn, delete va Ln) V) ({[+ frame_of e +]} ⊎ R)) as H1.
  { rewrite <-(both_set_new x (Tn, Ln)). apply (world_move s s1 _ R _ new Tn Ln Tn (delete va Ln) H (both_new _ _)). rewrite both_drop_new.
    replace (total (<[src := x]> V) ⊎ ({[+ frame_of e +]} ⊎ R)) with ({[+ frame_of e +]} ⊎ (total (<[src := x]> V) ⊎ R)); [done|]. rewrite !(assoc_L (⊎)), (comm_L (⊎) {[+ _ +]}). done. }
  destruct (world_free _ _ _ _ H1) as (a & Ha & H2). destruct (IH (set_pool s1 a) _ H2 Hnd) as (s3 & Ln3 & Hr3 & H3 & Hk3 & Hl3).
  { intros w Hw. unfold present_at. rewrite lookup_delete_ne; [apply Hall; by right|]. intros <-. done. }
  exists s3, Ln3. split_and!; [| done| |].
  - unfold catch, mbind, M_bind. rewrite Hr1. unfold give_frame. rewrite Ha. cbn [mret M_ret]. exact Hr3.
  - eapply frames_kept_trans; [|exact Hk3]. intros g Hg. apply Hm. rewrite total_src. rewrite !gmultiset_elem_of_disj_union in *. tauto.
  - intros w. rewrite Hl3. destruct (decide (w ∈ pages.*1)) as [Hw|Hw]; [rewrite decide_True by (by right); done|]. destruct (decide (w = va)) as [->|Hwv].
    + rewrite lookup_delete_eq, decide_True by left. done.
    + rewrite lookup_delete_ne by done. rewrite decide_False; [done|]. by rewrite not_elem_of_cons.
Qed.

(** A copy that is given up. *)
Lemma abandon_spec x Tn Ln pages s : world s (both src x new (Tn, Ln) V) R → new ≠ cr3 → NoDup pages.*1 → (∀ va, va ∈ pages.*1 ↔ is_Some (Ln !! va)) → (∀ va, is_Some (Ln !! va) → present_at Ln va = true) →
  ∃ s', (_ ← undo_clone hhdm new pages; ignore (destroy_address_space hhdm cr3 new)) s = (s', Ok ()) ∧ world s' (<[src := x]> V) R ∧ frames_kept (frames_of x ⊎ (total V ⊎ R)) s s'.
Proof.
  intros H Hcr Hnd Hpg Hpr. destruct (undo_clone_spec x Tn pages s Ln H Hnd) as (s1 & Ln1 & Hr1 & H1 & Hk1 & HL1); [intros va Hva; apply Hpr; by apply Hpg|].
  assert (Ln1 = ∅) as ->. { apply map_eq. intros va. rewrite HL1, lookup_empty. case_decide as Hd; [done|]. destruct (Ln !! va) eqn:Hx; [|done]. exfalso. apply Hd, Hpg. by rewrite Hx. }
  pose proof (world_focus _ _ _ _ _ _ H1 (both_new _ _)) as Hl. pose proof (destroy_spec hhdm cr3 Hhhdm _ _ _ _ _ Hl Hcr) as Hd. rewrite decide_True in Hd by apply msum_empty. destruct Hd as (s2 & Hr2 & Ho & Hram & _ & Hk2).
  exists s2. split; [|split].
  - unfold ignore, catch, mbind, M_bind. rewrite Hr1, Hr2. done.
  - rewrite <-(both_drop_new x (Tn, ∅)). apply (world_drop s1 s2 _ R new H1); [rewrite both_new; by eexists|done|done|]. intros g Hg. apply Hk2. apply gmultiset_elem_of_disj_union. by left.
  - eapply frames_kept_trans; [exact Hk1|]. intros g Hg. apply Hk2. rewrite both_drop_new, total_src. rewrite !gmultiset_elem_of_disj_union in *. tauto.
Qed.
End pair.

(** ** The copy, page by page *)

Section cloning.
Context (s0 : machine (A := A)) (src new : Z) (T : gmap (list Z) Z) (L0 : gmap Z Z) (V : gmap Z space) (R : gmultiset Z).
Context (Hne : src ≠ new) (Hsrc : V !! src = None) (Hnew : V !! new = None) (Hcr : new ≠ cr3) (HL0 : entries_ok L0).
(** No frame has so many users that one more per page cannot be counted. *)
Context (Hcount : ∀ f, f ∈ leaves L0 → Z.of_nat (multiplicity f (leaves L0 ⊎ (leaves L0 ⊎ (total V ⊎ R)))) ≤ 65535).

(** The pages below [b] are shared. *)
Record cloning s (b : Z) (pages : list (Z * Z)) (Tn : gmap (list Z) Z) : Prop := {
  cl_world : world s (both src (T, share_below b L0) new (Tn, copies_below b L0) V) R;
  cl_kept : frames_kept (leaves L0 ⊎ (total V ⊎ R)) s0 s;
  cl_pages va : va ∈ pages.*1 ↔ is_Some (copies_below b L0 !! va);
  cl_nodup : NoDup pages.*1 }.
Definition abandoned s : Prop := ∃ b, world s (<[src := (T, share_below b L0)]> V) R ∧ frames_kept (leaves L0 ⊎ (total V ⊎ R)) s0 s.

Lemma cloning_skip s b b' pages Tn : cloning s b pages Tn → b ≤ b' → (∀ k e, L0 !! k = Some e → b ≤ k < b' → is_present e = false) → cloning s b' pages Tn.
Proof. intros [H1 H2 H3 H4] Hb Hn. split; [|done|intros va; rewrite H3|done]; by rewrite ?(share_skip L0 b b'), ?(copies_skip L0 b b'). Qed.
Lemma copies_present b va : is_Some (copies_below b L0 !! va) → present_at (copies_below b L0) va = true.
Proof.
  unfold present_at. rewrite lookup_copies. destruct (L0 !! va) as [e|] eqn:He; cbn; [|by intros []]. destruct (_ <? b), (is_present e) eqn:Hp; cbn; try by intros []. intros _.
  destruct (HL0 va e He) as (_ & Hu & Hnz & Hf). destruct (shared_ok e Hu Hf Hnz) as (_ & _ & -> & _). done.
Qed.
Lemma copies_none b : copies_below b L0 !! b = None.
Proof. rewrite lookup_copies. destruct (L0 !! b); cbn; [by rewrite Z.ltb_irrefl|done]. Qed.

(** The count of the page's frame has room for the copy. *)
Lemma count_room s b pages Tn e : cloning s b pages Tn → L0 !! b = Some e → is_present e = true →
  Z.of_nat (multiplicity (frame_of e) (total (both src (T, share_below b L0) new (Tn, copies_below b L0) V) ⊎ R)) < 65535.
Proof.
  intros [H _ _ _] He Hp. assert (frame_of e ∈ leaves L0) as Hin by (apply elem_of_leaves; by exists b, e). pose proof (Hcount _ Hin) as Hc.
  pose proof (leaves_copies b L0 HL0) as Hlc. assert (frame_of e ∈ leaves (filter (λ kv, (b <=? kv.1) = true) L0)) as Hin2.
  { apply elem_of_leaves. exists b, e. split; [|done]. apply map_lookup_filter_Some. split; [done|]. cbn. apply Z.leb_refl. }
  assert (frame_of e ∈ leaves (share_below b L0)) as Hin3 by (by rewrite leaves_share).
  assert (multiplicity (frame_of e) (tables T) = 0 ∧ multiplicity (frame_of e) (tables Tn) = 0)%nat as [H1 H2].
  { split; apply not_elem_of_multiplicity; intros [p Hp']%elem_of_tables.
    - eapply (ho_apart _ _ _ _ (lv_hosts _ _ _ _ _ (world_focus _ _ _ _ _ _ H (both_src _ _ _ _ _)))); [done|]. apply gmultiset_elem_of_disj_union. by left.
    - eapply (ho_apart _ _ _ _ (lv_hosts _ _ _ _ _ (world_focus _ _ _ _ _ _ H (both_new src new V Hne _ _)))); [done|]. rewrite both_drop_new, total_src by done. unfold frames_of. cbn [fst snd]. rewrite !gmultiset_elem_of_disj_union. tauto. }
  rewrite elem_of_multiplicity in Hin2. rewrite total_both by done. unfold frames_of. cbn [fst snd]. rewrite leaves_share by done. rewrite <-Hlc in Hc. rewrite <-Hlc. rewrite !multiplicity_disj_union in Hc. rewrite !multiplicity_disj_union. lia.
Qed.

Lemma both_grow (x : space) (Tn Tn' : gmap (list Z) Z) (Ln Ln' : gmap Z Z) (R1 R2 : gmultiset Z) s s' : world s (both src x new (Tn, Ln) V) R1 → moved s new Tn Ln (total (<[src := x]> V) ⊎ R1) s' Ln' (total (<[src := x]> V) ⊎ R2) Tn' →
  world s' (both src x new (Tn', Ln') V) R2.
Proof. intros H Hm. rewrite <-(both_set_new src new V Hne x (Tn, Ln)). eapply (world_move s s' _ R1 R2 new Tn Ln Tn' Ln' H); [by apply both_new|]. by rewrite both_drop_new. Qed.

(** The parent's entry, once the child has its own. *)
Lemma source_entry s (b e t : Z) (Y : space) (R1 : gmultiset Z) : world s (both src (T, share_below b L0) new Y V) R1 → L0 !! b = Some e → is_present e = true → T !! path b = Some t →
  ∃ s', (if negb (Z.land (flags_of e) MAP_WRITABLE =? 0) then modify (λ s, default s (write_entry hhdm s t (index_pt b) (Z.lor (Z.lor (frame_of e) (cow_flags (flags_of e))) PRESENT))) else mret () : M (machine (A := A)) MapError unit) s = (s', Ok ()) ∧
    world s' (both src (T, share_below (b + 4096) L0) new Y V) R1 ∧ frames_kept (leaves L0 ⊎ (frames_of Y ⊎ (total V ⊎ R1))) s s'.
Proof.
  intros H He Hp Ht. destruct (HL0 b e He) as (Hva & Hu & Hnz & Hf). assert (∀ k, is_Some (L0 !! k) → k mod 4096 = 0) as Hal. { intros k [x Hx]. destruct (HL0 k x Hx) as ([_ ?] & _). done. }
  rewrite (share_step L0 b e He Hal). assert (share_below b L0 !! b = Some e) as Hb by (by rewrite lookup_share, He; cbn; rewrite Z.ltb_irrefl).
  destruct (negb (Z.land (flags_of e) MAP_WRITABLE =? 0)) eqn:Hw.
  - pose proof (world_focus _ _ _ _ _ _ H (both_src _ _ _ _ _)) as Hl. rewrite both_drop_src in Hl by done. destruct (located _ _ _ _ _ _ _ Hl Hva Ht) as (Hft & Hi & _ & _).
    unfold modify. rewrite write_entry_some by done. cbn [default from_option id]. assert (Z.lor (Z.lor (frame_of e) (cow_flags (flags_of e))) PRESENT = shared e) as -> by (unfold shared; by rewrite Hp).
    destruct (shared_ok e Hu Hf Hnz) as (Hu' & Hnz' & _). pose proof (lives_write s src T (share_below b L0) _ (total (<[new := Y]> V) ⊎ R1) b t (shared e) Hl Hva Ht Hu') as Hwr.
    unfold set_leaf in Hwr. rewrite (proj2 (Z.eqb_neq _ _) Hnz') in Hwr. assert (leaves (<[b := shared e]> (share_below b L0)) = leaves (share_below b L0)) as Hsame.
    { rewrite leaves_insert, (leaves_delete (share_below b L0) b e Hb), mapped_shared by done. done. }
    rewrite Hsame in Hwr. destruct (Hwr eq_refl) as [Hl' Hk]. eexists. split; [done|]. split.
    + rewrite <-(both_set_src src new V (T, share_below b L0)). eapply (world_move s _ _ R1 R1 src T (share_below b L0) T); [done|apply both_src|]. rewrite both_drop_src by done. split; [done..|]. by rewrite Hsame.
    + rewrite leaves_share in Hk by done. rewrite total_new in Hk by done. intros g Hg. apply Hk. rewrite !gmultiset_elem_of_disj_union in *. tauto.
  - exists s. apply negb_false_iff in Hw. rewrite (shared_read_only e Hu Hp Hw), (insert_id (share_below b L0) b e Hb). split_and!; [done..|apply frames_kept_refl].
Qed.

Lemma clone_page_spec s b pages Tn t : cloning s b pages Tn → user_page b → T !! path b = Some t →
  match clone_page hhdm cr3 new t (index_pt b) b pages s with
  | (s', Ok pages') => ∃ Tn', cloning s' (b + 4096) pages' Tn'
  | (s', Err e) => e = OutOfMemory ∧ abandoned s'
  | _ => False
  end.
Proof.
  intros Hc Hva Ht. pose proof (cl_world _ _ _ _ Hc) as H. pose proof (world_focus _ _ _ _ _ _ H (both_src _ _ _ _ _)) as Hls. destruct (located _ _ _ _ _ _ _ Hls Hva Ht) as (Hft & Hi & _ & Hen).
  assert (share_below b L0 !! b = L0 !! b) as Hsb by (rewrite lookup_share; destruct (L0 !! b); [cbn; by rewrite Z.ltb_irrefl|done]). rewrite Hsb in Hen.
  assert (∀ k, is_Some (L0 !! k) → k mod 4096 = 0) as Hal. { intros k [y Hy]. destruct (HL0 k y Hy) as ([_ ?] & _). done. }
  unfold clone_page, mbind at 1, M_bind at 1. rewrite entry_at_run, Hen by done.
  destruct (is_present (default 0 (L0 !! b))) eqn:Hp.
  2: { rewrite (proj1 (absent_bit _) Hp). exists Tn. eapply cloning_skip; [done|lia|]. intros k e He Hk. assert (k = b) as ->. { assert (k mod 4096 = 0) as Hkm by (apply Hal; by exists e). destruct Hva as [_ Hbm]. Z.div_mod_to_equations. lia. } by rewrite He in Hp. }
  rewrite (proj1 (present_bit _) Hp). destruct (L0 !! b) as [e|] eqn:He; [|done]. cbn [default from_option id] in *. fold (frame_of e) (flags_of e). destruct (HL0 b e He) as (_ & Hu & Hnz & Hf).
  assert (frame_of e ∈ leaves (share_below b L0)) as Hin by (rewrite leaves_share by done; apply elem_of_leaves; by exists b, e).
  pose proof (world_ref _ _ _ _ _ _ _ H (both_src _ _ _ _ _) Hin (count_room _ _ _ _ _ Hc He Hp)) as H1. unfold mbind at 1, M_bind at 1, modify at 1.
  set (s1 := set_pool s (frame_ref_inc (pool s) (frame_of e))) in *. assert (frames_kept (leaves L0 ⊎ (total V ⊎ R)) s0 s1) as Hk1 by exact (cl_kept _ _ _ _ Hc).
  pose proof (world_focus _ _ _ _ _ _ H1 (both_new src new V Hne _ _)) as Hln. rewrite both_drop_new in Hln by done.
  assert (total (<[src := (T, share_below b L0)]> V) ⊎ ({[+ frame_of e +]} ⊎ R) = {[+ frame_of e +]} ⊎ (total (<[src := (T, share_below b L0)]> V) ⊎ R)) as Hcomm by (rewrite !(assoc_L (⊎)), (comm_L (⊎) (total _)); done).
  rewrite Hcomm in Hln. assert (is_flags (cow_flags (flags_of e))) as Hfl by (by apply cow_flags_ok, flags_of_entry).
  pose proof (map_spec hhdm Hhhdm s1 new Tn (copies_below b L0) _ b (frame_of e) (cow_flags (flags_of e)) Hln Hva Hfl) as Hmap.
  unfold mbind at 1, M_bind at 1, catch. destruct (map hhdm new b (frame_of e) (cow_flags (flags_of e)) s1) as [s2 [[]|err|]]; [| |done].
  - destruct Hmap as (_ & Tn' & Hm). rewrite <-Hcomm in Hm. assert (map_entry (frame_of e) (cow_flags (flags_of e)) = shared e) as Hsh by (unfold shared; by rewrite Hp). rewrite Hsh in Hm.
    pose proof (both_grow _ _ _ _ _ _ _ _ _ H1 Hm) as H2. destruct (source_entry s2 b e t _ R H2 He Hp Ht) as (s3 & Hr3 & H3 & Hk3). unfold mbind, M_bind. rewrite Hr3. cbn [mret M_ret]. exists Tn'. split.
    + by rewrite (copies_step L0 b e He Hp Hal).
    + eapply frames_kept_trans; [exact Hk1|]. eapply frames_kept_trans.
      * intros g Hg. apply Hm. rewrite total_src by done. unfold frames_of. cbn [fst snd]. rewrite leaves_share by done. rewrite !gmultiset_elem_of_disj_union in *. tauto.
      * intros g Hg. apply Hk3. rewrite !gmultiset_elem_of_disj_union in *. tauto.
    + intros va. rewrite (copies_step L0 b e He Hp Hal), fmap_app. cbn [fmap list_fmap fst]. rewrite elem_of_app, list_elem_of_singleton, (cl_pages _ _ _ _ Hc). destruct (decide (va = b)) as [->|Hvb].
      * rewrite lookup_insert_eq. split; [done|]. intros _. by right.
      * rewrite lookup_insert_ne by done. tauto.
    + rewrite fmap_app. apply NoDup_app. split; [apply Hc|]. split; [|apply NoDup_singleton]. intros va Hin' ->%list_elem_of_singleton. apply (cl_pages _ _ _ _ Hc) in Hin'. rewrite copies_none in Hin'. by destruct Hin'.
  - destruct Hmap as [Herr [Tn' Hm]]. assert (err = OutOfMemory) as ->. { destruct Herr as [[_ Hx]|[? _]]; [|done]. unfold present_at in Hx. by rewrite copies_none in Hx. }
    rewrite <-Hcomm in Hm. pose proof (both_grow _ _ _ _ _ _ _ _ _ H1 Hm) as H2. destruct (world_free _ _ _ _ H2) as (a & Ha & H3).
    destruct (abandon_spec src new V R Hne Hsrc Hnew _ _ _ pages _ H3 Hcr (cl_nodup _ _ _ _ Hc) (cl_pages _ _ _ _ Hc) (copies_present b)) as (s4 & Hr4 & H4 & Hk4).
    unfold mbind, M_bind in Hr4 |- *. unfold give_frame. rewrite Ha. destruct (undo_clone hhdm new pages (set_pool s2 a)) as [s5 [[]| |]]; [|done..]. rewrite Hr4. split; [done|]. exists b. split; [done|].
    eapply frames_kept_trans; [exact Hk1|]. eapply frames_kept_trans.
    + intros g Hg. apply Hm. rewrite total_src by done. unfold frames_of. cbn [fst snd]. rewrite leaves_share by done. rewrite !gmultiset_elem_of_disj_union in *. tauto.
    + intros g Hg. apply Hk4. unfold frames_of. cbn [fst snd]. rewrite leaves_share by done. rewrite !gmultiset_elem_of_disj_union in *. tauto.
Qed.

(** ** The loops *)

Definition advances (b : Z) (r : machine (A := A) * res MapError (list (Z * Z))) : Prop :=
  match r with
  | (s', Ok pages') => ∃ Tn', cloning s' b pages' Tn'
  | (s', Err e) => e = OutOfMemory ∧ abandoned s'
  | _ => False
  end.
Lemma clone_entries_spec f t B step n : (∀ i s pages Tn, 0 ≤ i < Z.of_nat n → cloning s (B + i * step) pages Tn → advances (B + (i + 1) * step) (f t i pages s)) →
  ∀ m k s pages Tn, (k + m = n)%nat → cloning s (B + Z.of_nat k * step) pages Tn → advances (B + Z.of_nat n * step) (clone_entries f (seqZ (Z.of_nat k) (Z.of_nat m)) t pages s).
Proof.
  intros Hf. induction m as [|m IH]; intros k s pages Tn Hk Hc.
  - assert (k = n) as -> by lia. by exists Tn.
  - rewrite seqZ_cons by lia. cbn [clone_entries]. unfold mbind, M_bind. specialize (Hf (Z.of_nat k) s pages Tn ltac:(lia) Hc). destruct (f t (Z.of_nat k) pages s) as [s1 [pages1|e|]]; [|done..]. destruct Hf as [Tn1 Hc1].
    replace (Z.succ (Z.of_nat k)) with (Z.of_nat (S k)) by lia. replace (Z.pred (Z.of_nat (S m))) with (Z.of_nat m) by lia. eapply IH; [lia|]. by replace (Z.of_nat (S k)) with (Z.of_nat k + 1) by lia.
Qed.
Lemma clone_below_spec huge f p t i s b b' pages Tn : T !! p = Some t → path_ok (p ++ [i]) → cloning s b pages Tn → b ≤ b' →
  (T !! (p ++ [i]) = None → ∀ k e, L0 !! k = Some e → ¬ b ≤ k < b') → (∀ t', T !! (p ++ [i]) = Some t' → advances b' (f t' pages s)) →
  advances b' (clone_below hhdm huge f t i pages s).
Proof.
  intros Hp Hpi Hc Hb Hnone Hf. pose proof (world_focus _ _ _ _ _ _ (cl_world _ _ _ _ Hc) (both_src _ _ _ _ _)) as Hls.
  destruct (tree_read hhdm Hhhdm s src T p t i (ho_tree _ _ _ _ (lv_hosts _ _ _ _ _ Hls)) Hp Hpi) as [Hrd He]. unfold clone_below, mbind, M_bind, entry_at. rewrite Hrd. cbn [ok_or].
  destruct (T !! (p ++ [i])) as [t'|] eqn:Ht'.
  - destruct He as (-> & -> & ->). rewrite andb_false_r. by apply Hf.
  - rewrite He. cbn [orb]. exists Tn. eapply cloning_skip; [done..|]. intros k e Hk Hr. by destruct (Hnone eq_refl k e Hk).
Qed.
Lemma mapped_path s b pages Tn k e : cloning s b pages Tn → L0 !! k = Some e → is_Some (T !! path k).
Proof.
  intros Hc Hk. pose proof (world_focus _ _ _ _ _ _ (cl_world _ _ _ _ Hc) (both_src _ _ _ _ _)) as Hls. destruct (HL0 k e Hk) as (Hva & _). destruct (T !! path k) as [t|] eqn:Ht; [by eexists|].
  pose proof (not_located _ _ _ _ _ _ Hls Hva Ht) as Hx. rewrite lookup_share, Hk in Hx. done.
Qed.
(** Below an index with no table, no page is mapped. *)
Lemma nothing_below s b pages Tn p l k e : cloning s b pages Tn → T !! p = None → L0 !! k = Some e → path k = p ++ l → False.
Proof.
  intros Hc Hn Hk Hp. destruct (mapped_path _ _ _ _ _ _ Hc Hk) as [t Ht]. pose proof (world_focus _ _ _ _ _ _ (cl_world _ _ _ _ Hc) (both_src _ _ _ _ _)) as Hls. rewrite Hp in Ht.
  destruct (tree_prefix _ _ _ l (ho_tree _ _ _ _ (lv_hosts _ _ _ _ _ Hls)) p) as [? Hx]; [by exists t|congruence].
Qed.

Lemma path_ok_pair a b : 0 ≤ a < 256 → 0 ≤ b < 512 → path_ok [a; b].
Proof. intros. split; [cbn; lia|]. split; [repeat constructor; lia|]. intros i [= <-]. lia. Qed.
Lemma path_ok_triple a b c : 0 ≤ a < 256 → 0 ≤ b < 512 → 0 ≤ c < 512 → path_ok [a; b; c].
Proof. intros. split; [cbn; lia|]. split; [repeat constructor; lia|]. intros i [= <-]. lia. Qed.

Section indices.
Context (a : Z) (Ha : 0 ≤ a < 256).

Definition clone_pt (a b c t1 : Z) : list (Z * Z) → M (machine (A := A)) MapError (list (Z * Z)) :=
  clone_entries (λ t1 d pages, clone_page hhdm cr3 new t1 d (sign_extend (address_of a b c d)) pages) (seqZ 0 512) t1.
Lemma clone_pt_spec b c t1 s pages Tn : 0 ≤ b < 512 → 0 ≤ c < 512 → T !! [a; b; c] = Some t1 → cloning s (a * 2 ^ 39 + b * 2 ^ 30 + c * 2 ^ 21) pages Tn →
  advances (a * 2 ^ 39 + b * 2 ^ 30 + (c + 1) * 2 ^ 21) (clone_pt a b c t1 pages s).
Proof.
  intros Hb Hc Ht Hcl. replace (a * 2 ^ 39 + b * 2 ^ 30 + (c + 1) * 2 ^ 21) with (a * 2 ^ 39 + b * 2 ^ 30 + c * 2 ^ 21 + Z.of_nat 512 * 4096) by lia.
  unfold clone_pt. change (seqZ 0 512) with (seqZ (Z.of_nat 0) (Z.of_nat 512)). eapply (clone_entries_spec _ t1 _ 4096 512); [|done|by rewrite Z.mul_0_l, Z.add_0_r].
  intros d s1 pages1 Tn1 Hd Hc1. destruct (address_page a b c d) as (Hva & -> & Hpath & Hidx); [by apply path_ok_triple|lia|]. rewrite address_of_sum in * by lia. set (va := _ + d * 2 ^ 12) in *.
  replace (a * 2 ^ 39 + b * 2 ^ 30 + c * 2 ^ 21 + d * 4096) with va in Hc1 by (unfold va; lia). replace (a * 2 ^ 39 + b * 2 ^ 30 + c * 2 ^ 21 + (d + 1) * 4096) with (va + 4096) by (unfold va; lia).
  rewrite <-Hidx at 1. eapply clone_page_spec; [done..|]. by rewrite Hpath.
Qed.

Definition clone_pd (a b t2 : Z) : list (Z * Z) → M (machine (A := A)) MapError (list (Z * Z)) :=
  clone_entries (λ t2 c, clone_below hhdm true (clone_pt a b c) t2 c) (seqZ 0 512) t2.
Lemma clone_pd_spec b t2 s pages Tn : 0 ≤ b < 512 → T !! [a; b] = Some t2 → cloning s (a * 2 ^ 39 + b * 2 ^ 30) pages Tn → advances (a * 2 ^ 39 + (b + 1) * 2 ^ 30) (clone_pd a b t2 pages s).
Proof.
  intros Hb Ht Hcl. replace (a * 2 ^ 39 + (b + 1) * 2 ^ 30) with (a * 2 ^ 39 + b * 2 ^ 30 + Z.of_nat 512 * 2 ^ 21) by lia.
  unfold clone_pd. change (seqZ 0 512) with (seqZ (Z.of_nat 0) (Z.of_nat 512)). eapply (clone_entries_spec _ t2 _ (2 ^ 21) 512); [|done|by rewrite Z.mul_0_l, Z.add_0_r].
  intros c s1 pages1 Tn1 Hc Hc1. eapply (clone_below_spec true _ [a; b]); [done|apply path_ok_triple; lia|done|lia| |].
  - intros Hn k e Hk Hr. destruct (range_pd a b c k) as (H1 & H2 & H3); [lia..|]. eapply (nothing_below s1 _ _ _ ([a; b] ++ [c]) []); [done..|]. unfold path. by rewrite H1, H2, H3.
  - intros t1 Ht1. eapply clone_pt_spec; [lia|lia|done..].
Qed.

Definition clone_pdpt (a t3 : Z) : list (Z * Z) → M (machine (A := A)) MapError (list (Z * Z)) :=
  clone_entries (λ t3 b, clone_below hhdm true (clone_pd a b) t3 b) (seqZ 0 512) t3.
Lemma clone_pdpt_spec t3 s pages Tn : T !! [a] = Some t3 → cloning s (a * 2 ^ 39) pages Tn → advances ((a + 1) * 2 ^ 39) (clone_pdpt a t3 pages s).
Proof.
  intros Ht Hcl. replace ((a + 1) * 2 ^ 39) with (a * 2 ^ 39 + Z.of_nat 512 * 2 ^ 30) by lia.
  unfold clone_pdpt. change (seqZ 0 512) with (seqZ (Z.of_nat 0) (Z.of_nat 512)). eapply (clone_entries_spec _ t3 _ (2 ^ 30) 512); [|done|by rewrite Z.mul_0_l, Z.add_0_r].
  intros b s1 pages1 Tn1 Hb Hc1. eapply (clone_below_spec true _ [a]); [done|apply path_ok_pair; lia|done|lia| |].
  - intros Hn k e Hk Hr. destruct (range_pdpt a b k) as (H1 & H2); [lia..|]. eapply (nothing_below s1 _ _ _ ([a] ++ [b]) [index_pd k]); [done..|]. unfold path. by rewrite H1, H2.
  - intros t2 Ht2. eapply clone_pd_spec; [lia|done..].
Qed.
End indices.

Definition clone_all : M (machine (A := A)) MapError (list (Z * Z)) := clone_entries (λ t4 a, clone_below hhdm false (clone_pdpt a) t4 a) (seqZ 0 256) src [].
Lemma clone_all_spec s Tn : T !! [] = Some src → cloning s 0 [] Tn → advances (2 ^ 47) (clone_all s).
Proof.
  intros Ht Hcl. replace (2 ^ 47) with (0 + Z.of_nat 256 * 2 ^ 39) by lia.
  unfold clone_all. change (seqZ 0 256) with (seqZ (Z.of_nat 0) (Z.of_nat 256)). eapply (clone_entries_spec _ src _ (2 ^ 39) 256); [|done|done].
  intros a s1 pages1 Tn1 Ha Hc1. rewrite !Z.add_0_l in *. eapply (clone_below_spec false _ []); [done|by apply root_path; [|lia]|done|lia| |].
  - intros Hn k e Hk Hr. pose proof (range_pml4 a k) as H1. eapply (nothing_below s1 _ _ _ ([] ++ [a]) [index_pdpt k; index_pd k]); [done..|]. unfold path. by rewrite H1 by lia.
  - intros t3 Ht3. eapply clone_pdpt_spec; [lia|done..].
Qed.
End cloning.

(** ** The copy *)

Definition all_shared (L : gmap Z Z) : gmap Z Z := share_below (2 ^ 47) L.
Definition all_copied (L : gmap Z Z) : gmap Z Z := copies_below (2 ^ 47) L.
Lemma clone_run src s s1 new : create_address_space hhdm cr3 s = (s1, Ok new) →
  clone_user_address_space hhdm cr3 src s = match clone_all src new s1 with (s2, Ok pages) => (s2, Ok (new, pages)) | (s2, Err e) => (s2, Err e) | (s2, Panic) => (s2, Panic) end.
Proof. intros H. unfold clone_user_address_space, mbind at 1, M_bind at 1. rewrite H. unfold clone_all, clone_pdpt, clone_pd, clone_pt. unfold mbind at 1, M_bind at 1. generalize (clone_entries (A := A)). intros ce. match goal with |- context [ce ?f ?l ?t ?p s1] => destruct (ce f l t p s1) as [? []] end; done. Qed.
Lemma share_none L : entries_ok L → share_below 0 L = L ∧ copies_below 0 L = ∅.
Proof.
  intros HL. split; apply map_eq; intros k.
  - rewrite lookup_share. destruct (L !! k) as [e|] eqn:He; [|done]. destruct (HL k e He) as ([? _] & _). cbn. by rewrite (proj2 (Z.ltb_ge _ _)) by lia.
  - rewrite lookup_copies, lookup_empty. destruct (L !! k) as [e|] eqn:He; [|done]. destruct (HL k e He) as ([? _] & _). cbn. by rewrite (proj2 (Z.ltb_ge _ _)) by lia.
Qed.

Lemma clone_spec s W R src T L : world s W R → W !! src = Some (T, L) → cr3 ∈ total W ⊎ R →
  (∀ f, f ∈ leaves L → Z.of_nat (multiplicity f (leaves L ⊎ (total W ⊎ R))) ≤ 65535) →
  match clone_user_address_space hhdm cr3 src s with
  | (s', Ok (new, pages)) => W !! new = None ∧ ∃ Tn, world s' (both src (T, all_shared L) new (Tn, all_copied L) (delete src W)) R ∧ frames_kept (leaves L ⊎ (total (delete src W) ⊎ R)) s s' ∧
      ∀ va, va ∈ pages.*1 ↔ is_Some (all_copied L !! va)
  | (s', Err e) => e = OutOfMemory ∧ ∃ b, world s' (<[src := (T, share_below b L)]> W) R ∧ frames_kept (leaves L ⊎ (total (delete src W) ⊎ R)) s s'
  | _ => False
  end.
Proof.
  intros H Hx Hcr Hcount. pose proof (create_spec hhdm cr3 Hhhdm s (total W ⊎ R) (wd_ram _ _ _ H) (wd_owned _ _ _ H) Hcr) as Hcreate. pose proof (world_entries _ _ _ _ _ _ H Hx) as HL.
  destruct (share_none L HL) as [Hs0 Hc0]. set (V := delete src W) in *. assert (V !! src = None) as HVs by apply lookup_delete_eq.
  assert (total W = frames_of (T, L) ⊎ total V) as Htot by (by apply total_delete).
  destruct (create_address_space hhdm cr3 s) as [s1 [new|e|]] eqn:Hcre; [| |done].
  - destruct Hcreate as (Hl1 & Hk1 & Hncr & _ & _). rewrite (clone_run src s s1 new Hcre).
    assert (W !! new = None) as HWn. { destruct (W !! new) as [y|] eqn:Hy; [|done]. exfalso. destruct (wd_space _ _ _ H _ _ Hy) as [HTy _].
      eapply (ho_apart _ _ _ _ (lv_hosts _ _ _ _ _ Hl1) []); [apply lookup_singleton_eq|]. unfold leaves. rewrite msum_empty, (left_id_L ∅ (⊎)). apply gmultiset_elem_of_disj_union. left. apply table_in_total. exists new, y, []. split; [done|]. apply HTy. }
    assert (src ≠ new) as Hne by congruence. assert (V !! new = None) as HVn by (unfold V; by rewrite lookup_delete_ne).
    assert (world s1 (<[new := ({[[] := new]}, ∅)]> W) R) as H1.
    { eapply world_join; [done|done|done|intros g Hg; apply Hk1, gmultiset_elem_of_disj_union; by left|]. intros u Hu. unfold leaves. rewrite msum_empty, (left_id_L ∅ (⊎)). intros Hin.
      pose proof (wd_once _ _ _ H u Hu) as Hone. pose proof (table_in_total _ _ Hu) as Hut. rewrite elem_of_multiplicity in Hut, Hin. rewrite multiplicity_disj_union in Hone. lia. }
    assert (both src (T, L) new ({[[] := new]}, ∅) V = <[new := ({[[] := new]}, ∅)]> W) as Hboth by (rewrite insert_insert_ne by done; unfold V; by rewrite insert_delete_id).
    destruct (wd_space _ _ _ H _ _ Hx) as [HT _]. cbn [fst] in HT.
    assert (∀ f, f ∈ leaves L → Z.of_nat (multiplicity f (leaves L ⊎ (leaves L ⊎ (total V ⊎ R)))) ≤ 65535) as Hcnt.
    { intros f Hf. specialize (Hcount f Hf). rewrite Htot in Hcount. unfold frames_of in Hcount. cbn [fst snd] in Hcount. rewrite !multiplicity_disj_union in Hcount. rewrite !multiplicity_disj_union. lia. }
    pose proof (clone_all_spec s src new T L V R Hne HVs HVn Hncr HL Hcnt s1 {[[] := new]} (tr_root _ _ _ HT)) as Hall.
    unfold advances in Hall. destruct (clone_all src new s1) as [s2 [pages|e|]].
    + destruct Hall as [Tn Hc]; [|split; [done|]; exists Tn; split_and!; [apply Hc..]].
      split; [by rewrite Hs0, Hc0, Hboth| |intros va; rewrite Hc0, lookup_empty; split; [by intros ?%not_elem_of_nil|by intros []]|constructor].
      intros g Hg. apply Hk1. rewrite Htot. unfold frames_of. cbn [fst snd]. rewrite !gmultiset_elem_of_disj_union in *. tauto.
    + destruct Hall as [-> (b & Hw & Hk)]; [|split; [done|]; exists b; split; [|done]; unfold V in Hw; by rewrite insert_delete_eq in Hw].
      split; [by rewrite Hs0, Hc0, Hboth| |intros va; rewrite Hc0, lookup_empty; split; [by intros ?%not_elem_of_nil|by intros []]|constructor].
      intros g Hg. apply Hk1. rewrite Htot. unfold frames_of. cbn [fst snd]. rewrite !gmultiset_elem_of_disj_union in *. tauto.
    + apply Hall. split; [by rewrite Hs0, Hc0, Hboth| |intros va; rewrite Hc0, lookup_empty; split; [by intros ?%not_elem_of_nil|by intros []]|constructor].
      intros g Hg. apply Hk1. rewrite Htot. unfold frames_of. cbn [fst snd]. rewrite !gmultiset_elem_of_disj_union in *. tauto.
  - destruct Hcreate as (-> & Hram & _ & Ho). unfold clone_user_address_space, mbind, M_bind. rewrite Hcre. split; [done|]. exists 0. rewrite Hs0, insert_id by done. split.
    + split; [rewrite Hram; apply H|done|rewrite Hram; apply H|apply H].
    + intros g _ x _. by rewrite Hram.
Qed.
End two.
