(* ===== verification/UserMem.v ===== *)
(** * Writing to the memory of a process ([rust/kernel/src/process.rs])

    The kernel's writes to an address space: a page that is copied on write is
    made the space's own first, so no other process sees the byte. *)

From stdpp Require Import gmap gmultiset.
From S2P Require Import Prelude Words Vfs Frames SharedFrames Swap SwapSlots SwapSpec PageTable PageTableTree PageTableSpec PageTableSpaces PageTableFork.

(** The one error of these functions. *)
Inductive UserError := InvalidUserAddress.

Section user.
Context {A : Type} {FA : FrameAllocator A} {SF : SharedFrames A} (hhdm : option Z).

Abbreviation U := (M (machine (A := A)) UserError).
(** [.map_err(|_| ProcessError::InvalidUserAddress)] *)
Definition user_err {B} (m : M (machine (A := A)) MapError B) : U B := λ s,
  match m s with (s, Ok b) => (s, Ok b) | (s, Err _) => (s, Err InvalidUserAddress) | (s, Panic) => (s, Panic) end.

Definition write_user_byte_in (space address value : Z) : U unit :=
  s ← get;
  _ ← (match flags_in hhdm s space address with
       | Some flags => if negb (Z.land flags MAP_COW =? 0) then _ ← user_err (resolve_cow_page hhdm space address); mret () else mret ()
       | None => mret ()
       end : U unit);
  s ← get;
  t ← lift (ok_or InvalidUserAddress (translate_in hhdm s space address));
  _ ← lift (ok_or InvalidUserAddress (phys_to_virt hhdm (physical_address t)));
  modify (λ s, set_ram s (store (ram s) (physical_address t) [value])).

Fixpoint write_bytes_from (space address offset : Z) (bytes : list Z) : U unit :=
  match bytes with
  | [] => mret ()
  | b :: bytes => _ ← write_user_byte_in space (u64 (address + offset)) b; write_bytes_from space address (offset + 1) bytes
  end.
Definition write_user_bytes_in (space address : Z) (bytes : list Z) : U unit := write_bytes_from space address 0 bytes.
Definition write_user_u32_in (space address value : Z) : U unit := write_user_bytes_in space address (to_le 4 value).
Definition write_user_u64_in (space address value : Z) : U unit := write_user_bytes_in space address (to_le 8 value).

Definition read_user_byte_in (space address : Z) : U Z :=
  s ← get;
  t ← lift (ok_or InvalidUserAddress (translate_in hhdm s space address));
  _ ← lift (ok_or InvalidUserAddress (phys_to_virt hhdm (physical_address t)));
  mret (ram s (physical_address t)).
End user.

Section isolation.
Context {A : Type} {FA : FrameAllocator A} {SF : SharedFrames A} (hhdm : option Z).
Context (Hhhdm : ∃ h, hhdm = Some h ∧ 0 ≤ h ∧ h + 2 ^ 37 < 2 ^ 64).
Implicit Types s : machine (A := A).

(** The process may write to the page, perhaps after it is copied. *)
Definition may_write (L : gmap Z Z) (va : Z) : bool := match L !! va with Some e => is_present e && (is_writable e || is_cow e) | None => false end.

Lemma flags_in_page s root a : 0 ≤ a < 2 ^ 47 → flags_in hhdm s root a = flags_in hhdm s root (page_of a).
Proof.
  intros Ha. destruct (page_index a Ha) as (_ & _ & Hp & Hi). unfold flags_in, pte_location. unfold path in Hp. injection Hp as Hp1 Hp2 Hp3. by rewrite Hp1, Hp2, Hp3, Hi.
Qed.
Lemma cow_flag e : is_u 64 e → negb (Z.land (Z.land e (bnot 64 ADDRESS_MASK)) MAP_COW =? 0) = is_cow e.
Proof.
  intros He. unfold is_cow, MAP_COW. rewrite !land_bit, !negb_involutive by lia. fold (flags_of e). rewrite flags_bits by (done || lia). done.
Qed.

(** Bytes stored in a page with no other user. *)
Section store.
Context s (W : gmap Z space) (R : gmultiset Z) (root : Z) (T : gmap (list Z) Z) (L : gmap Z Z) (a e : Z) (bs : list Z).
Context (H : world s W R) (Hx : W !! root = Some (T, L)) (Ha : 0 ≤ a < 2 ^ 47) (He : L !! page_of a = Some e) (Hp : is_present e = true).
Context (Hone : multiplicity (frame_of e) (total W ⊎ R) = 1%nat) (Hv : Forall (λ b, 0 ≤ b < 256) bs) (Hlen : a mod 4096 + zlen bs ≤ 4096).
Let s' := set_ram s (store (ram s) (frame_of e + a mod 4096) bs).

Lemma stored_frame : is_frame (frame_of e).
Proof. eapply leaf_frame; [by eapply world_focus|done..]. Qed.
Lemma stored_other g : is_frame g → g ≠ frame_of e → same_frame g (ram s) (ram s').
Proof.
  intros Hg Hne x Hgx. apply store_out. pose proof (Z.mod_pos_bound a 4096). destruct (frames_apart g (frame_of e) Hg stored_frame Hne); lia.
Qed.
Lemma stored_world : world s' W R.
Proof.
  assert (∀ u, table_in W u → same_frame u (ram s) (ram s')) as Hs.
  { intros u Hu. apply stored_other.
    - apply (owned_address (pool s) (total W ⊎ R)); [apply H|]. apply gmultiset_elem_of_disj_union. left. by apply table_in_total.
    - intros ->. destruct Hu as (r & x & p & Hr & Hpt). destruct (decide (r = root)) as [->|Hne].
      + eapply (ho_apart _ _ _ _ (lv_hosts _ _ _ _ _ (world_focus _ _ _ _ _ _ H Hx))); [replace x with (T, L) in Hpt by congruence; exact Hpt|]. apply gmultiset_elem_of_disj_union. left. apply elem_of_leaves. by exists (page_of a), e.
      + assert (frame_of e ∈ leaves L) as H1 by (apply elem_of_leaves; by exists (page_of a), e). assert (frame_of e ∈ total (delete root W)) as H2.
        { apply table_in_total. exists r, x, p. by rewrite lookup_delete_ne. }
        rewrite elem_of_multiplicity in H1, H2. pose proof Hone as Ho. rewrite (total_delete W root _ Hx) in Ho. unfold frames_of in Ho. cbn [fst snd] in Ho. rewrite !multiplicity_disj_union in Ho. lia. }
  split.
  - apply ram_ok_store; [apply H|done].
  - apply H.
  - intros r x Hr. destruct (wd_space _ _ _ H _ _ Hr) as [HT Hrep]. split; [eapply tree_same|eapply rep_same]; try done; intros p t Hpt; apply Hs; by exists r, x, p.
  - apply H.
Qed.
(** The addresses of the bytes are in the same page. *)
Lemma stored_page i : 0 ≤ i < zlen bs → page_of (a + i) = page_of a ∧ (a + i) mod 4096 = a mod 4096 + i ∧ 0 ≤ a + i < 2 ^ 47.
Proof.
  intros Hi. pose proof (Z.mod_pos_bound a 4096). pose proof (Z.div_mod a 4096 ltac:(done)). assert ((a + i) / 4096 = a / 4096) as Hd by (symmetry; apply Z.div_unique_pos with (a mod 4096 + i); lia).
  assert (0 ≤ a + i < 2 ^ 47) as Hr. { split; [lia|]. Z.div_mod_to_equations. lia. }
  destruct (page_index a Ha) as (_ & -> & _), (page_index (a + i) Hr) as (_ & -> & _). rewrite Hd. split; [done|]. split; [|done]. symmetry. apply Z.mod_unique_pos with (a / 4096); lia.
Qed.
Lemma stored_here i b : bs !! i = Some b → user_byte hhdm s' root (a + Z.of_nat i) = Some b.
Proof.
  intros Hb. assert (0 ≤ Z.of_nat i < zlen bs) as Hi by (apply lookup_lt_Some in Hb; lia). destruct (stored_page _ Hi) as (Hpg & Hmod & Hr).
  rewrite (user_byte_page hhdm Hhhdm s' W R root T L _ stored_world Hx Hr), Hpg, Hmod. unfold page_frame. rewrite He. cbn [mbind option_bind]. rewrite Hp. cbn [fmap option_fmap option_map]. f_equal.
  cbn [ram s' set_ram]. rewrite Z.add_assoc, store_in by done. by rewrite Nat2Z.id, Hb.
Qed.
Lemma stored_elsewhere r x : is_Some (W !! r) → 0 ≤ x < 2 ^ 47 → ¬ (r = root ∧ a ≤ x < a + zlen bs) → user_byte hhdm s' r x = user_byte hhdm s r x.
Proof.
  intros [[Tr Lr] Hr] Hxr Hne. rewrite (user_byte_page hhdm Hhhdm s' W R r Tr Lr x stored_world Hr Hxr), (user_byte_page hhdm Hhhdm s W R r Tr Lr x H Hr Hxr).
  destruct (page_frame Lr (page_of x)) as [g|] eqn:Hg; [|done]. cbn [fmap option_fmap option_map]. f_equal. pose proof (Z.mod_pos_bound x 4096). pose proof (Z.mod_pos_bound a 4096).
  destruct (decide (g = frame_of e)) as [->|Hgf].
  - apply store_out. unfold page_frame in Hg. destruct (Lr !! page_of x) as [e2|] eqn:He2; [|done]. cbn [mbind option_bind] in Hg. destruct (is_present e2) eqn:Hp2; [|done]. injection Hg as Hg.
    destruct (once_unique W R root (T, L) (page_of a) e r (Tr, Lr) (page_of x) e2) as [-> Hpg]; try done.
    destruct (page_index a Ha) as (_ & Hpa & _), (page_index x Hxr) as (_ & Hpx & _). assert (¬ (a ≤ x < a + zlen bs)) by naive_solver. pose proof (Z.div_mod a 4096). pose proof (Z.div_mod x 4096). lia.
  - apply (stored_other g); [|done|lia]. apply (owned_address (pool s) (total W ⊎ R)); [apply H|]. rewrite gmultiset_elem_of_disj_union. left. apply elem_of_total. exists r, (Tr, Lr). split; [done|].
    apply gmultiset_elem_of_disj_union. right. by eapply page_frame_in.
Qed.
End store.

Lemma may_write_unshared L va e f w : L !! va = Some e → is_present e = true → is_cow e = true → is_u 64 e → is_frame f → may_write (<[va := Z.lor f (own_flags e)]> L) w = may_write L w.
Proof.
  intros He Hp Hc Hu Hf. destruct (own_entry f e Hf Hu Hp) as (_ & Hp' & Hw' & _). unfold may_write. destruct (decide (w = va)) as [->|]; [|by rewrite lookup_insert_ne].
  by rewrite lookup_insert_eq, Hp', Hw', He, Hp, Hc, orb_true_r.
Qed.
Lemma set_same_space (W : gmap Z space) root x : W !! root = Some x → <[root := x]> W = W.
Proof. apply insert_id. Qed.

(** The rest of the function, once the page is the space's alone. *)
Lemma write_private s W R root T L a e v : world s W R → exclusive W R → W !! root = Some (T, L) → 0 ≤ a < 2 ^ 47 → 0 ≤ v < 256 →
  L !! page_of a = Some e → is_present e = true → is_writable e = true →
  ∃ s', (t ← lift (ok_or InvalidUserAddress (translate_in hhdm s root a)); _ ← lift (ok_or InvalidUserAddress (phys_to_virt hhdm (physical_address t)));
         modify (λ s, set_ram s (store (ram s) (physical_address t) [v])) : M (machine (A := A)) UserError unit) s = (s', Ok ()) ∧
    world s' W R ∧ user_byte hhdm s' root a = Some v ∧
    ∀ r x, is_Some (W !! r) → 0 ≤ x < 2 ^ 47 → (r, x) ≠ (root, a) → user_byte hhdm s' r x = user_byte hhdm s r x.
Proof.
  intros H Hex Hx Ha Hv He Hp Hw. pose proof (Hex root (T, L) _ e Hx He Hp Hw) as Hone. pose proof (stored_frame s W R root T L a e H Hx He Hp) as Hf.
  pose proof (Z.mod_pos_bound a 4096 ltac:(done)) as Hmod. assert (Forall (λ b, 0 ≤ b < 256) [v]) as Hvs by (by apply Forall_singleton). assert (a mod 4096 + zlen [v] ≤ 4096) as Hfit by (change (zlen [v]) with 1; lia).
  rewrite (translate_in_spec hhdm Hhhdm s root T L _ a (world_focus _ _ _ _ _ _ H Hx) Ha), He, Hp. unfold mbind, M_bind, lift. cbn [ok_or physical_address].
  assert (is_Some (phys_to_virt hhdm (frame_of e + a mod 4096))) as [w ->].
  { destruct Hhhdm as (h & -> & ? & ?). destruct Hf as [Hf _]. pose proof (Z.mod_pos_bound a 4096). eexists. apply checked_add_Some. split; [done|]. lia. }
  cbn [ok_or]. eexists. split; [reflexivity|]. split; [by eapply stored_world|]. pose proof (stored_here s W R root T L a e [v] H Hx Ha He Hp Hone Hvs Hfit 0 v eq_refl) as Hst. rewrite Z.add_0_r in Hst. split; [exact Hst|].
  intros r x Hr Hxr Hne. eapply stored_elsewhere; try done. intros [-> Hax]. apply Hne. f_equal. change (zlen [v]) with 1 in Hax. lia.
Qed.

Definition writes_only s s' (W : gmap Z space) (root : Z) (P : Z → Prop) : Prop :=
  ∀ r x, is_Some (W !! r) → 0 ≤ x < 2 ^ 47 → ¬ (r = root ∧ P x) → user_byte hhdm s' r x = user_byte hhdm s r x.

Lemma write_user_byte_spec s W R root T L a v : world s W R → exclusive W R → W !! root = Some (T, L) → 0 ≤ a < 2 ^ 47 → 0 ≤ v < 256 → may_write L (page_of a) = true →
  ∃ s' L', world s' (<[root := (T, L')]> W) R ∧ exclusive (<[root := (T, L')]> W) R ∧ (∀ w, may_write L' w = may_write L w) ∧
  match write_user_byte_in hhdm root a v s with
  | (s1, Ok _) => s1 = s' ∧ user_byte hhdm s' root a = Some v ∧ writes_only s s' W root (.= a)
  | (s1, Err _) => s1 = s' ∧ shared_at L (page_of a) = true ∧ same_view hhdm W s s'
  | _ => False
  end.
Proof.
  intros H Hex Hx Ha Hv Hmw. unfold may_write in Hmw. destruct (L !! page_of a) as [e|] eqn:He; [|done]. apply andb_prop in Hmw as [Hp Hmw].
  pose proof (world_focus _ _ _ _ _ _ H Hx) as Hl. destruct (rp_dom _ _ _ (lv_rep _ _ _ _ _ Hl) _ _ He) as (Hva & Hu & _).
  unfold write_user_byte_in, mbind, M_bind, get. rewrite flags_in_page by done. rewrite (flags_in_spec hhdm Hhhdm s root T L _ (page_of a) Hl Hva), He, Hp, cow_flag by done.
  destruct (is_cow e) eqn:Hc.
  - unfold user_err. pose proof (cow_spec hhdm Hhhdm s root T L _ a Hl Ha) as Hcow. destruct (resolve_cow_page hhdm root a s) as [s1 [[]|err|]]; [| | |done].
    + destruct Hcow as (e1 & f & He1 & _ & _ & Hf & Hus & _). assert (e1 = e) as -> by congruence.
      destruct (unshare_entry s W R root T L (page_of a) e f H Hx He Hp Hf) as (_ & Hp' & Hw' & _).
      pose proof (unshare_world s s1 W R root T L (page_of a) e f H Hx He Hp Hf Hus) as H1. pose proof (unshare_exclusive s s1 W R root T L (page_of a) e f H Hx He Hp Hf Hus Hex) as Hex1.
      pose proof (unshare_view hhdm Hhhdm s s1 W R root T L (page_of a) e f H Hx He Hp Hf Hus) as Hsv. set (L' := <[page_of a := Z.lor f (own_flags e)]> L) in *.
      destruct (write_private s1 _ R root T L' a (Z.lor f (own_flags e)) v H1 Hex1) as (s2 & Hr & Hw2 & Hb & Hoth); [apply lookup_insert_eq|done|done|apply lookup_insert_eq|done|done|].
      unfold mbind, M_bind in Hr. exists s2, L'. split; [done|]. split; [done|]. split; [intros w; by apply may_write_unshared|].
      cbn [mret M_ret]. rewrite Hr. split; [done|]. split; [done|]. intros r x Hrs Hxr Hne. rewrite Hoth; [by apply Hsv| |done|intros [= -> ->]; by apply Hne].
      destruct Hrs as [y Hy]. destruct (decide (r = root)) as [->|]; [by rewrite lookup_insert_eq|rewrite lookup_insert_ne by done; by exists y].
    + destruct Hcow as [_ Hsh]. unfold shared_at in Hsh. by rewrite He, Hp, Hc in Hsh.
    + destruct Hcow as (_ & Hsh & Hl1 & Hram & _). 
      assert (moved s root T L (total (delete root W) ⊎ R) s1 L (total (delete root W) ⊎ R) T) as Hm by (split; [done..| |done]; intros g _ x _; by rewrite Hram).
      pose proof (world_move _ _ _ _ _ _ _ _ _ _ H Hx Hm) as H1. exists s1, L. rewrite set_same_space in * by done. split_and!; try done.
      intros r x [y Hy] Hxr. eapply view_kept; try done. intros g _ z _. by rewrite Hram.
  - rewrite orb_false_r in Hmw. destruct (write_private s W R root T L a e v H Hex Hx Ha Hv He Hp Hmw) as (s2 & Hr & Hw2 & Hb & Hoth). unfold mbind, M_bind in Hr.
    exists s2, L. rewrite set_same_space by done. split_and!; try done. cbn [mret M_ret]. rewrite Hr. split_and!; [done..|]. intros r x Hrs Hxr Hne. apply Hoth; [done..|]. intros [= -> ->]. by apply Hne.
Qed.

Lemma in_insert (W : gmap Z space) root x r : is_Some (W !! r) → is_Some (<[root := x]> W !! r).
Proof. intros. destruct (decide (r = root)) as [->|]; [by rewrite lookup_insert_eq|by rewrite lookup_insert_ne]. Qed.
Lemma writes_only_weaken s s' W root (P Q : Z → Prop) : writes_only s s' W root P → (∀ x, P x → Q x) → writes_only s s' W root Q.
Proof. intros H HPQ r x Hr Hx Hn. apply H; [done..|]. naive_solver. Qed.
Lemma writes_only_trans s s1 s2 W W' root (P : Z → Prop) : (∀ r, is_Some (W !! r) → is_Some (W' !! r)) → writes_only s s1 W root P → writes_only s1 s2 W' root P → writes_only s s2 W root P.
Proof. intros HW H1 H2 r x Hr Hx Hn. rewrite H2; [by apply H1|by apply HW|done..]. Qed.
Lemma same_view_writes s s' W root (P : Z → Prop) : same_view hhdm W s s' → writes_only s s' W root P.
Proof. intros H r x Hr Hx _. by apply H. Qed.

Lemma write_bytes_spec root T a R : 0 ≤ a → ∀ bytes s W L o, world s W R → exclusive W R → W !! root = Some (T, L) → 0 ≤ o → a + o + zlen bytes ≤ 2 ^ 47 →
  Forall (λ b, 0 ≤ b < 256) bytes → (∀ i, 0 ≤ i < zlen bytes → may_write L (page_of (a + o + i)) = true) →
  ∃ s' L', world s' (<[root := (T, L')]> W) R ∧ exclusive (<[root := (T, L')]> W) R ∧ (∀ w, may_write L' w = may_write L w) ∧
    writes_only s s' W root (λ x, a + o ≤ x < a + o + zlen bytes) ∧
  match write_bytes_from hhdm root a o bytes s with
  | (s1, Ok _) => s1 = s' ∧ ∀ i b, bytes !! i = Some b → user_byte hhdm s' root (a + o + Z.of_nat i) = Some b
  | (s1, Err _) => s1 = s'
  | _ => False
  end.
Proof.
  intros Ha. induction bytes as [|b bytes IH]; intros s W L o H Hex Hx Ho Hend Hb Hmw; cbn [write_bytes_from].
  { exists s, L. rewrite set_same_space by done. split_and!; try done. }
  apply Forall_cons in Hb as [Hb1 Hb]. assert (zlen (b :: bytes) = 1 + zlen bytes) as Hlen by (rewrite length_cons; lia). rewrite Hlen in *. assert (0 ≤ zlen bytes) as Hnn by lia. unfold mbind, M_bind. replace (u64 (a + o)) with (a + o) by (symmetry; apply wrap_small; unfold is_u; lia).
  destruct (write_user_byte_spec s W R root T L (a + o) b H Hex Hx) as (s1 & L1 & H1 & Hex1 & Hm1 & Hr1); [lia|done|specialize (Hmw 0); rewrite Z.add_0_r in Hmw; apply Hmw; lia|].
  destruct (write_user_byte_in hhdm root (a + o) b s) as [s1' [[]|err|]]; [|destruct Hr1 as (-> & _ & Hsv); exists s1, L1; split_and!; try done; by apply same_view_writes|done]. destruct Hr1 as (-> & Hbyte & Hwo).
  destruct (IH s1 (<[root := (T, L1)]> W) L1 (o + 1) H1 Hex1) as (s2 & L2 & H2 & Hex2 & Hm2 & Hwo2 & Hr2); [apply lookup_insert_eq|lia|lia|done| |].
  { intros i Hi. rewrite Hm1. replace (a + (o + 1) + i) with (a + o + (i + 1)) by lia. apply Hmw. lia. }
  rewrite insert_insert_eq in H2, Hex2. exists s2, L2. split; [done|]. split; [done|]. split; [intros w; by rewrite Hm2|]. split.
  { eapply (writes_only_trans s s1 s2 W); [intros r; apply in_insert| |]; (eapply writes_only_weaken; [done|]); cbn; intros; lia. }
  destruct (write_bytes_from hhdm root a (o + 1) bytes s1) as [s3 [[]|err|]]; [|done..]. destruct Hr2 as [-> Hbs]. split; [done|]. intros [|i] c Hc.
  - injection Hc as <-. rewrite Z.add_0_r, <-Hbyte. apply Hwo2; [by rewrite lookup_insert_eq|lia|lia].
  - replace (a + o + Z.of_nat (S i)) with (a + (o + 1) + Z.of_nat i) by lia. by apply Hbs.
Qed.

(** The page's protection is not looked at: a page that is mapped read-only,
    shared or not, takes the byte in place. *)
Lemma write_ignores_protection s W R root T L a e v : world s W R → W !! root = Some (T, L) → 0 ≤ a < 2 ^ 47 → L !! page_of a = Some e → is_present e = true → is_cow e = false →
  write_user_byte_in hhdm root a v s = (set_ram s (store (ram s) (frame_of e + a mod 4096) [v]), Ok ()).
Proof.
  intros H Hx Ha He Hp Hc. pose proof (world_focus _ _ _ _ _ _ H Hx) as Hl. destruct (rp_dom _ _ _ (lv_rep _ _ _ _ _ Hl) _ _ He) as (Hva & Hu & _). pose proof (stored_frame s W R root T L a e H Hx He Hp) as [Hf _].
  unfold write_user_byte_in, mbind, M_bind, get. rewrite flags_in_page by done. rewrite (flags_in_spec hhdm Hhhdm s root T L _ (page_of a) Hl Hva), He, Hp, cow_flag, Hc by done. cbn [mret M_ret].
  rewrite (translate_in_spec hhdm Hhhdm s root T L _ a Hl Ha), He, Hp. unfold lift. cbn [ok_or physical_address].
  assert (is_Some (phys_to_virt hhdm (frame_of e + a mod 4096))) as [w ->]; [|done].
  destruct Hhhdm as (h & -> & ? & ?). pose proof (Z.mod_pos_bound a 4096). eexists. apply checked_add_Some. split; [done|]. lia.
Qed.
Lemma read_user_byte_spec s W R root T L a : world s W R → W !! root = Some (T, L) → 0 ≤ a < 2 ^ 47 →
  read_user_byte_in hhdm root a s = (s, ok_or InvalidUserAddress (user_byte hhdm s root a)).
Proof.
  intros H Hx Ha. unfold read_user_byte_in, user_byte, mbind, M_bind, get, lift. pose proof (world_focus _ _ _ _ _ _ H Hx) as Hl. rewrite (translate_in_spec hhdm Hhhdm s root T L _ a Hl Ha).
  destruct (L !! page_of a) as [e|] eqn:He; [|done]. destruct (is_present e) eqn:Hp; [|done]. cbn [ok_or physical_address option_bind].
  assert (is_Some (phys_to_virt hhdm (frame_of e + a mod 4096))) as [w ->]; [|done].
  destruct Hhhdm as (h & -> & ? & ?). pose proof (stored_frame s W R root T L a e H Hx He Hp) as [Hf _]. pose proof (Z.mod_pos_bound a 4096). eexists. apply checked_add_Some. split; [done|]. lia.
Qed.
End isolation.
