(* ===== verification/Fork.v ===== *)
(** * What processes see of memory

    Page-table operations act on a space as on a finite map; a fork gives the
    child the parent's memory; and what a process writes no other one sees. *)

From stdpp Require Import gmap gmultiset.
From S2P Require Import Prelude Words Vfs Buddy BuddySpec Frames SharedFrames Swap SwapSlots SwapSpec PageTable PageTableTree PageTableSpec PageTableSpaces PageTableFork PageTableClone UserMem.

(** ** An address space as a map *)

Inductive page_op := OpMap (va pa fl : Z) | OpUnmap (va : Z) | OpProtect (va : Z) (n : nat) (fl : Z) | OpDestroy.
Inductive page_res := RUnit (r : res MapError ()) | RFrame (r : res MapError (option Z)) | RCount (r : res MapError Z).

(** What the operations promise of the pages [L] and the frames [Y] their
    caller holds; a space without pages is gone after [OpDestroy]. *)
Inductive page_step : gmap Z Z * gmultiset Z → page_op → page_res → option (gmap Z Z) * gmultiset Z → Prop :=
  | map_new L Y va pa fl : present_at L va = false → page_step (L, {[+ pa +]} ⊎ Y) (OpMap va pa fl) (RUnit (Ok ())) (Some (<[va := map_entry pa fl]> L), Y)
  | map_twice L Y va pa fl : present_at L va = true → page_step (L, Y) (OpMap va pa fl) (RUnit (Err AlreadyMapped)) (Some L, Y)
  | map_full L Y va pa fl : present_at L va = false → page_step (L, Y) (OpMap va pa fl) (RUnit (Err OutOfMemory)) (Some L, Y)
  | unmap_page L Y va e : L !! va = Some e → is_present e = true → page_step (L, Y) (OpUnmap va) (RFrame (Ok (Some (frame_of e)))) (Some (delete va L), {[+ frame_of e +]} ⊎ Y)
  | unmap_swapped L Y va e : L !! va = Some e → is_swapped e = true → page_step (L, Y) (OpUnmap va) (RFrame (Ok None)) (Some (delete va L), Y)
  | unmap_nothing L Y va : present_at L va = false → (∀ e, L !! va = Some e → is_swapped e = false) → page_step (L, Y) (OpUnmap va) (RFrame (Ok None)) (Some L, Y)
  | protect_pages L Y va n fl : page_step (L, Y) (OpProtect va n fl) (RUnit (Ok ())) (Some (protected fl va n L), Y)
  | destroy_busy L Y : leaves L ≠ ∅ → page_step (L, Y) OpDestroy (RCount (Err MappingsRemain)) (Some L, Y)
  | destroy_empty L Y n : leaves L = ∅ → page_step (L, Y) OpDestroy (RCount (Ok n)) (None, Y).
(** The arguments: pages of the user half, frames of the caller's, and flags. *)
Definition op_ok (Y : gmultiset Z) (op : page_op) : Prop :=
  match op with
  | OpMap va pa fl => user_page va ∧ pa ∈ Y ∧ is_flags fl
  | OpUnmap va => user_page va
  | OpProtect va n fl => user_page va ∧ va + Z.of_nat n * 4096 ≤ 2 ^ 47 ∧ is_flags fl
  | OpDestroy => True
  end.

Section refinement.
Context {A : Type} {FA : FrameAllocator A} {SF : SharedFrames A} (hhdm : option Z) (cr3 : Z).
Implicit Types s : machine (A := A).

Definition page_run (root : Z) (op : page_op) s : machine (A := A) * page_res :=
  match op with
  | OpMap va pa fl => let '(s, r) := map hhdm root va pa fl s in (s, RUnit r)
  | OpUnmap va => let '(s, r) := unmap hhdm root va s in (s, RFrame r)
  | OpProtect va n fl => let '(s, r) := protect hhdm root va n fl s in (s, RUnit r)
  | OpDestroy => let '(s, r) := destroy_address_space hhdm cr3 root s in (s, RCount r)
  end.
(** The machine after: the space with the pages [L], or its tables given back. *)
Definition page_after s (root : Z) (L : option (gmap Z Z)) (Y : gmultiset Z) : Prop :=
  match L with
  | Some L => ∃ T, lives s root T L Y ∧ ∀ a, 0 ≤ a < 2 ^ 47 → translate_in hhdm s root a = (λ f, {| physical_address := f + a mod 4096; page_size := 4096 |}) <$> page_frame L (page_of a)
  | None => owned (pool s) Y
  end.

Lemma moved_after (Hh : ∃ h, hhdm = Some h ∧ 0 ≤ h ∧ h + 2 ^ 37 < 2 ^ 64) s root T L Y s' L' Y' T' : moved s root T L Y s' L' Y' T' → page_after s' root (Some L') Y' ∧ frames_kept Y s s'.
Proof.
  intros Hm. split.
  - exists T'. split; [apply Hm|]. intros a Ha. rewrite (translate_in_spec hhdm Hh _ _ _ _ _ a (mv_lives _ _ _ _ _ _ _ _ _ Hm) Ha). unfold page_frame. destruct (L' !! page_of a) as [e|]; [|done]. cbn. by destruct (is_present e).
  - intros f Hf. apply Hm. apply gmultiset_elem_of_disj_union. by right.
Qed.

(** C10: The four page-table operations refine operations on a finite map from
    pages to entries.  Whatever the tables in memory look like, each returns
    what the map says (a page mapped once, the frame of the page unmapped, a
    count only for a space without pages, and no error but running out of
    memory), leaves tables whose every translation is the map's and the frames
    the map says to the caller, writes to no frame of anyone else, and a space
    that is destroyed frees as many tables as it had. *)
Theorem page_tables_refine s root T L Y op : (∃ h, hhdm = Some h ∧ 0 ≤ h ∧ h + 2 ^ 37 < 2 ^ 64) → root ≠ cr3 → lives s root T L Y → op_ok Y op →
  let '(s', r) := page_run root op s in ∃ L' Y', page_step (L, Y) op r (L', Y') ∧ page_after s' root L' Y' ∧ frames_kept Y s s' ∧ ∀ n, r = RCount (Ok n) → n = Z.of_nat (size T).
Proof.
  intros Hh Hcr H Hop. pose proof (λ x, moved_after Hh s root T L Y x) as Hafter. destruct op as [va pa fl|va|va n fl|]; cbn [page_run op_ok] in *.
  - destruct Hop as (Hva & Hpa%gmultiset_disj_union_difference' & Hfl). set (Y0 := Y ∖ {[+ pa +]}) in *. clearbody Y0. subst Y.
    pose proof (map_spec hhdm Hh s root T L Y0 va pa fl H Hva Hfl) as Hm. destruct (map hhdm root va pa fl s) as [s' [[]|e|]]; [| |done].
    + destruct Hm as (Hp & T' & Hm). eexists (Some _), _. split; [by constructor|]. by edestruct Hafter; [done|split_and!].
    + destruct Hm as (Herr & T' & Hm). exists (Some L), ({[+ pa +]} ⊎ Y0). split; [|by edestruct Hafter; [done|split_and!]]. destruct Herr as [[-> Hp]|[-> Hp]]; by constructor.
  - pose proof (unmap_spec hhdm Hh s root T L Y va H Hop) as Hu. destruct (L !! va) as [e|] eqn:He.
    2: { rewrite Hu. exists (Some L), Y. split; [constructor; [unfold present_at; by rewrite He|congruence]|]. edestruct Hafter; [by apply moved_refl|by split_and!]. }
    destruct (is_present e) eqn:Hp; [|destruct (is_swapped e) eqn:Hsw].
    + destruct Hu as (s' & -> & _ & Hm). eexists (Some _), _. split; [by constructor|]. by edestruct Hafter; [done|split_and!].
    + destruct Hu as (s' & -> & _ & Hm). eexists (Some _), _. split; [by eapply unmap_swapped|]. by edestruct Hafter; [done|split_and!].
    + rewrite Hu. exists (Some L), Y. split; [constructor; [unfold present_at; by rewrite He|intros e' ?; congruence]|]. edestruct Hafter; [by apply moved_refl|by split_and!].
  - destruct Hop as (Hva & Hend & Hfl). destruct (protect_spec hhdm Hh s root T L Y va n fl H Hva Hend Hfl) as (s' & -> & _ & Hm). eexists (Some _), _. split; [by constructor|]. by edestruct Hafter; [done|split_and!].
  - pose proof (destroy_spec hhdm cr3 Hh s root T L Y H Hcr) as Hd. case_decide as Hl.
    + destruct Hd as (s' & -> & Ho & _ & _ & Hk). exists None, Y. split; [by constructor|]. split_and!; [done..|]. by intros n [= ->].
    + rewrite Hd. exists (Some L), Y. split; [by constructor|]. edestruct Hafter; [by apply moved_refl|by split_and!].
Qed.
End refinement.

(** ** Forks *)

Section fork.
Context {A : Type} {FA : FrameAllocator A} {SF : SharedFrames A} (hhdm : option Z) (cr3 : Z).
Implicit Types s : machine (A := A).

Lemma all_below L va e : entries_ok L → L !! va = Some e → (va <? 2 ^ 47) = true.
Proof. intros HL He. destruct (HL va e He) as ([? _] & _). apply Z.ltb_lt. lia. Qed.
Lemma frame_shared b L va : entries_ok L → page_frame (share_below b L) va = page_frame L va.
Proof.
  intros HL. unfold page_frame. rewrite lookup_share. destruct (L !! va) as [e|] eqn:He; [|done]. cbn. destruct (va <? b); [|done]. destruct (HL va e He) as (_ & Hu & Hnz & Hf). destruct (shared_ok e Hu Hf Hnz) as (_ & _ & -> & Hfr & _).
  destruct (is_present e); [by rewrite Hfr|done].
Qed.
Lemma frame_copied L va : entries_ok L → page_frame (all_copied L) va = page_frame L va.
Proof.
  intros HL. unfold page_frame, all_copied. rewrite lookup_copies. destruct (L !! va) as [e|] eqn:He; [|done]. cbn [mbind option_bind]. rewrite (all_below L va e HL He). cbn [andb]. destruct (is_present e) eqn:Hp; [|done]. cbn.
  destruct (HL va e He) as (_ & Hu & Hnz & Hf). destruct (shared_ok e Hu Hf Hnz) as (_ & _ & -> & Hfr & _). by rewrite Hp, Hfr.
Qed.
Lemma write_shared b L va : entries_ok L → may_write (share_below b L) va = may_write L va.
Proof.
  intros HL. unfold may_write. rewrite lookup_share. destruct (L !! va) as [e|] eqn:He; [|done]. cbn. destruct (va <? b); [|done]. destruct (HL va e He) as (_ & Hu & Hnz & Hf). destruct (shared_ok e Hu Hf Hnz) as (_ & _ & -> & _ & Hw).
  destruct (is_present e); [|done]. by destruct (Hw eq_refl) as [_ ->].
Qed.
Lemma write_copied L va : entries_ok L → may_write (all_copied L) va = may_write L va.
Proof.
  intros HL. unfold may_write, all_copied. rewrite lookup_copies. destruct (L !! va) as [e|] eqn:He; [|done]. cbn [mbind option_bind]. rewrite (all_below L va e HL He). cbn [andb]. destruct (is_present e) eqn:Hp; [|done].
  destruct (HL va e He) as (_ & Hu & Hnz & Hf). destruct (shared_ok e Hu Hf Hnz) as (_ & _ & -> & _ & Hw). rewrite Hp. cbn [andb]. by destruct (Hw Hp) as [_ ->].
Qed.

(** Entries that are shared are not writable. *)
Lemma exclusive_shared s W R src T L b : world s W R → W !! src = Some (T, L) → exclusive W R → exclusive (<[src := (T, share_below b L)]> W) R.
Proof.
  intros H Hx Hex r y va e Hy He Hp Hw. pose proof (world_entries _ _ _ _ _ _ H Hx) as HL.
  assert (total (<[src := (T, share_below b L)]> W) = total W) as ->. { rewrite <-insert_delete_eq, total_insert, (total_delete W src _ Hx) by apply lookup_delete_eq. unfold frames_of. cbn [fst snd]. by rewrite leaves_share. }
  apply lookup_insert_Some in Hy as [[<- <-]|[_ Hy]]; [|by eapply Hex]. cbn [snd] in He. rewrite lookup_share in He. destruct (L !! va) as [e0|] eqn:He0; [|done]. cbn in He. injection He as <-. destruct (va <? b); [|by eapply (Hex src)].
  destruct (HL va e0 He0) as (_ & Hu & Hnz & Hf). destruct (shared_ok e0 Hu Hf Hnz) as (_ & _ & Hp' & _ & Hnw). rewrite Hp' in Hp. destruct (Hnw Hp) as [Hn _]. congruence.
Qed.
Lemma exclusive_copied s s' W R src T L new Tn : world s W R → W !! src = Some (T, L) → exclusive W R → src ≠ new → W !! new = None →
  world s' (both src (T, all_shared L) new (Tn, all_copied L) (delete src W)) R → exclusive (both src (T, all_shared L) new (Tn, all_copied L) (delete src W)) R.
Proof.
  intros H Hx Hex Hne Hnew H' r y va e Hy He Hp Hw. pose proof (world_entries _ _ _ _ _ _ H Hx) as HL. assert (∀ e0, L !! va = Some e0 → is_present e0 = true → is_writable (shared e0) = true → False) as Hsh.
  { intros e0 He0 Hp0 Hw0. destruct (HL va e0 He0) as (_ & Hu & Hnz & Hf). destruct (shared_ok e0 Hu Hf Hnz) as (_ & _ & _ & _ & Hnw). destruct (Hnw Hp0) as [Hn _]. congruence. }
  apply lookup_insert_Some in Hy as [[<- <-]|[Hr1 Hy]]; [|apply lookup_insert_Some in Hy as [[<- <-]|[Hr2 Hy]]]; cbn [snd] in He.
  - exfalso. unfold all_shared in He. rewrite lookup_share in He. destruct (L !! va) as [e0|] eqn:He0; [|done]. cbn in He. rewrite (all_below L va e0 HL He0) in He. injection He as <-.
    destruct (HL va e0 He0) as (_ & Hu & Hnz & Hf). destruct (shared_ok e0 Hu Hf Hnz) as (_ & _ & Hp' & _). rewrite Hp' in Hp. by eapply Hsh.
  - exfalso. unfold all_copied in He. rewrite lookup_copies in He. destruct (L !! va) as [e0|] eqn:He0; [|done]. cbn [mbind option_bind] in He. rewrite (all_below L va e0 HL He0) in He. cbn [andb] in He. destruct (is_present e0) eqn:Hp0; [|done]. injection He as <-. by eapply Hsh.
  - assert (V0 : delete src W !! new = None) by (by rewrite lookup_delete_ne). pose proof Hy as [_ Hy0]%lookup_delete_Some. pose proof (Hex r y va e Hy0 He Hp Hw) as Hone.
    assert (frame_of e ∈ total (delete src W)) as Hin. { apply elem_of_total. exists r, y. split; [done|]. apply gmultiset_elem_of_disj_union. right. apply elem_of_leaves. by exists va, e. }
    assert (frame_of e ∉ tables Tn) as Hnt. { intros Ht%elem_of_tables. destruct Ht as [p Ht]. pose proof (world_focus _ _ _ _ _ _ H' (both_new src new _ Hne _ _)) as Hl. eapply (ho_apart _ _ _ _ (lv_hosts _ _ _ _ _ Hl)); [done|].
      rewrite both_drop_new, total_src by (done || apply lookup_delete_eq). rewrite !gmultiset_elem_of_disj_union. tauto. }
    rewrite total_both by (done || apply lookup_delete_eq). rewrite (total_delete W src _ Hx) in Hone. unfold frames_of in Hone |- *. cbn [fst snd] in Hone |- *. unfold all_shared, all_copied. rewrite leaves_share by done.
    pose proof (leaves_copies (2 ^ 47) L HL) as Hlc. rewrite <-Hlc in Hone |- *. rewrite elem_of_multiplicity in Hin. apply not_elem_of_multiplicity in Hnt. rewrite !multiplicity_disj_union in Hone. rewrite !multiplicity_disj_union. lia.
Qed.

(** C8: A fork gives the child the parent's resident memory and takes nothing
    from anyone.  Assume that before the fork no writable page shares its frame
    ([exclusive]; [mprotect] can break this, see [mprotect_shares_writes]) and
    that no frame of the parent gets more than 65535 references, where the
    counts saturate.  After [clone_user_address_space] the child reads at every
    user address of a resident page what the parent read there, and has no
    entry at all for the parent's pages that are not resident: a swapped-out
    page is lost to the child.  Every process reads what it read before, the
    child may write where the parent might, and again no writable page shares
    its frame.  If memory runs out the copy is undone: no process sees a
    change, and the spaces are those there were. *)
Theorem fork_shares_memory s W R src T L : (∃ h, hhdm = Some h ∧ 0 ≤ h ∧ h + 2 ^ 37 < 2 ^ 64) → world s W R → exclusive W R → W !! src = Some (T, L) → cr3 ∈ total W ⊎ R →
  (∀ f, f ∈ leaves L → Z.of_nat (multiplicity f (leaves L ⊎ (total W ⊎ R))) ≤ 65535) →
  match clone_user_address_space hhdm cr3 src s with
  | (s', Ok (new, pages)) => W !! new = None ∧ ∃ Ls Tn Ln, world s' (<[src := (T, Ls)]> (<[new := (Tn, Ln)]> W)) R ∧ exclusive (<[src := (T, Ls)]> (<[new := (Tn, Ln)]> W)) R ∧
      same_view hhdm W s s' ∧ (∀ a, 0 ≤ a < 2 ^ 47 → user_byte hhdm s' new a = user_byte hhdm s src a) ∧ (∀ va, may_write Ls va = may_write L va ∧ may_write Ln va = may_write L va) ∧
      (∀ va, va ∈ pages.*1 ↔ present_at L va = true) ∧ (∀ va, present_at L va = false → Ln !! va = None)
  | (s', Err e) => e = OutOfMemory ∧ ∃ Ls, world s' (<[src := (T, Ls)]> W) R ∧ exclusive (<[src := (T, Ls)]> W) R ∧ same_view hhdm W s s' ∧ ∀ va, may_write Ls va = may_write L va
  | _ => False
  end.
Proof.
  intros Hh H Hex Hx Hcr Hcount. pose proof (world_entries _ _ _ _ _ _ H Hx) as HL. pose proof (clone_spec hhdm cr3 Hh s W R src T L H Hx Hcr Hcount) as Hc.
  assert (∀ f r y, W !! r = Some y → f ∈ leaves y.2 → f ∈ leaves L ⊎ (total (delete src W) ⊎ R)) as Hin.
  { intros f r y Hy Hf. rewrite !gmultiset_elem_of_disj_union. destruct (decide (r = src)) as [->|Hr]; [left; by replace y with (T, L) in Hf by congruence|]. right. left. apply elem_of_total. exists r, y. rewrite lookup_delete_ne by done. split; [done|]. apply gmultiset_elem_of_disj_union. by right. }
  destruct (clone_user_address_space hhdm cr3 src s) as [s' [[new pages]|e|]]; [| |done].
  - destruct Hc as (Hn & Tn & H' & Hk & Hpg). split; [done|]. assert (src ≠ new) as Hne by congruence. pose proof (exclusive_copied s s' W R src T L new Tn H Hx Hex Hne Hn H') as Hex'.
    assert (both src (T, all_shared L) new (Tn, all_copied L) (delete src W) = <[src := (T, all_shared L)]> (<[new := (Tn, all_copied L)]> W)) as Hb. { rewrite (insert_insert_ne (delete src W)), insert_delete_eq by done. by rewrite insert_insert_ne. }
    rewrite Hb in *. exists (all_shared L), Tn, (all_copied L). split_and!; [done..| | | | |].
    + intros r a [y Hy] Ha. assert (∃ y', (<[src := (T, all_shared L)]> (<[new := (Tn, all_copied L)]> W)) !! r = Some y' ∧ page_frame y'.2 (page_of a) = page_frame y.2 (page_of a)) as (y' & Hy' & Hpf).
      { destruct (decide (r = src)) as [->|Hr]; [exists (T, all_shared L); rewrite lookup_insert_eq; split; [done|]; replace y with (T, L) by congruence; by apply frame_shared|]. exists y. rewrite !lookup_insert_ne by congruence. done. }
      eapply (view_kept hhdm Hh s s' W _ R R r y y'); try done. intros f Hf%page_frame_in. apply Hk. by eapply Hin.
    + intros a Ha. rewrite (user_byte_page hhdm Hh s' _ R new Tn (all_copied L) a H'), (user_byte_page hhdm Hh s W R src T L a) by (done || (rewrite lookup_insert_ne by done; apply lookup_insert_eq)). rewrite frame_copied by done.
      destruct (page_frame L (page_of a)) as [f|] eqn:Hf; [|done]. cbn. f_equal. apply (Hk f); [apply (Hin f src (T, L) Hx); by eapply page_frame_in|]. pose proof (Z.mod_pos_bound a 4096). lia.
    + intros va. split; [by apply write_shared|by apply write_copied].
    + intros va. rewrite Hpg. unfold all_copied, present_at. rewrite lookup_copies. destruct (L !! va) as [e|] eqn:He; cbn [mbind option_bind]; [|split; [by intros []|done]]. rewrite (all_below L va e HL He). cbn [andb]. destruct (is_present e); split; try done; by intros [].
    + intros va Hva. unfold present_at in Hva. unfold all_copied. rewrite lookup_copies. destruct (L !! va) as [e|]; [|done]. cbn in *. rewrite Hva. by rewrite andb_false_r.
  - destruct Hc as (-> & b & H' & Hk). split; [done|]. exists (share_below b L). split_and!; [done|by eapply exclusive_shared| |intros va; by apply write_shared].
    intros r a [y Hy] Ha. assert (∃ y', (<[src := (T, share_below b L)]> W) !! r = Some y' ∧ page_frame y'.2 (page_of a) = page_frame y.2 (page_of a)) as (y' & Hy' & Hpf).
    { destruct (decide (r = src)) as [->|Hr]; [exists (T, share_below b L); rewrite lookup_insert_eq; split; [done|]; replace y with (T, L) by congruence; by apply frame_shared|]. exists y. by rewrite lookup_insert_ne by congruence. }
    eapply (view_kept hhdm Hh s s' W _ R R r y y'); try done. intros f Hf%page_frame_in. apply Hk. by eapply Hin.
Qed.

(** C9: What a process writes no other process sees, in a system where no
    writable page shares its frame ([exclusive], which fork and these writes
    preserve but [mprotect] of a page shared until written breaks: see
    [mprotect_shares_writes]).  However the other pages are shared,
    [write_user_bytes_in] at addresses the process may write, below the user
    limit, changes exactly those bytes of that process's memory: no byte of
    another process and no other byte of its own changes, still no writable
    page shares its frame, and it does not panic; when it succeeds every byte
    is stored, and when a page cannot be copied it fails part way through. *)
Theorem user_write_isolated s W R root T L a bytes : (∃ h, hhdm = Some h ∧ 0 ≤ h ∧ h + 2 ^ 37 < 2 ^ 64) → world s W R → exclusive W R → W !! root = Some (T, L) →
  0 ≤ a → a + zlen bytes ≤ 2 ^ 47 → Forall (λ b, 0 ≤ b < 256) bytes → (∀ i, 0 ≤ i < zlen bytes → may_write L (page_of (a + i)) = true) →
  let '(s', r) := write_user_bytes_in hhdm root a bytes s in
  (∃ L', world s' (<[root := (T, L')]> W) R ∧ exclusive (<[root := (T, L')]> W) R ∧ ∀ va, may_write L' va = may_write L va) ∧
  writes_only hhdm s s' W root (λ x, a ≤ x < a + zlen bytes) ∧ r ≠ Panic ∧
  (r = Ok () → ∀ i b, bytes !! i = Some b → user_byte hhdm s' root (a + Z.of_nat i) = Some b).
Proof.
  intros Hh H Hex Hx Ha Hend Hb Hmw. destruct (write_bytes_spec hhdm Hh root T a R Ha bytes s W L 0 H Hex Hx) as (s1 & L' & H' & Hex' & Hm & Hwo & Hr); [lia|lia|done|intros i Hi; rewrite Z.add_0_r; by apply Hmw|].
  rewrite Z.add_0_r in *. unfold write_user_bytes_in. destruct (write_bytes_from hhdm root a 0 bytes s) as [s' [[]|e|]]; [|subst s1|done].
  - destruct Hr as [<- Hbs]. split; [by exists L'|]. split_and!; [done..|]. intros _. exact Hbs.
  - split; [by exists L'|]. by split_and!.
Qed.
End fork.

(** ** A machine with one process *)

Lemma lives_world {A} {FA : FrameAllocator A} {SF : SharedFrames A} (s : machine (A := A)) root T L R : lives s root T L R → world s {[root := (T, L)]} R.
Proof.
  intros H. pose proof (lv_hosts _ _ _ _ _ H) as [Hram _ Ho _]. assert (total ∅ = ∅) as Ht by apply msum_empty. rewrite <-insert_empty.
  apply (world_join s s ∅ (tables T ⊎ (leaves L ⊎ R))); [|apply lookup_empty|by rewrite Ht, (left_id_L ∅ (⊎))|intros f Hf; apply same_frame_refl|].
  - split; [done|by rewrite Ht, (left_id_L ∅ (⊎))|intros r x Hx; by rewrite lookup_empty in Hx|]. intros u (r & x & p & Hx & _). by rewrite lookup_empty in Hx.
  - intros u (r & x & p & Hx & _). by rewrite lookup_empty in Hx.
Qed.

Module One.
#[local] Existing Instances machine_frames machine_shared.
Definition hhdm : option Z := Some 0xffff800000000000.
Definition root : Z := 4096.
Definition page : Z := 0x400000.
Definition flags : Z := Z.lor MAP_USER MAP_WRITABLE.
Definition pool0 : BuddyAllocator := (alloc_frame (alloc_frame sample).1).1.
Definition s0 : machine (A := BuddyAllocator) := {| ram := λ _, 0; pool := pool0; swap_slots := new_manager |}.
Definition s1 : machine (A := BuddyAllocator) := (map hhdm root page 8192 flags s0).1.
Definition L1 : gmap Z Z := {[page := map_entry 8192 flags]}.

Lemma direct : ∃ h, hhdm = Some h ∧ 0 ≤ h ∧ h + 2 ^ 37 < 2 ^ 64.
Proof. by eexists. Qed.
Lemma empty_lives : lives s0 root {[[] := root]} ∅ ({[+ 8192 +]} ⊎ ∅).
Proof.
  assert (owned pool0 ({[+ 8192 +]} ⊎ ({[+ 4096 +]} ⊎ ∅))) as Ho.
  { destruct (alloc_frame sample) as [a1 o1] eqn:E1. assert (o1 = Some 4096) as -> by (change o1 with (a1, o1).2; rewrite <-E1; vm_compute; reflexivity). destruct (owned_alloc_some _ _ _ _ machine_owned E1) as [_ Ho1].
    destruct (alloc_frame a1) as [a2 o2] eqn:E2. assert (o2 = Some 8192) as -> by (change o2 with (a2, o2).2; rewrite <-E2; change a1 with (a1, Some 4096).1; rewrite <-E1; vm_compute; reflexivity).
    destruct (owned_alloc_some _ _ _ _ Ho1 E2) as [_ Ho2]. unfold pool0. rewrite E1. cbn [fst]. by rewrite E2. }
  split; [split|].
  - intros x. cbn. lia.
  - split.
    + apply lookup_singleton_eq.
    + intros p t [<- <-]%lookup_singleton_Some. split; [|done]. split; [cbn; lia|]. split; [constructor|done].
    + by intros p q t [<- _]%lookup_singleton_Some [<- _]%lookup_singleton_Some.
    + intros p i [t [Hx _]%lookup_singleton_Some]. by destruct p.
    + intros p t i [<- <-]%lookup_singleton_Some _. by rewrite lookup_singleton_ne.
  - unfold leaves. rewrite tables_singleton, msum_empty, (left_id_L ∅ (⊎)). cbn [pool s0]. unfold root. by replace ({[+ 4096 +]} ⊎ ({[+ 8192 +]} ⊎ ∅) : gmultiset Z) with ({[+ 8192 +]} ⊎ ({[+ 4096 +]} ⊎ ∅) : gmultiset Z) by multiset_solver.
  - intros p t [<- <-]%lookup_singleton_Some. unfold leaves. rewrite msum_empty. unfold root. multiset_solver.
  - split; [done|]. intros va Hva. rewrite lookup_empty. unfold leaf_at, leaf. by rewrite lookup_singleton_ne.
Qed.
Lemma flags_ok : is_flags flags.
Proof. apply flags_lor; apply bit_flags; lia. Qed.
Lemma page_ok : user_page page.
Proof. by split; [unfold page; lia|]. Qed.
Lemma mapped_lives : ∃ T, lives s1 root T L1 ∅.
Proof.
  pose proof (map_spec hhdm direct s0 root {[[] := root]} ∅ ∅ page 8192 flags empty_lives page_ok flags_ok) as Hm. unfold s1. assert ((map hhdm root page 8192 flags s0).2 = Ok ()) as Hr by (vm_compute; reflexivity).
  destruct (map hhdm root page 8192 flags s0) as [s' r]. cbn [fst snd] in *. rewrite Hr in Hm. destruct Hm as (_ & T & Hm). exists T. apply Hm.
Qed.
Lemma leaves_one : leaves L1 = {[+ 8192 +]}.
Proof. unfold L1. rewrite <-insert_empty, leaves_insert, delete_empty. unfold leaves. rewrite msum_empty, (right_id_L ∅ (⊎)). done. Qed.
Lemma one_world : ∃ T, world s1 {[root := (T, L1)]} ∅ ∧ exclusive {[root := (T, L1)]} ∅ ∧ root ∈ total {[root := (T, L1)]} ⊎ ∅ ∧
  ∀ f, f ∈ leaves L1 → Z.of_nat (multiplicity f (leaves L1 ⊎ (total {[root := (T, L1)]} ⊎ ∅))) ≤ 65535.
Proof.
  destruct mapped_lives as [T Hl]. exists T. pose proof (lives_world _ _ _ _ _ Hl) as H. assert (total {[root := (T, L1)]} = tables T ⊎ leaves L1) as Ht by (unfold total; rewrite <-insert_empty, msum_insert, msum_empty by apply lookup_empty; by rewrite (right_id_L ∅ (⊎))).
  assert (multiplicity 8192%Z (tables T) = 0%nat) as Hnt. { apply not_elem_of_multiplicity. intros [p Hp]%elem_of_tables. eapply (ho_apart _ _ _ _ (lv_hosts _ _ _ _ _ Hl)); [done|]. rewrite leaves_one. apply elem_head. }
  split; [done|]. split; [|split].
  - intros r x va e [<- <-]%lookup_singleton_Some He _ _. cbn [snd] in He. unfold L1 in He. apply lookup_singleton_Some in He as [<- <-]. change (frame_of (map_entry 8192 flags)) with 8192. rewrite Ht, leaves_one, !multiplicity_disj_union, Hnt. rewrite multiplicity_empty, multiplicity_singleton_eq. lia.
  - rewrite Ht, !gmultiset_elem_of_disj_union. left. left. apply elem_of_tables. exists []. apply Hl.
  - intros f. rewrite leaves_one. intros ->%gmultiset_elem_of_singleton. rewrite Ht, leaves_one, !multiplicity_disj_union, Hnt, multiplicity_empty, multiplicity_singleton_eq. lia.
Qed.

Lemma page_tables_refine_witness : let '(s', r) := page_run hhdm 0 root (OpMap page 8192 flags) s0 in ∃ L' Y',
  page_step (∅, {[+ 8192 +]} ⊎ ∅) (OpMap page 8192 flags) r (L', Y') ∧ page_after hhdm s' root L' Y' ∧ frames_kept ({[+ 8192 +]} ⊎ ∅) s0 s' ∧ ∀ n, r = RCount (Ok n) → n = 1.
Proof. apply (page_tables_refine hhdm 0 s0 root {[[] := root]} ∅ ({[+ 8192 +]} ⊎ ∅) (OpMap page 8192 flags) direct ltac:(done) empty_lives). split_and!; [apply page_ok|apply elem_head|apply flags_ok]. Defined.

Lemma fork_shares_memory_witness : ∃ T,
  match clone_user_address_space hhdm root root s1 with
  | (s', Ok (new, pages)) => ({[root := (T, L1)]} : gmap Z space) !! new = None ∧ ∃ Ls Tn Ln, world s' (<[root := (T, Ls)]> (<[new := (Tn, Ln)]> {[root := (T, L1)]})) ∅ ∧ exclusive (<[root := (T, Ls)]> (<[new := (Tn, Ln)]> {[root := (T, L1)]})) ∅ ∧
      same_view hhdm {[root := (T, L1)]} s1 s' ∧ (∀ a, 0 ≤ a < 2 ^ 47 → user_byte hhdm s' new a = user_byte hhdm s1 root a) ∧ (∀ va, may_write Ls va = may_write L1 va ∧ may_write Ln va = may_write L1 va) ∧
      (∀ va, va ∈ pages.*1 ↔ present_at L1 va = true) ∧ (∀ va, present_at L1 va = false → Ln !! va = None)
  | (s', Err e) => e = OutOfMemory ∧ ∃ Ls, world s' (<[root := (T, Ls)]> {[root := (T, L1)]}) ∅ ∧ exclusive (<[root := (T, Ls)]> {[root := (T, L1)]}) ∅ ∧ same_view hhdm {[root := (T, L1)]} s1 s' ∧ ∀ va, may_write Ls va = may_write L1 va
  | _ => False
  end.
Proof. destruct one_world as (T & H & Hex & Hcr & Hcount). exists T. apply (fork_shares_memory hhdm root s1 {[root := (T, L1)]} ∅ root T L1 direct H Hex (lookup_singleton_eq _ _) Hcr Hcount). Defined.

Lemma user_write_isolated_witness : ∃ T, let '(s', r) := write_user_bytes_in hhdm root (page + 5) [1; 2] s1 in
  (∃ L', world s' (<[root := (T, L')]> {[root := (T, L1)]}) ∅ ∧ exclusive (<[root := (T, L')]> {[root := (T, L1)]}) ∅ ∧ ∀ va, may_write L' va = may_write L1 va) ∧
  writes_only hhdm s1 s' {[root := (T, L1)]} root (λ x, page + 5 ≤ x < page + 5 + zlen [1; 2]) ∧ r ≠ Panic ∧
  (r = Ok () → ∀ i b, [1; 2] !! i = Some b → user_byte hhdm s' root (page + 5 + Z.of_nat i) = Some b).
Proof.
  destruct one_world as (T & H & Hex & _). exists T. apply (user_write_isolated hhdm s1 {[root := (T, L1)]} ∅ root T L1 (page + 5) [1; 2] direct H Hex (lookup_singleton_eq _ _)); [unfold page; lia|done|repeat constructor; lia|].
  intros i Hi. cbn in Hi. assert (i = 0 ∨ i = 1) as [-> | ->] by lia; vm_compute; reflexivity.
Defined.

(** ** What goes wrong *)

(** A fork, then [protect] in the child with the flags of [mprotect(PROT_READ |
    PROT_WRITE)], then a store by the child: the parent sees it, since
    [protect] takes no notice of pages that are shared until written. *)
Definition forked : machine (A := BuddyAllocator) * Z :=
  match clone_user_address_space hhdm root root s1 with (s, Ok (new, _)) => (s, new) | (s, _) => (s, 0) end.
Definition child_writes (s : machine (A := BuddyAllocator)) (child : Z) : machine (A := BuddyAllocator) := (write_user_byte_in hhdm child page 7 s).1.
Lemma mprotect_shares_writes :
  let '(s, child) := forked in
  user_byte hhdm (child_writes s child) root page = Some 0 ∧
  user_byte hhdm (child_writes (protect hhdm child page 1 flags s).1 child) root page = Some 7.
Proof. vm_compute. by split. Qed.

(** A page that is swapped out is not in the copy. *)
Lemma fork_forgets_swapped {A} {FA : FrameAllocator A} {SF : SharedFrames A} h cr3 (s : machine (A := A)) W R src T L va e :
  (∃ x, h = Some x ∧ 0 ≤ x ∧ x + 2 ^ 37 < 2 ^ 64) → world s W R → W !! src = Some (T, L) → cr3 ∈ total W ⊎ R → (∀ f, f ∈ leaves L → Z.of_nat (multiplicity f (leaves L ⊎ (total W ⊎ R))) ≤ 65535) →
  L !! va = Some e → is_swapped e = true →
  match clone_user_address_space h cr3 src s with (s', Ok (new, _)) => ∃ Tn Ln Y, lives s' new Tn Ln Y ∧ Ln !! va = None | _ => True end.
Proof.
  intros Hh H Hx Hcr Hc He Hs. pose proof (clone_spec h cr3 Hh s W R src T L H Hx Hcr Hc) as Hcl. destruct (clone_user_address_space h cr3 src s) as [s' [[new pages]| |]]; [|done..]. destruct Hcl as (Hn & Tn & H' & _).
  assert (src ≠ new) as Hne by congruence. eexists Tn, (all_copied L), _. split; [apply (world_focus _ _ _ new Tn (all_copied L) H'); by apply both_new|]. unfold all_copied. rewrite lookup_copies, He. cbn. unfold is_swapped in Hs. destruct (is_present e); [done|]. by rewrite andb_false_r.
Qed.

(** A page of 1 GiB at physical 0x40000000: the mask drops its low address bits. *)
Definition giant : machine (A := BuddyAllocator) :=
  {| ram := write_u64 (write_u64 (λ _, 0) 4096 (Z.lor 8192 PRESENT)) 8192 (Z.lor (Z.lor 0x40000000 PRESENT) HUGE_PAGE); pool := pool0; swap_slots := new_manager |}.
Lemma giant_page_lost : physical_address <$> translate_in hhdm giant root 0x123 = Some 0x123.
Proof. vm_compute. reflexivity. Qed.
End One.
